(* ===== verification/_CoqProject ===== *)
-Q . S2P
Prelude.v
Abi.v
StateM.v
Pmm.v
FrameMapper.v
Heap.v
Kpages.v
Paging.v
MemoryOnPaging.v
Sched.v
SchedInv.v
SchedRun.v
SchedLive.v
Cpu.v
CpuWf.v
CpuAlu.v
CpuMath.v
CpuStack.v
Sha256.v
Zrp.v
Pipe.v
Fat.v
FatTable.v
FatData.v
FatRun.v
FatDir.v
FatOps.v
Libc.v
LibcNum.v
LibcSort.v
Events.v
Tile.v
TileLayout.v
TileRun.v
Namespace.v
Paths.v
Vfs.v
VfsRefs.v
VfsSystem.v
Resolve.v
VfsList.v
Ramfs.v
RamfsRun.v
Elf.v
ElfLoad.v
Sbrk.v
ElfOnPaging.v
Malloc.v
MallocList.v
MallocRun.v
MallocOnSbrk.v
