(* ===== verification/Prelude.v ===== *)
(** * A verification library for ManiOS and its kernel, ZKT

    ManiOS is an operating system for 32-bit PCs: the kernel ZKT (under
    [src/zkt]), a C library ([src/libc]), command line programs and a DOS
    environment ([src/userland]) and a tiling desktop ([src/desktop]). This
    library translates parts of its C sources into definitions, function by
    function and under their names, and proves that they do what they are for.

    ** How the parts interact

    The frame allocator ([zkt/mm/pmm.c]) owns physical memory. The paging code
    ([zkt/arch/i386/paging.c]) takes tables from it and maps frames; the kernel
    heap, kernel pages and kernel stacks ([zkt/mm]) and the program loader
    ([zkt/kernel/elf.c]) are its clients, and so is the heap of a process
    ([process_sbrk]), which [malloc] of the C library grows. The scheduler
    ([zkt/scheduler/sched.c]) runs the threads; pipes ([zkt/fs/pipe.c]) sleep
    and wake through its wait queues. Files are reached through namespaces
    ([zkt/fs/namespace.c]) and the VFS ([zkt/fs/vfs.c]), which call the file
    systems: in memory ([zkt/fs/ramfs.c]) and on disks ([zkt/fs/fat.c], over
    the block transfers of [zkt/drivers/device.c]). Machines share files with
    ZRP messages ([zkt/net/zrp_msg.c]), authenticated with SHA-256
    ([zkt/kernel/sha256.c], [zkt/net/zrp_auth.c]). In user space are the C
    library, the 8086/386 interpreter of [dosrun]
    ([userland/dosrun/cpu.c]), and the desktop, [ManiDE] ([desktop/manide]).

    ** Conventions

    C integers are [Z] with their wrap-around written out ([u8], [u16], [u32],
    [signed]). C strings are lists of bytes without the NUL, arrays are lists or
    functions, pointers are numbers or keys of a map, and NULL is 0. A [#define]
    is an abbreviation or a definition of the same name. Loops that are not
    structural take fuel: [NoFuel] or [Hang] is a loop that did not end, and a
    theorem that an operation returns a value thereby says that it ends. The
    fuel is given by the code's own bounds (a register, the number of clusters,
    the length of a path or of a list of program headers), or the theorem says
    how much is enough (FAT directories: more than the slots there are). A free
    list is walked with one unit per 16 bytes of heap, which no list exceeds.
    [Panic] is a kernel panic, or an access the C code must not make (in [Zrp],
    [None]). Code that
    runs with interrupts off or under a lock is one step; where threads
    interleave between steps ([Sched], [Pipe]) the theorems are about all
    sequences of them. Whether an allocation or a transfer succeeds is an
    argument.

    ** The files

    - [Prelude]: integers, arrays, loops, outcomes, tactics and hints.
      [Abi]: node types and error numbers of [zkt_abi.h]. [StateM]: the
      state and error monad of the file system code and its logic ([wp], [runs]).
    - [Pmm]: [pmm.c] and [dma.c]. [pmm] is the static state of the file. No
      frame is handed out twice or lost over any run, [pmm_init] frees exactly
      the frames the boot map allows and counts them.
    - [FrameMapper]: the interface (a class with its laws) between the memory
      managers and paging. [Heap]: [heap.c], with headers in memory, refines a
      finite map of live blocks. [Kpages]: [kpage.c] and [kstack.c]. [Paging]:
      page tables in physical words reached through the recursive mapping; the
      instance of the interface. [MemoryOnPaging]: the managers run on it.
    - [Sched]: [sched.c] with its pointer-linked queues. [SchedInv],
      [SchedRun]: the lists behind the pointers, kept by every operation.
      [SchedLive]: the invariant along all runs, and that a ready thread runs
      within a bounded number of ticks.
    - [Cpu]: the interpreter, [cpu_step] being one instruction. [CpuWf]: every
      byte sequence executes, ends and stays in range. [CpuAlu], [CpuMath],
      [CpuStack]: arithmetic with its flags, division, shifts, decimal
      adjustment, and the stack, against their definitions on integers.
    - [Sha256]: the streaming hash is the hash of the whole message; HMAC.
      [Zrp]: decoding what was encoded, staying inside the buffer on hostile
      messages; nonces, keys and proofs.
    - [Pipe]: messages arrive once and in order, and no wakeup is lost.
    - [Fat]: all of [fat.c]. [FatTable]: the table as an array of entries.
      [FatData]: what is written is read, the directory entry follows, and
      nothing else changes. [FatRun]: operations on files end on any disk.
      [FatDir]: searches, which do not end on a chain that loops, names,
      mounting.
      [FatOps]: creating, removing and renaming. The theorems on linking
      clusters are about FAT16, because [fat_set_entry] does not replace even
      FAT12 entries ([FatTable.fat12_even_entries]); those on directory changes
      and on writing are about the fixed root directory and its files.
    - [Namespace], [Vfs]: [namespace.c] and [vfs.c] over the operations of any
      file system. [Paths]: [vfs_clean_path] against a definition on lists of
      names. [VfsRefs]: what each operation adds to the reference counts, over
      file systems that keep the contract [Counted]. [VfsSystem]: counts balance
      over all sequences of calls. [Resolve]: resolution is a fold over names,
      over file systems in the class [Tree]; binds. [VfsList]: listing of
      unions, over the class [Lists].
    - [Ramfs]: [ramfs.c] and its instances of the three classes. [RamfsRun]:
      reading what was written or added, and the theorems on the VFS run on it.
    - [Elf]: [elf.c] over the interface [UserPages]. [ElfLoad]: any image is
      loaded or refused without touching anything outside the program area;
      what a loaded program's memory holds. [Sbrk]: [process_sbrk] of
      [process.c], the heap's pages, on every increment and failure.
      [ElfOnPaging]: the instance of the interface, and both run on it.
    - [Malloc]: [libc/malloc.c] over the class [UserProcess], with block headers
      in the memory of the process. [MallocList]: the free list in memory.
      [MallocRun]: any program that keeps to the rules gets the behaviour of a
      map from pointers to contents. [MallocOnSbrk]: [process_sbrk] keeps the
      contract, and a program run on it and the page tables.
    - [Libc]: division, parsing, sorting, searching and formatting. [LibcNum],
      [LibcSort]: they compute what they should.
    - [Events], [Tile]: a window's event queue, and [tile.c].
      [TileLayout], [TileRun]: the panes tile the screen and the focus is
      among them after any sequence of actions; a window sent to a workspace
      without a focus does not get it.

    ** What is not modelled

    Code that is mostly port I/O, machine registers or assembly: the boot
    loader, the descriptor tables and interrupt entry, the drivers. Of paging,
    [vmm_init] and the allocation of address spaces; of the scheduler, stacks and
    names of threads, and [mutex.c]. Processes (but [process_sbrk]), the
    descriptor tables and the system call table, [devfs.c], [bootfs.c] and
    [iso9660.c]. The network stack, and the client and server of ZRP (their
    messages and authentication are). Of the C library, strings, streams and
    the wrappers of system calls. DOS and BIOS services of [dosrun], the DOS
    shell, libgfx but its rectangles, libui, libwin, drawing in ManiDE, and the
    programs. Times to execute, memory that is freed, and text that is printed
    are not part of any state. *)
From stdpp Require Export base tactics numbers list gmap strings.
From Stdlib Require Export ZArith Lia.

Local Open Scope Z_scope.

(** ** Machine integers

    A C unsigned integer of width [w] is a [Z] in [[0, 2^w)]; every
    expression whose C type can wrap is written with the wrap. *)

Definition u8 (x : Z) : Z := x mod 2 ^ 8.
Definition u16 (x : Z) : Z := x mod 2 ^ 16.
Definition u32 (x : Z) : Z := x mod 2 ^ 32.
Definition u64 (x : Z) : Z := x mod 2 ^ 64.

(** Two's-complement reinterpretation of a [w]-bit pattern. *)
Definition signed (w x : Z) : Z :=
  let y := x mod 2 ^ w in if y <? 2 ^ (w - 1) then y else y - 2 ^ w.

(** [~x] at width 32. *)
Definition not32 (x : Z) : Z := u32 (Z.lnot x).

(** C truth values. *)
Definition b2z (b : bool) : Z := if b then 1 else 0.
Definition truth (x : Z) : bool := negb (x =? 0).

(** [__builtin_ctz] on the low [n] bits: the index of the lowest set bit
    at or above [i] (C leaves it undefined for 0; this returns [i + n]). *)
Fixpoint ctz_from (n : nat) (i x : Z) : Z :=
  match n with
  | O => i
  | S n' => if Z.testbit x i then i else ctz_from n' (i + 1) x
  end.
Definition ctz32 (x : Z) : Z := ctz_from 32 0 x.

(** ** Outcomes

    A value, a kernel panic, or a loop that did not finish within its fuel.
    Theorems that say an operation returns [Ok] thereby say that it
    terminates. *)

Inductive outcome (A : Type) : Type :=
| Ok (a : A)
| Panic (msg : string)
| NoFuel.
Arguments Ok {A} a.
Arguments Panic {A} msg.
Arguments NoFuel {A}.

#[export] Instance outcome_ret : MRet outcome := @Ok.
#[export] Instance outcome_bind : MBind outcome :=
  λ A B f m, match m with Ok a => f a | Panic s => Panic s | NoFuel => NoFuel end.

(** ** Loops

    [for_range lo hi body s] is [for (i = lo; i < hi; i++) s = body(i, s)]. *)

Definition for_range {S : Type} (lo hi : Z) (body : Z → S → S) (s : S) : S :=
  foldl (λ s i, body i s) s (seqZ lo (hi - lo)).

Arguments for_range : simpl never.
Arguments u8 : simpl never.
Arguments u16 : simpl never.
Arguments u32 : simpl never.
Arguments u64 : simpl never.
Arguments not32 : simpl never.

(** ** Arrays

    C arrays are lists. An index is a [Z]; reading outside the array gives
    the default, writing outside it changes nothing. C leaves both
    undefined, and the invariants of each component keep indices inside. *)

Definition aget {A : Type} (d : A) (l : list A) (i : Z) : A :=
  if i <? 0 then d else default d (l !! Z.to_nat i).
Definition aset {A : Type} (l : list A) (i : Z) (x : A) : list A :=
  if i <? 0 then l else <[Z.to_nat i := x]> l.

(** [memcpy(dst + off, src, length src)]: what does not fit is dropped. *)
Definition splice {A : Type} (dst : list A) (off : nat) (src : list A) : list A :=
  take off dst ++ take (length dst - off) src ++ drop (off + length src) dst.

(** The bytes of a literal. *)
Definition text (s : string) : list Z := (λ a, Z.of_N (Ascii.N_of_ascii a)) <$> String.list_ascii_of_string s.

(** ** Automation *)

(** Reflects boolean comparisons of [Z] in the context and the goal. *)
Ltac zbool :=
  repeat match goal with
  | H : (_ =? _)%Z = true |- _ => apply Z.eqb_eq in H
  | H : (_ =? _)%Z = false |- _ => apply Z.eqb_neq in H
  | H : (_ <? _)%Z = true |- _ => apply Z.ltb_lt in H
  | H : (_ <? _)%Z = false |- _ => apply Z.ltb_ge in H
  | H : (_ <=? _)%Z = true |- _ => apply Z.leb_le in H
  | H : (_ <=? _)%Z = false |- _ => apply Z.leb_gt in H
  | H : (_ >=? _)%Z = _ |- _ => rewrite Z.geb_leb in H
  | H : (_ >? _)%Z = _ |- _ => rewrite Z.gtb_ltb in H
  | H : (_ && _)%bool = true |- _ => apply andb_true_iff in H; destruct H
  | H : (_ || _)%bool = false |- _ => apply orb_false_iff in H; destruct H
  | H : negb _ = true |- _ => apply negb_true_iff in H
  | H : negb _ = false |- _ => apply negb_false_iff in H
  end.

(** Case analysis on the comparison an [if] tests. *)
Ltac case_if :=
  match goal with
  | |- context [if ?b then _ else _] => destruct b eqn:?; zbool
  end.
Tactic Notation "case_if" "in" hyp(H) :=
  match type of H with
  | context [if ?b then _ else _] => destruct b eqn:?; zbool
  end.

(** Case analysis on every comparison of the goal. *)
Ltac compare_all :=
  repeat case_if;
  repeat match goal with
  | |- context [?x <=? ?y] => destruct (Z.leb_spec x y)
  | |- context [?x <? ?y] => destruct (Z.ltb_spec x y)
  end; try done; lia.

(** [lia] with division and remainder by their defining equations. *)
Ltac dlia := Z.to_euclidean_division_equations; lia.

Create HintDb manios.

(** ** Integer lemmas *)

Lemma signed_mod w x : signed w (x mod 2 ^ w) = signed w x.
Proof. unfold signed. by rewrite Zmod_mod. Qed.
Lemma u32_range x : 0 ≤ u32 x < 2 ^ 32.
Proof. apply Z.mod_pos_bound. lia. Qed.
Lemma u8_range x : 0 ≤ u8 x < 2 ^ 8.
Proof. apply Z.mod_pos_bound. lia. Qed.
Lemma u16_range x : 0 ≤ u16 x < 2 ^ 16.
Proof. apply Z.mod_pos_bound. lia. Qed.
Lemma u64_range x : 0 ≤ u64 x < 2 ^ 64.
Proof. apply Z.mod_pos_bound. lia. Qed.

Lemma truth_nonzero x : x ≠ 0 → truth x = true.
Proof. intros ?. unfold truth. by rewrite (proj2 (Z.eqb_neq _ _)). Qed.

Lemma truth_true_iff x : truth x = true ↔ x ≠ 0.
Proof. unfold truth. by rewrite negb_true_iff, Z.eqb_neq. Qed.

Lemma truth_false_iff x : truth x = false ↔ x = 0.
Proof. unfold truth. by rewrite negb_false_iff, Z.eqb_eq. Qed.

Lemma u32_small x : 0 ≤ x < 2 ^ 32 → u32 x = x.
Proof. apply Z.mod_small. Qed.
Lemma u8_small x : 0 ≤ x < 2 ^ 8 → u8 x = x.
Proof. apply Z.mod_small. Qed.
Lemma u16_small x : 0 ≤ x < 2 ^ 16 → u16 x = x.
Proof. apply Z.mod_small. Qed.
Lemma u64_small x : 0 ≤ x < 2 ^ 64 → u64 x = x.
Proof. apply Z.mod_small. Qed.

#[export] Hint Resolve u8_range u16_range u32_range u64_range : manios.

(** A number below [2^n] has no bit at or above [n]. *)
Lemma testbit_high n x i : 0 ≤ x < 2 ^ n → n ≤ i → Z.testbit x i = false.
Proof.
  intros Hx Hi. destruct (decide (n < 0)).
  - rewrite Z.pow_neg_r in Hx by lia. lia.
  - rewrite <- (Z.mod_small x (2 ^ n)) by done. apply Z.mod_pow2_bits_high. lia.
Qed.

(** Equality of [n]-bit numbers is equality of their low [n] bits. *)
Lemma bits_eq n x y :
  0 ≤ x < 2 ^ n → 0 ≤ y < 2 ^ n →
  (∀ i, 0 ≤ i < n → Z.testbit x i = Z.testbit y i) → x = y.
Proof.
  intros Hx Hy Hb. apply Z.bits_inj'. intros i Hi.
  destruct (decide (i < n)); [by apply Hb|].
  by rewrite !(testbit_high n) by lia.
Qed.

(** Numbers that agree with a [n]-bit number above [n] are [n]-bit. *)
Lemma bits_bound n x :
  0 ≤ n → 0 ≤ x → (∀ i, n ≤ i → Z.testbit x i = false) → x < 2 ^ n.
Proof.
  intros Hn Hx Hb. assert (x mod 2 ^ n = x) as <-; [|apply Z.mod_pos_bound; lia].
  apply Z.bits_inj'. intros i Hi. destruct (decide (i < n)).
  - by apply Z.mod_pow2_bits_low.
  - rewrite Z.mod_pow2_bits_high by lia. symmetry. apply Hb. lia.
Qed.

Lemma lor_range n x y : 0 ≤ n → 0 ≤ x < 2 ^ n → 0 ≤ y < 2 ^ n → 0 ≤ Z.lor x y < 2 ^ n.
Proof.
  intros Hn Hx Hy. split; [apply Z.lor_nonneg; lia|].
  apply bits_bound; [lia|apply Z.lor_nonneg; lia|].
  intros i Hi. rewrite Z.lor_spec, !(testbit_high n) by lia. done.
Qed.

Lemma land_range_l n x y : 0 ≤ n → 0 ≤ x < 2 ^ n → 0 ≤ Z.land x y < 2 ^ n.
Proof.
  intros Hn Hx. split; [apply Z.land_nonneg; lia|].
  apply bits_bound; [lia|apply Z.land_nonneg; lia|].
  intros i Hi. rewrite Z.land_spec, (testbit_high n) by lia. done.
Qed.

Lemma land_range_r n x y : 0 ≤ n → 0 ≤ y < 2 ^ n → 0 ≤ Z.land x y < 2 ^ n.
Proof. rewrite Z.land_comm. apply land_range_l. Qed.

Lemma lxor_range n x y : 0 ≤ n → 0 ≤ x < 2 ^ n → 0 ≤ y < 2 ^ n → 0 ≤ Z.lxor x y < 2 ^ n.
Proof.
  intros Hn Hx Hy. split; [apply Z.lxor_nonneg; lia|].
  apply bits_bound; [lia|apply Z.lxor_nonneg; lia|].
  intros i Hi. rewrite Z.lxor_spec, !(testbit_high n) by lia. done.
Qed.

Lemma not32_testbit x i : 0 ≤ i < 32 → Z.testbit (not32 x) i = negb (Z.testbit x i).
Proof.
  intros Hi. unfold not32, u32. rewrite Z.mod_pow2_bits_low by lia.
  by rewrite Z.lnot_spec by lia.
Qed.

Lemma pow2_testbit n i : 0 ≤ n → 0 ≤ i → Z.testbit (Z.shiftl 1 n) i = bool_decide (i = n).
Proof.
  intros Hn Hi. rewrite Z.shiftl_1_l, Z.pow2_bits_eqb by lia.
  case_bool_decide; [by subst; rewrite Z.eqb_refl|]. apply Z.eqb_neq. lia.
Qed.

(** [x & (1 << n)] is nonzero exactly when bit [n] is set. *)
Lemma land_bit x n : 0 ≤ n → truth (Z.land x (Z.shiftl 1 n)) = Z.testbit x n.
Proof.
  intros Hn. unfold truth. destruct (Z.testbit x n) eqn:E.
  - apply negb_true_iff, Z.eqb_neq. intros H.
    apply (f_equal (λ z, Z.testbit z n)) in H.
    rewrite Z.land_spec, E, pow2_testbit, Z.bits_0, bool_decide_true in H by lia. done.
  - apply negb_false_iff, Z.eqb_eq, Z.bits_inj'. intros i Hi.
    rewrite Z.land_spec, pow2_testbit, Z.bits_0 by lia.
    case_bool_decide; [subst; by rewrite E|]. by rewrite andb_false_r.
Qed.

(** Rounding down to a multiple of a power of two with a mask. *)
Lemma land_mask_down k x :
  0 ≤ k → Z.land x (Z.lnot (Z.ones k)) = x / 2 ^ k * 2 ^ k.
Proof.
  intros Hk. rewrite <- Z.ldiff_land, Z.ldiff_ones_r by done.
  by rewrite Z.shiftl_mul_pow2, Z.shiftr_div_pow2.
Qed.

(** Setting bits below the alignment of [x] adds them. *)
Lemma lor_add k x y : 0 ≤ k → x mod 2 ^ k = 0 → 0 ≤ y < 2 ^ k → Z.lor x y = x + y.
Proof.
  intros Hk Hx Hy. symmetry. apply Z.add_nocarry_lor. apply Z.bits_inj'. intros n Hn.
  rewrite Z.land_spec, Z.bits_0. destruct (decide (n < k)).
  - by rewrite <- (Z.mod_pow2_bits_low x k n), Hx, Z.bits_0 by lia.
  - rewrite (testbit_high k y) by lia. apply andb_false_r.
Qed.

(** Bytes put together, the least significant first. *)
Lemma lor_shift k y b : 0 ≤ k → 0 ≤ y < 2 ^ k → Z.lor y (Z.shiftl b k) = y + b * 2 ^ k.
Proof.
  intros Hk Hy. rewrite Z.shiftl_mul_pow2, Z.lor_comm, (lor_add k) by (done || apply Z.mod_mul; lia). lia.
Qed.
Lemma le_lor2 v : 0 ≤ v < 2 ^ 16 → Z.lor (u8 v) (Z.shiftl (u8 (Z.shiftr v 8)) 8) = v.
Proof.
  intros Hv. rewrite lor_shift by (lia || apply u8_range). rewrite Z.shiftr_div_pow2 by lia. unfold u8. dlia.
Qed.
Lemma le_lor4 v : 0 ≤ v < 2 ^ 32 →
  Z.lor (Z.lor (Z.lor (u8 v) (Z.shiftl (u8 (Z.shiftr v 8)) 8)) (Z.shiftl (u8 (Z.shiftr v 16)) 16))
    (Z.shiftl (u8 (Z.shiftr v 24)) 24) = v.
Proof.
  intros Hv. pose proof (u8_range v). pose proof (u8_range (Z.shiftr v 8)).
  pose proof (u8_range (Z.shiftr v 16)). pose proof (u8_range (Z.shiftr v 24)).
  rewrite (lor_shift 8), (lor_shift 16), (lor_shift 24) by lia.
  rewrite !Z.shiftr_div_pow2 by lia. unfold u8. clear - Hv. dlia.
Qed.
Lemma le_unlor2 a b : 0 ≤ a < 2 ^ 8 → 0 ≤ b < 2 ^ 8 →
  u8 (Z.lor a (Z.shiftl b 8)) = a ∧ u8 (Z.shiftr (Z.lor a (Z.shiftl b 8)) 8) = b.
Proof. intros Ha Hb. rewrite lor_shift, Z.shiftr_div_pow2 by lia. unfold u8. dlia. Qed.
Lemma le_unlor4 a b c d : 0 ≤ a < 2 ^ 8 → 0 ≤ b < 2 ^ 8 → 0 ≤ c < 2 ^ 8 → 0 ≤ d < 2 ^ 8 →
  let v := Z.lor (Z.lor (Z.lor a (Z.shiftl b 8)) (Z.shiftl c 16)) (Z.shiftl d 24) in
  u8 v = a ∧ u8 (Z.shiftr v 8) = b ∧ u8 (Z.shiftr v 16) = c ∧ u8 (Z.shiftr v 24) = d.
Proof.
  intros Ha Hb Hc Hd v. unfold v. rewrite (lor_shift 8), (lor_shift 16), (lor_shift 24), !Z.shiftr_div_pow2 by lia. unfold u8. dlia.
Qed.

Lemma land_1_mod x : Z.land x 1 = x mod 2.
Proof. apply (Z.land_ones x 1). lia. Qed.

Lemma land_ones_mod k x : 0 ≤ k → Z.land x (2 ^ k - 1) = x mod 2 ^ k.
Proof.
  intros Hk. rewrite <- Z.land_ones by done. f_equal.
  rewrite Z.ones_equiv. lia.
Qed.

(** A 32-bit [x & ~(2^k - 1)] rounds down. *)
Lemma land_not32_mask k x :
  0 ≤ k < 32 → 0 ≤ x < 2 ^ 32 →
  Z.land x (not32 (2 ^ k - 1)) = x / 2 ^ k * 2 ^ k.
Proof.
  intros Hk Hx. rewrite <- land_mask_down by lia.
  apply (bits_eq 32); [by apply land_range_l | by apply land_range_l |].
  intros i Hi. rewrite !Z.land_spec, not32_testbit, Z.lnot_spec by lia.
  by rewrite Z.ones_equiv, Z.sub_1_r.
Qed.

(** *** Count of trailing zeros *)

Lemma ctz_from_spec n i x :
  0 ≤ i → (∃ j, i ≤ j < i + Z.of_nat n ∧ Z.testbit x j = true) →
  i ≤ ctz_from n i x < i + Z.of_nat n ∧
  Z.testbit x (ctz_from n i x) = true ∧
  (∀ j, i ≤ j < ctz_from n i x → Z.testbit x j = false).
Proof.
  revert i. induction n as [|n IH]; intros i Hi (j & Hj & Hb); [lia|]. simpl.
  destruct (Z.testbit x i) eqn:E.
  - split; [lia|]. split; [done|]. intros k. lia.
  - destruct (IH (i + 1)) as (H1 & H2 & H3); [lia| |].
    { exists j. split; [|done]. destruct (decide (j = i)); [congruence|lia]. }
    split; [lia|]. split; [done|]. intros k Hk.
    destruct (decide (k = i)); [by subst|]. apply H3. lia.
Qed.

(** ** Loop lemmas *)

Lemma for_range_nil {S} lo hi body (s : S) : hi ≤ lo → for_range lo hi body s = s.
Proof. intros. unfold for_range. by rewrite seqZ_nil by lia. Qed.

Lemma for_range_last {S} lo hi body (s : S) :
  lo ≤ hi → for_range lo (hi + 1) body s = body hi (for_range lo hi body s).
Proof.
  intros. unfold for_range.
  replace (hi + 1 - lo) with ((hi - lo) + 1) by lia.
  rewrite seqZ_app by lia. rewrite foldl_app.
  replace (lo + (hi - lo)) with hi by lia. done.
Qed.

(** Invariant rule for counting loops. *)
Lemma for_range_ind {S} (P : Z → S → Prop) lo hi body s :
  lo ≤ hi → P lo s →
  (∀ i s, lo ≤ i < hi → P i s → P (i + 1) (body i s)) →
  P hi (for_range lo hi body s).
Proof.
  intros Hle H0. revert hi Hle.
  apply (Zlt_lower_bound_ind (λ hi, (∀ i s, lo ≤ i < hi → P i s → P (i + 1) (body i s)) →
    P hi (for_range lo hi body s))).
  intros hi IH Hle Hs. destruct (decide (hi = lo)) as [->|Hne].
  - by rewrite for_range_nil by lia.
  - replace hi with (hi - 1 + 1) by lia. rewrite for_range_last by lia.
    apply Hs; [lia|]. apply IH; [lia|]. intros i s' Hi. apply Hs. lia.
Qed.

(** ** Array lemmas *)

Lemma length_aset {A} (l : list A) i x : length (aset l i x) = length l.
Proof. unfold aset. case_if; [done|]. apply length_insert. Qed.

Lemma aget_aset_eq {A} (d : A) l i x :
  0 ≤ i < Z.of_nat (length l) → aget d (aset l i x) i = x.
Proof.
  intros Hi. unfold aget, aset. rewrite !(proj2 (Z.ltb_ge i 0)) by lia.
  rewrite list_lookup_insert_eq by lia. done.
Qed.

Lemma aget_aset_ne {A} (d : A) l i j x :
  0 ≤ i → 0 ≤ j → i ≠ j → aget d (aset l i x) j = aget d l j.
Proof.
  intros Hi Hj Hne. unfold aget, aset.
  rewrite (proj2 (Z.ltb_ge i 0)), !(proj2 (Z.ltb_ge j 0)) by lia.
  rewrite list_lookup_insert_ne by lia. done.
Qed.

Lemma aget_any {A} (d d' : A) l i : 0 ≤ i < Z.of_nat (length l) → aget d l i = aget d' l i.
Proof.
  intros Hi. unfold aget. rewrite (proj2 (Z.ltb_ge i 0)) by lia.
  destruct (lookup_lt_is_Some_2 l (Z.to_nat i)) as [x ->]; [lia|done].
Qed.

Lemma aget_default {A} (d : A) l i : Z.of_nat (length l) ≤ i → aget d l i = d.
Proof.
  intros Hi. unfold aget. case_if; [done|].
  rewrite lookup_ge_None_2 by lia. done.
Qed.

Lemma aget_lookup {A} (d : A) l i x :
  0 ≤ i → l !! Z.to_nat i = Some x → aget d l i = x.
Proof. intros Hi Hx. unfold aget. rewrite (proj2 (Z.ltb_ge i 0)) by lia. by rewrite Hx. Qed.

Lemma aget_Forall {A} (P : A → Prop) d l i :
  Forall P l → 0 ≤ i < Z.of_nat (length l) → P (aget d l i).
Proof.
  intros HP Hi. destruct (lookup_lt_is_Some_2 l (Z.to_nat i)) as [x Hx]; [lia|].
  rewrite (aget_lookup _ _ _ x) by (done || lia).
  by eapply Forall_lookup_1.
Qed.

Lemma aset_Forall {A} (P : A → Prop) l i x : Forall P l → P x → Forall P (aset l i x).
Proof. intros. unfold aset. case_if; [done|]. by apply Forall_insert. Qed.

#[export] Hint Resolve aset_Forall : manios.

Lemma length_splice {A} (dst : list A) off src :
  (off + length src ≤ length dst)%nat → length (splice dst off src) = length dst.
Proof. intros. unfold splice. rewrite !length_app, !length_take, length_drop. lia. Qed.

Lemma splice_in_bounds {A} (dst : list A) off src :
  (off + length src ≤ length dst)%nat →
  splice dst off src = take off dst ++ src ++ drop (off + length src) dst.
Proof. intros. unfold splice. by rewrite (take_ge src) by lia. Qed.

(** What was spliced is what is read back, and the rest is untouched. *)
Lemma take_drop_splice {A} (dst : list A) off src :
  (off + length src ≤ length dst)%nat →
  take (length src) (drop off (splice dst off src)) = src.
Proof.
  intros. rewrite splice_in_bounds by done.
  rewrite drop_app_length' by (rewrite length_take; lia).
  by rewrite take_app_length.
Qed.

Lemma lookup_splice_ne {A} (dst : list A) off src i :
  (off + length src ≤ length dst)%nat →
  (i < off ∨ off + length src ≤ i)%nat →
  splice dst off src !! i = dst !! i.
Proof.
  intros Hb Hi. rewrite splice_in_bounds by done.
  destruct Hi as [Hi|Hi].
  - rewrite lookup_app_l by (rewrite length_take; lia). by rewrite lookup_take_lt.
  - rewrite lookup_app_r by (rewrite length_take; lia). rewrite length_take_le by lia.
    rewrite lookup_app_r by lia. rewrite lookup_drop. f_equal. lia.
Qed.
