(* ===== verification/Abi.v ===== *)
(** * The system call interface ([zkt/abi/zkt_abi.h])

    The kinds of nodes and the error numbers the models return. A kernel
    function returns the negation of an error number. The error numbers are
    [#define]s, and abbreviations here. *)
From S2P Require Import Prelude.
Local Open Scope Z_scope.

(** [enum vnode_type] of [zkt/fs/vfs.h]. *)
Inductive vnode_type := VNODE_DIR | VNODE_FILE | VNODE_DEVICE | VNODE_PIPE.

Abbreviation ENOENT := 2%Z (only parsing).
Abbreviation EIO := 5%Z (only parsing).
Abbreviation ENXIO := 6%Z (only parsing).
Abbreviation ENOEXEC := 8%Z (only parsing).
Abbreviation EBADF := 9%Z (only parsing).
Abbreviation ENOMEM := 12%Z (only parsing).
Abbreviation EBUSY := 16%Z (only parsing).
Abbreviation EEXIST := 17%Z (only parsing).
Abbreviation EXDEV := 18%Z (only parsing).
Abbreviation ENODEV := 19%Z (only parsing).
Abbreviation ENOTDIR := 20%Z (only parsing).
Abbreviation EISDIR := 21%Z (only parsing).
Abbreviation EINVAL := 22%Z (only parsing).
Abbreviation ENOSPC := 28%Z (only parsing).
Abbreviation EROFS := 30%Z (only parsing).
Abbreviation EPIPE := 32%Z (only parsing).
Abbreviation ERANGE := 34%Z (only parsing).
Abbreviation ENAMETOOLONG := 36%Z (only parsing).
Abbreviation ENOSYS := 38%Z (only parsing).
Abbreviation ENOTEMPTY := 39%Z (only parsing).
Abbreviation ETIMEDOUT := 110%Z (only parsing).

(** [struct dirent] of [zkt/fs/vfs.h]. *)
Record dirent := Dirent { dname : list Z; dtype : vnode_type; dsize : Z }.

Abbreviation SEEK_SET := 0%Z (only parsing).
Abbreviation SEEK_CUR := 1%Z (only parsing).
Abbreviation SEEK_END := 2%Z (only parsing).
Abbreviation OREAD := 0%Z (only parsing).
Abbreviation OWRITE := 1%Z (only parsing).
Abbreviation ORDWR := 2%Z (only parsing).
Abbreviation O_CREAT := 512%Z (only parsing).
Abbreviation O_TRUNC := 1024%Z (only parsing).
Abbreviation O_EXCL := 2048%Z (only parsing).
