(* ===== verification/StateM.v ===== *)
(** * Computations with state and errors

    The shape of most file system code: a function that changes a state and
    returns a value or an error number, and a logic for it. [wp] is total
    correctness: the computation ends, returns a value and the state it
    leaves is as stated. [runs] is for code that may fail: it ends, in a state
    with the invariant. *)
From S2P Require Import Prelude.
Local Open Scope Z_scope.

(** A result, an error number, or a loop that did not end within its fuel;
    and the state, which the error paths change too. *)

Inductive result (A : Type) := Good (a : A) | Err (e : Z) | Hang.
Arguments Good {A} a.
Arguments Err {A} e.
Arguments Hang {A}.

Definition st (S A : Type) : Type := S → result A * S.

#[export] Instance st_ret S : MRet (st S) := λ A a s, (Good a, s).
#[export] Instance st_bind S : MBind (st S) := λ A B f m s,
  match m s with (Good a, s) => f a s | (Err e, s) => (Err e, s) | (Hang, s) => (Hang, s) end.

Definition fail {S A} (e : Z) : st S A := λ s, (Err e, s).
Definition hang {S A} : st S A := λ s, (Hang, s).
Definition get {S} : st S S := λ s, (Good s, s).
Definition modify {S} (f : S → S) : st S unit := λ s, (Good tt, f s).

(** A call whose error is looked at. *)
Definition try {S A} (m : st S A) : st S (Z + A) := λ s,
  match m s with (Good a, s) => (Good (inr a), s) | (Err e, s) => (Good (inl e), s) | (Hang, s) => (Hang, s) end.

(** A loop over indices, left at the first error. *)
Fixpoint each {S} (l : list Z) (f : Z → st S unit) : st S unit :=
  match l with [] => mret tt | i :: l => f i ;; each l f end.

(** What a sequence does, by what its first part does. *)
Section bind.
Context {S A B : Type} (m : st S A) (s s1 : S).
Lemma bind_good (f : A → st S B) a : m s = (Good a, s1) → (m ≫= f) s = f a s1.
Proof. intros E. unfold mbind, st_bind. by rewrite E. Qed.
Lemma bind_err (f : A → st S B) e : m s = (Err e, s1) → (m ≫= f) s = (Err e, s1).
Proof. intros E. unfold mbind, st_bind. by rewrite E. Qed.
Lemma bind_try_good (f : Z + A → st S B) a : m s = (Good a, s1) → (try m ≫= f) s = f (inr a) s1.
Proof. intros E. unfold mbind, st_bind, try. by rewrite E. Qed.
Lemma bind_try_err (f : Z + A → st S B) e : m s = (Err e, s1) → (try m ≫= f) s = f (inl e) s1.
Proof. intros E. unfold mbind, st_bind, try. by rewrite E. Qed.
Lemma bind_inv (f : A → st S B) b s' : (m ≫= f) s = (Good b, s') → ∃ a s1, m s = (Good a, s1) ∧ f a s1 = (Good b, s').
Proof. unfold mbind, st_bind. destruct (m s) as [[a|e|] s2]; [|done|done]. eauto. Qed.
End bind.

(** ** Total correctness *)

Definition wp {S A} (m : st S A) (s : S) (Q : A → S → Prop) : Prop := ∃ a s', m s = (Good a, s') ∧ Q a s'.

Section wp.
Context {S : Type}.
Implicit Types s : S.

Lemma wp_ret {A} (a : A) s (Q : A → S → Prop) : Q a s → wp (mret a) s Q.
Proof. intros H. by exists a, s. Qed.

Lemma wp_conseq {A} (m : st S A) s (P Q : A → S → Prop) : wp m s P → (∀ a s, P a s → Q a s) → wp m s Q.
Proof. intros (a & s' & Hm & HP) H. exists a, s'. auto. Qed.

Lemma wp_bind {A B} (m : st S A) (f : A → st S B) s (P : A → S → Prop) (Q : B → S → Prop) :
  wp m s P → (∀ a s', P a s' → wp (f a) s' Q) → wp (m ≫= f) s Q.
Proof.
  intros (a & s' & Hm & HP) H. destruct (H a s' HP) as (b & s'' & Hf & HQ).
  exists b, s''. split; [|done]. unfold mbind, st_bind. by rewrite Hm.
Qed.

Lemma wp_try {A} (m : st S A) s (P : A → S → Prop) (Q : Z + A → S → Prop) :
  wp m s P → (∀ a s', P a s' → Q (inr a) s') → wp (try m) s Q.
Proof. intros (a & s' & Hm & HP) H. exists (inr a), s'. unfold try. rewrite Hm. auto. Qed.

Lemma wp_attempt {A} (m : st S A) s (P : A → S → Prop) :
  wp m s P → wp (try m) s (λ r s', ∃ a, r = inr a ∧ P a s').
Proof. intros H. eapply wp_try; [exact H|]. eauto. Qed.

Lemma wp_get s (Q : S → S → Prop) : Q s s → wp get s Q.
Proof. intros H. by exists s, s. Qed.
Lemma wp_modify (f : S → S) s (Q : unit → S → Prop) : Q tt (f s) → wp (modify f) s Q.
Proof. intros H. by exists tt, (f s). Qed.

(** The invariant of a loop over indices. *)
Lemma wp_each (I : Z → S → Prop) lo k (f : Z → st S unit) s (Q : unit → S → Prop) :
  0 ≤ k → I lo s → (∀ i s, lo ≤ i < lo + k → I i s → wp (f i) s (λ _ s', I (i + 1) s')) →
  (∀ s', I (lo + k) s' → Q tt s') → wp (each (seqZ lo k) f) s Q.
Proof.
  intros Hk. revert lo s. pattern k. apply natlike_ind; [| |done]; clear k Hk.
  - intros lo s HI _ HQ. apply wp_ret, HQ. by rewrite Z.add_0_r.
  - intros k Hk IH lo s HI Hf HQ. rewrite seqZ_cons by lia. simpl.
    eapply wp_bind; [apply (Hf lo); [lia|done]|]. intros [] s' HI'. cbn beta in HI'.
    replace (Z.pred (Z.succ k)) with k by lia. replace (Z.succ lo) with (lo + 1) by lia.
    apply IH; [done| |].
    + intros i s'' Hi. apply Hf. lia.
    + intros s'' H. apply HQ. by replace (lo + Z.succ k) with (lo + 1 + k) by lia.
Qed.
End wp.

(** ** Ending without a result *)

Definition runs {S A} (I : S → Prop) (m : st S A) (Q : A → Prop) : Prop :=
  ∀ s, I s → I (m s).2 ∧ match (m s).1 with Good a => Q a | Err _ => True | Hang => False end.

Section runs.
Context {S : Type} (I : S → Prop).

Lemma runs_ret {A} (a : A) (Q : A → Prop) : Q a → runs I (mret a) Q.
Proof. by intros H s Hs. Qed.
Lemma runs_fail {A} e (Q : A → Prop) : runs I (fail e) Q.
Proof. by intros s Hs. Qed.
Lemma runs_conseq {A} (m : st S A) (P Q : A → Prop) : runs I m P → (∀ a, P a → Q a) → runs I m Q.
Proof. intros H HPQ s Hs. destruct (H s Hs) as [H1 H2]. split; [done|]. destruct (m s).1; auto. Qed.
Lemma runs_bind {A B} (m : st S A) (f : A → st S B) (P : A → Prop) (Q : B → Prop) :
  runs I m P → (∀ a, P a → runs I (f a) Q) → runs I (m ≫= f) Q.
Proof.
  intros H Hf s Hs. destruct (H s Hs) as [H1 H2]. unfold mbind, st_bind.
  destruct (m s) as [[a|e|] s']; cbn [fst snd] in *; [by apply Hf|done|done].
Qed.
Lemma runs_try {A} (m : st S A) (P : A → Prop) :
  runs I m P → runs I (try m) (λ r, match r with inr a => P a | inl _ => True end).
Proof.
  intros H s Hs. destruct (H s Hs) as [H1 H2]. unfold try. by destruct (m s) as [[a|e|] s'].
Qed.
Lemma runs_get : runs I get I.
Proof. by intros s Hs. Qed.
Lemma runs_modify f : (∀ s, I s → I (f s)) → runs I (modify f) (λ _, True).
Proof. intros H s Hs. split; [by apply H|done]. Qed.
Lemma runs_each l (f : Z → st S unit) : (∀ i, runs I (f i) (λ _, True)) → runs I (each l f) (λ _, True).
Proof.
  intros H. induction l as [|i l IH]; simpl; [by apply runs_ret|].
  eapply runs_bind; [apply H|by intros _ _].
Qed.
End runs.
