(* ===== verification/Pmm.v ===== *)
(** * The physical memory manager ([zkt/mm/pmm.c], [zkt/mm/dma.c])

    A bitmap with one bit per 4 KiB frame (set: in use, reserved or
    absent), the index of the first bitmap word that may have a clear bit,
    and two counters. [pmm] is the file's static state; every function of
    the file is a definition of the same name. Interrupts are off inside
    each operation, so each is one atomic step.

    The theorems: [pmm_init] establishes the invariant [pmm_wf] and frees
    exactly the frames the boot map allows; each operation preserves it and
    implements a set-of-free-frames specification ([free_frames]). *)
From S2P Require Import Prelude.
Local Open Scope Z_scope.

Definition PAGE_SIZE : Z := 4096.
Abbreviation PAGE_SHIFT := 12%Z (only parsing).
Abbreviation PHYS_ADDR_LIMIT := 0x100000000%Z (only parsing).
Abbreviation BITS_PER_WORD := 32%Z (only parsing).
Definition KERNEL_VIRT_BASE : Z := 0xC0000000.
Abbreviation BOOT_MAPPED_PHYS_LIMIT := 0x01000000%Z (only parsing).
Definition P2V (pa : Z) : Z := u32 (u32 pa + KERNEL_VIRT_BASE).
Definition V2P (va : Z) : Z := u32 (va - KERNEL_VIRT_BASE).

Record mem_region := Region { base : Z; len : Z; usable : bool }.

Record pmm := Pmm {
  bitmap : list Z;    (* uint32_t words *)
  frame_count : Z;
  word_count : Z;
  search_hint : Z;
  free_count : Z;
  usable_count : Z
}.

Definition set_bitmap (st : pmm) (b : list Z) : pmm :=
  Pmm b (frame_count st) (word_count st) (search_hint st) (free_count st) (usable_count st).
Definition set_hint (st : pmm) (h : Z) : pmm :=
  Pmm (bitmap st) (frame_count st) (word_count st) h (free_count st) (usable_count st).
Definition set_free_count (st : pmm) (n : Z) : pmm :=
  Pmm (bitmap st) (frame_count st) (word_count st) (search_hint st) n (usable_count st).
Definition set_usable_count (st : pmm) (n : Z) : pmm :=
  Pmm (bitmap st) (frame_count st) (word_count st) (search_hint st) (free_count st) n.

Definition word (st : pmm) (w : Z) : Z := aget 0 (bitmap st) w.

Definition mark_used (frame : Z) (st : pmm) : pmm :=
  let w := frame / BITS_PER_WORD in
  set_bitmap st (aset (bitmap st) w
    (Z.lor (word st w) (Z.shiftl 1 (frame mod BITS_PER_WORD)))).

Definition mark_free (frame : Z) (st : pmm) : pmm :=
  let w := frame / BITS_PER_WORD in
  set_bitmap st (aset (bitmap st) w
    (Z.land (word st w) (not32 (Z.shiftl 1 (frame mod BITS_PER_WORD))))).

Definition is_used (st : pmm) (frame : Z) : bool :=
  truth (Z.land (word st (frame / BITS_PER_WORD)) (Z.shiftl 1 (frame mod BITS_PER_WORD))).

Definition region_end (r : mem_region) : Z :=
  let e := u64 (base r + len r) in
  if e >? PHYS_ADDR_LIMIT then PHYS_ADDR_LIMIT else e.

Definition count_free (st : pmm) : Z :=
  for_range 0 (frame_count st) (λ f n, if is_used st f then n else n + 1) 0.

(** ** [pmm_init] *)

(** The first loop: the end of the highest usable region below 4 GiB. *)
Definition top_of (regions : list mem_region) : Z :=
  foldl (λ top r,
    if usable r && (base r <? PHYS_ADDR_LIMIT) && (region_end r >? top)
    then region_end r else top) 0 regions.

(** One pass of the placement loop over the regions; [bitmap_end] stays
    what it was at the start of the pass. *)
Definition place_pass (regions : list mem_region) (bitmap_start bitmap_end : Z) : Z * bool :=
  foldl (λ '(start, moved) r,
    let lo := base r in
    let hi := region_end r in
    if negb (usable r) && (lo <? V2P bitmap_end) && (hi >? V2P start)
    then (P2V (Z.land (u32 (hi + PAGE_SIZE - 1)) (not32 (PAGE_SIZE - 1))), true)
    else (start, moved)) (bitmap_start, false) regions.

Definition bitmap_end_of (start bytes : Z) : Z :=
  Z.land (u32 (start + bytes + PAGE_SIZE - 1)) (not32 (PAGE_SIZE - 1)).

(** [for (moved = true; moved;)]: [None] when [fuel] passes are not enough. *)
Fixpoint place_bitmap (fuel : nat) (regions : list mem_region) (start bytes : Z)
    : option (Z * Z) :=
  match fuel with
  | O => None
  | S fuel =>
      let bend := bitmap_end_of start bytes in
      match place_pass regions start bend with
      | (start', true) => place_bitmap fuel regions start' bytes
      | (start', false) => Some (start', bend)
      end
  end.

(** Usable regions round inward. *)
Definition free_region (st : pmm) (r : mem_region) : pmm :=
  if negb (usable r) || (base r >=? PHYS_ADDR_LIMIT) then st
  else
    let first := u32 (Z.shiftr (u64 (base r + PAGE_SIZE - 1)) PAGE_SHIFT) in
    let last := u32 (Z.shiftr (region_end r) PAGE_SHIFT) in
    for_range first (Z.min last (frame_count st)) mark_free st.

(** Reserved regions round outward. *)
Definition reserve_region (st : pmm) (r : mem_region) : pmm :=
  if usable r || (base r >=? PHYS_ADDR_LIMIT) then st
  else
    let first := u32 (Z.shiftr (base r) PAGE_SHIFT) in
    let last := u32 (Z.shiftr (region_end r + PAGE_SIZE - 1) PAGE_SHIFT) in
    for_range first (Z.min last (frame_count st)) mark_used st.

(** The state before the regions are applied: every frame in use. *)
Definition blank_pmm (top : Z) : pmm :=
  let fc := u32 (Z.shiftr top PAGE_SHIFT) in
  let wc := u32 (fc + BITS_PER_WORD - 1) / BITS_PER_WORD in
  Pmm (replicate (Z.to_nat wc) 0xFFFFFFFF) fc wc 0 0 0.

(** The rest of [pmm_init] once the bitmap is placed, up to [bend]. *)
Definition fill_bitmap (regions : list mem_region) (bend : Z) (st : pmm) : pmm :=
  let st := foldl free_region st regions in
  let st := foldl reserve_region st regions in
  let st := set_usable_count st (count_free st) in
  let st := for_range 0 (Z.min (Z.shiftr (V2P bend) PAGE_SHIFT) (frame_count st)) mark_used st in
  set_hint (set_free_count st (count_free st)) 0.

Definition pmm_init (fuel : nat) (regions : list mem_region) (kernel_end : Z)
    : outcome pmm :=
  let top := top_of regions in
  if top =? 0 then Panic "pmm: boot loader reported no usable memory"
  else
    let st := blank_pmm top in
    let bytes := u32 (word_count st * 4) in
    match place_bitmap fuel regions kernel_end bytes with
    | None => NoFuel
    | Some (start, bend) =>
        if V2P bend >? BOOT_MAPPED_PHYS_LIMIT
        then Panic "pmm: frame bitmap does not fit in the boot mapping"
        else Ok (fill_bitmap regions bend st)
    end.

(** ** Allocation *)

(** [while (w < word_count && bitmap[w] == 0xFFFFFFFF) w++] *)
Fixpoint skip_full (fuel : nat) (st : pmm) (w : Z) : Z :=
  match fuel with
  | O => w
  | S fuel =>
      if (w <? word_count st) && (word st w =? 0xFFFFFFFF)
      then skip_full fuel st (w + 1) else w
  end.

Definition pmm_alloc_frame (st : pmm) : Z * pmm :=
  let w := skip_full (Z.to_nat (word_count st)) st (search_hint st) in
  let st := set_hint st w in
  if w <? word_count st then
    let frame := w * BITS_PER_WORD + ctz32 (not32 (word st w)) in
    let st := mark_used frame st in
    let st := set_free_count st (u32 (free_count st - 1)) in
    (u32 (Z.shiftl frame PAGE_SHIFT), st)
  else (0, st).

(** [while (run < frames && !is_used(start + run)) run++] *)
Fixpoint free_run (fuel : nat) (st : pmm) (start frames run : Z) : Z :=
  match fuel with
  | O => run
  | S fuel =>
      if (run <? frames) && negb (is_used st (start + run))
      then free_run fuel st start frames (run + 1) else run
  end.

(** The search loop from [start]: [None] when [fuel] steps are not enough,
    otherwise the physical address (0: none found) and the new state. *)
Fixpoint contiguous_loop (fuel : nat) (st : pmm) (frames last boundary start : Z)
    : option (Z * pmm) :=
  match fuel with
  | O => None
  | S fuel =>
      if negb (u32 (start + frames) <=? last) then Some (0, st)
      else
        let lo := u32 (Z.shiftl start PAGE_SHIFT) in
        let hi := u32 (lo + u32 (Z.shiftl frames PAGE_SHIFT) - 1) in
        if truth boundary && negb (lo / boundary =? hi / boundary) then
          contiguous_loop fuel st frames last boundary
            (Z.shiftr (u32 (hi / boundary * boundary)) PAGE_SHIFT)
        else
          let run := free_run (Z.to_nat frames) st start frames 0 in
          if run =? frames then
            let st := for_range start (start + frames) mark_used st in
            Some (lo, set_free_count st (u32 (free_count st - frames)))
          else contiguous_loop fuel st frames last boundary (u32 (start + run + 1))
  end.

Definition pmm_alloc_contiguous (fuel : nat) (st : pmm) (frames limit boundary : Z)
    : option (Z * pmm) :=
  if frames =? 0 then Some (0, st)
  else
    let last := Z.shiftr limit PAGE_SHIFT in
    let last := if last <? frame_count st then last else frame_count st in
    contiguous_loop fuel st frames last boundary 0.

Definition pmm_free_frame (st : pmm) (phys : Z) : outcome pmm :=
  let frame := Z.shiftr phys PAGE_SHIFT in
  if truth (Z.land phys (PAGE_SIZE - 1)) then
    Panic "pmm_free_frame: address is not page-aligned"
  else if frame >=? frame_count st then
    Panic "pmm_free_frame: address is beyond physical memory"
  else if negb (is_used st frame) then
    Panic "pmm_free_frame: frame is already free (double free)"
  else
    let st := mark_free frame st in
    let st := set_free_count st (u32 (free_count st + 1)) in
    Ok (if frame / BITS_PER_WORD <? search_hint st
        then set_hint st (frame / BITS_PER_WORD) else st).

Definition pmm_free_frames (st : pmm) : Z := free_count st.
Definition pmm_usable_frames (st : pmm) : Z := usable_count st.

(** ** DMA memory ([zkt/mm/dma.c]) *)

Abbreviation DMA_LIMIT := BOOT_MAPPED_PHYS_LIMIT%Z (only parsing).
Abbreviation ISA_BOUNDARY := 0x10000%Z (only parsing).

(** The kernel address (0: NULL), the physical address stored, and the
    new state. The zeroing of the buffer is not part of the state. *)
Definition dma_alloc (fuel : nat) (st : pmm) (bytes : Z) (isa : bool) : option (Z * Z * pmm) :=
  let frames := u32 (bytes + PAGE_SIZE - 1) / PAGE_SIZE in
  if (frames =? 0) || (isa && (bytes >? ISA_BOUNDARY)) then Some (0, 0, st)
  else
    match pmm_alloc_contiguous fuel st frames DMA_LIMIT (if isa then ISA_BOUNDARY else 0) with
    | None => None
    | Some (p, st') => if p =? 0 then Some (0, 0, st') else Some (P2V p, p, st')
    end.

Definition dma_free (st : pmm) (p bytes : Z) : outcome pmm :=
  let phys := V2P p in
  for_range 0 (u32 (bytes + PAGE_SIZE - 1) / PAGE_SIZE)
    (λ f r, r ≫= λ st, pmm_free_frame st (u32 (phys + f * PAGE_SIZE))) (Ok st).

(** ** Specification: the set of free frames *)

Definition free_frames (st : pmm) : gset Z :=
  list_to_set (filter (λ f, is_used st f = false) (seqZ 0 (frame_count st))).

Record pmm_wf (st : pmm) : Prop := {
  wf_frames : 0 < frame_count st ≤ 2 ^ 20;
  wf_words : word_count st = (frame_count st + 31) / 32;
  wf_length : Z.of_nat (length (bitmap st)) = word_count st;
  wf_range : Forall (λ w, 0 ≤ w < 2 ^ 32) (bitmap st);
  wf_hint : 0 ≤ search_hint st ≤ word_count st;
  wf_full : ∀ f, 0 ≤ f < 32 * search_hint st → is_used st f = true;
  wf_tail : ∀ f, frame_count st ≤ f < 32 * word_count st → is_used st f = true;
  wf_zero : is_used st 0 = true;
  wf_count : free_count st = Z.of_nat (size (free_frames st))
}.

(** *** The bitmap as a set of bits *)

Lemma is_used_testbit st f :
  0 ≤ f → is_used st f = Z.testbit (word st (f / 32)) (f mod 32).
Proof. intros. unfold is_used. apply land_bit. dlia. Qed.

Section bits.
Context (st : pmm) (Hr : Forall (λ w, 0 ≤ w < 2 ^ 32) (bitmap st)).
Context (g : Z) (Hg : 0 ≤ g < 32 * Z.of_nat (length (bitmap st))).

Lemma is_used_mark_used f :
  0 ≤ f → is_used (mark_used g st) f = bool_decide (f = g) || is_used st f.
Proof using Hg.
  intros Hf. rewrite !is_used_testbit by done. unfold word, mark_used; simpl.
  destruct (decide (f / 32 = g / 32)) as [E|E].
  - rewrite E, aget_aset_eq by dlia. rewrite Z.lor_spec, pow2_testbit, orb_comm by dlia.
    f_equal. apply bool_decide_ext. unfold word. dlia.
  - rewrite aget_aset_ne by dlia. rewrite bool_decide_false by congruence. done.
Qed.

Lemma is_used_mark_free f :
  0 ≤ f → is_used (mark_free g st) f = negb (bool_decide (f = g)) && is_used st f.
Proof using Hg.
  intros Hf. rewrite !is_used_testbit by done. unfold word, mark_free; simpl.
  destruct (decide (f / 32 = g / 32)) as [E|E].
  - rewrite E, aget_aset_eq by dlia. rewrite Z.land_spec, not32_testbit, pow2_testbit, andb_comm by dlia.
    f_equal. f_equal. apply bool_decide_ext. dlia.
  - rewrite aget_aset_ne by dlia. rewrite bool_decide_false by congruence. done.
Qed.

Lemma mark_used_range : Forall (λ w, 0 ≤ w < 2 ^ 32) (bitmap (mark_used g st)).
Proof using Hr Hg.
  simpl. apply aset_Forall; [done|]. apply lor_range; [dlia| |].
  - apply (aget_Forall (λ w, 0 ≤ w < 2 ^ 32)); [done|]. dlia.
  - rewrite Z.shiftl_1_l. split; [dlia|]. apply Z.pow_lt_mono_r; dlia.
Qed.

Lemma mark_free_range : Forall (λ w, 0 ≤ w < 2 ^ 32) (bitmap (mark_free g st)).
Proof using Hr Hg.
  simpl. apply aset_Forall; [done|]. apply land_range_l; [dlia|].
  apply (aget_Forall (λ w, 0 ≤ w < 2 ^ 32)); [done|]. dlia.
Qed.
End bits.

Lemma elem_free_frames st f :
  f ∈ free_frames st ↔ 0 ≤ f < frame_count st ∧ is_used st f = false.
Proof.
  unfold free_frames. rewrite elem_of_list_to_set, list_elem_of_filter, elem_of_seqZ.
  split; intros [? ?]; split; (done || dlia).
Qed.

(** A full word is one whose 32 frames are all in use. *)
Lemma full_word st w :
  0 ≤ w < Z.of_nat (length (bitmap st)) → Forall (λ w, 0 ≤ w < 2 ^ 32) (bitmap st) →
  word st w = 0xFFFFFFFF ↔ ∀ f, 32 * w ≤ f < 32 * w + 32 → is_used st f = true.
Proof.
  intros Hw Hr.
  assert (0 ≤ word st w < 2 ^ 32) as Hb by by apply (aget_Forall (λ w, 0 ≤ w < 2 ^ 32)).
  split.
  - intros E f Hf. rewrite is_used_testbit by dlia.
    replace (f / 32) with w by dlia. rewrite E.
    change 0xFFFFFFFF with (Z.ones 32). apply Z.ones_spec_low. dlia.
  - intros H. apply (bits_eq 32); [done|dlia|]. intros i Hi.
    change 0xFFFFFFFF with (Z.ones 32). rewrite Z.ones_spec_low by dlia.
    specialize (H (32 * w + i)). rewrite is_used_testbit in H by dlia.
    replace ((32 * w + i) / 32) with w in H by dlia.
    replace ((32 * w + i) mod 32) with i in H by dlia. apply H. dlia.
Qed.

Lemma count_free_size st : 0 ≤ frame_count st → count_free st = Z.of_nat (size (free_frames st)).
Proof.
  intros Hc. unfold free_frames. rewrite size_list_to_set.
  2: { apply NoDup_filter, NoDup_seqZ. }
  unfold count_free. revert Hc. generalize (frame_count st) as n. intros n Hn.
  apply (for_range_ind (λ i c, c = Z.of_nat (length
    (filter (λ f, is_used st f = false) (seqZ 0 i))))); [done|done|].
  intros i c Hi ->. rewrite seqZ_app by lia. rewrite filter_app, length_app.
  replace (seqZ (0 + i) 1) with [i] by (unfold seqZ; simpl; f_equal; lia).
  rewrite filter_cons, filter_nil. simpl. destruct (is_used st i); simpl; lia.
Qed.

Lemma free_frames_mark_used st g :
  0 ≤ g < 32 * Z.of_nat (length (bitmap st)) →
  free_frames (mark_used g st) = free_frames st ∖ {[g]}.
Proof.
  intros Hg. apply set_eq. intros f.
  rewrite elem_of_difference, !elem_free_frames, not_elem_of_singleton. simpl.
  split.
  - intros [Hf Hu]. rewrite is_used_mark_used in Hu by (done || lia).
    apply orb_false_iff in Hu as [Hu1 Hu2]. apply bool_decide_eq_false in Hu1. done.
  - intros [[Hf Hu] Hne]. split; [done|]. rewrite is_used_mark_used by (done || lia).
    by rewrite bool_decide_false, Hu.
Qed.

Lemma free_frames_mark_free st g :
  0 ≤ g < frame_count st → g < 32 * Z.of_nat (length (bitmap st)) →
  free_frames (mark_free g st) = {[g]} ∪ free_frames st.
Proof.
  intros Hg Hl. apply set_eq. intros f.
  rewrite elem_of_union, !elem_free_frames, elem_of_singleton. simpl.
  split.
  - intros [Hf Hu]. rewrite is_used_mark_free in Hu by (done || lia).
    destruct (decide (f = g)); [by left|right]. by rewrite bool_decide_false in Hu.
  - intros [->|[Hf Hu]].
    + split; [done|]. rewrite is_used_mark_free by lia. by rewrite bool_decide_true.
    + split; [done|]. rewrite is_used_mark_free by lia. by rewrite Hu, andb_false_r.
Qed.

(** *** One frame *)

(** [skip_full] stops at the first word, from [w], with a clear bit. *)
Lemma skip_full_spec fuel st w :
  pmm_wf st → 0 ≤ w ≤ word_count st → word_count st - w ≤ Z.of_nat fuel →
  (∀ f, 0 ≤ f < 32 * w → is_used st f = true) →
  let w' := skip_full fuel st w in
  w ≤ w' ≤ word_count st ∧ (∀ f, 0 ≤ f < 32 * w' → is_used st f = true) ∧
  (w' < word_count st → word st w' ≠ 0xFFFFFFFF).
Proof.
  intros Hwf. revert w. induction fuel as [|fuel IH]; intros w Hw Hf Hfull; simpl.
  { split_and!; [lia|lia|done|lia]. }
  destruct ((w <? word_count st) && (word st w =? 0xFFFFFFFF)) eqn:E.
  - apply andb_true_iff in E as [E1 E2]. zbool.
    rewrite (full_word st w) in E2 by (destruct Hwf; (done || lia)).
    destruct (IH (w + 1)) as (H1 & H2 & H3); [lia|lia| |].
    { intros f Hf'. destruct (decide (f < 32 * w)); [apply Hfull; lia|apply E2; lia]. }
    split_and!; [lia|lia|done|done].
  - split_and!; [lia|lia|done|]. intros Hlt Hw'. rewrite Hw', Z.eqb_refl in E.
    rewrite (proj2 (Z.ltb_lt _ _) Hlt) in E. done.
Qed.

(** The frame [pmm_alloc_frame] picks in word [w] is its lowest clear bit. *)
Lemma lowest_clear st w :
  pmm_wf st → 0 ≤ w < word_count st → word st w ≠ 0xFFFFFFFF →
  (∀ f, 0 ≤ f < 32 * w → is_used st f = true) →
  let frame := w * 32 + ctz32 (not32 (word st w)) in
  frame ∈ free_frames st ∧ ∀ f, f ∈ free_frames st → frame ≤ f.
Proof.
  intros Hwf Hw Hne Hfull frame. destruct Hwf as [Hfc Hwc Hl Hr _ _ Htail _ _].
  assert (∃ j, 0 ≤ j < 0 + Z.of_nat 32 ∧ Z.testbit (not32 (word st w)) j = true) as Hex.
  { destruct (decide (Exists (λ j, is_used st (32 * w + j) = false) (seqZ 0 32))) as [Hex|Hno].
    - apply Exists_exists in Hex as (j & Hj & Hu). apply elem_of_seqZ in Hj.
      exists j. split; [lia|].
      rewrite not32_testbit by lia. rewrite is_used_testbit in Hu by lia.
      replace ((32 * w + j) / 32) with w in Hu by dlia.
      replace ((32 * w + j) mod 32) with j in Hu by dlia. by rewrite Hu.
    - exfalso. apply Hne, full_word; [lia|done|]. intros f Hf.
      destruct (is_used st f) eqn:E; [done|]. exfalso. apply Hno.
      apply Exists_exists. exists (f - 32 * w). rewrite elem_of_seqZ. split; [lia|].
      by replace (32 * w + (f - 32 * w)) with f by lia. }
  destruct (ctz_from_spec 32 0 (not32 (word st w)) ltac:(lia) Hex) as (H1 & H2 & H3).
  fold (ctz32 (not32 (word st w))) in *. set (k := ctz32 _) in *.
  assert (∀ j, 0 ≤ j < 32 → is_used st (w * 32 + j) = negb (Z.testbit (not32 (word st w)) j)) as Hb.
  { intros j Hj. rewrite is_used_testbit, not32_testbit, negb_involutive by lia.
    f_equal; [f_equal|]; dlia. }
  assert (is_used st frame = false) as Hfree by (unfold frame; rewrite Hb, H2 by lia; done).
  split.
  - apply elem_free_frames. split; [|done]. split; [unfold frame; lia|].
    destruct (decide (frame < frame_count st)); [done|].
    rewrite Htail in Hfree; [done|]. unfold frame in *. lia.
  - intros f [Hf Hu]%elem_free_frames. destruct (decide (f < 32 * w)).
    { rewrite Hfull in Hu by lia. done. }
    destruct (decide (frame ≤ f)); [done|]. exfalso.
    replace f with (w * 32 + (f - w * 32)) in Hu by lia.
    rewrite Hb, H3 in Hu; [done| |]; unfold frame in *; lia.
Qed.

Lemma free_count_pos st f : pmm_wf st → f ∈ free_frames st → 0 < free_count st < 2 ^ 32.
Proof.
  intros Hwf Hf. rewrite (wf_count st Hwf). split.
  - assert (size (free_frames st) ≠ 0%nat); [|lia].
    intros E. apply size_empty_inv in E. set_solver.
  - rewrite <- count_free_size by (destruct Hwf; lia).
    assert (count_free st ≤ frame_count st).
    { unfold count_free. apply (for_range_ind (λ i c, c ≤ i)); [destruct Hwf; lia|lia|].
      intros i s Hi Hs. destruct (is_used st i); lia. }
    destruct Hwf; lia.
Qed.

(** Marking a set of free frames used keeps the invariant, up to the
    count and the hint. *)
Lemma wf_mark_used st g :
  pmm_wf st → g ∈ free_frames st →
  pmm_wf (set_free_count (mark_used g st) (u32 (free_count st - 1))).
Proof.
  intros Hwf Hg. pose proof (free_count_pos _ _ Hwf Hg) as Hpos.
  pose proof Hg as [Hgf Hgu]%elem_free_frames.
  assert (0 ≤ g < 32 * Z.of_nat (length (bitmap st))) as Hb
    by (destruct Hwf as [? Hwc Hl]; rewrite Hl, Hwc; dlia).
  assert (∀ f, 0 ≤ f → is_used st f = true → is_used (mark_used g st) f = true) as Hmono.
  { intros f Hf Hu. rewrite is_used_mark_used by done. by rewrite Hu, orb_true_r. }
  destruct Hwf. constructor; simpl; try done.
  - by rewrite length_aset.
  - by apply mark_used_range.
  - intros f Hf. apply Hmono; [lia|]. by apply wf_full0.
  - intros f Hf. apply Hmono; [lia|]. by apply wf_tail0.
  - by apply Hmono.
  - change (free_frames _) with (free_frames (mark_used g st)).
    rewrite free_frames_mark_used by done. rewrite u32_small by lia.
    rewrite size_difference by by apply singleton_subseteq_l.
    rewrite size_singleton. lia.
Qed.

(** The contract of [pmm_alloc_frame]: the lowest free frame, or 0 when
    there is none. *)
Definition spec_alloc (free : gset Z) (r : Z) (free' : gset Z) : Prop :=
  (free = ∅ ∧ r = 0 ∧ free' = free) ∨
  (∃ m, m ∈ free ∧ (∀ f, f ∈ free → m ≤ f) ∧ r = m * PAGE_SIZE ∧ 0 < r < 2 ^ 32 ∧
        free' = free ∖ {[m]}).

Lemma set_hint_wf st h :
  pmm_wf st → 0 ≤ h ≤ word_count st → (∀ f, 0 ≤ f < 32 * h → is_used st f = true) →
  pmm_wf (set_hint st h).
Proof. intros Hwf Hh Hf. by destruct Hwf; constructor. Qed.

Lemma free_frame_positive st f : pmm_wf st → f ∈ free_frames st → 0 < f < 2 ^ 20.
Proof.
  intros Hwf [Hf Hu]%elem_free_frames. destruct (decide (f = 0)) as [->|].
  - rewrite wf_zero in Hu by done. done.
  - destruct Hwf; lia.
Qed.

(** The address of a frame. *)
Lemma frame_addr f : 0 ≤ f < 2 ^ 20 → u32 (Z.shiftl f PAGE_SHIFT) = f * PAGE_SIZE.
Proof.
  intros Hf. rewrite Z.shiftl_mul_pow2 by done.
  change (2 ^ PAGE_SHIFT) with PAGE_SIZE. apply u32_small. unfold PAGE_SIZE. lia.
Qed.

Lemma alloc_frame_step st :
  pmm_wf st →
  pmm_wf (pmm_alloc_frame st).2 ∧
  spec_alloc (free_frames st) (pmm_alloc_frame st).1 (free_frames (pmm_alloc_frame st).2).
Proof.
  intros Hwf. unfold pmm_alloc_frame.
  destruct (skip_full_spec (Z.to_nat (word_count st)) st (search_hint st) Hwf)
    as (Hw & Hfull & Hne); [by destruct Hwf|destruct Hwf; lia|by destruct Hwf|].
  set (w := skip_full _ _ _) in *. simpl.
  assert (0 ≤ w ≤ word_count st) as Hw' by (destruct Hwf; lia).
  pose proof (set_hint_wf st w Hwf Hw' Hfull) as Hwf'.
  destruct (w <? word_count st) eqn:E; zbool; simpl.
  - destruct (lowest_clear st w Hwf) as [Hin Hmin]; [lia|by apply Hne|done|].
    change (word (set_hint st w) w) with (word st w).
    set (frame := w * 32 + _) in *. split.
    { by apply (wf_mark_used (set_hint st w) frame). }
    right. exists frame. split_and!; [done|done| | | |].
    + rewrite frame_addr; [done|]. apply free_frame_positive in Hin; [lia|done].
    + apply free_frame_positive in Hin; [|done]. rewrite frame_addr by lia. unfold PAGE_SIZE. lia.
    + apply u32_range.
    + transitivity (free_frames (mark_used frame st)); [done|].
      apply free_frames_mark_used. destruct Hwf as [? Hwc Hl]. rewrite Hl, Hwc.
      apply elem_free_frames in Hin. dlia.
  - split; [done|]. left. split_and!; [|done|done].
    apply set_eq. intros f. split; [|set_solver]. intros [Hf Hu]%elem_free_frames.
    rewrite Hfull in Hu; [done|]. destruct Hwf as [? Hwc]. dlia.
Qed.

(** *** Runs of frames *)

(** [st'] differs from [st] in bitmap contents only. *)
Record same_shape (st st' : pmm) : Prop := {
  ss_frames : frame_count st' = frame_count st;
  ss_words : word_count st' = word_count st;
  ss_hint : search_hint st' = search_hint st;
  ss_free : free_count st' = free_count st;
  ss_usable : usable_count st' = usable_count st;
  ss_length : length (bitmap st') = length (bitmap st);
  ss_range : Forall (λ w, 0 ≤ w < 2 ^ 32) (bitmap st')
}.

Lemma mark_used_run st lo hi :
  Forall (λ w, 0 ≤ w < 2 ^ 32) (bitmap st) →
  0 ≤ lo → hi ≤ 32 * Z.of_nat (length (bitmap st)) →
  same_shape st (for_range lo hi mark_used st) ∧
  ∀ f, 0 ≤ f → is_used (for_range lo hi mark_used st) f = bool_decide (lo ≤ f < hi) || is_used st f.
Proof.
  intros Hr Hlo Hhi. destruct (decide (hi ≤ lo)).
  { rewrite for_range_nil by lia. split; [done|]. intros f Hf. by rewrite bool_decide_false by lia. }
  pose (P := λ i st', same_shape st st' ∧ ∀ f, 0 ≤ f →
    is_used st' f = bool_decide (lo ≤ f < i) || is_used st f).
  apply (for_range_ind P); unfold P; [lia| |].
  { split; [done|]. intros f Hf. by rewrite bool_decide_false by lia. }
  intros i s Hi [[] Hu]. split.
  { constructor; try done; simpl; [by rewrite length_aset|apply mark_used_range; [done|lia]]. }
  intros f Hf. rewrite is_used_mark_used by lia. rewrite Hu by done.
  destruct (is_used st f); [by rewrite !orb_true_r|]. rewrite !orb_false_r.
  repeat case_bool_decide; (done || lia).
Qed.

Lemma mark_free_run st lo hi :
  Forall (λ w, 0 ≤ w < 2 ^ 32) (bitmap st) →
  0 ≤ lo → hi ≤ 32 * Z.of_nat (length (bitmap st)) →
  same_shape st (for_range lo hi mark_free st) ∧
  ∀ f, 0 ≤ f →
    is_used (for_range lo hi mark_free st) f = negb (bool_decide (lo ≤ f < hi)) && is_used st f.
Proof.
  intros Hr Hlo Hhi. destruct (decide (hi ≤ lo)).
  { rewrite for_range_nil by lia. split; [done|]. intros f Hf. by rewrite bool_decide_false by lia. }
  pose (P := λ i st', same_shape st st' ∧ ∀ f, 0 ≤ f →
    is_used st' f = negb (bool_decide (lo ≤ f < i)) && is_used st f).
  apply (for_range_ind P); unfold P; [lia| |].
  { split; [done|]. intros f Hf. by rewrite bool_decide_false by lia. }
  intros i s Hi [[] Hu]. split.
  { constructor; try done; simpl; [by rewrite length_aset|apply mark_free_range; [done|lia]]. }
  intros f Hf. rewrite is_used_mark_free by lia. rewrite Hu by done.
  destruct (is_used st f); [|by rewrite !andb_false_r]. rewrite !andb_true_r.
  repeat case_bool_decide; (done || lia).
Qed.

(** *** Contiguous runs: first fit *)

(** Frames [s .. s + frames - 1] are free, below frame [last], and their
    bytes lie between two consecutive multiples of [boundary] (if any). *)
Definition fits (st : pmm) (frames last boundary s : Z) : Prop :=
  0 ≤ s ∧ s + frames ≤ last ∧ (∀ f, s ≤ f < s + frames → is_used st f = false) ∧
  (boundary = 0 ∨ s * PAGE_SIZE / boundary = ((s + frames) * PAGE_SIZE - 1) / boundary).

Lemma free_run_spec fuel st start frames run :
  0 ≤ run ≤ frames → frames - run ≤ Z.of_nat fuel →
  (∀ f, start ≤ f < start + run → is_used st f = false) →
  let r := free_run fuel st start frames run in
  run ≤ r ≤ frames ∧ (∀ f, start ≤ f < start + r → is_used st f = false) ∧
  (r < frames → is_used st (start + r) = true).
Proof.
  revert run. induction fuel as [|fuel IH]; intros run Hr Hf Hfree; simpl.
  { split_and!; (done || lia). }
  destruct ((run <? frames) && negb (is_used st (start + run))) eqn:E; zbool.
  - destruct (IH (run + 1)) as (? & ? & ?); [lia|lia| |by split_and!; (done || lia)].
    intros f Hf'. destruct (decide (f = start + run)); [by subst|]. apply Hfree. lia.
  - split_and!; [lia|lia|done|]. intros Hlt. rewrite (proj2 (Z.ltb_lt _ _) Hlt) in E.
    by apply negb_false_iff in E.
Qed.

Section contiguous.
Context (st : pmm) (Hwf : pmm_wf st) (frames last boundary : Z).
Context (Hframes : 0 < frames ≤ last) (Hlast : last ≤ frame_count st).
Context (k : Z) (Hbound : boundary = k * PAGE_SIZE) (Hk : 0 ≤ k < 2 ^ 20).

Lemma contiguous_hi start :
  0 ≤ start → start + frames ≤ last →
  u32 (u32 (Z.shiftl start PAGE_SHIFT) + u32 (Z.shiftl frames PAGE_SHIFT) - 1) =
  (start + frames) * PAGE_SIZE - 1.
Proof using Hwf Hframes Hlast.
  intros Hs Hl. assert (frame_count st ≤ 2 ^ 20) by (destruct Hwf; lia).
  rewrite frame_addr by lia. unfold PAGE_SIZE.
  destruct (decide (frames = 2 ^ 20)) as [->|].
  - assert (start = 0) by lia. subst start. done.
  - rewrite frame_addr by lia. unfold PAGE_SIZE. rewrite u32_small; lia.
Qed.

(** Jumping to the next boundary makes progress and skips no fit. *)
Lemma boundary_jump start :
  0 ≤ start → start + frames ≤ last → boundary ≠ 0 →
  let hi := (start + frames) * PAGE_SIZE - 1 in
  start * PAGE_SIZE / boundary ≠ hi / boundary →
  let next := Z.shiftr (u32 (hi / boundary * boundary)) PAGE_SHIFT in
  start < next ≤ last ∧ ∀ s, start ≤ s < next → ¬ fits st frames last boundary s.
Proof using Hwf Hframes Hlast Hbound Hk.
  intros Hs Hl Hb hi Hne next. assert (frame_count st ≤ 2 ^ 20) by (destruct Hwf; lia).
  unfold PAGE_SIZE in *. assert (0 < boundary) by lia.
  assert (start * 4096 / boundary < hi / boundary) as Hlt.
  { assert (start * 4096 / boundary ≤ hi / boundary); [|lia].
    apply Z.div_le_mono; unfold hi; lia. }
  assert (0 ≤ hi / boundary * boundary ≤ hi) as Hhb.
  { split; [apply Z.mul_nonneg_nonneg; [apply Z.div_pos|]; unfold hi; lia|].
    pose proof (Z.mul_div_le hi boundary). lia. }
  assert (next = k * (hi / boundary)) as Hnext.
  { unfold next. rewrite u32_small by (unfold hi in *; lia).
    rewrite Z.shiftr_div_pow2 by done. change (2 ^ PAGE_SHIFT) with 4096.
    rewrite Hbound. replace (hi / (k * 4096) * (k * 4096)) with (k * (hi / (k * 4096)) * 4096) by ring.
    by rewrite Z.div_mul. }
  assert (next * 4096 = hi / boundary * boundary) as Hn4 by (rewrite Hnext, Hbound; ring).
  assert (start * 4096 < next * 4096).
  { rewrite Hn4. pose proof (Z.mul_succ_div_gt (start * 4096) boundary). nia. }
  split; [unfold hi in *; lia|].
  intros s Hs' (Ha & Hb1 & _ & [|Hc]); [lia|].
  assert (s * 4096 / boundary < hi / boundary) by (apply Z.div_lt_upper_bound; lia).
  assert (hi / boundary ≤ ((s + frames) * 4096 - 1) / boundary) by (apply Z.div_le_mono; unfold hi; lia).
  unfold PAGE_SIZE in *. lia.
Qed.

Lemma contiguous_loop_spec fuel start :
  0 ≤ start ≤ last → last - start < Z.of_nat fuel →
  (∀ s, 0 ≤ s < start → ¬ fits st frames last boundary s) →
  (contiguous_loop fuel st frames last boundary start = Some (0, st) ∧
    ∀ s, ¬ fits st frames last boundary s) ∨
  (∃ s, fits st frames last boundary s ∧
    (∀ s', fits st frames last boundary s' → s ≤ s') ∧
    contiguous_loop fuel st frames last boundary start =
      Some (s * PAGE_SIZE, set_free_count (for_range s (s + frames) mark_used st)
                            (u32 (free_count st - frames)))).
Proof using Hwf Hframes Hlast Hbound Hk.
  revert start. induction fuel as [|fuel IH]; intros start Hs Hf Hno; [lia|]. simpl.
  assert (frame_count st ≤ 2 ^ 20) by (destruct Hwf; lia).
  rewrite u32_small by lia.
  destruct (start + frames <=? last) eqn:E1; zbool; simpl.
  2: { left. split; [done|]. intros s Hfit. destruct (decide (s < start)).
       - apply (Hno s); [destruct Hfit; lia|done].
       - destruct Hfit as (? & ? & _). lia. }
  rewrite contiguous_hi by lia. rewrite (frame_addr start) by lia.
  destruct (truth boundary && _) eqn:E2; zbool.
  { unfold truth in *. zbool. destruct (boundary_jump start) as [Hn Hskip]; [lia..|].
    apply IH; [lia|lia|]. intros s Hs'. destruct (decide (s < start)); [apply Hno; lia|].
    apply Hskip. lia. }
  destruct (free_run_spec (Z.to_nat frames) st start frames 0) as (Hr & Hfree & Hstop);
    [lia|lia|intros f; lia|].
  set (run := free_run _ _ _ _ _) in *.
  destruct (run =? frames) eqn:E3; zbool.
  - right. exists start. split_and!.
    + split_and!; [lia|lia| |].
      { intros f Hf'. apply Hfree. lia. }
      apply andb_false_iff in E2 as [E2|E2]; unfold truth in E2; zbool; [by left|by right].
    + intros s' Hfit. destruct (decide (s' < start)); [|lia].
      exfalso. apply (Hno s'); [destruct Hfit; lia|done].
    + unfold PAGE_SIZE. destruct (mark_used_run st start (start + frames)) as [[] _]; [by destruct Hwf| | |].
      { lia. } { destruct Hwf as [? Hwc Hl]. rewrite Hl, Hwc. dlia. }
      by rewrite ss_free0.
  - rewrite u32_small by lia. apply IH; [lia|lia|].
    intros s Hs' Hfit. destruct (decide (s < start)); [apply (Hno s); [lia|done]|].
    destruct Hfit as (_ & _ & Hfit & _).
    rewrite Hfit in Hstop; [|lia]. assert (run < frames) as Hlt by lia. by specialize (Hstop Hlt).
Qed.
End contiguous.

Lemma wf_mark_run st lo n :
  pmm_wf st → 0 < n → (∀ f, lo ≤ f < lo + n → f ∈ free_frames st) →
  let st' := set_free_count (for_range lo (lo + n) mark_used st) (u32 (free_count st - n)) in
  pmm_wf st' ∧ free_frames st' = free_frames st ∖ list_to_set (seqZ lo n).
Proof.
  intros Hwf Hn Hin st'. pose proof Hwf as [Hfc Hwc Hl Hr Hh Hfull Htail Hz Hcnt].
  assert (lo ∈ free_frames st) as Hlo by (apply Hin; lia).
  assert (lo + n - 1 ∈ free_frames st) as Hhi by (apply Hin; lia).
  pose proof (free_count_pos _ _ Hwf Hlo) as Hpos.
  apply elem_free_frames in Hlo. apply elem_free_frames in Hhi.
  destruct (mark_used_run st lo (lo + n)) as [[] Hu]; [done|lia|rewrite Hl, Hwc; dlia|].
  assert (∀ f, 0 ≤ f → is_used st f = true → is_used st' f = true) as Hmono.
  { intros f Hf Hu'. unfold st'. change (is_used (set_free_count ?a _) f) with (is_used a f).
    rewrite Hu by done. by rewrite Hu', orb_true_r. }
  assert (free_frames st' = free_frames st ∖ list_to_set (seqZ lo n)) as Hset.
  { apply set_eq. intros f.
    rewrite elem_of_difference, elem_of_list_to_set, elem_of_seqZ, !elem_free_frames.
    unfold st'; simpl. rewrite ss_frames0. split.
    - intros [Hf Hu']. change (is_used (set_free_count ?a _) f) with (is_used a f) in Hu'.
      rewrite Hu in Hu' by lia. apply orb_false_iff in Hu' as [Hu1 Hu2].
      apply bool_decide_eq_false in Hu1. done.
    - intros [[Hf Hu'] Hne]. split; [done|].
      change (is_used (set_free_count ?a _) f) with (is_used a f).
      rewrite Hu, Hu' by lia. by rewrite bool_decide_false. }
  assert (list_to_set (seqZ lo n) ⊆ free_frames st) as Hsub.
  { intros f. rewrite elem_of_list_to_set, elem_of_seqZ. apply Hin. }
  split; [|done]. constructor; [| | |done| | | | |]; unfold st'; simpl.
  - by rewrite ss_frames0.
  - by rewrite ss_words0, ss_frames0.
  - by rewrite ss_length0, ss_words0.
  - by rewrite ss_hint0, ss_words0.
  - rewrite ss_hint0. intros f Hf. apply Hmono; [lia|]. by apply Hfull.
  - rewrite ss_frames0, ss_words0. intros f Hf. apply Hmono; [lia|]. by apply Htail.
  - by apply Hmono.
  - fold st'. rewrite Hset. rewrite size_difference by done.
    pose proof (subseteq_size _ _ Hsub) as Hsz.
    rewrite size_list_to_set in * by apply NoDup_seqZ.
    rewrite length_seqZ in *. rewrite Hcnt in *. rewrite u32_small by lia. lia.
Qed.

(** *** Placing the bitmap at boot *)

(** What the boot memory map is taken to be: 64-bit ranges that do not
    wrap, and no reserved range reaching into the last mebibytes below
    1 GiB from below, so that no address of the kernel's 1 GiB window
    wraps while a place for the bitmap is searched. *)
Definition region_ok (r : mem_region) : Prop :=
  0 ≤ base r ∧ 0 ≤ len r ∧ base r + len r < 2 ^ 64 ∧
  (usable r = false → region_end r ≤ 0x3F000000 ∨ 0x3F800000 ≤ base r).

Lemma region_end_range r : 0 ≤ region_end r ≤ PHYS_ADDR_LIMIT.
Proof.
  unfold region_end. pose proof (u64_range (base r + len r)).
  case_if; lia.
Qed.

Lemma page_round_up x :
  0 ≤ x → x + PAGE_SIZE - 1 < 2 ^ 32 →
  Z.land (u32 (x + PAGE_SIZE - 1)) (not32 (PAGE_SIZE - 1)) = (x + PAGE_SIZE - 1) / PAGE_SIZE * PAGE_SIZE.
Proof.
  unfold PAGE_SIZE. intros Hx Hlt. rewrite u32_small by lia.
  apply (land_not32_mask 12); lia.
Qed.

Lemma V2P_window s : KERNEL_VIRT_BASE ≤ s < 2 ^ 32 → V2P s = s - KERNEL_VIRT_BASE.
Proof. unfold V2P, KERNEL_VIRT_BASE. intros. apply u32_small. lia. Qed.

(** A reserved region in the way of a bitmap in [[start, bend)]. *)
Definition overlaps (bend start : Z) (r : mem_region) : Prop :=
  usable r = false ∧ base r < V2P bend ∧ V2P start < region_end r.

Definition window_top : Z := KERNEL_VIRT_BASE + 0x3F000000.

Lemma place_pass_spec regions start bend :
  Forall region_ok regions → KERNEL_VIRT_BASE ≤ start ≤ window_top → V2P bend ≤ 0x3F800000 →
  let '(start', moved) := place_pass regions start bend in
  start ≤ start' ≤ window_top ∧
  (moved = false → start' = start ∧ ∀ r, r ∈ regions → ¬ overlaps bend start r) ∧
  (moved = true → ∃ r, r ∈ regions ∧ V2P start < region_end r ∧ region_end r ≤ V2P start').
Proof.
  intros Hok Hs Hb. unfold place_pass.
  induction regions as [|r regions IH] using rev_ind.
  { simpl. split_and!; [lia|lia| |done]. intros _. split; [done|]. by intros r ?%not_elem_of_nil. }
  apply Forall_app in Hok as [Hok Hr]. apply Forall_singleton in Hr as (Hr1 & Hr2 & Hr3 & Hr4).
  rewrite foldl_app. cbn [foldl]. specialize (IH Hok).
  destruct (foldl _ _ regions) as [s m]. destruct IH as (IH1 & IH2 & IH3).
  destruct (negb (usable r) && _ && _) eqn:E; zbool.
  - destruct (Hr4 ltac:(done)) as [Hend|]; [|lia].
    pose proof (region_end_range r). rewrite page_round_up by (unfold PAGE_SIZE; lia).
    set (hi' := _ / PAGE_SIZE * PAGE_SIZE).
    assert (region_end r ≤ hi' ≤ 0x3F000000) as Hhi by (unfold hi', PAGE_SIZE; dlia).
    assert (P2V hi' = KERNEL_VIRT_BASE + hi') as ->.
    { unfold P2V, KERNEL_VIRT_BASE. rewrite !u32_small; [lia|lia|rewrite u32_small; lia]. }
    unfold window_top, KERNEL_VIRT_BASE in *. rewrite V2P_window in * by (unfold KERNEL_VIRT_BASE; lia).
    rewrite (V2P_window s) in * by (unfold KERNEL_VIRT_BASE; lia). unfold KERNEL_VIRT_BASE in *.
    split_and!; [lia|lia|done|]. intros _. exists r. split_and!; [apply elem_of_app; right; by left|lia|].
    rewrite V2P_window by (unfold KERNEL_VIRT_BASE; lia). unfold KERNEL_VIRT_BASE. lia.
  - split_and!; [lia|lia| |].
    + intros ->. destruct IH2 as [-> IH2]; [done|]. split; [done|].
      intros r' [Hr'| ->%list_elem_of_singleton]%elem_of_app; [by apply IH2|].
      intros (Hu & Hlo & Hhi). rewrite Hu in E. simpl in E.
      apply andb_false_iff in E as [E|E]; zbool; lia.
    + intros ->. destruct IH3 as (r' & ? & ?); [done|]. exists r'. split; [|done]. apply elem_of_app. by left.
Qed.

Definition above (start : Z) (regions : list mem_region) : list mem_region :=
  filter (λ r, V2P start < region_end r) regions.

Lemma above_mono s s' regions :
  V2P s ≤ V2P s' → (length (above s' regions) ≤ length (above s regions))%nat.
Proof.
  intros H. unfold above. induction regions as [|r l IH]; [done|].
  rewrite !filter_cons. repeat case_decide; simpl; lia.
Qed.

Lemma above_decreases s s' regions r :
  r ∈ regions → V2P s ≤ V2P s' → V2P s < region_end r → region_end r ≤ V2P s' →
  (length (above s' regions) < length (above s regions))%nat.
Proof.
  intros Hin Hle H1 H2. apply list_elem_of_split in Hin as (l1 & l2 & ->).
  unfold above. rewrite !filter_app, !length_app, !filter_cons.
  rewrite decide_False, decide_True by lia. simpl.
  pose proof (above_mono s s' l1 Hle). pose proof (above_mono s s' l2 Hle).
  unfold above in *. lia.
Qed.

(** The bitmap's bytes for [frame_count] frames fit well below 8 MiB. *)
Lemma bitmap_end_window start bytes :
  KERNEL_VIRT_BASE ≤ start ≤ window_top → 0 ≤ bytes ≤ 0x200000 →
  V2P (bitmap_end_of start bytes) ≤ 0x3F800000 ∧
  start + bytes ≤ bitmap_end_of start bytes < 2 ^ 32.
Proof.
  unfold window_top, KERNEL_VIRT_BASE. intros Hs Hb.
  unfold bitmap_end_of. rewrite (page_round_up (start + bytes)) by (unfold PAGE_SIZE; lia).
  rewrite V2P_window; unfold KERNEL_VIRT_BASE, PAGE_SIZE; dlia.
Qed.

Lemma place_bitmap_spec regions bytes fuel start :
  Forall region_ok regions → 0 ≤ bytes ≤ 0x200000 →
  KERNEL_VIRT_BASE ≤ start ≤ window_top → (length (above start regions) < fuel)%nat →
  ∃ start', place_bitmap fuel regions start bytes = Some (start', bitmap_end_of start' bytes) ∧
    start ≤ start' ≤ window_top ∧
    ∀ r, r ∈ regions → ¬ overlaps (bitmap_end_of start' bytes) start' r.
Proof.
  intros Hok Hb. revert start. induction fuel as [|fuel IH]; intros start Hs Hf; [lia|]. simpl.
  destruct (bitmap_end_window start bytes Hs Hb) as [Hw _].
  pose proof (place_pass_spec regions start (bitmap_end_of start bytes) Hok Hs Hw) as Hp.
  destruct (place_pass _ _ _) as [s' [|]]; destruct Hp as (H1 & H2 & H3).
  - destruct H3 as (r & Hin & Hlt & Hle); [done|].
    destruct (IH s') as (s2 & ? & ? & ?); [lia| |].
    { enough (length (above s' regions) < length (above start regions))%nat by lia.
      apply (above_decreases _ _ _ r); try done. lia. }
    exists s2. split_and!; (done || lia).
  - destruct H2 as [-> H2]; [done|]. exists start. split_and!; (done || lia).
Qed.

(** *** The frames [pmm_init] frees *)

(** The frame lies inside a usable region. *)
Definition usable_frame (regions : list mem_region) (f : Z) : Prop :=
  ∃ r, r ∈ regions ∧ usable r = true ∧ base r ≤ f * PAGE_SIZE ∧ (f + 1) * PAGE_SIZE ≤ region_end r.

(** The frame touches a reserved region. *)
Definition reserved_frame (regions : list mem_region) (f : Z) : Prop :=
  ∃ r, r ∈ regions ∧ usable r = false ∧ base r < (f + 1) * PAGE_SIZE ∧ f * PAGE_SIZE < region_end r.

#[export] Instance usable_frame_dec regions f : Decision (usable_frame regions f).
Proof.
  refine (cast_if (decide (Exists (λ r, usable r = true ∧ base r ≤ f * PAGE_SIZE ∧
    (f + 1) * PAGE_SIZE ≤ region_end r) regions))); unfold usable_frame; [by apply Exists_exists|by intros ?%Exists_exists].
Defined.

#[export] Instance reserved_frame_dec regions f : Decision (reserved_frame regions f).
Proof.
  refine (cast_if (decide (Exists (λ r, usable r = false ∧ base r < (f + 1) * PAGE_SIZE ∧
    f * PAGE_SIZE < region_end r) regions))); unfold reserved_frame; [by apply Exists_exists|by intros ?%Exists_exists].
Defined.

Lemma same_shape_trans a b c : same_shape a b → same_shape b c → same_shape a c.
Proof. intros [] []. constructor; (done || congruence). Qed.

Lemma same_shape_refl a : Forall (λ w, 0 ≤ w < 2 ^ 32) (bitmap a) → same_shape a a.
Proof. by constructor. Qed.

(** A state whose bitmap has room for all its frames. *)
Definition bitmap_ok (st : pmm) : Prop :=
  Forall (λ w, 0 ≤ w < 2 ^ 32) (bitmap st) ∧ 0 ≤ frame_count st ≤ 2 ^ 20 ∧
  frame_count st ≤ 32 * Z.of_nat (length (bitmap st)).

Lemma bitmap_ok_shape st st' : bitmap_ok st → same_shape st st' → bitmap_ok st'.
Proof.
  intros (? & ? & ?) []. unfold bitmap_ok. rewrite ss_frames0, ss_length0. done.
Qed.

Lemma page_index_down x : 0 ≤ x ≤ PHYS_ADDR_LIMIT → u32 (Z.shiftr x PAGE_SHIFT) = x / PAGE_SIZE.
Proof.
  unfold PAGE_SIZE. intros Hx.
  rewrite Z.shiftr_div_pow2 by lia. change (2 ^ 12) with 4096. apply u32_small. dlia.
Qed.

Lemma page_index_up x :
  0 ≤ x ≤ PHYS_ADDR_LIMIT →
  u32 (Z.shiftr (x + PAGE_SIZE - 1) PAGE_SHIFT) = (x + PAGE_SIZE - 1) / PAGE_SIZE.
Proof.
  unfold PAGE_SIZE. intros Hx.
  rewrite Z.shiftr_div_pow2 by lia. change (2 ^ 12) with 4096. apply u32_small. dlia.
Qed.

Lemma page_up_le x f : (x + PAGE_SIZE - 1) / PAGE_SIZE ≤ f ↔ x ≤ f * PAGE_SIZE.
Proof. unfold PAGE_SIZE. dlia. Qed.
Lemma page_up_gt x f : f < (x + PAGE_SIZE - 1) / PAGE_SIZE ↔ f * PAGE_SIZE < x.
Proof. unfold PAGE_SIZE. dlia. Qed.
Lemma page_down_gt x f : f < x / PAGE_SIZE ↔ (f + 1) * PAGE_SIZE ≤ x.
Proof. unfold PAGE_SIZE. dlia. Qed.
Lemma page_down_le x f : x / PAGE_SIZE ≤ f ↔ x < (f + 1) * PAGE_SIZE.
Proof. unfold PAGE_SIZE. dlia. Qed.

Lemma free_regions_spec regions st :
  Forall region_ok regions → bitmap_ok st →
  same_shape st (foldl free_region st regions) ∧
  ∀ f, 0 ≤ f →
    is_used (foldl free_region st regions) f = true ↔
    is_used st f = true ∧ ¬ (f < frame_count st ∧ usable_frame regions f).
Proof.
  intros Hok Hb. induction regions as [|r regions IH] using rev_ind.
  { simpl. split; [by apply same_shape_refl, Hb|]. intros f Hf. split; [|by intros [? _]].
    intros Hu. split; [done|]. intros (_ & r & Hr%not_elem_of_nil & _). done. }
  apply Forall_app in Hok as [Hok Hr]. apply Forall_singleton in Hr as (Hr1 & Hr2 & Hr3 & _).
  destruct (IH Hok) as [Hsh Hu]. rewrite foldl_app. simpl. set (s := foldl _ _ _) in *.
  assert (∀ f, usable_frame (regions ++ [r]) f ↔ usable_frame regions f ∨
    (usable r = true ∧ base r ≤ f * PAGE_SIZE ∧ (f + 1) * PAGE_SIZE ≤ region_end r)) as Hsplit.
  { intros f. unfold usable_frame. setoid_rewrite elem_of_app. setoid_rewrite list_elem_of_singleton.
    split; [intros (r' & [?| ->] & ?); eauto|intros [(r' & ? & ?)|?]; eauto]. }
  pose proof (bitmap_ok_shape _ _ Hb Hsh) as (Hr' & Hf' & Hl'). pose proof (region_end_range r).
  unfold free_region. destruct (negb (usable r) || (base r >=? PHYS_ADDR_LIMIT)) eqn:E.
  - split; [done|]. intros f Hf. rewrite Hu, Hsplit by done.
    enough (¬ (usable r = true ∧ base r ≤ f * PAGE_SIZE ∧ (f + 1) * PAGE_SIZE ≤ region_end r)) by tauto.
    intros (Hus & Hlo & Hhi).
    rewrite Hus in E. simpl in E. rewrite Z.geb_leb in E. zbool.
    unfold PAGE_SIZE in *. lia.
  - rewrite Z.geb_leb in E. zbool. rewrite (u64_small (base r + PAGE_SIZE - 1))
      by (unfold PAGE_SIZE in *; lia).
    rewrite page_index_up, page_index_down by lia.
    destruct (mark_free_run s ((base r + PAGE_SIZE - 1) / PAGE_SIZE)
      (Z.min (region_end r / PAGE_SIZE) (frame_count s))) as [Hsh2 Hu2];
      [done|unfold PAGE_SIZE; dlia|lia|].
    split; [by eapply same_shape_trans|]. intros f Hf. rewrite Hu2 by lia.
    assert (frame_count s = frame_count st) as Hfc by by destruct Hsh.
    rewrite andb_true_iff, Hu, Hsplit by done. rewrite negb_true_iff, bool_decide_eq_false.
    assert ((base r + PAGE_SIZE - 1) / PAGE_SIZE ≤ f < Z.min (region_end r / PAGE_SIZE) (frame_count s)
      ↔ (base r ≤ f * PAGE_SIZE ∧ (f + 1) * PAGE_SIZE ≤ region_end r) ∧ f < frame_count st) as ->
      by (rewrite Z.min_glb_lt_iff, page_up_le, page_down_gt, Hfc; tauto).
    tauto.
Qed.

Lemma reserve_regions_spec regions st :
  Forall region_ok regions → bitmap_ok st →
  same_shape st (foldl reserve_region st regions) ∧
  ∀ f, 0 ≤ f →
    is_used (foldl reserve_region st regions) f = true ↔
    is_used st f = true ∨ (f < frame_count st ∧ reserved_frame regions f).
Proof.
  intros Hok Hb. induction regions as [|r regions IH] using rev_ind.
  { simpl. split; [by apply same_shape_refl, Hb|]. intros f Hf. split; [by left|].
    intros [?|(_ & r & Hr%not_elem_of_nil & _)]; done. }
  apply Forall_app in Hok as [Hok Hr]. apply Forall_singleton in Hr as (Hr1 & Hr2 & Hr3 & _).
  destruct (IH Hok) as [Hsh Hu]. rewrite foldl_app. simpl. set (s := foldl _ _ _) in *.
  assert (∀ f, reserved_frame (regions ++ [r]) f ↔ reserved_frame regions f ∨
    (usable r = false ∧ base r < (f + 1) * PAGE_SIZE ∧ f * PAGE_SIZE < region_end r)) as Hsplit.
  { intros f. unfold reserved_frame. setoid_rewrite elem_of_app. setoid_rewrite list_elem_of_singleton.
    split; [intros (r' & [?| ->] & ?); eauto|intros [(r' & ? & ?)|?]; eauto]. }
  pose proof (bitmap_ok_shape _ _ Hb Hsh) as (Hr' & Hf' & Hl'). pose proof (region_end_range r).
  assert (frame_count s = frame_count st) as Hfc by by destruct Hsh.
  unfold reserve_region. destruct (usable r || (base r >=? PHYS_ADDR_LIMIT)) eqn:E.
  - split; [done|]. intros f Hf. rewrite Hu, Hsplit by done.
    enough (¬ (usable r = false ∧ base r < (f + 1) * PAGE_SIZE ∧ f * PAGE_SIZE < region_end r)) by tauto.
    intros (Hus & Hlo & Hhi). rewrite Hus in E. simpl in E. rewrite Z.geb_leb in E. zbool.
    unfold PAGE_SIZE in *. lia.
  - rewrite Z.geb_leb in E. zbool. rewrite page_index_up, page_index_down by lia.
    destruct (mark_used_run s (base r / PAGE_SIZE)
      (Z.min ((region_end r + PAGE_SIZE - 1) / PAGE_SIZE) (frame_count s))) as [Hsh2 Hu2];
      [done|unfold PAGE_SIZE; dlia|lia|].
    split; [by eapply same_shape_trans|]. intros f Hf. rewrite Hu2 by lia.
    rewrite orb_true_iff, Hu, Hsplit, bool_decide_eq_true by done.
    assert (base r / PAGE_SIZE ≤ f < Z.min ((region_end r + PAGE_SIZE - 1) / PAGE_SIZE) (frame_count s)
      ↔ (base r < (f + 1) * PAGE_SIZE ∧ f * PAGE_SIZE < region_end r) ∧ f < frame_count st) as ->
      by (rewrite Z.min_glb_lt_iff, page_down_le, page_up_gt, Hfc; tauto).
    tauto.
Qed.

Lemma top_of_range regions : 0 ≤ top_of regions ≤ PHYS_ADDR_LIMIT.
Proof.
  unfold top_of. induction regions as [|r l IH] using rev_ind; [done|].
  rewrite foldl_app. simpl. pose proof (region_end_range r). case_if; lia.
Qed.

Lemma blank_pmm_spec top :
  PAGE_SIZE ≤ top ≤ PHYS_ADDR_LIMIT →
  let st := blank_pmm top in
  bitmap_ok st ∧ frame_count st = top / PAGE_SIZE ∧ word_count st = (frame_count st + 31) / 32 ∧
  Z.of_nat (length (bitmap st)) = word_count st ∧
  ∀ f, 0 ≤ f < 32 * word_count st → is_used st f = true.
Proof.
  intros Ht st. unfold PAGE_SIZE in *.
  assert (frame_count st = top / 4096) as Hfc by (apply page_index_down; lia).
  assert (word_count st = (frame_count st + 31) / 32) as Hwc.
  { unfold st, blank_pmm. cbn [frame_count word_count]. f_equal.
    rewrite page_index_down by (lia). unfold PAGE_SIZE.
    rewrite u32_small; dlia. }
  assert (Z.of_nat (length (bitmap st)) = word_count st) as Hl.
  { transitivity (Z.of_nat (Z.to_nat (word_count st))).
    - f_equal. apply length_replicate.
    - rewrite Hwc, Hfc. dlia. }
  assert (Forall (λ w, 0 ≤ w < 2 ^ 32) (bitmap st)) as Hr by (by apply Forall_replicate).
  split; [unfold bitmap_ok; rewrite Hl, Hwc, Hfc; split; [done|]; dlia|].
  split; [done|]. split; [done|]. split; [done|].
  intros f Hf. eapply full_word; [|exact Hr| |]; [| |].
  3: { split; [apply Z.mul_div_le; lia|]. pose proof (Z.mod_pos_bound f 32). dlia. }
  - rewrite Hl. dlia.
  - unfold word. apply aget_lookup; [dlia|]. apply lookup_replicate_2.
    change (Z.to_nat (f / 32) < Z.to_nat (word_count st))%nat. dlia.
Qed.

Lemma fill_bitmap_spec regions bend top :
  Forall region_ok regions → PAGE_SIZE ≤ top ≤ PHYS_ADDR_LIMIT → PAGE_SIZE ≤ V2P bend →
  let st := fill_bitmap regions bend (blank_pmm top) in
  pmm_wf st ∧ frame_count st = top / PAGE_SIZE ∧
  ∀ f, f ∈ free_frames st ↔ 0 ≤ f < top / PAGE_SIZE ∧
    usable_frame regions f ∧ ¬ reserved_frame regions f ∧ V2P bend ≤ f * PAGE_SIZE + (PAGE_SIZE - 1).
Proof.
  intros Hok Ht Hbend st. destruct (blank_pmm_spec top Ht) as (Hb0 & Hfc0 & Hwc0 & Hl0 & Hu0).
  destruct (free_regions_spec regions (blank_pmm top) Hok Hb0) as [Hs1 Hu1].
  set (s1 := foldl free_region _ _) in *. pose proof (bitmap_ok_shape _ _ Hb0 Hs1) as Hb1.
  destruct (reserve_regions_spec regions s1 Hok Hb1) as [Hs2 Hu2].
  set (s2 := foldl reserve_region _ _) in *. pose proof (bitmap_ok_shape _ _ Hb1 Hs2) as Hb2.
  set (s3 := set_usable_count s2 (count_free s2)).
  set (n := Z.min (Z.shiftr (V2P bend) PAGE_SHIFT) (frame_count s3)).
  destruct (mark_used_run s3 0 n) as [Hs4 Hu4]; [apply Hb2|lia|unfold n; destruct Hb2; simpl; lia|].
  set (s4 := for_range 0 n mark_used s3) in *.
  assert (st = set_hint (set_free_count s4 (count_free s4)) 0) as -> by done.
  pose proof (same_shape_trans _ _ _ Hs1 Hs2) as [E1 E2 _ _ _ E6 _].
  destruct Hs4 as [F1 F2 _ _ _ F6 F7]. cbn [frame_count word_count bitmap set_usable_count s3] in F1, F2, F6.
  assert (n = Z.min (Z.shiftr (V2P bend) PAGE_SHIFT) (frame_count s4)) as Hn0 by (rewrite F1; reflexivity).
  assert (frame_count s4 = top / PAGE_SIZE) as Hfc by congruence.
  assert (0 < top / PAGE_SIZE ≤ 2 ^ 20) as Hrange by (unfold PAGE_SIZE in *; dlia).
  assert (∀ f, 0 ≤ f < 32 * word_count s4 → is_used s4 f = true ↔
    f < n ∨ ¬ (f < top / PAGE_SIZE ∧ usable_frame regions f) ∨
    (f < top / PAGE_SIZE ∧ reserved_frame regions f)) as Hu.
  { intros f Hf. rewrite Hu4 by lia. change (is_used s3 f) with (is_used s2 f).
    rewrite orb_true_iff, bool_decide_eq_true, Hu2, Hu1, Hu0 by (rewrite ?F2, ?E2 in Hf; lia).
    destruct Hs1 as [Hs1 _ _ _ _ _ _]. rewrite Hs1, Hfc0. intuition lia. }
  assert (1 ≤ Z.shiftr (V2P bend) PAGE_SHIFT) as Hn1.
  { rewrite Z.shiftr_div_pow2 by done. change (2 ^ PAGE_SHIFT) with PAGE_SIZE.
    unfold PAGE_SIZE in *. dlia. }
  assert (frame_count s4 ≤ 32 * word_count s4) as Hcap.
  { rewrite Hfc, F2, E2, Hwc0, Hfc0. dlia. }
  clearbody s4 n. clear Hu0 Hu1 Hu2 Hu4 Hb0 Hb1 Hb2 Hs1 Hs2.
  split; [|split; [done|]].
  - constructor; cbn [frame_count word_count bitmap search_hint free_count set_hint set_free_count].
    + by rewrite Hfc.
    + rewrite Hfc, F2. congruence.
    + rewrite F6, F2, E6, E2. done.
    + done.
    + split; [done|]. pose proof (Zle_0_nat (length (bitmap s4))). lia.
    + intros f Hf. lia.
    + intros f Hf. apply Hu; [lia|]. right. left. rewrite <- Hfc. lia.
    + apply Hu; [lia|]. left. rewrite Hn0. lia.
    + change (free_frames _) with (free_frames s4). apply count_free_size. lia.
  - intros f. rewrite elem_free_frames. cbn [frame_count set_hint set_free_count].
    change (is_used (set_hint _ _) f) with (is_used s4 f). rewrite Hfc.
    assert (n ≤ f ↔ frame_count s4 ≤ f ∨ V2P bend ≤ f * PAGE_SIZE + (PAGE_SIZE - 1)) as Hn.
    { rewrite Hn0. rewrite Z.shiftr_div_pow2 by done.
      change (2 ^ PAGE_SHIFT) with PAGE_SIZE. unfold PAGE_SIZE. dlia. }
    split.
    + intros [Hf Hnu]. pose proof (Hu f ltac:(lia)) as Hu'. rewrite Hnu in Hu'.
      destruct (decide (usable_frame regions f)), (decide (reserved_frame regions f)),
        (decide (f < n)); split_and!; try (done || lia); exfalso;
        (enough (false = true) by done); apply Hu'; tauto.
    + intros (Hf & Hus & Hres & Hge). split; [done|].
      destruct (is_used s4 f) eqn:E; [|done]. apply Hu in E; [|lia].
      destruct E as [?|[?|?]]; [lia|tauto|tauto].
Qed.

(** What [pmm_usable_frames] reports: the frames that were free before the
    kernel and the bitmap took theirs. *)
Lemma fill_bitmap_counts regions bend top :
  Forall region_ok regions → PAGE_SIZE ≤ top ≤ PHYS_ADDR_LIMIT →
  let st := fill_bitmap regions bend (blank_pmm top) in
  search_hint st = 0 ∧
  ∃ U : gset Z, usable_count st = Z.of_nat (size U) ∧
    ∀ f, f ∈ U ↔ 0 ≤ f < top / PAGE_SIZE ∧ usable_frame regions f ∧ ¬ reserved_frame regions f.
Proof.
  intros Hok Ht st. split; [done|]. destruct (blank_pmm_spec top Ht) as (Hb0 & Hfc0 & Hwc0 & Hl0 & Hu0).
  destruct (free_regions_spec regions (blank_pmm top) Hok Hb0) as [Hs1 Hu1]. unfold st, fill_bitmap.
  set (s1 := foldl free_region _ _) in *. pose proof (bitmap_ok_shape _ _ Hb0 Hs1) as Hb1.
  destruct (reserve_regions_spec regions s1 Hok Hb1) as [Hs2 Hu2].
  set (s2 := foldl reserve_region _ _) in *. pose proof (bitmap_ok_shape _ _ Hb1 Hs2) as Hb2.
  set (s3 := set_usable_count s2 (count_free s2)).
  set (n := Z.min (Z.shiftr (V2P bend) PAGE_SHIFT) (frame_count s3)).
  destruct (mark_used_run s3 0 n) as [Hs4 _]; [apply Hb2|lia|unfold n; destruct Hb2; simpl; lia|].
  exists (free_frames s2). cbn [usable_count set_hint set_free_count]. rewrite (ss_usable _ _ Hs4). cbn [usable_count s3 set_usable_count].
  split; [apply count_free_size; destruct Hb2; lia|]. intros f. rewrite elem_free_frames.
  rewrite (ss_frames _ _ Hs2), (ss_frames _ _ Hs1), Hfc0.
  pose proof (ss_frames _ _ Hs1) as Ef. rewrite Hfc0 in Ef.
  enough (0 ≤ f < top / PAGE_SIZE → is_used s2 f = true ↔ ¬ usable_frame regions f ∨ reserved_frame regions f) as H.
  { destruct (decide (0 ≤ f < top / PAGE_SIZE)) as [Hf|]; [|tauto]. specialize (H Hf).
    destruct (is_used s2 f), (decide (usable_frame regions f)), (decide (reserved_frame regions f)); intuition congruence. }
  intros Hf. rewrite Hu2, Hu1, Ef, Hfc0, (Hu0 f) by (rewrite ?Hwc0, ?Hfc0; dlia).
  destruct (decide (usable_frame regions f)); intuition lia.
Qed.

(** ** Theorems *)

(** C33: [pmm_init] terminates: with one pass more than there are regions it
    finds a place for the bitmap at or after the kernel image that no
    reserved region overlaps; it panics only when that place is beyond the
    boot mapping, and otherwise leaves a state that satisfies the invariant
    and in which exactly the frames inside usable regions, outside every
    reserved region and above the bitmap are free; [free_count] is their
    number, [usable_count] the number of the frames inside usable regions and
    outside reserved ones, and the search starts at the first word. The memory
    map has usable memory that ends above the first page, its 64-bit ranges do not
    wrap, and every reserved one ends by 1008 MiB or starts at 1016 MiB or
    later ([region_ok]). *)
Theorem pmm_init_correct regions kernel_end :
  Forall region_ok regions →
  KERNEL_VIRT_BASE < kernel_end ≤ KERNEL_VIRT_BASE + BOOT_MAPPED_PHYS_LIMIT →
  PAGE_SIZE ≤ top_of regions →
  ∃ start bend,
    kernel_end ≤ start ∧ start + word_count (blank_pmm (top_of regions)) * 4 ≤ bend ∧
    (∀ r, r ∈ regions → ¬ overlaps bend start r) ∧
    match pmm_init (S (length regions)) regions kernel_end with
    | Ok st =>
        V2P bend ≤ BOOT_MAPPED_PHYS_LIMIT ∧ pmm_wf st ∧
        (∀ f, f ∈ free_frames st ↔ 0 ≤ f < top_of regions / PAGE_SIZE ∧
          usable_frame regions f ∧ ¬ reserved_frame regions f ∧
          V2P bend ≤ f * PAGE_SIZE + (PAGE_SIZE - 1)) ∧
        free_count st = Z.of_nat (size (free_frames st)) ∧ search_hint st = 0 ∧
        ∃ U : gset Z, pmm_usable_frames st = Z.of_nat (size U) ∧
          ∀ f, f ∈ U ↔ 0 ≤ f < top_of regions / PAGE_SIZE ∧ usable_frame regions f ∧ ¬ reserved_frame regions f
    | Panic _ => BOOT_MAPPED_PHYS_LIMIT < V2P bend
    | NoFuel => False
    end.
Proof.
  intros Hok Hk Htop. pose proof (top_of_range regions) as Htr.
  destruct (blank_pmm_spec (top_of regions)) as (_ & Hfc & Hwc & Hl & _); [lia|].
  set (st0 := blank_pmm _) in *. set (bytes := word_count st0 * 4).
  assert (0 < bytes ≤ 0x200000) as Hbytes.
  { unfold bytes. rewrite Hwc, Hfc. unfold PAGE_SIZE in *. dlia. }
  unfold window_top, KERNEL_VIRT_BASE in *.
  destruct (place_bitmap_spec regions bytes (S (length regions)) kernel_end) as (start & Hp & Hs & Hno).
  { done. } { lia. } { unfold window_top, KERNEL_VIRT_BASE. lia. }
  { unfold above. pose proof (length_filter (λ r, V2P kernel_end < region_end r) regions). lia. }
  destruct (bitmap_end_window start bytes) as [Hw1 Hw2];
    [unfold window_top, KERNEL_VIRT_BASE in *; lia|lia|].
  exists start, (bitmap_end_of start bytes). split; [lia|]. split; [lia|]. split; [done|].
  unfold pmm_init. rewrite (proj2 (Z.eqb_neq _ _)) by (unfold PAGE_SIZE in *; lia).
  fold st0. replace (u32 (word_count st0 * 4)) with bytes by (symmetry; apply u32_small; unfold bytes in *; lia).
  rewrite Hp. case_if; [done|]. split; [done|].
  destruct (fill_bitmap_counts regions (bitmap_end_of start bytes) (top_of regions)) as [Hh HU]; [done|lia|].
  destruct (fill_bitmap_spec regions (bitmap_end_of start bytes) (top_of regions)) as (Hwf & Hf & Hfree);
    [done|lia| |split_and!; try done; apply Hwf].
  revert Hw2. unfold bitmap_end_of. unfold window_top, KERNEL_VIRT_BASE in *.
  rewrite page_round_up by (unfold PAGE_SIZE; lia). intros Hw2.
  rewrite V2P_window by (unfold KERNEL_VIRT_BASE; lia). unfold KERNEL_VIRT_BASE, PAGE_SIZE. dlia.
Qed.

(** A 2 MiB machine with the usual hole below 1 MiB. *)
Definition example_regions : list mem_region :=
  [Region 0 0x9FC00 true; Region 0x9FC00 0x60400 false; Region 0x100000 0x100000 true].

Lemma example_regions_ok : Forall region_ok example_regions.
Proof. repeat constructor; vm_compute; intuition (congruence || lia). Qed.

Lemma pmm_init_correct_witness :
  ∃ start bend, 0xC0120000 ≤ start ∧ start + word_count (blank_pmm (top_of example_regions)) * 4 ≤ bend ∧
    match pmm_init 4 example_regions 0xC0120000 with Ok st => free_count st = Z.of_nat (size (free_frames st)) | _ => False end.
Proof.
  destruct (pmm_init_correct example_regions 0xC0120000) as (start & bend & H1 & H2 & _ & H3).
  - exact example_regions_ok.
  - vm_compute. split; [reflexivity|discriminate].
  - vm_compute. discriminate.
  - exists start, bend. split; [exact H1|]. split; [exact H2|]. change (S (length example_regions)) with 4%nat in H3.
    destruct (pmm_init 4 example_regions 0xC0120000) as [st| |] eqn:E; [apply H3|discriminate (f_equal (λ o, match o with Ok _ => true | _ => false end) E)|done].
Defined.

(** [pmm_alloc_frame] implements the set specification: it keeps the
    invariant, returns 0 exactly when no frame is free, and otherwise takes
    the lowest free frame, never frame 0, out of the free set. *)
Theorem pmm_alloc_frame_refines st :
  pmm_wf st →
  pmm_wf (pmm_alloc_frame st).2 ∧
  spec_alloc (free_frames st) (pmm_alloc_frame st).1 (free_frames (pmm_alloc_frame st).2).
Proof. apply alloc_frame_step. Qed.

(** The state [pmm_init] leaves on the 2 MiB machine. *)
Definition example_pmm : pmm :=
  match pmm_init 4 example_regions 0xC0120000 with
  | Ok st => st
  | _ => blank_pmm 0
  end.

Lemma example_pmm_wf : pmm_wf example_pmm.
Proof.
  destruct (fill_bitmap_spec example_regions 0xC0121000 0x200000) as [H _].
  - apply example_regions_ok.
  - vm_compute. split; discriminate.
  - vm_compute. discriminate.
  - replace example_pmm with (fill_bitmap example_regions 0xC0121000 (blank_pmm 0x200000))
      by (vm_compute; reflexivity). exact H.
Qed.

Lemma pmm_alloc_frame_refines_witness :
  pmm_alloc_frame example_pmm = (0x121000, (pmm_alloc_frame example_pmm).2) ∧
  pmm_wf (pmm_alloc_frame example_pmm).2.
Proof.
  split; [vm_compute; reflexivity|].
  exact (proj1 (pmm_alloc_frame_refines example_pmm example_pmm_wf)).
Defined.

Definition frame_limit (st : pmm) (limit : Z) : Z := Z.min (limit / PAGE_SIZE) (frame_count st).

(** The run of frames a contiguous allocation takes. *)
Definition run_frames (s n : Z) : gset Z := list_to_set (seqZ s n).

Lemma contiguous_step st frames limit boundary k fuel :
  pmm_wf st → 0 < frames < 2 ^ 32 → 0 ≤ limit < 2 ^ 32 →
  boundary = k * PAGE_SIZE → 0 ≤ k < 2 ^ 20 → frame_count st < Z.of_nat fuel →
  let fit := fits st frames (frame_limit st limit) boundary in
  (pmm_alloc_contiguous fuel st frames limit boundary = Some (0, st) ∧ ∀ s, ¬ fit s) ∨
  ∃ s st', pmm_alloc_contiguous fuel st frames limit boundary = Some (s * PAGE_SIZE, st') ∧
    fit s ∧ (∀ s', fit s' → s ≤ s') ∧ 0 < s * PAGE_SIZE < 2 ^ 32 ∧ pmm_wf st' ∧
    free_frames st' = free_frames st ∖ run_frames s frames ∧ run_frames s frames ⊆ free_frames st.
Proof.
  intros Hwf Hfr Hlim Hb Hk Hfuel fit. unfold pmm_alloc_contiguous.
  rewrite (proj2 (Z.eqb_neq frames 0)) by lia.
  rewrite (Z.shiftr_div_pow2 limit PAGE_SHIFT) by done. change (2 ^ PAGE_SHIFT) with PAGE_SIZE.
  replace (if _ <? _ then _ else _) with (frame_limit st limit)
    by (unfold frame_limit; case_if; lia).
  pose proof (wf_frames st Hwf) as Hfc.
  assert (0 ≤ frame_limit st limit ≤ frame_count st) as Hl
    by (unfold frame_limit, PAGE_SIZE; dlia).
  destruct (decide (frames ≤ frame_limit st limit)) as [Hle|Hgt].
  2: { left. destruct fuel as [|fuel]; [lia|]. split.
       - simpl. rewrite u32_small by lia. by rewrite (proj2 (Z.leb_gt _ _)) by lia.
       - intros s (? & ? & _). lia. }
  destruct (contiguous_loop_spec st Hwf frames (frame_limit st limit) boundary ltac:(lia) ltac:(lia)
    k Hb Hk fuel 0) as [[-> Hno]|(s & Hfit & Hmin & ->)]; [lia|lia|intros s; lia|by left|].
  right. exists s. pose proof Hfit as (H1 & H2 & H3 & _).
  assert (∀ f, s ≤ f < s + frames → f ∈ free_frames st) as Hin.
  { intros f Hf. apply elem_free_frames. split; [lia|]. by apply H3. }
  destruct (wf_mark_run st s frames Hwf) as [Hwf' Hset]; [lia|done|].
  eexists. split; [reflexivity|]. split; [done|]. split; [done|].
  assert (0 < s < 2 ^ 20) as Hs by (apply (free_frame_positive st); [done|apply Hin; lia]).
  split; [unfold PAGE_SIZE; lia|]. split; [done|]. split; [done|].
  intros f. unfold run_frames. rewrite elem_of_list_to_set, elem_of_seqZ. apply Hin.
Qed.

(** [pmm_alloc_contiguous] terminates and is first fit: with a boundary
    that is 0 or a multiple of the page size, a loop of at most
    [frame_count + 1] turns either finds no run and changes nothing, and then
    no run of [frames] free frames below the limit and inside one boundary
    window exists, or takes the lowest such run. *)
Theorem pmm_alloc_contiguous_first_fit st frames limit boundary k fuel :
  pmm_wf st → 0 < frames < 2 ^ 32 → 0 ≤ limit < 2 ^ 32 →
  boundary = k * PAGE_SIZE → 0 ≤ k < 2 ^ 20 → frame_count st < Z.of_nat fuel →
  let fit := fits st frames (frame_limit st limit) boundary in
  (pmm_alloc_contiguous fuel st frames limit boundary = Some (0, st) ∧ ∀ s, ¬ fit s) ∨
  ∃ s st', pmm_alloc_contiguous fuel st frames limit boundary = Some (s * PAGE_SIZE, st') ∧
    fit s ∧ (∀ s', fit s' → s ≤ s') ∧ 0 < s * PAGE_SIZE < 2 ^ 32 ∧ pmm_wf st' ∧
    free_frames st' = free_frames st ∖ run_frames s frames ∧ run_frames s frames ⊆ free_frames st.
Proof. apply contiguous_step. Qed.

Lemma pmm_alloc_contiguous_first_fit_witness :
  ∃ r st', pmm_alloc_contiguous 1000 example_pmm 16 0x1000000 0x10000 = Some (r, st') ∧ pmm_wf st'.
Proof.
  destruct (pmm_alloc_contiguous_first_fit example_pmm 16 0x1000000 0x10000 16 1000)
    as [[H _]|(s & st' & H1 & _ & _ & _ & H2 & _)].
  - exact example_pmm_wf.
  - lia.
  - lia.
  - reflexivity.
  - lia.
  - vm_compute. reflexivity.
  - exists 0, example_pmm. split; [exact H|exact example_pmm_wf].
  - exists (s * PAGE_SIZE), st'. split; assumption.
Defined.

Lemma page_aligned x : truth (Z.land x (PAGE_SIZE - 1)) = negb (x mod PAGE_SIZE =? 0).
Proof. unfold truth. change (PAGE_SIZE - 1) with (2 ^ 12 - 1). by rewrite land_ones_mod. Qed.

Lemma wf_free_frame st f :
  pmm_wf st → 0 < f < frame_count st → is_used st f = true →
  ∃ st', pmm_free_frame st (f * PAGE_SIZE) = Ok st' ∧ pmm_wf st' ∧
    free_frames st' = {[f]} ∪ free_frames st.
Proof.
  intros Hwf Hf Hu. unfold pmm_free_frame.
  assert (Z.shiftr (f * PAGE_SIZE) PAGE_SHIFT = f) as ->.
  { rewrite Z.shiftr_div_pow2 by done. change (2 ^ PAGE_SHIFT) with PAGE_SIZE.
    by apply Z.div_mul. }
  rewrite page_aligned, Z.mod_mul by done. cbn [negb Z.eqb].
  rewrite Z.geb_leb, (proj2 (Z.leb_gt _ _)) by lia. rewrite Hu. cbn [negb].
  eexists. split; [reflexivity|].
  pose proof Hwf as [Hfc Hwc Hl Hr Hh Hfull Htail Hz Hcnt].
  assert (f < 32 * Z.of_nat (length (bitmap st))) as Hlen by (rewrite Hl, Hwc; dlia).
  assert (f ∉ free_frames st) as Hnin by (rewrite elem_free_frames; intros [_ ?]; congruence).
  assert (free_frames (mark_free f st) = {[f]} ∪ free_frames st) as Hset
    by (apply free_frames_mark_free; lia).
  set (h := if f / BITS_PER_WORD <? search_hint st then f / BITS_PER_WORD else search_hint st).
  replace (if _ <? _ then _ else _) with
    (set_hint (set_free_count (mark_free f st) (u32 (free_count st + 1))) h)
    by (unfold h; simpl; case_if; done).
  assert (0 ≤ h ≤ search_hint st ∧ 32 * h ≤ f + 0 * h ∨ h = search_hint st ∧ search_hint st ≤ f / 32) as Hh'
    by (unfold h; case_if; dlia).
  split; [|exact Hset].
  constructor; cbn [frame_count word_count bitmap search_hint free_count set_hint set_free_count mark_free set_bitmap].
  - done.
  - done.
  - by rewrite length_aset.
  - apply (mark_free_range st); [done|lia].
  - lia.
  - intros g Hg. change (is_used _ g) with (is_used (mark_free f st) g).
    rewrite is_used_mark_free by lia. rewrite Hfull by lia.
    rewrite bool_decide_false; [done|]. dlia.
  - intros g Hg. change (is_used _ g) with (is_used (mark_free f st) g).
    rewrite is_used_mark_free by lia. rewrite Htail by lia. by rewrite bool_decide_false by lia.
  - change (is_used _ 0) with (is_used (mark_free f st) 0).
    rewrite is_used_mark_free by lia. by rewrite Hz, bool_decide_false by lia.
  - transitivity (Z.of_nat (size ({[f]} ∪ free_frames st))); [|by rewrite <- Hset].
    rewrite size_union by by apply disjoint_singleton_l. rewrite size_singleton. rewrite u32_small; [lia|].
    pose proof (subseteq_size (free_frames st) (list_to_set (seqZ 0 (frame_count st)))) as Hsz.
    rewrite size_list_to_set, length_seqZ in Hsz by apply NoDup_seqZ.
    enough (size (free_frames st) ≤ Z.to_nat (frame_count st))%nat by lia. apply Hsz.
    intros g. rewrite elem_free_frames, elem_of_list_to_set, elem_of_seqZ. lia.
Qed.

(** [pmm_free_frame] panics exactly on a misaligned, out-of-range or
    already free frame; otherwise (frame 0 apart, which is never handed out)
    it keeps the invariant and adds exactly that frame to the free set. *)
Theorem pmm_free_frame_spec st phys :
  pmm_wf st → 0 < phys < 2 ^ 32 →
  match pmm_free_frame st phys with
  | Panic _ => phys mod PAGE_SIZE ≠ 0 ∨ frame_count st ≤ phys / PAGE_SIZE ∨
               phys / PAGE_SIZE ∈ free_frames st
  | Ok st' => phys mod PAGE_SIZE = 0 ∧ phys / PAGE_SIZE < frame_count st ∧
              (phys / PAGE_SIZE ∉ free_frames st) ∧ pmm_wf st' ∧
              free_frames st' = {[phys / PAGE_SIZE]} ∪ free_frames st
  | NoFuel => False
  end.
Proof.
  intros Hwf Hp. set (f := phys / PAGE_SIZE).
  assert (Z.shiftr phys PAGE_SHIFT = f) as Hsh
    by by rewrite Z.shiftr_div_pow2.
  destruct (decide (phys mod PAGE_SIZE = 0)) as [Hal|Hal].
  2: { unfold pmm_free_frame. rewrite page_aligned, (proj2 (Z.eqb_neq _ _) Hal). by left. }
  assert (phys = f * PAGE_SIZE) as Hpf by (unfold f, PAGE_SIZE in *; dlia).
  assert (0 < f) as Hf0 by (unfold PAGE_SIZE in *; lia).
  destruct (decide (f < frame_count st)) as [Hlt|Hge].
  2: { unfold pmm_free_frame. rewrite Hsh, page_aligned, Hal. cbn [negb Z.eqb].
       rewrite Z.geb_leb, (proj2 (Z.leb_le _ _)) by lia. right. left. lia. }
  destruct (is_used st f) eqn:Hu.
  - destruct (wf_free_frame st f Hwf) as (st' & Hst' & Hwf' & Hset); [lia|done|].
    rewrite <- Hpf in Hst'. rewrite Hst'. split_and!; try done.
    rewrite elem_free_frames. intros [_ ?]. congruence.
  - unfold pmm_free_frame. rewrite Hsh, page_aligned, Hal. cbn [negb Z.eqb].
    rewrite Z.geb_leb, (proj2 (Z.leb_gt _ _)) by lia. rewrite Hu. simpl.
    right. right. apply elem_free_frames. split; [lia|done].
Qed.

Lemma pmm_free_frame_spec_witness :
  match pmm_free_frame example_pmm 0x120000 with Ok st' => pmm_wf st' | _ => False end.
Proof.
  generalize (pmm_free_frame_spec example_pmm 0x120000 example_pmm_wf ltac:(lia)).
  destruct (pmm_free_frame example_pmm 0x120000) eqn:E.
  - intros H. exact (proj1 (proj2 (proj2 (proj2 H)))).
  - vm_compute in E. discriminate.
  - done.
Defined.

(** ** Every frame is accounted for

    The allocator together with the set [own] of the frames its clients
    hold; a client frees only frames it holds. *)
Inductive pmm_step : pmm * gset Z → pmm * gset Z → Prop :=
| step_alloc st own r st' :
    pmm_alloc_frame st = (r, st') →
    pmm_step (st, own) (st', if r =? 0 then own else {[r / PAGE_SIZE]} ∪ own)
| step_contiguous st own frames limit boundary k fuel r st' :
    0 < frames < 2 ^ 32 → 0 ≤ limit < 2 ^ 32 → boundary = k * PAGE_SIZE → 0 ≤ k < 2 ^ 20 →
    frame_count st < Z.of_nat fuel →
    pmm_alloc_contiguous fuel st frames limit boundary = Some (r, st') →
    pmm_step (st, own) (st', if r =? 0 then own else run_frames (r / PAGE_SIZE) frames ∪ own)
| step_free st own f st' :
    f ∈ own → pmm_free_frame st (f * PAGE_SIZE) = Ok st' →
    pmm_step (st, own) (st', own ∖ {[f]}).

(** What holds of every reachable allocator: [all] is the set of frames
    that were free at boot, [n] the number of frames of the machine. *)
Definition accounted (n : Z) (all : gset Z) (s : pmm * gset Z) : Prop :=
  pmm_wf s.1 ∧ frame_count s.1 = n ∧ s.2 ## free_frames s.1 ∧ s.2 ∪ free_frames s.1 = all.

Lemma marks_frame_count st lo hi : frame_count (for_range lo hi mark_used st) = frame_count st.
Proof.
  unfold for_range. generalize (seqZ lo (hi - lo)); intros l; revert st.
  induction l as [|f l IH]; intros st; [done|]. cbn [foldl]. by rewrite IH.
Qed.

Lemma contiguous_loop_frame_count fuel st frames last b start r st' :
  contiguous_loop fuel st frames last b start = Some (r, st') → frame_count st' = frame_count st.
Proof.
  revert start. induction fuel as [|fuel IH]; intros start; [done|]. cbn [contiguous_loop].
  case_if; [by intros [= _ <-]|]. case_if; [apply IH|]. case_if; [|apply IH].
  intros [= _ <-]. apply marks_frame_count.
Qed.

Lemma contiguous_frame_count fuel st frames limit b r st' :
  pmm_alloc_contiguous fuel st frames limit b = Some (r, st') → frame_count st' = frame_count st.
Proof.
  unfold pmm_alloc_contiguous. destruct (frames =? 0); [by intros [= _ <-]|].
  apply contiguous_loop_frame_count.
Qed.

Lemma alloc_frame_count st : frame_count (pmm_alloc_frame st).2 = frame_count st.
Proof. unfold pmm_alloc_frame. by case_if. Qed.

Lemma free_frame_count st p st' : pmm_free_frame st p = Ok st' → frame_count st' = frame_count st.
Proof. unfold pmm_free_frame. repeat case_if; intros [=]; subst; reflexivity. Qed.

Lemma accounted_own n all st own f :
  accounted n all (st, own) → f ∈ own → (∀ g, g ∈ all → 0 < g < n) →
  0 < f < frame_count st ∧ is_used st f = true.
Proof.
  intros (Hwf & <- & Hdis & Hall) Hf Hpos. simpl in *.
  assert (0 < f < frame_count st) as Hr by (apply Hpos; rewrite <- Hall; by apply elem_of_union_l).
  split; [done|]. destruct (is_used st f) eqn:E; [done|].
  exfalso. apply (Hdis f Hf). apply elem_free_frames. split; [lia|done].
Qed.

Lemma union_take (own free taken : gset Z) :
  own ## free → taken ⊆ free →
  taken ∪ own ## free ∖ taken ∧ taken ∪ own ∪ free ∖ taken = own ∪ free.
Proof.
  intros H1 H2. split; [set_solver|]. apply set_eq. intros f.
  rewrite !elem_of_union, elem_of_difference. destruct (decide (f ∈ taken)); set_solver.
Qed.

Lemma union_give (own free : gset Z) f :
  own ## free → f ∈ own →
  own ∖ {[f]} ## {[f]} ∪ free ∧ own ∖ {[f]} ∪ ({[f]} ∪ free) = own ∪ free.
Proof.
  intros H1 H2. split; [set_solver|]. apply set_eq. intros g.
  rewrite !elem_of_union, elem_of_difference, elem_of_singleton.
  destruct (decide (g = f)) as [->|]; set_solver.
Qed.

Lemma accounted_take n all st own taken st' :
  accounted n all (st, own) → pmm_wf st' → frame_count st' = frame_count st →
  taken ⊆ free_frames st → free_frames st' = free_frames st ∖ taken →
  accounted n all (st', taken ∪ own).
Proof.
  intros (Hwf & Hn & Hdis & Hall) Hwf' Hfc Hsub Hset. unfold accounted. simpl in *.
  rewrite Hset, Hfc, <- Hall. destruct (union_take _ _ _ Hdis Hsub). done.
Qed.

Lemma accounted_step n all s s' :
  (∀ g, g ∈ all → 0 < g < n) → accounted n all s → pmm_step s s' → accounted n all s'.
Proof.
  intros Hpos Hacc Hstep.
  destruct Hstep as [st own r st' H|st own fr l b k fuel r st' H1 H2 H3 H4 H5 H|st own f st' Hf H];
    pose proof Hacc as (Hwf & Hn & Hdis & Hall); simpl in Hwf, Hn, Hdis, Hall.
  - destruct (alloc_frame_step st Hwf) as [Hwf' Hspec]. pose proof (alloc_frame_count st) as Hfc.
    rewrite H in Hwf', Hspec, Hfc. simpl in *.
    destruct Hspec as [(He & -> & Hs)|(m & Hm & _ & -> & Hr & Hs)].
    + simpl. unfold accounted. simpl. rewrite Hs, Hfc. done.
    + rewrite (proj2 (Z.eqb_neq _ _)) by lia. rewrite Z.div_mul by done.
      apply (accounted_take _ _ st); try done. by apply singleton_subseteq_l.
  - pose proof (contiguous_frame_count _ _ _ _ _ _ _ H) as Hfc.
    destruct (contiguous_step st fr l b k fuel Hwf H1 H2 H3 H4 H5)
      as [[E _]|(s & st2 & E & _ & _ & Hr & Hwf' & Hset & Hsub)]; rewrite E in H; simplify_eq.
    + done.
    + rewrite (proj2 (Z.eqb_neq _ _)) by lia. rewrite Z.div_mul by done.
      by apply (accounted_take _ _ st).
  - destruct (accounted_own _ _ _ _ _ Hacc Hf Hpos) as [Hr Hu].
    destruct (wf_free_frame st f Hwf Hr Hu) as (st2 & E & Hwf' & Hset).
    pose proof (free_frame_count _ _ _ H). rewrite E in H. simplify_eq.
    unfold accounted. simpl. rewrite Hset.
    destruct (union_give _ _ _ Hdis Hf). split_and!; [done|congruence|done|done].
Qed.

(** C1: in every run of the allocator (any interleaving of single-frame and
    contiguous allocations and of frees of held frames, from a state with
    free frames [all] and nothing held) no frame is handed out twice, no
    frame is lost, and freeing a held frame never panics. *)
Theorem pmm_conserves_frames st0 st own :
  pmm_wf st0 → rtc pmm_step (st0, ∅) (st, own) →
  pmm_wf st ∧ own ## free_frames st ∧ own ∪ free_frames st = free_frames st0 ∧
  ∀ f, f ∈ own → ∃ st', pmm_free_frame st (f * PAGE_SIZE) = Ok st'.
Proof.
  intros Hwf Hsteps.
  assert (∀ g, g ∈ free_frames st0 → 0 < g < frame_count st0) as Hpos.
  { intros g Hg. pose proof (free_frame_positive _ _ Hwf Hg).
    apply elem_free_frames in Hg. lia. }
  assert (accounted (frame_count st0) (free_frames st0) (st, own)) as Hacc.
  { apply (rtc_ind_r (R := pmm_step) (λ s, accounted (frame_count st0) (free_frames st0) s) (st0, ∅));
      [|intros s s' _ Hs IH; by eapply accounted_step|done].
    unfold accounted. simpl. by rewrite (left_id_L ∅ (∪)). }
  pose proof Hacc as (? & ? & ? & ?). split_and!; try done.
  intros f Hf. destruct (accounted_own _ _ _ _ _ Hacc Hf Hpos) as [Hr Hu].
  destruct (wf_free_frame st f) as (st' & ? & _); eauto.
Qed.

Lemma pmm_conserves_frames_witness :
  ∃ st, rtc pmm_step (example_pmm, ∅) (st, {[0x121]} ∪ ∅) ∧ pmm_wf st ∧
    ∃ st', pmm_free_frame st (0x121 * PAGE_SIZE) = Ok st'.
Proof.
  exists (pmm_alloc_frame example_pmm).2.
  assert (rtc pmm_step (example_pmm, ∅) ((pmm_alloc_frame example_pmm).2, {[0x121]} ∪ ∅)) as H.
  { apply rtc_once.
    assert (pmm_alloc_frame example_pmm = (0x121000, (pmm_alloc_frame example_pmm).2)) as E
      by (vm_compute; reflexivity).
    exact (step_alloc example_pmm ∅ 0x121000 _ E). }
  destruct (pmm_conserves_frames _ _ _ example_pmm_wf H) as (H1 & _ & _ & H2).
  split; [exact H|]. split; [exact H1|]. apply H2. set_solver.
Defined.

(** a DMA buffer for ISA lies below 16 MiB and does not cross a 64 KiB
    line, and its frames were free. *)
Theorem dma_alloc_isa_safe st bytes fuel va phys st' :
  pmm_wf st → 0 ≤ bytes ≤ ISA_BOUNDARY → frame_count st < Z.of_nat fuel →
  dma_alloc fuel st bytes true = Some (va, phys, st') → va ≠ 0 →
  phys mod PAGE_SIZE = 0 ∧ phys + bytes ≤ DMA_LIMIT ∧ va = P2V phys ∧
  (0 < bytes → phys / ISA_BOUNDARY = (phys + bytes - 1) / ISA_BOUNDARY) ∧
  run_frames (phys / PAGE_SIZE) ((bytes + PAGE_SIZE - 1) / PAGE_SIZE) ⊆ free_frames st ∧ pmm_wf st'.
Proof.
  intros Hwf Hb Hfuel H Hva. unfold dma_alloc in H.
  rewrite (u32_small (bytes + PAGE_SIZE - 1)) in H by (unfold PAGE_SIZE; lia).
  set (frames := (bytes + PAGE_SIZE - 1) / PAGE_SIZE) in *.
  destruct (_ || _) eqn:E1; [simplify_eq|]. zbool.
  assert (0 < frames ≤ 16 ∧ bytes ≤ frames * PAGE_SIZE) as [Hfr Hfb] by (unfold frames, PAGE_SIZE in *; dlia).
  destruct (contiguous_step st frames DMA_LIMIT ISA_BOUNDARY 16 fuel)
    as [[E _]|(s & st2 & E & (Hs1 & Hs2 & _ & Hs3) & _ & Hr & Hwf' & _ & Hsub)]; try done; try lia.
  { rewrite E in H. simplify_eq/=. }
  rewrite E in H. rewrite (proj2 (Z.eqb_neq _ _)) in H by lia. simplify_eq.
  assert (s + frames ≤ DMA_LIMIT / PAGE_SIZE) as Hlim by (unfold frame_limit in Hs2; lia).
  change (DMA_LIMIT / PAGE_SIZE) with 4096 in Hlim. 
  rewrite Z.div_mul by done. split_and!; try done.
  - by rewrite Z.mod_mul.
  - unfold PAGE_SIZE in *. lia.
  - intros Hpos. destruct Hs3 as [?|Hs3]; [done|]. unfold PAGE_SIZE in *. dlia.
Qed.

Lemma dma_alloc_isa_safe_witness :
  ∃ st', dma_alloc 1000 example_pmm 0x10000 true = Some (0xC0130000, 0x130000, st') ∧
    0x130000 + 0x10000 ≤ DMA_LIMIT.
Proof.
  eexists. split; [vm_compute; reflexivity|].
  refine (proj1 (proj2 (dma_alloc_isa_safe example_pmm 0x10000 1000 0xC0130000 0x130000 _
    example_pmm_wf _ _ _ _))).
  - split; discriminate.
  - vm_compute. reflexivity.
  - vm_compute. reflexivity.
  - discriminate.
Defined.
