(* ===== verification/FrameMapper.v ===== *)
(** * Frames and mappings as the kernel's memory managers see them

    [heap.c], [kpage.c] and [kstack.c] take frames from the frame allocator
    and map them with the paging code. [FrameMapper] is the set of calls they
    make and [FrameMapperLaws] what they rely on; their theorems are proved
    against the laws, which the model of [paging.c] over [pmm.c] discharges
    ([Paging.v]). *)
From S2P Require Import Prelude Pmm.
Local Open Scope Z_scope.

Abbreviation KERNEL_PT_AREA_START := 0xFF800000%Z (only parsing).
Abbreviation VMM_WRITABLE := 1%Z (only parsing).

Class FrameMapper (E : Type) := {
  fm_alloc_frame : E → Z * E;
  fm_map_page : E → Z → Z → Z → outcome (Z * E);
  (* the frame that was mapped, or [None] for the return value -1 *)
  fm_unmap_page : E → Z → outcome (option Z * E);
  fm_free_frame : E → Z → outcome E
}.

(** A page the kernel may map: above user space, below the page tables. *)
Definition kernel_page (va : Z) : Prop :=
  va mod PAGE_SIZE = 0 ∧ KERNEL_VIRT_BASE ≤ va < KERNEL_PT_AREA_START.

(** [owns e F M]: the memory managers hold the frames [F], which nobody else
    has, and have mapped the kernel pages [M]. *)
Class FrameMapperLaws (E : Type) `{FrameMapper E} := {
  owns : E → gset Z → gmap Z Z → Prop;
  alloc_law e F M : owns e F M → ∃ f e', fm_alloc_frame e = (f, e') ∧
    (f = 0 ∧ owns e' F M ∨ f ≠ 0 ∧ (f ∉ F) ∧ owns e' ({[f]} ∪ F) M);
  map_law e F M va f : owns e F M → f ∈ F → kernel_page va → M !! va = None →
    ∃ rc e', fm_map_page e va f VMM_WRITABLE = Ok (rc, e') ∧
      (rc = 0 ∧ owns e' (F ∖ {[f]}) (<[va := f]> M) ∨ rc ≠ 0 ∧ owns e' F M);
  unmap_law e F M va f : owns e F M → M !! va = Some f →
    ∃ e', fm_unmap_page e va = Ok (Some f, e') ∧ (f ∉ F) ∧ owns e' ({[f]} ∪ F) (delete va M);
  free_law e F M f : owns e F M → f ∈ F →
    ∃ e', fm_free_frame e f = Ok e' ∧ owns e' (F ∖ {[f]}) M
}.
