(* ===== verification/Heap.v ===== *)
(** * The kernel heap ([zkt/mm/heap.c])

    A heap of blocks that tile the mapped part of the heap region. Memory is
    the region's 16-byte cells, each seen as the [struct block] that may
    stand there: headers are 16-byte aligned, so two of them never share a
    cell. The allocator obtains pages through the [FrameMapper] interface.

    The specification is a finite map from the addresses [kmalloc] returned
    and [kfree] has not seen to the sizes of their payloads ([live]).
    [kmalloc] and [kfree] implement insertion and deletion in that map; the
    invariant also gives the tiling [heap.c] promises: blocks in address
    order without gaps, no two free blocks next to each other. *)
From S2P Require Import Prelude Pmm FrameMapper.
Local Open Scope Z_scope.

Abbreviation KERNEL_HEAP_START := 0xD0000000%Z (only parsing).
Abbreviation KERNEL_HEAP_MAX_SIZE := 0x10000000%Z (only parsing).
Abbreviation HEAP_ALIGN := 16%Z (only parsing).
Abbreviation MAGIC_USED := 0x5A4B5455%Z (only parsing).
Abbreviation MAGIC_FREE := 0x5A4B5446%Z (only parsing).

Record block := Block { magic : Z; size : Z; next : Z; reserved : Z }.

(** [sizeof(struct block)] *)
Definition BLOCK_SIZE : Z := 16.

(** A page of the heap region. *)
Definition heap_page (va : Z) : Prop :=
  va mod PAGE_SIZE = 0 ∧ KERNEL_HEAP_START ≤ va < KERNEL_HEAP_START + KERNEL_HEAP_MAX_SIZE.

Lemma heap_page_kernel va : heap_page va → kernel_page va.
Proof.
  unfold heap_page, kernel_page, KERNEL_VIRT_BASE. intros [? ?]. split; [done|lia].
Qed.

Section heap.
Context {E : Type} `{FrameMapper E}.

Record heap := Heap {
  cells : Z → block;
  heap_head : Z;
  heap_end : Z;
  used_bytes : Z;
  env : E
}.

Definition set_cell (st : heap) (a : Z) (b : block) : heap :=
  Heap (λ x, if x =? a then b else cells st x)
    (heap_head st) (heap_end st) (used_bytes st) (env st).
Definition set_magic (st : heap) (a m : Z) : heap :=
  let b := cells st a in set_cell st a (Block m (size b) (next b) (reserved b)).
Definition set_size (st : heap) (a s : Z) : heap :=
  let b := cells st a in set_cell st a (Block (magic b) s (next b) (reserved b)).
Definition set_next (st : heap) (a n : Z) : heap :=
  let b := cells st a in set_cell st a (Block (magic b) (size b) n (reserved b)).
Definition set_head (st : heap) (h : Z) : heap :=
  Heap (cells st) h (heap_end st) (used_bytes st) (env st).
Definition set_end (st : heap) (e : Z) : heap :=
  Heap (cells st) (heap_head st) e (used_bytes st) (env st).
Definition set_used (st : heap) (u : Z) : heap :=
  Heap (cells st) (heap_head st) (heap_end st) u (env st).
Definition set_env (st : heap) (e : E) : heap :=
  Heap (cells st) (heap_head st) (heap_end st) (used_bytes st) e.

Definition heap_init (st : heap) : heap := set_end (set_head st 0) KERNEL_HEAP_START.

(** ** [heap_grow] *)

(** [while (off)]: unmaps and frees the [n] pages mapped so far, last first.
    [phys] is indeterminate when a page is not mapped. *)
Fixpoint unmap_pages (n : nat) (e : E) (hend : Z) : outcome E :=
  match n with
  | O => Ok e
  | S n =>
      fm_unmap_page e (hend + Z.of_nat n * PAGE_SIZE) ≫= λ '(r, e),
      match r with
      | None => Panic "vmm_unmap_page: not mapped"
      | Some phys => fm_free_frame e phys ≫= λ e, unmap_pages n e hend
      end
  end.

(** The mapping loop: [todo] pages to go, [done] mapped ([off] is
    [done * PAGE_SIZE]). *)
Fixpoint map_pages (todo done : nat) (e : E) (hend : Z) : outcome (bool * E) :=
  match todo with
  | O => Ok (true, e)
  | S todo =>
      let '(frame, e) := fm_alloc_frame e in
      if truth frame then
        fm_map_page e (hend + Z.of_nat done * PAGE_SIZE) frame VMM_WRITABLE ≫= λ '(rc, e),
        if rc =? 0 then map_pages todo (S done) e hend
        else
          fm_free_frame e frame ≫= λ e,
          unmap_pages done e hend ≫= λ e, Ok (false, e)
      else unmap_pages done e hend ≫= λ e, Ok (false, e)
  end.

(** [while (last && last->next) last = last->next] *)
Fixpoint last_block (fuel : nat) (st : heap) (last : Z) : outcome Z :=
  match fuel with
  | O => NoFuel
  | S fuel =>
      if truth last && truth (next (cells st last))
      then last_block fuel st (next (cells st last)) else Ok last
  end.

(** The new pages as free space: the last block grows, or a block is added. *)
Definition append_space (st : heap) (last bytes : Z) : heap :=
  let st :=
    if truth last && (magic (cells st last) =? MAGIC_FREE)
    then set_size st last (u32 (size (cells st last) + bytes))
    else
      let b := heap_end st in
      let st := set_cell st b (Block MAGIC_FREE (u32 (bytes - BLOCK_SIZE)) 0 0) in
      if truth last then set_next st last b else set_head st b in
  set_end st (u32 (heap_end st + bytes)).

Definition heap_grow (fuel : nat) (st : heap) (size : Z) : outcome (Z * heap) :=
  let bytes := Z.land (u32 (BLOCK_SIZE + size + PAGE_SIZE - 1)) (not32 (PAGE_SIZE - 1)) in
  if bytes >? u32 (KERNEL_HEAP_START + KERNEL_HEAP_MAX_SIZE - heap_end st) then Ok (-1, st)
  else
    map_pages (Z.to_nat (bytes / PAGE_SIZE)) 0 (env st) (heap_end st) ≫= λ '(ok, e),
    let st := set_env st e in
    if negb ok then Ok (-1, st)
    else
      last_block fuel st (heap_head st) ≫= λ last,
      Ok (0, append_space st last bytes).

(** ** Allocation *)

(** The body of the loop of [take_first_fit] once block [b] fits. *)
Definition take_block (st : heap) (b sz : Z) : Z * heap :=
  let st :=
    if size (cells st b) >=? u32 (sz + BLOCK_SIZE + HEAP_ALIGN) then
      let rest := u32 (b + BLOCK_SIZE + sz) in
      let blk := cells st b in
      let st := set_cell st rest
        (Block MAGIC_FREE (u32 (size blk - sz - BLOCK_SIZE)) (next blk) 0) in
      set_size (set_next st b rest) b sz
    else st in
  let st := set_magic st b MAGIC_USED in
  let st := set_used st (u32 (used_bytes st + size (cells st b))) in
  (u32 (b + BLOCK_SIZE), st).

Fixpoint first_fit_from (fuel : nat) (st : heap) (b sz : Z) : outcome (Z * heap) :=
  match fuel with
  | O => NoFuel
  | S fuel =>
      if b =? 0 then Ok (0, st)
      else if negb (magic (cells st b) =? MAGIC_FREE) || (size (cells st b) <? sz)
      then first_fit_from fuel st (next (cells st b)) sz
      else Ok (take_block st b sz)
  end.

Definition take_first_fit (fuel : nat) (st : heap) (sz : Z) : outcome (Z * heap) :=
  first_fit_from fuel st (heap_head st) sz.

Definition kmalloc (fuel : nat) (st : heap) (sz : Z) : outcome (Z * heap) :=
  if (sz =? 0) || (sz >? KERNEL_HEAP_MAX_SIZE) then Ok (0, st)
  else
    let sz := Z.land (u32 (sz + HEAP_ALIGN - 1)) (not32 (HEAP_ALIGN - 1)) in
    take_first_fit fuel st sz ≫= λ '(p, st),
    if truth p then Ok (p, st)
    else
      heap_grow fuel st sz ≫= λ '(rc, st),
      if rc =? 0 then take_first_fit fuel st sz else Ok (0, st).

(** ** Freeing *)

(** The coalescing loop of [kfree]. *)
Fixpoint coalesce (fuel : nat) (st : heap) (c : Z) : outcome heap :=
  match fuel with
  | O => NoFuel
  | S fuel =>
      if c =? 0 then Ok st
      else
        let b := cells st c in
        if (magic b =? MAGIC_FREE) && truth (next b) && (magic (cells st (next b)) =? MAGIC_FREE)
        then
          let st := set_size st c (u32 (size b + BLOCK_SIZE + size (cells st (next b)))) in
          coalesce fuel (set_next st c (next (cells st (next b)))) c
        else coalesce fuel st (next b)
  end.

Definition kfree (fuel : nat) (st : heap) (p : Z) : outcome heap :=
  if p =? 0 then Ok st
  else if (p <? KERNEL_HEAP_START + BLOCK_SIZE) || (p >=? heap_end st)
          || truth (Z.land p (HEAP_ALIGN - 1))
  then Panic "kfree: pointer is not from kmalloc"
  else
    let b := p - BLOCK_SIZE in
    if magic (cells st b) =? MAGIC_FREE then Panic "kfree: double free"
    else if negb (magic (cells st b) =? MAGIC_USED)
    then Panic "kfree: heap corruption or pointer not from kmalloc"
    else
      let st := set_magic st b MAGIC_FREE in
      let st := set_used st (u32 (used_bytes st - size (cells st b))) in
      coalesce fuel st (heap_head st).

Definition heap_used (st : heap) : Z := used_bytes st.
Definition heap_mapped_bytes (st : heap) : Z := heap_end st - KERNEL_HEAP_START.

Fixpoint check_from (fuel : nat) (st : heap) (b expected : Z) : outcome Z :=
  match fuel with
  | O => NoFuel
  | S fuel =>
      if b =? 0 then Ok (if expected =? heap_end st then 0 else -1)
      else
        let blk := cells st b in
        if negb (b =? expected)
           || (negb (magic blk =? MAGIC_USED) && negb (magic blk =? MAGIC_FREE))
           || truth (size blk mod HEAP_ALIGN)
           || ((magic blk =? MAGIC_FREE) && truth (next blk)
               && (magic (cells st (next blk)) =? MAGIC_FREE))
        then Ok (-1)
        else check_from fuel st (next blk) (u32 (b + BLOCK_SIZE + size blk))
  end.

Definition heap_check (fuel : nat) (st : heap) : outcome Z :=
  check_from fuel st (heap_head st) KERNEL_HEAP_START.

(** ** Specification *)

(** A heap as the list of its blocks, in use or not, with their payload sizes. *)
Definition layout := list (bool * Z).

Definition magic_of (used : bool) : Z := if used then MAGIC_USED else MAGIC_FREE.

(** Where the layout [l] that starts at [a] ends. *)
Fixpoint end_of (a : Z) (l : layout) : Z :=
  match l with
  | [] => a
  | (_, s) :: l => end_of (a + BLOCK_SIZE + s) l
  end.

(** [a] when a block stands there, NULL otherwise. *)
Definition ptr_to (a : Z) (l : layout) (nx : Z) : Z :=
  match l with [] => nx | _ => a end.

(** The cells from [a] hold the blocks [l], linked, the last to [nx]. *)
Fixpoint chain (m : Z → block) (a : Z) (l : layout) (nx : Z) : Prop :=
  match l with
  | [] => True
  | (u, s) :: l =>
      magic (m a) = magic_of u ∧ size (m a) = s ∧
      next (m a) = ptr_to (a + BLOCK_SIZE + s) l nx ∧
      chain m (a + BLOCK_SIZE + s) l nx
  end.

Fixpoint no_adjacent_free (l : layout) : Prop :=
  match l with
  | (false, _) :: (((false, _) :: _) as l) => False
  | _ :: l => no_adjacent_free l
  | [] => True
  end.

Definition size_ok (b : bool * Z) : Prop := 16 ≤ b.2 ∧ b.2 mod 16 = 0.

Fixpoint used_sum (l : layout) : Z :=
  match l with
  | [] => 0
  | (u, s) :: l => (if u : bool then s else 0) + used_sum l
  end.

(** The allocations: payload address to payload size. *)
Fixpoint live (a : Z) (l : layout) : gmap Z Z :=
  match l with
  | [] => ∅
  | (u, s) :: l =>
      let r := live (a + BLOCK_SIZE + s) l in
      if u : bool then <[a + BLOCK_SIZE := s]> r else r
  end.

(** Free blocks merged with the free blocks that follow them. *)
Fixpoint merge (l : layout) : layout :=
  match l with
  | [] => []
  | (true, s) :: l => (true, s) :: merge l
  | (false, s) :: l =>
      match merge l with
      | (false, s') :: l' => (false, s + BLOCK_SIZE + s') :: l'
      | l' => (false, s) :: l'
      end
  end.

(** ** Layouts *)

Lemma end_of_app a l1 l2 : end_of a (l1 ++ l2) = end_of (end_of a l1) l2.
Proof. revert a. induction l1 as [|[u s] l1 IH]; intros a; simpl; auto. Qed.

Lemma ptr_to_app a l1 l2 nx :
  ptr_to a (l1 ++ l2) nx = ptr_to a l1 (ptr_to a l2 nx).
Proof. by destruct l1. Qed.

Lemma chain_app m a l1 l2 nx :
  chain m a (l1 ++ l2) nx ↔
  chain m a l1 (ptr_to (end_of a l1) l2 nx) ∧ chain m (end_of a l1) l2 nx.
Proof.
  revert a. induction l1 as [|[u s] l1 IH]; intros a; [simpl; tauto|].
  simpl. rewrite IH.
  assert (ptr_to (a + BLOCK_SIZE + s) (l1 ++ l2) nx =
    ptr_to (a + BLOCK_SIZE + s) l1 (ptr_to (end_of (a + BLOCK_SIZE + s) l1) l2 nx)) as ->
    by (destruct l1; [done|done]).
  tauto.
Qed.

Lemma end_of_mono a l : Forall size_ok l → a ≤ end_of a l.
Proof.
  intros Hl. revert a. induction Hl as [|[u s] l [? ?] ? IH]; intros a; simpl; [lia|].
  simpl in *. specialize (IH (a + BLOCK_SIZE + s)). unfold BLOCK_SIZE in *. lia.
Qed.

Lemma end_of_mod a l : Forall size_ok l → a mod 16 = 0 → end_of a l mod 16 = 0.
Proof.
  intros Hl. revert a. induction Hl as [|[u s] l [? ?] ? IH]; intros a Ha; simpl; [done|].
  apply IH. simpl in *. unfold BLOCK_SIZE. dlia.
Qed.

Lemma end_of_length a l : Forall size_ok l → a + 32 * Z.of_nat (length l) ≤ end_of a l.
Proof.
  intros Hl. revert a. induction Hl as [|[u s] l [? ?] ? IH]; intros a; cbn [length end_of]; [lia|].
  simpl in *. specialize (IH (a + BLOCK_SIZE + s)). unfold BLOCK_SIZE in *. lia.
Qed.

(** Only the cells of the chain matter. *)
Lemma chain_ext m m' a l nx :
  Forall size_ok l → (∀ x, a ≤ x < end_of a l → m' x = m x) →
  chain m a l nx → chain m' a l nx.
Proof.
  intros Hl. revert a. induction Hl as [|[u s] l [Hs1 Hs2] Hl IH]; intros a Hm; simpl; [done|].
  simpl in *. pose proof (end_of_mono (a + BLOCK_SIZE + s) l Hl).
  unfold BLOCK_SIZE in *. rewrite (Hm a) by lia. intros (? & ? & ? & ?).
  split_and!; try done. apply IH; [|done]. intros x Hx. apply Hm. lia.
Qed.

(** ** The map of allocations *)

Lemma live_app a l1 l2 : live a (l1 ++ l2) = live a l1 ∪ live (end_of a l1) l2.
Proof.
  revert a. induction l1 as [|[u s] l1 IH]; intros a; simpl.
  - by rewrite (left_id_L ∅ (∪)).
  - rewrite IH. destruct u; [|done]. by rewrite insert_union_l.
Qed.

Lemma live_range a l p s : Forall size_ok l → live a l !! p = Some s →
  a + 16 ≤ p ∧ p + s ≤ end_of a l ∧ 16 ≤ s ∧ s mod 16 = 0.
Proof.
  intros Hl. revert a. induction Hl as [|[u t] l [Ht1 Ht2] Hl IH]; intros a; simpl; [done|].
  simpl in *. pose proof (end_of_mono (a + BLOCK_SIZE + t) l Hl) as He.
  assert (live (a + BLOCK_SIZE + t) l !! p = Some s →
    a + 16 ≤ p ∧ p + s ≤ end_of (a + BLOCK_SIZE + t) l ∧ 16 ≤ s ∧ s mod 16 = 0) as IH'.
  { intros Hp. apply IH in Hp. unfold BLOCK_SIZE in *. lia. }
  destruct u; [|done]. rewrite lookup_insert_Some. intros [[<- <-]|[? Hp]]; [|auto].
  unfold BLOCK_SIZE in *. lia.
Qed.

Lemma live_low a l p : Forall size_ok l → p < a + 16 → live a l !! p = None.
Proof.
  intros Hl Hp. destruct (live a l !! p) eqn:E1; [|done].
  apply live_range in E1; [lia|done].
Qed.

Lemma live_high a l p : Forall size_ok l → end_of a l ≤ p → live a l !! p = None.
Proof.
  intros Hl Hp. destruct (live a l !! p) eqn:E1; [|done].
  apply live_range in E1; [lia|done].
Qed.

(** An allocation is a block of the layout. *)
Lemma live_split a l p s :
  live a l !! p = Some s → ∃ l1 l2, l = l1 ++ (true, s) :: l2 ∧ p = end_of a l1 + BLOCK_SIZE.
Proof.
  revert a. induction l as [|[u t] l IH]; intros a; simpl; [done|].
  assert (live (a + BLOCK_SIZE + t) l !! p = Some s →
    ∃ l1 l2, (u, t) :: l = l1 ++ (true, s) :: l2 ∧ p = end_of a l1 + BLOCK_SIZE) as IH'.
  { intros Hp. destruct (IH _ Hp) as (l1 & l2 & -> & ->). by exists ((u, t) :: l1), l2. }
  destruct u; [|done]. rewrite lookup_insert_Some. intros [[<- <-]|[? Hp]]; [|auto].
  by exists [], l.
Qed.

(** Inserting and removing the allocation of one block. *)
Lemma live_set a l1 s l2 :
  Forall size_ok (l1 ++ (true, s) :: l2) →
  live a (l1 ++ (true, s) :: l2) =
    <[end_of a l1 + BLOCK_SIZE := s]> (live a (l1 ++ (false, s) :: l2)) ∧
  live a (l1 ++ (false, s) :: l2) !! (end_of a l1 + BLOCK_SIZE) = None.
Proof.
  intros [Hl1 [[Hs1 Hs2] Hl2]%Forall_cons]%Forall_app. rewrite !live_app. simpl in *.
  assert (live a l1 !! (end_of a l1 + BLOCK_SIZE) = None)
    by (apply live_high; [done|unfold BLOCK_SIZE; lia]).
  split; [by rewrite insert_union_r|].
  apply lookup_union_None. split; [done|]. apply live_low; [done|]. unfold BLOCK_SIZE. lia.
Qed.

(** ** [take_first_fit] *)

(** The block [(false, s)] taken for [sz] bytes, followed by [l2]. *)
Definition carve (s sz : Z) (l2 : layout) : layout :=
  if sz + 32 <=? s then (true, sz) :: (false, s - sz - BLOCK_SIZE) :: l2 else (true, s) :: l2.

Definition carved_size (s sz : Z) : Z := if sz + 32 <=? s then sz else s.

Ltac cells_at :=
  cbn [cells set_cell set_magic set_size set_next set_used set_head set_end set_env
       magic size next reserved heap_head heap_end used_bytes env];
  repeat first
    [ rewrite Z.eqb_refl
    | rewrite (proj2 (Z.eqb_neq _ _)) by (unfold BLOCK_SIZE in *; lia) ].

Lemma take_block_spec st a l1 s l2 sz :
  chain (cells st) a (l1 ++ (false, s) :: l2) 0 → Forall size_ok (l1 ++ (false, s) :: l2) →
  16 ≤ sz ≤ s → sz mod 16 = 0 → 32 < a → end_of a (l1 ++ (false, s) :: l2) < 2 ^ 32 →
  let '(p, st') := take_block st (end_of a l1) sz in
  p = end_of a l1 + BLOCK_SIZE ∧
  chain (cells st') a (l1 ++ carve s sz l2) 0 ∧
  used_bytes st' = u32 (used_bytes st + carved_size s sz) ∧
  heap_head st' = heap_head st ∧ heap_end st' = heap_end st ∧ env st' = env st.
Proof.
  intros Hc [Hl1 [Hs Hl2]%Forall_cons]%Forall_app Hsz Hal Ha Hend.
  apply chain_app in Hc as [Hc1 (Hm & Hz & Hn & Hc2)]. rewrite end_of_app in Hend.
  simpl in Hend, Hn. pose proof (end_of_mono a l1 Hl1). pose proof (end_of_mono _ l2 Hl2 : _ ≤ end_of (end_of a l1 + BLOCK_SIZE + s) l2).
  set (b := end_of a l1) in *. destruct Hs as [Hs1 Hs2]. simpl in Hs1, Hs2.
  unfold take_block, carve, carved_size. rewrite Hz.
  rewrite (u32_small (sz + BLOCK_SIZE + HEAP_ALIGN)), Z.geb_leb by (unfold BLOCK_SIZE in *; lia).
  change (sz + BLOCK_SIZE + HEAP_ALIGN) with (sz + 16 + 16).
  replace (sz + 16 + 16) with (sz + 32) by lia.
  rewrite (u32_small (b + BLOCK_SIZE)) by (unfold BLOCK_SIZE in *; lia).
  case_if.
  - rewrite (u32_small (b + BLOCK_SIZE + sz)) by (unfold BLOCK_SIZE in *; lia).
    rewrite (u32_small (s - sz - BLOCK_SIZE)) by (unfold BLOCK_SIZE in *; lia).
    cells_at. split_and!; try done. apply chain_app. fold b. split.
    + apply (chain_ext (cells st)); [done| |by destruct l1].
      fold b. intros x Hx. cells_at. done.
    + cbn [chain ptr_to].
      replace (b + BLOCK_SIZE + sz + BLOCK_SIZE + (s - sz - BLOCK_SIZE)) with (b + BLOCK_SIZE + s) by lia.
      cells_at. split_and!; try done.
      apply (chain_ext (cells st)); [done| |done]. intros x Hx. cells_at. done.
  - cells_at. rewrite Hz. split_and!; try done. apply chain_app. fold b. split.
    + apply (chain_ext (cells st)); [done| |by destruct l1].
      fold b. intros x Hx. cells_at. done.
    + cbn [chain ptr_to]. cells_at. split_and!; try done.
      apply (chain_ext (cells st)); [done| |done]. intros x Hx. cells_at. done.
Qed.

Definition fits_block (sz : Z) (b : bool * Z) : Prop := b.1 = false ∧ sz ≤ b.2.

Lemma first_fit_from_spec fuel st a l sz :
  chain (cells st) a l 0 → Forall size_ok l → 0 < a → (length l < fuel)%nat →
  (first_fit_from fuel st (ptr_to a l 0) sz = Ok (0, st) ∧ Forall (λ b, ¬ fits_block sz b) l) ∨
  ∃ l1 s l2, l = l1 ++ (false, s) :: l2 ∧ sz ≤ s ∧ Forall (λ b, ¬ fits_block sz b) l1 ∧
    first_fit_from fuel st (ptr_to a l 0) sz = Ok (take_block st (end_of a l1) sz).
Proof.
  intros Hc Hl. revert a fuel Hc. induction Hl as [|[u s] l [Hs1 Hs2] Hl IH];
    intros a [|fuel] Hc Ha Hf; simpl in Hf; try lia.
  { left. by split. }
  destruct Hc as (Hm & Hz & Hn & Hc). cbn [ptr_to first_fit_from].
  rewrite (proj2 (Z.eqb_neq a 0)) by lia. rewrite Hm, Hz.
  assert (∀ b : bool, (magic_of b =? MAGIC_FREE) = negb b) as Hmagic by by intros [].
  rewrite Hmagic, negb_involutive.
  destruct (u || (s <? sz)) eqn:Efit.
  - rewrite Hn. assert (¬ fits_block sz (u, s)) as Hno.
    { intros [? ?]. simpl in *. subst u. simpl in Efit. zbool. lia. }
    destruct (IH (a + BLOCK_SIZE + s) fuel Hc) as [[E1 E2]|(l1 & s' & l2 & -> & ? & ? & E1)];
      [simpl in *; unfold BLOCK_SIZE; lia|lia| |].
    + left. split; [done|by constructor].
    + right. exists ((u, s) :: l1), s', l2. split_and!; try done. by constructor.
  - zbool. destruct u; [done|]. right. exists [], s, l. done.
Qed.

(** ** The coalescing loop *)

Lemma merge_step s1 s2 l :
  merge ((false, s1) :: (false, s2) :: l) = merge ((false, s1 + BLOCK_SIZE + s2) :: l).
Proof.
  cbn [merge]. destruct (merge l) as [|[[] s'] l']; [done..|]. do 2 f_equal. lia.
Qed.

Lemma end_of_merge a l : end_of a (merge l) = end_of a l.
Proof.
  revert a. induction l as [|[[] s] l IH]; intros a; simpl; [done|apply IH|].
  rewrite <- IH. destruct (merge l) as [|[[] s'] l']; simpl; [done..|]. f_equal. lia.
Qed.

Lemma live_merge a l : live a (merge l) = live a l.
Proof.
  revert a. induction l as [|[[] s] l IH]; intros a; simpl; [done|by rewrite IH|].
  rewrite <- IH. destruct (merge l) as [|[[] s'] l']; simpl; [done..|]. f_equal. lia.
Qed.

Lemma used_sum_merge l : used_sum (merge l) = used_sum l.
Proof.
  induction l as [|[[] s] l IH]; simpl; [done|lia|].
  rewrite <- IH. by destruct (merge l) as [|[[] s'] l'].
Qed.

Lemma merge_size_ok l : Forall size_ok l → Forall size_ok (merge l).
Proof.
  induction 1 as [|[[] s] l Hs Hl IH]; simpl; [done|by constructor|].
  destruct (merge l) as [|[[] s'] l']; [by constructor..|].
  apply Forall_cons in IH as [[? ?] ?]. destruct Hs as [? ?]. simpl in *.
  constructor; [|done]. unfold size_ok, BLOCK_SIZE. simpl. dlia.
Qed.

Lemma no_adjacent_free_merge l : no_adjacent_free (merge l).
Proof.
  induction l as [|[[] s] l IH]; simpl; [done|done|].
  by destruct (merge l) as [|[[] s'] l'].
Qed.

Lemma merge_ptr_to a l nx : ptr_to a (merge l) nx = ptr_to a l nx.
Proof.
  destruct l as [|[[] s] l]; [done..|]. simpl. by destruct (merge l) as [|[[] s'] l'].
Qed.

Lemma coalesce_spec fuel st a l :
  chain (cells st) a l 0 → Forall size_ok l → 0 < a → end_of a l < 2 ^ 32 →
  (length l < fuel)%nat →
  ∃ st', coalesce fuel st (ptr_to a l 0) = Ok st' ∧ chain (cells st') a (merge l) 0 ∧
    (∀ x, x < a → cells st' x = cells st x) ∧
    heap_head st' = heap_head st ∧ heap_end st' = heap_end st ∧
    used_bytes st' = used_bytes st ∧ env st' = env st.
Proof.
  revert st a l. induction fuel as [|fuel IH]; intros st a l Hc Hl Ha Hend Hf; [lia|].
  destruct l as [|[u s] l]; [by exists st|]. destruct Hc as (Hm & Hz & Hn & Hc).
  apply Forall_cons in Hl as [[Hs1 Hs2] Hl]. simpl in Hf, Hs1, Hs2, Hend.
  cbn [ptr_to coalesce]. rewrite (proj2 (Z.eqb_neq a 0)) by lia. rewrite Hm, Hn.
  assert ((u = false ∧ ∃ s2 l2, l = (false, s2) :: l2) ∨
    ((magic_of u =? MAGIC_FREE) && truth (ptr_to (a + BLOCK_SIZE + s) l 0) &&
     (magic (cells st (ptr_to (a + BLOCK_SIZE + s) l 0)) =? MAGIC_FREE) = false ∧
     merge ((u, s) :: l) = (u, s) :: merge l)) as [[-> (s2 & l2 & ->)]|[Hcond Hmerge]].
  { destruct u; [by right|]. destruct l as [|[[] s2] l2]; [by right| |eauto].
    right. cbn [ptr_to]. destruct Hc as [-> _]. rewrite !andb_false_r. done. }
  - rewrite merge_step. destruct Hc as (Hm2 & Hz2 & Hn2 & Hc2).
    apply Forall_cons in Hl as [[Ht1 Ht2] Hl]. cbn [snd] in Ht1, Ht2. cbn [end_of] in Hend.
    pose proof (end_of_mono (a + BLOCK_SIZE + s + BLOCK_SIZE + s2) l2 Hl).
    cbn [ptr_to] in *. rewrite Hm2. rewrite truth_nonzero by (unfold BLOCK_SIZE in *; lia).
    cbn [magic_of Z.eqb andb]. rewrite Hz, Hz2. rewrite u32_small by (unfold BLOCK_SIZE in *; lia).
    set (st1 := set_next _ _ _).
    destruct (IH st1 a ((false, s + BLOCK_SIZE + s2) :: l2)) as (st' & E1 & Hc' & Hx & ? & ? & ? & ?).
    + cbn [chain]. unfold st1. cells_at. rewrite Hn2.
      replace (a + BLOCK_SIZE + (s + BLOCK_SIZE + s2)) with (a + BLOCK_SIZE + s + BLOCK_SIZE + s2) by lia.
      split_and!; try done. apply (chain_ext (cells st)); [done| |done].
      intros x Hx. cells_at. done.
    + constructor; [|done]. unfold size_ok, BLOCK_SIZE in *. simpl. dlia.
    + done.
    + cbn [end_of]. replace (a + BLOCK_SIZE + (s + BLOCK_SIZE + s2)) with (a + BLOCK_SIZE + s + BLOCK_SIZE + s2) by lia. done.
    + simpl in *. lia.
    + exists st'. split_and!; try done.
      intros x Hxa. rewrite Hx by done. unfold st1. cells_at. done.
  - rewrite Hcond. destruct (IH st (a + BLOCK_SIZE + s) l) as (st' & E1 & Hc' & Hx & ? & ? & ? & ?);
      [done|done|unfold BLOCK_SIZE in *; lia|done|lia|].
    exists st'. rewrite Hmerge. split_and!; try done.
    + cbn [chain]. rewrite Hx, merge_ptr_to by (unfold BLOCK_SIZE in *; lia). done.
    + intros x Hxa. apply Hx. unfold BLOCK_SIZE in *. lia.
Qed.

(** ** Growing *)

Lemma no_adjacent_free_snoc l u s :
  no_adjacent_free l → (u = true ∨ ∀ l' s', l ≠ l' ++ [(false, s')]) →
  no_adjacent_free (l ++ [(u, s)]).
Proof.
  induction l as [|[v t] l IH]; intros Hl Hlast; [by destruct u|].
  assert (no_adjacent_free (l ++ [(u, s)])) as Hr.
  { apply IH.
    - destruct v; [done|]. destruct l as [|[[] ?] ?]; done.
    - destruct Hlast as [?|Hlast]; [by left|]. right. intros l' s' ->.
      by apply (Hlast ((v, t) :: l') s'). }
  destruct v; [done|]. destruct l as [|[[] t'] l]; simpl in *; [|done..].
  destruct u; [done|]. destruct Hlast as [?|Hlast]; [done|]. by apply (Hlast [] t).
Qed.

Lemma no_adjacent_free_app l1 u s l2 :
  no_adjacent_free (l1 ++ (u, s) :: l2) ↔
  no_adjacent_free (l1 ++ [(u, s)]) ∧ no_adjacent_free ((u, s) :: l2).
Proof.
  induction l1 as [|[v t] l1 IH].
  - simpl. destruct u; simpl; tauto.
  - destruct l1 as [|[v' t'] l1].
    + simpl in *. destruct v, u; tauto.
    + change (no_adjacent_free ((v, t) :: (v', t') :: l1 ++ (u, s) :: l2) ↔
        no_adjacent_free ((v, t) :: (v', t') :: l1 ++ [(u, s)]) ∧ no_adjacent_free ((u, s) :: l2)).
      destruct v, v'; cbn [no_adjacent_free]; tauto.
Qed.

Lemma no_adjacent_free_resize l1 u s s' l2 :
  no_adjacent_free (l1 ++ (u, s) :: l2) → no_adjacent_free (l1 ++ (u, s') :: l2).
Proof.
  induction l1 as [|[v t] l1 IH]; [done|].
  destruct l1 as [|[v' t'] l1]; [done|].
  change (no_adjacent_free ((v, t) :: (v', t') :: l1 ++ (u, s) :: l2) →
    no_adjacent_free ((v, t) :: (v', t') :: l1 ++ (u, s') :: l2)).
  destruct v, v'; cbn [no_adjacent_free]; tauto.
Qed.

Lemma no_adjacent_free_use l1 s s' l2 :
  no_adjacent_free (l1 ++ (false, s) :: l2) → no_adjacent_free (l1 ++ (true, s') :: l2).
Proof.
  intros [H1 H2]%no_adjacent_free_app. apply no_adjacent_free_app. split.
  - induction l1 as [|[v t] l1 IH]; [done|]. destruct l1 as [|[v' t'] l1]; [by destruct v|].
    change (no_adjacent_free ((v, t) :: (v', t') :: l1 ++ [(false, s)])) in H1.
    change (no_adjacent_free ((v, t) :: (v', t') :: l1 ++ [(true, s')])).
    destruct v, v'; cbn [no_adjacent_free] in *; tauto.
  - simpl in *. destruct l2 as [|[[] ?] ?]; done.
Qed.

(** The block after a free one is in use. *)
Lemma no_adjacent_free_after l1 s l2 :
  no_adjacent_free (l1 ++ (false, s) :: l2) → no_adjacent_free l2 ∧
  (∀ t l3, l2 ≠ (false, t) :: l3).
Proof.
  intros [_ H2]%no_adjacent_free_app. simpl in H2.
  destruct l2 as [|[[] ?] ?]; split; intros; simplify_eq; done.
Qed.

Lemma carve_no_adjacent l1 s sz l2 :
  no_adjacent_free (l1 ++ (false, s) :: l2) → no_adjacent_free (l1 ++ carve s sz l2).
Proof.
  intros Hadj. unfold carve. case_if; [|by eapply no_adjacent_free_use].
  destruct (no_adjacent_free_after _ _ _ Hadj) as [H2 H3].
  apply no_adjacent_free_app. split.
  - apply no_adjacent_free_use with s. by apply no_adjacent_free_app in Hadj as [? _].
  - cbn [no_adjacent_free]. destruct l2 as [|[[] t] l2]; try done. by destruct (H3 t l2).
Qed.

Lemma last_block_spec fuel st a l u s :
  chain (cells st) a (l ++ [(u, s)]) 0 → Forall size_ok (l ++ [(u, s)]) → 0 < a →
  (length l < fuel)%nat →
  last_block fuel st a = Ok (end_of a l).
Proof.
  revert a fuel. induction l as [|[v t] l IH]; intros a [|fuel] Hc Hl Ha Hf; simpl in Hf; try lia.
  - destruct Hc as (_ & _ & Hn & _). cbn [last_block]. by rewrite Hn, andb_false_r.
  - destruct Hc as (_ & _ & Hn & Hc). apply Forall_cons in Hl as [[Ht ?] Hl]. simpl in Ht.
    cbn [last_block end_of]. rewrite Hn.
    assert (ptr_to (a + BLOCK_SIZE + t) (l ++ [(u, s)]) 0 = a + BLOCK_SIZE + t) as -> by by destruct l.
    rewrite !truth_nonzero by (unfold BLOCK_SIZE; lia). cbn [andb].
    apply IH; try done; unfold BLOCK_SIZE; lia.
Qed.

(** What [append_space] makes of the layout [l]. *)
Definition extended (l : layout) (bytes : Z) : layout :=
  match last l with
  | Some (false, s) => take (pred (length l)) l ++ [(false, s + bytes)]
  | _ => l ++ [(false, bytes - BLOCK_SIZE)]
  end.

Lemma extended_snoc l u s bytes :
  extended (l ++ [(u, s)]) bytes =
  if u : bool then l ++ [(u, s)] ++ [(false, bytes - BLOCK_SIZE)] else l ++ [(false, s + bytes)].
Proof.
  unfold extended. rewrite last_snoc. destruct u; [by rewrite <- app_assoc|].
  rewrite length_app, Nat.add_comm. simpl. by rewrite take_app_length.
Qed.

Lemma used_sum_app l1 l2 : used_sum (l1 ++ l2) = used_sum l1 + used_sum l2.
Proof. induction l1 as [|[u s] l1 IH]; simpl; [done|]. rewrite IH. lia. Qed.

Lemma used_sum_bound a l : Forall size_ok l → 0 ≤ used_sum l ≤ end_of a l - a.
Proof.
  intros Hl. revert a. induction Hl as [|[u s] l [? ?] ? IH]; intros a; simpl; [lia|].
  simpl in *. specialize (IH (a + BLOCK_SIZE + s)). unfold BLOCK_SIZE in *. destruct u; lia.
Qed.

Lemma extended_spec a l bytes :
  Forall size_ok l → no_adjacent_free l → 32 ≤ bytes → bytes mod 16 = 0 →
  Forall size_ok (extended l bytes) ∧ no_adjacent_free (extended l bytes) ∧
  end_of a (extended l bytes) = end_of a l + bytes ∧
  live a (extended l bytes) = live a l ∧ used_sum (extended l bytes) = used_sum l ∧
  ∃ l1 s, extended l bytes = l1 ++ [(false, s)] ∧ bytes - BLOCK_SIZE ≤ s.
Proof.
  intros Hl Hadj Hb1 Hb2.
  assert (size_ok (false, bytes - BLOCK_SIZE)) as Hnew
    by (unfold size_ok, BLOCK_SIZE; simpl; dlia).
  destruct l as [|[u s] l _] using rev_ind.
  { unfold extended. simpl. unfold BLOCK_SIZE in *.
    split; [by constructor|]. split; [done|]. split; [lia|]. split; [done|]. split; [done|].
    by exists [], (bytes - 16). }
  rewrite extended_snoc. apply Forall_app in Hl as Hl'. destruct Hl' as [Hl1 Hs].
  apply Forall_singleton in Hs as [Hs1 Hs2]. simpl in Hs1, Hs2. destruct u.
  - change (l ++ [(true, s)] ++ [(false, bytes - BLOCK_SIZE)])
      with (l ++ ([(true, s)] ++ [(false, bytes - BLOCK_SIZE)])). rewrite (app_assoc l).
    split_and!.
    + apply Forall_app. split; [done|]. by constructor.
    + apply no_adjacent_free_snoc; [done|]. right. intros l' s' Heq.
      apply app_inj_2 in Heq as [_ ?]; done.
    + rewrite end_of_app. simpl. lia.
    + rewrite live_app. simpl. apply (right_id_L ∅ (∪)).
    + rewrite used_sum_app. simpl. lia.
    + eexists _, _. split; [done|lia].
  - split_and!.
    + apply Forall_app. split; [done|]. constructor; [|done]. unfold size_ok. simpl. dlia.
    + by apply (no_adjacent_free_resize l false s (s + bytes) []).
    + rewrite !end_of_app. simpl. lia.
    + by rewrite !live_app.
    + by rewrite !used_sum_app.
    + eexists _, _. split; [done|]. unfold BLOCK_SIZE. lia.
Qed.

Lemma append_space_spec fuel st a l bytes :
  chain (cells st) a l 0 → Forall size_ok l → heap_head st = ptr_to a l 0 →
  end_of a l = heap_end st → 0 < a → heap_end st + bytes < 2 ^ 32 → 32 ≤ bytes →
  (length l < fuel)%nat →
  ∃ b, last_block fuel st (heap_head st) = Ok b ∧
    let st' := append_space st b bytes in
    chain (cells st') a (extended l bytes) 0 ∧ heap_head st' = a ∧
    heap_end st' = heap_end st + bytes ∧ used_bytes st' = used_bytes st ∧ env st' = env st.
Proof.
  intros Hc Hl Hh He Ha Hmax Hb Hf. pose proof (end_of_mono a l Hl) as Hmono.
  destruct l as [|[u s] l _] using rev_ind.
  { exists 0. rewrite Hh. destruct fuel as [|fuel]; [simpl in Hf; lia|]. split; [done|].
    unfold append_space. cbn [truth Z.eqb negb andb]. simpl in He.
    rewrite !u32_small by (unfold BLOCK_SIZE in *; lia). cells_at. rewrite <- He.
    split_and!; try done; [|apply u32_small; lia]. cbn [extended last app chain ptr_to]. cells_at. done. }
  exists (end_of a l). rewrite Hh, (ptr_to_app a l).
  assert (ptr_to a l (ptr_to a [(u, s)] 0) = a) as -> by by destruct l.
  rewrite length_app in Hf. simpl in Hf.
  split; [apply last_block_spec with u s; try done; lia|].
  apply chain_app in Hc as [Hc1 (Hm & Hz & Hn & _)]. rewrite end_of_app in He. simpl in He, Hn.
  apply Forall_app in Hl as [Hl [Hs _]%Forall_cons]. destruct Hs as [Hs1 Hs2]. simpl in Hs1, Hs2.
  pose proof (end_of_mono a l Hl).
  assert (heap_head st = a) as Hha by (rewrite Hh, ptr_to_app; by destruct l).
  unfold append_space. rewrite truth_nonzero by lia. rewrite Hm, Hz, extended_snoc.
  rewrite !u32_small by (unfold BLOCK_SIZE in *; lia).
  destruct u; cbn [andb magic_of]; cells_at.
  - change (MAGIC_USED =? MAGIC_FREE) with false. cbv iota. cells_at.
    rewrite (u32_small (heap_end st + bytes)) by (unfold BLOCK_SIZE in *; lia).
    split_and!; try done. apply chain_app. split.
    + apply (chain_ext (cells st)); [done| |by destruct l]. intros x Hx. cells_at. done.
    + cbn [app chain ptr_to]. cells_at. rewrite He. cells_at. done.
  - change (MAGIC_FREE =? MAGIC_FREE) with true. cbv iota. cells_at.
    rewrite (u32_small (heap_end st + bytes)) by (unfold BLOCK_SIZE in *; lia).
    split_and!; try done. apply chain_app. split.
    + apply (chain_ext (cells st)); [done| |by destruct l]. intros x Hx. cells_at. done.
    + cbn [app chain ptr_to]. cells_at. done.
Qed.

(** ** Pages *)

Context `{!FrameMapperLaws E}.

(** The mappings without the [n] pages from [hend]. *)
Fixpoint without_pages (n : nat) (hend : Z) (M : gmap Z Z) : gmap Z Z :=
  match n with
  | O => M
  | S n => without_pages n hend (delete (hend + Z.of_nat n * PAGE_SIZE) M)
  end.

Lemma without_pages_out n hend M va :
  (∀ i : nat, (i < n)%nat → va ≠ hend + Z.of_nat i * PAGE_SIZE) →
  without_pages n hend M !! va = M !! va.
Proof.
  revert M. induction n as [|n IH]; intros M Hva; simpl; [done|].
  rewrite IH by (intros i ?; apply Hva; lia). apply lookup_delete_ne.
  intros <-. apply (Hva n); [lia|done].
Qed.

Lemma without_pages_in n hend M (i : nat) :
  (i < n)%nat → without_pages n hend M !! (hend + Z.of_nat i * PAGE_SIZE) = None.
Proof.
  revert M. induction n as [|n IH]; intros M Hi; simpl; [lia|].
  destruct (decide (i = n)) as [->|]; [|apply IH; lia].
  rewrite without_pages_out by (intros j ?; unfold PAGE_SIZE; lia). apply lookup_delete_eq.
Qed.

Lemma unmap_pages_spec n e hend F M :
  owns e F M → (∀ i, (i < n)%nat → is_Some (M !! (hend + Z.of_nat i * PAGE_SIZE))) →
  ∃ e', unmap_pages n e hend = Ok e' ∧ owns e' F (without_pages n hend M).
Proof.
  revert e M. induction n as [|n IH]; intros e M Ho Hm; cbn [unmap_pages without_pages]; [eauto|].
  destruct (Hm n) as [f Hf]; [lia|]. destruct (unmap_law e F M _ f Ho Hf) as (e1 & E1 & Hfresh & Ho1).
  destruct (free_law e1 _ _ f Ho1) as (e2 & E2 & Ho2); [set_solver|].
  replace (({[f]} ∪ F) ∖ {[f]}) with F in Ho2 by set_solver.
  destruct (IH e2 (delete (hend + Z.of_nat n * PAGE_SIZE) M) Ho2) as (e3 & E3 & Ho3).
  { intros i Hi. rewrite lookup_delete_ne by (unfold PAGE_SIZE; lia). apply Hm. lia. }
  exists e3. rewrite E1. cbn [mbind outcome_bind]. rewrite E2. done.
Qed.

Lemma map_pages_spec todo dn e hend F M M0 :
  owns e F M → M0 = without_pages dn hend M →
  (∀ i, (i < dn)%nat → is_Some (M !! (hend + Z.of_nat i * PAGE_SIZE))) →
  (∀ i, (dn ≤ i < dn + todo)%nat →
    kernel_page (hend + Z.of_nat i * PAGE_SIZE) ∧ M !! (hend + Z.of_nat i * PAGE_SIZE) = None) →
  ∃ ok e', map_pages todo dn e hend = Ok (ok, e') ∧
    if ok : bool then ∃ M', owns e' F M' ∧ M0 = without_pages (dn + todo) hend M' ∧
      ∀ i, (i < dn + todo)%nat → is_Some (M' !! (hend + Z.of_nat i * PAGE_SIZE))
    else owns e' F M0.
Proof.
  revert dn e M. induction todo as [|todo IH]; intros dn e M Ho HM0 Hold Hnew; cbn [map_pages].
  { exists true, e. split; [done|]. rewrite Nat.add_0_r. eauto. }
  destruct (alloc_law e F M Ho) as (f & e1 & E1 & Hcase). rewrite E1.
  destruct Hcase as [[-> Ho1]|(Hf & Hfresh & Ho1)].
  { destruct (unmap_pages_spec dn e1 hend F M Ho1 Hold) as (e2 & E2 & Ho2).
    exists false, e2. rewrite E2. split; [done|]. by rewrite HM0. }
  rewrite truth_nonzero by done. destruct (Hnew dn) as [Hpage Hnone]; [lia|].
  destruct (map_law e1 _ M _ f Ho1 ltac:(set_solver) Hpage Hnone) as (rc & e2 & E2 & Hcase).
  rewrite E2. cbn [mbind outcome_bind].
  destruct Hcase as [[-> Ho2]|[Hrc Ho2]].
  - cbn [Z.eqb]. replace (({[f]} ∪ F) ∖ {[f]}) with F in Ho2 by set_solver.
    rewrite <- Nat.add_succ_comm. eapply (IH (S dn) e2 _ Ho2).
    + cbn [without_pages]. by rewrite delete_insert_id.
    + intros i Hi. destruct (decide (i = dn)) as [->|]; [by rewrite lookup_insert_eq|].
      rewrite lookup_insert_ne by (unfold PAGE_SIZE; lia). apply Hold. lia.
    + intros i Hi. rewrite lookup_insert_ne by (unfold PAGE_SIZE; lia). apply Hnew. lia.
  - rewrite (proj2 (Z.eqb_neq rc 0)) by done.
    destruct (free_law e2 _ _ f Ho2) as (e3 & E3 & Ho3); [set_solver|]. rewrite E3.
    replace (({[f]} ∪ F) ∖ {[f]}) with F in Ho3 by set_solver.
    destruct (unmap_pages_spec dn e3 hend F M Ho3 Hold) as (e4 & E4 & Ho4).
    exists false, e4. cbn. rewrite E4. split; [done|]. by rewrite HM0.
Qed.

(** ** The invariant *)

Record heap_rep (st : heap) (l : layout) (F : gset Z) (M : gmap Z Z) : Prop := {
  rep_chain : chain (cells st) KERNEL_HEAP_START l 0;
  rep_head : heap_head st = ptr_to KERNEL_HEAP_START l 0;
  rep_end : end_of KERNEL_HEAP_START l = heap_end st;
  rep_max : heap_end st ≤ KERNEL_HEAP_START + KERNEL_HEAP_MAX_SIZE;
  rep_pages : heap_end st mod PAGE_SIZE = 0;
  rep_sizes : Forall size_ok l;
  rep_adjacent : no_adjacent_free l;
  rep_used : used_bytes st = used_sum l;
  rep_owns : owns (env st) F M;
  rep_mapped va : heap_page va → (is_Some (M !! va) ↔ va < heap_end st)
}.

Lemma rep_bounds st l F M : heap_rep st l F M →
  KERNEL_HEAP_START + 32 * Z.of_nat (length l) ≤ heap_end st ∧
  0 ≤ used_sum l ≤ heap_end st - KERNEL_HEAP_START.
Proof.
  intros [? ? He ? ? Hl ? ? ? ?]. pose proof (end_of_length KERNEL_HEAP_START l Hl).
  pose proof (used_sum_bound KERNEL_HEAP_START l Hl). lia.
Qed.

Lemma carve_spec a l1 s sz l2 :
  Forall size_ok (l1 ++ (false, s) :: l2) → 16 ≤ sz ≤ s → sz mod 16 = 0 →
  let l := l1 ++ (false, s) :: l2 in
  let l' := l1 ++ carve s sz l2 in
  Forall size_ok l' ∧ end_of a l' = end_of a l ∧
  used_sum l' = used_sum l + carved_size s sz ∧
  live a l !! (end_of a l1 + BLOCK_SIZE) = None ∧
  live a l' = <[end_of a l1 + BLOCK_SIZE := carved_size s sz]> (live a l).
Proof.
  intros Hl Hsz Hal l l'. apply Forall_app in Hl as Hl'.
  destruct Hl' as [Hl1 [[Hs1 Hs2] Hl2]%Forall_cons]. simpl in Hs1, Hs2.
  unfold l, l', carve, carved_size. destruct (Z.leb_spec (sz + 32) s).
  - assert (Forall size_ok (l1 ++ (true, sz) :: (false, s - sz - BLOCK_SIZE) :: l2)) as Hok.
    { apply Forall_app. split; [done|]. repeat constructor; unfold size_ok, BLOCK_SIZE; simpl; try done; dlia. }
    destruct (live_set a l1 sz ((false, s - sz - BLOCK_SIZE) :: l2) Hok) as [Hlv Hnone].
    assert (live a (l1 ++ (false, sz) :: (false, s - sz - BLOCK_SIZE) :: l2) =
      live a (l1 ++ (false, s) :: l2)) as Heq.
    { rewrite !live_app. simpl. do 2 f_equal. lia. }
    rewrite <- Heq. split_and!; try done.
    + rewrite !end_of_app. simpl. f_equal. lia.
    + rewrite !used_sum_app. simpl. lia.
  - assert (Forall size_ok (l1 ++ (true, s) :: l2)) as Hok.
    { apply Forall_app. split; [done|]. by constructor. }
    destruct (live_set a l1 s l2 Hok) as [Hlv Hnone].
    split_and!; try done.
    + by rewrite !end_of_app.
    + rewrite !used_sum_app. simpl. lia.
Qed.

Lemma take_first_fit_spec fuel st l F M sz :
  heap_rep st l F M → 16 ≤ sz → sz mod 16 = 0 → (length l < fuel)%nat →
  (take_first_fit fuel st sz = Ok (0, st) ∧ Forall (λ b, ¬ fits_block sz b) l) ∨
  ∃ p s st' l', take_first_fit fuel st sz = Ok (p, st') ∧ heap_rep st' l' F M ∧
    heap_end st' = heap_end st ∧ p ≠ 0 ∧ sz ≤ s < sz + 32 ∧
    live KERNEL_HEAP_START l !! p = None ∧ live KERNEL_HEAP_START l' = <[p := s]> (live KERNEL_HEAP_START l).
Proof.
  intros Hrep Hsz Hal Hf. pose proof (rep_bounds _ _ _ _ Hrep) as [_ Hu].
  pose proof Hrep as [Hc Hh He Hmax Hpg Hl Hadj Hused Ho Hmp].
  unfold take_first_fit. rewrite Hh.
  destruct (first_fit_from_spec fuel st KERNEL_HEAP_START l sz Hc Hl ltac:(done) Hf)
    as [?|(l1 & s & l2 & -> & Hs & Hno & E1)]; [by left|].
  right. rewrite E1. 
  pose proof (take_block_spec st KERNEL_HEAP_START l1 s l2 sz Hc Hl ltac:(lia) Hal ltac:(done) ltac:(lia)) as Ht.
  destruct (take_block st (end_of KERNEL_HEAP_START l1) sz) as [p st'].
  destruct Ht as (-> & Hc' & Hu' & Hh' & He' & Henv).
  destruct (carve_spec KERNEL_HEAP_START l1 s sz l2 Hl ltac:(lia) Hal) as (Hok & Hend & Hsum & Hnone & Hlv).
  assert (0 < end_of KERNEL_HEAP_START l1) as Hpos.
  { apply Forall_app in Hl as [Hl1 _]. pose proof (end_of_mono KERNEL_HEAP_START l1 Hl1).
    lia. }
  assert (sz ≤ carved_size s sz < sz + 32) as Hcs by (unfold carved_size; case_if; lia).
  pose proof (used_sum_bound KERNEL_HEAP_START _ Hok) as Hub.
  exists (end_of KERNEL_HEAP_START l1 + BLOCK_SIZE), (carved_size s sz), st', (l1 ++ carve s sz l2).
  split_and!; try done; try (unfold BLOCK_SIZE; lia).
  constructor; try (rewrite ?He', ?Henv; done).
  - rewrite Hh', Hh, !ptr_to_app. unfold carve. by case_if.
  - by rewrite Hend, He'.
  - by apply carve_no_adjacent.
  - rewrite Hu', Hused, Hsum. apply u32_small. lia.
Qed.

Lemma mapped_grow st hend' M M' n :
  (∀ va, heap_page va → (is_Some (M !! va) ↔ va < heap_end st)) →
  heap_end st mod PAGE_SIZE = 0 → KERNEL_HEAP_START ≤ heap_end st →
  hend' = heap_end st + Z.of_nat n * PAGE_SIZE → M = without_pages n (heap_end st) M' →
  (∀ i : nat, (i < n)%nat → is_Some (M' !! (heap_end st + Z.of_nat i * PAGE_SIZE))) →
  ∀ va, heap_page va → (is_Some (M' !! va) ↔ va < hend').
Proof.
  intros HM Hal Hst -> -> Hnew va Hpage. pose proof Hpage as [Hva _].
  destruct (decide (heap_end st ≤ va < heap_end st + Z.of_nat n * PAGE_SIZE)) as [Hr|Hr].
  - set (i := Z.to_nat ((va - heap_end st) / PAGE_SIZE)).
    assert (va = heap_end st + Z.of_nat i * PAGE_SIZE) as Hi
      by (unfold i, PAGE_SIZE in *; rewrite Z2Nat.id by dlia; dlia).
    clearbody i. subst va. split; [lia|]. intros _. apply Hnew. unfold PAGE_SIZE in *. lia.
  - rewrite <- (without_pages_out n (heap_end st) M' va).
    + rewrite HM by done. unfold PAGE_SIZE in *. lia.
    + intros i Hi ->. apply Hr. unfold PAGE_SIZE in *. lia.
Qed.

Lemma heap_grow_spec fuel st l F M sz :
  heap_rep st l F M → 16 ≤ sz ≤ KERNEL_HEAP_MAX_SIZE → (length l < fuel)%nat →
  ∃ rc st', heap_grow fuel st sz = Ok (rc, st') ∧
    ((rc = 0 ∧ ∃ M' bytes, bytes mod PAGE_SIZE = 0 ∧ sz + BLOCK_SIZE ≤ bytes < sz + BLOCK_SIZE + PAGE_SIZE ∧
        heap_end st' = heap_end st + bytes ∧ heap_rep st' (extended l bytes) F M') ∨
     (rc = -1 ∧ heap_rep st' l F M)).
Proof.
  intros Hrep Hsz Hf. pose proof (rep_bounds _ _ _ _ Hrep) as [Hlen Hub].
  pose proof Hrep as [Hc Hh He Hmax Hpg Hl Hadj Hused Ho Hmp]. unfold heap_grow.
  assert (KERNEL_HEAP_START = 0xD0000000) as Hhs by done. 
  replace (BLOCK_SIZE + sz + PAGE_SIZE - 1) with ((BLOCK_SIZE + sz) + PAGE_SIZE - 1) by lia.
  rewrite page_round_up by (unfold BLOCK_SIZE, PAGE_SIZE; lia).
  set (n := (BLOCK_SIZE + sz + PAGE_SIZE - 1) / PAGE_SIZE).
  assert (sz + BLOCK_SIZE ≤ n * PAGE_SIZE < sz + BLOCK_SIZE + PAGE_SIZE) as Hn
    by (unfold n, BLOCK_SIZE, PAGE_SIZE; dlia). clearbody n.
  rewrite u32_small by lia. case_if; [exists (-1), st; split; [done|]; by right|].
  rewrite Z.div_mul by done.
  assert (0 ≤ n) by (unfold PAGE_SIZE, BLOCK_SIZE in *; lia).
  destruct (map_pages_spec (Z.to_nat n) 0 (env st) (heap_end st) F M M Ho) as (ok & e' & E1 & Hres);
    [done|lia| |].
  { intros i Hi. unfold PAGE_SIZE in *.
    assert (heap_page (heap_end st + Z.of_nat i * 4096)) as Hpage
      by (split; [unfold PAGE_SIZE; dlia|lia]).
    split; [by apply heap_page_kernel|]. apply eq_None_not_Some. rewrite Hmp by done. lia. }
  rewrite E1. cbn [mbind outcome_bind]. destruct ok; cbn [negb].
  - destruct Hres as (M' & Ho' & HM & Hnew). cbn [Nat.add] in HM, Hnew.
    destruct (append_space_spec fuel (set_env st e') KERNEL_HEAP_START l (n * PAGE_SIZE)) as (b & E2 & Hc' & Hh' & He' & Hu' & Henv);
      try done; try (cbn [heap_end set_env]; unfold BLOCK_SIZE in *; lia).
    rewrite E2. cbn [mbind outcome_bind]. eexists 0, _. split; [done|]. left. split; [done|].
    destruct (extended_spec KERNEL_HEAP_START l (n * PAGE_SIZE) Hl Hadj) as (Hok & Hadj' & Hend' & _ & Hsum & l1 & s & Hex & _);
      [unfold BLOCK_SIZE in *; lia|unfold PAGE_SIZE; dlia|].
    exists M', (n * PAGE_SIZE). split; [unfold PAGE_SIZE; dlia|]. split; [done|]. split; [done|].
    constructor; try done.
    + rewrite Hh', Hex, ptr_to_app. by destruct l1.
    + rewrite He', Hend', He. done.
    + rewrite He'. cbn [heap_end set_env]. lia.
    + rewrite He'. cbn [heap_end set_env]. unfold PAGE_SIZE in *. dlia.
    + rewrite Hu', Hsum. done.
    + by rewrite Henv.
    + apply (mapped_grow st _ M M' (Z.to_nat n)); try done.
      * lia.
      * rewrite He'. cbn [heap_end set_env]. by rewrite Z2Nat.id.
  - exists (-1), (set_env st e'). split; [done|]. right. split; [done|]. by constructor.
Qed.

(** ** Operations on the invariant *)

(** The state [st] holds the allocations [L]. *)
Definition heap_inv (st : heap) (L : gmap Z Z) (F : gset Z) (M : gmap Z Z) : Prop :=
  ∃ l, heap_rep st l F M ∧ live KERNEL_HEAP_START l = L.

(** Enough fuel for a heap of at most [bytes] bytes: a block takes 32. *)
Definition enough (fuel : nat) (bytes : Z) : Prop := bytes < 32 * Z.of_nat fuel.

Lemma round_16 sz : 0 < sz ≤ KERNEL_HEAP_MAX_SIZE →
  let r := Z.land (u32 (sz + HEAP_ALIGN - 1)) (not32 (HEAP_ALIGN - 1)) in
  r mod 16 = 0 ∧ 16 ≤ r ≤ KERNEL_HEAP_MAX_SIZE ∧ sz ≤ r < sz + 16.
Proof.
  intros Hsz r. 
  assert (r = (sz + 15) / 16 * 16) as ->; [|dlia].
  unfold r. rewrite u32_small by lia.
  replace (sz + 16 - 1) with (sz + 15) by lia. apply (land_not32_mask 4); lia.
Qed.

Lemma kmalloc_step fuel st l F M sz :
  heap_rep st l F M → 0 < sz ≤ KERNEL_HEAP_MAX_SIZE →
  enough fuel (heap_end st - KERNEL_HEAP_START + sz + 2 * PAGE_SIZE) →
  ∃ p st' l' M', kmalloc fuel st sz = Ok (p, st') ∧ heap_rep st' l' F M' ∧
    heap_end st ≤ heap_end st' ∧
    ((p = 0 ∧ l' = l ∧ M' = M ∧ Forall (λ b, ¬ fits_block sz b) l) ∨
     (p ≠ 0 ∧ live KERNEL_HEAP_START l !! p = None ∧
      ∃ s, sz ≤ s < sz + 32 ∧ live KERNEL_HEAP_START l' = <[p := s]> (live KERNEL_HEAP_START l))).
Proof.
  intros Hrep Hsz Hfuel. unfold enough in Hfuel. pose proof (rep_bounds _ _ _ _ Hrep) as [Hlen _].
  unfold kmalloc. rewrite (proj2 (Z.eqb_neq sz 0)), Z.gtb_ltb, (proj2 (Z.ltb_ge _ _)) by lia.
  cbn [orb]. destruct (round_16 sz Hsz) as (Hr1 & Hr2 & Hr3). set (r := Z.land _ _) in *. clearbody r.
  assert (∀ st' l' M' p s, heap_rep st' l' F M' → r ≤ s < r + 32 →
    live KERNEL_HEAP_START l' = <[p := s]> (live KERNEL_HEAP_START l) → sz ≤ s < sz + 32) as Hround.
  { intros st' l' M' p s Hrep' Hs Heq.
    assert (live KERNEL_HEAP_START l' !! p = Some s) as Hp by (rewrite Heq; apply lookup_insert_eq).
    apply live_range in Hp as (_ & _ & _ & Hmod); [|by eapply rep_sizes]. dlia. }
  destruct (take_first_fit_spec fuel st l F M r Hrep)
    as [[E1 Hno]|(p & s & st' & l' & E1 & Hrep' & He' & Hp & Hs & Hnone & Hlv)];
    [lia|done|unfold PAGE_SIZE in *; lia| |]; rewrite E1; cbn [mbind outcome_bind].
  2: { exists p, st', l', M. rewrite truth_nonzero by done.
       split; [done|]. split; [done|]. split; [lia|]. right. eauto 10. }
  cbn [truth Z.eqb negb].
  destruct (heap_grow_spec fuel st l F M r Hrep) as (rc & st1 & E2 & Hres); [lia|unfold PAGE_SIZE in *; lia|].
  rewrite E2. cbn [mbind outcome_bind].
  destruct Hres as [(-> & M' & bytes & Hb1 & Hb2 & He1 & Hrep1)|[-> Hrep1]]; cbn [Z.eqb].
  - destruct (extended_spec KERNEL_HEAP_START l bytes) as (_ & _ & _ & Hlv1 & _ & l1 & s1 & Hex & Hs1);
      [by eapply rep_sizes|by eapply rep_adjacent|unfold BLOCK_SIZE in *; lia|unfold PAGE_SIZE in *; dlia|].
    pose proof (rep_bounds _ _ _ _ Hrep1) as [Hlen1 _].
    destruct (take_first_fit_spec fuel st1 _ F M' r Hrep1)
      as [[E3 Hno1]|(p & s & st' & l' & E3 & Hrep' & He' & Hp & Hs & Hnone & Hlv)];
      [lia|done|unfold PAGE_SIZE, BLOCK_SIZE in *; lia| |]; rewrite E3.
    + exfalso. rewrite Hex in Hno1. apply Forall_app in Hno1 as [_ Hno1]. apply Forall_inv in Hno1.
      apply Hno1. split; [done|]. simpl. lia.
    + exists p, st', l', M'. rewrite Hlv1 in Hnone, Hlv.
      split; [done|]. split; [done|]. split; [unfold BLOCK_SIZE in *; lia|]. right. eauto 10.
  - exists 0, st1, l, M. split; [done|]. split; [done|]. split.
    + rewrite <- (rep_end _ _ _ _ Hrep), <- (rep_end _ _ _ _ Hrep1). done.
    + left. split_and!; try done. pose proof (rep_sizes _ _ _ _ Hrep) as Hok.
      apply Forall_forall. intros [u s] Hin [Hu Hs]. simpl in Hu, Hs. subst u.
      rewrite Forall_forall in Hno, Hok. apply (Hno _ Hin). split; [done|]. simpl.
      destruct (Hok _ Hin) as [_ Hm]. simpl in Hm. dlia.
Qed.

(** [kfree] of an allocation, up to the coalescing loop. *)
Lemma freed_rep st l1 s l2 F M :
  heap_rep st (l1 ++ (true, s) :: l2) F M →
  let b := end_of KERNEL_HEAP_START l1 in
  let st1 := set_magic st b MAGIC_FREE in
  let st2 := set_used st1 (u32 (used_bytes st1 - size (cells st1 b))) in
  chain (cells st2) KERNEL_HEAP_START (l1 ++ (false, s) :: l2) 0 ∧
  used_bytes st2 = used_sum (l1 ++ (false, s) :: l2).
Proof.
  intros Hrep b st1 st2. pose proof (rep_bounds _ _ _ _ Hrep) as [_ Hub].
  destruct Hrep as [Hc Hh He Hmax Hpg Hl Hadj Hused Ho Hmp].
  apply chain_app in Hc as [Hc1 (Hm & Hz & Hn & Hc2)]. fold b in Hc1, Hm, Hz, Hn, Hc2.
  apply Forall_app in Hl as [Hl1 [[Hs1 Hs2] Hl2]%Forall_cons]. simpl in Hs1, Hs2.
  pose proof (used_sum_bound 0 _ Hl1). pose proof (used_sum_bound 0 _ Hl2).
  rewrite used_sum_app in *. cbn [used_sum] in *.
  split.
  - apply chain_app. fold b. unfold st2, st1. split.
    + apply (chain_ext (cells st)); [done| |by destruct l1]. fold b. intros x Hx. cells_at. done.
    + cbn [chain ptr_to]. cells_at. split_and!; try done.
      apply (chain_ext (cells st)); [done| |done]. intros x Hx. cells_at. done.
  - unfold st2, st1. cells_at. cbn [size]. rewrite Hz, Hused. rewrite u32_small; lia.
Qed.

Lemma kfree_step fuel st l F M p s :
  heap_rep st l F M → live KERNEL_HEAP_START l !! p = Some s →
  enough fuel (heap_end st - KERNEL_HEAP_START) →
  ∃ st' l', kfree fuel st p = Ok st' ∧ heap_rep st' l' F M ∧ heap_end st' = heap_end st ∧
    live KERNEL_HEAP_START l' = delete p (live KERNEL_HEAP_START l).
Proof.
  intros Hrep Hp Hfuel. pose proof (rep_bounds _ _ _ _ Hrep) as [Hlen _]. unfold enough in Hfuel.
  pose proof (rep_sizes _ _ _ _ Hrep) as Hl. pose proof (live_range _ _ _ _ Hl Hp) as (Hlo & Hhi & _).
  rewrite (rep_end _ _ _ _ Hrep) in Hhi.
  destruct (live_split _ _ _ _ Hp) as (l1 & l2 & -> & ->).
  set (b := end_of KERNEL_HEAP_START l1) in *.
  destruct (freed_rep _ _ _ _ _ _ Hrep) as [Hc Hu]. fold b in Hc, Hu.
  apply Forall_app in Hl as Hl'. destruct Hl' as [Hl1 [Hs Hl2]%Forall_cons].
  assert (Forall size_ok (l1 ++ (false, s) :: l2)) as Hok
    by (apply Forall_app; split; [done|by constructor]).
  destruct (live_set KERNEL_HEAP_START l1 s l2 Hl) as [Hlv Hnone]. fold b in Hlv, Hnone.
  pose proof Hrep as [Hc0 Hh He Hmax Hpg _ _ _ Ho Hmp].
  apply chain_app in Hc0 as [_ (Hm & _)]. fold b in Hm.
  unfold kfree. rewrite (proj2 (Z.eqb_neq _ _)) by (unfold BLOCK_SIZE in *; lia).
  rewrite (proj2 (Z.ltb_ge _ _)), Z.geb_leb, (proj2 (Z.leb_gt _ _)) by (destruct Hs; unfold BLOCK_SIZE in *; simpl in *; lia).
  change (HEAP_ALIGN - 1) with (2 ^ 4 - 1). rewrite land_ones_mod by done.
  assert ((b + BLOCK_SIZE) mod 2 ^ 4 = 0) as ->.
  { pose proof (end_of_mod KERNEL_HEAP_START l1 Hl1 eq_refl) as Hmod. fold b in Hmod. unfold BLOCK_SIZE. dlia. }
  cbn [truth Z.eqb negb orb]. replace (b + BLOCK_SIZE - BLOCK_SIZE) with b by lia.
  rewrite Hm. cbn [magic_of]. change (MAGIC_USED =? MAGIC_FREE) with false. rewrite Z.eqb_refl. cbn [negb].
  set (st2 := set_used _ _) in *.
  assert (heap_head st2 = ptr_to KERNEL_HEAP_START (l1 ++ (false, s) :: l2) 0) as Hh2.
  { rewrite ptr_to_app. transitivity (heap_head st); [done|]. by rewrite Hh, ptr_to_app. }
  assert (end_of KERNEL_HEAP_START (l1 ++ (false, s) :: l2) = heap_end st) as He2.
  { rewrite <- He, !end_of_app. done. }
  rewrite Hh2. destruct (coalesce_spec fuel st2 KERNEL_HEAP_START (l1 ++ (false, s) :: l2))
    as (st' & E1 & Hc' & _ & Hh' & He' & Hu' & Henv'); try done.
  { rewrite He2. lia. }
  { rewrite length_app in *. simpl in *. unfold PAGE_SIZE in *. lia. }
  exists st', (merge (l1 ++ (false, s) :: l2)). split; [done|]. split; [|split; [done|]].
  - constructor; try (rewrite He'; done).
    + done.
    + by rewrite Hh', Hh2, merge_ptr_to.
    + by rewrite end_of_merge, He', He2.
    + by apply merge_size_ok.
    + apply no_adjacent_free_merge.
    + by rewrite Hu', used_sum_merge.
    + by rewrite Henv'.
  - rewrite live_merge, Hlv. by rewrite delete_insert_id.
Qed.

Lemma coalesce_magic fuel st c st' x :
  coalesce fuel st c = Ok st' → magic (cells st' x) = magic (cells st x).
Proof.
  revert st c. induction fuel as [|fuel IH]; intros st c; [done|]. cbn [coalesce].
  case_if; [by intros [= <-]|]. case_if; intros ->%IH; [|done].
  unfold set_next, set_size. cbn [cells set_cell].
  destruct (Z.eqb_spec x c) as [->|]; [|done]. by rewrite Z.eqb_refl.
Qed.

Lemma coalesce_no_panic fuel st c msg : coalesce fuel st c ≠ Panic msg.
Proof.
  revert st c. induction fuel as [|fuel IH]; intros st c; [done|]. cbn [coalesce].
  case_if; [done|]. case_if; apply IH.
Qed.

Lemma align_16 p : truth (Z.land p (HEAP_ALIGN - 1)) = negb (p mod 16 =? 0).
Proof. unfold truth. change (HEAP_ALIGN - 1) with (2 ^ 4 - 1). by rewrite land_ones_mod. Qed.

Lemma live_disjoint a l p s q t :
  Forall size_ok l → live a l !! p = Some s → live a l !! q = Some t → p < q → p + s + BLOCK_SIZE ≤ q.
Proof.
  intros Hl. revert a. induction Hl as [|[u r] l [Hr ?] Hl IH]; intros a; simpl; [done|].
  simpl in Hr. destruct u; [|apply IH].
  rewrite !lookup_insert_Some. intros [[<- <-]|[? Hp]] [[<- <-]|[? Hq]] Hlt; try lia.
  - apply live_range in Hq; [|done]. unfold BLOCK_SIZE in *. lia.
  - apply live_range in Hp; [|done]. unfold BLOCK_SIZE in *. lia.
  - by apply (IH _ Hp Hq).
Qed.

Lemma check_from_spec fuel st a l :
  chain (cells st) a l 0 → Forall size_ok l → no_adjacent_free l → 0 < a →
  end_of a l = heap_end st → heap_end st < 2 ^ 32 → (length l < fuel)%nat →
  check_from fuel st (ptr_to a l 0) a = Ok 0.
Proof.
  intros Hc Hl. revert a fuel Hc.
  induction Hl as [|[u s] l [Hs1 Hs2] Hl IH]; intros a [|fuel] Hc Hadj Ha He Hmax Hf; simpl in Hf; try lia.
  { cbn [ptr_to check_from Z.eqb]. simpl in He. by rewrite (proj2 (Z.eqb_eq _ _) He). }
  destruct Hc as (Hm & Hz & Hn & Hc). simpl in Hs1, Hs2, He.
  pose proof (end_of_mono (a + BLOCK_SIZE + s) l Hl) as Hmono.
  cbn [ptr_to check_from]. rewrite (proj2 (Z.eqb_neq a 0)) by lia. rewrite Z.eqb_refl, Hm, Hz, Hn.
  change HEAP_ALIGN with 16. rewrite Hs2. cbn [negb truth Z.eqb orb].
  rewrite u32_small by (unfold BLOCK_SIZE in *; lia).
  assert (no_adjacent_free l ∧ (magic_of u =? MAGIC_FREE) && truth (ptr_to (a + BLOCK_SIZE + s) l 0) &&
    (magic (cells st (ptr_to (a + BLOCK_SIZE + s) l 0)) =? MAGIC_FREE) = false) as [Hadj' Hcond].
  { destruct u; [done|]. destruct l as [|[[] t] l]; [done| |done].
    split; [done|]. cbn [ptr_to]. destruct Hc as [-> _]. by rewrite !andb_false_r. }
  rewrite Hcond. destruct u; cbn -[BLOCK_SIZE]; apply IH; try done; unfold BLOCK_SIZE in *; lia.
Qed.

(** ** Runs of the heap

    [R] maps each pointer the kernel holds to the size it asked for. Between
    calls the kernel writes into the payloads it holds. *)
Inductive heap_step : heap * gmap Z Z → heap * gmap Z Z → Prop :=
| step_kmalloc st R sz fuel p st' :
    0 ≤ sz < 2 ^ 32 → enough fuel (heap_end st - KERNEL_HEAP_START + sz + 2 * PAGE_SIZE) →
    kmalloc fuel st sz = Ok (p, st') →
    heap_step (st, R) (st', if p =? 0 then R else <[p := sz]> R)
| step_kfree st R p fuel st' :
    is_Some (R !! p) → enough fuel (heap_end st - KERNEL_HEAP_START) →
    kfree fuel st p = Ok st' →
    heap_step (st, R) (st', delete p R)
| step_write st R p sz a b :
    R !! p = Some sz → a mod HEAP_ALIGN = 0 → p ≤ a < p + sz →
    heap_step (st, R) (set_cell st a b, R).

(** The allocations serve the requests. *)
Definition serves (L R : gmap Z Z) : Prop :=
  map_relation (λ _ s sz, 0 < sz ≤ s) (λ _ _, False) (λ _ _, False) L R.

Definition heap_good (F : gset Z) (s : heap * gmap Z Z) : Prop :=
  ∃ L M, heap_inv s.1 L F M ∧ serves L s.2.

Lemma serves_insert L R p s sz : 0 < sz ≤ s → serves L R → serves (<[p := s]> L) (<[p := sz]> R).
Proof.
  intros Hsz Hs q. specialize (Hs q). destruct (decide (p = q)) as [->|].
  - by rewrite !lookup_insert_eq.
  - by rewrite !lookup_insert_ne.
Qed.

Lemma serves_delete L R p : serves L R → serves (delete p L) (delete p R).
Proof.
  intros Hs q. specialize (Hs q). destruct (decide (p = q)) as [->|].
  - by rewrite !lookup_delete_eq.
  - by rewrite !lookup_delete_ne.
Qed.

Lemma serves_lookup L R p sz : serves L R → R !! p = Some sz → ∃ s, L !! p = Some s ∧ 0 < sz ≤ s.
Proof. intros Hs Hp. specialize (Hs p). rewrite Hp in Hs. destruct (L !! p); naive_solver. Qed.

(** A write into a payload touches no header. *)
Lemma chain_write st a l nx p s x b :
  chain (cells st) a l nx → Forall size_ok l → live a l !! p = Some s → p ≤ x < p + s →
  chain (cells (set_cell st x b)) a l nx.
Proof.
  intros Hc Hl Hp Hx. destruct (live_split _ _ _ _ Hp) as (l1 & l2 & -> & ->).
  apply chain_app in Hc as [Hc1 (Hm & Hz & Hn & Hc2)].
  apply Forall_app in Hl as [Hl1 [[Hs1 Hs2] Hl2]%Forall_cons]. simpl in Hs1, Hs2.
  apply chain_app. split.
  - apply (chain_ext (cells st)); [done| |by destruct l1]. intros y Hy. cells_at. done.
  - cbn [chain]. cells_at. split_and!; try done.
    apply (chain_ext (cells st)); [done| |done]. intros y Hy. cells_at. done.
Qed.

Lemma heap_good_step F s s' : heap_good F s → heap_step s s' → heap_good F s'.
Proof.
  intros (L & M & (l & Hrep & HL) & Hs) Hstep.
  destruct Hstep as [st R sz fuel p st' Hsz Hf Hk|st R p fuel st' Hp Hf Hk|st R p sz a b Hp Ha Hr]; simpl in *.
  - destruct (decide (0 < sz ≤ KERNEL_HEAP_MAX_SIZE)) as [Hsz'|Hsz'].
    + destruct (kmalloc_step fuel st l F M sz Hrep Hsz' Hf)
        as (p' & st'' & l' & M' & E1 & Hrep' & _ & [(-> & -> & -> & _)|(Hp & _ & s & Hs' & HL')]);
        rewrite E1 in Hk; simplify_eq.
      * exists (live KERNEL_HEAP_START l), M. split; [by exists l|done].
      * rewrite (proj2 (Z.eqb_neq _ _)) by done.
        exists (live KERNEL_HEAP_START l'), M'. split; [by exists l'|]. simpl. rewrite HL'.
        apply serves_insert; [lia|done].
    + unfold kmalloc in Hk.
      replace ((sz =? 0) || (sz >? KERNEL_HEAP_MAX_SIZE)) with true in Hk
        by (symmetry; apply orb_true_iff; rewrite Z.eqb_eq, Z.gtb_lt; lia).
      simplify_eq. exists (live KERNEL_HEAP_START l), M. split; [by exists l|done].
  - destruct Hp as [sz Hp]. destruct (serves_lookup _ _ _ _ Hs Hp) as (s & Hs' & _). subst L.
    destruct (kfree_step fuel st l F M p s Hrep Hs' Hf) as (st'' & l' & E1 & Hrep' & _ & HL').
    rewrite E1 in Hk. simplify_eq. exists (live KERNEL_HEAP_START l'), M.
    split; [by exists l'|]. simpl. rewrite HL'. by apply serves_delete.
  - destruct (serves_lookup _ _ _ _ Hs Hp) as (s & Hs' & ?). subst L.
    exists (live KERNEL_HEAP_START l), M. split; [|done]. exists l. split; [|done].
    destruct Hrep. constructor; try done. apply chain_write with p s; try done. lia.
Qed.

Lemma heap_check_ok fuel st L F M :
  heap_inv st L F M → enough fuel (heap_end st - KERNEL_HEAP_START) → heap_check fuel st = Ok 0.
Proof.
  intros (l & Hrep & _) Hf. pose proof (rep_bounds _ _ _ _ Hrep) as [Hlen _]. unfold enough in Hf.
  destruct Hrep as [Hc Hh He Hmax Hpg Hl Hadj Hused Ho Hmp].
  unfold heap_check. rewrite Hh. apply check_from_spec; try done.
  - lia.
  - lia.
Qed.

Lemma heap_init_inv st F M :
  owns (env st) F M → used_bytes st = 0 → (∀ va, heap_page va → M !! va = None) →
  heap_inv (heap_init st) ∅ F M.
Proof.
  intros Ho Hu HM. exists []. split; [|done]. constructor; try done.
  intros va Hva. rewrite HM by done. destruct Hva as [_ ?]. split; [by intros []|]. cbn. lia.
Qed.

(** ** Theorems *)

(** C40: over every run of [kmalloc], [kfree] and writes into held payloads
    from [heap_init], [heap_check] finds the heap consistent, the pointers
    held are 16-byte aligned and their payloads lie inside the mapped heap,
    as large as requested and pairwise disjoint, every one of them can be
    freed without a panic, and no frame is lost: the heap holds the frames it
    held at the start and those of its mapped pages. *)
Theorem heap_run_safe st0 F M0 st R fuel :
  owns (env st0) F M0 → (∀ va, heap_page va → M0 !! va = None) → used_bytes st0 = 0 →
  rtc heap_step (heap_init st0, ∅) (st, R) →
  enough fuel (heap_end st - KERNEL_HEAP_START) →
  heap_check fuel st = Ok 0 ∧
  (∃ M, owns (env st) F M ∧ ∀ va, heap_page va → (is_Some (M !! va) ↔ va < heap_end st)) ∧
  (∀ p sz, R !! p = Some sz →
    p mod HEAP_ALIGN = 0 ∧ KERNEL_HEAP_START + BLOCK_SIZE ≤ p ∧ p + sz ≤ heap_end st ∧
    ∃ st', kfree fuel st p = Ok st') ∧
  (∀ p sz q sz', R !! p = Some sz → R !! q = Some sz' → p < q → p + sz ≤ q - BLOCK_SIZE).
Proof.
  intros Ho HM0 Hu Hrun Hf.
  assert (heap_good F (st, R)) as (L & M & Hinv & Hs).
  { apply (rtc_ind_r (R := heap_step) (λ s, heap_good F s) (heap_init st0, ∅)); [| |done].
    - exists ∅, M0. split; [by apply heap_init_inv|]. intros p. by rewrite !lookup_empty.
    - intros s s' _ Hstep IH. by eapply heap_good_step. }
  simpl in *. split; [by eapply heap_check_ok|]. destruct Hinv as (l & Hrep & <-).
  pose proof (rep_sizes _ _ _ _ Hrep) as Hl. split; [|split].
  - exists M. split; [by eapply rep_owns|by eapply rep_mapped].
  - intros p sz Hp. destruct (serves_lookup _ _ _ _ Hs Hp) as (s & Hs' & ?).
    pose proof (live_range _ _ _ _ Hl Hs') as (? & ? & _). rewrite (rep_end _ _ _ _ Hrep) in *.
    destruct (live_split _ _ _ _ Hs') as (l1 & l2 & -> & Hpe).
    apply Forall_app in Hl as [Hl1 _]. pose proof (end_of_mod KERNEL_HEAP_START l1 Hl1 eq_refl).
    split; [unfold BLOCK_SIZE in *; dlia|]. split; [done|]. split; [lia|].
    destruct (kfree_step fuel st _ F M p s Hrep Hs' Hf) as (st' & _ & ? & _). eauto.
  - intros p sz q sz' Hp Hq Hlt. destruct (serves_lookup _ _ _ _ Hs Hp) as (s & Hs1 & ?).
    destruct (serves_lookup _ _ _ _ Hs Hq) as (t & Hs2 & ?).
    pose proof (live_disjoint _ _ _ _ _ _ Hl Hs1 Hs2 Hlt). lia.
Qed.

(** [kmalloc] terminates and implements insertion into the map of
    allocations: it returns NULL and leaves allocations, mapped pages and
    frames as they were (then no free block was large enough), or it returns
    a fresh address and adds an allocation of the size asked for, rounded up
    by less than 32 bytes. *)
Theorem kmalloc_refines st L F M sz fuel :
  heap_inv st L F M → 0 < sz ≤ KERNEL_HEAP_MAX_SIZE →
  enough fuel (heap_end st - KERNEL_HEAP_START + sz + 2 * PAGE_SIZE) →
  ∃ p st' L' M', kmalloc fuel st sz = Ok (p, st') ∧ heap_inv st' L' F M' ∧
    ((p = 0 ∧ L' = L ∧ M' = M ∧ heap_end st' = heap_end st) ∨
     (p ≠ 0 ∧ L !! p = None ∧ ∃ s, sz ≤ s < sz + 32 ∧ L' = <[p := s]> L)).
Proof.
  intros (l & Hrep & <-) Hsz Hf.
  destruct (kmalloc_step fuel st l F M sz Hrep Hsz Hf)
    as (p & st' & l' & M' & E1 & Hrep' & _ & Hcase).
  exists p, st', (live KERNEL_HEAP_START l'), M'. split; [done|]. split; [by exists l'|].
  destruct Hcase as [(-> & -> & -> & _)|(? & ? & ?)]; [left|right; eauto].
  split_and!; try done.
  by rewrite <- (rep_end _ _ _ _ Hrep), <- (rep_end _ _ _ _ Hrep').
Qed.

(** [kfree] of an allocation terminates, removes exactly it from the map
    of allocations and keeps the tiling without adjacent free blocks; a
    second [kfree] of the same pointer panics, whether or not the block was
    merged with its neighbours. *)
Theorem kfree_refines st L F M p s fuel fuel' :
  heap_inv st L F M → L !! p = Some s → enough fuel (heap_end st - KERNEL_HEAP_START) →
  ∃ st', kfree fuel st p = Ok st' ∧ heap_inv st' (delete p L) F M ∧
    kfree fuel' st' p = Panic "kfree: double free".
Proof.
  intros (l & Hrep & <-) Hp Hf.
  destruct (kfree_step fuel st l F M p s Hrep Hp Hf) as (st' & l' & E1 & Hrep' & He' & HL').
  exists st'. split; [done|]. split; [by exists l'|].
  pose proof (live_range _ _ _ _ (rep_sizes _ _ _ _ Hrep) Hp) as [Hlo _].
  unfold kfree in *. rewrite He'.
  rewrite (proj2 (Z.eqb_neq p 0)) in * by (lia).
  destruct (_ || _); [done|]. destruct (magic _ =? _); [done|]. destruct (negb _); [done|].
  apply coalesce_magic with (x := p - BLOCK_SIZE) in E1. rewrite E1.
  unfold set_used, set_magic. cbn [cells set_cell]. by rewrite Z.eqb_refl.
Qed.

(** [kfree] ignores NULL and panics on a pointer that is below the heap,
    at or above its end, or not 16-byte aligned; on any other pointer that is
    not the start of a used block's payload it panics unless the 16 bytes
    before it happen to hold the mark of a used block. *)
Theorem kfree_rejects fuel st p :
  match kfree fuel st p with
  | Panic _ =>
      p ≠ 0 ∧ (p < KERNEL_HEAP_START + BLOCK_SIZE ∨ heap_end st ≤ p ∨ p mod HEAP_ALIGN ≠ 0 ∨
               magic (cells st (p - BLOCK_SIZE)) ≠ MAGIC_USED)
  | _ =>
      p = 0 ∨ (KERNEL_HEAP_START + BLOCK_SIZE ≤ p < heap_end st ∧ p mod HEAP_ALIGN = 0 ∧
               magic (cells st (p - BLOCK_SIZE)) = MAGIC_USED)
  end.
Proof.
  unfold kfree. rewrite align_16. change HEAP_ALIGN with 16.
  destruct (Z.eqb_spec p 0) as [->|Hp]; [by left|].
  destruct (_ || _) eqn:E1.
  { split; [done|]. rewrite !orb_true_iff, negb_true_iff, Z.ltb_lt, Z.geb_le, Z.eqb_neq in E1. tauto. }
  zbool. destruct (Z.eqb_spec (magic (cells st (p - BLOCK_SIZE))) MAGIC_FREE) as [Hm|Hm].
  { split; [done|]. rewrite Hm. do 3 right. done. }
  destruct (Z.eqb_spec (magic (cells st (p - BLOCK_SIZE))) MAGIC_USED) as [Hu|Hu]; cbn [negb]; [|tauto].
  destruct (coalesce _ _ _) eqn:E2; [right; tauto| |right; tauto].
  by apply coalesce_no_panic in E2.
Qed.

End heap.

Arguments heap E : clear implicits.
