(* ===== verification/Kpages.v ===== *)
(** * Kernel pages and kernel stacks ([zkt/mm/kpage.c], [zkt/mm/kstack.c])

    Both hand out fixed slots of an address range and back them with frames
    through the [FrameMapper] interface. The theorems say which slot is taken
    and which pages are mapped, that the guard page below a stack never is,
    and that a failed allocation gives back every frame it took. *)
From S2P Require Import Prelude Pmm FrameMapper.
Local Open Scope Z_scope.

Abbreviation KERNEL_STACKS_START := 0xE1000000%Z (only parsing).
Abbreviation KERNEL_STACKS_SIZE := 0x01000000%Z (only parsing).
Abbreviation KERNEL_PAGES_START := 0xE2000000%Z (only parsing).
Abbreviation KERNEL_PAGES_SIZE := 0x01000000%Z (only parsing).
Definition KSTACK_PAGES : Z := 2.
Abbreviation KSTACK_SIZE := (KSTACK_PAGES * PAGE_SIZE)%Z (only parsing).
Abbreviation SLOTS := (KERNEL_PAGES_SIZE / PAGE_SIZE)%Z (only parsing).
Definition SLOT_SIZE : Z := (KSTACK_PAGES + 1) * PAGE_SIZE.
Definition SLOT_COUNT : Z := KERNEL_STACKS_SIZE / SLOT_SIZE.

(** The slot at which a scan [for (i = 0; i < n; i++) if (used[i]) continue; ...; break;] stops. *)
Fixpoint first_unused (used : list bool) (i : Z) : option Z :=
  match used with
  | [] => None
  | true :: used => first_unused used (i + 1)
  | false :: _ => Some i
  end.

Section kpages.
Context {E : Type} `{FrameMapper E}.

(** ** Kernel pages *)

Record kpages := Kpages { kp_used : list bool; kp_env : E }.

(** [Some (va, phys)], or [None] for NULL. *)
Definition kpage_alloc (st : kpages) : outcome (option (Z * Z) * kpages) :=
  match first_unused (kp_used st) 0 with
  | None => Ok (None, st)
  | Some i =>
      let va := KERNEL_PAGES_START + i * PAGE_SIZE in
      let '(frame, e) := fm_alloc_frame (kp_env st) in
      if frame =? 0 then Ok (None, Kpages (kp_used st) e)
      else
        fm_map_page e va frame VMM_WRITABLE ≫= λ '(rc, e),
        if negb (rc =? 0) then
          fm_free_frame e frame ≫= λ e, Ok (None, Kpages (kp_used st) e)
        else Ok (Some (va, frame), Kpages (aset (kp_used st) i true) e)
  end.

Definition kpage_free (st : kpages) (va : Z) : outcome kpages :=
  let i := u32 (va - KERNEL_PAGES_START) / PAGE_SIZE in
  if (va <? KERNEL_PAGES_START) || truth (va mod PAGE_SIZE) || (i >=? SLOTS)
     || negb (aget false (kp_used st) i)
  then Panic "kpage_free: not a live kernel page"
  else
    fm_unmap_page (kp_env st) va ≫= λ '(r, e),
    match r with
    | None => Panic "kpage_free: not a live kernel page"
    | Some phys => fm_free_frame e phys ≫= λ e, Ok (Kpages (aset (kp_used st) i false) e)
    end.

(** ** Kernel stacks *)

Record kstacks := Kstacks { slot_used : list bool; ks_env : E }.

Definition slot_stack_base (slot : Z) : Z := KERNEL_STACKS_START + slot * SLOT_SIZE + PAGE_SIZE.

(** The loop of [unmap_and_free] from page [i], [n] pages to go. *)
Fixpoint unmap_and_free (n : nat) (i : Z) (e : E) (base : Z) : outcome E :=
  match n with
  | O => Ok e
  | S n =>
      fm_unmap_page e (base + i * PAGE_SIZE) ≫= λ '(r, e),
      match r with
      | Some phys => fm_free_frame e phys ≫= λ e, unmap_and_free n (i + 1) e base
      | None => unmap_and_free n (i + 1) e base
      end
  end.

(** The loop of [map_stack] from page [i], [n] pages to go. *)
Fixpoint map_stack_from (n : nat) (i : Z) (e : E) (base : Z) : outcome (bool * E) :=
  match n with
  | O => Ok (true, e)
  | S n =>
      let '(frame, e) := fm_alloc_frame e in
      if truth frame then
        fm_map_page e (base + i * PAGE_SIZE) frame VMM_WRITABLE ≫= λ '(rc, e),
        if rc =? 0 then map_stack_from n (i + 1) e base
        else
          fm_free_frame e frame ≫= λ e,
          unmap_and_free (Z.to_nat i) 0 e base ≫= λ e, Ok (false, e)
      else unmap_and_free (Z.to_nat i) 0 e base ≫= λ e, Ok (false, e)
  end.

Definition map_stack (e : E) (base : Z) : outcome (bool * E) :=
  map_stack_from (Z.to_nat KSTACK_PAGES) 0 e base.

Definition kstack_alloc (st : kstacks) : outcome (Z * kstacks) :=
  match first_unused (slot_used st) 0 with
  | None => Ok (0, st)
  | Some slot =>
      map_stack (ks_env st) (slot_stack_base slot) ≫= λ '(ok, e),
      if ok : bool then Ok (slot_stack_base slot + KSTACK_SIZE, Kstacks (aset (slot_used st) slot true) e)
      else Ok (0, Kstacks (slot_used st) e)
  end.

Definition kstack_free (st : kstacks) (top : Z) : outcome kstacks :=
  let offset := u32 (top - KSTACK_SIZE - PAGE_SIZE - KERNEL_STACKS_START) in
  let slot := offset / SLOT_SIZE in
  if (top <? KERNEL_STACKS_START + SLOT_SIZE) || truth (offset mod SLOT_SIZE)
     || (slot >=? SLOT_COUNT) || negb (aget false (slot_used st) slot)
  then Panic "kstack_free: not the top of a live kernel stack"
  else
    unmap_and_free (Z.to_nat KSTACK_PAGES) 0 (ks_env st) (slot_stack_base slot) ≫= λ e,
    Ok (Kstacks (aset (slot_used st) slot false) e).

(** ** Invariants *)

Context `{!FrameMapperLaws E}.

Definition kpage_va (i : Z) : Z := KERNEL_PAGES_START + i * PAGE_SIZE.

Record kpages_ok (st : kpages) (F : gset Z) (M : gmap Z Z) : Prop := {
  kp_length : Z.of_nat (length (kp_used st)) = SLOTS;
  kp_owns : owns (kp_env st) F M;
  kp_slots i : 0 ≤ i < SLOTS → (is_Some (M !! kpage_va i) ↔ aget false (kp_used st) i = true)
}.

(** Page [i] of the stack in [slot]; page -1 is the guard. *)
Definition stack_va (slot i : Z) : Z := slot_stack_base slot + i * PAGE_SIZE.

Record kstacks_ok (st : kstacks) (F : gset Z) (M : gmap Z Z) : Prop := {
  ks_length : Z.of_nat (length (slot_used st)) = SLOT_COUNT;
  ks_owns : owns (ks_env st) F M;
  ks_slots slot i : 0 ≤ slot < SLOT_COUNT → 0 ≤ i < KSTACK_PAGES →
    (is_Some (M !! stack_va slot i) ↔ aget false (slot_used st) slot = true);
  ks_guard slot : 0 ≤ slot < SLOT_COUNT → M !! stack_va slot (-1) = None
}.

Lemma first_unused_spec used i :
  match first_unused used i with
  | Some k => i ≤ k < i + Z.of_nat (length used) ∧ aget true used (k - i) = false ∧
      ∀ k', i ≤ k' < k → aget true used (k' - i) = true
  | None => ∀ k, i ≤ k < i + Z.of_nat (length used) → aget true used (k - i) = true
  end.
Proof.
  revert i. induction used as [|[] used IH]; intros i; cbn [first_unused length].
  - intros k Hk. lia.
  - assert (∀ k, i < k → aget true (true :: used) (k - i) = aget true used (k - (i + 1))) as Hshift.
    { intros k Hk. unfold aget. rewrite !(proj2 (Z.ltb_ge _ _)) by lia.
      replace (Z.to_nat (k - i)) with (S (Z.to_nat (k - (i + 1)))) by lia. done. }
    specialize (IH (i + 1)). destruct (first_unused used (i + 1)) as [k|].
    + destruct IH as (Hk & Hf & Ht). split; [lia|]. rewrite Hshift by lia. split; [done|].
      intros k' Hk'. destruct (decide (k' = i)) as [->|]; [by rewrite Z.sub_diag|].
      rewrite Hshift by lia. apply Ht. lia.
    + intros k Hk. destruct (decide (k = i)) as [->|]; [by rewrite Z.sub_diag|].
      rewrite Hshift by lia. apply IH. lia.
  - split; [lia|]. rewrite Z.sub_diag. split; [done|]. intros. lia.
Qed.

Lemma first_unused_Some used i :
  first_unused used 0 = Some i →
  0 ≤ i < Z.of_nat (length used) ∧ aget false used i = false ∧ ∀ k, 0 ≤ k < i → aget false used k = true.
Proof.
  intros Hf. pose proof (first_unused_spec used 0) as Hs. rewrite Hf in Hs.
  destruct Hs as (Hi & Hu & Hlow). rewrite Z.sub_0_r in Hu. split; [lia|]. split.
  - rewrite <- Hu. apply aget_any. lia.
  - intros k Hk. rewrite <- (Hlow k) by lia. rewrite Z.sub_0_r. apply aget_any. lia.
Qed.

Lemma kpage_va_kernel i : 0 ≤ i < SLOTS → kernel_page (kpage_va i).
Proof.
  change SLOTS with 4096. unfold kernel_page, kpage_va, PAGE_SIZE, KERNEL_VIRT_BASE.
  intros Hi. split; [dlia|lia].
Qed.

Lemma kpage_va_inj i k : kpage_va i = kpage_va k → i = k.
Proof. unfold kpage_va, PAGE_SIZE. lia. Qed.

(** Slot [i] changes to [b] and its page to [o]. *)
Lemma kpages_update st e' F M M' i (b : bool) :
  kpages_ok st F M → owns e' F M' → 0 ≤ i < SLOTS →
  (is_Some (M' !! kpage_va i) ↔ b = true) → (∀ va, va ≠ kpage_va i → M' !! va = M !! va) →
  kpages_ok (Kpages (aset (kp_used st) i b) e') F M'.
Proof.
  intros [Hl Ho Hs] Ho' Hi Hb Hother. constructor; [|done|].
  - cbn [kp_used]. by rewrite length_aset.
  - intros k Hk. cbn [kp_used]. destruct (decide (k = i)) as [->|Hne].
    + rewrite aget_aset_eq by lia. done.
    + rewrite aget_aset_ne by lia. rewrite Hother by (intros ?%kpage_va_inj; done). by apply Hs.
Qed.

(** [kpage_alloc] maps a frame at the lowest free slot, or returns NULL
    with no slot, page or frame taken. *)
Theorem kpage_alloc_spec st F M :
  kpages_ok st F M →
  ∃ r st' M', kpage_alloc st = Ok (r, st') ∧ kpages_ok st' F M' ∧
    match r with
    | None => M' = M ∧ kp_used st' = kp_used st
    | Some (va, phys) => ∃ i, 0 ≤ i < SLOTS ∧ va = kpage_va i ∧ aget false (kp_used st) i = false ∧
        (∀ k, 0 ≤ k < i → aget false (kp_used st) k = true) ∧ M' = <[va := phys]> M
    end.
Proof.
  intros Hok. pose proof Hok as [Hl Ho Hs]. unfold kpage_alloc.
  destruct (first_unused (kp_used st) 0) as [i|] eqn:Ef; [|by exists None, st, M].
  apply first_unused_Some in Ef as (Hi & Hu & Hlow). fold (kpage_va i).
  destruct (alloc_law (kp_env st) F M Ho) as (f & e1 & E1 & [[-> Ho1]|(Hf & Hfresh & Ho1)]); rewrite E1.
  { exists None, (Kpages (kp_used st) e1), M. split; [done|]. split; [by constructor|done]. }
  rewrite (proj2 (Z.eqb_neq f 0)) by done.
  assert (M !! kpage_va i = None) as Hnone.
  { apply eq_None_not_Some. rewrite Hs by lia. by rewrite Hu. }
  destruct (map_law e1 _ M (kpage_va i) f Ho1 ltac:(set_solver)) as (rc & e2 & E2 & [[-> Ho2]|[Hrc Ho2]]);
    [apply kpage_va_kernel; lia|done| |]; rewrite E2; cbn [mbind outcome_bind].
  - cbn [Z.eqb negb]. replace (({[f]} ∪ F) ∖ {[f]}) with F in Ho2 by set_solver.
    eexists (Some (kpage_va i, f)), _, (<[kpage_va i := f]> M). split; [done|]. split.
    + eapply kpages_update; [done|done|lia| |].
      * rewrite lookup_insert_eq. split; [done|]. eauto.
      * intros va Hne. by rewrite lookup_insert_ne.
    + exists i. split; [lia|]. done.
  - rewrite (proj2 (Z.eqb_neq rc 0)) by done. cbn [negb].
    destruct (free_law e2 _ _ f Ho2) as (e3 & E3 & Ho3); [set_solver|]. rewrite E3.
    replace (({[f]} ∪ F) ∖ {[f]}) with F in Ho3 by set_solver.
    exists None, (Kpages (kp_used st) e3), M. split; [done|]. split; [by constructor|done].
Qed.

(** [kpage_free] unmaps the page of a live slot and gives its frame
    back; it panics on any other address. *)
Theorem kpage_free_spec st F M va :
  kpages_ok st F M → 0 ≤ va < 2 ^ 32 →
  match kpage_free st va with
  | Ok st' => ∃ i, 0 ≤ i < SLOTS ∧ va = kpage_va i ∧ aget false (kp_used st) i = true ∧
      kp_used st' = aset (kp_used st) i false ∧ kpages_ok st' F (delete va M)
  | Panic _ => ∀ i, 0 ≤ i < SLOTS → va = kpage_va i → aget false (kp_used st) i = false
  | NoFuel => False
  end.
Proof.
  intros Hok Hva. pose proof Hok as [Hl Ho Hs]. unfold kpage_free.
  set (i := u32 (va - KERNEL_PAGES_START) / PAGE_SIZE).
  assert (∀ k, 0 ≤ k < SLOTS → va = kpage_va k → i = k) as Hidx.
  { intros k Hk ->. unfold i, kpage_va. replace (_ + _ - _) with (k * PAGE_SIZE) by lia.
    change SLOTS with 4096 in Hk. rewrite u32_small by (unfold PAGE_SIZE; lia). by apply Z.div_mul. }
  destruct (_ || _) eqn:Eb.
  - intros k Hk Heq. specialize (Hidx k Hk Heq). subst k.
    destruct (aget false (kp_used st) i); [|done]. exfalso.
    rewrite Z.geb_leb, !orb_true_iff, Z.ltb_lt, truth_true_iff, Z.leb_le in Eb.
    destruct (kpage_va_kernel i Hk) as [Hm _]. rewrite <- Heq in Hm.
    unfold kpage_va, PAGE_SIZE in Heq. destruct Eb as [[[?|?]|?]|?]; try done; lia.
  - apply orb_false_iff in Eb as [[[E1 E2]%orb_false_iff E3]%orb_false_iff E4%negb_false_iff].
    apply truth_false_iff in E2. rewrite Z.geb_leb in E3. zbool.
    assert (0 ≤ i ∧ va = kpage_va i) as [Hi Heq].
    { unfold i, kpage_va in *. rewrite u32_small in * by (lia).
      unfold PAGE_SIZE in *. dlia. }
    destruct (proj2 (Hs i ltac:(lia)) E4) as [f Hf]. rewrite <- Heq in Hf.
    destruct (unmap_law _ F M va f Ho Hf) as (e1 & E5 & Hfresh & Ho1). rewrite E5. cbn [mbind outcome_bind].
    destruct (free_law e1 _ _ f Ho1) as (e2 & E6 & Ho2); [set_solver|]. rewrite E6. cbn [mbind outcome_bind].
    replace (({[f]} ∪ F) ∖ {[f]}) with F in Ho2 by set_solver.
    exists i. split; [lia|]. split; [done|]. split; [done|]. split; [done|].
    eapply kpages_update; [done|done|lia| |].
    + rewrite <- Heq, lookup_delete_eq. split; [by intros []|done].
    + intros va' Hne. rewrite lookup_delete_ne by congruence. done.
Qed.

(** ** Runs of pages *)

(** [M'] is [M] without the pages [lo] to [hi - 1] from [base]. *)
Definition removed (M M' : gmap Z Z) (base lo hi : Z) : Prop :=
  (∀ i, lo ≤ i < hi → M' !! (base + i * PAGE_SIZE) = None) ∧
  (∀ va, (∀ i, lo ≤ i < hi → va ≠ base + i * PAGE_SIZE) → M' !! va = M !! va).

Lemma removed_unique M M1 M2 base lo hi :
  removed M M1 base lo hi → removed M M2 base lo hi → M1 = M2.
Proof.
  intros [H1 H1'] [H2 H2']. apply map_eq. intros va.
  destruct (decide ((va - base) mod PAGE_SIZE = 0 ∧ lo ≤ (va - base) / PAGE_SIZE < hi)) as [[Hm Hr]|Hno].
  - replace va with (base + (va - base) / PAGE_SIZE * PAGE_SIZE) by (unfold PAGE_SIZE in *; dlia).
    by rewrite H1, H2.
  - assert (∀ i, lo ≤ i < hi → va ≠ base + i * PAGE_SIZE) as Hout.
    { intros i Hi ->. apply Hno. replace (base + i * PAGE_SIZE - base) with (i * PAGE_SIZE) by lia.
      rewrite Z.mod_mul, Z.div_mul by done. done. }
    by rewrite H1', H2'.
Qed.

Lemma unmap_and_free_spec n i e base F M :
  owns e F M → (∀ k, i ≤ k < i + Z.of_nat n → is_Some (M !! (base + k * PAGE_SIZE))) →
  ∃ e' M', unmap_and_free n i e base = Ok e' ∧ owns e' F M' ∧ removed M M' base i (i + Z.of_nat n).
Proof.
  revert i e M. induction n as [|n IH]; intros i e M Ho Hm; cbn [unmap_and_free].
  { exists e, M. split; [done|]. split; [done|]. split; [lia|done]. }
  destruct (Hm i) as [f Hf]; [lia|].
  destruct (unmap_law e F M _ f Ho Hf) as (e1 & E1 & Hfresh & Ho1). rewrite E1. cbn [mbind outcome_bind].
  destruct (free_law e1 _ _ f Ho1) as (e2 & E2 & Ho2); [set_solver|]. rewrite E2. cbn [mbind outcome_bind].
  replace (({[f]} ∪ F) ∖ {[f]}) with F in Ho2 by set_solver.
  destruct (IH (i + 1) e2 (delete (base + i * PAGE_SIZE) M) Ho2) as (e3 & M3 & E3 & Ho3 & Hin & Hout).
  { intros k Hk. rewrite lookup_delete_ne by (unfold PAGE_SIZE; lia). apply Hm. lia. }
  exists e3, M3. split; [done|]. split; [done|]. split.
  - intros k Hk. destruct (decide (k = i)) as [->|]; [|apply Hin; lia].
    rewrite Hout by (intros j ?; unfold PAGE_SIZE; lia). apply lookup_delete_eq.
  - intros va Hva. rewrite Hout by (intros j ?; apply Hva; lia).
    apply lookup_delete_ne. intros <-. apply (Hva i); [lia|done].
Qed.

(** [M'] is [M0] with the first [n] pages from [base] mapped. *)
Definition added (M0 M' : gmap Z Z) (base n : Z) : Prop :=
  removed M' M0 base 0 n ∧ ∀ k, 0 ≤ k < n → is_Some (M' !! (base + k * PAGE_SIZE)).

Lemma map_stack_from_spec n i e base F M M0 :
  owns e F M → 0 ≤ i → added M0 M base i →
  (∀ k, i ≤ k < i + Z.of_nat n → kernel_page (base + k * PAGE_SIZE) ∧ M !! (base + k * PAGE_SIZE) = None) →
  ∃ ok e', map_stack_from n i e base = Ok (ok, e') ∧
    if ok : bool then ∃ M', owns e' F M' ∧ added M0 M' base (i + Z.of_nat n) else owns e' F M0.
Proof.
  revert i e M. induction n as [|n IH]; intros i e M Ho Hi Hadd Hnew; cbn [map_stack_from].
  { exists true, e. split; [done|]. exists M. by rewrite Z.add_0_r. }
  assert (∀ e1, owns e1 F M → ∃ e2, unmap_and_free (Z.to_nat i) 0 e1 base = Ok e2 ∧ owns e2 F M0) as Hundo.
  { intros e1 Ho1. destruct Hadd as [Hrem Hold].
    destruct (unmap_and_free_spec (Z.to_nat i) 0 e1 base F M Ho1) as (e2 & M2 & E2 & Ho2 & Hrem2).
    { intros k Hk. apply Hold. lia. }
    exists e2. split; [done|]. rewrite Z2Nat.id in Hrem2 by done.
    by rewrite (removed_unique _ _ _ _ _ _ Hrem Hrem2). }
  destruct (alloc_law e F M Ho) as (f & e1 & E1 & [[-> Ho1]|(Hf & Hfresh & Ho1)]); rewrite E1.
  { destruct (Hundo e1 Ho1) as (e2 & E2 & Ho2). exists false, e2. cbn. by rewrite E2. }
  rewrite truth_nonzero by done. destruct (Hnew i) as [Hpage Hnone]; [lia|].
  destruct (map_law e1 _ M _ f Ho1 ltac:(set_solver) Hpage Hnone) as (rc & e2 & E2 & [[-> Ho2]|[Hrc Ho2]]);
    rewrite E2; cbn [mbind outcome_bind].
  - cbn [Z.eqb]. replace (({[f]} ∪ F) ∖ {[f]}) with F in Ho2 by set_solver.
    replace (i + Z.of_nat (S n)) with (i + 1 + Z.of_nat n) by lia.
    apply (IH (i + 1) e2 _ Ho2); [lia| |].
    + destruct Hadd as [[Hin Hout] Hold]. split; [split|].
      * intros k Hk. destruct (decide (k = i)) as [->|]; [|apply Hin; lia].
        rewrite Hout by (intros j ?; unfold PAGE_SIZE; lia). done.
      * intros va Hva. rewrite lookup_insert_ne by (intros <-; apply (Hva i); [lia|done]).
        apply Hout. intros j ?. apply Hva. lia.
      * intros k Hk. destruct (decide (k = i)) as [->|]; [by rewrite lookup_insert_eq|].
        rewrite lookup_insert_ne by (unfold PAGE_SIZE; lia). apply Hold. lia.
    + intros k Hk. rewrite lookup_insert_ne by (unfold PAGE_SIZE; lia). apply Hnew. lia.
  - rewrite (proj2 (Z.eqb_neq rc 0)) by done.
    destruct (free_law e2 _ _ f Ho2) as (e3 & E3 & Ho3); [set_solver|]. rewrite E3. cbn [mbind outcome_bind].
    replace (({[f]} ∪ F) ∖ {[f]}) with F in Ho3 by set_solver.
    destruct (Hundo e3 Ho3) as (e4 & E4 & Ho4). exists false, e4. cbn. by rewrite E4.
Qed.

Lemma stack_va_inj s i s' i' :
  -1 ≤ i < KSTACK_PAGES → -1 ≤ i' < KSTACK_PAGES → stack_va s i = stack_va s' i' → s = s' ∧ i = i'.
Proof.
  unfold KSTACK_PAGES, stack_va, slot_stack_base. change SLOT_SIZE with 12288. unfold PAGE_SIZE. lia.
Qed.

Lemma stack_va_kernel s i : 0 ≤ s < SLOT_COUNT → -1 ≤ i < KSTACK_PAGES → kernel_page (stack_va s i).
Proof.
  change SLOT_COUNT with 1365. unfold KSTACK_PAGES, kernel_page, stack_va, slot_stack_base, KERNEL_VIRT_BASE. change SLOT_SIZE with 12288. unfold PAGE_SIZE.
  intros Hs Hi. split; [dlia|lia].
Qed.

(** Slot [s] changes to [b], its pages with it. *)
Lemma kstacks_update st e' F M M' s (b : bool) :
  kstacks_ok st F M → owns e' F M' → 0 ≤ s < SLOT_COUNT →
  (∀ i, 0 ≤ i < KSTACK_PAGES → (is_Some (M' !! stack_va s i) ↔ b = true)) →
  (∀ va, (∀ i, 0 ≤ i < KSTACK_PAGES → va ≠ stack_va s i) → M' !! va = M !! va) →
  kstacks_ok (Kstacks (aset (slot_used st) s b) e') F M'.
Proof.
  intros [Hl Ho Hs Hg] Ho' Hsl Hb Hother. constructor; cbn [slot_used ks_env]; [by rewrite length_aset|done| |].
  - intros k i Hk Hi. destruct (decide (k = s)) as [->|Hne].
    + rewrite aget_aset_eq by lia. by apply Hb.
    + rewrite aget_aset_ne by lia. rewrite Hother; [by apply Hs|]. unfold KSTACK_PAGES in *.
      intros j Hj Heq. destruct (stack_va_inj k i s j) as [? _]; unfold KSTACK_PAGES; (done || lia).
  - intros k Hk. rewrite Hother; [by apply Hg|]. unfold KSTACK_PAGES in *.
    intros j Hj Heq. destruct (stack_va_inj k (-1) s j) as [_ ?]; unfold KSTACK_PAGES; (done || lia).
Qed.

(** [kstack_alloc] maps the pages of the lowest free slot and returns the
    top of its stack, or returns 0 with no page mapped and every frame given
    back; the guard page below every stack stays unmapped. *)
Theorem kstack_alloc_spec st F M :
  kstacks_ok st F M →
  ∃ top st' M', kstack_alloc st = Ok (top, st') ∧ kstacks_ok st' F M' ∧
    ((top = 0 ∧ M' = M ∧ slot_used st' = slot_used st) ∨
     (∃ s, 0 ≤ s < SLOT_COUNT ∧ top = stack_va s KSTACK_PAGES ∧ aget false (slot_used st) s = false ∧
       (∀ k, 0 ≤ k < s → aget false (slot_used st) k = true) ∧
       slot_used st' = aset (slot_used st) s true)).
Proof.
  intros Hok. pose proof Hok as [Hl Ho Hs Hg]. unfold kstack_alloc.
  destruct (first_unused (slot_used st) 0) as [s|] eqn:Ef; [|exists 0, st, M; auto 10].
  apply first_unused_Some in Ef as (Hsr & Hu & Hlow). unfold map_stack.
  destruct (map_stack_from_spec (Z.to_nat KSTACK_PAGES) 0 (ks_env st) (slot_stack_base s) F M M Ho)
    as (ok & e' & Em & Hres); [lia|split; [split; [lia|done]|lia]| |].
  { intros k Hk. fold (stack_va s k). split.
    - apply stack_va_kernel; unfold KSTACK_PAGES in *; lia.
    - apply eq_None_not_Some. rewrite Hs by (unfold KSTACK_PAGES in *; lia). by rewrite Hu. }
  rewrite Em. cbn [mbind outcome_bind]. destruct ok.
  - destruct Hres as (M' & Ho' & [Hin Hout] & Hnew).
    eexists _, _, M'. split; [done|]. split; [|right; exists s; split; [lia|done]].
    eapply kstacks_update; [done|done|lia| |].
    + intros i Hi. split; [done|]. intros _. apply Hnew. lia.
    + intros va Hva. symmetry. apply Hout. intros i Hi. apply Hva. lia.
  - exists 0, (Kstacks (slot_used st) e'), M. split; [done|]. split; [by constructor|]. auto.
Qed.

(** [kstack_free] unmaps the pages of a live stack and gives their
    frames back; it panics on anything but the top of a live stack. *)
Theorem kstack_free_spec st F M top :
  kstacks_ok st F M → 0 ≤ top < 2 ^ 32 →
  match kstack_free st top with
  | Ok st' => ∃ s M', 0 ≤ s < SLOT_COUNT ∧ top = stack_va s KSTACK_PAGES ∧
      aget false (slot_used st) s = true ∧ slot_used st' = aset (slot_used st) s false ∧ kstacks_ok st' F M'
  | Panic _ => ∀ s, 0 ≤ s < SLOT_COUNT → top = stack_va s KSTACK_PAGES → aget false (slot_used st) s = false
  | NoFuel => False
  end.
Proof.
  intros Hok Htop. pose proof Hok as [Hl Ho Hs Hg]. unfold kstack_free.
  set (offset := u32 (top - KSTACK_SIZE - PAGE_SIZE - KERNEL_STACKS_START)).
  change SLOT_SIZE with 12288. set (s := offset / 12288).
  assert (∀ k, 0 ≤ k < SLOT_COUNT → top = stack_va k KSTACK_PAGES →
    s = k ∧ offset mod 12288 = 0 ∧ KERNEL_STACKS_START + 12288 ≤ top) as Hidx.
  { intros k Hk ->. change SLOT_COUNT with 1365 in Hk. unfold s, offset, stack_va, slot_stack_base.
    change SLOT_SIZE with 12288. unfold PAGE_SIZE, KSTACK_PAGES in *.
    rewrite u32_small by lia. dlia. }
  destruct (_ || _) eqn:Eb.
  - intros k Hk Heq. destruct (Hidx k Hk Heq) as (<- & Hm & Hlo).
    destruct (aget false (slot_used st) s); [|done]. exfalso.
    rewrite Z.geb_leb, !orb_true_iff, Z.ltb_lt, truth_true_iff, Z.leb_le in Eb.
    destruct Eb as [[[?|?]|?]|?]; try done; lia.
  - apply orb_false_iff in Eb as [[[E1 E2]%orb_false_iff E3]%orb_false_iff E4%negb_false_iff].
    apply truth_false_iff in E2. rewrite Z.geb_leb in E3. zbool.
    assert (0 ≤ s ∧ top = stack_va s KSTACK_PAGES) as [Hs0 Heq].
    { unfold s, offset, stack_va, slot_stack_base in *. change SLOT_SIZE with 12288.
      unfold PAGE_SIZE, KSTACK_PAGES in *. rewrite u32_small in * by lia. dlia. }
    destruct (unmap_and_free_spec (Z.to_nat KSTACK_PAGES) 0 (ks_env st) (slot_stack_base s) F M Ho)
      as (e' & M' & Em & Ho' & Hin & Hout).
    { intros k Hk. fold (stack_va s k). apply Hs; [lia|unfold KSTACK_PAGES in *; lia|done]. }
    rewrite Em. cbn [mbind outcome_bind]. exists s, M'. split; [lia|]. split; [done|]. split; [done|]. split; [done|].
    eapply kstacks_update; [done|done|lia| |].
    + intros i Hi. unfold stack_va. rewrite Hin by lia. split; [by intros []|done].
    + intros va Hva. apply Hout. intros i Hi. apply Hva. lia.
Qed.

End kpages.

Arguments kpages E : clear implicits.
Arguments kstacks E : clear implicits.
