(* ===== verification/Paging.v ===== *)
(** * Two-level paging ([zkt/arch/i386/paging.c])

    Physical memory is a map from word addresses to words, and the processor
    translates addresses by walking the active page directory ([mmu]). The
    code reaches page tables through the directory's last entry, which maps
    the directory itself, and kernel page tables through the entry below it,
    which maps the kernel's directory; these accesses go through [mmu] here
    too, so that the arithmetic of the recursive mapping is part of what is
    proved. A pointer [as->pd] designates the directory of its address space.
    Every change of a table is followed by a flush of the TLB, so
    translations are those of the tables.

    The invariant [paging_wf] says that all directories agree on the kernel
    half, that their two last entries are right, and that no frame serves as
    two tables or is free in the frame allocator. *)
From S2P Require Import Prelude Pmm FrameMapper.
Local Open Scope Z_scope.

Abbreviation PTE_PRESENT := 0x001%Z (only parsing).
Abbreviation PTE_WRITABLE := 0x002%Z (only parsing).
Abbreviation PTE_USER := 0x004%Z (only parsing).
Abbreviation PTE_PWT := 0x008%Z (only parsing).
Abbreviation PTE_PCD := 0x010%Z (only parsing).
Abbreviation PTE_ADDR_MASK := 0xFFFFF000%Z (only parsing).
Abbreviation VMM_USER := 2%Z (only parsing).
Abbreviation VMM_UNCACHED := 4%Z (only parsing).
Abbreviation USER_SPACE_TOP := KERNEL_VIRT_BASE%Z (only parsing).
Abbreviation KERNEL_PD_FIRST := (Z.shiftr KERNEL_VIRT_BASE 22)%Z (only parsing).
Abbreviation RECURSIVE_PD_INDEX := 1023%Z (only parsing).
Abbreviation RECURSIVE_PT_BASE := 0xFFC00000%Z (only parsing).
Abbreviation RECURSIVE_PD_ADDR := 0xFFFFF000%Z (only parsing).

(** ** The machine *)

(** An address space is the physical address of its page directory. *)
Record address_space := AS { pd_phys : Z }.

Record machine := Machine {
  frames : pmm;
  mem : Z → Z;
  kernel_space : address_space;
  all_spaces : list address_space;
  active : address_space
}.

Definition set_frames (st : machine) (p : pmm) : machine :=
  Machine p (mem st) (kernel_space st) (all_spaces st) (active st).
Definition set_mem (st : machine) (m : Z → Z) : machine :=
  Machine (frames st) m (kernel_space st) (all_spaces st) (active st).

Definition pd_index_of (virt : Z) : Z := Z.shiftr virt 22.
Definition pt_index_of (virt : Z) : Z := Z.land (Z.shiftr virt 12) 0x3FF.

Definition present (e : Z) : bool := truth (Z.land e PTE_PRESENT).

(** What the processor makes of [virt] under the directory at [pd]. *)
Definition mmu (m : Z → Z) (pd virt : Z) : option Z :=
  let pde := m (pd + 4 * pd_index_of virt) in
  if present pde then
    let pte := m (Z.land pde PTE_ADDR_MASK + 4 * pt_index_of virt) in
    if present pte then Some (Z.lor (Z.land pte PTE_ADDR_MASK) (Z.land virt (PAGE_SIZE - 1)))
    else None
  else None.

Definition store (m : Z → Z) (a w : Z) : Z → Z := λ x, if x =? a then w else m x.

(** Loads and stores of the kernel, by virtual address. *)
Definition vload (st : machine) (virt : Z) : outcome Z :=
  match mmu (mem st) (pd_phys (active st)) virt with
  | Some pa => Ok (mem st pa)
  | None => Panic "page fault"
  end.

Definition vstore (st : machine) (virt w : Z) : outcome machine :=
  match mmu (mem st) (pd_phys (active st)) virt with
  | Some pa => Ok (set_mem st (store (mem st) pa w))
  | None => Panic "page fault"
  end.

(** [memset(virt, 0, PAGE_SIZE)] of a page. *)
Definition vzero_page (st : machine) (virt : Z) : outcome machine :=
  match mmu (mem st) (pd_phys (active st)) virt with
  | Some pa => Ok (set_mem st (λ x, if (pa <=? x) && (x <? pa + PAGE_SIZE) then 0 else mem st x))
  | None => Panic "page fault"
  end.

Definition page_directory (i : Z) : Z := RECURSIVE_PD_ADDR + 4 * i.
Definition page_table (pd_index : Z) : Z := u32 (RECURSIVE_PT_BASE + pd_index * PAGE_SIZE).
Definition kernel_page_tables (i : Z) : Z := KERNEL_PT_AREA_START + i * PAGE_SIZE.

(** ** Mapping *)

Definition pte_bits (flags : Z) : Z :=
  Z.lor (Z.lor (Z.lor PTE_PRESENT (if truth (Z.land flags VMM_WRITABLE) then PTE_WRITABLE else 0))
               (if truth (Z.land flags VMM_USER) then PTE_USER else 0))
        (if truth (Z.land flags VMM_UNCACHED) then Z.lor PTE_PCD PTE_PWT else 0).

(** [for (as = all_spaces; as; as = as->next) as->pd[pdi] = pde] *)
Definition publish (st : machine) (pdi pde : Z) : machine :=
  foldl (λ st as_, set_mem st (store (mem st) (pd_phys as_ + 4 * pdi) pde)) st (all_spaces st).

(** From [uint32_t *pt = page_table(pdi)] on: the entry itself. *)
Definition map_entry (st : machine) (virt phys flags : Z) : outcome (Z * machine) :=
  let pte := page_table (pd_index_of virt) + 4 * pt_index_of virt in
  vload st pte ≫= λ old,
  if present old then Ok (-1, st)
  else vstore st pte (Z.lor phys (pte_bits flags)) ≫= λ st, Ok (0, st).

(** [map_page_locked], and [vmm_map_page] around it. The call it makes to
    [vmm_map_page] for a new kernel page table recurs once ([fuel] 2). *)
Fixpoint map_page_locked (fuel : nat) (st : machine) (virt phys flags : Z)
    : outcome (Z * machine) :=
  match fuel with
  | O => NoFuel
  | S fuel =>
      let pdi := pd_index_of virt in
      let user := truth (Z.land flags VMM_USER) in
      if truth (Z.land (Z.lor virt phys) (PAGE_SIZE - 1)) || (pdi =? RECURSIVE_PD_INDEX)
         || negb (Bool.eqb user (virt <? USER_SPACE_TOP))
      then Ok (-1, st)
      else
        vload st (page_directory pdi) ≫= λ pde0,
        if present pde0 then map_entry st virt phys flags
        else
          let '(table, fr) := pmm_alloc_frame (frames st) in
          let st := set_frames st fr in
          if table =? 0 then Ok (-1, st)
          else
            let pde := Z.lor (Z.lor (Z.lor table PTE_PRESENT) PTE_WRITABLE)
                         (if user then PTE_USER else 0) in
            if pdi >=? KERNEL_PD_FIRST then
              map_page_locked fuel st (kernel_page_tables pdi) table VMM_WRITABLE ≫= λ '(rc, st),
              if negb (rc =? 0) then
                pmm_free_frame (frames st) table ≫= λ fr, Ok (-1, set_frames st fr)
              else
                vzero_page st (kernel_page_tables pdi) ≫= λ st,
                map_entry (publish st pdi pde) virt phys flags
            else
              vstore st (page_directory pdi) pde ≫= λ st,
              vzero_page st (page_table pdi) ≫= λ st,
              map_entry st virt phys flags
  end.

Definition vmm_map_page (st : machine) (virt phys flags : Z) : outcome (Z * machine) :=
  map_page_locked 2 st virt phys flags.

(** The address of the entry that maps [virt], or 0. *)
Definition pte_of (st : machine) (virt : Z) : outcome Z :=
  let pdi := pd_index_of virt in
  vload st (page_directory pdi) ≫= λ pde,
  if negb (present pde) then Ok 0
  else
    let pte := page_table pdi + 4 * pt_index_of virt in
    vload st pte ≫= λ e, Ok (if present e then pte else 0).

Definition vmm_unmap_page (st : machine) (virt : Z) : outcome (option Z * machine) :=
  pte_of st virt ≫= λ pte,
  if truth pte && negb (pd_index_of virt =? RECURSIVE_PD_INDEX) then
    vload st pte ≫= λ e,
    vstore st pte 0 ≫= λ st,
    Ok (Some (Z.land e PTE_ADDR_MASK), st)
  else Ok (None, st).

Definition vmm_set_writable (st : machine) (virt : Z) (writable : bool) : outcome (Z * machine) :=
  pte_of st virt ≫= λ pte,
  if truth pte && negb (pd_index_of virt =? RECURSIVE_PD_INDEX) then
    vload st pte ≫= λ e,
    vstore st pte (if writable then Z.lor e PTE_WRITABLE else Z.land e (not32 PTE_WRITABLE)) ≫= λ st,
    Ok (0, st)
  else Ok (-1, st).

Definition vmm_translate (st : machine) (virt : Z) : outcome (option Z) :=
  pte_of st virt ≫= λ pte,
  if truth pte then
    vload st pte ≫= λ e,
    Ok (Some (Z.lor (Z.land e PTE_ADDR_MASK) (Z.land virt (PAGE_SIZE - 1))))
  else Ok None.

#[export] Instance paging_mapper : FrameMapper machine := {
  fm_alloc_frame st := let '(f, fr) := pmm_alloc_frame (frames st) in (f, set_frames st fr);
  fm_map_page := vmm_map_page;
  fm_unmap_page := vmm_unmap_page;
  fm_free_frame st f := pmm_free_frame (frames st) f ≫= λ fr, Ok (set_frames st fr)
}.

(** ** Address spaces *)

(** The critical section of [vmm_as_create], for a new directory at [pd]. *)
Definition as_join (st : machine) (pd : Z) : machine :=
  let kpd := pd_phys (kernel_space st) in
  let m := for_range KERNEL_PD_FIRST RECURSIVE_PD_INDEX
             (λ i m, store m (pd + 4 * i) (m (kpd + 4 * i))) (mem st) in
  let m := store m (pd + 4 * RECURSIVE_PD_INDEX) (Z.lor (Z.lor pd PTE_PRESENT) PTE_WRITABLE) in
  let i := Z.shiftr KERNEL_PT_AREA_START 22 in
  let m := store m (pd + 4 * i) (m (kpd + 4 * i)) in
  Machine (frames st) m (kernel_space st) (AS pd :: all_spaces st) (active st).

Definition vmm_as_activate (st : machine) (as_ : option address_space) : machine :=
  let target := default (kernel_space st) as_ in
  Machine (frames st) (mem st) (kernel_space st) (all_spaces st) target.

(** The inner loop of [vmm_as_clear_user]. *)
Definition clear_table (st : machine) (pdi : Z) : outcome machine :=
  for_range 0 1024 (λ pti r, r ≫= λ st,
    let pte := page_table pdi + 4 * pti in
    vload st pte ≫= λ e,
    if present e then
      pmm_free_frame (frames st) (Z.land e PTE_ADDR_MASK) ≫= λ fr, vstore (set_frames st fr) pte 0
    else Ok st) (Ok st).

Definition vmm_as_clear_user (st : machine) : outcome machine :=
  for_range 0 KERNEL_PD_FIRST (λ pdi r, r ≫= λ st,
    vload st (page_directory pdi) ≫= λ pde,
    if negb (present pde) then Ok st
    else
      clear_table st pdi ≫= λ st,
      vload st (page_directory pdi) ≫= λ pde,
      vstore st (page_directory pdi) 0 ≫= λ st,
      pmm_free_frame (frames st) (Z.land pde PTE_ADDR_MASK) ≫= λ fr, Ok (set_frames st fr)) (Ok st).

(** The loop of [vmm_user_range_ok] over [n] pages. *)
Fixpoint range_pages_ok (n : nat) (st : machine) (page need : Z) : outcome bool :=
  match n with
  | O => Ok true
  | S n =>
      let pdi := pd_index_of page in
      vload st (page_directory pdi) ≫= λ pde,
      if negb (Z.land pde (Z.lor PTE_PRESENT PTE_USER) =? Z.lor PTE_PRESENT PTE_USER) then Ok false
      else
        vload st (page_table pdi + 4 * pt_index_of page) ≫= λ e,
        if negb (Z.land e need =? need) then Ok false
        else range_pages_ok n st (page + PAGE_SIZE) need
  end.

Definition vmm_user_range_ok (st : machine) (addr len : Z) (write : bool) : outcome bool :=
  if len =? 0 then Ok (addr <=? USER_SPACE_TOP)
  else if (addr >=? USER_SPACE_TOP) || (len >? USER_SPACE_TOP - addr) then Ok false
  else
    let need := Z.lor (Z.lor PTE_PRESENT PTE_USER) (if write then PTE_WRITABLE else 0) in
    let page := Z.land addr (not32 (PAGE_SIZE - 1)) in
    range_pages_ok (Z.to_nat ((addr + len - page + PAGE_SIZE - 1) / PAGE_SIZE)) st page need.

(** ** The invariant *)

Definition frame_of (e : Z) : Z := Z.land e PTE_ADDR_MASK.

(** What a frame is used for: a directory, the kernel's table for an entry,
    or the table for an entry of one directory. *)
Inductive node := Dir | KTable (i : Z) | UTable (pd i : Z).

Definition kpd (st : machine) : Z := pd_phys (kernel_space st).
Definition apd (st : machine) : Z := pd_phys (active st).
Definition dirs (st : machine) : list Z := pd_phys <$> all_spaces st.

(** The use of the table behind entry [i] of the directory [d]. *)
Definition table_node (d i : Z) : node := if i <? KERNEL_PD_FIRST then UTable d i else KTable i.

Record paging_wf (tag : gmap Z node) (st : machine) : Prop := {
  pw_frames : pmm_wf (frames st);
  pw_word x : 0 ≤ mem st x < 2 ^ 32;
  pw_active : apd st ∈ dirs st;
  pw_kernel : kpd st ∈ dirs st;
  pw_dir d : d ∈ dirs st → tag !! d = Some Dir;
  pw_self d : d ∈ dirs st → mem st (d + 4 * 1023) = d + 3;
  pw_area d : d ∈ dirs st → mem st (d + 4 * 1022) = kpd st + 3;
  pw_shared d i : d ∈ dirs st → KERNEL_PD_FIRST ≤ i < 1022 → mem st (d + 4 * i) = mem st (kpd st + 4 * i);
  pw_table d i : d ∈ dirs st → 0 ≤ i < 1022 → present (mem st (d + 4 * i)) = true →
    tag !! frame_of (mem st (d + 4 * i)) = Some (table_node d i);
  pw_tag f n : tag !! f = Some n → f mod PAGE_SIZE = 0 ∧ 0 < f < 2 ^ 32 ∧ f / PAGE_SIZE ∉ free_frames (frames st)
}.

(** The entry that maps page [j] of entry [i] of the directory [d]; 0 where
    there is no page table. *)
Definition pte_word (m : Z → Z) (d i j : Z) : Z :=
  if present (m (d + 4 * i)) then m (frame_of (m (d + 4 * i)) + 4 * j) else 0.

(** ** Arithmetic of entries and indices *)

Lemma pd_index_div v : pd_index_of v = v / 2 ^ 22.
Proof. apply Z.shiftr_div_pow2. done. Qed.

Lemma pt_index_mod v : pt_index_of v = (v / 2 ^ 12) mod 1024.
Proof.
  unfold pt_index_of. rewrite Z.shiftr_div_pow2 by done.
  change 0x3FF with (2 ^ 10 - 1). by rewrite land_ones_mod.
Qed.

Lemma frame_of_div e : 0 ≤ e < 2 ^ 32 → frame_of e = e / 4096 * 4096.
Proof. intros He. apply (land_not32_mask 12); lia. Qed.

Lemma frame_of_add f b : f mod PAGE_SIZE = 0 → 0 ≤ f < 2 ^ 32 → 0 ≤ b < 4096 → frame_of (f + b) = f.
Proof. unfold PAGE_SIZE. intros. rewrite frame_of_div by dlia. dlia. Qed.

Lemma present_mod e : present e = (e mod 2 =? 1).
Proof.
  unfold present, truth. rewrite land_1_mod.
  pose proof (Z.mod_pos_bound e 2). destruct (Z.eqb_spec (e mod 2) 0), (Z.eqb_spec (e mod 2) 1); lia.
Qed.

Lemma present_add f b : f mod PAGE_SIZE = 0 → b mod 2 = 1 → present (f + b) = true.
Proof. unfold PAGE_SIZE. intros. rewrite present_mod. apply Z.eqb_eq. dlia. Qed.

Lemma frame_lor f b : f mod PAGE_SIZE = 0 → 0 ≤ b < 4096 → Z.lor f b = f + b.
Proof. apply (lor_add 12). done. Qed.

Lemma word_inj f k f' k' :
  f mod PAGE_SIZE = 0 → f' mod PAGE_SIZE = 0 → 0 ≤ k < 1024 → 0 ≤ k' < 1024 →
  f + 4 * k = f' + 4 * k' → f = f' ∧ k = k'.
Proof. unfold PAGE_SIZE. intros. dlia. Qed.

(** The walk of the processor, by indices. *)
Lemma mmu_walk m d v :
  0 ≤ v < 2 ^ 32 → (∀ x, 0 ≤ m x < 2 ^ 32) →
  mmu m d v =
    let e := pte_word m d (v / 2 ^ 22) ((v / 2 ^ 12) mod 1024) in
    if present e then Some (frame_of e + v mod 4096) else None.
Proof.
  intros Hv Hm. unfold mmu, pte_word. rewrite pd_index_div, pt_index_mod.
  destruct (present (m (d + 4 * (v / 2 ^ 22)))); [|done].
  fold (frame_of (m (d + 4 * (v / 2 ^ 22)))). set (e := m (frame_of _ + _)). cbv zeta.
  destruct (present e); [|done]. fold (frame_of e). f_equal.
  change (PAGE_SIZE - 1) with (2 ^ 12 - 1). rewrite land_ones_mod by done.
  apply frame_lor; [|dlia]. unfold PAGE_SIZE. rewrite frame_of_div by apply Hm. dlia.
Qed.

Section access.
Context (tag : gmap Z node) (st : machine) (Hwf : paging_wf tag st).

Lemma dir_aligned d : d ∈ dirs st → d mod PAGE_SIZE = 0 ∧ 0 < d < 2 ^ 32.
Proof. intros Hd%(pw_dir _ _ Hwf). apply (pw_tag _ _ Hwf) in Hd. tauto. Qed.

(** [page_directory[i]] is entry [i] of the active directory. *)
Lemma access_pd i : 0 ≤ i < 1024 → mmu (mem st) (apd st) (page_directory i) = Some (apd st + 4 * i).
Proof.
  intros Hi. pose proof (pw_active _ _ Hwf) as Ha. destruct (dir_aligned _ Ha) as [Hal Hr].
  unfold page_directory. rewrite mmu_walk by (lia || apply (pw_word _ _ Hwf)).
  replace ((0xFFFFF000 + 4 * i) / 2 ^ 22) with 1023 by dlia.
  replace (((0xFFFFF000 + 4 * i) / 2 ^ 12) mod 1024) with 1023 by dlia.
  replace ((0xFFFFF000 + 4 * i) mod 4096) with (4 * i) by dlia.
  assert (present (apd st + 3) = true) as Hp by by apply present_add.
  unfold pte_word. rewrite (pw_self _ _ Hwf), Hp, frame_of_add, (pw_self _ _ Hwf) by (done || lia).
  cbv zeta. by rewrite Hp, frame_of_add by (done || lia).
Qed.

(** [page_table(i)[j]] is entry [j] of the table behind entry [i]. *)
Lemma access_pt i j :
  0 ≤ i < 1023 → 0 ≤ j < 1024 → present (mem st (apd st + 4 * i)) = true →
  mmu (mem st) (apd st) (page_table i + 4 * j) = Some (frame_of (mem st (apd st + 4 * i)) + 4 * j).
Proof.
  intros Hi Hj Hpi. pose proof (pw_active _ _ Hwf) as Ha. destruct (dir_aligned _ Ha) as [Hal Hr].
  unfold page_table, PAGE_SIZE. rewrite u32_small by lia.
  rewrite mmu_walk by (lia || apply (pw_word _ _ Hwf)).
  replace ((0xFFC00000 + i * 4096 + 4 * j) / 2 ^ 22) with 1023 by dlia.
  replace (((0xFFC00000 + i * 4096 + 4 * j) / 2 ^ 12) mod 1024) with i by dlia.
  replace ((0xFFC00000 + i * 4096 + 4 * j) mod 4096) with (4 * j) by dlia.
  assert (present (apd st + 3) = true) as Hp by by apply present_add.
  unfold pte_word. rewrite (pw_self _ _ Hwf), Hp, frame_of_add by (done || lia).
  cbv zeta. by rewrite Hpi.
Qed.

(** The kernel's window on its page tables. *)
Lemma access_kpt i :
  0 ≤ i < 1022 → present (mem st (kpd st + 4 * i)) = true →
  mmu (mem st) (apd st) (kernel_page_tables i) = Some (frame_of (mem st (kpd st + 4 * i))).
Proof.
  intros Hi Hpi. pose proof (pw_active _ _ Hwf) as Ha. destruct (dir_aligned _ Ha) as [Hal Hr].
  destruct (dir_aligned _ (pw_kernel _ _ Hwf)) as [Hkal Hkr].
  unfold kernel_page_tables, PAGE_SIZE.
  rewrite mmu_walk by (lia || apply (pw_word _ _ Hwf)).
  replace ((0xFF800000 + i * 4096) / 2 ^ 22) with 1022 by dlia.
  replace (((0xFF800000 + i * 4096) / 2 ^ 12) mod 1024) with i by dlia.
  replace ((0xFF800000 + i * 4096) mod 4096) with 0 by dlia.
  assert (present (kpd st + 3) = true) as Hp by by apply present_add.
  unfold pte_word. rewrite (pw_area _ _ Hwf), Hp, frame_of_add by (done || lia).
  cbv zeta. rewrite Hpi. by rewrite Z.add_0_r.
Qed.

Lemma vload_pd i : 0 ≤ i < 1024 → vload st (page_directory i) = Ok (mem st (apd st + 4 * i)).
Proof. intros Hi. unfold vload. fold (apd st). by rewrite access_pd. Qed.

Lemma vload_pt i j :
  0 ≤ i < 1023 → 0 ≤ j < 1024 → present (mem st (apd st + 4 * i)) = true →
  vload st (page_table i + 4 * j) = Ok (pte_word (mem st) (apd st) i j).
Proof.
  intros Hi Hj Hp. unfold vload, pte_word. fold (apd st). by rewrite access_pt, Hp.
Qed.

Lemma vstore_pt i j w :
  0 ≤ i < 1023 → 0 ≤ j < 1024 → present (mem st (apd st + 4 * i)) = true →
  vstore st (page_table i + 4 * j) w =
    Ok (set_mem st (store (mem st) (frame_of (mem st (apd st + 4 * i)) + 4 * j) w)).
Proof. intros Hi Hj Hp. unfold vstore. fold (apd st). by rewrite access_pt. Qed.

End access.

(** ** Changing memory *)

Section update.
Context (tag : gmap Z node) (st : machine) (Hwf : paging_wf tag st).

Lemma table_node_not_dir d i : table_node d i ≠ Dir.
Proof. unfold table_node. by case_if. Qed.

Lemma table_aligned d i :
  d ∈ dirs st → 0 ≤ i < 1022 → present (mem st (d + 4 * i)) = true →
  let t := frame_of (mem st (d + 4 * i)) in t mod PAGE_SIZE = 0 ∧ 0 < t < 2 ^ 32.
Proof. intros Hd Hi Hp t. apply (pw_table _ _ Hwf) in Hp; [|done..]. apply (pw_tag _ _ Hwf) in Hp. tauto. Qed.

(** Tables are shared exactly in the kernel half. *)
Lemma table_inj d i d' i' :
  d ∈ dirs st → d' ∈ dirs st → 0 ≤ i < 1022 → 0 ≤ i' < 1022 →
  present (mem st (d + 4 * i)) = true → present (mem st (d' + 4 * i')) = true →
  frame_of (mem st (d + 4 * i)) = frame_of (mem st (d' + 4 * i')) ↔
  i = i' ∧ (KERNEL_PD_FIRST ≤ i ∨ d = d').
Proof.
  intros Hd Hd' Hi Hi' Hp Hp'. split.
  - intros Heq. apply (pw_table _ _ Hwf) in Hp; [|done..]. apply (pw_table _ _ Hwf) in Hp'; [|done..].
    rewrite Heq, Hp' in Hp. unfold table_node in Hp.
    destruct (Z.ltb_spec i KERNEL_PD_FIRST), (Z.ltb_spec i' KERNEL_PD_FIRST); simplify_eq; auto.
  - intros [-> [Hk| ->]]; [|done]. by rewrite (pw_shared _ _ Hwf d), (pw_shared _ _ Hwf d') by (done || lia).
Qed.

(** Memory that agrees on the directories keeps the invariant. *)
Lemma wf_same_dirs m' :
  (∀ x, 0 ≤ m' x < 2 ^ 32) → (∀ d k, d ∈ dirs st → 0 ≤ k < 1024 → m' (d + 4 * k) = mem st (d + 4 * k)) →
  paging_wf tag (set_mem st m').
Proof.
  intros Hm Hsame. pose proof (pw_kernel _ _ Hwf) as HK.
  destruct Hwf. constructor; try done;
    change (dirs (set_mem st m')) with (dirs st); change (kpd (set_mem st m')) with (kpd st);
    cbn [mem set_mem].
  - intros d Hd. rewrite Hsame by (done || lia). auto.
  - intros d Hd. rewrite Hsame by (done || lia). auto.
  - intros d i Hd Hi. assert (0 ≤ i < 1024) by (change KERNEL_PD_FIRST with 768 in Hi; lia).
    rewrite !Hsame by done. by apply pw_shared0.
  - intros d i Hd Hi. rewrite !Hsame by (done || lia). by apply pw_table0.
Qed.

Lemma set_entry d i j w :
  d ∈ dirs st → 0 ≤ i < 1022 → present (mem st (d + 4 * i)) = true → 0 ≤ j < 1024 → 0 ≤ w < 2 ^ 32 →
  let m' := store (mem st) (frame_of (mem st (d + 4 * i)) + 4 * j) w in
  paging_wf tag (set_mem st m') ∧
  ∀ d' i' j', d' ∈ dirs st → 0 ≤ i' < 1022 → 0 ≤ j' < 1024 →
    pte_word m' d' i' j' =
      if bool_decide (i' = i ∧ j' = j ∧ (KERNEL_PD_FIRST ≤ i ∨ d' = d)) then w
      else pte_word (mem st) d' i' j'.
Proof.
  intros Hd Hi Hp Hj Hw m'. destruct (table_aligned d i Hd Hi Hp) as [Hal Hr].
  pose proof (pw_table _ _ Hwf d i Hd Hi Hp) as Htag.
  set (t := frame_of (mem st (d + 4 * i))) in *.
  assert (∀ d' k, d' ∈ dirs st → 0 ≤ k < 1024 → m' (d' + 4 * k) = mem st (d' + 4 * k)) as Hsame.
  { intros d' k Hd' Hk. unfold m', store. case_if; [|done]. exfalso.
    destruct (dir_aligned _ _ Hwf d' Hd') as [? _].
    destruct (word_inj d' k t j) as [-> _]; try done.
    apply (pw_dir _ _ Hwf) in Hd'. rewrite Htag in Hd'. simplify_eq.
    by eapply table_node_not_dir. }
  split.
  { apply wf_same_dirs; [|done]. intros x. unfold m', store. case_if; [done|]. apply (pw_word _ _ Hwf). }
  intros d' i' j' Hd' Hi' Hj'. unfold pte_word. rewrite Hsame by (done || lia).
  destruct (present (mem st (d' + 4 * i'))) eqn:Hp'.
  - destruct (table_aligned d' i' Hd' Hi' Hp') as [Hal' _].
    pose proof (table_inj d i d' i' Hd Hd' Hi Hi' Hp Hp') as Hinj. fold t in Hinj.
    unfold m', store. case_bool_decide as Hb.
    + destruct Hb as (-> & -> & Hk). rewrite <- (proj2 Hinj), Z.eqb_refl; [done|].
      destruct Hk as [?| ->]; auto.
    + rewrite (proj2 (Z.eqb_neq _ _)); [done|]. intros Heq.
      destruct (word_inj _ j' t j Hal' Hal ltac:(done) ltac:(done) Heq) as [Ht ->]. apply Hb.
      destruct (proj1 Hinj (eq_sym Ht)) as [-> [?| ->]]; auto.
  - rewrite bool_decide_eq_false_2; [done|]. intros (-> & -> & [Hk| ->]); [|by rewrite Hp in Hp'].
    rewrite (pw_shared _ _ Hwf d') in Hp' by (done || lia).
    rewrite (pw_shared _ _ Hwf d), Hp' in Hp by (done || lia). done.
Qed.

(** The directories a table for entry [i] of [d] is entered in. *)
Definition sharing (d i : Z) : list Z := if i <? KERNEL_PD_FIRST then [d] else dirs st.

(** A cleared table at frame [t], entered as [pde]. *)
Definition with_table (m : Z → Z) (S : list Z) (i t pde : Z) : Z → Z := λ x,
  if (t <=? x) && (x <? t + PAGE_SIZE) then 0
  else if bool_decide (x ∈ (λ d, d + 4 * i) <$> S) then pde else m x.

Section add_table.
Context (d i t b : Z) (Hd : d ∈ dirs st) (Hi : 0 ≤ i < 1022).
Context (Habs : present (mem st (d + 4 * i)) = false).
Context (Hfresh : tag !! t = None) (Ht : t mod PAGE_SIZE = 0) (Htr : 0 < t < 2 ^ 32).
Context (Hused : t / PAGE_SIZE ∉ free_frames (frames st)).
Context (Hb : 0 ≤ b < 4096) (Hodd : b mod 2 = 1).

Let m' := with_table (mem st) (sharing d i) i t (t + b).

Lemma sharing_elem d' : d' ∈ sharing d i ↔ d' ∈ dirs st ∧ (KERNEL_PD_FIRST ≤ i ∨ d' = d).
Proof.
  unfold sharing. case_if; [|split; [auto|tauto]].
  rewrite list_elem_of_singleton. split; [intros ->; auto|]. intros [_ [?| ->]]; [lia|done].
Qed.

Lemma with_table_dir d' k : d' ∈ dirs st → 0 ≤ k < 1024 →
  m' (d' + 4 * k) = if bool_decide (k = i ∧ (KERNEL_PD_FIRST ≤ i ∨ d' = d)) then t + b else mem st (d' + 4 * k).
Proof.
  intros Hd' Hk. destruct (dir_aligned _ _ Hwf d' Hd') as [Hal _].
  assert (t ≠ d') as Hne by (intros ->; apply (pw_dir _ _ Hwf) in Hd'; congruence).
  unfold m', with_table.
  destruct (_ && _) eqn:E1.
  { zbool. unfold PAGE_SIZE in *. exfalso. apply Hne. dlia. }
  clear E1. case_bool_decide as H1; case_bool_decide as H2; try done; exfalso.
  - apply list_elem_of_fmap in H1 as (d2 & Heq & [Hd2 Hs]%sharing_elem).
    destruct (dir_aligned _ _ Hwf d2 Hd2) as [Hal2 _].
    destruct (word_inj d' k d2 i Hal Hal2 Hk ltac:(lia) Heq) as [-> ->]. apply H2. tauto.
  - apply H1. destruct H2 as [-> Hs]. apply list_elem_of_fmap. exists d'. split; [done|].
    apply sharing_elem. tauto.
Qed.

Lemma with_table_other f n k : tag !! f = Some n → n ≠ Dir → 0 ≤ k < 1024 →
  m' (f + 4 * k) = mem st (f + 4 * k).
Proof.
  intros Hf Hn Hk. destruct (pw_tag _ _ Hwf _ _ Hf) as [Hal _].
  assert (t ≠ f) as Hne by congruence. unfold m', with_table.
  destruct (_ && _) eqn:E1.
  { zbool. unfold PAGE_SIZE in *. exfalso. apply Hne. dlia. }
  rewrite bool_decide_eq_false_2; [done|]. intros H1.
  apply list_elem_of_fmap in H1 as (d2 & Heq & [Hd2 Hs]%sharing_elem).
  destruct (dir_aligned _ _ Hwf d2 Hd2) as [Hal2 _].
  destruct (word_inj f k d2 i Hal Hal2 Hk ltac:(lia) Heq) as [-> ->].
  apply (pw_dir _ _ Hwf) in Hd2. congruence.
Qed.

Lemma with_table_new k : 0 ≤ k < 1024 → m' (t + 4 * k) = 0.
Proof.
  intros Hk. unfold m', with_table.
  replace ((t <=? t + 4 * k) && (t + 4 * k <? t + PAGE_SIZE)) with true; [done|].
  symmetry. apply andb_true_iff. unfold PAGE_SIZE. lia.
Qed.

Lemma absent_shared d' : d' ∈ dirs st → KERNEL_PD_FIRST ≤ i ∨ d' = d → present (mem st (d' + 4 * i)) = false.
Proof.
  intros Hd' [Hk| ->]; [|done].
  rewrite (pw_shared _ _ Hwf d') by (done || lia). by rewrite (pw_shared _ _ Hwf d) in Habs by (done || lia).
Qed.

Lemma pde_parts : present (t + b) = true ∧ frame_of (t + b) = t ∧ 0 ≤ t + b < 2 ^ 32.
Proof.
  rewrite present_mod, frame_of_add by (done || lia). unfold PAGE_SIZE in *.
  split; [apply Z.eqb_eq; dlia|]. split; [done|dlia].
Qed.

Lemma add_table_view d' i' j' : d' ∈ dirs st → 0 ≤ i' < 1022 → 0 ≤ j' < 1024 →
  pte_word m' d' i' j' = pte_word (mem st) d' i' j'.
Proof.
  intros Hd' Hi' Hj'. unfold pte_word. rewrite with_table_dir by (done || lia).
  destruct pde_parts as (Hp & Hf & _). case_bool_decide as Hb'.
  - destruct Hb' as [-> Hs]. rewrite Hp, Hf, with_table_new by done. by rewrite absent_shared.
  - destruct (present (mem st (d' + 4 * i'))) eqn:Hp'; [|done].
    apply with_table_other with (table_node d' i'); [by apply (pw_table _ _ Hwf)|apply table_node_not_dir|done].
Qed.

Lemma add_table_wf : paging_wf (<[t := table_node d i]> tag) (set_mem st m').
Proof.
  destruct pde_parts as (Hp & Hf & Hrange).
  assert (∀ f, is_Some (tag !! f) → <[t := table_node d i]> tag !! f = tag !! f) as Hold.
  { intros f [n Hn]. apply lookup_insert_ne. congruence. }
  constructor; change (dirs (set_mem st m')) with (dirs st);
    change (kpd (set_mem st m')) with (kpd st); cbn [mem set_mem].
  - apply (pw_frames _ _ Hwf).
  - intros x. unfold m', with_table. case_if; [lia|]. case_if; [done|]. apply (pw_word _ _ Hwf).
  - apply (pw_active _ _ Hwf).
  - apply (pw_kernel _ _ Hwf).
  - intros d' Hd'. apply (pw_dir _ _ Hwf) in Hd'. rewrite Hold; eauto.
  - intros d' Hd'. rewrite with_table_dir, bool_decide_eq_false_2 by (done || lia). by apply (pw_self _ _ Hwf).
  - intros d' Hd'. rewrite with_table_dir, bool_decide_eq_false_2 by (done || lia). by apply (pw_area _ _ Hwf).
  - intros d' i' Hd' Hi'. assert (0 ≤ i' < 1024) by (change KERNEL_PD_FIRST with 768 in Hi'; lia).
    rewrite !with_table_dir by (done || apply (pw_kernel _ _ Hwf)).
    case_bool_decide as H1; case_bool_decide as H2; try done.
    + destruct H1 as [-> ?]. tauto.
    + destruct H2 as [-> ?]. tauto.
    + by apply (pw_shared _ _ Hwf).
  - intros d' i' Hd' Hi'. rewrite with_table_dir by (done || lia). case_bool_decide as Hb'.
    + destruct Hb' as [-> Hs]. intros _. rewrite Hf, lookup_insert_eq. f_equal. unfold table_node.
      case_if; [|done]. f_equal. destruct Hs; [lia|done].
    + intros Hp'. apply (pw_table _ _ Hwf) in Hp'; [|done..]. rewrite Hold; eauto.
  - intros f n. rewrite lookup_insert_Some. intros [[<- <-]|[_ Hn]]; [done|]. by apply (pw_tag _ _ Hwf) in Hn.
Qed.

End add_table.
End update.

(** ** Equal memories *)

Lemma wf_ext tag st m m' :
  (∀ x, m' x = m x) → paging_wf tag (set_mem st m) → paging_wf tag (set_mem st m').
Proof.
  intros Heq Hwf. apply (wf_same_dirs tag (set_mem st m) Hwf m').
  - intros x. rewrite Heq. apply (pw_word _ _ Hwf).
  - intros d k _ _. apply Heq.
Qed.

Lemma pte_word_ext m m' d i j : (∀ x, m' x = m x) → pte_word m' d i j = pte_word m d i j.
Proof. intros Heq. unfold pte_word. by rewrite !Heq. Qed.

Lemma publish_mem st pdi pde :
  publish st pdi pde = set_mem st (mem (publish st pdi pde)) ∧
  ∀ x, mem (publish st pdi pde) x =
    if bool_decide (x ∈ (λ d, d + 4 * pdi) <$> dirs st) then pde else mem st x.
Proof.
  unfold publish, dirs. generalize (all_spaces st). intros l. revert st.
  induction l as [|a l IH]; intros st; [by destruct st|].
  cbn [foldl fmap list_fmap]. destruct (IH (set_mem st (store (mem st) (pd_phys a + 4 * pdi) pde))) as [H1 H2].
  split; [rewrite H1 at 1; done|]. intros x. rewrite H2. cbn [mem set_mem]. unfold store.
  case_bool_decide as Hx; case_bool_decide as Hy; try done.
  - exfalso. apply Hy. by apply list_elem_of_further.
  - apply elem_of_cons in Hy as [->|?]; [by rewrite Z.eqb_refl|done].
  - rewrite (proj2 (Z.eqb_neq _ _)); [done|]. intros ->. apply Hy. by apply list_elem_of_here.
Qed.

(** ** The translation as seen by every address space *)

(** [m'] maps [virt] to the entry [w] for the spaces that share it with [d],
    and everything else as [m] does. *)
Definition view_update (st : machine) (m' : Z → Z) (d i j w : Z) : Prop :=
  ∀ d' i' j', d' ∈ dirs st → 0 ≤ i' < 1022 → 0 ≤ j' < 1024 →
    pte_word m' d' i' j' =
      if bool_decide (i' = i ∧ j' = j ∧ (KERNEL_PD_FIRST ≤ i ∨ d' = d)) then w
      else pte_word (mem st) d' i' j'.

Definition view_same (st : machine) (m' : Z → Z) : Prop :=
  ∀ d' i' j', d' ∈ dirs st → 0 ≤ i' < 1022 → 0 ≤ j' < 1024 →
    pte_word m' d' i' j' = pte_word (mem st) d' i' j'.

Lemma pte_bits_range flags : 0 ≤ pte_bits flags < 32 ∧ pte_bits flags mod 2 = 1.
Proof. unfold pte_bits. by destruct (truth _), (truth _), (truth _). Qed.

Lemma map_entry_spec tag st virt phys flags :
  paging_wf tag st → 0 ≤ virt < KERNEL_PT_AREA_START → phys mod PAGE_SIZE = 0 → 0 ≤ phys < 2 ^ 32 →
  let i := pd_index_of virt in
  let j := pt_index_of virt in
  present (mem st (apd st + 4 * i)) = true →
  if present (pte_word (mem st) (apd st) i j) then map_entry st virt phys flags = Ok (-1, st)
  else ∃ m', map_entry st virt phys flags = Ok (0, set_mem st m') ∧
    paging_wf tag (set_mem st m') ∧ view_update st m' (apd st) i j (phys + pte_bits flags).
Proof.
  intros Hwf Hv Hal Hphys i j Hp.
  assert (0 ≤ i < 1022) as Hi by (unfold i; rewrite pd_index_div; dlia).
  assert (0 ≤ j < 1024) as Hj by (unfold j; rewrite pt_index_mod; dlia).
  pose proof (access_pt tag st Hwf i j ltac:(lia) Hj Hp) as Ha.
  unfold map_entry, vload, vstore. fold i j (apd st). rewrite Ha. cbn [mbind outcome_bind].
  unfold pte_word. rewrite Hp. destruct (present (mem st (frame_of _ + _))); [done|].
  destruct (pte_bits_range flags) as [Hb _]. rewrite frame_lor by (done || lia).
  eexists. split; [done|]. apply set_entry; try done; [apply (pw_active _ _ Hwf)|].
  unfold PAGE_SIZE in *. dlia.
Qed.

(** The recursive call enters a new kernel table in the kernel's directory. *)
Lemma map_ktable fuel tag st pdi t :
  paging_wf tag st → KERNEL_PD_FIRST ≤ pdi < 1022 → t mod PAGE_SIZE = 0 → 0 ≤ t < 2 ^ 32 →
  present (mem st (kpd st + 4 * pdi)) = false →
  map_page_locked (S fuel) st (kernel_page_tables pdi) t VMM_WRITABLE =
    Ok (0, set_mem st (store (mem st) (kpd st + 4 * pdi) (t + 3))).
Proof.
  intros Hwf Hpdi Hal Hr Habs. change KERNEL_PD_FIRST with 768 in Hpdi.
  destruct (dir_aligned _ _ Hwf _ (pw_kernel _ _ Hwf)) as [Hkal Hkr].
  pose proof (pw_area _ _ Hwf _ (pw_active _ _ Hwf)) as Harea.
  assert (present (kpd st + 3) = true) as Hp by by apply present_add.
  assert (pd_index_of (kernel_page_tables pdi) = 1022) as Hi.
  { rewrite pd_index_div. unfold kernel_page_tables, PAGE_SIZE. dlia. }
  assert (pt_index_of (kernel_page_tables pdi) = pdi) as Hj.
  { rewrite pt_index_mod. unfold kernel_page_tables, PAGE_SIZE. dlia. }
  cbn [map_page_locked]. unfold map_entry. rewrite Hi, Hj.
  assert (truth (Z.land (Z.lor (kernel_page_tables pdi) t) (PAGE_SIZE - 1)) = false) as ->.
  { rewrite Z.land_lor_distr_l. change (PAGE_SIZE - 1) with (2 ^ 12 - 1).
    rewrite !land_ones_mod by done. change (2 ^ 12) with PAGE_SIZE. rewrite Hal, Z.lor_0_r.
    apply truth_false_iff. unfold kernel_page_tables, PAGE_SIZE. dlia. }
  assert ((kernel_page_tables pdi <? USER_SPACE_TOP) = false) as ->.
  { apply Z.ltb_ge. unfold kernel_page_tables, KERNEL_VIRT_BASE, PAGE_SIZE. lia. }
  unfold vload, vstore. fold (apd st). rewrite (access_pd tag st Hwf) by lia. cbn [mbind outcome_bind].
  rewrite Harea, Hp. rewrite (access_pt tag st Hwf 1022 pdi) by (rewrite ?Harea; done || lia).
  rewrite Harea, frame_of_add by (done || lia). cbn [mbind outcome_bind]. rewrite Habs.
  rewrite frame_lor by (done || vm_compute; intuition congruence). done.
Qed.

(** ** A new page table *)

Section new_table.
Context (tag : gmap Z node) (st : machine) (Hwf : paging_wf tag st).
Context (i t : Z) (Hfresh : tag !! t = None) (Ht : t mod PAGE_SIZE = 0) (Htr : 0 < t < 2 ^ 32).

Lemma not_in_table d k : d ∈ dirs st → 0 ≤ k < 1024 →
  (t <=? d + 4 * k) && (d + 4 * k <? t + PAGE_SIZE) = false.
Proof.
  intros Hd Hk. destruct (dir_aligned _ _ Hwf d Hd) as [Hal _].
  assert (t ≠ d) as Hne by (intros ->; apply (pw_dir _ _ Hwf) in Hd; congruence).
  apply andb_false_iff. unfold PAGE_SIZE in *. rewrite Z.leb_gt, Z.ltb_ge. dlia.
Qed.

(** Zeroing a page that the tables map to [t]. *)
Lemma vzero_at m v :
  mmu m (apd st) v = Some t →
  vzero_page (set_mem st m) v =
    Ok (set_mem st (λ x, if (t <=? x) && (x <? t + PAGE_SIZE) then 0 else m x)).
Proof. intros Hm. unfold vzero_page. cbn [mem active set_mem]. fold (apd st). by rewrite Hm. Qed.

Lemma store_dir d k w d' k' : d ∈ dirs st → d' ∈ dirs st → 0 ≤ k < 1024 → 0 ≤ k' < 1024 → k ≠ k' →
  store (mem st) (d + 4 * k) w (d' + 4 * k') = mem st (d' + 4 * k').
Proof.
  intros Hd Hd' Hk Hk' Hne. unfold store. rewrite (proj2 (Z.eqb_neq _ _)); [done|]. intros Heq.
  destruct (dir_aligned _ _ Hwf d Hd) as [? _]. destruct (dir_aligned _ _ Hwf d' Hd') as [? _].
  destruct (word_inj d' k' d k) as [_ ?]; auto.
Qed.

Lemma new_ktable :
  KERNEL_PD_FIRST ≤ i < 1022 →
  ∃ m2, vzero_page (set_mem st (store (mem st) (kpd st + 4 * i) (t + 3))) (kernel_page_tables i) =
      Ok (set_mem st m2) ∧
    publish (set_mem st m2) i (t + 3) = set_mem st (mem (publish (set_mem st m2) i (t + 3))) ∧
    ∀ x, mem (publish (set_mem st m2) i (t + 3)) x = with_table (mem st) (dirs st) i t (t + 3) x.
Proof.
  intros Hi. change KERNEL_PD_FIRST with 768 in Hi.
  pose proof (pw_kernel _ _ Hwf) as HK. pose proof (pw_active _ _ Hwf) as HA.
  destruct (dir_aligned _ _ Hwf _ HK) as [Hkal Hkr].
  set (m1 := store (mem st) (kpd st + 4 * i) (t + 3)).
  assert (∀ x, 0 ≤ m1 x < 2 ^ 32) as Hw.
  { intros x. unfold m1, store. case_if; [unfold PAGE_SIZE in *; dlia|]. apply (pw_word _ _ Hwf). }
  assert (mmu m1 (apd st) (kernel_page_tables i) = Some t) as Hmmu.
  { unfold kernel_page_tables, PAGE_SIZE in *. rewrite mmu_walk by (done || lia).
    replace ((0xFF800000 + i * 4096) / 2 ^ 22) with 1022 by dlia.
    replace (((0xFF800000 + i * 4096) / 2 ^ 12) mod 1024) with i by dlia.
    replace ((0xFF800000 + i * 4096) mod 4096) with 0 by dlia.
    assert (m1 (apd st + 4 * 1022) = kpd st + 3) as Harea.
    { unfold m1. rewrite store_dir by (done || lia). by apply (pw_area _ _ Hwf). }
    assert (m1 (kpd st + 4 * i) = t + 3) as Hnew by (unfold m1, store; by rewrite Z.eqb_refl).
    unfold pte_word. rewrite Harea, frame_of_add, Hnew, (present_add (kpd st)) by (done || lia).
    cbv zeta iota. rewrite present_add, frame_of_add by (done || lia). f_equal. lia. }
  exists (λ x, if (t <=? x) && (x <? t + PAGE_SIZE) then 0 else m1 x).
  split; [by apply vzero_at|]. set (st2 := set_mem st _).
  destruct (publish_mem st2 i (t + 3)) as [Hp1 Hp2]. split; [rewrite Hp1 at 1; done|].
  intros x. rewrite Hp2. unfold with_table. change (dirs st2) with (dirs st). cbn [mem set_mem st2].
  case_bool_decide as Hx.
  - apply list_elem_of_fmap in Hx as (d & -> & Hd). by rewrite not_in_table by (done || lia).
  - destruct (_ && _); [done|]. unfold m1, store. rewrite (proj2 (Z.eqb_neq _ _)); [done|].
    intros ->. apply Hx. apply list_elem_of_fmap. eauto.
Qed.

Lemma new_utable :
  0 ≤ i < KERNEL_PD_FIRST →
  ∃ m1 m2, vstore st (page_directory i) (t + 7) = Ok (set_mem st m1) ∧
    vzero_page (set_mem st m1) (page_table i) = Ok (set_mem st m2) ∧
    ∀ x, m2 x = with_table (mem st) [apd st] i t (t + 7) x.
Proof.
  intros Hi. change KERNEL_PD_FIRST with 768 in Hi. pose proof (pw_active _ _ Hwf) as HA.
  destruct (dir_aligned _ _ Hwf _ HA) as [Hal Hr].
  set (m1 := store (mem st) (apd st + 4 * i) (t + 7)).
  exists m1, (λ x, if (t <=? x) && (x <? t + PAGE_SIZE) then 0 else m1 x).
  unfold vstore. fold (apd st). rewrite (access_pd tag st Hwf) by lia. split; [done|].
  assert (∀ x, 0 ≤ m1 x < 2 ^ 32) as Hw.
  { intros x. unfold m1, store. case_if; [unfold PAGE_SIZE in *; dlia|]. apply (pw_word _ _ Hwf). }
  split.
  - apply vzero_at. unfold page_table, PAGE_SIZE in *. rewrite u32_small by lia.
    rewrite mmu_walk by (done || lia).
    replace ((0xFFC00000 + i * 4096) / 2 ^ 22) with 1023 by dlia.
    replace (((0xFFC00000 + i * 4096) / 2 ^ 12) mod 1024) with i by dlia.
    replace ((0xFFC00000 + i * 4096) mod 4096) with 0 by dlia.
    assert (m1 (apd st + 4 * 1023) = apd st + 3) as Hself.
    { unfold m1. rewrite store_dir by (done || lia). by apply (pw_self _ _ Hwf). }
    assert (m1 (apd st + 4 * i) = t + 7) as Hnew by (unfold m1, store; by rewrite Z.eqb_refl).
    unfold pte_word. rewrite Hself, frame_of_add, Hnew, (present_add (apd st)) by (done || lia).
    cbv zeta iota. rewrite present_add, frame_of_add by (done || lia). f_equal. lia.
  - intros x. unfold with_table. destruct (_ && _); [done|].
    unfold m1, store. case_bool_decide as Hx; cbn [fmap list_fmap] in Hx; rewrite list_elem_of_singleton in Hx.
    + subst x. by rewrite Z.eqb_refl.
    + by rewrite (proj2 (Z.eqb_neq _ _)).
Qed.

End new_table.

(** ** [vmm_map_page] *)

Lemma wf_set_frames tag st fr :
  paging_wf tag st → pmm_wf fr → free_frames fr ⊆ free_frames (frames st) →
  paging_wf tag (set_frames st fr).
Proof.
  intros [] Hfr Hsub. constructor; try done; cbn [frames set_frames].
  intros f n Hn. destruct (pw_tag0 f n Hn) as (? & ? & Hf). split; [done|]. split; [done|].
  intros Hin. apply Hf. by apply Hsub.
Qed.

(** A frame from the allocator is no table's. *)
Lemma alloc_table tag st :
  paging_wf tag st →
  let '(t, fr) := pmm_alloc_frame (frames st) in
  paging_wf tag (set_frames st fr) ∧ frame_count fr = frame_count (frames st) ∧
  ((t = 0 ∧ free_frames (frames st) = ∅ ∧ free_frames fr = ∅) ∨
   (t ≠ 0 ∧ tag !! t = None ∧ t mod PAGE_SIZE = 0 ∧ 0 < t < 2 ^ 32 ∧
    t / PAGE_SIZE ∈ free_frames (frames st) ∧
    free_frames fr = free_frames (frames st) ∖ {[t / PAGE_SIZE]})).
Proof.
  intros Hwf. destruct (alloc_frame_step _ (pw_frames _ _ Hwf)) as [Hfr Hspec].
  pose proof (alloc_frame_count (frames st)) as Hfc.
  destruct (pmm_alloc_frame (frames st)) as [t fr]. simpl in *.
  destruct Hspec as [(He & -> & Hs)|(f & Hf & _ & -> & Hr & Hs)].
  - split; [apply wf_set_frames; [done|done|set_solver]|]. split; [done|]. left. by rewrite Hs.
  - rewrite Z.div_mul by done. split; [apply wf_set_frames; [done|done|set_solver]|].
    split; [done|]. right. split_and!; try done; try lia.
    + destruct (tag !! (f * PAGE_SIZE)) eqn:E; [|done].
      apply (pw_tag _ _ Hwf) in E as (_ & _ & E). by rewrite Z.div_mul in E.
    + by rewrite Z.mod_mul.
Qed.

(** The effect of [vmm_map_page] on tables and frames. *)
Definition tables_grow (tag tag' : gmap Z node) (st st' : machine) (i : Z) : Prop :=
  (tag' = tag ∧ free_frames (frames st') = free_frames (frames st)) ∨
  (∃ t, tag !! t = None ∧ tag' = <[t := table_node (apd st) i]> tag ∧
    t / PAGE_SIZE ∈ free_frames (frames st) ∧
    free_frames (frames st') = free_frames (frames st) ∖ {[t / PAGE_SIZE]}).

Definition same_spaces (st st' : machine) : Prop :=
  all_spaces st' = all_spaces st ∧ active st' = active st ∧ kernel_space st' = kernel_space st ∧
  frame_count (frames st') = frame_count (frames st).

Definition map_result (tag tag' : gmap Z node) (st st' : machine) (virt phys flags rc : Z) : Prop :=
  let i := pd_index_of virt in
  let j := pt_index_of virt in
  let args_ok := virt mod PAGE_SIZE = 0 ∧ phys mod PAGE_SIZE = 0 ∧
                 truth (Z.land flags VMM_USER) = (virt <? USER_SPACE_TOP) in
  paging_wf tag' st' ∧ same_spaces st st' ∧ tables_grow tag tag' st st' i ∧
  ((rc = 0 ∧ args_ok ∧ present (pte_word (mem st) (apd st) i j) = false ∧
    view_update st (mem st') (apd st) i j (phys + pte_bits flags)) ∨
   (rc = -1 ∧ view_same st (mem st') ∧
    (¬ args_ok ∨ present (pte_word (mem st) (apd st) i j) = true ∨ free_frames (frames st) = ∅))).

Lemma page_args virt phys :
  truth (Z.land (Z.lor virt phys) (PAGE_SIZE - 1)) = false ↔
  virt mod PAGE_SIZE = 0 ∧ phys mod PAGE_SIZE = 0.
Proof.
  rewrite truth_false_iff, Z.land_lor_distr_l, Z.lor_eq_0_iff.
  change (PAGE_SIZE - 1) with (2 ^ 12 - 1). by rewrite !land_ones_mod.
Qed.

(** Entering the page once its table is there. *)
Lemma map_after_table tag tag' st st1 virt phys flags :
  paging_wf tag' st1 → same_spaces st st1 → tables_grow tag tag' st st1 (pd_index_of virt) →
  view_same st (mem st1) → 0 ≤ virt < KERNEL_PT_AREA_START → 0 ≤ phys < 2 ^ 32 →
  virt mod PAGE_SIZE = 0 → phys mod PAGE_SIZE = 0 →
  truth (Z.land flags VMM_USER) = (virt <? USER_SPACE_TOP) →
  present (mem st1 (apd st1 + 4 * pd_index_of virt)) = true →
  ∃ rc st', map_entry st1 virt phys flags = Ok (rc, st') ∧ map_result tag tag' st st' virt phys flags rc.
Proof.
  intros Hwf Hsp Hgrow Hview Hv Hphys Hva Hpa Huser Hp. pose proof Hsp as (Hall & Hact & _).
  assert (dirs st1 = dirs st) as Hdirs by (unfold dirs; by rewrite Hall).
  assert (apd st1 = apd st) as Hapd by (unfold apd; by rewrite Hact).
  pose proof (map_entry_spec tag' st1 virt phys flags Hwf Hv Hpa Hphys Hp) as Hme. cbv zeta in Hme.
  assert (0 ≤ pd_index_of virt < 1022 ∧ 0 ≤ pt_index_of virt < 1024) as [Hi Hj].
  { rewrite pd_index_div, pt_index_mod. split; dlia. }
  pose proof (pw_active _ _ Hwf) as HA. rewrite Hdirs, Hapd in HA.
  assert (pte_word (mem st1) (apd st1) (pd_index_of virt) (pt_index_of virt) =
    pte_word (mem st) (apd st) (pd_index_of virt) (pt_index_of virt)) as Hpte.
  { rewrite Hapd. by apply Hview. }
  destruct (present (pte_word (mem st1) _ _ _)) eqn:E; rewrite Hpte in E.
  - exists (-1), st1. split; [done|]. split_and!; try done. right. auto.
  - destruct Hme as (m' & Em & Hwf' & Hupd). exists 0, (set_mem st1 m'). split; [done|].
    split_and!; try done. left. split_and!; try done.
    intros d' i' j' Hd' Hi' Hj'. cbn [mem set_mem].
    rewrite Hupd by (rewrite ?Hdirs; done). rewrite Hapd. case_bool_decide; [done|]. by apply Hview.
Qed.

(** The table that [sharing] directories get, and what is then mapped. *)
Lemma table_added tag st t fr i b m' :
  paging_wf tag st → paging_wf tag (set_frames st fr) →
  tag !! t = None → t mod PAGE_SIZE = 0 → 0 < t < 2 ^ 32 → t / PAGE_SIZE ∈ free_frames (frames st) →
  free_frames fr = free_frames (frames st) ∖ {[t / PAGE_SIZE]} →
  frame_count fr = frame_count (frames st) →
  0 ≤ i < 1022 → present (mem st (apd st + 4 * i)) = false → 0 ≤ b < 4096 → b mod 2 = 1 →
  (∀ x, m' x = with_table (mem st) (sharing st (apd st) i) i t (t + b) x) →
  let st' := set_mem (set_frames st fr) m' in
  let tag' := <[t := table_node (apd st) i]> tag in
  paging_wf tag' st' ∧ same_spaces st st' ∧ tables_grow tag tag' st st' i ∧ view_same st (mem st') ∧
  present (mem st' (apd st' + 4 * i)) = true.
Proof.
  intros Hwf0 Hwf Hfresh Hal Hr Hin Hfree Hfc Hi Habs Hb Hodd Hm' st' tag'.
  pose proof (pw_active _ _ Hwf) as HA.
  assert (t / PAGE_SIZE ∉ free_frames (frames (set_frames st fr))) as Hused
    by (cbn [frames set_frames]; rewrite Hfree; set_solver).
  split_and!; try done.
  - apply (wf_ext _ _ (with_table (mem st) (sharing st (apd st) i) i t (t + b))); [done|].
    by apply (add_table_wf tag (set_frames st fr) Hwf (apd st) i t b).
  - right. eauto 10.
  - intros d' i' j' Hd' Hi' Hj'. cbn [mem set_mem st']. rewrite (pte_word_ext _ _ _ _ _ Hm').
    by apply (add_table_view tag (set_frames st fr) Hwf (apd st) i t b).
  - cbn [mem set_mem st']. rewrite Hm'. change (apd st') with (apd st).
    pose proof (with_table_dir tag (set_frames st fr) Hwf (apd st) i t b HA Hi Hfresh Hal Hr Hused Hb (apd st) i HA ltac:(lia)) as Hw.
    cbn [mem set_frames] in Hw. change (sharing (set_frames st fr)) with (sharing st) in Hw.
    rewrite Hw, bool_decide_eq_true_2 by auto. by apply present_add.
Qed.

Lemma map_page_step tag st virt phys flags :
  paging_wf tag st → 0 ≤ virt < KERNEL_PT_AREA_START → 0 ≤ phys < 2 ^ 32 →
  ∃ rc st' tag', vmm_map_page st virt phys flags = Ok (rc, st') ∧
    map_result tag tag' st st' virt phys flags rc.
Proof.
  intros Hwf Hv Hphys. set (i := pd_index_of virt).
  assert (0 ≤ i < 1022) as Hi by (unfold i; rewrite pd_index_div; dlia).
  assert (view_same st (mem st)) as Hsame by by intros ?.
  assert (tables_grow tag tag st st i) as Hgrow by by left.
  unfold vmm_map_page. change 2%nat with (S 1). remember 1%nat as n eqn:Hn.
  cbn [map_page_locked]. fold i.
  destruct (_ || _) eqn:Eargs.
  { exists (-1), st, tag. split; [done|]. split_and!; try done. right. split_and!; try done.
    left. intros (H1 & H2 & H3). rewrite (proj2 (page_args virt phys)) in Eargs by done.
    rewrite H3, (proj2 (Z.eqb_neq i _)) in Eargs by (lia).
    by destruct (virt <? USER_SPACE_TOP). }
  apply orb_false_iff in Eargs as [[[Hva Hpa]%page_args _]%orb_false_iff Huser%negb_false_iff%Bool.eqb_prop].
  rewrite (vload_pd tag st Hwf) by lia. cbn [mbind outcome_bind].
  destruct (present (mem st (apd st + 4 * i))) eqn:Hp.
  { destruct (map_after_table tag tag st st virt phys flags) as (rc & st' & E & Hres); try done.
    exists rc, st', tag. done. }
  pose proof (alloc_table tag st Hwf) as Halloc.
  destruct (pmm_alloc_frame (frames st)) as [t fr] eqn:Ea. destruct Halloc as (Hwf1 & Hfc & Hcase).
  destruct Hcase as [(-> & Hempty & Hempty')|(Ht0 & Hfresh & Hal & Htr & Hin & Hfree)].
  { exists (-1), (set_frames st fr), tag. split; [done|]. split_and!; try done.
    - left. split; [done|]. cbn [frames set_frames]. by rewrite Hempty'.
    - right. auto. }
  rewrite (proj2 (Z.eqb_neq t 0)) by done. rewrite Z.geb_leb, Huser.
  assert (Z.lor (Z.lor t PTE_PRESENT) PTE_WRITABLE = t + 3) as Hpde.
  { rewrite <- Z.lor_assoc. by rewrite frame_lor. }
  rewrite Hpde. destruct (Z.leb_spec KERNEL_PD_FIRST i) as [Hk|Hk].
  - assert ((virt <? USER_SPACE_TOP) = false) as Hnu.
    { apply Z.ltb_ge. unfold i in Hk. rewrite pd_index_div in Hk. change KERNEL_PD_FIRST with 768 in Hk.
      unfold KERNEL_VIRT_BASE. dlia. }
    rewrite Hnu, Z.lor_0_r in *. assert (present (mem st (kpd st + 4 * i)) = false) as Hkp.
    { by rewrite <- (pw_shared _ _ Hwf (apd st)) by (lia || apply (pw_active _ _ Hwf)). }
    subst n. rewrite (map_ktable 0 tag (set_frames st fr)) by (done || lia). cbn [mbind outcome_bind Z.eqb negb].
    destruct (new_ktable tag (set_frames st fr) Hwf1 i t) as (m2 & Ez & Epub & Hm); try (done || lia).
    rewrite Ez. cbn [mbind outcome_bind]. rewrite Epub.
    destruct (table_added tag st t fr i 3 (mem (publish (set_mem (set_frames st fr) m2) i (t + 3)))
      Hwf Hwf1 Hfresh Hal Htr Hin Hfree Hfc Hi Hp ltac:(lia) eq_refl) as (Hw & Hsp & Hg & Hvw & Hpr).
    { intros x. rewrite Hm. unfold sharing. by rewrite (proj2 (Z.ltb_ge _ _)). }
    destruct (map_after_table tag _ st _ virt phys flags Hw Hsp Hg Hvw Hv Hphys Hva Hpa
      ltac:(by rewrite Hnu) Hpr) as (rc & st' & E & Hres).
    eexists _, _, _. split; [exact E|exact Hres].
  - assert ((virt <? USER_SPACE_TOP) = true) as Hu.
    { apply Z.ltb_lt. unfold i in Hk. rewrite pd_index_div in Hk. change KERNEL_PD_FIRST with 768 in Hk.
      unfold KERNEL_VIRT_BASE. dlia. }
    rewrite Hu. assert (Z.lor (t + 3) PTE_USER = t + 7) as ->.
    { rewrite <- Hpde, <- !Z.lor_assoc. by rewrite frame_lor. }
    destruct (new_utable tag (set_frames st fr) Hwf1 i t) as (m1 & m2 & Es & Ez & Hm); try (done || lia).
    rewrite Es. cbn [mbind outcome_bind]. rewrite Ez. cbn [mbind outcome_bind].
    destruct (table_added tag st t fr i 7 m2
      Hwf Hwf1 Hfresh Hal Htr Hin Hfree Hfc Hi Hp ltac:(lia) eq_refl) as (Hw & Hsp & Hg & Hvw & Hpr).
    { intros x. rewrite Hm. unfold sharing. by rewrite (proj2 (Z.ltb_lt _ _)). }
    destruct (map_after_table tag _ st _ virt phys flags Hw Hsp Hg Hvw Hv Hphys Hva Hpa Huser Hpr)
      as (rc & st' & E & Hres).
    eexists _, _, _. split; [exact E|exact Hres].
Qed.

(** ** Lookups *)

Lemma page_indices virt : 0 ≤ virt < KERNEL_PT_AREA_START →
  0 ≤ pd_index_of virt < 1022 ∧ 0 ≤ pt_index_of virt < 1024.
Proof.
  intros Hv. rewrite pd_index_div, pt_index_mod. split; dlia.
Qed.

Lemma pte_of_spec tag st virt :
  paging_wf tag st → 0 ≤ virt < KERNEL_PT_AREA_START →
  let i := pd_index_of virt in
  let j := pt_index_of virt in
  pte_of st virt = Ok (if present (pte_word (mem st) (apd st) i j) then page_table i + 4 * j else 0) ∧
  (present (pte_word (mem st) (apd st) i j) = true → present (mem st (apd st + 4 * i)) = true).
Proof.
  intros Hwf Hv i j. destruct (page_indices virt Hv) as [Hi Hj]. fold i in Hi. fold j in Hj.
  unfold pte_of. fold i j. rewrite (vload_pd tag st Hwf) by lia. cbn [mbind outcome_bind].
  destruct (present (mem st (apd st + 4 * i))) eqn:Hp; cbn [negb].
  - rewrite (vload_pt tag st Hwf) by (done || lia). done.
  - unfold pte_word. by rewrite Hp.
Qed.

Lemma page_table_nonzero i j : 0 ≤ i < 1023 → 0 ≤ j → truth (page_table i + 4 * j) = true.
Proof.
  intros Hi Hj. apply truth_nonzero. unfold page_table, PAGE_SIZE.
  rewrite u32_small; lia.
Qed.

Lemma unmap_page_step tag st virt :
  paging_wf tag st → 0 ≤ virt < KERNEL_PT_AREA_START →
  let i := pd_index_of virt in
  let j := pt_index_of virt in
  let e := pte_word (mem st) (apd st) i j in
  if present e then
    ∃ m', vmm_unmap_page st virt = Ok (Some (frame_of e), set_mem st m') ∧
      paging_wf tag (set_mem st m') ∧ view_update st m' (apd st) i j 0
  else vmm_unmap_page st virt = Ok (None, st).
Proof.
  intros Hwf Hv i j e. destruct (page_indices virt Hv) as [Hi Hj]. fold i in Hi. fold j in Hj.
  destruct (pte_of_spec tag st virt Hwf Hv) as [Hpte Hpd]. fold i j e in Hpte, Hpd.
  unfold vmm_unmap_page. rewrite Hpte. cbn [mbind outcome_bind]. fold i.
  rewrite (proj2 (Z.eqb_neq i _)) by (lia).
  destruct (present e) eqn:He; [|done]. specialize (Hpd eq_refl).
  rewrite page_table_nonzero by lia. cbn [negb andb].
  rewrite (vload_pt tag st Hwf), (vstore_pt tag st Hwf) by (done || lia). cbn [mbind outcome_bind].
  eexists. split; [done|]. apply set_entry; try done. apply (pw_active _ _ Hwf).
Qed.

(** ** Views as translations *)

(** The spaces [d'] that see a mapping of [virt] made in the space [d]. *)
Definition sees (virt d d' : Z) : Prop := USER_SPACE_TOP ≤ virt ∨ d' = d.

Lemma view_update_mmu st m' d virt w :
  (∀ x, 0 ≤ mem st x < 2 ^ 32) → (∀ x, 0 ≤ m' x < 2 ^ 32) → 0 ≤ virt < KERNEL_PT_AREA_START →
  view_update st m' d (pd_index_of virt) (pt_index_of virt) w →
  ∀ d' va, d' ∈ dirs st → 0 ≤ va < KERNEL_PT_AREA_START →
    mmu m' d' va =
      if bool_decide (va / PAGE_SIZE = virt / PAGE_SIZE ∧ sees virt d d')
      then (if present w then Some (frame_of w + va mod PAGE_SIZE) else None)
      else mmu (mem st) d' va.
Proof.
  intros Hm Hm' Hv Hupd d' va Hd' Hva.
  destruct (page_indices va Hva) as [Hi Hj]. rewrite pd_index_div in Hi. rewrite pt_index_mod in Hj.
  rewrite !mmu_walk by (done || (lia)). cbv zeta.
  rewrite Hupd by done. rewrite pd_index_div, pt_index_mod.
  assert ((va / 2 ^ 22 = virt / 2 ^ 22 ∧ (va / 2 ^ 12) mod 1024 = (virt / 2 ^ 12) mod 1024 ∧
    (KERNEL_PD_FIRST ≤ virt / 2 ^ 22 ∨ d' = d)) ↔
    (va / PAGE_SIZE = virt / PAGE_SIZE ∧ sees virt d d')) as Hiff.
  { unfold sees. change KERNEL_PD_FIRST with 768.
    assert (768 ≤ virt / 2 ^ 22 ↔ USER_SPACE_TOP ≤ virt) as -> by (unfold KERNEL_VIRT_BASE; dlia).
    assert (va / 2 ^ 22 = virt / 2 ^ 22 ∧ (va / 2 ^ 12) mod 1024 = (virt / 2 ^ 12) mod 1024 ↔
      va / PAGE_SIZE = virt / PAGE_SIZE) by (unfold PAGE_SIZE; dlia). tauto. }
  rewrite (bool_decide_ext _ _ Hiff). case_bool_decide; done.
Qed.

Lemma view_same_mmu st m' :
  (∀ x, 0 ≤ mem st x < 2 ^ 32) → (∀ x, 0 ≤ m' x < 2 ^ 32) → view_same st m' →
  ∀ d' va, d' ∈ dirs st → 0 ≤ va < KERNEL_PT_AREA_START → mmu m' d' va = mmu (mem st) d' va.
Proof.
  intros Hm Hm' Hsame d' va Hd' Hva.
  destruct (page_indices va Hva) as [Hi Hj]. rewrite pd_index_div in Hi. rewrite pt_index_mod in Hj.
  rewrite !mmu_walk by (done || (lia)). cbv zeta. rewrite !Hsame by done. done.
Qed.

Lemma mmu_present tag st virt :
  paging_wf tag st → 0 ≤ virt < KERNEL_PT_AREA_START →
  mmu (mem st) (apd st) virt =
    let e := pte_word (mem st) (apd st) (pd_index_of virt) (pt_index_of virt) in
    if present e then Some (frame_of e + virt mod PAGE_SIZE) else None.
Proof.
  intros Hwf Hv. rewrite mmu_walk by (apply (pw_word _ _ Hwf) || (lia)).
  by rewrite pd_index_div, pt_index_mod.
Qed.

(** ** The interface to the memory managers *)

(** A frame that is in use and is no table. *)
Definition frame_ok (tag : gmap Z node) (st : machine) (f : Z) : Prop :=
  f mod PAGE_SIZE = 0 ∧ 0 < f < 2 ^ 32 ∧ f / PAGE_SIZE < frame_count (frames st) ∧
  (f / PAGE_SIZE ∉ free_frames (frames st)) ∧ tag !! f = None.

Definition entry_at (st : machine) (va : Z) : Z :=
  pte_word (mem st) (apd st) (pd_index_of va) (pt_index_of va).

Record machine_owns (st : machine) (F : gset Z) (M : gmap Z Z) : Prop := {
  mo_frames : ∃ tag, paging_wf tag st ∧ (∀ f, f ∈ F → frame_ok tag st f) ∧
    (∀ va f, M !! va = Some f → frame_ok tag st f);
  mo_mapped va f : M !! va = Some f → kernel_page va ∧ entry_at st va = f + 3;
  mo_apart va f : M !! va = Some f → f ∉ F;
  mo_inj va va' f : M !! va = Some f → M !! va' = Some f → va = va'
}.

Lemma kernel_page_range va : kernel_page va → 0 ≤ va < KERNEL_PT_AREA_START.
Proof. intros [_ ?]. unfold KERNEL_VIRT_BASE in *. lia. Qed.

Lemma frame_ok_mono tag tag' st st' f :
  frame_ok tag st f → frame_count (frames st') = frame_count (frames st) →
  free_frames (frames st') ⊆ free_frames (frames st) → tag' !! f = None → frame_ok tag' st' f.
Proof.
  intros (? & ? & ? & Hf & ?) Hfc Hsub Htag. unfold frame_ok. rewrite Hfc. split_and!; try done; try lia.
  intros Hin. apply Hf. by apply Hsub.
Qed.

Lemma machine_alloc st F M :
  machine_owns st F M → ∃ f st', fm_alloc_frame st = (f, st') ∧
    (f = 0 ∧ machine_owns st' F M ∨ f ≠ 0 ∧ (f ∉ F) ∧ machine_owns st' ({[f]} ∪ F) M).
Proof.
  intros [(tag & Hwf & HF & HM) Hmap Hapart Hinj]. cbn [fm_alloc_frame paging_mapper].
  pose proof (alloc_table tag st Hwf) as Halloc.
  destruct (pmm_alloc_frame (frames st)) as [f fr]. destruct Halloc as (Hwf' & Hfc & Hcase).
  exists f, (set_frames st fr). split; [done|].
  destruct Hcase as [(-> & He & He')|(Hf0 & Hfresh & Hal & Hr & Hin & Hfree)].
  - left. split; [done|]. constructor; try done. exists tag. split; [done|].
    split; intros; (eapply frame_ok_mono; [eauto|done|cbn [frames set_frames]; set_solver|]); [by apply HF|].
    by eapply HM.
  - assert (∀ g, frame_ok tag st g → g ≠ f) as Hne.
    { intros g (? & ? & ? & Hg & _) ->. done. }
    assert (∀ g, frame_ok tag st g → frame_ok tag (set_frames st fr) g) as Hok.
    { intros g Hg. eapply frame_ok_mono; [done|done| |by destruct Hg as (_ & _ & _ & _ & ?)].
      cbn [frames set_frames]. rewrite Hfree. set_solver. }
    right. split; [done|]. split; [intros Hin'; by apply (Hne f (HF f Hin'))|].
    constructor; try done.
    + exists tag. split; [done|]. split; [|eauto].
      intros g [->%elem_of_singleton|Hg]%elem_of_union; [|auto].
      apply elem_free_frames in Hin as [? ?]. unfold frame_ok. cbn [frames set_frames].
      rewrite Hfc, Hfree. split_and!; try done; try lia. set_solver.
    + intros va g Hg. pose proof (HM _ _ Hg) as Hgok. apply Hne in Hgok. apply Hapart in Hg. set_solver.
Qed.

Lemma grow_frame_ok tag tag' st st' i g :
  tables_grow tag tag' st st' i → same_spaces st st' → frame_ok tag st g → frame_ok tag' st' g.
Proof.
  intros Hgrow (_ & _ & _ & Hfc) Hg. pose proof Hg as (_ & _ & _ & Hused & Htag).
  destruct Hgrow as [[-> Hfree]|(t & Hfresh & -> & Hin & Hfree)];
    (eapply frame_ok_mono; [done|done| |]); try (rewrite Hfree; set_solver); [done|].
  rewrite lookup_insert_ne; [done|]. intros ->. done.
Qed.

Lemma page_index_inj va va' :
  kernel_page va → kernel_page va' → pd_index_of va = pd_index_of va' → pt_index_of va = pt_index_of va' →
  va = va'.
Proof.
  unfold kernel_page, PAGE_SIZE. intros [? _] [? _]. rewrite !pd_index_div, !pt_index_mod. intros. dlia.
Qed.

Lemma entry_update st st' m' virt w va :
  mem st' = m' → apd st' = apd st → apd st ∈ dirs st → kernel_page virt → kernel_page va →
  view_update st m' (apd st) (pd_index_of virt) (pt_index_of virt) w →
  entry_at st' va = if decide (va = virt) then w else entry_at st va.
Proof.
  intros <- Hapd HA Hvirt Hva Hupd. unfold entry_at. rewrite Hapd.
  destruct (page_indices va (kernel_page_range va Hva)) as [Hi Hj]. rewrite Hupd by done.
  case_decide as Hd; [subst va; by rewrite bool_decide_eq_true_2 by auto|].
  rewrite bool_decide_eq_false_2; [done|]. intros (? & ? & _). apply Hd. by apply page_index_inj.
Qed.

Lemma machine_map st F M va f :
  machine_owns st F M → f ∈ F → kernel_page va → M !! va = None →
  ∃ rc st', fm_map_page st va f VMM_WRITABLE = Ok (rc, st') ∧
    (rc = 0 ∧ machine_owns st' (F ∖ {[f]}) (<[va := f]> M) ∨ rc ≠ 0 ∧ machine_owns st' F M).
Proof.
  intros [(tag & Hwf & HF & HM) Hmap Hapart Hinj] Hf Hva Hnone.
  destruct (HF f Hf) as (Hal & Hr & _).
  destruct (map_page_step tag st va f VMM_WRITABLE Hwf (kernel_page_range va Hva) ltac:(lia))
    as (rc & st' & tag' & E & Hwf' & Hsp & Hgrow & Hcase).
  exists rc, st'. split; [done|]. pose proof (pw_active _ _ Hwf) as HA.
  assert (apd st' = apd st) as Hapd by (destruct Hsp as (_ & Ha & _); unfold apd; by rewrite Ha).
  assert (∀ g, frame_ok tag st g → frame_ok tag' st' g) as Hok by (intros g; by eapply grow_frame_ok).
  destruct Hcase as [(-> & _ & _ & Hupd)|(-> & Hsame & _)].
  - left. split; [done|]. constructor.
    + exists tag'. split; [done|]. split; [intros g [Hg _]%elem_of_difference; auto|].
      intros va' g [[_ <-]|[_ Hg]]%lookup_insert_Some; [auto|eauto].
    + intros va' g Hg. assert (kernel_page va') as Hva'.
      { apply lookup_insert_Some in Hg as [[<- _]|[_ Hg]]; [done|]. by apply Hmap in Hg as [? _]. }
      split; [done|]. rewrite (entry_update st st' _ va _ va' eq_refl Hapd HA Hva Hva' Hupd).
      apply lookup_insert_Some in Hg as [[<- <-]|[Hne Hg]].
      * by rewrite decide_True.
      * rewrite decide_False by done. by apply Hmap.
    + intros va' g [[_ <-]|[_ Hg]]%lookup_insert_Some; [set_solver|]. apply Hapart in Hg. set_solver.
    + intros va1 va2 g. rewrite !lookup_insert_Some.
      intros [[<- <-]|[? H1]] [[<- H2]|[? H2]]; try done; subst; [by apply Hapart in H2|by apply Hapart in H1|].
      by eapply Hinj.
  - right. split; [done|]. constructor; try done; [exists tag'; eauto 10|].
    intros va' g Hg. destruct (Hmap va' g Hg) as [Hva' He]. split; [done|].
    unfold entry_at in *. rewrite Hapd, Hsame; [done|done|..]; by apply page_indices, kernel_page_range.
Qed.

Lemma machine_unmap st F M va f :
  machine_owns st F M → M !! va = Some f →
  ∃ st', fm_unmap_page st va = Ok (Some f, st') ∧ (f ∉ F) ∧ machine_owns st' ({[f]} ∪ F) (delete va M).
Proof.
  intros [(tag & Hwf & HF & HM) Hmap Hapart Hinj] Hf.
  destruct (Hmap va f Hf) as [Hva He]. pose proof (HM va f Hf) as (Hal & Hr & _).
  pose proof (unmap_page_step tag st va Hwf (kernel_page_range va Hva)) as Hstep. cbv zeta in Hstep.
  fold (entry_at st va) in Hstep. rewrite He, present_add, frame_of_add in Hstep by (done || lia).
  destruct Hstep as (m' & E & Hwf' & Hupd). exists (set_mem st m').
  split; [done|]. split; [by eapply Hapart|]. pose proof (pw_active _ _ Hwf) as HA. constructor.
  - exists tag. split; [done|]. split.
    + intros g [->%elem_of_singleton|Hg]%elem_of_union; [by apply (HM va)|by apply HF].
    + intros va' g [_ Hg]%lookup_delete_Some. by apply (HM va').
  - intros va' g [Hne Hg]%lookup_delete_Some. destruct (Hmap va' g Hg) as [Hva' He']. split; [done|].
    rewrite (entry_update st (set_mem st m') _ va _ va' eq_refl eq_refl HA Hva Hva' Hupd).
    by rewrite decide_False.
  - intros va' g [Hne Hg]%lookup_delete_Some. pose proof (Hapart va' g Hg).
    intros [->%elem_of_singleton|?]%elem_of_union; [|done]. by destruct (Hinj va va' f Hf Hg).
  - intros va1 va2 g [_ H1]%lookup_delete_Some [_ H2]%lookup_delete_Some. by eapply Hinj.
Qed.

Lemma machine_free st F M f :
  machine_owns st F M → f ∈ F → ∃ st', fm_free_frame st f = Ok st' ∧ machine_owns st' (F ∖ {[f]}) M.
Proof.
  intros [(tag & Hwf & HF & HM) Hmap Hapart Hinj] Hf.
  destruct (HF f Hf) as (Hal & Hr & Hfc & Hused & Htag).
  assert (f = f / PAGE_SIZE * PAGE_SIZE) as Hf' by (unfold PAGE_SIZE in *; dlia).
  destruct (wf_free_frame (frames st) (f / PAGE_SIZE) (pw_frames _ _ Hwf)) as (fr & E & Hfr & Hset).
  { unfold PAGE_SIZE in *. dlia. }
  { destruct (is_used (frames st) (f / PAGE_SIZE)) eqn:E; [done|]. destruct Hused.
    apply elem_free_frames. split; [unfold PAGE_SIZE in *; dlia|done]. }
  rewrite <- Hf' in E. pose proof (free_frame_count _ _ _ E) as Hcount.
  cbn [fm_free_frame paging_mapper]. rewrite E. exists (set_frames st fr). split; [done|].
  assert (∀ g, frame_ok tag st g → g ≠ f → frame_ok tag (set_frames st fr) g) as Hok.
  { intros g (Hg1 & ? & ? & Hg & ?) Hne. unfold frame_ok. cbn [frames set_frames].
    rewrite Hset, Hcount. split_and!; try done; try lia.
    intros [Heq%elem_of_singleton|?]%elem_of_union; [|done]. apply Hne. unfold PAGE_SIZE in *. dlia. }
  constructor; try done.
  - exists tag. split; [|split].
    + destruct Hwf. constructor; try done. cbn [frames set_frames]. intros g n Hn.
      destruct (pw_tag0 g n Hn) as (? & ? & Hg). split; [done|]. split; [done|]. rewrite Hset.
      intros [Heq%elem_of_singleton|?]%elem_of_union; [|done].
      assert (g = f) as -> by (unfold PAGE_SIZE in *; dlia). congruence.
    + intros g [Hg Hne]%elem_of_difference. apply Hok; [by apply HF|set_solver].
    + intros va g Hg. apply Hok; [by eapply HM|]. intros ->. by apply (Hapart va f).
  - intros va g Hg. apply Hapart in Hg. set_solver.
Qed.

#[export] Instance paging_mapper_laws : FrameMapperLaws machine := {
  owns := machine_owns;
  alloc_law := machine_alloc;
  map_law := machine_map;
  unmap_law := machine_unmap;
  free_law := machine_free
}.

(** ** User ranges *)

(** The processor lets user code read, or write, the byte at [va]. *)
Definition user_accessible (st : machine) (write : bool) (va : Z) : Prop :=
  let pde := mem st (apd st + 4 * pd_index_of va) in
  Z.testbit pde 0 = true ∧ Z.testbit pde 2 = true ∧
  Z.testbit (entry_at st va) 0 = true ∧ Z.testbit (entry_at st va) 2 = true ∧
  (write = true → Z.testbit (entry_at st va) 1 = true).

Lemma land_mask_iff x m : 0 ≤ m → Z.land x m = m ↔ ∀ n, 0 ≤ n → Z.testbit m n = true → Z.testbit x n = true.
Proof.
  intros Hm. split.
  - intros Heq n Hn Hb. rewrite <- Heq, Z.land_spec in Hb. by apply andb_true_iff in Hb as [? _].
  - intros Hb. apply Z.bits_inj'. intros n Hn. rewrite Z.land_spec. specialize (Hb n Hn).
    destruct (Z.testbit m n); [by rewrite Hb|]. apply andb_false_r.
Qed.

Lemma testbit_small m n k : 0 ≤ m < 2 ^ k → 0 ≤ k → Z.testbit m n = true → n < k.
Proof. intros Hm Hk Hb. destruct (decide (n < k)); [done|]. rewrite (testbit_high k m n) in Hb by lia. done. Qed.

Lemma need_bits x (write : bool) :
  Z.land x (Z.lor (Z.lor PTE_PRESENT PTE_USER) (if write then PTE_WRITABLE else 0)) =
    Z.lor (Z.lor PTE_PRESENT PTE_USER) (if write then PTE_WRITABLE else 0) ↔
  Z.testbit x 0 = true ∧ Z.testbit x 2 = true ∧ (write = true → Z.testbit x 1 = true).
Proof.
  rewrite land_mask_iff by by destruct write. split.
  - intros Hb. split_and!; [apply Hb; [done|by destruct write]..|]. intros ->. by apply Hb.
  - intros (H0 & H2 & H1) n Hn Hb.
    assert (n < 3) by (apply (testbit_small _ n 3) in Hb; [done|by destruct write|done]).
    assert (n = 0 ∨ n = 1 ∨ n = 2) as [->|[->| ->]] by lia; auto. destruct write; auto.
Qed.

Lemma range_pages_ok_spec tag st write n page :
  paging_wf tag st → page mod PAGE_SIZE = 0 → 0 ≤ page → page + Z.of_nat n * PAGE_SIZE ≤ USER_SPACE_TOP →
  ∃ b, range_pages_ok n st page (Z.lor (Z.lor PTE_PRESENT PTE_USER) (if write : bool then PTE_WRITABLE else 0)) = Ok b ∧
    (b = true ↔ ∀ k, 0 ≤ k < Z.of_nat n → user_accessible st write (page + k * PAGE_SIZE)).
Proof.
  intros Hwf. revert page. induction n as [|n IH]; intros page Hal Hpg Htop.
  { exists true. split; [done|]. split; [lia|done]. }
  cbn [range_pages_ok]. set (need := Z.lor _ (if write then _ else _)) in *.
  assert (0 ≤ page < KERNEL_PT_AREA_START) as Hr
    by (unfold KERNEL_VIRT_BASE, PAGE_SIZE in *; lia).
  destruct (page_indices page Hr) as [Hi Hj].
  rewrite (vload_pd tag st Hwf) by lia. cbn [mbind outcome_bind].
  set (pde := mem st (apd st + 4 * pd_index_of page)).
  assert (Z.land pde (Z.lor PTE_PRESENT PTE_USER) = Z.lor PTE_PRESENT PTE_USER ↔
    Z.testbit pde 0 = true ∧ Z.testbit pde 2 = true) as Hpde.
  { pose proof (need_bits pde false) as Hb. cbn [Z.lor] in Hb. etransitivity; [exact Hb|]. naive_solver. }
  destruct (Z.eqb_spec (Z.land pde (Z.lor PTE_PRESENT PTE_USER)) (Z.lor PTE_PRESENT PTE_USER)) as [Hyes|Hno]; cbn [negb].
  2: { exists false. split; [done|]. split; [done|]. intros Hall. destruct Hno. apply Hpde.
       destruct (Hall 0) as (? & ? & _); [lia|]. rewrite Z.mul_0_l, Z.add_0_r in *. done. }
  apply Hpde in Hyes as Hbits.
  assert (present pde = true) as Hp by (rewrite present_mod, <- Z.bit0_eqb; tauto).
  rewrite (vload_pt tag st Hwf) by (done || lia). cbn [mbind outcome_bind]. fold (entry_at st page).
  pose proof (need_bits (entry_at st page) write) as Hnb. fold need in Hnb.
  destruct (Z.eqb_spec (Z.land (entry_at st page) need) need) as [Hy|Hn]; cbn [negb].
  2: { exists false. split; [done|]. split; [done|]. intros Hall. destruct Hn. apply Hnb.
       destruct (Hall 0) as (_ & _ & ?); [lia|]. rewrite Z.mul_0_l, Z.add_0_r in *. done. }
  destruct (IH (page + PAGE_SIZE)) as (b & E & Hb);
    [unfold PAGE_SIZE in *; dlia|unfold PAGE_SIZE; lia|unfold PAGE_SIZE in *; lia|].
  exists b. split; [done|]. rewrite Hb. split; intros Hall k Hk.
  - destruct (decide (k = 0)) as [->|].
    + rewrite Z.mul_0_l, Z.add_0_r. unfold user_accessible. fold pde. tauto.
    + replace (page + k * PAGE_SIZE) with (page + PAGE_SIZE + (k - 1) * PAGE_SIZE) by lia. apply Hall. lia.
  - replace (page + PAGE_SIZE + k * PAGE_SIZE) with (page + (k + 1) * PAGE_SIZE) by lia. apply Hall. lia.
Qed.

(** ** New address spaces *)

Lemma copy_kernel_half (m0 : Z → Z) pd k :
  pd mod PAGE_SIZE = 0 → k mod PAGE_SIZE = 0 → pd ≠ k →
  let m := for_range KERNEL_PD_FIRST RECURSIVE_PD_INDEX (λ i m, store m (pd + 4 * i) (m (k + 4 * i))) m0 in
  (∀ i, KERNEL_PD_FIRST ≤ i < 1023 → m (pd + 4 * i) = m0 (k + 4 * i)) ∧
  (∀ x, (∀ i, KERNEL_PD_FIRST ≤ i < 1023 → x ≠ pd + 4 * i) → m x = m0 x).
Proof.
  intros Hpd Hk Hne. change KERNEL_PD_FIRST with 768. change RECURSIVE_PD_INDEX with 1023.
  apply (for_range_ind (λ n m, (∀ i, 768 ≤ i < n → m (pd + 4 * i) = m0 (k + 4 * i)) ∧
    (∀ x, (∀ i, 768 ≤ i < n → x ≠ pd + 4 * i) → m x = m0 x))); [lia|split; [lia|done]|].
  intros n m Hn [H1 H2]. unfold store. split.
  - intros i Hi. destruct (Z.eqb_spec (pd + 4 * i) (pd + 4 * n)) as [Heq|Hneq].
    + assert (i = n) as -> by lia. apply H2. intros i' Hi' Heq'. apply Hne.
      by destruct (word_inj k n pd i' Hk Hpd ltac:(lia) ltac:(lia) Heq').
    + apply H1. lia.
  - intros x Hx. rewrite (proj2 (Z.eqb_neq x _)) by (apply Hx; lia). apply H2. intros i Hi. apply Hx. lia.
Qed.

Lemma copy_range (m0 : Z → Z) pd k lo hi x :
  lo ≤ hi → (∀ x, 0 ≤ m0 x < 2 ^ 32) →
  0 ≤ for_range lo hi (λ i m, store m (pd + 4 * i) (m (k + 4 * i))) m0 x < 2 ^ 32.
Proof.
  intros Hle Hm. revert x. apply (for_range_ind (λ _ m, ∀ x, 0 ≤ m x < 2 ^ 32)); [done|done|].
  intros i m Hi IH x. unfold store. case_if; apply IH.
Qed.

Section join.
Context (tag : gmap Z node) (st : machine) (Hwf : paging_wf tag st) (pd : Z).
Context (Hfresh : tag !! pd = None) (Hal : pd mod PAGE_SIZE = 0) (Hr : 0 < pd < 2 ^ 32).
Context (Hused : pd / PAGE_SIZE ∉ free_frames (frames st)).
Context (Hzero : ∀ i, 0 ≤ i < KERNEL_PD_FIRST → mem st (pd + 4 * i) = 0).

Let st' := as_join st pd.

Lemma pd_not_kernel : pd ≠ kpd st.
Proof. intros ->. pose proof (pw_dir _ _ Hwf _ (pw_kernel _ _ Hwf)). congruence. Qed.

(** The new directory. *)
Lemma join_dir i : 0 ≤ i < 1024 →
  mem st' (pd + 4 * i) =
    if i =? 1023 then pd + 3 else if i <? KERNEL_PD_FIRST then 0 else mem st (kpd st + 4 * i).
Proof.
  intros Hi. destruct (dir_aligned _ _ Hwf _ (pw_kernel _ _ Hwf)) as [Hkal _].
  destruct (copy_kernel_half (mem st) pd (kpd st) Hal Hkal pd_not_kernel) as [H1 H2].
  unfold st', as_join. cbn [mem]. fold (kpd st). change (Z.shiftr KERNEL_PT_AREA_START 22) with 1022.
  set (m := for_range _ _ _ _) in *. rewrite <- Z.lor_assoc, frame_lor by done.
  change RECURSIVE_PD_INDEX with 1023. unfold store.
  assert ((kpd st + 4 * 1022 =? pd + 4 * 1023) = false) as ->.
  { apply Z.eqb_neq. intros Heq. apply pd_not_kernel.
    by destruct (word_inj (kpd st) 1022 pd 1023 Hkal Hal ltac:(lia) ltac:(lia) Heq). }
  change KERNEL_PD_FIRST with 768 in *.
  destruct (Z.eqb_spec (pd + 4 * i) (pd + 4 * 1022)) as [Heq|Hne1].
  { assert (i = 1022) as -> by lia. cbn [Z.eqb Z.ltb]. apply H2. intros k Hk Heq'. apply pd_not_kernel.
    by destruct (word_inj (kpd st) 1022 pd k Hkal Hal ltac:(lia) ltac:(lia) Heq'). }
  destruct (Z.eqb_spec i 1023) as [->|Hne2]; [by rewrite Z.eqb_refl|].
  rewrite (proj2 (Z.eqb_neq _ _)) by lia. destruct (Z.ltb_spec i 768).
  - rewrite H2 by lia. apply Hzero. lia.
  - apply H1. lia.
Qed.

(** Every other word is as it was. *)
Lemma join_other f k : f mod PAGE_SIZE = 0 → f ≠ pd → 0 ≤ k < 1024 → mem st' (f + 4 * k) = mem st (f + 4 * k).
Proof.
  intros Hf Hne Hk. destruct (dir_aligned _ _ Hwf _ (pw_kernel _ _ Hwf)) as [Hkal _].
  destruct (copy_kernel_half (mem st) pd (kpd st) Hal Hkal pd_not_kernel) as [_ H2].
  assert (∀ i, 0 ≤ i < 1024 → f + 4 * k ≠ pd + 4 * i) as Hno.
  { intros i Hi Heq. by destruct (word_inj _ _ _ _ Hf Hal Hk Hi Heq). }
  unfold st', as_join. cbn [mem]. fold (kpd st). change (Z.shiftr KERNEL_PT_AREA_START 22) with 1022.
  unfold store at 1 2. change RECURSIVE_PD_INDEX with 1023. rewrite !(proj2 (Z.eqb_neq _ _)) by (apply Hno; lia).
  apply H2. intros i Hi. apply Hno. change KERNEL_PD_FIRST with 768 in Hi. lia.
Qed.

Lemma join_wf : paging_wf (<[pd := Dir]> tag) st'.
Proof.
  assert (∀ f, is_Some (tag !! f) → <[pd := Dir]> tag !! f = tag !! f) as Hold.
  { intros f [n Hn]. apply lookup_insert_ne. congruence. }
  assert (∀ d, d ∈ dirs st → d mod PAGE_SIZE = 0 ∧ d ≠ pd) as Hdir.
  { intros d Hd. split; [by apply (dir_aligned _ _ Hwf)|]. intros ->. apply (pw_dir _ _ Hwf) in Hd. congruence. }
  pose proof (pw_kernel _ _ Hwf) as HK. destruct (Hdir _ HK) as [Hkal Hkne].
  assert (∀ d k, d ∈ dirs st → 0 ≤ k < 1024 → mem st' (d + 4 * k) = mem st (d + 4 * k)) as Hsame.
  { intros d k Hd Hk. destruct (Hdir d Hd). by apply join_other. }
  assert (∀ d, d ∈ dirs st' ↔ d = pd ∨ d ∈ dirs st) as Hdirs by (intros d; apply elem_of_cons).
  constructor; change (kpd st') with (kpd st).
  - apply (pw_frames _ _ Hwf).
  - intros x. unfold st', as_join. cbn [mem]. set (m := for_range _ _ _ _).
    assert (∀ x, 0 ≤ m x < 2 ^ 32) as Hm by (intros y; apply copy_range; [done|apply (pw_word _ _ Hwf)]).
    rewrite <- Z.lor_assoc, frame_lor by done. unfold store.
    change (Z.lor PTE_PRESENT PTE_WRITABLE) with 3.
    repeat case_if; try apply Hm; unfold PAGE_SIZE in *; dlia.
  - apply Hdirs. right. apply (pw_active _ _ Hwf).
  - apply Hdirs. by right.
  - intros d [->|Hd]%Hdirs; [apply lookup_insert_eq|]. apply (pw_dir _ _ Hwf) in Hd. rewrite Hold; eauto.
  - intros d [->|Hd]%Hdirs; [by rewrite join_dir by lia|]. rewrite Hsame by (done || lia). by apply (pw_self _ _ Hwf).
  - intros d [->|Hd]%Hdirs.
    + rewrite join_dir by lia. by apply (pw_area _ _ Hwf).
    + rewrite Hsame by (done || lia). by apply (pw_area _ _ Hwf).
  - intros d i [->|Hd]%Hdirs Hi; change KERNEL_PD_FIRST with 768 in Hi; rewrite (Hsame (kpd st)) by (done || lia).
    + rewrite join_dir by lia. change KERNEL_PD_FIRST with 768.
      rewrite (proj2 (Z.eqb_neq i 1023)), (proj2 (Z.ltb_ge i 768)) by lia. done.
    + rewrite Hsame by (done || lia). by apply (pw_shared _ _ Hwf).
  - intros d i [->|Hd]%Hdirs Hi.
    + rewrite join_dir by lia. rewrite (proj2 (Z.eqb_neq i 1023)) by lia.
      destruct (Z.ltb_spec i KERNEL_PD_FIRST) as [Hlt|Hge]; [done|]. intros Hp.
      apply (pw_table _ _ Hwf) in Hp; [|done..]. rewrite Hold by eauto. rewrite Hp.
      unfold table_node. by rewrite (proj2 (Z.ltb_ge i _)) by lia.
    + rewrite !Hsame by (done || lia). intros Hp. apply (pw_table _ _ Hwf) in Hp; [|done..]. rewrite Hold; eauto.
  - intros f n. rewrite lookup_insert_Some. intros [[<- <-]|[_ Hn]]; [done|]. by apply (pw_tag _ _ Hwf) in Hn.
Qed.

End join.

(** ** Theorems *)

(** What [map_page_locked] requires of its arguments. *)
Definition map_args_ok (virt phys flags : Z) : Prop :=
  virt mod PAGE_SIZE = 0 ∧ phys mod PAGE_SIZE = 0 ∧
  truth (Z.land flags VMM_USER) = (virt <? USER_SPACE_TOP).

(** below the window on the page tables, [vmm_map_page] never faults or
    panics and keeps the invariant; it returns 0 exactly with the page
    unmapped before, and then the page translates to [phys] in every address
    space that shares it (all of them for a kernel page, the active one for a
    user page) while every other translation of every address space is
    unchanged; when it returns -1 no translation changes, and the arguments
    were bad, the page was mapped, or no frame was free. *)
Theorem vmm_map_page_spec tag st virt phys flags :
  paging_wf tag st → 0 ≤ virt < KERNEL_PT_AREA_START → 0 ≤ phys < 2 ^ 32 →
  ∃ rc st' tag', vmm_map_page st virt phys flags = Ok (rc, st') ∧
    paging_wf tag' st' ∧ same_spaces st st' ∧
    ((rc = 0 ∧ map_args_ok virt phys flags ∧ mmu (mem st) (apd st) virt = None ∧
      ∀ d va, d ∈ dirs st → 0 ≤ va < KERNEL_PT_AREA_START →
        mmu (mem st') d va =
          if bool_decide (va / PAGE_SIZE = virt / PAGE_SIZE ∧ sees virt (apd st) d)
          then Some (phys + va mod PAGE_SIZE) else mmu (mem st) d va) ∨
     (rc = -1 ∧
      (∀ d va, d ∈ dirs st → 0 ≤ va < KERNEL_PT_AREA_START → mmu (mem st') d va = mmu (mem st) d va) ∧
      (¬ map_args_ok virt phys flags ∨ is_Some (mmu (mem st) (apd st) virt) ∨
       free_frames (frames st) = ∅))).
Proof.
  intros Hwf Hv Hphys.
  destruct (map_page_step tag st virt phys flags Hwf Hv Hphys) as (rc & st' & tag' & E & Hwf' & Hsp & _ & Hcase).
  exists rc, st', tag'. split; [done|]. split; [done|]. split; [done|].
  pose proof (mmu_present tag st virt Hwf Hv) as Hmmu. cbv zeta in Hmmu.
  destruct Hcase as [(-> & Hargs & Habs & Hupd)|(-> & Hsame & Hwhy)].
  - left. rewrite Habs in Hmmu. split_and!; try done. intros d va Hd Hva.
    rewrite (view_update_mmu st _ _ _ _ (pw_word _ _ Hwf) (pw_word _ _ Hwf') Hv Hupd d va Hd Hva).
    case_bool_decide; [|done]. destruct (pte_bits_range flags) as [Hb Hodd]. destruct Hargs as (_ & Hp & _).
    by rewrite present_add, frame_of_add by (done || lia).
  - right. split; [done|]. split.
    + apply view_same_mmu; [apply (pw_word _ _ Hwf)|apply (pw_word _ _ Hwf')|done].
    + destruct Hwhy as [?|[Hp|?]]; [by left| |by right; right].
      right. left. rewrite Hmmu, Hp. eauto.
Qed.

(** [vmm_translate] returns what the processor's walk gives, and
    [vmm_unmap_page] returns the frame of a mapped page and removes that
    translation, from every address space that shares it, and no other; of an
    unmapped page it returns -1 and changes nothing. *)
Theorem vmm_unmap_page_spec tag st virt :
  paging_wf tag st → 0 ≤ virt < KERNEL_PT_AREA_START →
  vmm_translate st virt = Ok (mmu (mem st) (apd st) virt) ∧
  match mmu (mem st) (apd st) virt with
  | None => vmm_unmap_page st virt = Ok (None, st)
  | Some pa => ∃ st', vmm_unmap_page st virt = Ok (Some (pa - virt mod PAGE_SIZE), st') ∧
      paging_wf tag st' ∧ same_spaces st st' ∧
      ∀ d va, d ∈ dirs st → 0 ≤ va < KERNEL_PT_AREA_START →
        mmu (mem st') d va =
          if bool_decide (va / PAGE_SIZE = virt / PAGE_SIZE ∧ sees virt (apd st) d)
          then None else mmu (mem st) d va
  end.
Proof.
  intros Hwf Hv. pose proof (mmu_present tag st virt Hwf Hv) as Hmmu. cbv zeta in Hmmu.
  pose proof (unmap_page_step tag st virt Hwf Hv) as Hun. cbv zeta in Hun.
  destruct (pte_of_spec tag st virt Hwf Hv) as [Hpte Hpd].
  destruct (page_indices virt Hv) as [Hi Hj]. split.
  - unfold vmm_translate. rewrite Hpte, Hmmu. cbn [mbind outcome_bind].
    destruct (present _) eqn:He; [|done]. rewrite page_table_nonzero by lia.
    rewrite (vload_pt tag st Hwf) by (auto || lia). cbn [mbind outcome_bind]. do 2 f_equal.
    change (PAGE_SIZE - 1) with (2 ^ 12 - 1). rewrite land_ones_mod by done.
    apply frame_lor; [|unfold PAGE_SIZE; dlia].
    assert (0 ≤ pte_word (mem st) (apd st) (pd_index_of virt) (pt_index_of virt) < 2 ^ 32)
      by (unfold pte_word; case_if; [apply (pw_word _ _ Hwf)|lia]).
    fold (frame_of (pte_word (mem st) (apd st) (pd_index_of virt) (pt_index_of virt))).
    rewrite frame_of_div by done. unfold PAGE_SIZE. dlia.
  - rewrite Hmmu. destruct (present _); [|done]. destruct Hun as (m' & E & Hwf' & Hupd).
    exists (set_mem st m'). rewrite E. split; [do 3 f_equal; lia|]. split_and!; try done.
    intros d va Hd Hva. by rewrite (view_update_mmu st _ _ _ _ (pw_word _ _ Hwf) (pw_word _ _ Hwf') Hv Hupd d va Hd Hva).
Qed.

Lemma user_accessible_page st write va va' :
  va / PAGE_SIZE = va' / PAGE_SIZE → user_accessible st write va → user_accessible st write va'.
Proof.
  intros Heq. unfold user_accessible, entry_at.
  assert (pd_index_of va' = pd_index_of va) as -> by (rewrite !pd_index_div; unfold PAGE_SIZE in *; dlia).
  assert (pt_index_of va' = pt_index_of va) as -> by (rewrite !pt_index_mod; unfold PAGE_SIZE in *; dlia).
  done.
Qed.

(** [vmm_user_range_ok] accepts a non-empty range exactly when it lies
    in user space without wrapping around and the page tables let user code
    access (write) every byte of it. *)
Theorem vmm_user_range_ok_spec tag st addr len write :
  paging_wf tag st → 0 ≤ addr < 2 ^ 32 → 0 < len < 2 ^ 32 →
  ∃ b, vmm_user_range_ok st addr len write = Ok b ∧
    (b = true ↔ addr + len ≤ USER_SPACE_TOP ∧ ∀ va, addr ≤ va < addr + len → user_accessible st write va).
Proof.
  intros Hwf Ha Hl. unfold vmm_user_range_ok. rewrite (proj2 (Z.eqb_neq len 0)) by lia.
  destruct (_ || _) eqn:Eb.
  { exists false. split; [done|]. split; [done|]. intros [Hle _].
    rewrite orb_true_iff, Z.geb_leb, Z.leb_le, Z.gtb_lt in Eb. lia. }
  apply orb_false_iff in Eb as [E1 E2]. rewrite Z.geb_leb in E1. zbool.
  assert (Z.land addr (not32 (PAGE_SIZE - 1)) = addr / PAGE_SIZE * PAGE_SIZE) as -> by (apply (land_not32_mask 12); lia).
  set (page := addr / PAGE_SIZE * PAGE_SIZE). set (n := (addr + len - page + PAGE_SIZE - 1) / PAGE_SIZE).
  assert (page ≤ addr < page + PAGE_SIZE ∧ page mod PAGE_SIZE = 0) as [Hp Hpm] by (unfold page, PAGE_SIZE; dlia).
  assert (page + (n - 1) * PAGE_SIZE < addr + len ≤ page + n * PAGE_SIZE) as Hn by (unfold n, PAGE_SIZE; dlia).
  assert (0 < n) as Hn0 by (unfold PAGE_SIZE in *; lia).
  destruct (range_pages_ok_spec tag st write (Z.to_nat n) page Hwf Hpm) as (b & E & Hb).
  { unfold page, PAGE_SIZE. dlia. }
  { rewrite Z2Nat.id by lia. unfold KERNEL_VIRT_BASE, PAGE_SIZE in *. dlia. }
  exists b. split; [done|]. rewrite Hb, Z2Nat.id by lia. split.
  - intros Hall. split; [lia|]. intros va Hva.
    apply (user_accessible_page _ _ (page + (va - page) / PAGE_SIZE * PAGE_SIZE)); [unfold PAGE_SIZE in *; dlia|].
    apply Hall. unfold PAGE_SIZE in *. dlia.
  - intros [_ Hall] k Hk. apply (user_accessible_page _ _ (Z.max addr (page + k * PAGE_SIZE))).
    + unfold PAGE_SIZE in *. dlia.
    + apply Hall. unfold PAGE_SIZE in *. dlia.
Qed.

(** a new address space (its directory a cleared frame of its own) keeps
    the invariant, leaves every translation of the others as it was, sees
    every kernel translation, and maps nothing in user space. *)
Theorem as_join_spec tag st pd :
  paging_wf tag st → tag !! pd = None → pd mod PAGE_SIZE = 0 → 0 < pd < 2 ^ 32 →
  pd / PAGE_SIZE ∉ free_frames (frames st) →
  (∀ i, 0 ≤ i < KERNEL_PD_FIRST → mem st (pd + 4 * i) = 0) →
  paging_wf (<[pd := Dir]> tag) (as_join st pd) ∧
  ∀ d va, d ∈ dirs st → 0 ≤ va < KERNEL_PT_AREA_START →
    mmu (mem (as_join st pd)) d va = mmu (mem st) d va ∧
    mmu (mem (as_join st pd)) pd va = if va <? USER_SPACE_TOP then None else mmu (mem st) d va.
Proof.
  intros Hwf Hfresh Hal Hr Hused Hzero.
  pose proof (join_wf tag st Hwf pd Hfresh Hal Hr Hused Hzero) as Hwf'. split; [done|].
  intros d va Hd Hva. destruct (page_indices va Hva) as [Hi Hj].
  rewrite pd_index_div in Hi. rewrite pt_index_mod in Hj.
  assert (∀ i, 0 ≤ i < 1022 → present (mem st (d + 4 * i)) = true → ∀ j, 0 ≤ j < 1024 →
    mem (as_join st pd) (frame_of (mem st (d + 4 * i)) + 4 * j) =
    mem st (frame_of (mem st (d + 4 * i)) + 4 * j)) as Htab.
  { intros i Hi' Hp j Hj'. destruct (table_aligned tag st Hwf d i Hd Hi' Hp) as [Hta _].
    apply (join_other tag); try done. intros Heq. apply (pw_table _ _ Hwf) in Hp; [|done..]. congruence. }
  destruct (dir_aligned tag st Hwf d Hd) as [Hdal _].
  assert (d ≠ pd) as Hne by (intros ->; apply (pw_dir _ _ Hwf) in Hd; congruence).
  assert (0 ≤ va < 2 ^ 32) as Hva' by (lia).
  rewrite !mmu_walk by (done || apply (pw_word _ _ Hwf) || apply (pw_word _ _ Hwf')). cbv zeta.
  unfold pte_word. rewrite (join_other tag st Hwf pd) by (done || lia).
  rewrite (join_dir tag st Hwf pd) by (done || lia).
  rewrite (proj2 (Z.eqb_neq (va / 2 ^ 22) 1023)) by lia.
  assert ((va / 2 ^ 22 <? KERNEL_PD_FIRST) = (va <? USER_SPACE_TOP)) as ->.
  { change KERNEL_PD_FIRST with 768. unfold KERNEL_VIRT_BASE.
    destruct (Z.ltb_spec va 0xC0000000), (Z.ltb_spec (va / 2 ^ 22) 768); try done; dlia. }
  assert ((va <? USER_SPACE_TOP) = false → mem st (kpd st + 4 * (va / 2 ^ 22)) = mem st (d + 4 * (va / 2 ^ 22))) as Hsh.
  { intros Hge%Z.ltb_ge. symmetry. apply (pw_shared _ _ Hwf); [done|].
    change KERNEL_PD_FIRST with 768. unfold KERNEL_VIRT_BASE in Hge. dlia. }
  destruct (present (mem st (d + 4 * (va / 2 ^ 22)))) eqn:Hp.
  - rewrite Htab by done. split; [done|]. destruct (va <? USER_SPACE_TOP); [done|].
    rewrite Hsh, Hp, Htab by done. done.
  - split; [done|]. destruct (va <? USER_SPACE_TOP); [done|]. by rewrite Hsh, Hp.
Qed.

(** *** A machine with an empty kernel directory *)

Definition example_kpd : Z := 0x110000.

Definition example_machine : machine :=
  Machine example_pmm
    (λ x, if (x =? example_kpd + 4 * 1022) || (x =? example_kpd + 4 * 1023) then example_kpd + 3 else 0)
    (AS example_kpd) [AS example_kpd] (AS example_kpd).

Lemma example_machine_wf : paging_wf {[example_kpd := Dir]} example_machine.
Proof.
  assert (∀ d, d ∈ dirs example_machine → d = example_kpd) as Hd.
  { intros d Hd. by apply list_elem_of_singleton in Hd. }
  constructor.
  - exact example_pmm_wf.
  - intros x. cbn [mem example_machine]. case_if; unfold example_kpd; lia.
  - by apply list_elem_of_singleton.
  - by apply list_elem_of_singleton.
  - intros d ->%Hd. apply lookup_singleton_eq.
  - by intros d ->%Hd.
  - by intros d ->%Hd.
  - by intros d i ->%Hd _.
  - intros d i ->%Hd Hi. cbn [mem example_machine].
    rewrite (proj2 (Z.eqb_neq _ _)), (proj2 (Z.eqb_neq _ _)) by lia. done.
  - intros f n [<- <-]%lookup_singleton_Some. split; [done|]. split; [done|].
    intros [_ Hf]%elem_free_frames. vm_compute in Hf. done.
Qed.

Lemma example_machine_owns : machine_owns example_machine ∅ ∅.
Proof.
  constructor; try (intros; by rewrite lookup_empty in * ).
  exists {[example_kpd := Dir]}. split; [exact example_machine_wf|].
  split; [set_solver|]. intros va f. by rewrite lookup_empty.
Qed.

Lemma vmm_map_page_spec_witness :
  ∃ rc st', vmm_map_page example_machine 0xD0000000 0x130000 VMM_WRITABLE = Ok (rc, st') ∧
    rc = 0 ∧ mmu (mem st') example_kpd 0xD0000123 = Some 0x130123.
Proof.
  destruct (vmm_map_page_spec {[example_kpd := Dir]} example_machine 0xD0000000 0x130000 VMM_WRITABLE
    example_machine_wf) as (rc & st' & tag' & E & _ & _ & Hcase).
  - split; [discriminate|reflexivity].
  - split; [discriminate|reflexivity].
  - assert (match vmm_map_page example_machine 0xD0000000 0x130000 VMM_WRITABLE with
      | Ok (rc, _) => rc =? 0 | _ => false end = true) as Hrc by (vm_compute; reflexivity).
    rewrite E in Hrc. apply Z.eqb_eq in Hrc. subst rc. exists 0, st'. split; [exact E|]. split; [reflexivity|].
    destruct Hcase as [(_ & _ & _ & Hview)|[H _]]; [|discriminate H].
    rewrite Hview; [vm_compute; reflexivity| |split; [discriminate|reflexivity]].
    apply list_elem_of_singleton. reflexivity.
Defined.

Lemma vmm_unmap_page_spec_witness :
  vmm_translate example_machine 0xD0000000 = Ok None ∧
  vmm_unmap_page example_machine 0xD0000000 = Ok (None, example_machine).
Proof.
  destruct (vmm_unmap_page_spec {[example_kpd := Dir]} example_machine 0xD0000000 example_machine_wf)
    as [H1 H2]; [split; [discriminate|reflexivity]|].
  replace (mmu (mem example_machine) (apd example_machine) 0xD0000000) with (@None Z) in H1, H2
    by (vm_compute; reflexivity).
  split; [exact H1|exact H2].
Defined.

Lemma vmm_user_range_ok_spec_witness :
  ∃ b, vmm_user_range_ok example_machine 0x1000 0x10 false = Ok b ∧
    (b = true ↔ 0x1000 + 0x10 ≤ USER_SPACE_TOP ∧
      ∀ va, 0x1000 ≤ va < 0x1000 + 0x10 → user_accessible example_machine false va).
Proof.
  apply (vmm_user_range_ok_spec {[example_kpd := Dir]}).
  - exact example_machine_wf.
  - split; [discriminate|reflexivity].
  - split; reflexivity.
Defined.

Lemma as_join_spec_witness :
  paging_wf (<[0x111000 := Dir]> {[example_kpd := Dir]}) (as_join example_machine 0x111000).
Proof.
  apply as_join_spec.
  - exact example_machine_wf.
  - reflexivity.
  - reflexivity.
  - split; reflexivity.
  - intros [_ Hf]%elem_free_frames. vm_compute in Hf. discriminate.
  - intros i Hi. change KERNEL_PD_FIRST with 768 in Hi. cbn [mem example_machine].
    unfold example_kpd. rewrite !(proj2 (Z.eqb_neq _ _)) by lia. reflexivity.
Defined.
