(* ===== verification/MemoryOnPaging.v ===== *)
(** * The memory managers on the paging code

    The theorems on the heap, the kernel pages and the kernel stacks hold of
    any [FrameMapper] that satisfies the laws; this file runs them on the
    model of [paging.c] and [pmm.c], whose instance is in [Paging.v]. *)
From S2P Require Import Prelude Pmm FrameMapper Heap Kpages Paging.
Local Open Scope Z_scope.

Definition kernel_heap : heap machine := heap_init (Heap (λ _, Block 0 0 0 0) 0 0 0 example_machine).

Lemma kernel_heap_inv : heap_inv kernel_heap ∅ ∅ ∅.
Proof. apply heap_init_inv; [exact example_machine_owns|done|]. intros va _. apply lookup_empty. Qed.

Definition first_pointer : Z := 0xD0000010.

Lemma first_kmalloc : ∃ st', kmalloc 300 kernel_heap 100 = Ok (first_pointer, st').
Proof.
  assert (match kmalloc 300 kernel_heap 100 with Ok (p, _) => p =? first_pointer | _ => false end = true) as H
    by (vm_compute; reflexivity).
  destruct (kmalloc 300 kernel_heap 100) as [[p st']| |]; try done.
  apply Z.eqb_eq in H. subst p. by exists st'.
Qed.

Lemma heap_run_safe_witness :
  ∃ st R, rtc heap_step (kernel_heap, ∅) (st, R) ∧ R !! first_pointer = Some 100 ∧
    ∃ st', kfree 1000 st first_pointer = Ok st'.
Proof.
  destruct first_kmalloc as (st' & E).
  assert (rtc heap_step (kernel_heap, ∅) (st', <[first_pointer := 100]> ∅)) as Hrun.
  { apply rtc_once. apply (step_kmalloc kernel_heap ∅ 100 300 first_pointer st'); [lia|done|exact E]. }
  exists st', (<[first_pointer := 100]> ∅). split; [exact Hrun|]. split; [apply lookup_insert_eq|].
  assert (heap_end st' = 0xD0001000) as He.
  { assert (match kmalloc 300 kernel_heap 100 with Ok (_, st) => heap_end st =? 0xD0001000 | _ => false end = true) as H
      by (vm_compute; reflexivity).
    rewrite E in H. by apply Z.eqb_eq in H. }
  destruct (heap_run_safe (Heap (λ _, Block 0 0 0 0) 0 0 0 example_machine) ∅ ∅ st' (<[first_pointer := 100]> ∅) 1000)
    as (_ & _ & Hheld & _).
  - exact example_machine_owns.
  - intros va _. apply lookup_empty.
  - reflexivity.
  - exact Hrun.
  - unfold enough. rewrite He. reflexivity.
  - destruct (Hheld first_pointer 100) as (_ & _ & _ & Hfree); [apply lookup_insert_eq|exact Hfree].
Defined.

Lemma kmalloc_refines_witness :
  ∃ p st' L' M', kmalloc 300 kernel_heap 100 = Ok (p, st') ∧ heap_inv st' L' ∅ M'.
Proof.
  destruct (kmalloc_refines kernel_heap ∅ ∅ ∅ 100 300) as (p & st' & L' & M' & E & Hinv & _).
  - exact kernel_heap_inv.
  - split; [reflexivity|discriminate].
  - reflexivity.
  - exists p, st', L', M'. split; [exact E|exact Hinv].
Defined.

(** A heap that holds one allocation. *)
Lemma one_allocation :
  ∃ (st : heap machine) M s, heap_inv st {[first_pointer := s]} ∅ M ∧ enough 1000 (heap_end st - KERNEL_HEAP_START).
Proof.
  destruct kernel_heap_inv as (l & Hrep & HL).
  destruct (kmalloc_step 300 kernel_heap l ∅ ∅ 100 Hrep) as (p & st' & l' & M' & E & Hrep' & _ & Hcase);
    [done|done|].
  destruct first_kmalloc as (st2 & E2). rewrite E2 in E. injection E as <- <-.
  destruct Hcase as [[H0 _]|(_ & _ & s & _ & HL')]; [discriminate H0|].
  exists st2, M', s. split.
  - exists l'. split; [done|]. by rewrite HL', HL, insert_empty.
  - assert (match kmalloc 300 kernel_heap 100 with Ok (_, st) => heap_end st =? 0xD0001000 | _ => false end = true) as H
      by (vm_compute; reflexivity).
    rewrite E2 in H. apply Z.eqb_eq in H. unfold enough. by rewrite H.
Qed.

Lemma kfree_refines_witness :
  ∃ st st' : heap machine, kfree 1000 st first_pointer = Ok st' ∧
    kfree 1000 st' first_pointer = Panic "kfree: double free".
Proof.
  destruct one_allocation as (st & M & s & Hinv & Hf). exists st.
  destruct (kfree_refines st _ ∅ M first_pointer s 1000 1000 Hinv (lookup_singleton_eq _ _) Hf)
    as (st' & E & _ & E2).
  exists st'. split; [exact E|exact E2].
Defined.

(** ** Kernel pages and stacks *)

Definition boot_kpages : kpages machine := Kpages (replicate (Z.to_nat SLOTS) false) example_machine.
Definition boot_kstacks : kstacks machine := Kstacks (replicate (Z.to_nat SLOT_COUNT) false) example_machine.

Lemma aget_replicate_false n i : aget false (replicate n false) i = false.
Proof.
  unfold aget. case_if; [done|]. destruct (replicate n false !! _) as [b|] eqn:E; [|done].
  apply lookup_replicate_1 in E as [-> _]. done.
Qed.

Lemma boot_kpages_ok : kpages_ok boot_kpages ∅ ∅.
Proof.
  constructor.
  - cbn [kp_used boot_kpages]. by rewrite length_replicate.
  - exact example_machine_owns.
  - intros i Hi. rewrite lookup_empty. cbn [kp_used boot_kpages]. rewrite aget_replicate_false.
    split; [by intros []|done].
Qed.

Lemma boot_kstacks_ok : kstacks_ok boot_kstacks ∅ ∅.
Proof.
  constructor.
  - cbn [slot_used boot_kstacks]. by rewrite length_replicate.
  - exact example_machine_owns.
  - intros s i Hs Hi. rewrite lookup_empty. cbn [slot_used boot_kstacks]. rewrite aget_replicate_false.
    split; [by intros []|done].
  - intros s Hs. apply lookup_empty.
Qed.

Lemma kpage_alloc_spec_witness :
  ∃ r st' M', kpage_alloc boot_kpages = Ok (r, st') ∧ kpages_ok st' ∅ M'.
Proof.
  destruct (kpage_alloc_spec boot_kpages ∅ ∅ boot_kpages_ok) as (r & st' & M' & H1 & H2 & _).
  exists r, st', M'. split; [exact H1|exact H2].
Defined.

Lemma kpage_free_spec_witness :
  ∃ msg, kpage_free boot_kpages 0xE2000000 = Panic msg.
Proof.
  pose proof (kpage_free_spec boot_kpages ∅ ∅ 0xE2000000 boot_kpages_ok) as H.
  assert (0 ≤ 0xE2000000 < 2 ^ 32) as Hr by (split; [discriminate|reflexivity]). specialize (H Hr).
  destruct (kpage_free boot_kpages 0xE2000000) as [st|msg|].
  - destruct H as (i & _ & _ & Hu & _). exfalso. cbn [kp_used boot_kpages] in Hu.
    rewrite aget_replicate_false in Hu. discriminate Hu.
  - exists msg. reflexivity.
  - destruct H.
Defined.

Lemma kstack_alloc_spec_witness :
  ∃ top st' M', kstack_alloc boot_kstacks = Ok (top, st') ∧ kstacks_ok st' ∅ M'.
Proof.
  destruct (kstack_alloc_spec boot_kstacks ∅ ∅ boot_kstacks_ok) as (top & st' & M' & H1 & H2 & _).
  exists top, st', M'. split; [exact H1|exact H2].
Defined.

Lemma kstack_free_spec_witness :
  ∃ msg, kstack_free boot_kstacks 0xE1003000 = Panic msg.
Proof.
  pose proof (kstack_free_spec boot_kstacks ∅ ∅ 0xE1003000 boot_kstacks_ok) as H.
  assert (0 ≤ 0xE1003000 < 2 ^ 32) as Hr by (split; [discriminate|reflexivity]). specialize (H Hr).
  destruct (kstack_free boot_kstacks 0xE1003000) as [st|msg|].
  - destruct H as (s & M' & _ & _ & Hu & _). exfalso. cbn [slot_used boot_kstacks] in Hu.
    rewrite aget_replicate_false in Hu. discriminate Hu.
  - exists msg. reflexivity.
  - destruct H.
Defined.
