(* ===== verification/Sched.v ===== *)
(** * The thread scheduler ([zkt/scheduler/sched.c])

    Threads are records in a map from their addresses; NULL is 0. Queues are
    linked through the fields of the threads as in the code: [next] links the
    run queue and every wait queue, [sleep_next] the sleepers, [all_next] all
    threads. A call of [schedule] includes [finish_switch], which runs on the
    new thread right after the switch. Interrupts are off during every
    operation, so each is one step.

    [sched_wf] relates the pointers to lists: a thread is on at most one
    queue, the run queue holds exactly the runnable threads, the sleepers are
    sorted, and the states of the threads agree with the queues. *)
From S2P Require Import Prelude.
Local Open Scope Z_scope.

Abbreviation TIMER_HZ := 100%Z (only parsing).
Abbreviation TIME_SLICE_MS := 20%Z (only parsing).
Abbreviation TIME_SLICE_TICKS := (TIME_SLICE_MS * TIMER_HZ / 1000)%Z (only parsing).

Inductive thread_state :=
| THREAD_RUNNABLE | THREAD_RUNNING | THREAD_SLEEPING | THREAD_BLOCKED | THREAD_DEAD.

#[export] Instance thread_state_eq_dec : EqDecision thread_state.
Proof. solve_decision. Defined.

Record thread := Thread {
  tid : Z;
  state : thread_state;
  stack_top : Z;
  wake_tick : Z;
  as_ : Z;
  process : Z;
  next : Z;
  sleep_next : Z;
  waiting_on : Z;
  timed_out : bool;
  all_next : Z
}.

Record waitq := Waitq { head : Z; tail : Z }.

Record sched := Sched {
  threads : gmap Z thread;
  waitqs : Z → waitq;
  current : Z;
  idle : Z;
  run_head : Z;
  run_tail : Z;
  sleepers : Z;
  switched_from : Z;
  all_threads : Z;
  preemptive : bool;
  idle_ticks : Z;
  slice_left : Z;
  next_id : Z;
  thread_count : Z;
  active_as : Z   (* the address space [vmm_as_activate] made active *)
}.

(** ** Fields *)

Definition null_thread : thread := Thread 0 THREAD_DEAD 0 0 0 0 0 0 0 false 0.

Definition thr (st : sched) (t : Z) : thread := default null_thread (threads st !! t).

Definition set_threads (st : sched) (m : gmap Z thread) : sched :=
  Sched m (waitqs st) (current st) (idle st) (run_head st) (run_tail st) (sleepers st)
    (switched_from st) (all_threads st) (preemptive st) (idle_ticks st) (slice_left st)
    (next_id st) (thread_count st) (active_as st).
Definition set_waitq (st : sched) (q : Z) (w : waitq) : sched :=
  Sched (threads st) (λ x, if x =? q then w else waitqs st x) (current st) (idle st) (run_head st)
    (run_tail st) (sleepers st) (switched_from st) (all_threads st) (preemptive st)
    (idle_ticks st) (slice_left st) (next_id st) (thread_count st) (active_as st).
Definition set_run (st : sched) (h t : Z) : sched :=
  Sched (threads st) (waitqs st) (current st) (idle st) h t (sleepers st)
    (switched_from st) (all_threads st) (preemptive st) (idle_ticks st) (slice_left st)
    (next_id st) (thread_count st) (active_as st).
Definition set_sleepers (st : sched) (s : Z) : sched :=
  Sched (threads st) (waitqs st) (current st) (idle st) (run_head st) (run_tail st) s
    (switched_from st) (all_threads st) (preemptive st) (idle_ticks st) (slice_left st)
    (next_id st) (thread_count st) (active_as st).
Definition set_current (st : sched) (c from as_ : Z) : sched :=
  Sched (threads st) (waitqs st) c (idle st) (run_head st) (run_tail st) (sleepers st)
    from (all_threads st) (preemptive st) (idle_ticks st) (slice_left st)
    (next_id st) (thread_count st) as_.
Definition set_all (st : sched) (a : Z) : sched :=
  Sched (threads st) (waitqs st) (current st) (idle st) (run_head st) (run_tail st) (sleepers st)
    (switched_from st) a (preemptive st) (idle_ticks st) (slice_left st)
    (next_id st) (thread_count st) (active_as st).
Definition set_counts (st : sched) (id n : Z) : sched :=
  Sched (threads st) (waitqs st) (current st) (idle st) (run_head st) (run_tail st) (sleepers st)
    (switched_from st) (all_threads st) (preemptive st) (idle_ticks st) (slice_left st)
    id n (active_as st).
Definition set_slice (st : sched) (n : Z) : sched :=
  Sched (threads st) (waitqs st) (current st) (idle st) (run_head st) (run_tail st) (sleepers st)
    (switched_from st) (all_threads st) (preemptive st) (idle_ticks st) n
    (next_id st) (thread_count st) (active_as st).
Definition set_idle_ticks (st : sched) (n : Z) : sched :=
  Sched (threads st) (waitqs st) (current st) (idle st) (run_head st) (run_tail st) (sleepers st)
    (switched_from st) (all_threads st) (preemptive st) n (slice_left st)
    (next_id st) (thread_count st) (active_as st).

Definition upd (st : sched) (t : Z) (f : thread → thread) : sched :=
  set_threads st (alter f t (threads st)).

Definition with_state (s : thread_state) (t : thread) : thread :=
  Thread (tid t) s (stack_top t) (wake_tick t) (as_ t) (process t) (next t) (sleep_next t)
    (waiting_on t) (timed_out t) (all_next t).
Definition with_next (n : Z) (t : thread) : thread :=
  Thread (tid t) (state t) (stack_top t) (wake_tick t) (as_ t) (process t) n (sleep_next t)
    (waiting_on t) (timed_out t) (all_next t).
Definition with_sleep_next (n : Z) (t : thread) : thread :=
  Thread (tid t) (state t) (stack_top t) (wake_tick t) (as_ t) (process t) (next t) n
    (waiting_on t) (timed_out t) (all_next t).
Definition with_all_next (n : Z) (t : thread) : thread :=
  Thread (tid t) (state t) (stack_top t) (wake_tick t) (as_ t) (process t) (next t) (sleep_next t)
    (waiting_on t) (timed_out t) n.
Definition with_wake_tick (n : Z) (t : thread) : thread :=
  Thread (tid t) (state t) (stack_top t) n (as_ t) (process t) (next t) (sleep_next t)
    (waiting_on t) (timed_out t) (all_next t).
Definition with_wait (q : Z) (out : bool) (t : thread) : thread :=
  Thread (tid t) (state t) (stack_top t) (wake_tick t) (as_ t) (process t) (next t) (sleep_next t)
    q out (all_next t).
Definition with_as (a : Z) (t : thread) : thread :=
  Thread (tid t) (state t) (stack_top t) (wake_tick t) a (process t) (next t) (sleep_next t)
    (waiting_on t) (timed_out t) (all_next t).

(** Every list of threads is shorter than this. *)
Definition fuel_of (st : sched) : nat := S (size (threads st)).

(** ** Queues *)

Definition run_enqueue (st : sched) (t : Z) : sched :=
  let st := upd st t (with_next 0) in
  if truth (run_tail st)
  then set_run (upd st (run_tail st) (with_next t)) (run_head st) t
  else set_run st t t.

Definition run_dequeue (st : sched) : Z * sched :=
  let t := run_head st in
  if truth t then
    let h := next (thr st t) in
    (t, set_run st h (if truth h then run_tail st else 0))
  else (t, st).

Definition all_threads_add (st : sched) (t : Z) : sched :=
  set_all (upd st t (with_all_next (all_threads st))) t.

(** [link] is 0 for [&all_threads], a thread for the address of its field. *)
Fixpoint all_remove_from (fuel : nat) (st : sched) (link t : Z) : outcome sched :=
  match fuel with
  | O => NoFuel
  | S fuel =>
      let p := if link =? 0 then all_threads st else all_next (thr st link) in
      if p =? t then
        let n := all_next (thr st t) in
        Ok (if link =? 0 then set_all st n else upd st link (with_all_next n))
      else all_remove_from fuel st p t
  end.

Definition all_threads_remove (st : sched) (t : Z) : outcome sched :=
  all_remove_from (fuel_of st) st 0 t.

Definition sleep_link (st : sched) (link : Z) : Z :=
  if link =? 0 then sleepers st else sleep_next (thr st link).

Definition set_sleep_link (st : sched) (link p : Z) : sched :=
  if link =? 0 then set_sleepers st p else upd st link (with_sleep_next p).

Fixpoint sleep_insert_at (fuel : nat) (st : sched) (link t : Z) : outcome sched :=
  match fuel with
  | O => NoFuel
  | S fuel =>
      let p := sleep_link st link in
      if truth p && (wake_tick (thr st p) <=? wake_tick (thr st t))
      then sleep_insert_at fuel st p t
      else Ok (set_sleep_link (upd st t (with_sleep_next p)) link t)
  end.

Definition sleep_insert (st : sched) (t : Z) : outcome sched := sleep_insert_at (fuel_of st) st 0 t.

Fixpoint sleep_remove_from (fuel : nat) (st : sched) (link t : Z) : outcome sched :=
  match fuel with
  | O => NoFuel
  | S fuel =>
      let p := sleep_link st link in
      if truth p && negb (p =? t) then sleep_remove_from fuel st p t
      else Ok (if truth p then set_sleep_link st link (sleep_next (thr st t)) else st)
  end.

Definition sleep_remove (st : sched) (t : Z) : outcome sched := sleep_remove_from (fuel_of st) st 0 t.

Fixpoint waitq_remove_from (fuel : nat) (st : sched) (q prev c t : Z) : outcome sched :=
  match fuel with
  | O => NoFuel
  | S fuel =>
      if c =? 0 then Ok st
      else if c =? t then
        let n := next (thr st c) in
        let st := if truth prev then upd st prev (with_next n)
                  else set_waitq st q (Waitq n (tail (waitqs st q))) in
        Ok (if tail (waitqs st q) =? c then set_waitq st q (Waitq (head (waitqs st q)) prev) else st)
      else waitq_remove_from fuel st q c (next (thr st c)) t
  end.

Definition waitq_remove (st : sched) (q t : Z) : outcome sched :=
  waitq_remove_from (fuel_of st) st q 0 (head (waitqs st q)) t.

(** ** Switching *)

(** A dead thread is reclaimed: it leaves the map of threads. *)
Definition finish_switch (st : sched) : outcome sched :=
  let prev := switched_from st in
  if bool_decide (state (thr st prev) = THREAD_DEAD) then
    all_threads_remove st prev ≫= λ st,
    let st := set_threads st (delete prev (threads st)) in
    Ok (set_counts st (next_id st) (thread_count st - 1))
  else Ok st.

Definition schedule (st : sched) : outcome sched :=
  let prev := current st in
  let st :=
    if bool_decide (state (thr st prev) = THREAD_RUNNING) then
      let st := upd st prev (with_state THREAD_RUNNABLE) in
      if negb (prev =? idle st) then run_enqueue st prev else st
    else st in
  let '(nxt, st) := run_dequeue st in
  let nxt := if nxt =? 0 then idle st else nxt in
  let st := upd st nxt (with_state THREAD_RUNNING) in
  let st := set_slice st TIME_SLICE_TICKS in
  if nxt =? prev then Ok st
  else finish_switch (set_current st nxt prev (as_ (thr st nxt))).

(** ** Threads *)

(** [t] is what [kmalloc] returned, [top] what [kstack_alloc] did. *)
Definition thread_alloc (st : sched) (t top : Z) : Z * sched :=
  if t =? 0 then (0, st)
  else if top =? 0 then (0, st)
  else
    let new := Thread (next_id st) THREAD_RUNNABLE top 0 0 0 0 0 0 false 0 in
    let st := set_threads st (<[t := new]> (threads st)) in
    let st := set_counts st (u32 (next_id st + 1)) (thread_count st + 1) in
    (t, all_threads_add st t).

(** [main] and [idle_] are the memory of the two threads, [top] is the stack of
    the idle thread. *)
Definition sched_init (main idle_ top : Z) : outcome sched :=
  if main =? 0 then Panic "sched_init: out of memory" else
  let st := Sched ∅ (λ _, Waitq 0 0) 0 0 0 0 0 0 0 false 0 0 0 0 0 in
  let st := set_threads st (<[main := Thread 0 THREAD_RUNNING 0 0 0 0 0 0 0 false 0]> (threads st)) in
  let st := all_threads_add (set_counts st 1 1) main in
  let '(idle_, st) := thread_alloc st idle_ top in
  if idle_ =? 0 then Panic "sched_init: out of memory" else
  Ok (Sched (threads st) (waitqs st) main idle_ (run_head st) (run_tail st) (sleepers st)
    (switched_from st) (all_threads st) (preemptive st) (idle_ticks st) TIME_SLICE_TICKS
    (next_id st) (thread_count st) (active_as st)).

Definition sched_enable_preemption (st : sched) : sched :=
  Sched (threads st) (waitqs st) (current st) (idle st) (run_head st) (run_tail st) (sleepers st)
    (switched_from st) (all_threads st) true (idle_ticks st) (slice_left st)
    (next_id st) (thread_count st) (active_as st).

Definition with_owner (a p : Z) (x : thread) : thread :=
  Thread (tid x) (state x) (stack_top x) (wake_tick x) a p (next x) (sleep_next x) (waiting_on x)
    (timed_out x) (all_next x).

(** [thread_alloc] and the enqueueing are two sections with interrupts off,
    here one step: between them the new thread is on no queue and only its
    creator knows it. *)
Definition thread_create_in (st : sched) (t top a p : Z) : Z * sched :=
  let '(t, st) := thread_alloc st t top in
  if truth t then (t, run_enqueue (upd st t (with_owner a p)) t) else (t, st).

Definition thread_create (st : sched) (t top : Z) : Z * sched := thread_create_in st t top 0 0.

Definition thread_address_space (st : sched) : Z := if truth (current st) then as_ (thr st (current st)) else 0.
Definition thread_process (st : sched) : Z := if truth (current st) then process (thr st (current st)) else 0.

Definition thread_leave_process (st : sched) : sched :=
  upd st (current st) (λ x, with_owner (as_ x) 0 x).

Definition thread_set_address_space (st : sched) (a : Z) : sched :=
  let st := upd st (current st) (with_as a) in
  set_current st (current st) (switched_from st) a.

Definition thread_yield (st : sched) : outcome sched := schedule st.

Definition thread_sleep_until (st : sched) (tick : Z) : outcome sched :=
  let c := current st in
  let st := upd st c (with_state THREAD_SLEEPING) in
  let st := upd st c (with_wake_tick tick) in
  sleep_insert st c ≫= schedule.

(** The panic after [schedule] is reached only if a dead thread runs again. *)
Definition thread_exit (st : sched) : outcome sched :=
  schedule (upd st (current st) (with_state THREAD_DEAD)).

(** ** Wait queues *)

Definition resched_if_idle (st : sched) : outcome sched :=
  if truth (current st) && (current st =? idle st) && truth (run_head st)
  then schedule st else Ok st.

Definition waitq_append (st : sched) (q t : Z) : sched :=
  let st := upd st t (with_next 0) in
  let w := waitqs st q in
  if truth (tail w)
  then set_waitq (upd st (tail w) (with_next t)) q (Waitq (head w) t)
  else set_waitq st q (Waitq t t).

Definition waitq_sleep (st : sched) (q : Z) : outcome sched :=
  let c := current st in
  let st := upd st c (with_state THREAD_BLOCKED) in
  schedule (waitq_append st q c).

Definition waitq_sleep_until (st : sched) (q tick : Z) : outcome sched :=
  let c := current st in
  let st := upd st c (with_wait q false) in
  let st := upd st c (with_wake_tick tick) in
  sleep_insert st c ≫= λ st, waitq_sleep st q.

Definition waitq_pop (st : sched) (q : Z) : outcome (Z * sched) :=
  let t := head (waitqs st q) in
  if truth t then
    let h := next (thr st t) in
    let st := set_waitq st q (Waitq h (if truth h then tail (waitqs st q) else 0)) in
    (if truth (waiting_on (thr st t))
     then sleep_remove st t ≫= λ st, Ok (upd st t (λ x, with_wait 0 (timed_out x) x))
     else Ok st) ≫= λ st,
    let st := upd st t (with_state THREAD_RUNNABLE) in
    Ok (t, run_enqueue st t)
  else Ok (t, st).

Definition waitq_wake_one (st : sched) (q : Z) : outcome sched :=
  waitq_pop st q ≫= λ '(_, st), resched_if_idle st.

(** [while (waitq_pop(wq)) {}] *)
Fixpoint pop_all (fuel : nat) (st : sched) (q : Z) : outcome sched :=
  match fuel with
  | O => NoFuel
  | S fuel => waitq_pop st q ≫= λ '(t, st), if truth t then pop_all fuel st q else Ok st
  end.

Definition waitq_wake_all (st : sched) (q : Z) : outcome sched :=
  pop_all (fuel_of st) st q ≫= resched_if_idle.

(** ** The timer *)

(** The loop of [sched_tick] over the sleepers that are due. *)
Fixpoint wake_due (fuel : nat) (st : sched) (now : Z) : outcome sched :=
  match fuel with
  | O => NoFuel
  | S fuel =>
      let t := sleepers st in
      if truth t && (wake_tick (thr st t) <=? now) then
        let st := set_sleepers st (sleep_next (thr st t)) in
        (if truth (waiting_on (thr st t))
         then waitq_remove st (waiting_on (thr st t)) t ≫= λ st, Ok (upd st t (with_wait 0 true))
         else Ok st) ≫= λ st,
        let st := upd st t (with_state THREAD_RUNNABLE) in
        wake_due fuel (run_enqueue st t) now
      else Ok st
  end.

(** The time charged to a process ([process_account_tick]) is not part of
    this state. *)
Definition sched_tick (st : sched) (now : Z) : outcome sched :=
  if current st =? 0 then Ok st
  else
    let st := if current st =? idle st then set_idle_ticks st (u64 (idle_ticks st + 1)) else st in
    wake_due (fuel_of st) st now ≫= λ st,
    if current st =? idle st then
      if truth (run_head st) then schedule st else Ok st
    else if preemptive st then
      let st := set_slice st (u32 (slice_left st - 1)) in
      if slice_left st =? 0 then schedule st else Ok st
    else Ok st.

Definition sched_thread_count (st : sched) : Z := thread_count st.
Definition sched_idle_ticks (st : sched) : Z := idle_ticks st.
