(* ===== verification/SchedInv.v ===== *)
(** * The scheduler's invariant

    Lists behind the linked queues of [Sched.v], the invariant over them and
    its preservation by every operation; what each operation does to the run
    queue, the wait queues and the sleepers; and the order in which threads
    get to run. *)
From Stdlib Require Import Sorting.Sorted.
From S2P Require Import Prelude Sched.
Local Open Scope Z_scope.

(** ** Linked lists *)

(** From [h], following [nx], lie the threads [l]. *)
Fixpoint linked (nx : Z → Z) (h : Z) (l : list Z) : Prop :=
  match l with
  | [] => h = 0
  | x :: l => h = x ∧ x ≠ 0 ∧ linked nx (nx x) l
  end.

Definition last_of (l : list Z) : Z := default 0 (last l).

Lemma linked_ext nx nx' h l : (∀ x, x ∈ l → nx' x = nx x) → linked nx h l → linked nx' h l.
Proof.
  revert h. induction l as [|x l IH]; intros h Hx; simpl; [done|].
  intros (-> & ? & ?). split; [done|]. split; [done|].
  rewrite Hx by apply list_elem_of_here. apply IH; [|done]. intros y ?. apply Hx. by apply list_elem_of_further.
Qed.

Lemma linked_nonzero nx h l x : linked nx h l → x ∈ l → x ≠ 0.
Proof.
  revert h. induction l as [|y l IH]; intros h; simpl; [by intros _ ?%elem_of_nil|].
  intros (_ & ? & Hl) [->|?]%elem_of_cons; [done|eauto].
Qed.

Lemma last_of_snoc l x : last_of (l ++ [x]) = x.
Proof. unfold last_of. by rewrite last_snoc. Qed.

Lemma last_of_in nx h l : linked nx h l → l ≠ [] → last_of l ∈ l ∧ last_of l ≠ 0.
Proof.
  intros Hl Hne. destruct l as [|x l _] using rev_ind; [done|]. rewrite last_of_snoc.
  split; [apply elem_of_app; right; by apply list_elem_of_singleton|].
  apply (linked_nonzero _ _ _ _ Hl). apply elem_of_app. right. by apply list_elem_of_singleton.
Qed.

Lemma linked_head nx h l : linked nx h l → h = 0 ↔ l = [].
Proof. destruct l; simpl; [naive_solver|]. intros (-> & ? & _). naive_solver. Qed.

Lemma last_of_zero nx h l : linked nx h l → last_of l = 0 ↔ l = [].
Proof.
  intros Hl. split; [|by intros ->]. intros Hz. destruct (decide (l = [])) as [|Hne]; [done|].
  by destruct (last_of_in _ _ _ Hl Hne).
Qed.

Lemma linked_snoc nx nx' h l t :
  linked nx h l → t ≠ 0 → t ∉ l → NoDup l →
  nx' t = 0 → (l ≠ [] → nx' (last_of l) = t) → (∀ x, x ∈ l → x ≠ last_of l → nx' x = nx x) →
  linked nx' (if last_of l =? 0 then t else h) (l ++ [t]).
Proof.
  revert h. induction l as [|x l IH]; intros h Hl Ht Hnin Hnd Ht0 Hlast Hsame; [simpl in *; auto|].
  destruct Hl as (-> & Hx & Hl). apply NoDup_cons in Hnd as [Hxl Hnd].
  rewrite not_elem_of_cons in Hnin. destruct Hnin as [Htx Htl].
  assert (last_of (x :: l) ≠ 0) as Hnz.
  { apply (last_of_in nx x); [simpl; auto|done]. }
  rewrite (proj2 (Z.eqb_neq _ _)) by done. cbn [app linked]. split; [done|]. split; [done|].
  destruct l as [|y l].
  { unfold last_of in Hlast. simpl in *. rewrite Hlast by done. auto. }
  assert (last_of (x :: y :: l) = last_of (y :: l)) as Heq by done. rewrite Heq in *.
  specialize (IH (nx x) Hl Ht Htl Hnd Ht0). rewrite (proj2 (Z.eqb_neq _ _)) in IH by done.
  rewrite Hsame.
  - apply IH; [intros _; by apply Hlast|]. intros z Hz ?. apply Hsame; [by apply list_elem_of_further|done].
  - apply list_elem_of_here.
  - intros ->. apply Hxl. by apply (last_of_in nx (nx (last_of (y :: l)))).
Qed.

(** The pointer out of the end of [l1]. *)
Definition out_of (nx : Z → Z) (h : Z) (l1 : list Z) : Z :=
  match last l1 with None => h | Some x => nx x end.

Lemma out_of_cons nx h x l1 : out_of nx h (x :: l1) = out_of nx (nx x) l1.
Proof. unfold out_of. rewrite last_cons. by destruct (last l1). Qed.

Lemma out_of_snoc nx h l1 x : out_of nx h (l1 ++ [x]) = nx x.
Proof. unfold out_of. by rewrite last_snoc. Qed.

Lemma linked_out nx h l1 l2 : linked nx h (l1 ++ l2) → linked nx (out_of nx h l1) l2.
Proof.
  revert h. induction l1 as [|x l1 IH]; intros h; [done|]. cbn [app linked]. rewrite out_of_cons.
  intros (_ & _ & Hl). by apply IH.
Qed.

(** Taking [t] out. *)
Lemma linked_remove nx nx' h l1 t l2 :
  linked nx h (l1 ++ t :: l2) → NoDup (l1 ++ t :: l2) →
  (∀ x, last l1 = Some x → nx' x = nx t) → (∀ x, x ∈ l1 ++ l2 → last l1 ≠ Some x → nx' x = nx x) →
  linked nx' (match l1 with [] => nx t | _ => h end) (l1 ++ l2).
Proof.
  revert h. induction l1 as [|y l1 IH]; intros h; cbn [app linked].
  - intros (-> & Ht & Hl) [Hn _]%NoDup_cons _ Hsame. apply (linked_ext nx); [|done].
    intros x Hx. by apply Hsame.
  - intros (-> & Hy & Hl) [Hn Hnd]%NoDup_cons Hlast Hsame. split; [done|]. split; [done|].
    assert (linked nx' (match l1 with [] => nx t | _ => nx y end) (l1 ++ l2)) as Hrec.
    { apply IH; try done.
      - intros x Hx. apply Hlast. destruct l1; [done|by rewrite last_cons_cons].
      - intros x Hx Hx'. apply Hsame; [by apply list_elem_of_further|].
        destruct l1 as [|z l1]; [|by rewrite last_cons_cons].
        intros [= <-]. apply Hn. simpl. by apply list_elem_of_further. }
    destruct l1 as [|z l1].
    + by rewrite (Hlast y eq_refl).
    + rewrite Hsame; [done|apply list_elem_of_here|]. rewrite last_cons_cons. intros Hx.
      apply Hn. apply elem_of_app. left. by apply last_Some_elem_of.
Qed.

(** Putting [t] in. *)
Lemma linked_insert nx nx' h l1 t l2 :
  linked nx h (l1 ++ l2) → NoDup (l1 ++ l2) → t ≠ 0 → t ∉ l1 ++ l2 →
  nx' t = out_of nx h l1 → (∀ x, last l1 = Some x → nx' x = t) →
  (∀ x, x ∈ l1 ++ l2 → last l1 ≠ Some x → nx' x = nx x) →
  linked nx' (match l1 with [] => t | _ => h end) (l1 ++ t :: l2).
Proof.
  revert h. induction l1 as [|y l1 IH]; intros h; cbn [app linked].
  - intros Hl Hnd Ht Hnin Hout _ Hsame. split; [done|]. split; [done|]. rewrite Hout.
    apply (linked_ext nx); [|done]. intros x Hx. by apply Hsame.
  - intros (-> & Hy & Hl) [Hn Hnd]%NoDup_cons Ht [Hty Hnin]%not_elem_of_cons Hout Hlast Hsame.
    split; [done|]. split; [done|]. rewrite out_of_cons in Hout.
    assert (linked nx' (match l1 with [] => t | _ => nx y end) (l1 ++ t :: l2)) as Hrec.
    { apply IH; try done.
      - intros x Hx. apply Hlast. destruct l1; [done|by rewrite last_cons_cons].
      - intros x Hx Hx'. apply Hsame; [by apply list_elem_of_further|].
        destruct l1 as [|z l1]; [|by rewrite last_cons_cons].
        intros [= <-]. by apply Hn. }
    destruct l1 as [|z l1].
    + by rewrite (Hlast y eq_refl).
    + rewrite Hsame; [done|apply list_elem_of_here|]. rewrite last_cons_cons. intros Hx.
      apply Hn. apply elem_of_app. left. by apply last_Some_elem_of.
Qed.

(** ** The invariant *)

Definition nxt (st : sched) (t : Z) : Z := next (thr st t).
Definition snxt (st : sched) (t : Z) : Z := sleep_next (thr st t).
Definition anxt (st : sched) (t : Z) : Z := all_next (thr st t).

(** Queue 0 is the run queue, every other one a wait queue. *)
Definition qhead (st : sched) (q : Z) : Z := if q =? 0 then run_head st else head (waitqs st q).
Definition qtail (st : sched) (q : Z) : Z := if q =? 0 then run_tail st else tail (waitqs st q).

Definition wakes_before (st : sched) (a b : Z) : Prop := wake_tick (thr st a) ≤ wake_tick (thr st b).

(** The list of all threads. *)
Record all_ok (st : sched) (A : list Z) : Prop := {
  l_all : linked (anxt st) (all_threads st) A;
  l_dom t : t ∈ A ↔ is_Some (threads st !! t);
  l_all_nodup : NoDup A
}.

(** The run queue and the wait queues. *)
Record queues_ok (st : sched) (Q : Z → list Z) (A : list Z) : Prop := {
  l_queue q : linked (nxt st) (qhead st q) (Q q);
  l_tail q : qtail st q = last_of (Q q);
  l_nodup q : NoDup (Q q);
  l_disjoint q q' t : t ∈ Q q → t ∈ Q q' → q = q';
  l_in q t : t ∈ Q q → t ∈ A
}.

(** The sleepers. *)
Record sleep_ok (st : sched) (S A : list Z) : Prop := {
  l_sleep : linked (snxt st) (sleepers st) S;
  l_sleep_nodup : NoDup S;
  l_sorted : StronglySorted (wakes_before st) S;
  l_sleep_in t : t ∈ S → t ∈ A
}.

(** The pointers hold the queues [Q], the sleepers [S] and all threads [A]. *)
Record links (st : sched) (Q : Z → list Z) (S A : list Z) : Prop := {
  links_all : all_ok st A;
  links_queues : queues_ok st Q A;
  links_sleep : sleep_ok st S A
}.

(** The states agree with the queues. This holds even while the current
    thread has announced that it sleeps, blocks or dies but has not been
    switched away from. *)
Record agree (st : sched) (Q : Z → list Z) (S A : list Z) : Prop := {
  a_current : current st ∈ A;
  a_idle : idle st ∈ A;
  a_idle_state : state (thr st (idle st)) = THREAD_RUNNABLE ∨ state (thr st (idle st)) = THREAD_RUNNING;
  a_running t : t ∈ A → state (thr st t) = THREAD_RUNNING → t = current st;
  a_dead t : t ∈ A → state (thr st t) = THREAD_DEAD → t = current st;
  a_ready t : t ∈ A → (t ∈ Q 0 ↔ state (thr st t) = THREAD_RUNNABLE ∧ t ≠ idle st);
  a_blocked t : t ∈ A → (state (thr st t) = THREAD_BLOCKED ↔ ∃ q, q ≠ 0 ∧ t ∈ Q q);
  a_waiting t : t ∈ A → waiting_on (thr st t) ≠ 0 → t ∈ Q (waiting_on (thr st t));
  a_sleeping t : t ∈ A →
    (t ∈ S ↔ state (thr st t) = THREAD_SLEEPING ∨ waiting_on (thr st t) ≠ 0);
  a_count : thread_count st = Z.of_nat (length A)
}.

Record sched_wf (st : sched) (Q : Z → list Z) (S A : list Z) : Prop := {
  wf_links : links st Q S A;
  wf_agree : agree st Q S A;
  wf_running : state (thr st (current st)) = THREAD_RUNNING;
  wf_slice : 1 ≤ slice_left st ≤ TIME_SLICE_TICKS;
  wf_space : active_as st = as_ (thr st (current st))
}.

(** The fields that no operation on a list changes. *)
Definition fixed (st : sched) : Z * Z * Z * Z * bool * Z * Z :=
  (current st, idle st, slice_left st, thread_count st, preemptive st, idle_ticks st, active_as st).

(** ** Fields after an update *)

Lemma thr_upd st t f x :
  is_Some (threads st !! t) → thr (upd st t f) x = if decide (x = t) then f (thr st t) else thr st x.
Proof.
  intros [y Hy]. unfold thr, upd, set_threads. cbn [threads]. case_decide as Hx.
  - subst x. by rewrite lookup_alter_eq, Hy.
  - by rewrite lookup_alter_ne.
Qed.

Lemma dom_upd st t f x : is_Some (threads (upd st t f) !! x) ↔ is_Some (threads st !! x).
Proof.
  unfold upd, set_threads. cbn [threads]. rewrite lookup_alter_is_Some. done.
Qed.

(** Lists of distinct threads fit in the fuel. *)
Lemma size_threads (m : gmap Z thread) (A : list Z) :
  NoDup A → (∀ t, t ∈ A ↔ is_Some (m !! t)) → size m = length A.
Proof.
  intros Hnd Hdom. rewrite <- (size_dom (D := gset Z)).
  assert (dom m = list_to_set A) as ->.
  { apply set_eq. intros t. rewrite elem_of_dom, elem_of_list_to_set. symmetry. apply Hdom. }
  by apply size_list_to_set.
Qed.

Lemma sublist_fuel st l A :
  NoDup A → (∀ t, t ∈ A ↔ is_Some (threads st !! t)) → NoDup l → (∀ t, t ∈ l → t ∈ A) →
  (length l < fuel_of st)%nat.
Proof.
  intros HA Hdom Hl Hsub. unfold fuel_of. rewrite (size_threads _ A HA Hdom).
  apply Nat.lt_succ_r. apply submseteq_length. by apply NoDup_submseteq.
Qed.

(** ** [run_enqueue] and [waitq_append] *)

(** The [next] fields after [t] was appended to a queue that ended in [tl]. *)
Definition app_next (st : sched) (tl t x : Z) : Z :=
  if decide (x = t) then 0 else if decide (tl ≠ 0 ∧ x = tl) then t else next (thr st x).

Lemma with_next_same t : with_next (next t) t = t.
Proof. by destruct t. Qed.

(** Both appends, on the threads. *)
Lemma append_thr st tl t x :
  is_Some (threads st !! t) → tl ≠ t → (tl ≠ 0 → is_Some (threads st !! tl)) →
  let st1 := upd st t (with_next 0) in
  thr (if truth tl then upd st1 tl (with_next t) else st1) x = with_next (app_next st tl t x) (thr st x).
Proof.
  intros Ht Hne Htl st1. unfold app_next. destruct (decide (tl = 0)) as [->|Hnz].
  - cbn [truth Z.eqb negb]. unfold st1. rewrite thr_upd by done.
    case_decide as Hx; [by subst|]. rewrite decide_False by tauto. by rewrite with_next_same.
  - rewrite truth_nonzero by done. rewrite thr_upd by (unfold st1; apply dom_upd; auto).
    unfold st1. rewrite !thr_upd by done. repeat case_decide; subst; try tauto; try done.
    by rewrite with_next_same.
Qed.

(** What appending [t] to queue [q] does. *)
Record appended (st st' : sched) (q t : Z) : Prop := {
  ap_thr x : thr st' x = with_next (app_next st (qtail st q) t x) (thr st x);
  ap_dom x : is_Some (threads st' !! x) ↔ is_Some (threads st !! x);
  ap_head q' : qhead st' q' = if decide (q' = q ∧ qtail st q = 0) then t else qhead st q';
  ap_tail q' : qtail st' q' = if decide (q' = q) then t else qtail st q';
  ap_rest : fixed st' = fixed st ∧ sleepers st' = sleepers st ∧ all_threads st' = all_threads st
}.

Lemma run_enqueue_appended st t :
  is_Some (threads st !! t) → run_tail st ≠ t → (run_tail st ≠ 0 → is_Some (threads st !! run_tail st)) →
  appended st (run_enqueue st t) 0 t.
Proof.
  intros Ht Hne Htl. pose proof (append_thr st (run_tail st) t) as Hthr. unfold run_enqueue.
  change (run_tail (upd st t (with_next 0))) with (run_tail st).
  destruct (truth (run_tail st)) eqn:E; constructor.
  - intros x. change (qtail st 0) with (run_tail st). by rewrite <- Hthr by done.
  - intros x. cbn [threads set_run]. by rewrite !dom_upd.
  - intros q'. apply truth_true_iff in E. unfold qhead, qtail.
    destruct (Z.eqb_spec q' 0) as [->|]; rewrite decide_False by (cbn; tauto); done.
  - intros q'. unfold qtail. by destruct (Z.eqb_spec q' 0) as [->|]; [rewrite decide_True|rewrite decide_False].
  - done.
  - intros x. change (qtail st 0) with (run_tail st). by rewrite <- Hthr by done.
  - intros x. cbn [threads set_run]. by rewrite !dom_upd.
  - intros q'. apply truth_false_iff in E. unfold qhead, qtail.
    destruct (Z.eqb_spec q' 0) as [->|]; [rewrite decide_True by auto|rewrite decide_False by tauto]; done.
  - intros q'. unfold qtail. by destruct (Z.eqb_spec q' 0) as [->|]; [rewrite decide_True|rewrite decide_False].
  - done.
Qed.

Lemma waitq_append_appended st q t :
  q ≠ 0 → is_Some (threads st !! t) → tail (waitqs st q) ≠ t →
  (tail (waitqs st q) ≠ 0 → is_Some (threads st !! tail (waitqs st q))) →
  appended st (waitq_append st q t) q t.
Proof.
  intros Hq Ht Hne Htl. pose proof (append_thr st (tail (waitqs st q)) t) as Hthr. unfold waitq_append.
  assert (qtail st q = tail (waitqs st q)) as Hqt by (unfold qtail; by rewrite (proj2 (Z.eqb_neq q 0))).
  change (waitqs (upd st t (with_next 0))) with (waitqs st).
  destruct (truth (tail (waitqs st q))) eqn:E; constructor; rewrite ?Hqt.
  - intros x. by rewrite <- Hthr by done.
  - intros x. cbn [threads set_waitq]. by rewrite !dom_upd.
  - intros q'. apply truth_true_iff in E. rewrite decide_False by tauto. unfold qhead.
    destruct (Z.eqb_spec q' 0) as [->|]; [done|]. cbn [waitqs set_waitq upd set_threads].
    by destruct (Z.eqb_spec q' q) as [->|].
  - intros q'. unfold qtail. cbn [waitqs set_waitq upd set_threads run_tail].
    destruct (Z.eqb_spec q' 0) as [->|]; [by rewrite decide_False|].
    by destruct (Z.eqb_spec q' q) as [->|]; [rewrite decide_True|rewrite decide_False].
  - done.
  - intros x. by rewrite <- Hthr by done.
  - intros x. cbn [threads set_waitq]. by rewrite !dom_upd.
  - intros q'. apply truth_false_iff in E. unfold qhead. cbn [waitqs set_waitq upd set_threads run_head].
    destruct (Z.eqb_spec q' 0) as [->|]; [by rewrite decide_False by (intros [<- _]; done)|].
    by destruct (Z.eqb_spec q' q) as [->|]; [rewrite decide_True|rewrite decide_False by tauto].
  - intros q'. unfold qtail. cbn [waitqs set_waitq upd set_threads run_tail].
    destruct (Z.eqb_spec q' 0) as [->|]; [by rewrite decide_False|].
    by destruct (Z.eqb_spec q' q) as [->|]; [rewrite decide_True|rewrite decide_False].
  - done.
Qed.

(** ** The lists after an update *)

Definition qset (Q : Z → list Z) (q : Z) (l : list Z) : Z → list Z := λ x, if decide (x = q) then l else Q x.

Lemma qset_eq Q q l : qset Q q l q = l.
Proof. unfold qset. by rewrite decide_True. Qed.
Lemma qset_ne Q q l x : x ≠ q → qset Q q l x = Q x.
Proof. intros. unfold qset. by rewrite decide_False. Qed.

Lemma elem_qset_app Q q t q' x : x ∈ qset Q q (Q q ++ [t]) q' ↔ x ∈ Q q' ∨ (q' = q ∧ x = t).
Proof.
  destruct (decide (q' = q)) as [->|].
  - rewrite qset_eq, elem_of_app, list_elem_of_singleton. tauto.
  - rewrite qset_ne by done. tauto.
Qed.

Lemma sorted_ext (R R' : Z → Z → Prop) l :
  (∀ x y, x ∈ l → y ∈ l → R x y → R' x y) → StronglySorted R l → StronglySorted R' l.
Proof.
  intros HR. induction 1 as [|x l Hs IH Hx]; constructor.
  - apply IH. intros y z ? ?. apply HR; by apply list_elem_of_further.
  - apply Forall_forall. intros y Hy. rewrite Forall_forall in Hx.
    apply HR; [apply list_elem_of_here|by apply list_elem_of_further|auto].
Qed.

(** ** Frames: what each part depends on *)

Lemma thr_upd_field {B} (P : thread → B) st t f x :
  P (f (thr st t)) = P (thr st t) → P (thr (upd st t f) x) = P (thr st x).
Proof.
  intros Hf. unfold thr, upd, set_threads in *. cbn [threads]. destruct (decide (x = t)) as [->|].
  - rewrite lookup_alter_eq. by destruct (threads st !! t).
  - by rewrite lookup_alter_ne.
Qed.

Lemma all_ok_same st st' A :
  all_threads st' = all_threads st → (∀ x, anxt st' x = anxt st x) →
  (∀ x, is_Some (threads st' !! x) ↔ is_Some (threads st !! x)) → all_ok st A → all_ok st' A.
Proof.
  intros Hh Hn Hd []. constructor; [|intros t; by rewrite Hd|done].
  rewrite Hh. by apply (linked_ext (anxt st)).
Qed.

Lemma queues_ok_same st st' Q A A' :
  (∀ q, qhead st' q = qhead st q) → (∀ q, qtail st' q = qtail st q) →
  (∀ q x, x ∈ Q q → nxt st' x = nxt st x ∧ x ∈ A') → queues_ok st Q A → queues_ok st' Q A'.
Proof.
  intros Hh Ht Hn []. constructor; try done.
  - intros q. rewrite Hh. apply (linked_ext (nxt st)); [|done]. intros x Hx. by apply (Hn q).
  - intros q. by rewrite Ht.
  - intros q t Hq. by apply (Hn q).
Qed.

Lemma sleep_ok_same st st' S A A' :
  sleepers st' = sleepers st →
  (∀ x, x ∈ S → snxt st' x = snxt st x ∧ wake_tick (thr st' x) = wake_tick (thr st x) ∧ x ∈ A') →
  sleep_ok st S A → sleep_ok st' S A'.
Proof.
  intros Hh Hn []. constructor; try done.
  - rewrite Hh. apply (linked_ext (snxt st)); [|done]. intros x Hx. by apply Hn.
  - eapply sorted_ext; [|done]. intros x y Hx Hy. unfold wakes_before.
    by rewrite (proj1 (proj2 (Hn x Hx))), (proj1 (proj2 (Hn y Hy))).
  - intros t Ht. by apply Hn.
Qed.

Lemma all_nonzero st A t : all_ok st A → t ∈ A → t ≠ 0.
Proof. intros []. by apply (linked_nonzero (anxt st) (all_threads st)). Qed.

(** Changing fields that are no links. *)
Lemma links_upd st Q S A t f :
  links st Q S A →
  next (f (thr st t)) = next (thr st t) → sleep_next (f (thr st t)) = sleep_next (thr st t) →
  all_next (f (thr st t)) = all_next (thr st t) →
  (wake_tick (f (thr st t)) = wake_tick (thr st t) ∨ t ∉ S) →
  links (upd st t f) Q S A.
Proof.
  intros [Ha Hq Hs] Hn Hsn Han Hw. constructor.
  - apply (all_ok_same st); [done| |apply dom_upd|done]. intros x. by apply (thr_upd_field all_next).
  - apply (queues_ok_same st _ _ A); [done..| |done]. intros q x Hx.
    split; [by apply (thr_upd_field next)|by eapply l_in].
  - apply (sleep_ok_same st _ _ A); [done| |done]. intros x Hx.
    split; [by apply (thr_upd_field sleep_next)|]. split; [|by eapply l_sleep_in].
    destruct Hw as [Hw|Hw]; [by apply (thr_upd_field wake_tick)|]. unfold thr, upd, set_threads. cbn [threads].
    rewrite lookup_alter_ne; [done|]. intros ->. done.
Qed.

(** ** Adding and taking threads *)

Lemma queues_append st st' Q A q t :
  queues_ok st Q A → appended st st' q t → t ∈ A → t ≠ 0 → (∀ q', t ∉ Q q') →
  queues_ok st' (qset Q q (Q q ++ [t])) A.
Proof.
  intros [Hlq Hlt Hnd Hdj Hin] [Hthr _ Hhead Htail _] Ht Ht0 Hnin.
  rewrite Hlt in Hthr, Hhead.
  assert (∀ x, nxt st' x = app_next st (last_of (Q q)) t x) as Hnext by (intros x; unfold nxt; by rewrite Hthr).
  constructor.
  - intros q'. rewrite Hhead. destruct (decide (q' = q)) as [->|Hne].
    + rewrite qset_eq. replace (if decide _ then t else qhead st q)
        with (if last_of (Q q) =? 0 then t else qhead st q)
        by (destruct (Z.eqb_spec (last_of (Q q)) 0); [by rewrite decide_True|by rewrite decide_False by tauto]).
      apply (linked_snoc (nxt st)); try done.
      * rewrite Hnext. unfold app_next. by rewrite decide_True.
      * intros Hne. destruct (last_of_in _ _ _ (Hlq q) Hne) as [Hl Hnz].
        rewrite Hnext. unfold app_next. rewrite decide_False by (intros Heq; apply (Hnin q); by rewrite <- Heq).
        by rewrite decide_True.
      * intros x Hx Hnl. rewrite Hnext. unfold app_next.
        rewrite decide_False by (intros ->; by apply (Hnin q)). by rewrite decide_False by tauto.
    + rewrite qset_ne, decide_False by tauto. apply (linked_ext (nxt st)); [|done].
      intros x Hx. rewrite Hnext. unfold app_next.
      rewrite decide_False by (intros ->; by apply (Hnin q')). rewrite decide_False; [done|].
      intros [Hnz ->]. apply Hne. eapply (Hdj q' q); [done|].
      apply (last_of_in _ _ _ (Hlq q)). intros Heq. rewrite Heq in Hnz. done.
  - intros q'. rewrite Htail. destruct (decide (q' = q)) as [->|]; [by rewrite qset_eq, last_of_snoc|by rewrite qset_ne].
  - intros q'. destruct (decide (q' = q)) as [->|]; [|rewrite qset_ne by done; apply Hnd].
    rewrite qset_eq. apply NoDup_app. split; [done|]. split; [|apply NoDup_singleton].
    intros x Hx ->%list_elem_of_singleton. by apply (Hnin q).
  - intros q1 q2 x. rewrite !elem_qset_app. intros [Hx1|[-> ->]] [Hx2|[-> Hx2]]; subst; try done.
    + by apply (Hdj q1 q2 x).
    + by destruct (Hnin q1).
    + by destruct (Hnin q2).
  - intros q' x. rewrite elem_qset_app. intros [?|[_ ->]]; [by eapply Hin|done].
Qed.

Lemma links_append st st' Q S A q t :
  links st Q S A → appended st st' q t → t ∈ A → (∀ q', t ∉ Q q') →
  links st' (qset Q q (Q q ++ [t])) S A.
Proof.
  intros [Ha Hq Hs] Hap Ht Hnin. pose proof (all_nonzero _ _ _ Ha Ht). pose proof Hap as [Hthr Hdom _ _ (_&?&?)].
  constructor; [|by eapply queues_append|].
  - apply (all_ok_same st); try done. intros x. unfold anxt. by rewrite Hthr.
  - apply (sleep_ok_same st _ _ A); try done. intros x Hx. unfold snxt. rewrite !Hthr.
    split_and!; [done..|]. by eapply l_sleep_in.
Qed.

(** ** Walks along the lists *)

Lemma out_of_link nx h l l2 :
  linked nx h (l ++ l2) → (if last_of l =? 0 then h else nx (last_of l)) = out_of nx h l.
Proof.
  intros Hl. unfold out_of, last_of. destruct (last l) as [x|] eqn:E; [|done]. simpl.
  rewrite (proj2 (Z.eqb_neq x 0)); [done|]. apply (linked_nonzero _ _ _ _ Hl).
  apply elem_of_app. left. by apply last_Some_elem_of.
Qed.

Lemma linked_hd nx h l1 x l2 : linked nx h (l1 ++ x :: l2) → out_of nx h l1 = x ∧ x ≠ 0.
Proof. intros Hl%linked_out. simpl in Hl. naive_solver. Qed.

Lemma linked_end nx h l : linked nx h l → out_of nx h l = 0.
Proof. intros Hl. rewrite <- (app_nil_r l) in Hl. by apply linked_out in Hl. Qed.

Lemma nodup_middle_ne (pre rest l2 : list Z) x t : NoDup (pre ++ x :: rest ++ t :: l2) → x ≠ t.
Proof.
  intros (_ & _ & [Hx _]%NoDup_cons)%NoDup_app ->. apply Hx, elem_of_app. right. apply list_elem_of_here.
Qed.

Lemma all_remove_spec fuel st pre rest t l2 :
  linked (anxt st) (all_threads st) (pre ++ rest ++ t :: l2) → NoDup (pre ++ rest ++ t :: l2) →
  (length rest < fuel)%nat →
  all_remove_from fuel st (last_of pre) t =
    Ok (let link := last_of (pre ++ rest) in
        if link =? 0 then set_all st (anxt st t) else upd st link (with_all_next (anxt st t))).
Proof.
  revert pre fuel. induction rest as [|x rest IH]; intros pre [|fuel] Hl Hnd Hf; simpl in Hf; try lia;
    cbn [all_remove_from]; change (all_next (thr st (last_of pre))) with (anxt st (last_of pre));
    rewrite (out_of_link _ _ _ _ Hl).
  - cbn [app] in Hl. destruct (linked_hd _ _ _ _ _ Hl) as [-> _]. rewrite Z.eqb_refl, app_nil_r. done.
  - change (pre ++ (x :: rest) ++ t :: l2) with (pre ++ x :: (rest ++ t :: l2)) in *.
    destruct (linked_hd _ _ _ _ _ Hl) as [-> Hx].
    rewrite (proj2 (Z.eqb_neq x t)) by (by eapply nodup_middle_ne).
    rewrite cons_middle, app_assoc in Hl, Hnd.
    specialize (IH (pre ++ [x]) fuel Hl Hnd ltac:(lia)). rewrite last_of_snoc in IH. rewrite IH.
    by rewrite <- app_assoc.
Qed.

(** Taking the head [t] of queue [q] away. *)
Record popped (st st' : sched) (q t : Z) : Prop := {
  po_thr x : thr st' x = thr st x;
  po_dom x : is_Some (threads st' !! x) ↔ is_Some (threads st !! x);
  po_head q' : qhead st' q' = if decide (q' = q) then nxt st t else qhead st q';
  po_tail q' : qtail st' q' = if decide (q' = q) then (if nxt st t =? 0 then 0 else qtail st q) else qtail st q';
  po_rest : fixed st' = fixed st ∧ sleepers st' = sleepers st ∧ all_threads st' = all_threads st
}.

(** [q] loses [t]. *)
Lemma queues_smaller st' Q q l1 t l2 A :
  (∀ q, NoDup (Q q)) → (∀ q q' x, x ∈ Q q → x ∈ Q q' → q = q') → (∀ q x, x ∈ Q q → x ∈ A) →
  Q q = l1 ++ t :: l2 →
  (∀ q', linked (nxt st') (qhead st' q') (qset Q q (l1 ++ l2) q')) →
  (∀ q', qtail st' q' = last_of (qset Q q (l1 ++ l2) q')) →
  queues_ok st' (qset Q q (l1 ++ l2)) A.
Proof.
  intros Hnd Hdj Hin HQ Hl Ht.
  assert (∀ q' x, x ∈ qset Q q (l1 ++ l2) q' → x ∈ Q q') as Hsub.
  { intros q' x. destruct (decide (q' = q)) as [->|]; [|by rewrite qset_ne].
    rewrite qset_eq, HQ, !elem_of_app, elem_of_cons. tauto. }
  constructor; try done; [|eauto..].
  intros q'. destruct (decide (q' = q)) as [->|]; [|by rewrite qset_ne].
  rewrite qset_eq. specialize (Hnd q). rewrite HQ in Hnd.
  apply NoDup_app in Hnd as (? & Hd & [_ ?]%NoDup_cons). apply NoDup_app. split_and!; try done.
  intros x Hx Hx'. apply (Hd x Hx). by apply list_elem_of_further.
Qed.

Lemma queues_pop st st' Q A q t l :
  queues_ok st Q A → Q q = t :: l → popped st st' q t → queues_ok st' (qset Q q l) A.
Proof.
  intros [Hlq Hlt Hnd Hdj Hin] HQ [Hthr _ Hhead Htail _].
  pose proof (Hlq q) as Hl. rewrite HQ in Hl. destruct Hl as (Hh & Ht0 & Hl).
  assert (∀ x, nxt st' x = nxt st x) as Hn by (intros x; unfold nxt; by rewrite Hthr).
  apply (queues_smaller _ _ _ [] t l); try done.
  - intros q'. rewrite Hhead. apply (linked_ext (nxt st)); [done|].
    destruct (decide (q' = q)) as [->|]; [by rewrite qset_eq|by rewrite qset_ne].
  - intros q'. rewrite Htail. destruct (decide (q' = q)) as [->|]; [|by rewrite qset_ne].
    rewrite qset_eq, (Hlt q), HQ. destruct l as [|y l]; simpl in Hl; [by rewrite Hl|].
    destruct Hl as (-> & Hy & _). by rewrite (proj2 (Z.eqb_neq y 0)).
Qed.

Lemma links_pop st st' Q S A q t l :
  links st Q S A → Q q = t :: l → popped st st' q t → links st' (qset Q q l) S A.
Proof.
  intros [Ha Hq Hs] HQ Hpo. pose proof Hpo as [Hthr Hdom _ _ (_&?&?)]. constructor.
  - apply (all_ok_same st); try done. intros x. unfold anxt. by rewrite Hthr.
  - by eapply queues_pop.
  - apply (sleep_ok_same st _ _ A); try done. intros x Hx. unfold snxt. rewrite Hthr.
    split_and!; [done..|]. by eapply l_sleep_in.
Qed.

Lemma set_run_popped st t :
  let h := nxt st t in popped st (set_run st h (if truth h then run_tail st else 0)) 0 t.
Proof.
  constructor; try done.
  - intros q'. unfold qhead. by destruct (Z.eqb_spec q' 0), (decide (q' = 0)).
  - intros q'. unfold qtail, truth. cbn [run_tail set_run waitqs].
    destruct (Z.eqb_spec q' 0), (decide (q' = 0)); try done. by destruct (_ =? _).
Qed.

Lemma set_waitq_popped st q t :
  q ≠ 0 → let h := nxt st t in
  popped st (set_waitq st q (Waitq h (if truth h then tail (waitqs st q) else 0))) q t.
Proof.
  intros Hq. constructor; try done.
  - intros q'. unfold qhead. cbn [run_head set_waitq waitqs]. destruct (decide (q' = q)) as [->|].
    + by rewrite (proj2 (Z.eqb_neq q 0)), Z.eqb_refl.
    + case_match; [done|]. by rewrite (proj2 (Z.eqb_neq q' q)).
  - intros q'. unfold qtail. cbn [run_tail set_waitq waitqs]. destruct (decide (q' = q)) as [->|].
    + rewrite (proj2 (Z.eqb_neq q 0)), Z.eqb_refl by done. unfold truth. by destruct (_ =? _).
    + case_match; [done|]. by rewrite (proj2 (Z.eqb_neq q' q)).
Qed.

(** [run_dequeue] takes the head of the run queue. *)
Lemma run_dequeue_spec st Q S A :
  links st Q S A →
  match Q 0 with
  | [] => run_dequeue st = (0, st)
  | t :: l => ∃ st', run_dequeue st = (t, st') ∧ popped st st' 0 t ∧ links st' (qset Q 0 l) S A
  end.
Proof.
  intros Hl. pose proof (l_queue _ _ _ (links_queues _ _ _ _ Hl) 0) as Hq. unfold run_dequeue.
  change (qhead st 0) with (run_head st) in Hq. destruct (Q 0) as [|t l] eqn:HQ; simpl in Hq.
  - by rewrite Hq.
  - destruct Hq as (-> & Ht & _). rewrite truth_nonzero by done. eexists. split; [done|].
    pose proof (set_run_popped st t) as Hpo. split; [done|]. by eapply links_pop.
Qed.

(** ** Lists without a thread *)

Definition without (t : Z) (l : list Z) : list Z := filter (λ x, x ≠ t) l.

Lemma elem_without t l x : x ∈ without t l ↔ x ≠ t ∧ x ∈ l.
Proof. unfold without. by rewrite list_elem_of_filter. Qed.

Lemma without_notin t l : t ∉ l → without t l = l.
Proof.
  intros Ht. induction l as [|x l IH]; [done|]. apply not_elem_of_cons in Ht as [Hx Hl].
  unfold without in *. rewrite filter_cons_True by done. by rewrite IH.
Qed.

Lemma without_split t l1 l2 : NoDup (l1 ++ t :: l2) → without t (l1 ++ t :: l2) = l1 ++ l2.
Proof.
  intros (Hn1 & Hd & [Ht Hn2]%NoDup_cons)%NoDup_app. unfold without. rewrite filter_app.
  rewrite filter_cons_False by tauto. fold (without t l1) (without t l2).
  rewrite !without_notin; [done|done|]. intros Hin. apply (Hd t Hin). apply list_elem_of_here.
Qed.

Lemma without_sublist t l : without t l `sublist_of` l.
Proof. apply sublist_filter. Qed.

Lemma sorted_sublist (R : Z → Z → Prop) l l' : l `sublist_of` l' → StronglySorted R l' → StronglySorted R l.
Proof.
  induction 1 as [|x l l' Hs IH|x l l' Hs IH]; intros Hl; [done| |].
  - apply StronglySorted_inv in Hl as [Hl Hx]. constructor; [by apply IH|].
    rewrite Forall_forall in *. intros y Hy. apply Hx. by eapply elem_of_sublist.
  - apply StronglySorted_inv in Hl as [Hl _]. by apply IH.
Qed.

(** ** The sleepers *)

(** The pointer a walk has reached after the sleepers [l]. *)
Lemma sleep_link_out st l l2 :
  linked (snxt st) (sleepers st) (l ++ l2) → sleep_link st (last_of l) = out_of (snxt st) (sleepers st) l.
Proof. intros Hl. unfold sleep_link. fold (snxt st (last_of l)). by apply out_of_link in Hl. Qed.

Definition due_by (st : sched) (w : Z) (x : Z) : Prop := wake_tick (thr st x) ≤ w.
#[export] Instance due_by_dec st w x : Decision (due_by st w x).
Proof. unfold due_by. apply _. Defined.

(** The walk of [sleep_insert] stops behind the sleepers that wake no later. *)
Lemma sleep_insert_at_spec fuel st pre rest t :
  linked (snxt st) (sleepers st) (pre ++ rest) → (length rest < fuel)%nat →
  ∃ l1 l2, rest = l1 ++ l2 ∧ Forall (due_by st (wake_tick (thr st t))) l1 ∧
    (∀ x, hd_error l2 = Some x → ¬ due_by st (wake_tick (thr st t)) x) ∧
    sleep_insert_at fuel st (last_of pre) t =
      Ok (set_sleep_link (upd st t (with_sleep_next (out_of (snxt st) (sleepers st) (pre ++ l1)))) (last_of (pre ++ l1)) t).
Proof.
  revert pre fuel. induction rest as [|x rest IH]; intros pre [|fuel] Hl Hf; simpl in Hf; try lia;
    cbn [sleep_insert_at]; rewrite (sleep_link_out _ _ _ Hl).
  - rewrite app_nil_r in Hl. rewrite (linked_end _ _ _ Hl). exists [], []. rewrite !app_nil_r.
    split; [done|]. split; [constructor|]. split; [done|]. simpl. by rewrite (linked_end _ _ _ Hl).
  - destruct (linked_hd _ _ _ _ _ Hl) as [Hx Hx0]. rewrite Hx, truth_nonzero by done. cbn [andb].
    destruct (Z.leb_spec (wake_tick (thr st x)) (wake_tick (thr st t))) as [Hle|Hgt].
    + rewrite cons_middle, app_assoc in Hl. destruct (IH (pre ++ [x]) fuel Hl ltac:(lia)) as (l1 & l2 & -> & H1 & H2 & E).
      exists (x :: l1), l2. rewrite last_of_snoc in E. rewrite E, <- app_assoc. split; [done|].
      split; [by constructor|]. done.
    + exists [], (x :: rest). rewrite !app_nil_r, Hx. split; [done|]. split; [constructor|]. split; [|done].
      intros y [= <-]. unfold due_by. lia.
Qed.

Lemma list_filter_all {B} (P : B → Prop) `{∀ x, Decision (P x)} l : Forall P l → filter P l = l.
Proof. induction 1 as [|x l Hx Hl IH]; [done|]. rewrite filter_cons_True by done. by rewrite IH. Qed.

Lemma list_filter_none {B} (P : B → Prop) `{∀ x, Decision (P x)} l : Forall (λ x, ¬ P x) l → filter P l = [].
Proof. induction 1 as [|x l Hx Hl IH]; [done|]. by rewrite filter_cons_False. Qed.

Lemma list_filter_iff' {B} (P P' : B → Prop) `{∀ x, Decision (P x)} `{∀ x, Decision (P' x)} (l : list B) :
  (∀ x, x ∈ l → (P x ↔ P' x)) → filter P l = filter P' l.
Proof.
  induction l as [|x l IH]; intros HP; [done|]. rewrite !filter_cons, IH by (intros; apply HP; by apply list_elem_of_further).
  specialize (HP x (list_elem_of_here _ _)). repeat case_decide; naive_solver.
Qed.

Lemma sorted_due st w l1 l2 :
  StronglySorted (wakes_before st) (l1 ++ l2) → Forall (due_by st w) l1 →
  (∀ x, hd_error l2 = Some x → ¬ due_by st w x) →
  filter (due_by st w) (l1 ++ l2) = l1 ∧ filter (λ x, ¬ due_by st w x) (l1 ++ l2) = l2.
Proof.
  intros Hs H1 H2.
  assert (Forall (λ x, ¬ due_by st w x) l2) as H2'.
  { destruct l2 as [|y l2]; [constructor|]. specialize (H2 y eq_refl). constructor; [done|].
    apply (sorted_sublist _ (y :: l2)) in Hs; [|by apply sublist_inserts_l].
    apply StronglySorted_inv in Hs as [_ Hy]. eapply Forall_impl; [done|].
    intros x. unfold wakes_before, due_by in *. lia. }
  rewrite !filter_app. split.
  - rewrite (list_filter_all (due_by st w) l1) by done.
    rewrite (list_filter_none (due_by st w) l2) by done. apply app_nil_r.
  - rewrite (list_filter_none (λ x, ¬ due_by st w x) l1), (list_filter_all (λ x, ¬ due_by st w x) l2); [done..|].
    eapply Forall_impl; [done|]. tauto.
Qed.

Lemma sorted_insert st l1 t l2 :
  StronglySorted (wakes_before st) (l1 ++ l2) → Forall (λ x, wakes_before st x t) l1 →
  Forall (wakes_before st t) l2 → StronglySorted (wakes_before st) (l1 ++ t :: l2).
Proof.
  intros Hs H1 H2. induction l1 as [|x l1 IH]; simpl in *; [by constructor|].
  apply StronglySorted_inv in Hs as [Hs Hx]. apply Forall_cons in H1 as [Hxt H1].
  constructor; [by apply IH|]. apply Forall_app in Hx as [? ?]. apply Forall_app. split; [done|by constructor].
Qed.

(** What linking or unlinking a sleeper leaves alone. *)
Record resleeped (st st' : sched) : Prop := {
  rs_thr x : thr st' x = with_sleep_next (snxt st' x) (thr st x);
  rs_dom x : is_Some (threads st' !! x) ↔ is_Some (threads st !! x);
  rs_queue q : qhead st' q = qhead st q ∧ qtail st' q = qtail st q;
  rs_rest : fixed st' = fixed st ∧ all_threads st' = all_threads st
}.

Lemma links_resleep st st' Q S S' A :
  links st Q S A → resleeped st st' → NoDup S' → StronglySorted (wakes_before st) S' →
  (∀ x, x ∈ S' → x ∈ A) → linked (snxt st') (sleepers st') S' → links st' Q S' A.
Proof.
  intros [Ha Hq Hs] [Hthr Hdom Hqq [_ Hall]] Hnd Hso Hin Hl. constructor.
  - apply (all_ok_same st); try done. intros x. unfold anxt. by rewrite Hthr.
  - apply (queues_ok_same st _ _ A); [intros q; apply Hqq..| |done]. intros q x Hx.
    split; [unfold nxt; by rewrite Hthr|by eapply l_in].
  - constructor; try done. eapply sorted_ext; [|done]. intros x y _ _. unfold wakes_before. by rewrite !Hthr.
Qed.

Lemma with_sleep_next_same t : with_sleep_next (sleep_next t) t = t.
Proof. by destruct t. Qed.

(** Setting the link behind [l] and, before, the link of [t]. *)
Lemma set_sleep_link_resleeped st link p :
  (link ≠ 0 → is_Some (threads st !! link)) → resleeped st (set_sleep_link st link p) ∧
  sleepers (set_sleep_link st link p) = (if link =? 0 then p else sleepers st) ∧
  (∀ x, snxt (set_sleep_link st link p) x = if decide (link ≠ 0 ∧ x = link) then p else snxt st x).
Proof.
  intros Hd. unfold set_sleep_link. destruct (Z.eqb_spec link 0) as [->|Hl].
  - split_and!; [constructor; try done|done|].
    + intros x. unfold snxt. change (thr (set_sleepers st p) x) with (thr st x). by rewrite with_sleep_next_same.
    + intros x. by rewrite decide_False by tauto.
  - assert (∀ x, thr (upd st link (with_sleep_next p)) x = if decide (x = link) then with_sleep_next p (thr st link) else thr st x)
      as Hthr by (intros x; apply thr_upd; auto).
    split_and!; [constructor; try done|done|].
    + intros x. unfold snxt. rewrite Hthr. case_decide; [by subst|by rewrite with_sleep_next_same].
    + intros x. apply dom_upd.
    + intros x. unfold snxt. rewrite Hthr. repeat case_decide; subst; tauto.
Qed.

Lemma resleeped_trans st1 st2 st3 : resleeped st1 st2 → resleeped st2 st3 → resleeped st1 st3.
Proof.
  intros [T1 D1 Q1 [R1 R1']] [T2 D2 Q2 [R2 R2']]. constructor.
  - intros x. by rewrite T2, T1.
  - intros x. by rewrite D2, D1.
  - intros q. destruct (Q1 q), (Q2 q). split; congruence.
  - split; congruence.
Qed.

Lemma last_in (l : list Z) x : last l = Some x → x ∈ l.
Proof. apply last_Some_elem_of. Qed.

Lemma last_of_last (l : list Z) : last_of l ≠ 0 → last l = Some (last_of l).
Proof. unfold last_of. by destruct (last l). Qed.

Lemma last_of_Some nx h l l2 x : linked nx h (l ++ l2) → last l = Some x → last_of l = x ∧ x ≠ 0.
Proof.
  intros Hl Hx. unfold last_of. rewrite Hx. split; [done|]. apply (linked_nonzero _ _ _ _ Hl).
  apply elem_of_app. left. by apply last_in.
Qed.

(** Which pointer a change behind [l1] goes to. *)
Lemma link_choice nx h l1 l2 (a b : Z) :
  linked nx h (l1 ++ l2) → (if last_of l1 =? 0 then a else b) = match l1 with [] => a | _ => b end.
Proof.
  intros Hl. destruct l1 as [|y l1]; [done|]. destruct (last (y :: l1)) as [x|] eqn:El; [|by apply last_None in El].
  destruct (last_of_Some _ _ _ _ _ Hl El) as [-> Hx]. by rewrite (proj2 (Z.eqb_neq x 0)).
Qed.

(** [sleep_insert] puts [t] behind the sleepers that wake no later. *)
Lemma sleep_insert_spec st Q S A t :
  links st Q S A → t ∈ A → t ∉ S →
  let w := wake_tick (thr st t) in
  ∃ st', sleep_insert st t = Ok st' ∧ resleeped st st' ∧
    links st' Q (filter (due_by st w) S ++ t :: filter (λ x, ¬ due_by st w x) S) A.
Proof.
  intros Hl Ht HtS w. pose proof Hl as [Ha Hq [Hsl Hnd Hso Hin]]. pose proof (all_nonzero _ _ _ Ha Ht) as Ht0.
  destruct (sleep_insert_at_spec (fuel_of st) st [] S t) as (l1 & l2 & -> & H1 & H2 & E); [done| |].
  { eapply sublist_fuel; [apply (l_all_nodup _ _ Ha)|apply (l_dom _ _ Ha)|done|done]. }
  destruct (sorted_due _ _ _ _ Hso H1 H2) as [E1 E2]. subst w. rewrite E1, E2. unfold sleep_insert.
  change (last_of []) with 0 in E. rewrite E. cbn [app] in *. eexists. split; [done|].
  set (o := out_of _ _ _). set (st1 := upd st t (with_sleep_next o)).
  destruct (set_sleep_link_resleeped st t o) as (R1 & _ & N1); [intros _; by apply (l_dom _ _ Ha)|].
  unfold set_sleep_link in R1, N1. rewrite (proj2 (Z.eqb_neq t 0)) in R1, N1 by done. fold st1 in R1, N1.
  destruct (set_sleep_link_resleeped st1 (last_of l1) t) as (R2 & Hs2 & N2).
  { intros Hz. apply (rs_dom _ _ R1). apply (l_dom _ _ Ha). apply Hin. apply elem_of_app. left.
    apply last_in. by apply last_of_last. }
  assert (resleeped st (set_sleep_link st1 (last_of l1) t)) as R by (by eapply resleeped_trans).
  split; [done|]. eapply links_resleep; [done|done| | | |].
  - rewrite <- Permutation_middle. by constructor.
  - apply sorted_insert; [done|done|]. rewrite <- E2. apply Forall_forall. intros x [Hx _]%list_elem_of_filter. unfold due_by, wakes_before in *. lia.
  - intros x. rewrite elem_of_app, elem_of_cons. intros [Hx|[->|Hx]]; [|done|]; apply Hin; apply elem_of_app; auto.
  - rewrite Hs2. change (sleepers st1) with (sleepers st).
    rewrite (link_choice _ _ _ _ _ _ Hsl).
    apply (linked_insert (snxt st)); try done.
    + rewrite N2, N1, decide_False, decide_True; [done|done|]. intros [Hz Heq]. apply HtS. apply elem_of_app. left.
      apply last_in. rewrite Heq. by apply last_of_last.
    + intros x Hx. destruct (last_of_Some _ _ _ _ _ Hsl Hx) as [Hlx Hx0]. rewrite N2, decide_True; [done|]. by rewrite Hlx.
    + intros x Hx Hnx. rewrite N2, decide_False, N1, decide_False; [done| |].
      * intros [_ ->]. done.
      * intros [Hz ->]. apply Hnx. by apply last_of_last.
Qed.

(** The link to [t] behind the sleepers [l1] set to the one out of [t]. *)
Lemma unlink_sleeper st Q S A l1 t l2 :
  links st Q S A → S = l1 ++ t :: l2 →
  let st' := set_sleep_link st (last_of l1) (snxt st t) in
  resleeped st st' ∧ links st' Q (without t S) A.
Proof.
  intros Hl ->. pose proof Hl as [Ha Hq [Hsl Hnd Hso Hin]].
  destruct (set_sleep_link_resleeped st (last_of l1) (snxt st t)) as (R & Hs' & N).
  { intros Hz. apply (l_dom _ _ Ha), Hin, elem_of_app. left. by apply last_in, last_of_last. }
  split; [done|]. eapply links_resleep; [done|done| | | |].
  - by apply NoDup_filter.
  - eapply sorted_sublist; [apply without_sublist|done].
  - intros x [_ Hx]%elem_without. by apply Hin.
  - rewrite without_split, Hs' by done.
    rewrite (link_choice _ _ _ _ _ _ Hsl).
    apply (linked_remove (snxt st)); try done.
    + intros x Hx. destruct (last_of_Some _ _ _ _ _ Hsl Hx) as [Hlx Hx0]. rewrite N, decide_True; [done|]. by rewrite Hlx.
    + intros x Hx Hnx. rewrite N, decide_False; [done|]. intros [Hz ->]. apply Hnx. by apply last_of_last.
Qed.

Lemma sleep_remove_from_spec fuel st pre rest t l2 :
  linked (snxt st) (sleepers st) (pre ++ rest ++ t :: l2) → NoDup (pre ++ rest ++ t :: l2) →
  (length rest < fuel)%nat →
  sleep_remove_from fuel st (last_of pre) t = Ok (set_sleep_link st (last_of (pre ++ rest)) (snxt st t)).
Proof.
  revert pre fuel. induction rest as [|x rest IH]; intros pre [|fuel] Hl Hnd Hf; simpl in Hf; try lia;
    cbn [sleep_remove_from]; rewrite (sleep_link_out _ _ _ Hl).
  - cbn [app] in Hl. destruct (linked_hd _ _ _ _ _ Hl) as [-> Ht]. rewrite truth_nonzero, Z.eqb_refl, app_nil_r by done. done.
  - change (pre ++ (x :: rest) ++ t :: l2) with (pre ++ x :: (rest ++ t :: l2)) in *.
    destruct (linked_hd _ _ _ _ _ Hl) as [-> Hx]. rewrite truth_nonzero, (proj2 (Z.eqb_neq x t)); [|by eapply nodup_middle_ne|done].
    cbn [andb negb]. rewrite cons_middle, app_assoc in Hl, Hnd.
    specialize (IH (pre ++ [x]) fuel Hl Hnd ltac:(lia)). rewrite last_of_snoc in IH. rewrite IH.
    by rewrite <- app_assoc.
Qed.

Lemma sleep_remove_spec st Q S A t :
  links st Q S A → t ∈ S →
  ∃ st', sleep_remove st t = Ok st' ∧ resleeped st st' ∧ links st' Q (without t S) A.
Proof.
  intros Hl Ht. apply list_elem_of_split in Ht as (l1 & l2 & ->).
  pose proof Hl as [Ha _ [Hsl Hnd _ Hin]]. eexists. split; [|by eapply unlink_sleeper].
  unfold sleep_remove. change 0 with (last_of []). rewrite (sleep_remove_from_spec _ _ [] l1 _ l2); try done.
  eapply Nat.le_lt_trans; [|eapply (sublist_fuel st (l1 ++ t :: l2) A); try done; apply Ha].
  rewrite length_app. lia.
Qed.

(** The first sleeper taken off. *)
Lemma pop_sleeper st Q S A t l :
  links st Q S A → S = t :: l →
  let st' := set_sleepers st (snxt st t) in resleeped st st' ∧ links st' Q l A.
Proof.
  intros Hl ->. destruct (unlink_sleeper st Q _ A [] t l Hl eq_refl) as [R Hl'].
  pose proof (without_split t [] l (l_sleep_nodup _ _ _ (links_sleep _ _ _ _ Hl))) as Hw. simpl in Hw.
  by rewrite Hw in Hl'.
Qed.

(** ** Leaving the middle of a wait queue *)

(** The state [waitq_remove] ends in, [prev] being before [t]. *)
Definition unqueued (st : sched) (q prev t : Z) : sched :=
  let n := nxt st t in
  let st := if truth prev then upd st prev (with_next n)
            else set_waitq st q (Waitq n (tail (waitqs st q))) in
  if tail (waitqs st q) =? t then set_waitq st q (Waitq (head (waitqs st q)) prev) else st.

Lemma waitq_remove_from_spec fuel st q pre rest t l2 :
  linked (nxt st) (head (waitqs st q)) (pre ++ rest ++ t :: l2) → NoDup (pre ++ rest ++ t :: l2) →
  (length rest < fuel)%nat →
  waitq_remove_from fuel st q (last_of pre) (out_of (nxt st) (head (waitqs st q)) pre) t =
    Ok (unqueued st q (last_of (pre ++ rest)) t).
Proof.
  revert pre fuel. induction rest as [|x rest IH]; intros pre [|fuel] Hl Hnd Hf; simpl in Hf; try lia;
    cbn [waitq_remove_from].
  - cbn [app] in Hl. destruct (linked_hd _ _ _ _ _ Hl) as [-> Ht].
    rewrite (proj2 (Z.eqb_neq t 0)), Z.eqb_refl, app_nil_r by done. done.
  - change (pre ++ (x :: rest) ++ t :: l2) with (pre ++ x :: (rest ++ t :: l2)) in *.
    destruct (linked_hd _ _ _ _ _ Hl) as [-> Hx].
    rewrite (proj2 (Z.eqb_neq x 0)), (proj2 (Z.eqb_neq x t)) by (done || by eapply nodup_middle_ne).
    rewrite cons_middle, app_assoc in Hl, Hnd.
    specialize (IH (pre ++ [x]) fuel Hl Hnd ltac:(lia)). rewrite last_of_snoc, out_of_snoc in IH.
    fold (nxt st x). rewrite IH. by rewrite <- app_assoc.
Qed.

(** What relinking a queue leaves alone. *)
Record requeued (st st' : sched) : Prop := {
  rq_thr x : thr st' x = with_next (nxt st' x) (thr st x);
  rq_dom x : is_Some (threads st' !! x) ↔ is_Some (threads st !! x);
  rq_rest : fixed st' = fixed st ∧ all_threads st' = all_threads st ∧ sleepers st' = sleepers st
}.

Lemma links_requeue st st' Q Q' S A :
  links st Q S A → requeued st st' → queues_ok st' Q' A → links st' Q' S A.
Proof.
  intros [Ha Hq Hs] [Hthr Hdom (_ & Hall & Hsl)] Hq'. constructor; [|done|].
  - apply (all_ok_same st); try done. intros x. unfold anxt. by rewrite Hthr.
  - apply (sleep_ok_same st _ _ A); try done. intros x Hx. unfold snxt. rewrite Hthr.
    split_and!; [done..|]. by eapply l_sleep_in.
Qed.

(** The first half: the pointer to [t] skips it. *)
Definition skipped (st : sched) (q prev t : Z) : sched :=
  let n := nxt st t in
  if truth prev then upd st prev (with_next n) else set_waitq st q (Waitq n (tail (waitqs st q))).

Definition skip_next (st : sched) (prev t x : Z) : Z :=
  if decide (prev ≠ 0 ∧ x = prev) then nxt st t else nxt st x.

Lemma skipped_fields st q prev t :
  (prev ≠ 0 → is_Some (threads st !! prev)) →
  let st1 := skipped st q prev t in
  (run_tail st1 = run_tail st ∧ run_head st1 = run_head st ∧ fixed st1 = fixed st ∧
   all_threads st1 = all_threads st ∧ sleepers st1 = sleepers st) ∧
  (∀ x, thr st1 x = with_next (skip_next st prev t x) (thr st x)) ∧
  (∀ x, is_Some (threads st1 !! x) ↔ is_Some (threads st !! x)) ∧
  (∀ q', head (waitqs st1 q') = if decide (q' = q ∧ prev = 0) then nxt st t else head (waitqs st q')) ∧
  (∀ q', tail (waitqs st1 q') = tail (waitqs st q')).
Proof.
  intros Hd. unfold skipped, skip_next. destruct (decide (prev = 0)) as [->|Hp].
  - cbn [truth Z.eqb negb]. split; [done|]. split; [|split; [done|split]].
    + intros x. rewrite decide_False by tauto. change (thr (set_waitq _ _ _) x) with (thr st x).
      unfold nxt. by rewrite with_next_same.
    + intros q'. cbn [waitqs set_waitq].
      destruct (Z.eqb_spec q' q) as [->|]; [by rewrite decide_True|by rewrite decide_False by tauto].
    + intros q'. cbn [waitqs set_waitq]. by destruct (Z.eqb_spec q' q) as [->|].
  - rewrite truth_nonzero by done. split; [done|]. split; [|split; [intros x; apply dom_upd|split; [|done]]].
    + intros x. rewrite thr_upd by auto. repeat case_decide; subst; try tauto; try done.
      unfold nxt. by rewrite with_next_same.
    + intros q'. by rewrite decide_False by tauto.
Qed.

Lemma unqueued_fields st q prev t :
  q ≠ 0 → (prev ≠ 0 → is_Some (threads st !! prev)) →
  let st' := unqueued st q prev t in
  requeued st st' ∧
  (∀ x, nxt st' x = skip_next st prev t x) ∧
  (∀ q', qhead st' q' = if decide (q' = q ∧ prev = 0) then nxt st t else qhead st q') ∧
  (∀ q', qtail st' q' = if decide (q' = q ∧ qtail st q = t) then prev else qtail st q').
Proof.
  intros Hq Hd. unfold unqueued. cbv zeta. fold (skipped st q prev t).
  destruct (skipped_fields st q prev t Hd) as ((Hrt & Hrh & Hfix) & Hthr & Hdom & Hh & Ht).
  set (st1 := skipped st q prev t) in *. clearbody st1. rewrite Ht.
  assert (qtail st q = tail (waitqs st q)) as <- by (unfold qtail; by rewrite (proj2 (Z.eqb_neq q 0))).
  set (st2 := if _ =? t then _ else st1).
  assert (∀ x, thr st2 x = thr st1 x) as Hthr2 by (intros x; unfold st2; by case_match).
  assert (∀ x, nxt st2 x = skip_next st prev t x) as Hn by (intros x; unfold nxt; by rewrite Hthr2, Hthr).
  split; [|split; [done|split]].
  - constructor.
    + intros x. by rewrite Hn, Hthr2, Hthr.
    + intros x. rewrite <- Hdom. unfold st2. by case_match.
    + destruct Hfix as (? & ? & ?). unfold st2. by case_match; split_and!.
  - intros q'. unfold qhead, st2. destruct (Z.eqb_spec q' 0) as [->|].
    { rewrite decide_False by (intros [<- _]; done). rewrite <- Hrh. by case_match. }
    rewrite <- Hh. case_match; [|done]. cbn [waitqs set_waitq]. by destruct (Z.eqb_spec q' q) as [->|].
  - intros q'. unfold st2. destruct (Z.eqb_spec (qtail st q) t) as [He|He].
    + unfold qtail at 1 3. cbn [run_tail set_waitq waitqs]. destruct (Z.eqb_spec q' 0) as [->|].
      { rewrite decide_False by (intros [<- _]; done). exact Hrt. }
      destruct (Z.eqb_spec q' q) as [->|]; cbn [tail]; [by rewrite decide_True|].
      rewrite decide_False, Ht by tauto. unfold qtail. by rewrite (proj2 (Z.eqb_neq q' 0)).
    + rewrite decide_False by tauto. unfold qtail. rewrite Hrt, Ht. by destruct (q' =? 0).
Qed.

Lemma last_of_split l1 t l2 : last_of (l1 ++ t :: l2) = if decide (l2 = []) then t else last_of l2.
Proof.
  unfold last_of. rewrite last_app_cons. destruct l2 as [|y l2]; [by rewrite decide_True|].
  by rewrite last_cons_cons.
Qed.

Lemma last_of_app l1 l2 : last_of (l1 ++ l2) = if decide (l2 = []) then last_of l1 else last_of l2.
Proof.
  destruct l2 as [|y l2]; [by rewrite app_nil_r, decide_True|]. rewrite decide_False by done.
  unfold last_of. by rewrite last_app_cons.
Qed.

(** [waitq_remove] takes [t] out of queue [q], wherever it is. *)
Lemma waitq_remove_spec st Q S A q t :
  links st Q S A → q ≠ 0 → t ∈ Q q →
  ∃ st', waitq_remove st q t = Ok st' ∧ requeued st st' ∧ links st' (qset Q q (without t (Q q))) S A.
Proof.
  intros Hl Hq Ht. pose proof Hl as [Ha Hqs Hs]. pose proof Hqs as [Hlq Hlt Hnd Hdj Hin].
  apply list_elem_of_split in Ht as (l1 & l2 & HQ). rewrite HQ, without_split by (rewrite <- HQ; apply Hnd).
  pose proof (Hlq q) as Hlin. rewrite HQ in Hlin. pose proof (Hnd q) as Hndq. rewrite HQ in Hndq.
  assert (qhead st q = head (waitqs st q)) as Hqh by (unfold qhead; by rewrite (proj2 (Z.eqb_neq q 0))).
  exists (unqueued st q (last_of l1) t). split.
  { unfold waitq_remove. rewrite Hqh in Hlin.
    apply (waitq_remove_from_spec (fuel_of st) st q [] l1 t l2); [done|done|].
    eapply Nat.le_lt_trans; [|eapply (sublist_fuel st (Q q) A); try done; [apply Ha..|by intros; eapply Hin]].
    rewrite HQ, length_app. lia. }
  destruct (unqueued_fields st q (last_of l1) t Hq) as (R & Hn & Hh & Htl).
  { intros Hz. apply (l_dom _ _ Ha), (Hin q). rewrite HQ. apply elem_of_app. left. by apply last_in, last_of_last. }
  split; [done|]. eapply links_requeue; [done|done|]. eapply queues_smaller; [done..| |].
  - intros q'. rewrite Hh. destruct (decide (q' = q)) as [->|Hne].
    + rewrite qset_eq.
      assert ((if decide (q = q ∧ last_of l1 = 0) then nxt st t else qhead st q) =
        if last_of l1 =? 0 then nxt st t else qhead st q) as ->.
      { destruct (Z.eqb_spec (last_of l1) 0); [by rewrite decide_True|by rewrite decide_False by tauto]. }
      rewrite (link_choice _ _ _ _ _ _ Hlin).
      apply (linked_remove (nxt st)); try done.
      * intros x Hx. destruct (last_of_Some _ _ _ _ _ Hlin Hx) as [Hlx Hx0]. rewrite Hn. unfold skip_next.
        rewrite decide_True; [done|]. by rewrite Hlx.
      * intros x Hx Hnx. rewrite Hn. unfold skip_next. rewrite decide_False; [done|].
        intros [Hz ->]. apply Hnx. by apply last_of_last.
    + rewrite qset_ne, decide_False by tauto. apply (linked_ext (nxt st)); [|done].
      intros x Hx. rewrite Hn. unfold skip_next. rewrite decide_False; [done|]. intros [Hz ->]. apply Hne.
      eapply Hdj; [done|]. rewrite HQ. apply elem_of_app. left. by apply last_in, last_of_last.
  - intros q'. rewrite Htl. destruct (decide (q' = q)) as [->|]; [|by rewrite decide_False, qset_ne by tauto].
    rewrite qset_eq, Hlt, HQ, last_of_split, last_of_app. destruct (decide (l2 = [])) as [->|Hl2].
    { by rewrite decide_True. }
    rewrite decide_False; [done|]. intros [_ Heq]. apply NoDup_app in Hndq as (_ & _ & [Hx _]%NoDup_cons).
    apply Hx. rewrite <- Heq. apply last_in, last_of_last. rewrite Heq.
    by eapply (linked_hd _ _ l1 t l2).
Qed.

(** ** A dead thread is reclaimed *)

Lemma with_all_next_same t : with_all_next (all_next t) t = t.
Proof. by destruct t. Qed.

Record reclaimed (st st' : sched) (t : Z) : Prop := {
  rc_thr x : x ≠ t → thr st' x = with_all_next (anxt st' x) (thr st x);
  rc_queue q : qhead st' q = qhead st q ∧ qtail st' q = qtail st q;
  rc_rest : fixed st' = fixed st ∧ sleepers st' = sleepers st
}.

Lemma all_unlink st link n :
  (link ≠ 0 → is_Some (threads st !! link)) →
  let st' := if link =? 0 then set_all st n else upd st link (with_all_next n) in
  (∀ x, thr st' x = with_all_next (if decide (link ≠ 0 ∧ x = link) then n else anxt st x) (thr st x)) ∧
  (∀ x, is_Some (threads st' !! x) ↔ is_Some (threads st !! x)) ∧
  (∀ q, qhead st' q = qhead st q ∧ qtail st' q = qtail st q) ∧ fixed st' = fixed st ∧
  sleepers st' = sleepers st ∧ all_threads st' = if link =? 0 then n else all_threads st.
Proof.
  intros Hd. destruct (Z.eqb_spec link 0) as [->|Hl]; cbv zeta.
  - split_and!; try done. intros x. rewrite decide_False by tauto. change (thr (set_all _ _) x) with (thr st x).
    unfold anxt. by rewrite with_all_next_same.
  - split_and!; try done; [|intros x; apply dom_upd]. intros x. rewrite thr_upd by auto.
    repeat case_decide; subst; try tauto; try done. unfold anxt. by rewrite with_all_next_same.
Qed.

Lemma reclaim_spec st Q S A t :
  links st Q S A → t ∈ A → (∀ q, t ∉ Q q) → t ∉ S →
  ∃ st1, all_threads_remove st t = Ok st1 ∧
    let st' := set_threads st1 (delete t (threads st1)) in
    reclaimed st st' t ∧ links st' Q S (without t A).
Proof.
  intros [[Hal Hdom Hnd] Hq Hs] Ht HQ HtS. apply list_elem_of_split in Ht as (l1 & l2 & ->).
  pose proof (all_remove_spec (fuel_of st) st [] l1 t l2 Hal Hnd) as E. cbn [app] in E. cbv zeta in E.
  eexists. split.
  { apply E. eapply Nat.le_lt_trans; [|by apply (sublist_fuel st (l1 ++ t :: l2) (l1 ++ t :: l2))]. rewrite length_app. lia. }
  destruct (all_unlink st (last_of l1) (anxt st t)) as (Hthr & Hdom1 & Hqq & Hfix & Hsl & Hall).
  { intros Hz. apply Hdom, elem_of_app. left. by apply last_in, last_of_last. }
  set (st1 := if _ =? 0 then _ else _) in *. clearbody st1. set (st' := set_threads _ _).
  assert (∀ x, x ≠ t → thr st' x = thr st1 x) as Hthr'.
  { intros x Hx. unfold thr, st', set_threads. cbn [threads]. by rewrite lookup_delete_ne. }
  assert (∀ x, x ≠ t → anxt st' x = if decide (last_of l1 ≠ 0 ∧ x = last_of l1) then anxt st t else anxt st x) as Han.
  { intros x Hx. unfold anxt at 1. by rewrite Hthr', Hthr. }
  assert (reclaimed st st' t) as R.
  { constructor; [|done|done]. intros x Hx. rewrite Han, Hthr', Hthr by done. done. }
  split; [done|]. rewrite without_split by done. constructor.
  - constructor.
    + change (all_threads st') with (all_threads st1). rewrite Hall.
      rewrite (link_choice _ _ _ _ _ _ Hal).
      assert (∀ x, x ∈ l1 ++ l2 → x ≠ t) as Hne.
      { intros x Hx. rewrite <- (without_split t) in Hx by done. by apply elem_without in Hx as [? _]. }
      apply (linked_remove (anxt st)); try done.
      * intros x Hx. destruct (last_of_Some _ _ _ _ _ Hal Hx) as [Hlx Hx0].
        rewrite Han, decide_True; [done|by rewrite Hlx|]. apply Hne, elem_of_app. left. by apply last_in.
      * intros x Hx Hnx. rewrite Han by auto. rewrite decide_False; [done|]. intros [Hz ->]. apply Hnx. by apply last_of_last.
    + intros x. rewrite <- (without_split t), elem_without by done. unfold st', set_threads. cbn [threads].
      rewrite lookup_delete_is_Some, Hdom1, Hdom. naive_solver.
    + rewrite <- (without_split t) by done. by apply NoDup_filter.
  - apply (queues_ok_same st _ _ (l1 ++ t :: l2)); [intros q; apply Hqq..| |done]. intros q x Hx.
    assert (x ≠ t) by (intros ->; by apply (HQ q)). unfold nxt. rewrite (rc_thr _ _ _ R) by done. split; [done|].
    rewrite <- (without_split t), elem_without by done. split; [done|]. by eapply l_in.
  - apply (sleep_ok_same st _ _ (l1 ++ t :: l2)); [done| |done]. intros x Hx.
    assert (x ≠ t) by (intros ->; done). unfold snxt. rewrite (rc_thr _ _ _ R) by done. split; [done|]. split; [done|].
    rewrite <- (without_split t), elem_without by done. split; [done|]. by eapply l_sleep_in.
Qed.
