(* ===== verification/SchedRun.v ===== *)
(** * The scheduler's operations

    Every operation of [Sched.v] on a state described by the lists of
    [SchedInv.v]: that it ends, which lists it leaves, and that it keeps the
    invariant. Then runs of operations: the invariant holds throughout, and a
    ready thread gets to run within a bounded number of timer ticks. *)
From Stdlib Require Import Sorting.Sorted.
From S2P Require Import Prelude Sched SchedInv.
Local Open Scope Z_scope.

(** ** A thread but for its links *)

Definition core (t : thread) : Z * thread_state * Z * Z * Z * Z * Z * bool :=
  (tid t, state t, stack_top t, wake_tick t, as_ t, process t, waiting_on t, timed_out t).

Lemma core_state t t' : core t = core t' → state t = state t'.
Proof. by intros [= ? ? ? ? ? ? ? ?]. Qed.
Lemma core_waiting t t' : core t = core t' → waiting_on t = waiting_on t'.
Proof. by intros [= ? ? ? ? ? ? ? ?]. Qed.
Lemma core_wake_tick t t' : core t = core t' → wake_tick t = wake_tick t'.
Proof. by intros [= ? ? ? ? ? ? ? ?]. Qed.
Lemma core_as t t' : core t = core t' → as_ t = as_ t'.
Proof. by intros [= ? ? ? ? ? ? ? ?]. Qed.

Lemma core_timed_out t t' : core t = core t' → timed_out t = timed_out t'.
Proof. by intros [= ? ? ? ? ? ? ? ?]. Qed.

Lemma fixed_fields st st' :
  fixed st' = fixed st →
  current st' = current st ∧ idle st' = idle st ∧ slice_left st' = slice_left st ∧
  thread_count st' = thread_count st ∧ preemptive st' = preemptive st ∧ idle_ticks st' = idle_ticks st ∧
  active_as st' = active_as st.
Proof. by intros [= ? ? ? ? ? ? ?]. Qed.

Lemma core_upd st t f x :
  is_Some (threads st !! t) →
  core (thr (upd st t f) x) = if decide (x = t) then core (f (thr st t)) else core (thr st x).
Proof. intros. rewrite thr_upd by done. by case_decide. Qed.

(** ** Becoming ready *)

Definition woken (out : bool) (t : thread) : thread := with_state THREAD_RUNNABLE (with_wait 0 out t).

Lemma agree_wake st st' Q Q' S S' A t :
  agree st Q S A → t ∈ A → t ≠ idle st → fixed st' = fixed st →
  (∀ x, x ∈ A → state (thr st' x) = if decide (x = t) then THREAD_RUNNABLE else state (thr st x)) →
  (∀ x, x ∈ A → waiting_on (thr st' x) = if decide (x = t) then 0 else waiting_on (thr st x)) →
  (∀ q x, x ∈ Q' q ↔ (x = t ∧ q = 0) ∨ (x ≠ t ∧ x ∈ Q q)) →
  (∀ x, x ∈ S' ↔ x ≠ t ∧ x ∈ S) →
  agree st' Q' S' A.
Proof.
  intros [] Ht Hid (Hc & Hi & _ & Hn & _)%fixed_fields Hst Hw HQ HS. constructor; rewrite ?Hc, ?Hi, ?Hn; try done.
  - rewrite Hst by done. by rewrite decide_False.
  - intros x Hx. rewrite Hst by done. case_decide; [done|auto].
  - intros x Hx. rewrite Hst by done. case_decide; [done|auto].
  - intros x Hx. rewrite Hst, HQ by done. specialize (a_ready x Hx). case_decide; [subst; naive_solver|naive_solver].
  - intros x Hx. rewrite Hst by done. specialize (a_blocked x Hx). case_decide as Hxt.
    + split; [done|]. intros (q & Hq & Hin). rewrite HQ in Hin. subst. naive_solver.
    + rewrite a_blocked. split; intros (q & Hq & Hin); exists q; (split; [done|]); rewrite HQ in *; naive_solver.
  - intros x Hx. rewrite Hw by done. case_decide; [done|]. intros Hnz. apply HQ. right. auto.
  - intros x Hx. rewrite Hst, Hw, HS by done. specialize (a_sleeping x Hx). case_decide; naive_solver.
Qed.

Lemma enqueue_ready st Q S A t :
  links st Q S A → t ∈ A → (∀ q, t ∉ Q q) →
  let st' := run_enqueue st t in
  links st' (qset Q 0 (Q 0 ++ [t])) S A ∧ fixed st' = fixed st ∧ ∀ x, core (thr st' x) = core (thr st x).
Proof.
  intros Hl Ht HQ st'. pose proof Hl as [Ha Hq Hs].
  assert (appended st st' 0 t) as Hap.
  { apply run_enqueue_appended.
    - by apply (l_dom _ _ Ha).
    - change (run_tail st) with (qtail st 0). rewrite (l_tail _ _ _ Hq). intros Heq.
      apply (HQ 0). rewrite <- Heq. apply last_in, last_of_last. rewrite Heq. by eapply all_nonzero.
    - change (run_tail st) with (qtail st 0). rewrite (l_tail _ _ _ Hq). intros Hz.
      apply (l_dom _ _ Ha), (l_in _ _ _ Hq 0). by apply last_in, last_of_last. }
  split; [by eapply links_append|]. split; [apply (ap_rest _ _ _ _ Hap)|].
  intros x. by rewrite (ap_thr _ _ _ _ Hap).
Qed.

(** The last step of every wakeup, for a thread that is on no list. *)
Lemma make_ready st Q S A t :
  links st Q S A → t ∈ A → (∀ q, t ∉ Q q) →
  let st' := run_enqueue (upd st t (with_state THREAD_RUNNABLE)) t in
  links st' (qset Q 0 (Q 0 ++ [t])) S A ∧ fixed st' = fixed st ∧
  (∀ x, core (thr st' x) = if decide (x = t) then core (with_state THREAD_RUNNABLE (thr st t)) else core (thr st x)).
Proof.
  intros Hl Ht HQ. assert (links (upd st t (with_state THREAD_RUNNABLE)) Q S A) as Hl1 by (apply links_upd; auto).
  destruct (enqueue_ready _ _ _ _ t Hl1 Ht HQ) as (Hl2 & Hf & Hc). split; [done|]. split; [done|].
  intros x. rewrite Hc. apply core_upd. by apply (l_dom _ _ (links_all _ _ _ _ Hl)).
Qed.

(** What waking [t] does to the threads. *)
Definition wakes (st st' : sched) (t : Z) (out : bool) : Prop :=
  fixed st' = fixed st ∧
  ∀ x, core (thr st' x) = if decide (x = t) then core (woken out (thr st t)) else core (thr st x).

Lemma elem_wake_queues Q q l t q' x :
  q ≠ 0 → (∀ q q' x, x ∈ Q q → x ∈ Q q' → q = q') → Q q = l → t ∈ l → NoDup l →
  x ∈ qset (qset Q q (without t l)) 0 (Q 0 ++ [t]) q' ↔ (x = t ∧ q' = 0) ∨ (x ≠ t ∧ x ∈ Q q').
Proof.
  intros Hq Hdj HQ Ht Hnd. destruct (decide (q' = 0)) as [->|H0].
  - rewrite qset_eq, elem_of_app, list_elem_of_singleton. split; [|tauto].
    intros [Hx| ->]; [|auto]. right. split; [|done]. intros ->. rewrite <- HQ in Ht. by apply Hq, (Hdj q 0 t).
  - rewrite qset_ne by done. destruct (decide (q' = q)) as [->|Hne].
    + rewrite qset_eq, elem_without, HQ. tauto.
    + rewrite qset_ne by done. split; [|tauto]. intros Hx. right. split; [|done]. intros ->.
      apply Hne. rewrite <- HQ in Ht. by apply (Hdj q' q t).
Qed.

Lemma wakes_agree st st' Q Q' S S' A t out :
  agree st Q S A → t ∈ A → t ≠ idle st → wakes st st' t out →
  (∀ q x, x ∈ Q' q ↔ (x = t ∧ q = 0) ∨ (x ≠ t ∧ x ∈ Q q)) → (∀ x, x ∈ S' ↔ x ≠ t ∧ x ∈ S) →
  agree st' Q' S' A.
Proof.
  intros Hag Ht Hid [Hfix Hcore] HQ HS. eapply agree_wake; try done.
  - intros x _. specialize (Hcore x). case_decide; by apply core_state in Hcore.
  - intros x _. specialize (Hcore x). case_decide; by apply core_waiting in Hcore.
Qed.

Lemma blocked_not_idle st Q S A t q : agree st Q S A → q ≠ 0 → t ∈ Q q → t ∈ A → t ≠ idle st.
Proof.
  intros [] Hq Ht HtA ->. assert (state (thr st (idle st)) = THREAD_BLOCKED) by (apply a_blocked; eauto).
  destruct a_idle_state; congruence.
Qed.

Lemma resleeped_core st st' x : resleeped st st' → core (thr st' x) = core (thr st x).
Proof. intros R. by rewrite (rs_thr _ _ R). Qed.
Lemma requeued_core st st' x : requeued st st' → core (thr st' x) = core (thr st x).
Proof. intros R. by rewrite (rq_thr _ _ R). Qed.

(** Leaving the sleepers, if the wait was timed. *)
Lemma end_timed_wait st Q S A t :
  links st Q S A → t ∈ A → (t ∈ S ↔ waiting_on (thr st t) ≠ 0) →
  ∃ st', (if truth (waiting_on (thr st t))
          then sleep_remove st t ≫= λ st, Ok (upd st t (λ x, with_wait 0 (timed_out x) x)) else Ok st) = Ok st' ∧
    links st' Q (without t S) A ∧ fixed st' = fixed st ∧
    ∀ x, core (thr st' x) = if decide (x = t) then core (with_wait 0 (timed_out (thr st t)) (thr st t)) else core (thr st x).
Proof.
  intros Hl Ht HtS. destruct (truth (waiting_on (thr st t))) eqn:Ew.
  - apply truth_true_iff in Ew. apply HtS in Ew. destruct (sleep_remove_spec _ _ _ _ _ Hl Ew) as (st1 & -> & R & Hl1).
    cbn [mbind outcome_bind]. eexists. split; [done|]. split; [apply links_upd; auto|].
    split; [apply (rs_rest _ _ R)|]. intros x.
    rewrite core_upd by (apply (rs_dom _ _ R); by apply (l_dom _ _ (links_all _ _ _ _ Hl))).
    case_decide; [|by apply resleeped_core]. by rewrite (rs_thr _ _ R).
  - apply truth_false_iff in Ew. exists st. split; [done|]. rewrite without_notin by tauto. split; [done|].
    split; [done|]. intros x. case_decide; [|done]. subst x. rewrite <- Ew. by destruct (thr st t).
Qed.

Lemma waitq_pop_spec st Q S A q :
  links st Q S A → agree st Q S A → q ≠ 0 →
  match Q q with
  | [] => waitq_pop st q = Ok (0, st)
  | t :: l => ∃ st', waitq_pop st q = Ok (t, st') ∧ wakes st st' t (timed_out (thr st t)) ∧
      links st' (qset (qset Q q l) 0 (Q 0 ++ [t])) (without t S) A ∧
      agree st' (qset (qset Q q l) 0 (Q 0 ++ [t])) (without t S) A
  end.
Proof.
  intros Hl Hag Hq. pose proof Hl as [Ha Hqs Hs]. pose proof Hqs as [Hlq _ Hnd Hdj Hin]. specialize (Hlq q).
  unfold qhead in Hlq. rewrite (proj2 (Z.eqb_neq q 0)) in Hlq by done. unfold waitq_pop.
  destruct (Q q) as [|t l] eqn:HQ; simpl in Hlq; [by rewrite Hlq|]. destruct Hlq as (-> & Ht0 & _).
  assert (t ∈ Q q) as Htq by (rewrite HQ; apply list_elem_of_here). assert (t ∈ A) as HtA by eauto.
  rewrite truth_nonzero by done. fold (nxt st t).
  pose proof (set_waitq_popped st q t Hq) as Hpo. cbv zeta in Hpo |- *.
  set (st1 := set_waitq st q _) in *. pose proof (links_pop _ _ _ _ _ _ _ _ Hl HQ Hpo) as Hl1.
  destruct (end_timed_wait st1 (qset Q q l) S A t Hl1 HtA) as (st2 & -> & Hl2 & Hf2 & Hc2).
  { rewrite (po_thr _ _ _ _ Hpo). rewrite (a_sleeping _ _ _ _ Hag t HtA).
    assert (state (thr st t) = THREAD_BLOCKED) as -> by (apply (a_blocked _ _ _ _ Hag); eauto). naive_solver. }
  cbn [mbind outcome_bind]. pose proof (Hnd q) as Hndq. rewrite HQ in Hndq.
  assert (without t (t :: l) = l) as Hw by (by apply (without_split t [] l)).
  destruct (make_ready st2 (qset Q q l) (without t S) A t Hl2 HtA) as (Hl3 & Hf3 & Hc3).
  { intros q' Hx. destruct (decide (q' = q)) as [->|Hne].
    - rewrite qset_eq in Hx. by apply NoDup_cons in Hndq as [? _].
    - rewrite qset_ne in Hx by done. by apply Hne, (Hdj q' q t). }
  rewrite (qset_ne Q q l 0) in Hl3 by done. eexists. split; [done|].
  assert (wakes st (run_enqueue (upd st2 t (with_state THREAD_RUNNABLE)) t) t (timed_out (thr st t))) as Hwk.
  { split; [by rewrite Hf3, Hf2|]. intros x. rewrite Hc3. case_decide as Hx.
    - subst x. specialize (Hc2 t). rewrite decide_True, (po_thr _ _ _ _ Hpo) in Hc2 by done.
      injection Hc2 as ? ? ? ? ? ? ? ?. unfold core, woken. simpl in *. congruence.
    - rewrite Hc2, decide_False by done. by rewrite (po_thr _ _ _ _ Hpo). }
  split; [done|]. split; [done|]. eapply wakes_agree; [done|done|by eapply (blocked_not_idle _ _ _ _ _ q)|done| |apply elem_without].
  intros q' x. rewrite <- Hw. apply elem_wake_queues; [done|done|done|apply list_elem_of_here|done].
Qed.

(** ** Timer wakeups *)

Lemma links_ext st Q Q' S A : (∀ q, Q' q = Q q) → links st Q S A → links st Q' S A.
Proof.
  intros HQ [Ha [Hl Ht Hn Hd Hi] Hs]. constructor; [done| |done].
  constructor; intros q; rewrite ?HQ; auto; try (intros q'; rewrite ?HQ; apply Hd). intros t. apply Hi.
Qed.

Lemma agree_ext st Q Q' S A : (∀ q, Q' q = Q q) → agree st Q S A → agree st Q' S A.
Proof.
  intros HQ []. constructor; try done.
  - intros t Ht. rewrite HQ. auto.
  - intros t Ht. rewrite a_blocked by done. split; intros (q & Hq & Hin); exists q; [by rewrite HQ|by rewrite <- HQ].
  - intros t Ht Hw. rewrite HQ. auto.
Qed.

(** The queues once the threads [due] left them for the run queue. *)
Definition wake_queues (Q : Z → list Z) (due : list Z) (q : Z) : list Z :=
  if decide (q = 0) then Q 0 ++ due else filter (λ x, x ∉ due) (Q q).

Lemma filter_compose (P P' : Z → Prop) `{∀ x, Decision (P x)} `{∀ x, Decision (P' x)} (l : list Z) :
  filter P (filter P' l) = filter (λ x, P x ∧ P' x) l.
Proof. apply list_filter_filter. Qed.

Lemma wake_queues_cons Q t due q : wake_queues Q (t :: due) q = wake_queues (wake_queues Q [t]) due q.
Proof.
  unfold wake_queues. destruct (decide (q = 0)) as [->|Hq].
  - rewrite decide_True by done. by rewrite <- app_assoc.
  - rewrite filter_compose. apply list_filter_iff. intros x. rewrite not_elem_of_cons, list_elem_of_singleton. tauto.
Qed.

Lemma wake_queues_nil Q q : wake_queues Q [] q = Q q.
Proof.
  unfold wake_queues. case_decide; [by subst; rewrite app_nil_r|]. apply list_filter_all.
  apply Forall_forall. intros x _. apply not_elem_of_nil.
Qed.

Lemma wake_queues_one Q t q : q ≠ 0 → wake_queues Q [t] q = without t (Q q).
Proof.
  intros Hq. unfold wake_queues, without. rewrite decide_False by done. apply list_filter_iff. intros x.
  by rewrite list_elem_of_singleton.
Qed.

(** A sleeper either sleeps or waits on the queue it names. *)
Lemma sleeper_cases st Q S A t :
  agree st Q S A → t ∈ S → t ∈ A →
  t ≠ idle st ∧ (t ∉ Q 0) ∧
  ((waiting_on (thr st t) ≠ 0 ∧ t ∈ Q (waiting_on (thr st t))) ∨
   (waiting_on (thr st t) = 0 ∧ ∀ q, t ∉ Q q)).
Proof.
  intros Hag HtS Ht. pose proof Hag as []. destruct (decide (waiting_on (thr st t) = 0)) as [Hz|Hnz].
  - assert (state (thr st t) = THREAD_SLEEPING) as Hst by (apply a_sleeping in HtS; naive_solver).
    assert (∀ q, t ∉ Q q) as HQ.
    { intros q Hq. destruct (decide (q = 0)) as [->|Hq0].
      - apply a_ready in Hq as [? _]; [congruence|done].
      - assert (state (thr st t) = THREAD_BLOCKED) by (apply a_blocked; eauto). congruence. }
    split_and!; [intros ->; destruct a_idle_state; congruence|apply HQ|by right].
  - pose proof (a_waiting t Ht Hnz) as Hin. assert (state (thr st t) = THREAD_BLOCKED) as Hst by (apply a_blocked; eauto).
    split_and!; [by eapply (blocked_not_idle _ _ _ _ _ (waiting_on (thr st t)))| |by left].
    intros Hq. apply a_ready in Hq as [? _]; [congruence|done].
Qed.

(** Whether the wakeup of a timed wait by the timer is reported as such. *)
Definition timer_out (t : thread) : bool := if truth (waiting_on t) then true else timed_out t.

Lemma core_woken t t' : core t = core t' → core (woken (timer_out t) t) = core (woken (timer_out t') t').
Proof. destruct t, t'. intros [= -> -> -> -> -> -> -> ->]. done. Qed.

(** Leaving the wait queue when the time has run out. *)
Lemma end_wait st Q S A t :
  links st Q S A → agree st Q (t :: S) A → t ∈ A →
  ∃ st', (if truth (waiting_on (thr st t))
          then waitq_remove st (waiting_on (thr st t)) t ≫= λ st, Ok (upd st t (with_wait 0 true)) else Ok st) = Ok st' ∧
    (∃ Q', links st' Q' S A ∧ Q' 0 = Q 0 ∧ ∀ q, q ≠ 0 → Q' q = without t (Q q)) ∧ fixed st' = fixed st ∧
    ∀ x, core (thr st' x) =
      if decide (x = t) then core (with_wait 0 (timer_out (thr st t)) (thr st t)) else core (thr st x).
Proof.
  intros Hl Hag Ht. pose proof (links_queues _ _ _ _ Hl) as [_ _ _ Hdj _]. unfold timer_out.
  destruct (sleeper_cases _ _ _ _ t Hag (list_elem_of_here _ _) Ht) as (_ & Ht0 & [[Hw Hin]|[Hw Hno]]).
  - rewrite truth_nonzero by done. set (w := waiting_on (thr st t)) in *.
    destruct (waitq_remove_spec _ _ _ _ w t Hl Hw Hin) as (st1 & -> & R & Hl1).
    cbn [mbind outcome_bind]. eexists. split; [done|]. split; [|split; [apply (rq_rest _ _ R)|]].
    + exists (qset Q w (without t (Q w))). split; [apply links_upd; auto|]. split; [by rewrite qset_ne|].
      intros q Hq. destruct (decide (q = w)) as [->|Hne]; [by rewrite qset_eq|]. rewrite qset_ne by done.
      rewrite without_notin; [done|]. intros Hx. by apply Hne, (Hdj q w t).
    + intros x. rewrite core_upd by (apply (rq_dom _ _ R); by apply (l_dom _ _ (links_all _ _ _ _ Hl))).
      case_decide; [|by apply requeued_core]. by rewrite (rq_thr _ _ R).
  - rewrite Hw. exists st. split; [done|]. split; [|split; [done|]].
    + exists Q. split; [done|]. split; [done|]. intros q _. by rewrite without_notin.
    + intros x. case_decide; [|done]. subst x. simpl. destruct (thr st t). simpl in *. by subst.
Qed.

Lemma hd_error_in (l : list Z) x : hd_error l = Some x → x ∈ l.
Proof. destruct l; [done|]. intros [= ->]. apply list_elem_of_here. Qed.

(** One round of the loop. *)
Lemma wake_sleeper st Q A t S :
  links st Q (t :: S) A → agree st Q (t :: S) A →
  ∃ st' st2, (let st := set_sleepers st (snxt st t) in
    if truth (waiting_on (thr st t))
    then waitq_remove st (waiting_on (thr st t)) t ≫= λ st, Ok (upd st t (with_wait 0 true)) else Ok st) = Ok st2 ∧
    st' = run_enqueue (upd st2 t (with_state THREAD_RUNNABLE)) t ∧
    wakes st st' t (timer_out (thr st t)) ∧ links st' (wake_queues Q [t]) S A ∧ agree st' (wake_queues Q [t]) S A.
Proof.
  intros Hl Hag. cbv zeta. pose proof (l_sleep_in _ _ _ (links_sleep _ _ _ _ Hl) t (list_elem_of_here _ _)) as Ht.
  pose proof (l_sleep_nodup _ _ _ (links_sleep _ _ _ _ Hl)) as [HtS _]%NoDup_cons.
  destruct (sleeper_cases _ _ _ _ t Hag (list_elem_of_here _ _) Ht) as (Hid & Ht0 & _).
  destruct (pop_sleeper st Q (t :: S) A t S Hl eq_refl) as [R Hl1].
  set (st1 := set_sleepers st (snxt st t)) in *.
  assert (agree st1 Q (t :: S) A) as Hag1 by (destruct Hag; by constructor).
  destruct (end_wait st1 Q S A t Hl1 Hag1 Ht) as (st2 & -> & (Q2 & Hl2 & HQ0 & HQ) & Hf & Hc).
  destruct (make_ready st2 Q2 S A t Hl2 Ht) as (Hl3 & Hf3 & Hc3).
  { intros q Hx. destruct (decide (q = 0)) as [->|Hq]; [by rewrite HQ0 in Hx|].
    rewrite HQ in Hx by done. by apply elem_without in Hx as [? _]. }
  eexists _, st2. split; [done|]. split; [done|].
  assert (∀ q, wake_queues Q [t] q = qset Q2 0 (Q2 0 ++ [t]) q) as HQ'.
  { intros q. destruct (decide (q = 0)) as [->|Hq]; [by rewrite qset_eq, HQ0|].
    by rewrite wake_queues_one, qset_ne, HQ. }
  set (st3 := run_enqueue _ _) in *.
  assert (wakes st st3 t (timer_out (thr st t))) as Hwk.
  { split; [by rewrite Hf3, Hf|]. intros x. rewrite Hc3. case_decide as Hx.
    - subst x. specialize (Hc t). rewrite decide_True in Hc by done. change (thr st1 t) with (thr st t) in Hc.
      injection Hc as ? ? ? ? ? ? ? ?. unfold core, woken. simpl in *. congruence.
    - by rewrite Hc, decide_False by done. }
  split; [done|]. split; [by eapply links_ext|].
  eapply wakes_agree; [done|done|done|done| |].
  - intros q x. unfold wake_queues. case_decide as Hq.
    + subst q. rewrite elem_of_app, list_elem_of_singleton. split; [|naive_solver].
      intros [Hx| ->]; [right|by left]. split; [|done]. by intros ->.
    + rewrite list_elem_of_filter, list_elem_of_singleton. naive_solver.
  - intros x. rewrite elem_of_cons. split; [|naive_solver]. intros Hx. split; [by intros ->|auto].
Qed.

(** What waking [due] does to the threads. *)
Definition wakes_all (st st' : sched) (due : list Z) : Prop :=
  fixed st' = fixed st ∧
  ∀ x, core (thr st' x) =
    if decide (x ∈ due) then core (woken (timer_out (thr st x)) (thr st x)) else core (thr st x).

Lemma wake_due_spec fuel st Q A due later now :
  links st Q (due ++ later) A → agree st Q (due ++ later) A → (length due < fuel)%nat →
  Forall (due_by st now) due → (∀ x, hd_error later = Some x → ¬ due_by st now x) →
  ∃ st', wake_due fuel st now = Ok st' ∧ wakes_all st st' due ∧
    links st' (wake_queues Q due) later A ∧ agree st' (wake_queues Q due) later A.
Proof.
  revert fuel st Q. induction due as [|t due IH]; intros [|fuel] st Q Hl Hag Hf Hdue Hlater; simpl in Hf; try lia;
    cbn [wake_due]; pose proof (l_sleep _ _ _ (links_sleep _ _ _ _ Hl)) as Hsl.
  - exists st. assert (truth (sleepers st) && (wake_tick (thr st (sleepers st)) <=? now) = false) as ->.
    { destruct later as [|x later]; simpl in Hsl; [by rewrite Hsl|]. destruct Hsl as (-> & Hx & _).
      rewrite truth_nonzero by done. apply Z.leb_gt. specialize (Hlater x eq_refl). unfold due_by in Hlater. lia. }
    split; [done|]. split; [split; [done|intros x; by rewrite decide_False by apply not_elem_of_nil]|].
    split; [by eapply links_ext, Hl; apply wake_queues_nil|by eapply agree_ext, Hag; apply wake_queues_nil].
  - cbn [app linked] in Hsl. destruct Hsl as (-> & Ht0 & _). apply Forall_cons in Hdue as [Hd Hdue].
    rewrite truth_nonzero, (proj2 (Z.leb_le _ _)) by done. cbn [andb app] in *.
    pose proof (l_sleep_nodup _ _ _ (links_sleep _ _ _ _ Hl)) as [Hnin _]%NoDup_cons.
    destruct (wake_sleeper st Q A t (due ++ later) Hl Hag) as (st1 & st2 & E & -> & [Hf1 Hc1] & Hl1 & Hag1).
    fold (snxt st t). cbv zeta in E |- *. rewrite E. cbn [mbind outcome_bind].
    set (st1 := run_enqueue _ _) in *.
    assert (∀ x, x ∈ due ++ later → core (thr st1 x) = core (thr st x)) as Hsame.
    { intros x Hx. rewrite Hc1, decide_False; [done|]. by intros ->. }
    destruct (IH fuel st1 (wake_queues Q [t]) Hl1 Hag1 ltac:(lia)) as (st' & E' & [Hf' Hc'] & Hl' & Hag').
    { rewrite Forall_forall in *. intros x Hx. unfold due_by.
      rewrite (core_wake_tick _ _ (Hsame x ltac:(apply elem_of_app; auto))). by apply Hdue. }
    { intros x Hx. unfold due_by. rewrite (core_wake_tick _ _ (Hsame x ltac:(apply elem_of_app; right; by apply hd_error_in))).
      by apply Hlater. }
    exists st'. split; [done|]. split; [split; [by rewrite Hf'|]|].
    + intros x. rewrite Hc'. destruct (decide (x ∈ due)) as [Hx|Hx].
      * rewrite decide_True by (by apply list_elem_of_further).
        apply core_woken, Hsame, elem_of_app. by left.
      * rewrite Hc1. destruct (decide (x = t)) as [->|].
        -- by rewrite decide_True by apply list_elem_of_here.
        -- by rewrite decide_False by (apply not_elem_of_cons; auto).
    + split; [eapply links_ext, Hl'; apply wake_queues_cons|eapply agree_ext, Hag'; apply wake_queues_cons].
Qed.

(** ** Switching *)

(** The run queue once the current thread was put back on it. *)
Definition ready_after (st : sched) (Q : Z → list Z) : list Z :=
  if decide (state (thr st (current st)) = THREAD_RUNNING ∧ current st ≠ idle st)
  then Q 0 ++ [current st] else Q 0.

Definition next_thread (st : sched) (Q : Z → list Z) : Z := hd (idle st) (ready_after st Q).

(** The threads left after a switch: a dead one is reclaimed. *)
Definition left_after (st : sched) (A : list Z) : list Z :=
  if decide (state (thr st (current st)) = THREAD_DEAD) then without (current st) A else A.

Definition demoted_state (st : sched) (x : Z) : thread_state :=
  if decide (x = current st ∧ state (thr st x) = THREAD_RUNNING) then THREAD_RUNNABLE else state (thr st x).

Definition switched_state (st : sched) (Q : Z → list Z) (x : Z) : thread_state :=
  if decide (x = next_thread st Q) then THREAD_RUNNING else demoted_state st x.

Section switch.
Context (st : sched) (Q : Z → list Z) (S A : list Z).
Context (Hl : links st Q S A) (Hag : agree st Q S A).
Context (Hcur : state (thr st (current st)) ≠ THREAD_RUNNABLE).

Lemma current_no_queue : state (thr st (current st)) = THREAD_RUNNING → ∀ q, current st ∉ Q q.
Proof.
  intros Hr q Hq. pose proof Hag as []. destruct (decide (q = 0)) as [->|Hq0].
  - apply a_ready in Hq as [? _]; [congruence|done].
  - assert (state (thr st (current st)) = THREAD_BLOCKED) by (apply a_blocked; eauto). congruence.
Qed.

Lemma ready_after_nodup : NoDup (ready_after st Q).
Proof.
  pose proof (l_nodup _ _ _ (links_queues _ _ _ _ Hl) 0) as Hnd. unfold ready_after. case_decide as Hr; [|done].
  apply NoDup_app. split; [done|]. split; [|apply NoDup_singleton].
  intros x Hx ->%list_elem_of_singleton. by apply (current_no_queue (proj1 Hr) 0).
Qed.

Lemma ready_after_in x : x ∈ ready_after st Q → x ∈ A.
Proof.
  unfold ready_after. case_decide; [|apply (l_in _ _ _ (links_queues _ _ _ _ Hl))].
  rewrite elem_of_app, list_elem_of_singleton. intros [Hx| ->]; [|apply Hag].
  by apply (l_in _ _ _ (links_queues _ _ _ _ Hl) 0).
Qed.

Lemma ready_after_state x : x ∈ A → (x ∈ ready_after st Q ↔ demoted_state st x = THREAD_RUNNABLE ∧ x ≠ idle st).
Proof.
  intros Hx. pose proof (a_ready _ _ _ _ Hag x Hx) as Hr. unfold ready_after, demoted_state.
  destruct (decide (state (thr st (current st)) = THREAD_RUNNING ∧ current st ≠ idle st)) as [[H1 H2]|Hn].
  - rewrite elem_of_app, list_elem_of_singleton, Hr. case_decide; naive_solver.
  - rewrite Hr. case_decide as Hc; [|done]. destruct Hc as [-> Hc]. naive_solver.
Qed.

Lemma next_thread_cases :
  next_thread st Q ∈ A ∧ demoted_state st (next_thread st Q) = THREAD_RUNNABLE ∧
  (∀ x, x ∈ tl (ready_after st Q) ↔ x ∈ ready_after st Q ∧ x ≠ next_thread st Q).
Proof.
  unfold next_thread. pose proof ready_after_nodup as Hnd.
  destruct (ready_after st Q) as [|n l] eqn:E; simpl.
  - pose proof Hag as []. split; [done|]. split; [|intros x; split; [by intros ?%elem_of_nil|by intros [?%elem_of_nil _]]].
    unfold demoted_state. case_decide as Hc; [done|]. destruct a_idle_state as [|Hr]; [done|].
    pose proof (a_running _ a_idle Hr). naive_solver.
  - assert (n ∈ ready_after st Q) as Hn by (rewrite E; apply list_elem_of_here).
    pose proof (ready_after_in n Hn) as HnA. apply NoDup_cons in Hnd as [Hnl _].
    split; [done|]. split; [by apply ready_after_state in Hn as [? _]|].
    intros x. rewrite elem_of_cons. split; [|naive_solver]. intros Hx. split; [auto|]. by intros ->.
Qed.

Lemma demoted_cases x : x ∈ A → demoted_state st x = THREAD_RUNNABLE →
  state (thr st x) ≠ THREAD_DEAD ∧ (∀ q, q ≠ 0 → x ∉ Q q) ∧ (x ∉ S) ∧ waiting_on (thr st x) = 0.
Proof.
  intros Hx Hd. pose proof Hag as [].
  assert (state (thr st x) = THREAD_RUNNABLE ∨ state (thr st x) = THREAD_RUNNING) as Hst.
  { unfold demoted_state in Hd. case_decide; naive_solver. }
  assert (∀ q, q ≠ 0 → x ∉ Q q) as HQ.
  { intros q Hq Hin. assert (state (thr st x) = THREAD_BLOCKED) by (apply a_blocked; eauto). naive_solver congruence. }
  assert (waiting_on (thr st x) = 0) as Hw.
  { destruct (decide (waiting_on (thr st x) = 0)) as [|Hw]; [done|]. destruct (HQ _ Hw). auto. }
  split; [naive_solver congruence|]. split; [done|]. split; [|done].
  rewrite a_sleeping by done. naive_solver congruence.
Qed.

Lemma left_after_in x : x ∈ left_after st A ↔ x ∈ A ∧ ¬ (x = current st ∧ state (thr st x) = THREAD_DEAD).
Proof. unfold left_after. case_decide; [rewrite elem_without|]; naive_solver. Qed.

Lemma agree_switch st' :
  (∀ x, x ∈ left_after st A → state (thr st' x) = switched_state st Q x ∧ waiting_on (thr st' x) = waiting_on (thr st x)) →
  current st' = next_thread st Q → idle st' = idle st → thread_count st' = Z.of_nat (length (left_after st A)) →
  agree st' (qset Q 0 (tl (ready_after st Q))) S (left_after st A).
Proof.
  intros Hthr Hc Hi Hn. pose proof Hag as []. destruct next_thread_cases as (HnA & Hnst & Htl).
  destruct (demoted_cases _ HnA Hnst) as (Hnd & HnQ & HnS & Hnw).
  assert (idle st ∈ left_after st A) as HiA by (apply left_after_in; split; [done|]; naive_solver congruence).
  assert (∀ x, x ≠ next_thread st Q → switched_state st Q x = demoted_state st x) as Hsw
    by (intros x Hx; unfold switched_state; by rewrite decide_False).
  constructor; rewrite ?Hc, ?Hi; try done.
  - apply left_after_in. split; [done|]. naive_solver.
  - rewrite (proj1 (Hthr _ HiA)). unfold switched_state, demoted_state. repeat case_decide; [by right|by left|].
    destruct a_idle_state as [|Hr]; [by left|]. pose proof (a_running _ a_idle Hr). naive_solver.
  - intros x Hx. rewrite (proj1 (Hthr x Hx)). apply left_after_in in Hx as [Hx _]. unfold switched_state, demoted_state.
    repeat case_decide; try done. intros Hr. pose proof (a_running _ Hx Hr). naive_solver.
  - intros x Hx. rewrite (proj1 (Hthr x Hx)). apply left_after_in in Hx as [Hx Hd]. unfold switched_state, demoted_state.
    repeat case_decide; try done. intros Hr. pose proof (a_dead _ Hx Hr). naive_solver.
  - intros x Hx. rewrite (proj1 (Hthr x Hx)), qset_eq, Htl. apply left_after_in in Hx as [Hx _].
    rewrite ready_after_state by done. unfold switched_state. case_decide; naive_solver.
  - intros x Hx. rewrite (proj1 (Hthr x Hx)). apply left_after_in in Hx as [Hx _].
    assert ((∃ q, q ≠ 0 ∧ x ∈ qset Q 0 (tl (ready_after st Q)) q) ↔ state (thr st x) = THREAD_BLOCKED) as ->.
    { rewrite a_blocked by done. split; intros (q & Hq & Hin); exists q; [rewrite qset_ne in Hin by done|rewrite qset_ne by done]; done. }
    unfold switched_state. case_decide as Hxn; [|unfold demoted_state; case_decide; naive_solver congruence].
    split; [done|]. rewrite a_blocked by done. subst x. naive_solver.
  - intros x Hx. rewrite (proj2 (Hthr x Hx)). apply left_after_in in Hx as [Hx _]. intros Hw. rewrite qset_ne by done. auto.
  - intros x Hx. rewrite (proj1 (Hthr x Hx)), (proj2 (Hthr x Hx)). apply left_after_in in Hx as [Hx _].
    unfold switched_state. case_decide as Hxn; [subst x; naive_solver congruence|].
    rewrite a_sleeping by done. unfold demoted_state. case_decide; naive_solver congruence.
Qed.

(** The first part of [schedule]: the current thread goes back on the queue. *)
Definition demoted : sched :=
  let prev := current st in
  if bool_decide (state (thr st prev) = THREAD_RUNNING) then
    let st := upd st prev (with_state THREAD_RUNNABLE) in
    if negb (prev =? idle st) then run_enqueue st prev else st
  else st.

Lemma demoted_spec :
  links demoted (qset Q 0 (ready_after st Q)) S A ∧ fixed demoted = fixed st ∧
  ∀ x, core (thr demoted x) = core (with_state (demoted_state st x) (thr st x)).
Proof.
  pose proof (a_current _ _ _ _ Hag) as Hc. pose proof (proj1 (l_dom _ _ (links_all _ _ _ _ Hl) _) Hc) as Hd.
  assert (∀ q, qset Q 0 (Q 0) q = Q q) as HQ.
  { intros q. destruct (decide (q = 0)) as [->|]; [by rewrite qset_eq|by rewrite qset_ne]. }
  unfold demoted, ready_after, demoted_state. case_bool_decide as Hr.
  - assert (∀ x, (if decide (x = current st) then core (with_state THREAD_RUNNABLE (thr st (current st))) else core (thr st x)) =
       core (with_state (if decide (x = current st ∧ state (thr st x) = THREAD_RUNNING) then THREAD_RUNNABLE else state (thr st x)) (thr st x))) as Hcore.
    { intros x. case_decide; [subst; by rewrite decide_True|]. rewrite decide_False by tauto. by destruct (thr st x). }
    change (idle (upd _ _ _)) with (idle st). destruct (Z.eqb_spec (current st) (idle st)) as [Hi|Hi]; cbn [negb].
    + rewrite decide_False by tauto. split; [eapply links_ext; [done|]; apply links_upd; auto|]. split; [done|].
      intros x. rewrite core_upd by done. apply Hcore.
    + rewrite decide_True by done. destruct (make_ready st Q S A (current st) Hl Hc (current_no_queue Hr)) as (H1 & H2 & H3).
      split; [done|]. split; [done|]. intros x. by rewrite H3.
  - rewrite decide_False by tauto. split; [by eapply links_ext|]. split; [done|]. intros x.
    rewrite decide_False by (intros [-> ?]; done). by destruct (thr st x).
Qed.

(** Up to the switch: the next thread is off the queue and running. *)
Lemma promoted_spec :
  ∃ st2, (let '(n, st) := run_dequeue demoted in
     let n := if n =? 0 then idle st else n in
     (n, set_slice (upd st n (with_state THREAD_RUNNING)) TIME_SLICE_TICKS)) = (next_thread st Q, st2) ∧
    links st2 (qset Q 0 (tl (ready_after st Q))) S A ∧
    (current st2 = current st ∧ idle st2 = idle st ∧ thread_count st2 = thread_count st ∧
     preemptive st2 = preemptive st ∧ idle_ticks st2 = idle_ticks st ∧ active_as st2 = active_as st ∧
     slice_left st2 = TIME_SLICE_TICKS) ∧
    ∀ x, core (thr st2 x) = core (with_state (switched_state st Q x) (thr st x)).
Proof.
  destruct demoted_spec as (Hl1 & Hf1 & Hc1). pose proof (fixed_fields _ _ Hf1) as (? & Hid & ? & ? & ? & ? & ?).
  pose proof (run_dequeue_spec _ _ _ _ Hl1) as Hde. rewrite qset_eq in Hde. destruct next_thread_cases as (HnA & _ & _).
  assert (∃ st1, (let '(n, st) := run_dequeue demoted in (if n =? 0 then idle st else n, st)) = (next_thread st Q, st1) ∧
    links st1 (qset Q 0 (tl (ready_after st Q))) S A ∧ fixed st1 = fixed demoted ∧ (∀ x, thr st1 x = thr demoted x))
    as (st1 & E & Hl2 & Hf2 & Ht2).
  { unfold next_thread. destruct (ready_after st Q) as [|n l] eqn:E.
    - rewrite Hde. exists demoted. rewrite Hid. done.
    - destruct Hde as (st1 & -> & Hpo & Hl2). exists st1. rewrite (proj2 (Z.eqb_neq n 0)).
      + split; [done|]. split; [|split; [apply (po_rest _ _ _ _ Hpo)|apply (po_thr _ _ _ _ Hpo)]].
        eapply links_ext, Hl2. intros q. destruct (decide (q = 0)) as [->|]; [by rewrite !qset_eq|by rewrite !qset_ne].
      + eapply all_nonzero; [apply (links_all _ _ _ _ Hl)|]. apply ready_after_in. rewrite E. apply list_elem_of_here. }
  destruct (run_dequeue demoted) as [n st0]. injection E as Hn ->. cbv zeta. rewrite Hn. eexists. split; [done|].
  pose proof (fixed_fields _ _ Hf2) as (? & ? & ? & ? & ? & ? & ?).
  split.
  { assert (links (upd st1 (next_thread st Q) (with_state THREAD_RUNNING)) (qset Q 0 (tl (ready_after st Q))) S A) as [[] [] []]
      by (apply links_upd; auto). constructor; by constructor. }
  split; [cbn; split_and!; congruence|].
  intros x. change (thr (set_slice _ _) x) with (thr (upd st1 (next_thread st Q) (with_state THREAD_RUNNING)) x).
  rewrite core_upd by (by apply (l_dom _ _ (links_all _ _ _ _ Hl2))). unfold switched_state.
  rewrite !Ht2. specialize (Hc1 x). case_decide as Hx; [|done]. subst x.
  injection Hc1 as ? ? ? ? ? ? ? ?. unfold core. simpl in *. congruence.
Qed.

(** A dead thread is on no list. *)
Lemma dead_unlisted :
  state (thr st (current st)) = THREAD_DEAD →
  (∀ q, current st ∉ qset Q 0 (tl (ready_after st Q)) q) ∧ (current st ∉ S) ∧ next_thread st Q ≠ current st.
Proof.
  intros Hd. pose proof Hag as []. destruct next_thread_cases as (HnA & Hnst & Htl).
  assert (∀ q, q ≠ 0 → current st ∉ Q q) as HQ.
  { intros q Hq Hin. assert (state (thr st (current st)) = THREAD_BLOCKED) by (apply a_blocked; eauto). congruence. }
  assert (demoted_state st (current st) = THREAD_DEAD) as Hdem.
  { unfold demoted_state. rewrite decide_False; [done|]. intros [_ ?]. congruence. }
  split_and!.
  - intros q Hin. destruct (decide (q = 0)) as [->|Hq]; [|rewrite qset_ne in Hin by done; by apply (HQ q)].
    rewrite qset_eq, Htl in Hin. destruct Hin as [Hin _]. apply ready_after_state in Hin as [? _]; [congruence|done].
  - rewrite a_sleeping by done. intros [?|Hw]; [congruence|]. apply (HQ _ Hw). auto.
  - congruence.
Qed.

(** What a switch leaves of the threads. *)
Definition switched_threads (st' : sched) : Prop :=
  ∀ x, x ∈ left_after st A → core (thr st' x) = core (with_state (switched_state st Q x) (thr st x)).

Lemma finish_switch_spec st2 :
  links st2 (qset Q 0 (tl (ready_after st Q))) S A → next_thread st Q ≠ current st →
  (∀ x, core (thr st2 x) = core (with_state (switched_state st Q x) (thr st x))) →
  switched_from st2 = current st →
  ∃ st', finish_switch st2 = Ok st' ∧ links st' (qset Q 0 (tl (ready_after st Q))) S (left_after st A) ∧
    switched_threads st' ∧ current st' = current st2 ∧ idle st' = idle st2 ∧
    slice_left st' = slice_left st2 ∧ preemptive st' = preemptive st2 ∧ idle_ticks st' = idle_ticks st2 ∧
    active_as st' = active_as st2 ∧
    thread_count st' = thread_count st2 - (Z.of_nat (length A) - Z.of_nat (length (left_after st A))).
Proof.
  intros Hl2 Hne Hc2 Hfrom. unfold finish_switch. rewrite Hfrom.
  pose proof (core_state _ _ (Hc2 (current st))) as Hst. simpl in Hst.
  unfold switched_state in Hst. rewrite decide_False in Hst by done.
  assert (state (thr st2 (current st)) = THREAD_DEAD ↔ state (thr st (current st)) = THREAD_DEAD) as Hiff.
  { rewrite Hst. unfold demoted_state. case_decide as Hd; [|done]. destruct Hd as [_ ->]. done. }
  unfold switched_threads, left_after. case_bool_decide as Hd.
  - apply Hiff in Hd as Hd'. rewrite !decide_True by done. destruct (dead_unlisted Hd') as (HQ & HS & _).
    pose proof (a_current _ _ _ _ Hag) as Hc.
    destruct (reclaim_spec _ _ _ _ (current st) Hl2 Hc HQ HS) as (st3 & -> & R & Hl3). cbn [mbind outcome_bind].
    destruct R as [Hrt _ [Hrf _]]. pose proof (fixed_fields _ _ Hrf) as (? & ? & ? & Hcnt & ? & ? & ?).
    eexists. split; [done|]. split; [by destruct Hl3 as [[] [] []]; constructor; constructor|].
    split; [|split_and!; try done].
    + intros x [Hx _]%elem_without. etransitivity; [|apply Hc2]. specialize (Hrt x Hx).
      change (thr (set_counts ?s _ _) x) with (thr s x). by rewrite Hrt.
    + cbn [thread_count set_counts]. rewrite Hcnt. apply list_elem_of_split in Hc as (l1 & l2 & HA).
      pose proof (l_all_nodup _ _ (links_all _ _ _ _ Hl)) as Hnd. rewrite HA in *.
      rewrite without_split, !length_app by done. cbn [length]. lia.
  - rewrite !decide_False by tauto. exists st2. split; [done|]. split; [done|]. split_and!; try done. lia.
Qed.

Lemma schedule_spec :
  active_as st = as_ (thr st (current st)) →
  ∃ st', schedule st = Ok st' ∧ sched_wf st' (qset Q 0 (tl (ready_after st Q))) S (left_after st A) ∧
    switched_threads st' ∧ current st' = next_thread st Q ∧ idle st' = idle st ∧
    slice_left st' = TIME_SLICE_TICKS ∧ preemptive st' = preemptive st ∧ idle_ticks st' = idle_ticks st.
Proof.
  intros Has. destruct promoted_spec as (st2 & E & Hl2 & (Hcu & Hid & Hct & Hpr & Hit & Hac & Hsl) & Hc2).
  pose proof next_thread_cases as (HnA & Hnst & _). unfold schedule. fold demoted.
  destruct (run_dequeue demoted) as [n st1]. injection E as -> E. cbv zeta. rewrite E. clear E.
  assert (∃ st', (if next_thread st Q =? current st then Ok st2
      else finish_switch (set_current st2 (next_thread st Q) (current st) (as_ (thr st2 (next_thread st Q))))) = Ok st' ∧
    links st' (qset Q 0 (tl (ready_after st Q))) S (left_after st A) ∧
    switched_threads st' ∧ current st' = next_thread st Q ∧ idle st' = idle st ∧
    slice_left st' = TIME_SLICE_TICKS ∧ preemptive st' = preemptive st ∧ idle_ticks st' = idle_ticks st ∧
    active_as st' = as_ (thr st (next_thread st Q)) ∧
    thread_count st' = thread_count st - (Z.of_nat (length A) - Z.of_nat (length (left_after st A))))
    as (st' & E & Hl' & Hsw & Hcu' & Hid' & Hsl' & Hpr' & Hit' & Hac' & Hct').
  { destruct (Z.eqb_spec (next_thread st Q) (current st)) as [Heq|Hne].
    - assert (left_after st A = A) as HA.
      { unfold left_after. rewrite decide_False; [done|]. intros Hd. by destruct (dead_unlisted Hd) as (_ & _ & ?). }
      unfold switched_threads. rewrite HA. exists st2. split_and!; try done; [congruence|congruence|lia].
    - destruct (finish_switch_spec (set_current st2 (next_thread st Q) (current st) (as_ (thr st2 (next_thread st Q)))))
        as (st' & E & Hl' & Hsw & H1 & H2 & H3 & H4 & H5 & H6 & H7); try done.
      { destruct Hl2 as [[] [] []]. constructor; by constructor. }
      exists st'. split; [done|]. cbn in H1, H2, H3, H4, H5, H6, H7. 
      pose proof (core_as _ _ (Hc2 (next_thread st Q))) as Has2. split_and!; try done; simpl in *; congruence. }
  assert (next_thread st Q ∈ left_after st A) as HnA'.
  { apply left_after_in. split; [done|]. intros [_ Hd]. by destruct (demoted_cases _ HnA Hnst) as [? _]. }
  exists st'. split; [done|]. split; [|done]. constructor; [done| | | |].
  - apply agree_switch; [|done|done|].
    + intros x Hx. specialize (Hsw x Hx). split; [by apply core_state in Hsw|by apply core_waiting in Hsw].
    + rewrite Hct', (a_count _ _ _ _ Hag). lia.
  - rewrite Hcu', (core_state _ _ (Hsw _ HnA')). simpl. unfold switched_state. by rewrite decide_True.
  - rewrite Hsl'. done.
  - rewrite Hac', Hcu'. symmetry. by rewrite (core_as _ _ (Hsw _ HnA')).
Qed.

End switch.

(** ** Leaving the processor *)

Lemma wf_current_facts st Q S A :
  sched_wf st Q S A →
  (∀ q, current st ∉ Q q) ∧ (current st ∉ S) ∧ waiting_on (thr st (current st)) = 0.
Proof.
  intros [Hl Hag Hr _ _]. pose proof (current_no_queue _ _ _ _ Hag Hr) as HQ. pose proof Hag as [].
  assert (waiting_on (thr st (current st)) = 0) as Hw.
  { destruct (decide (waiting_on (thr st (current st)) = 0)) as [|Hw]; [done|]. destruct (HQ (waiting_on (thr st (current st)))). auto. }
  split; [done|]. split; [|done]. rewrite a_sleeping by done. intros [?|?]; congruence.
Qed.

(** The current thread announces that it sleeps, blocks or dies. *)
Lemma agree_leave st st' Q Q' S S' A :
  sched_wf st Q S A → current st ≠ idle st → fixed st' = fixed st →
  let c := current st in
  (∀ x, x ∈ A → x ≠ c → core (thr st' x) = core (thr st x)) →
  (∀ q x, x ≠ c → (x ∈ Q' q ↔ x ∈ Q q)) → (∀ x, x ≠ c → (x ∈ S' ↔ x ∈ S)) →
  state (thr st' c) ≠ THREAD_RUNNING → state (thr st' c) ≠ THREAD_RUNNABLE → c ∉ Q' 0 →
  (state (thr st' c) = THREAD_BLOCKED ↔ ∃ q, q ≠ 0 ∧ c ∈ Q' q) →
  (waiting_on (thr st' c) ≠ 0 → c ∈ Q' (waiting_on (thr st' c))) →
  (c ∈ S' ↔ state (thr st' c) = THREAD_SLEEPING ∨ waiting_on (thr st' c) ≠ 0) →
  agree st' Q' S' A.
Proof.
  intros [Hl [] _ _ _] Hid (Hc & Hi & _ & Hn & _)%fixed_fields c Hcore HQ HS Hr1 Hr2 H0 Hb Hw Hs.
  assert (∀ x, x ∈ A → x ≠ c → state (thr st' x) = state (thr st x) ∧ waiting_on (thr st' x) = waiting_on (thr st x)) as Hst.
  { intros x Hx Hxc. split; [apply core_state|apply core_waiting]; auto. }
  constructor; rewrite ?Hc, ?Hi, ?Hn; try done.
  - rewrite (proj1 (Hst _ a_idle (not_eq_sym Hid))). done.
  - intros x Hx. destruct (decide (x = c)) as [->|Hxc]; [done|]. rewrite (proj1 (Hst x Hx Hxc)). auto.
  - intros x Hx. destruct (decide (x = c)) as [->|Hxc]; [done|]. rewrite (proj1 (Hst x Hx Hxc)). auto.
  - intros x Hx. destruct (decide (x = c)) as [->|Hxc]; [naive_solver|]. rewrite (proj1 (Hst x Hx Hxc)), HQ by done. auto.
  - intros x Hx. destruct (decide (x = c)) as [->|Hxc]; [done|]. rewrite (proj1 (Hst x Hx Hxc)), a_blocked by done.
    split; intros (q & Hq & Hin); exists q; (split; [done|]); by apply (HQ q x Hxc).
  - intros x Hx. destruct (decide (x = c)) as [->|Hxc]; [done|]. rewrite (proj2 (Hst x Hx Hxc)). intros Hnz.
    apply HQ; [done|]. auto.
  - intros x Hx. destruct (decide (x = c)) as [->|Hxc]; [done|].
    rewrite (proj1 (Hst x Hx Hxc)), (proj2 (Hst x Hx Hxc)), HS by done. auto.
Qed.

(** The sleepers with [t] among them, behind those that wake no later. *)
Definition sleep_put (st : sched) (w t : Z) (S : list Z) : list Z :=
  filter (due_by st w) S ++ t :: filter (λ x, ¬ due_by st w x) S.

Lemma elem_sleep_put st w t S x : x ∈ sleep_put st w t S ↔ x = t ∨ x ∈ S.
Proof.
  unfold sleep_put. rewrite elem_of_app, elem_of_cons, !list_elem_of_filter.
  destruct (decide (due_by st w x)); naive_solver.
Qed.

(** Announcing the wait on queue [q]. *)
Lemma enqueue_waiter st Q S A q t :
  links st Q S A → t ∈ A → q ≠ 0 → (∀ q', t ∉ Q q') →
  let st' := waitq_append st q t in
  links st' (qset Q q (Q q ++ [t])) S A ∧ fixed st' = fixed st ∧ ∀ x, core (thr st' x) = core (thr st x).
Proof.
  intros Hl Ht Hq HQ st'. pose proof Hl as [Ha Hqs Hs].
  assert (qtail st q = tail (waitqs st q)) as Hqt by (unfold qtail; by rewrite (proj2 (Z.eqb_neq q 0))).
  assert (appended st st' q t) as Hap.
  { apply waitq_append_appended; [done|by apply (l_dom _ _ Ha)| |]; rewrite <- Hqt, (l_tail _ _ _ Hqs).
    - intros Heq. apply (HQ q). rewrite <- Heq. apply last_in, last_of_last. rewrite Heq. by eapply all_nonzero.
    - intros Hz. apply (l_dom _ _ Ha), (l_in _ _ _ Hqs q). by apply last_in, last_of_last. }
  split; [by eapply links_append|]. split; [apply (ap_rest _ _ _ _ Hap)|]. intros x. by rewrite (ap_thr _ _ _ _ Hap).
Qed.

(** How an operation ends that gave the processor away: [n] runs next. *)
Record switched_to (st st' : sched) (n : Z) : Prop := {
  sw_current : current st' = n;
  sw_idle : idle st' = idle st;
  sw_slice : slice_left st' = TIME_SLICE_TICKS;
  sw_preemptive : preemptive st' = preemptive st;
  sw_idle_ticks : idle_ticks st' = idle_ticks st
}.

Lemma leave_schedule st Q S A :
  links st Q S A → agree st Q S A → active_as st = as_ (thr st (current st)) →
  state (thr st (current st)) ≠ THREAD_RUNNING → state (thr st (current st)) ≠ THREAD_RUNNABLE →
  ∃ st', schedule st = Ok st' ∧ sched_wf st' (qset Q 0 (tl (Q 0))) S (left_after st A) ∧
    switched_to st st' (hd (idle st) (Q 0)) ∧
    ∀ x, x ∈ left_after st A → x ≠ current st' → core (thr st' x) = core (thr st x).
Proof.
  intros Hl Hag Has Hr1 Hr2. destruct (schedule_spec st Q S A Hl Hag Hr2 Has) as (st' & E & Hwf & Hsw & Hc & ? & ? & ? & ?).
  assert (ready_after st Q = Q 0) as HR by (unfold ready_after; by rewrite decide_False by tauto).
  unfold next_thread in Hc. rewrite HR in *. exists st'. split; [done|]. split; [done|]. split; [by constructor|].
  intros x Hx Hxc. rewrite (Hsw x Hx). unfold switched_state, next_thread. rewrite HR.
  rewrite decide_False by congruence. unfold demoted_state. rewrite decide_False by naive_solver. by destruct (thr st x).
Qed.

Lemma qset_nonzero_hd Q q l : q ≠ 0 → qset Q q l 0 = Q 0.
Proof. intros. by rewrite qset_ne. Qed.

Lemma thread_sleep_until_step st Q S A tick :
  sched_wf st Q S A → current st ≠ idle st →
  ∃ st', thread_sleep_until st tick = Ok st' ∧
    sched_wf st' (qset Q 0 (tl (Q 0))) (sleep_put st tick (current st) S) A ∧
    switched_to st st' (hd (idle st) (Q 0)) ∧ wake_tick (thr st' (current st)) = tick.
Proof.
  intros Hwf Hid. destruct (wf_current_facts _ _ _ _ Hwf) as (HQ & HS & Hw). pose proof Hwf as [Hl Hag Hr Hsl Has].
  set (c := current st) in *. pose proof (a_current _ _ _ _ Hag) as Hc. fold c in Hc.
  pose proof (proj1 (l_dom _ _ (links_all _ _ _ _ Hl) _) Hc) as Hd.
  unfold thread_sleep_until. fold c. set (st1 := upd st c (with_state THREAD_SLEEPING)).
  set (st2 := upd st1 c (with_wake_tick tick)).
  assert (∀ x, thr st2 x = if decide (x = c) then with_wake_tick tick (with_state THREAD_SLEEPING (thr st c)) else thr st x) as Ht2.
  { intros x. unfold st2. rewrite !thr_upd by (done || by apply dom_upd). unfold st1. rewrite !thr_upd by done.
    repeat case_decide; congruence. }
  assert (links st2 Q S A) as Hl2 by (apply links_upd; auto; apply links_upd; auto).
  destruct (sleep_insert_spec st2 Q S A c Hl2 Hc HS) as (st3 & -> & R & Hl3). cbn [mbind outcome_bind].
  rewrite Ht2, decide_True in Hl3 by done. change (wake_tick (with_wake_tick tick _)) with tick in Hl3.
  assert (filter (due_by st2 tick) S ++ c :: filter (λ x, ¬ due_by st2 tick x) S = sleep_put st tick c S) as HS'.
  { unfold sleep_put. f_equal; [|f_equal]; apply list_filter_iff'; intros x Hx; unfold due_by; rewrite Ht2, decide_False by (by intros ->); done. }
  rewrite HS' in Hl3. destruct (rs_rest _ _ R) as [Hf3 _]. pose proof (fixed_fields _ _ Hf3) as (Hc3 & Hi3 & Hs3 & _ & Hp3 & Ht3 & Ha3).
  assert (∀ x, core (thr st3 x) = core (thr st2 x)) as Hcore by (intros x; by apply resleeped_core).
  assert (core (thr st3 c) = core (with_wake_tick tick (with_state THREAD_SLEEPING (thr st c)))) as Hcc.
  { rewrite Hcore, Ht2. by rewrite decide_True. }
  pose proof (core_state _ _ Hcc) as Hst. pose proof (core_waiting _ _ Hcc) as Hwt. simpl in Hst, Hwt.
  assert (agree st3 Q (sleep_put st tick c S) A) as Hag3.
  { eapply agree_leave; [done|done|done|..]; fold c; rewrite ?Hst, ?Hwt; try done.
    - intros x _ Hx. rewrite Hcore, Ht2. by rewrite decide_False.
    - intros x Hx. rewrite elem_sleep_put. naive_solver.
    - split; [done|]. intros (q & _ & Hq). by destruct (HQ q).
    - rewrite elem_sleep_put. naive_solver. }
  change (current st2) with c in Hc3.
  destruct (leave_schedule st3 Q _ A Hl3 Hag3) as (st' & E & Hwf' & [] & Hrest);
    [rewrite Hc3, (core_as _ _ Hcc), Ha3; done|by rewrite Hc3, Hst..|].
  unfold left_after in Hwf', Hrest. rewrite Hc3, Hst, decide_False in Hwf', Hrest by done.
  exists st'. split; [done|]. split; [done|]. split; [constructor; simpl in *; congruence|].
  assert (c ≠ current st') as Hne.
  { rewrite sw_current0, Hi3. change (idle st2) with (idle st). destruct (Q 0) as [|n l] eqn:E0; [done|]. intros ->.
    apply (HQ 0). rewrite E0. apply list_elem_of_here. }
  rewrite (core_wake_tick _ _ (Hrest c Hc Hne)), (core_wake_tick _ _ Hcc). done.
Qed.

(** [waitq_sleep], the thread being among the sleepers or not. *)
Lemma block_step st st1 Q S S1 A q :
  sched_wf st Q S A → current st ≠ idle st → q ≠ 0 → links st1 Q S1 A → fixed st1 = fixed st →
  let c := current st in
  (∀ x, x ≠ c → core (thr st1 x) = core (thr st x)) → as_ (thr st1 c) = as_ (thr st c) →
  (waiting_on (thr st1 c) = 0 ∨ waiting_on (thr st1 c) = q) →
  (∀ x, x ≠ c → (x ∈ S1 ↔ x ∈ S)) → (c ∈ S1 ↔ waiting_on (thr st1 c) ≠ 0) →
  ∃ st', waitq_sleep st1 q = Ok st' ∧
    sched_wf st' (qset (qset Q q (Q q ++ [c])) 0 (tl (Q 0))) S1 A ∧ switched_to st st' (hd (idle st) (Q 0)).
Proof.
  intros Hwf Hid Hq Hl1 Hf1 c Hcore1 Has1 Hw1 HS1 Hc1.
  destruct (wf_current_facts _ _ _ _ Hwf) as (HQ & _ & _). fold c in HQ. pose proof Hwf as [Hl Hag Hr Hsl Has].
  pose proof (a_current _ _ _ _ Hag) as Hc. fold c in Hc. pose proof (proj1 (l_dom _ _ (links_all _ _ _ _ Hl1) _) Hc) as Hd.
  pose proof (fixed_fields _ _ Hf1) as (Hcu1 & Hi1 & _ & _ & Hp1 & Ht1 & Ha1). unfold waitq_sleep. rewrite Hcu1. fold c.
  set (st2 := upd st1 c (with_state THREAD_BLOCKED)).
  assert (links st2 Q S1 A) as Hl2 by (apply links_upd; auto).
  destruct (enqueue_waiter st2 Q S1 A q c Hl2 Hc Hq HQ) as (Hl3 & Hf3 & Hc3). set (st3 := waitq_append st2 q c) in *.
  assert (fixed st3 = fixed st) as Hf by (by rewrite Hf3). pose proof (fixed_fields _ _ Hf) as (Hcu3 & Hi3 & _ & _ & Hp3 & Ht3 & Ha3).
  assert (core (thr st3 c) = core (with_state THREAD_BLOCKED (thr st1 c))) as Hcc.
  { rewrite Hc3. unfold st2. by rewrite core_upd, decide_True by done. }
  pose proof (core_state _ _ Hcc) as Hst. pose proof (core_waiting _ _ Hcc) as Hwt. simpl in Hst, Hwt.
  assert (agree st3 (qset Q q (Q q ++ [c])) S1 A) as Hag3.
  { eapply agree_leave; [done|done|done|..]; fold c; rewrite ?Hst, ?Hwt; try done.
    - intros x _ Hx. rewrite Hc3. unfold st2. rewrite core_upd, decide_False by done. by apply Hcore1.
    - intros q' x Hx. rewrite elem_qset_app. naive_solver.
    - rewrite qset_ne by done. apply HQ.
    - split; [|done]. intros _. exists q. split; [done|]. apply elem_qset_app. auto.
    - intros Hnz. destruct Hw1 as [|Hw1]; [done|]. rewrite Hw1. apply elem_qset_app. auto.
    - rewrite Hc1. naive_solver. }
  fold c in Hcu3. destruct (leave_schedule st3 _ _ A Hl3 Hag3) as (st' & E & Hwf' & [] & _);
    [rewrite Hcu3, (core_as _ _ Hcc), Ha3, Has; done|by rewrite Hcu3, Hst..|].
  unfold left_after in Hwf'. rewrite Hcu3, Hst, decide_False in Hwf' by done.
  rewrite qset_ne in sw_current0, Hwf' by done.
  exists st'. split; [done|]. split; [done|]. constructor; simpl in *; congruence.
Qed.

Lemma waitq_sleep_step st Q S A q :
  sched_wf st Q S A → current st ≠ idle st → q ≠ 0 →
  ∃ st', waitq_sleep st q = Ok st' ∧
    sched_wf st' (qset (qset Q q (Q q ++ [current st])) 0 (tl (Q 0))) S A ∧ switched_to st st' (hd (idle st) (Q 0)).
Proof.
  intros Hwf Hid Hq. destruct (wf_current_facts _ _ _ _ Hwf) as (HQ & HS & Hw).
  eapply (block_step st st); try done; try apply Hwf; tauto.
Qed.

Lemma waitq_sleep_until_step st Q S A q tick :
  sched_wf st Q S A → current st ≠ idle st → q ≠ 0 →
  ∃ st', waitq_sleep_until st q tick = Ok st' ∧
    sched_wf st' (qset (qset Q q (Q q ++ [current st])) 0 (tl (Q 0))) (sleep_put st tick (current st) S) A ∧
    switched_to st st' (hd (idle st) (Q 0)).
Proof.
  intros Hwf Hid Hq. destruct (wf_current_facts _ _ _ _ Hwf) as (HQ & HS & Hw). pose proof Hwf as [Hl Hag Hr Hsl Has].
  unfold waitq_sleep_until. set (c := current st) in *. pose proof (a_current _ _ _ _ Hag) as Hc. fold c in Hc.
  pose proof (proj1 (l_dom _ _ (links_all _ _ _ _ Hl) _) Hc) as Hd.
  set (st1 := upd st c (with_wait q false)). set (st2 := upd st1 c (with_wake_tick tick)).
  assert (∀ x, thr st2 x = if decide (x = c) then with_wake_tick tick (with_wait q false (thr st c)) else thr st x) as Ht2.
  { intros x. unfold st2. rewrite !thr_upd by (done || by apply dom_upd). unfold st1. rewrite !thr_upd by done.
    repeat case_decide; congruence. }
  assert (links st2 Q S A) as Hl2 by (apply links_upd; auto; apply links_upd; auto).
  destruct (sleep_insert_spec st2 Q S A c Hl2 Hc HS) as (st3 & -> & R & Hl3). cbn [mbind outcome_bind].
  rewrite Ht2, decide_True in Hl3 by done. change (wake_tick (with_wake_tick tick _)) with tick in Hl3.
  assert (filter (due_by st2 tick) S ++ c :: filter (λ x, ¬ due_by st2 tick x) S = sleep_put st tick c S) as HS'.
  { unfold sleep_put. f_equal; [|f_equal]; apply list_filter_iff'; intros x Hx; unfold due_by; rewrite Ht2, decide_False by (by intros ->); done. }
  rewrite HS' in Hl3.
  assert (core (thr st3 c) = core (with_wake_tick tick (with_wait q false (thr st c)))) as Hcc.
  { rewrite (resleeped_core _ _ _ R), Ht2. by rewrite decide_True. }
  pose proof (core_waiting _ _ Hcc) as Hwt. pose proof (core_as _ _ Hcc) as Hast. simpl in Hwt, Hast.
  eapply block_step; try done; fold c; rewrite ?Hwt.
  - apply (rs_rest _ _ R).
  - intros x Hx. rewrite (resleeped_core _ _ _ R), Ht2. by rewrite decide_False.
  - by right.
  - intros x Hx. rewrite elem_sleep_put. naive_solver.
  - rewrite elem_sleep_put. naive_solver.
Qed.

(** A thread that exits is reclaimed. *)
Lemma thread_exit_step st Q S A :
  sched_wf st Q S A → current st ≠ idle st →
  ∃ st', thread_exit st = Ok st' ∧ sched_wf st' (qset Q 0 (tl (Q 0))) S (without (current st) A) ∧
    switched_to st st' (hd (idle st) (Q 0)).
Proof.
  intros Hwf Hid. destruct (wf_current_facts _ _ _ _ Hwf) as (HQ & HS & Hw). pose proof Hwf as [Hl Hag Hr Hsl Has].
  unfold thread_exit. set (c := current st) in *. pose proof (a_current _ _ _ _ Hag) as Hc. fold c in Hc.
  pose proof (proj1 (l_dom _ _ (links_all _ _ _ _ Hl) _) Hc) as Hd. set (st1 := upd st c (with_state THREAD_DEAD)).
  assert (core (thr st1 c) = core (with_state THREAD_DEAD (thr st c))) as Hcc by (unfold st1; by rewrite core_upd, decide_True).
  pose proof (core_state _ _ Hcc) as Hst. pose proof (core_waiting _ _ Hcc) as Hwt. simpl in Hst, Hwt.
  assert (links st1 Q S A) as Hl1 by (apply links_upd; auto).
  assert (agree st1 Q S A) as Hag1.
  { eapply agree_leave; [done|done|done|..]; fold c; rewrite ?Hst, ?Hwt; try done.
    - intros x _ Hx. unfold st1. by rewrite core_upd, decide_False.
    - split; [done|]. intros (q & _ & Hq). by destruct (HQ q).
    - naive_solver. }
  destruct (leave_schedule st1 Q S A Hl1 Hag1) as (st' & E & Hwf' & [] & _);
    change (current st1) with c; [rewrite (core_as _ _ Hcc); done|by rewrite Hst..|].
  unfold left_after in Hwf'. change (current st1) with c in Hwf'. rewrite Hst, decide_True in Hwf' by done.
  exists st'. split; [done|]. split; [done|]. by constructor.
Qed.

(** ** Yielding and waking *)

Lemma wf_ready_after st Q S A :
  sched_wf st Q S A → ready_after st Q = if decide (current st = idle st) then Q 0 else Q 0 ++ [current st].
Proof.
  intros [_ _ Hr _ _]. unfold ready_after.
  destruct (decide (current st = idle st)); [by rewrite decide_False by tauto|by rewrite decide_True].
Qed.

(** No wait of the threads [A] is reported as timed out, or no longer is. *)
Definition keeps_timeouts (st st' : sched) (A : list Z) : Prop :=
  ∀ x, x ∈ A → timed_out (thr st' x) = timed_out (thr st x).

Lemma thread_yield_step st Q S A :
  sched_wf st Q S A →
  ∃ st', thread_yield st = Ok st' ∧ sched_wf st' (qset Q 0 (tl (ready_after st Q))) S A ∧
    switched_to st st' (next_thread st Q) ∧ keeps_timeouts st st' A.
Proof.
  intros [Hl Hag Hr Hsl Has]. destruct (schedule_spec st Q S A Hl Hag) as (st' & E & Hwf & Hsw & ? & ? & ? & ? & ?);
    [congruence|done|]. unfold switched_threads, left_after in Hwf, Hsw. rewrite decide_False in Hwf, Hsw by congruence.
  exists st'. split; [done|]. split; [done|]. split; [by constructor|]. intros x Hx. by apply (core_timed_out _ _ (Hsw x Hx)).
Qed.

Lemma wf_after st st' Q Q' S S' A :
  sched_wf st Q S A → links st' Q' S' A → agree st' Q' S' A → fixed st' = fixed st →
  core (thr st' (current st)) = core (thr st (current st)) → sched_wf st' Q' S' A.
Proof.
  intros [_ _ Hr Hsl Has] Hl Hag Hf Hc. pose proof (fixed_fields _ _ Hf) as (Hcu & _ & Hs & _ & _ & _ & Ha).
  constructor; [done|done|rewrite Hcu, (core_state _ _ Hc); done|by rewrite Hs|].
  rewrite Ha, Hcu, (core_as _ _ Hc). done.
Qed.

Lemma waitq_pop_step st Q S A q t l :
  sched_wf st Q S A → q ≠ 0 → Q q = t :: l →
  ∃ st', waitq_pop st q = Ok (t, st') ∧ wakes st st' t (timed_out (thr st t)) ∧
    sched_wf st' (wake_queues Q [t]) (without t S) A.
Proof.
  intros Hwf Hq HQ. pose proof Hwf as [Hl Hag _ _ _]. destruct (wf_current_facts _ _ _ _ Hwf) as (HcQ & _ & _).
  pose proof (waitq_pop_spec st Q S A q Hl Hag Hq) as Hpop. rewrite HQ in Hpop.
  destruct Hpop as (st' & E & [Hf Hc] & Hl' & Hag'). exists st'. split; [done|]. split; [done|].
  assert (∀ q', wake_queues Q [t] q' = qset (qset Q q l) 0 (Q 0 ++ [t]) q') as HQ'.
  { pose proof (links_queues _ _ _ _ Hl) as [_ _ Hnd Hdj _]. intros q'.
    destruct (decide (q' = 0)) as [->|Hq0]; [by rewrite qset_eq|]. rewrite wake_queues_one, qset_ne by done.
    destruct (decide (q' = q)) as [->|Hne].
    - rewrite qset_eq, HQ. apply (without_split t [] l). simpl. rewrite <- HQ. apply Hnd.
    - rewrite qset_ne, without_notin; [done| |done]. intros Hx. apply Hne, (Hdj q' q t); [done|].
      rewrite HQ. apply list_elem_of_here. }
  eapply wf_after; [done|by eapply links_ext|by eapply agree_ext|done|].
  rewrite Hc, decide_False; [done|]. intros Heq. apply (HcQ q). rewrite HQ, Heq. apply list_elem_of_here.
Qed.

(** What waking the threads [due] before their time does to them. *)
Definition signals (st st' : sched) (due : list Z) : Prop :=
  fixed st' = fixed st ∧
  ∀ x, core (thr st' x) = if decide (x ∈ due) then core (woken (timed_out (thr st x)) (thr st x)) else core (thr st x).

Lemma sched_wf_ext st Q Q' S A : (∀ q, Q' q = Q q) → sched_wf st Q S A → sched_wf st Q' S A.
Proof. intros HQ []. constructor; try done; [by eapply links_ext|by eapply agree_ext]. Qed.

Lemma pop_all_spec fuel st Q S A q l :
  sched_wf st Q S A → q ≠ 0 → Q q = l → (length l < fuel)%nat →
  ∃ st', pop_all fuel st q = Ok st' ∧ signals st st' l ∧
    sched_wf st' (wake_queues Q l) (filter (λ x, x ∉ l) S) A.
Proof.
  revert fuel st Q S. induction l as [|t l IH]; intros [|fuel] st Q S Hwf Hq HQ Hf; simpl in Hf; try lia; cbn [pop_all].
  - pose proof (waitq_pop_spec st Q S A q (wf_links _ _ _ _ Hwf) (wf_agree _ _ _ _ Hwf) Hq) as Hpop.
    rewrite HQ in Hpop. rewrite Hpop. cbn [mbind outcome_bind]. exists st. split; [done|]. split.
    { split; [done|]. intros x. by rewrite decide_False by apply not_elem_of_nil. }
    rewrite list_filter_all by (apply Forall_forall; intros x _; apply not_elem_of_nil).
    eapply sched_wf_ext, Hwf. apply wake_queues_nil.
  - destruct (waitq_pop_step st Q S A q t l Hwf Hq HQ) as (st1 & -> & [Hf1 Hc1] & Hwf1). cbn [mbind outcome_bind].
    pose proof (links_queues _ _ _ _ (wf_links _ _ _ _ Hwf)) as [Hlq _ Hnd _ _].
    specialize (Hlq q). rewrite HQ in Hlq. destruct Hlq as (_ & Ht0 & _). rewrite truth_nonzero by done.
    specialize (Hnd q). rewrite HQ in Hnd. pose proof Hnd as [Htl _]%NoDup_cons.
    destruct (IH fuel st1 (wake_queues Q [t]) (without t S) Hwf1 Hq) as (st' & -> & [Hf2 Hc2] & Hwf2); [|lia|].
    { rewrite wake_queues_one, HQ by done. by apply (without_split t [] l). }
    exists st'. split; [done|]. split; [split; [by rewrite Hf2|]|].
    + intros x. rewrite Hc2. specialize (Hc1 x). destruct (decide (x = t)) as [->|Hxt].
      * rewrite decide_False by done. rewrite decide_True by apply list_elem_of_here. done.
      * destruct (decide (x ∈ l)) as [Hx|Hx].
        -- rewrite decide_True by (by apply list_elem_of_further). destruct (thr st1 x), (thr st x).
           injection Hc1 as -> -> -> -> -> -> -> ->. done.
        -- rewrite decide_False by (apply not_elem_of_cons; auto). done.
    + replace (filter (λ x, x ∉ t :: l) S) with (filter (λ x, x ∉ l) (without t S)).
      * eapply sched_wf_ext, Hwf2. apply wake_queues_cons.
      * unfold without. rewrite filter_compose. apply list_filter_iff. intros x. rewrite not_elem_of_cons. tauto.
Qed.

(** Ending in [resched_if_idle]: the idle thread gives way to a ready one. *)
Definition resched_queues (st : sched) (Q : Z → list Z) : Z → list Z :=
  if decide (current st = idle st) then qset Q 0 (tl (Q 0)) else Q.

Lemma resched_if_idle_step st Q S A :
  sched_wf st Q S A →
  ∃ st', resched_if_idle st = Ok st' ∧ sched_wf st' (resched_queues st Q) S A ∧
    keeps_timeouts st st' A ∧
    ((current st = idle st ∧ Q 0 ≠ [] ∧ switched_to st st' (hd (idle st) (Q 0))) ∨
     ((current st ≠ idle st ∨ Q 0 = []) ∧ st' = st)).
Proof.
  intros Hwf. pose proof (wf_ready_after _ _ _ _ Hwf) as HR. pose proof Hwf as [Hl Hag Hr Hsl Has].
  pose proof (l_queue _ _ _ (links_queues _ _ _ _ Hl) 0) as Hq. change (qhead st 0) with (run_head st) in Hq.
  pose proof (all_nonzero _ _ _ (links_all _ _ _ _ Hl) (a_current _ _ _ _ Hag)) as Hc.
  unfold resched_if_idle, resched_queues. rewrite truth_nonzero by done. cbn [andb].
  destruct (Z.eqb_spec (current st) (idle st)) as [Hi|Hi]; cbn [andb].
  - rewrite decide_True in * by done. destruct (Q 0) as [|n l] eqn:HQ; simpl in Hq.
    + rewrite Hq. exists st. split; [done|]. split; [|split; [done|by right; auto]]. eapply sched_wf_ext, Hwf.
      intros q. destruct (decide (q = 0)) as [->|]; [by rewrite qset_eq|by rewrite qset_ne].
    + destruct Hq as (-> & Hn & _). rewrite truth_nonzero by done.
      destruct (thread_yield_step _ _ _ _ Hwf) as (st' & E & Hwf' & Hsw & Hkt). unfold next_thread in Hsw.
      rewrite decide_True in HR by done. rewrite HR in Hwf', Hsw. exists st'. split; [done|]. split; [done|]. split; [done|]. left. by split_and!.
  - rewrite decide_False by done. exists st. split; [done|]. split; [done|]. split; [done|]. right. auto.
Qed.

Lemma waitq_wake_one_step st Q S A q :
  sched_wf st Q S A → q ≠ 0 →
  let t := hd 0 (Q q) in let due := take 1 (Q q) in
  ∃ st1 st', signals st st1 due ∧ sched_wf st1 (wake_queues Q due) (filter (λ x, x ∉ due) S) A ∧
    waitq_wake_one st q = Ok st' ∧ resched_if_idle st1 = Ok st'.
Proof.
  intros Hwf Hq. unfold waitq_wake_one. destruct (Q q) as [|t l] eqn:HQ; simpl.
  - pose proof (waitq_pop_spec st Q S A q (wf_links _ _ _ _ Hwf) (wf_agree _ _ _ _ Hwf) Hq) as Hpop.
    rewrite HQ in Hpop. rewrite Hpop. cbn [mbind outcome_bind].
    destruct (resched_if_idle_step _ _ _ _ Hwf) as (st' & E & _). exists st, st'. split.
    { split; [done|]. intros x. by rewrite decide_False by apply not_elem_of_nil. }
    rewrite list_filter_all by (apply Forall_forall; intros x _; apply not_elem_of_nil).
    split; [|done]. eapply sched_wf_ext, Hwf. apply wake_queues_nil.
  - destruct (waitq_pop_step st Q S A q t l Hwf Hq HQ) as (st1 & -> & [Hf1 Hc1] & Hwf1). cbn [mbind outcome_bind].
    destruct (resched_if_idle_step _ _ _ _ Hwf1) as (st' & E & _). exists st1, st'. split.
    { split; [done|]. intros x. rewrite Hc1. destruct (decide (x = t)) as [->|].
      - by rewrite decide_True by (by apply list_elem_of_singleton).
      - by rewrite decide_False by (by rewrite list_elem_of_singleton). }
    replace (filter (λ x, x ∉ [t]) S) with (without t S); [done|].
    unfold without. apply list_filter_iff. intros x. by rewrite list_elem_of_singleton.
Qed.

Lemma waitq_wake_all_step st Q S A q :
  sched_wf st Q S A → q ≠ 0 →
  ∃ st1 st', signals st st1 (Q q) ∧ sched_wf st1 (wake_queues Q (Q q)) (filter (λ x, x ∉ Q q) S) A ∧
    waitq_wake_all st q = Ok st' ∧ resched_if_idle st1 = Ok st'.
Proof.
  intros Hwf Hq. unfold waitq_wake_all. pose proof (wf_links _ _ _ _ Hwf) as [Ha Hqs _].
  destruct (pop_all_spec (fuel_of st) st Q S A q (Q q) Hwf Hq eq_refl) as (st1 & -> & Hsg & Hwf1).
  { eapply (sublist_fuel st (Q q) A); [apply Ha..|apply (l_nodup _ _ _ Hqs)|intros t; apply (l_in _ _ _ Hqs)]. }
  destruct (resched_if_idle_step _ _ _ _ Hwf1) as (st' & E & _). by exists st1, st'.
Qed.

(** ** The timer *)

Definition due (st : sched) (now : Z) (S : list Z) : list Z := filter (due_by st now) S.
Definition not_due (st : sched) (now : Z) (S : list Z) : list Z := filter (λ x, ¬ due_by st now x) S.

Lemma due_prefix st w S :
  StronglySorted (wakes_before st) S →
  due st w S ++ not_due st w S = S ∧ Forall (due_by st w) (due st w S) ∧
  ∀ x, hd_error (not_due st w S) = Some x → ¬ due_by st w x.
Proof.
  intros Hs. unfold due, not_due. split_and!.
  - induction Hs as [|x l Hs IH Hx]; [done|]. destruct (decide (due_by st w x)) as [Hd|Hd].
    + rewrite filter_cons_True, filter_cons_False by tauto. simpl. by rewrite IH.
    + rewrite list_filter_none, list_filter_all; [done|..]; constructor; auto; eapply Forall_impl; try done;
        intros y; unfold wakes_before, due_by in *; lia.
  - apply Forall_forall. intros x Hx. by apply list_elem_of_filter in Hx as [? _].
  - intros x Hx%hd_error_in. by apply list_elem_of_filter in Hx as [? _].
Qed.

(** The fields a tick counts are no part of the invariant. *)
Lemma wf_count st Q S A n : sched_wf st Q S A → sched_wf (set_idle_ticks st n) Q S A.
Proof.
  intros [[[] [] []] [] ? ? ?]. constructor; [constructor; by constructor|by constructor|done..].
Qed.

Lemma wf_slice_set st Q S A n :
  sched_wf st Q S A → 1 ≤ n ≤ TIME_SLICE_TICKS → sched_wf (set_slice st n) Q S A.
Proof.
  intros [[[] [] []] [] ? ? ?] ?. constructor; [constructor; by constructor|by constructor|done..].
Qed.

(** The wakeups of a tick. *)
Lemma wake_due_step st Q S A now :
  sched_wf st Q S A →
  ∃ st', wake_due (fuel_of st) st now = Ok st' ∧ wakes_all st st' (due st now S) ∧
    sched_wf st' (wake_queues Q (due st now S)) (not_due st now S) A.
Proof.
  intros Hwf. destruct (wf_current_facts _ _ _ _ Hwf) as (_ & HcS & _). pose proof Hwf as [Hl Hag _ _ _].
  pose proof Hl as [Ha _ [_ Hnd Hso Hin]]. destruct (due_prefix st now S Hso) as (HS & Hdue & Hnot).
  rewrite <- HS in Hl, Hag.
  destruct (wake_due_spec (fuel_of st) st Q A _ _ now Hl Hag) as (st' & E & [Hf Hc] & Hl' & Hag'); [|done..|].
  { eapply Nat.le_lt_trans; [|eapply (sublist_fuel st S A); [apply Ha..|done|done]]. apply length_filter. }
  exists st'. split; [done|]. split; [done|]. eapply wf_after; try done.
  rewrite Hc, decide_False; [done|]. intros [_ ?]%list_elem_of_filter. done.
Qed.

(** What a tick decides once the run queue is [R]: who runs, what is left of
    the run queue and of the time slice. *)
Definition tick_choice (st : sched) (R : list Z) : Z * list Z * Z :=
  if decide (current st = idle st) then
    match R with [] => (idle st, [], slice_left st) | n :: R => (n, R, TIME_SLICE_TICKS) end
  else if preemptive st then
    if decide (slice_left st = 1) then (hd 0 (R ++ [current st]), tl (R ++ [current st]), TIME_SLICE_TICKS)
    else (current st, R, slice_left st - 1)
  else (current st, R, slice_left st).

Lemma next_nonempty st Q : ready_after st Q ≠ [] → next_thread st Q = hd 0 (ready_after st Q).
Proof. unfold next_thread. by destruct (ready_after st Q). Qed.

(** The end of a tick. *)
Lemma tick_end st Q S A :
  sched_wf st Q S A →
  ∃ st', (if current st =? idle st then if truth (run_head st) then schedule st else Ok st
          else if preemptive st then
            let st := set_slice st (u32 (slice_left st - 1)) in
            if slice_left st =? 0 then schedule st else Ok st
          else Ok st) = Ok st' ∧
    sched_wf st' (qset Q 0 (tick_choice st (Q 0)).1.2) S A ∧
    (current st', slice_left st') = ((tick_choice st (Q 0)).1.1, (tick_choice st (Q 0)).2) ∧
    idle st' = idle st ∧ preemptive st' = preemptive st ∧ idle_ticks st' = idle_ticks st ∧ keeps_timeouts st st' A.
Proof.
  intros Hwf. pose proof (wf_ready_after _ _ _ _ Hwf) as HR. pose proof Hwf as [Hl Hag Hr Hsl Has].
  assert (∀ q, qset Q 0 (Q 0) q = Q q) as HQ0.
  { intros q. destruct (decide (q = 0)) as [->|]; [by rewrite qset_eq|by rewrite qset_ne]. }
  unfold tick_choice. destruct (Z.eqb_spec (current st) (idle st)) as [Hi|Hi].
  - rewrite decide_True in HR by done. rewrite decide_True by done.
    destruct (resched_if_idle_step _ _ _ _ Hwf) as (st' & E & Hwf' & Hkt & Hcase).
    pose proof (all_nonzero _ _ _ (links_all _ _ _ _ Hl) (a_current _ _ _ _ Hag)) as Hc0.
    unfold resched_if_idle in E. rewrite truth_nonzero, Hi, Z.eqb_refl in E by done. cbn [andb] in E.
    unfold resched_queues in Hwf'. rewrite decide_True in Hwf' by done. exists st'. split; [done|].
    destruct Hcase as [(_ & Hne & [])|([?|He] & ->)]; [|done|].
    + destruct (Q 0) as [|n l]; [done|]. split_and!; try done. simpl in *. congruence.
    + rewrite He in *. split_and!; try done. by rewrite Hi.
  - rewrite decide_False in HR by done. rewrite decide_False by done. destruct (preemptive st) eqn:Hp.
    + cbv zeta. cbn [slice_left set_slice]. change (u32 (slice_left st - 1)) with ((slice_left st - 1) mod 2 ^ 32).
      rewrite Z.mod_small by (change (20 * 100 / 1000) with 2 in Hsl; lia).
      destruct (decide (slice_left st = 1)) as [Hs|Hs].
      * rewrite Hs. change (1 - 1 =? 0) with true. cbv iota.
        destruct (schedule_spec (set_slice st (1 - 1)) Q S A) as (st' & E & Hwf' & Hsw & Hn & ? & ? & ? & ?).
        { destruct Hl as [[] [] []]. constructor; by constructor. }
        { destruct Hag. by constructor. }
        { change (state (thr st (current st)) ≠ THREAD_RUNNABLE). congruence. }
        { done. }
        change (ready_after (set_slice st (1 - 1)) Q) with (ready_after st Q) in Hwf'.
        change (next_thread (set_slice st (1 - 1)) Q) with (next_thread st Q) in Hn.
        change (left_after (set_slice st (1 - 1)) A) with (left_after st A) in Hwf'.
        assert (left_after st A = A) as HA by (unfold left_after; by rewrite decide_False by congruence).
        assert (keeps_timeouts st st' A) as Hkt.
        { intros x Hx. rewrite <- HA in Hx. by apply (core_timed_out _ _ (Hsw x Hx)). }
        rewrite HA, HR in Hwf'. rewrite next_nonempty, HR in Hn by (rewrite HR; by intros []%app_nil).
        exists st'. split; [done|]. split; [done|]. split_and!; try done; simpl in *; congruence.
      * rewrite (proj2 (Z.eqb_neq (slice_left st - 1) 0)) by lia. eexists. split; [done|].
        split; [|done]. apply wf_slice_set; [by eapply sched_wf_ext|]. lia.
    + exists st. split; [done|]. split; [by eapply sched_wf_ext|]. done.
Qed.

(** Which waits a tick reports as timed out. *)
Definition tick_timeouts (st st' : sched) (now : Z) (S A : list Z) : Prop :=
  ∀ x, x ∈ A →
    timed_out (thr st' x) = if decide (x ∈ due st now S) then timer_out (thr st x) else timed_out (thr st x).

Lemma sched_tick_step st Q S A now :
  sched_wf st Q S A →
  let R := Q 0 ++ due st now S in
  ∃ st', sched_tick st now = Ok st' ∧
    sched_wf st' (qset (wake_queues Q (due st now S)) 0 (tick_choice st R).1.2) (not_due st now S) A ∧
    (current st', slice_left st') = ((tick_choice st R).1.1, (tick_choice st R).2) ∧
    idle st' = idle st ∧ preemptive st' = preemptive st ∧
    idle_ticks st' = (if decide (current st = idle st) then u64 (idle_ticks st + 1) else idle_ticks st) ∧
    tick_timeouts st st' now S A.
Proof.
  intros Hwf R. pose proof (all_nonzero _ _ _ (links_all _ _ _ _ (wf_links _ _ _ _ Hwf)) (a_current _ _ _ _ (wf_agree _ _ _ _ Hwf))) as Hc0.
  unfold sched_tick. rewrite (proj2 (Z.eqb_neq (current st) 0)) by done.
  set (st0 := if current st =? idle st then _ else st).
  assert (sched_wf st0 Q S A) as Hwf0 by (unfold st0; case_match; [by apply wf_count|done]).
  assert (due st0 now S = due st now S ∧ not_due st0 now S = not_due st now S ∧ (∀ x, thr st0 x = thr st x)) as (Hd & Hnd & Hthr)
    by (unfold st0; by case_match).
  assert (idle_ticks st0 = if decide (current st = idle st) then u64 (idle_ticks st + 1) else idle_ticks st) as Hit0.
  { unfold st0. destruct (Z.eqb_spec (current st) (idle st)); [by rewrite decide_True|by rewrite decide_False]. }
  destruct (wake_due_step st0 Q S A now Hwf0) as (st1 & E1 & [Hf1 Hc1] & Hwf1). rewrite Hd in Hc1, Hwf1. rewrite Hnd in Hwf1.
  rewrite E1. cbn [mbind outcome_bind].
  destruct (tick_end _ _ _ _ Hwf1) as (st' & E & Hwf' & Hcs & Hid & Hpr & Hit & Hkt).
  pose proof (fixed_fields _ _ Hf1) as (Hcu1 & Hi1 & Hs1 & _ & Hp1 & Ht1 & _).
  assert (current st0 = current st ∧ idle st0 = idle st ∧ slice_left st0 = slice_left st ∧ preemptive st0 = preemptive st)
    as (Hc & Hi & Hs & Hp) by (unfold st0; by destruct (current st =? idle st)).
  assert (∀ L, tick_choice st1 L = tick_choice st L) as Htc by (intros L; unfold tick_choice; by rewrite Hcu1, Hi1, Hs1, Hp1, Hc, Hi, Hs, Hp).
  change (wake_queues Q (due st now S) 0) with R in Hwf', Hcs. rewrite !Htc in *.
  exists st'. split; [done|]. split; [done|]. split_and!; try congruence.
  intros x Hx. rewrite (Hkt x Hx). specialize (Hc1 x). rewrite Hthr in Hc1.
  case_decide; by apply core_timed_out in Hc1.
Qed.
