(* ===== verification/SchedLive.v ===== *)
(** * Runs of the scheduler

    Operations as values, what they require of the caller, and runs of them:
    the invariant holds along every run from [sched_init], and with
    preemption on a ready thread runs after a bounded number of timer ticks,
    whatever the other threads and the interrupts do in between. *)
From Stdlib Require Import Sorting.Sorted.
From S2P Require Import Prelude Sched SchedInv SchedRun.
Local Open Scope Z_scope.

(** ** Operations *)

Inductive sched_op :=
| OpYield
| OpSleepUntil (tick : Z)
| OpExit
| OpWait (q : Z)
| OpWaitUntil (q tick : Z)
| OpWakeOne (q : Z)
| OpWakeAll (q : Z)
| OpTick (now : Z)
| OpCreate (t top a p : Z)
| OpSetSpace (a : Z)
| OpLeaveProcess
| OpPreempt.

Definition run_op (st : sched) (op : sched_op) : outcome sched :=
  match op with
  | OpYield => thread_yield st
  | OpSleepUntil tick => thread_sleep_until st tick
  | OpExit => thread_exit st
  | OpWait q => waitq_sleep st q
  | OpWaitUntil q tick => waitq_sleep_until st q tick
  | OpWakeOne q => waitq_wake_one st q
  | OpWakeAll q => waitq_wake_all st q
  | OpTick now => sched_tick st now
  | OpCreate t top a p => Ok (thread_create_in st t top a p).2
  | OpSetSpace a => Ok (thread_set_address_space st a)
  | OpLeaveProcess => Ok (thread_leave_process st)
  | OpPreempt => Ok (sched_enable_preemption st)
  end.

(** The idle thread only waits for interrupts; wait queues have an address;
    the heap hands out memory that no thread uses. *)
Definition op_ok (st : sched) (op : sched_op) : Prop :=
  match op with
  | OpSleepUntil _ | OpExit => current st ≠ idle st
  | OpWait q | OpWaitUntil q _ => current st ≠ idle st ∧ q ≠ 0
  | OpWakeOne q | OpWakeAll q => q ≠ 0
  | OpCreate t _ _ _ => threads st !! t = None
  | _ => True
  end.

Fixpoint run_ops (st : sched) (ops : list sched_op) : outcome sched :=
  match ops with
  | [] => Ok st
  | op :: ops => run_op st op ≫= λ st, run_ops st ops
  end.

Definition is_tick (op : sched_op) : bool := match op with OpTick _ => true | _ => false end.
Definition ticks (ops : list sched_op) : Z := Z.of_nat (length (filter is_tick ops)).

(** ** Starting and creating *)

Lemma linked_cons nx nx' h l t :
  linked nx h l → t ≠ 0 → nx' t = h → (∀ x, x ∈ l → nx' x = nx x) → linked nx' t (t :: l).
Proof. intros Hl Ht Hn Hx. simpl. split; [done|]. split; [done|]. rewrite Hn. by eapply linked_ext. Qed.

(** A new thread before it is put on the run queue. *)
Definition created (st : sched) (t top a p : Z) : sched := upd (thread_alloc st t top).2 t (with_owner a p).

Lemma created_thr st t top a p x :
  t ≠ 0 → top ≠ 0 →
  thr (created st t top a p) x =
    if decide (x = t)
    then Thread (next_id st) THREAD_RUNNABLE top 0 a p 0 0 0 false (all_threads st) else thr st x.
Proof.
  intros Ht Htop. unfold created, thread_alloc. rewrite (proj2 (Z.eqb_neq t 0)), (proj2 (Z.eqb_neq top 0)) by done.
  unfold all_threads_add, upd, set_all, set_counts, set_threads, thr. cbn. case_decide as Hx.
  - subst x. by rewrite !lookup_alter_eq, lookup_insert_eq.
  - by rewrite !lookup_alter_ne, lookup_insert_ne by done.
Qed.

Lemma created_fields st t top a p :
  t ≠ 0 → top ≠ 0 → let st' := created st t top a p in
  (∀ x, is_Some (threads st' !! x) ↔ x = t ∨ is_Some (threads st !! x)) ∧ all_threads st' = t ∧
  (∀ q, qhead st' q = qhead st q ∧ qtail st' q = qtail st q) ∧ sleepers st' = sleepers st ∧
  (current st' = current st ∧ idle st' = idle st ∧ slice_left st' = slice_left st ∧
   thread_count st' = thread_count st + 1 ∧ preemptive st' = preemptive st ∧ active_as st' = active_as st).
Proof.
  intros Ht Htop. unfold created, thread_alloc. rewrite (proj2 (Z.eqb_neq t 0)), (proj2 (Z.eqb_neq top 0)) by done.
  split_and!; try done. intros x. unfold all_threads_add, upd, set_all, set_counts, set_threads. cbn.
  rewrite !lookup_alter_is_Some, lookup_insert_is_Some. destruct (decide (t = x)); naive_solver.
Qed.

Lemma created_links st Q S A t top a p :
  links st Q S A → t ≠ 0 → top ≠ 0 → threads st !! t = None → links (created st t top a p) Q S (t :: A).
Proof.
  intros [[Hal Hdom Hnd] Hq Hs] Ht Htop Hfr. pose proof (λ x, created_thr st t top a p x Ht Htop) as Hthr.
  destruct (created_fields st t top a p Ht Htop) as (Hd & Hall & Hqq & Hsl & _). cbv zeta in *.
  assert (t ∉ A) as HtA by (rewrite Hdom, Hfr; by intros []).
  assert (∀ x, x ∈ A → x ≠ t) as Hne by (by intros x Hx ->).
  constructor.
  - constructor.
    + rewrite Hall. eapply linked_cons; [done|done| |].
      * unfold anxt. by rewrite Hthr, decide_True.
      * intros x Hx. unfold anxt. by rewrite Hthr, decide_False by auto.
    + intros x. rewrite Hd, elem_of_cons, Hdom. done.
    + by constructor.
  - apply (queues_ok_same st _ _ A); [intros q; apply Hqq..| |done]. intros q x Hx. pose proof (l_in _ _ _ Hq q x Hx) as HxA.
    split; [|by apply list_elem_of_further]. unfold nxt. by rewrite Hthr, decide_False by auto.
  - apply (sleep_ok_same st _ _ A); [done| |done]. intros x Hx. pose proof (l_sleep_in _ _ _ Hs x Hx) as HxA.
    unfold snxt. rewrite Hthr, decide_False by auto. split_and!; [done..|by apply list_elem_of_further].
Qed.

Lemma thread_create_step st Q S A t top a p :
  sched_wf st Q S A → t ≠ 0 → top ≠ 0 → threads st !! t = None →
  ∃ st', thread_create_in st t top a p = (t, st') ∧ sched_wf st' (qset Q 0 (Q 0 ++ [t])) S (t :: A) ∧
    current st' = current st ∧ idle st' = idle st ∧ slice_left st' = slice_left st ∧ preemptive st' = preemptive st.
Proof.
  intros [Hl Hag Hr Hsl Has] Ht Htop Hfr. pose proof Hl as [Ha Hq Hs]. pose proof Hag as [].
  assert (t ∉ A) as HtA by (rewrite (l_dom _ _ Ha), Hfr; by intros []).
  assert (∀ x, x ∈ A → x ≠ t) as Hne by (by intros x Hx ->).
  pose proof (created_links st Q S A t top a p Hl Ht Htop Hfr) as Hl1. pose proof (λ x, created_thr st t top a p x Ht Htop) as Hthr.
  destruct (created_fields st t top a p Ht Htop) as (Hd & _ & Hqq & _ & Hcu & Hid & Hsl1 & Hct & Hpr & Hac).
  assert (∀ q, t ∉ Q q) as HtQ by (intros q Hin; by apply HtA, (l_in _ _ _ Hq q)).
  assert (t ∉ S) as HtS by (intros Hin; by apply HtA, (l_sleep_in _ _ _ Hs)).
  assert (thread_create_in st t top a p = (t, run_enqueue (created st t top a p) t)) as ->.
  { unfold thread_create_in, created, thread_alloc.
    rewrite (proj2 (Z.eqb_neq t 0)), (proj2 (Z.eqb_neq top 0)), truth_nonzero by done. done. }
  set (st1 := created st t top a p) in *. eexists. split; [done|].
  destruct (enqueue_ready st1 Q S (t :: A) t Hl1 (list_elem_of_here _ _) HtQ) as (Hl2 & Hf2 & Hc2).
  set (st2 := run_enqueue st1 t) in *. pose proof (fixed_fields _ _ Hf2) as (Hcu2 & Hid2 & Hsl2 & Hct2 & Hpr2 & _ & Hac2).
  assert (∀ x, x ∈ A → core (thr st2 x) = core (thr st x)) as Hold.
  { intros x Hx. rewrite Hc2, Hthr. by rewrite decide_False by auto. }
  assert (core (thr st2 t) = (next_id st, THREAD_RUNNABLE, top, 0, a, p, 0, false)) as Hnew.
  { rewrite Hc2, Hthr. by rewrite decide_True. }
  injection Hnew as _ Hnst _ _ _ _ Hnw _.
  assert (∀ x, x ∈ A → state (thr st2 x) = state (thr st x) ∧ waiting_on (thr st2 x) = waiting_on (thr st x)) as Hold'.
  { intros x Hx. specialize (Hold x Hx). split; [by apply core_state|by apply core_waiting]. }
  split_and!; try congruence. constructor; [done| |by rewrite Hcu2, Hcu, (core_state _ _ (Hold _ a_current))|congruence
    |rewrite Hac2, Hac, Hcu2, Hcu, (core_as _ _ (Hold _ a_current)); done].
  constructor; rewrite ?Hcu2, ?Hid2, ?Hcu, ?Hid.
  - by apply list_elem_of_further.
  - by apply list_elem_of_further.
  - by rewrite (proj1 (Hold' _ a_idle)).
  - intros x [->|Hx]%elem_of_cons; [congruence|]. rewrite (proj1 (Hold' x Hx)). auto.
  - intros x [->|Hx]%elem_of_cons; [congruence|]. rewrite (proj1 (Hold' x Hx)). auto.
  - intros x Hx. rewrite qset_eq, elem_of_app, list_elem_of_singleton. apply elem_of_cons in Hx as [->|Hx].
    + split; [|by right]. intros _. split; [done|]. intros ->. by apply (Hne (idle st)).
    + rewrite (proj1 (Hold' x Hx)), a_ready by done. pose proof (Hne x Hx). naive_solver.
  - intros x Hx. assert ((∃ q, q ≠ 0 ∧ x ∈ qset Q 0 (Q 0 ++ [t]) q) ↔ ∃ q, q ≠ 0 ∧ x ∈ Q q) as ->.
    { split; intros (q & Hq0 & Hin); exists q; [rewrite qset_ne in Hin by done|rewrite qset_ne by done]; done. }
    apply elem_of_cons in Hx as [->|Hx]; [|by rewrite (proj1 (Hold' x Hx)), a_blocked].
    rewrite Hnst. split; [done|]. intros (q & _ & Hin). by destruct (HtQ q).
  - intros x [->|Hx]%elem_of_cons; [congruence|]. rewrite (proj2 (Hold' x Hx)). intros Hw. rewrite qset_ne by done. auto.
  - intros x [->|Hx]%elem_of_cons; [|by rewrite (proj1 (Hold' x Hx)), (proj2 (Hold' x Hx)), a_sleeping].
    rewrite Hnst, Hnw. naive_solver.
  - rewrite Hct2, Hct, a_count. cbn [length]. lia.
Qed.

Definition initial_threads (main idl top : Z) : gmap Z thread :=
  alter (with_all_next main) idl (<[idl := Thread 1 THREAD_RUNNABLE top 0 0 0 0 0 0 false 0]>
    (alter (with_all_next 0) main (<[main := Thread 0 THREAD_RUNNING 0 0 0 0 0 0 0 false 0]> ∅))).

Lemma sched_init_eq main idl top :
  main ≠ 0 → idl ≠ 0 → top ≠ 0 →
  sched_init main idl top =
    Ok (Sched (initial_threads main idl top) (λ _, Waitq 0 0) main idl 0 0 0 0 idl false 0 TIME_SLICE_TICKS (u32 2) 2 0).
Proof.
  intros Hm Hi Ht. unfold sched_init, thread_alloc.
  rewrite (proj2 (Z.eqb_neq main 0)), (proj2 (Z.eqb_neq idl 0)), (proj2 (Z.eqb_neq top 0)) by done.
  cbv iota. rewrite (proj2 (Z.eqb_neq idl 0)) by done. reflexivity.
Qed.

Lemma sched_init_wf main idl top :
  main ≠ 0 → idl ≠ 0 → top ≠ 0 → main ≠ idl →
  ∃ st, sched_init main idl top = Ok st ∧ sched_wf st (λ _, []) [] [idl; main] ∧
    current st = main ∧ idle st = idl ∧ preemptive st = false.
Proof.
  intros Hm Hi Ht Hne. rewrite sched_init_eq by done. eexists. split; [done|]. set (st := Sched _ _ _ _ _ _ _ _ _ _ _ _ _ _ _).
  assert (∀ x, thr st x = if decide (x = idl) then Thread 1 THREAD_RUNNABLE top 0 0 0 0 0 0 false main
    else if decide (x = main) then Thread 0 THREAD_RUNNING 0 0 0 0 0 0 0 false 0 else null_thread) as Hthr.
  { intros x. unfold thr, st, initial_threads. cbn [threads]. repeat case_decide; subst; try done.
    - by rewrite lookup_alter_eq, lookup_insert_eq.
    - by rewrite lookup_alter_ne, lookup_insert_ne, lookup_alter_eq, lookup_insert_eq by done.
    - by rewrite lookup_alter_ne, lookup_insert_ne, lookup_alter_ne, lookup_insert_ne, lookup_empty by done. }
  assert (∀ x, is_Some (threads st !! x) ↔ x = idl ∨ x = main) as Hdom.
  { intros x. unfold st, initial_threads. cbn [threads].
    rewrite lookup_alter_is_Some, lookup_insert_is_Some, lookup_alter_is_Some, lookup_insert_is_Some.
    assert (¬ is_Some ((∅ : gmap Z thread) !! x)) by (rewrite lookup_empty; by intros []).
    destruct (decide (idl = x)), (decide (main = x)); naive_solver. }
  assert (thr st idl = Thread 1 THREAD_RUNNABLE top 0 0 0 0 0 0 false main) as Hti by (by rewrite Hthr, decide_True).
  assert (thr st main = Thread 0 THREAD_RUNNING 0 0 0 0 0 0 0 false 0) as Htm by (by rewrite Hthr, decide_False, decide_True).
  split; [|done]. constructor; try done; [| |by change (current st) with main; rewrite Htm|by change (current st) with main; rewrite Htm].
  - constructor; constructor.
    + unfold anxt. simpl. rewrite Hti, Htm. simpl. auto.
    + intros x. rewrite Hdom, !elem_of_cons, elem_of_nil. tauto.
    + apply NoDup_ListNoDup. repeat constructor; simpl; naive_solver.
    + intros q. unfold qhead. by destruct (q =? 0).
    + intros q. unfold qtail. by destruct (q =? 0).
    + intros q. constructor.
    + by intros q q' x ?%elem_of_nil.
    + by intros q x ?%elem_of_nil.
    + done.
    + constructor.
    + constructor.
    + by intros x ?%elem_of_nil.
  - assert (∀ x, x ∈ [idl; main] → x = idl ∨ x = main) as HA by (intros x; rewrite !elem_of_cons, elem_of_nil; tauto).
    constructor; change (current st) with main; change (idle st) with idl; try done.
    + rewrite !elem_of_cons. auto.
    + rewrite !elem_of_cons. auto.
    + left. by rewrite Hti.
    + intros x [->| ->]%HA; rewrite ?Hti, ?Htm; done.
    + intros x [->| ->]%HA; rewrite ?Hti, ?Htm; done.
    + intros x [->| ->]%HA; rewrite ?Hti, ?Htm, elem_of_nil; naive_solver.
    + intros x [->| ->]%HA; rewrite ?Hti, ?Htm; (split; [done|]); by intros (q & _ & ?%elem_of_nil).
    + intros x [->| ->]%HA; rewrite ?Hti, ?Htm; done.
    + intros x [->| ->]%HA; rewrite ?Hti, ?Htm, elem_of_nil; naive_solver.
Qed.

(** ** Progress of a ready thread *)

(** How long [t] may still have to wait, in ticks. *)
Definition ahead (st : sched) (Q : Z → list Z) (t m : Z) : Prop :=
  ∃ l1 l2, Q 0 = l1 ++ t :: l2 ∧ m = Z.of_nat (length l1) * TIME_SLICE_TICKS + slice_left st.

Definition progress (st st' : sched) (Q Q' : Z → list Z) (strict : bool) : Prop :=
  ∀ t m, ahead st Q t m → current st' = t ∨ ∃ m', ahead st' Q' t m' ∧ m' ≤ m ∧ (strict = true → m' < m).

Lemma progress_append st st' Q Q' r :
  Q' 0 = Q 0 ++ r → slice_left st' = slice_left st → progress st st' Q Q' false.
Proof.
  intros HQ Hs t m (l1 & l2 & E & ->). right. eexists. split; [exists l1, (l2 ++ r); split; [by rewrite HQ, E, <- app_assoc|done]|].
  rewrite Hs. split; [lia|done].
Qed.

Lemma progress_switch st st' Q Q' r d b :
  1 ≤ slice_left st → Q' 0 = tl (Q 0 ++ r) → current st' = hd d (Q 0 ++ r) → slice_left st' = TIME_SLICE_TICKS →
  progress st st' Q Q' b.
Proof.
  intros Hs HQ Hc Hs' t m (l1 & l2 & E & ->). rewrite E in HQ, Hc. destruct l1 as [|y l1]; simpl in *; [by left|].
  right. eexists. split; [exists l1, (l2 ++ r); split; [by rewrite HQ, <- app_assoc|done]|]. rewrite Hs'. lia.
Qed.

Lemma progress_trans st1 st2 st3 Q1 Q2 Q3 b :
  progress st1 st2 Q1 Q2 false → progress st2 st3 Q2 Q3 b → (∀ t, t ∈ Q1 0 → current st2 ≠ t) →
  progress st1 st3 Q1 Q3 b.
Proof.
  intros H1 H2 Hc t m Ha. destruct (H1 t m Ha) as [Heq|(m1 & Ha1 & Hle & _)].
  { destruct Ha as (l1 & l2 & E & _). destruct (Hc t); [|done]. rewrite E. apply elem_of_app. right. apply list_elem_of_here. }
  destruct (H2 t m1 Ha1) as [|(m2 & Ha2 & Hle2 & Hst)]; [by left|]. right. exists m2.
  split; [done|]. split; [lia|]. intros Hb. specialize (Hst Hb). lia.
Qed.

(** What every operation guarantees. *)
Definition op_result (st : sched) (Q : Z → list Z) (op : sched_op) : Prop :=
  ∃ st' Q' S' A', run_op st op = Ok st' ∧ sched_wf st' Q' S' A' ∧
    idle st' = idle st ∧ (preemptive st = true → preemptive st' = true) ∧
    progress st st' Q Q' (is_tick op && preemptive st).

Lemma op_switched st Q op st' Q' S' A' r d :
  1 ≤ slice_left st → run_op st op = Ok st' → sched_wf st' Q' S' A' → switched_to st st' (hd d (Q 0 ++ r)) →
  Q' 0 = tl (Q 0 ++ r) → op_result st Q op.
Proof.
  intros Hs E Hwf [] HQ. exists st', Q', S', A'. split; [done|]. split; [done|]. split; [done|].
  split; [congruence|]. by eapply progress_switch.
Qed.

(** Operations that add the threads [r] to the run queue and may then wake
    the processor from idling. *)
Lemma op_woken st Q S A op st1 st' Q1 S1 A1 r :
  sched_wf st Q S A → run_op st op = Ok st' → is_tick op = false → resched_if_idle st1 = Ok st' →
  sched_wf st1 Q1 S1 A1 → fixed st1 = fixed st → Q1 0 = Q 0 ++ r → op_result st Q op.
Proof.
  intros Hwf E Ht Er Hwf1 Hf HQ. pose proof (fixed_fields _ _ Hf) as (Hc & Hi & Hs & _ & Hp & _).
  destruct (resched_if_idle_step _ _ _ _ Hwf1) as (st'' & E' & Hwf' & _ & Hcase). rewrite Er in E'. injection E' as <-.
  unfold op_result. rewrite Ht. cbn [andb]. destruct Hcase as [(Hid & Hne & Hsw)|(Hn & ->)].
  - unfold resched_queues in Hwf'. rewrite decide_True in Hwf' by done. rewrite HQ in *. rewrite Hi in Hsw.
    eexists _, _, _, _. split; [done|]. split; [done|]. destruct Hsw. split; [congruence|]. split; [congruence|].
    eapply progress_switch; [apply Hwf|by rewrite qset_eq|done|done].
  - eexists _, Q1, _, _. split; [done|]. split; [|split; [congruence|split; [congruence|by eapply progress_append]]].
    unfold resched_queues in Hwf'. case_decide; [|done]. destruct Hn as [?|Hn]; [done|]. eapply sched_wf_ext, Hwf'.
    intros q. destruct (decide (q = 0)) as [->|]; [by rewrite qset_eq, Hn|by rewrite qset_ne].
Qed.

(** Operations that leave the queues and the slice alone. *)
Lemma op_quiet st Q op st' S A :
  run_op st op = Ok st' → is_tick op = false → sched_wf st' Q S A → idle st' = idle st →
  (preemptive st = true → preemptive st' = true) → slice_left st' = slice_left st → op_result st Q op.
Proof.
  intros E Ht Hwf Hi Hp Hs. exists st', Q, S, A. rewrite Ht. split_and!; try done.
  apply (progress_append _ _ _ _ []); [by rewrite app_nil_r|done].
Qed.

Lemma tick_result st Q S A now : sched_wf st Q S A → op_result st Q (OpTick now).
Proof.
  intros Hwf. destruct (sched_tick_step st Q S A now Hwf) as (st' & E & Hwf' & Hcs & Hi & Hp & _ & _).
  eexists st', _, _, _. split; [done|]. split; [done|]. split; [done|]. split; [congruence|]. cbn [is_tick andb].
  pose proof (wf_slice _ _ _ _ Hwf) as Hsl. injection Hcs as Hc Hs. set (r := due st now S) in *.
  unfold tick_choice in *. destruct (decide (current st = idle st)) as [Hid|Hid].
  - destruct (Q 0 ++ r) as [|n R] eqn:HR; simpl in *.
    + intros t m (l1 & l2 & HQ & _). rewrite HQ in HR. by destruct l1.
    + eapply (progress_switch _ _ _ _ r 0); [lia|by rewrite qset_eq, HR|by rewrite HR|done].
  - destruct (preemptive st); [|apply (progress_append _ _ _ _ r); [by rewrite qset_eq|done]].
    destruct (decide (slice_left st = 1)) as [H1|H1]; simpl in *.
    + eapply (progress_switch _ _ _ _ (r ++ [current st]) 0); [lia| | |done].
      * by rewrite qset_eq, app_assoc.
      * by rewrite app_assoc.
    + intros t m (l1 & l2 & HQ & ->). right. eexists. split.
      * exists l1, (l2 ++ r). split; [by rewrite qset_eq, HQ, <- app_assoc|done].
      * rewrite Hs. lia.
Qed.

Lemma set_as_wf st Q S A a : sched_wf st Q S A → sched_wf (thread_set_address_space st a) Q S A.
Proof.
  intros Hwf. pose proof Hwf as [Hl Hag Hr Hsl Has]. unfold thread_set_address_space.
  pose proof (proj1 (l_dom _ _ (links_all _ _ _ _ Hl) _) (a_current _ _ _ _ Hag)) as Hd.
  set (st1 := upd st (current st) (with_as a)).
  assert (links st1 Q S A) as Hl1 by (apply links_upd; auto).
  assert (∀ x, thr st1 x = if decide (x = current st) then with_as a (thr st x) else thr st x) as Hthr.
  { intros x. unfold st1. rewrite thr_upd by done. by case_decide; subst. }
  assert (∀ x, state (thr st1 x) = state (thr st x) ∧ waiting_on (thr st1 x) = waiting_on (thr st x)) as Hst.
  { intros x. rewrite Hthr. by case_decide. }
  constructor.
  - destruct Hl1 as [[] [] []]. constructor; by constructor.
  - destruct Hag. constructor; cbn [current idle set_current]; try done; change (thr (set_current st1 _ _ _)) with (thr st1);
      try (intros x; rewrite ?(proj1 (Hst _)), ?(proj2 (Hst _)); auto). by rewrite (proj1 (Hst _)).
  - change (state (thr st1 (current st)) = THREAD_RUNNING). by rewrite (proj1 (Hst _)).
  - done.
  - change (a = as_ (thr st1 (current st))). by rewrite Hthr, decide_True.
Qed.

Lemma leave_process_wf st Q S A : sched_wf st Q S A → sched_wf (thread_leave_process st) Q S A.
Proof.
  intros Hwf. pose proof Hwf as [Hl Hag Hr Hsl Has]. unfold thread_leave_process.
  set (f := λ x : thread, with_owner (as_ x) 0 x). set (st1 := upd st (current st) f).
  assert (links st1 Q S A) as Hl1 by (apply links_upd; auto).
  assert (∀ x, state (thr st1 x) = state (thr st x) ∧ waiting_on (thr st1 x) = waiting_on (thr st x) ∧ as_ (thr st1 x) = as_ (thr st x)) as Hst.
  { intros x. split_and!; [by apply (thr_upd_field state)|by apply (thr_upd_field waiting_on)|by apply (thr_upd_field as_)]. }
  constructor; [done| | |done|].
  - destruct Hag. constructor; try done; try (intros x; rewrite ?(proj1 (Hst _)), ?(proj1 (proj2 (Hst _))); auto).
    change (idle st1) with (idle st). by rewrite (proj1 (Hst _)).
  - change (current st1) with (current st). by rewrite (proj1 (Hst _)).
  - change (current st1) with (current st). by rewrite (proj2 (proj2 (Hst _))).
Qed.

Lemma op_step st Q S A op : sched_wf st Q S A → op_ok st op → op_result st Q op.
Proof.
  intros Hwf Hok. pose proof (wf_slice _ _ _ _ Hwf) as [Hsl _]. pose proof (wf_ready_after _ _ _ _ Hwf) as HR.
  destruct op as [|tick| |q|q tick|q|q|now|t top a p|a| |]; simpl in Hok.
  - destruct (thread_yield_step _ _ _ _ Hwf) as (st' & E & Hwf' & Hsw & _). unfold next_thread in Hsw.
    set (r := if decide (current st = idle st) then [] else [current st]).
    assert (ready_after st Q = Q 0 ++ r) as HR' by (rewrite HR; unfold r; case_decide; [by rewrite app_nil_r|done]).
    rewrite HR' in *. eapply op_switched; [done|done|done|done|by rewrite qset_eq].
  - destruct (thread_sleep_until_step _ _ _ _ tick Hwf Hok) as (st' & E & Hwf' & Hsw & _).
    eapply (op_switched _ _ _ _ _ _ _ []); [done|done|done|by rewrite app_nil_r|by rewrite app_nil_r, qset_eq].
  - destruct (thread_exit_step _ _ _ _ Hwf Hok) as (st' & E & Hwf' & Hsw).
    eapply (op_switched _ _ _ _ _ _ _ []); [done|done|done|by rewrite app_nil_r|by rewrite app_nil_r, qset_eq].
  - destruct Hok as [Hid Hq]. destruct (waitq_sleep_step _ _ _ _ q Hwf Hid Hq) as (st' & E & Hwf' & Hsw).
    eapply (op_switched _ _ _ _ _ _ _ []); [done|done|done|by rewrite app_nil_r|by rewrite app_nil_r, qset_eq].
  - destruct Hok as [Hid Hq]. destruct (waitq_sleep_until_step _ _ _ _ q tick Hwf Hid Hq) as (st' & E & Hwf' & Hsw).
    eapply (op_switched _ _ _ _ _ _ _ []); [done|done|done|by rewrite app_nil_r|by rewrite app_nil_r, qset_eq].
  - destruct (waitq_wake_one_step _ _ _ _ q Hwf Hok) as (st1 & st' & [Hf _] & Hwf1 & E & Er). by eapply op_woken.
  - destruct (waitq_wake_all_step _ _ _ _ q Hwf Hok) as (st1 & st' & [Hf _] & Hwf1 & E & Er). by eapply op_woken.
  - by eapply tick_result.
  - destruct (decide (t = 0 ∨ top = 0)) as [Hz|Hnz].
    + assert (thread_create_in st t top a p = (0, st)) as E.
      { unfold thread_create_in, thread_alloc. destruct (Z.eqb_spec t 0), (Z.eqb_spec top 0); try done. tauto. }
      eapply op_quiet; [simpl; by rewrite E|done|done|done|done|done].
    + destruct (thread_create_step st Q S A t top a p Hwf) as (st' & E & Hwf' & Hc & Hi & Hs & Hp); [tauto|tauto|done|].
      eexists st', _, _, _. split; [simpl; by rewrite E|]. split; [done|]. split; [done|]. split; [congruence|].
      by apply (progress_append _ _ _ _ [t]); [rewrite qset_eq|].
  - eapply op_quiet; [done|done|by apply set_as_wf|done|done|done].
  - eapply op_quiet; [done|done|by apply leave_process_wf|done|done|done].
  - eapply op_quiet; [done|done| |done|done|done].
    destruct Hwf as [[[] [] []] [] ? ? ?]. constructor; [constructor; by constructor|by constructor|done..].
Qed.

(** ** Runs *)

(** [ops] one after the other, each called as it may be. *)
Inductive sched_run : sched → list sched_op → sched → Prop :=
| run_none st : sched_run st [] st
| run_more st op st1 ops st2 :
    op_ok st op → run_op st op = Ok st1 → sched_run st1 ops st2 → sched_run st (op :: ops) st2.

Lemma run_wf st ops st' Q S A :
  sched_run st ops st' → sched_wf st Q S A → ∃ Q' S' A', sched_wf st' Q' S' A'.
Proof.
  intros Hrun. revert Q S A. induction Hrun as [|st op st1 ops st2 Hok E Hrun IH]; intros Q S A Hwf; [eauto|].
  destruct (op_step _ _ _ _ _ Hwf Hok) as (st1' & Q' & S' & A' & E' & Hwf' & _). rewrite E in E'. injection E' as <-.
  by eapply IH.
Qed.

Lemma ahead_positive st Q S A t m : sched_wf st Q S A → ahead st Q t m → 1 ≤ m.
Proof. intros [_ _ _ Hs _] (l1 & l2 & _ & ->). change TIME_SLICE_TICKS with 2 in *. lia. Qed.

Lemma ahead_runs st ops st' Q S A t m :
  sched_run st ops st' → sched_wf st Q S A → preemptive st = true → ahead st Q t m → m ≤ ticks ops →
  ∃ ops1 ops2 st1, ops = ops1 ++ ops2 ∧ sched_run st ops1 st1 ∧ current st1 = t.
Proof.
  intros Hrun. revert Q S A m. induction Hrun as [st|st op st1 ops st2 Hok E Hrun IH]; intros Q S A m Hwf Hp Ha Hm.
  { pose proof (ahead_positive _ _ _ _ _ _ Hwf Ha). unfold ticks in Hm. simpl in Hm. lia. }
  destruct (op_step _ _ _ _ _ Hwf Hok) as (st1' & Q' & S' & A' & E' & Hwf' & _ & Hp' & Hpr).
  rewrite E in E'. injection E' as <-. specialize (Hp' Hp). destruct (Hpr t m Ha) as [Hc|(m' & Ha' & Hle & Hlt)].
  { exists [op], ops, st1. split; [done|]. split; [|done]. eapply run_more; [done|done|constructor]. }
  destruct (IH Q' S' A' m' Hwf' Hp' Ha') as (ops1 & ops2 & st3 & -> & Hrun1 & Hc).
  { rewrite Hp, andb_true_r in Hlt. unfold ticks in *. destruct (is_tick op) eqn:Et.
    - specialize (Hlt eq_refl). rewrite filter_cons_True in Hm by (by rewrite Et). simpl in Hm. lia.
    - rewrite filter_cons_False in Hm by (rewrite Et; intros []). lia. }
  exists (op :: ops1), ops2, st3. split; [done|]. split; [by eapply run_more|done].
Qed.

(** ** Theorems *)

(** C9: along every run of scheduler operations from [sched_init], every
    queue is a proper list, exactly the ready threads are on the run queue,
    every blocked thread is on one wait queue and every sleeper in wake
    order, only the current thread is running and its address space is the
    active one, its time slice is between one tick and the full slice, and
    no operation panics, follows a stray pointer or fails to end. *)
Theorem sched_run_invariant main idl top st0 ops st :
  main ≠ 0 → idl ≠ 0 → top ≠ 0 → main ≠ idl → sched_init main idl top = Ok st0 → sched_run st0 ops st →
  (∃ Q S A, sched_wf st Q S A) ∧ ∀ op, op_ok st op → ∃ st', run_op st op = Ok st'.
Proof.
  intros Hm Hi Ht Hne E Hrun. destruct (sched_init_wf main idl top Hm Hi Ht Hne) as (st0' & E' & Hwf & _).
  rewrite E in E'. injection E' as <-. destruct (run_wf _ _ _ _ _ _ Hrun Hwf) as (Q & S & A & Hwf').
  split; [eauto|]. intros op Hok. destruct (op_step _ _ _ _ _ Hwf' Hok) as (st' & ? & ? & ? & ? & _). eauto.
Qed.

(** C10: no starvation: with preemption on, a thread on the run queue runs
    before one full time slice per thread on the queue has passed in timer
    ticks, whatever operations happen between the ticks. *)
Theorem ready_thread_runs st Q S A t ops st' :
  sched_wf st Q S A → preemptive st = true → t ∈ Q 0 → sched_run st ops st' →
  TIME_SLICE_TICKS * Z.of_nat (length (Q 0)) ≤ ticks ops →
  ∃ ops1 ops2 st1, ops = ops1 ++ ops2 ∧ sched_run st ops1 st1 ∧ current st1 = t.
Proof.
  intros Hwf Hp Ht Hrun Hticks. apply list_elem_of_split in Ht as (l1 & l2 & HQ).
  eapply (ahead_runs _ _ _ _ _ _ _ _ Hrun Hwf Hp); [by exists l1, l2|].
  rewrite HQ, length_app in Hticks. cbn [length] in Hticks. pose proof (wf_slice _ _ _ _ Hwf).
  change TIME_SLICE_TICKS with 2 in *. lia.
Qed.

(** a timer tick moves exactly the sleepers that are due, in the order
    they wake, to the end of the run queue and off the wait queues they were
    on; it reports a timed wait that ran out as such and no other; then the
    idle thread gives way to the first ready thread, a thread whose slice
    is used up goes behind all ready ones, and any other keeps running with
    one tick less. *)
Theorem sched_tick_spec st Q S A now :
  sched_wf st Q S A →
  let woken := filter (due_by st now) S in
  ∃ st' Q', sched_tick st now = Ok st' ∧
    sched_wf st' Q' (filter (λ x, ¬ due_by st now x) S) A ∧
    (current st', Q' 0, slice_left st') = tick_choice st (Q 0 ++ woken) ∧
    (∀ q, q ≠ 0 → Q' q = filter (λ x, x ∉ woken) (Q q)) ∧
    (∀ x, x ∈ A → timed_out (thr st' x) =
      if decide (x ∈ woken ∧ waiting_on (thr st x) ≠ 0) then true else timed_out (thr st x)).
Proof.
  intros Hwf. destruct (sched_tick_step st Q S A now Hwf) as (st' & E & Hwf' & Hcs & _ & _ & _ & Hto).
  eexists st', _. split; [done|]. split; [done|]. split; [|split].
  - rewrite qset_eq. fold (due st now S). injection Hcs as -> ->. by destruct (tick_choice _ _) as [[? ?] ?].
  - intros q Hq. rewrite qset_ne by done. unfold wake_queues. by rewrite decide_False.
  - intros x Hx. rewrite (Hto x Hx). fold (due st now S). unfold timer_out, truth.
    destruct (decide (x ∈ due st now S)), (Z.eqb_spec (waiting_on (thr st x)) 0); simpl;
      first [rewrite decide_True by tauto|rewrite decide_False by tauto]; done.
Qed.

(** wait queues are first in, first out and lose nobody: a thread that
    waits goes to the end of its queue, [waitq_wake_one] makes the thread
    that has waited longest ready and [waitq_wake_all] all of them, in the
    order they came. *)
Theorem waitq_fifo st Q S A q :
  sched_wf st Q S A → q ≠ 0 →
  (current st ≠ idle st → ∃ st' Q', waitq_sleep st q = Ok st' ∧ sched_wf st' Q' S A ∧ Q' q = Q q ++ [current st]) ∧
  (∃ st' Q' S', waitq_wake_one st q = Ok st' ∧ sched_wf st' Q' S' A ∧ Q' q = tl (Q q) ∧
     Q' 0 = (if decide (current st = idle st) then tl (Q 0 ++ take 1 (Q q)) else Q 0 ++ take 1 (Q q)) ∧
     current st' = if decide (current st = idle st) then hd (idle st) (Q 0 ++ take 1 (Q q)) else current st) ∧
  (∃ st' Q' S', waitq_wake_all st q = Ok st' ∧ sched_wf st' Q' S' A ∧ Q' q = [] ∧
     Q' 0 = (if decide (current st = idle st) then tl (Q 0 ++ Q q) else Q 0 ++ Q q) ∧
     current st' = if decide (current st = idle st) then hd (idle st) (Q 0 ++ Q q) else current st).
Proof.
  intros Hwf Hq. pose proof (l_nodup _ _ _ (links_queues _ _ _ _ (wf_links _ _ _ _ Hwf)) q) as Hnd.
  assert (∀ st1 st' Q1 S1 r, fixed st1 = fixed st → sched_wf st1 Q1 S1 A → Q1 0 = Q 0 ++ r → resched_if_idle st1 = Ok st' →
    ∃ Q', sched_wf st' Q' S1 A ∧ Q' q = Q1 q ∧
     Q' 0 = (if decide (current st = idle st) then tl (Q 0 ++ r) else Q 0 ++ r) ∧
     current st' = if decide (current st = idle st) then hd (idle st) (Q 0 ++ r) else current st) as Hend.
  { intros st1 st' Q1 S1 r Hf Hwf1 HQ1 E. pose proof (fixed_fields _ _ Hf) as (Hc & Hi & _).
    destruct (resched_if_idle_step _ _ _ _ Hwf1) as (st2 & E' & Hwf2 & _ & Hcase). rewrite E in E'. injection E' as <-.
    eexists. split; [done|]. unfold resched_queues. rewrite Hc, Hi in *. destruct (decide (current st = idle st)) as [Hid|Hid].
    - rewrite qset_ne, qset_eq, HQ1 by done. split; [done|]. split; [done|]. rewrite HQ1 in Hcase.
      destruct Hcase as [(_ & _ & [])|([?|He] & ->)]; [done|done|]. by rewrite He, Hc.
    - split; [done|]. split; [done|]. destruct Hcase as [(? & _)|(_ & ->)]; done. }
  split; [|split].
  - intros Hid. destruct (waitq_sleep_step _ _ _ _ q Hwf Hid Hq) as (st' & E & Hwf' & _).
    eexists st', _. split; [done|]. split; [done|]. by rewrite qset_ne, qset_eq by done.
  - destruct (waitq_wake_one_step _ _ _ _ q Hwf Hq) as (st1 & st' & [Hf _] & Hwf1 & E & Er).
    destruct (Hend st1 st' _ _ _ Hf Hwf1 eq_refl Er) as (Q' & Hwf' & HQq & HQ0 & Hc). exists st', Q'. eexists.
    split; [done|]. split; [done|]. split; [|done]. rewrite HQq. destruct (Q q) as [|t l] eqn:E'; simpl.
    + rewrite wake_queues_nil. done.
    + rewrite wake_queues_one, E' by done. by apply (without_split t [] l).
  - destruct (waitq_wake_all_step _ _ _ _ q Hwf Hq) as (st1 & st' & [Hf _] & Hwf1 & E & Er).
    destruct (Hend st1 st' _ _ _ Hf Hwf1 eq_refl Er) as (Q' & Hwf' & HQq & HQ0 & Hc). exists st', Q'. eexists.
    split; [done|]. split; [done|]. split; [|done]. rewrite HQq. unfold wake_queues. rewrite decide_False by done.
    apply list_filter_none, Forall_forall. intros x Hx Hn. done.
Qed.

(** ** Examples *)

(** A thread that is ready, next to the main and the idle thread, with
    preemption on. *)
Lemma example_ready :
  ∃ st0 st Q, sched_init 0x100 0x200 0x1000 = Ok st0 ∧
    sched_run st0 [OpPreempt; OpCreate 0x300 0x3000 7 0] st ∧
    sched_wf st Q [] [0x300; 0x200; 0x100] ∧ Q 0 = [0x300] ∧ preemptive st = true ∧ current st = 0x100 ∧ idle st = 0x200.
Proof.
  destruct (sched_init_wf 0x100 0x200 0x1000) as (st0 & E & Hwf & Hc & Hi & _); try done.
  assert (threads st0 !! 0x300 = None) as Hfr.
  { apply eq_None_not_Some. intros Hs. apply (l_dom _ _ (links_all _ _ _ _ (wf_links _ _ _ _ Hwf))) in Hs.
    rewrite !elem_of_cons, elem_of_nil in Hs. lia. }
  assert (sched_wf (sched_enable_preemption st0) (λ _, []) [] [0x200; 0x100]) as Hwf1.
  { destruct Hwf as [[[] [] []] [] ? ? ?]. constructor; [constructor; by constructor|by constructor|done..]. }
  destruct (thread_create_step _ _ _ _ 0x300 0x3000 7 0 Hwf1) as (st & E2 & Hwf2 & Hc2 & Hi2 & _ & Hp2); try done.
  exists st0, st. eexists. split; [done|]. split; [|split; [done|split; [done|]]].
  - eapply run_more; [done|done|]. eapply run_more; [done| |constructor].
    change (Ok (thread_create_in (sched_enable_preemption st0) 0x300 0x3000 7 0).2 = Ok st). by rewrite E2.
  - split; [by rewrite Hp2|]. by rewrite Hc2, Hi2.
Qed.

Lemma sched_run_invariant_witness :
  ∃ st0 st, sched_init 0x100 0x200 0x1000 = Ok st0 ∧ sched_run st0 [OpPreempt; OpCreate 0x300 0x3000 7 0] st ∧
    (∃ Q S A, sched_wf st Q S A) ∧ ∀ op, op_ok st op → ∃ st', run_op st op = Ok st'.
Proof.
  destruct example_ready as (st0 & st & Q & E & Hrun & _). exists st0, st. split; [exact E|]. split; [exact Hrun|].
  by apply (sched_run_invariant 0x100 0x200 0x1000 st0 [OpPreempt; OpCreate 0x300 0x3000 7 0] st).
Defined.

Lemma ready_thread_runs_witness :
  ∃ st ops st', sched_run st ops st' ∧ TIME_SLICE_TICKS ≤ ticks ops ∧ current st ≠ 0x300 ∧
    ∃ ops1 ops2 st1, ops = ops1 ++ ops2 ∧ sched_run st ops1 st1 ∧ current st1 = 0x300.
Proof.
  destruct example_ready as (st0 & st & Q & _ & _ & Hwf & HQ & Hp & Hc & _).
  destruct (op_step _ _ _ _ (OpTick 1) Hwf I) as (st1 & Q1 & S1 & A1 & E1 & Hwf1 & _).
  destruct (op_step _ _ _ _ (OpTick 2) Hwf1 I) as (st2 & Q2 & S2 & A2 & E2 & _).
  assert (sched_run st [OpTick 1; OpTick 2] st2) as Hrun.
  { eapply run_more; [done|exact E1|]. eapply run_more; [done|exact E2|constructor]. }
  exists st, [OpTick 1; OpTick 2], st2. split; [exact Hrun|]. split; [done|]. split; [by rewrite Hc|].
  apply (ready_thread_runs st Q [] [0x300; 0x200; 0x100] 0x300 [OpTick 1; OpTick 2] st2 Hwf Hp); [|exact Hrun|by rewrite HQ].
  rewrite HQ. apply list_elem_of_here.
Defined.

Lemma sched_tick_spec_witness :
  ∃ st Q S A st' Q', sched_wf st Q S A ∧ S = [0x100] ∧ sched_tick st 9 = Ok st' ∧ current st = 0x300 ∧
    sched_wf st' Q' [] A ∧ current st' = 0x300 ∧ Q' 0 = [0x100].
Proof.
  destruct example_ready as (st0 & st & Q & _ & _ & Hwf & HQ & Hp & Hc & Hi).
  destruct (thread_sleep_until_step _ _ _ _ 5 Hwf) as (st1 & E1 & Hwf1 & [Hc1 Hi1 Hs1 Hp1 _] & Hwt); [by rewrite Hc, Hi|].
  rewrite Hc in Hwf1. rewrite HQ, Hi in *. simpl in *.
  assert (due_by st1 9 0x100) as Hdue.
  { unfold due_by. rewrite Hc in Hwt. by rewrite Hwt. }
  destruct (sched_tick_spec st1 _ _ _ 9 Hwf1) as (st' & Q' & E & Hwf' & Hcs & _).
  assert (filter (due_by st1 9) (sleep_put st 5 0x100 []) = [0x100]) as Hf.
  { unfold sleep_put. rewrite !filter_nil. cbn [app]. by rewrite filter_cons_True, filter_nil. }
  assert (filter (λ x, ¬ due_by st1 9 x) (sleep_put st 5 0x100 []) = []) as Hf'.
  { unfold sleep_put. rewrite !filter_nil. cbn [app]. by rewrite filter_cons_False, filter_nil by tauto. }
  exists st1, (qset Q 0 []), (sleep_put st 5 0x100 []), [0x300; 0x200; 0x100], st', Q'.
  rewrite Hf, qset_eq in Hcs. rewrite Hf' in Hwf'. unfold tick_choice in Hcs.
  rewrite Hc1, Hi1, Hs1, Hp1, Hp in Hcs. rewrite !decide_False in Hcs by done. injection Hcs as ? ? ?.
  split_and!; done.
Defined.

Lemma waitq_fifo_witness :
  ∃ st Q S A, sched_wf st Q S A ∧ current st ≠ idle st ∧
    ∃ st' Q', waitq_sleep st 0x40 = Ok st' ∧ sched_wf st' Q' S A ∧ Q' 0x40 = Q 0x40 ++ [current st].
Proof.
  destruct example_ready as (st0 & st & Q & _ & _ & Hwf & HQ & Hp & Hc & Hi).
  exists st, Q, [], [0x300; 0x200; 0x100]. split; [exact Hwf|].
  assert (current st ≠ idle st) as Hid by (by rewrite Hc, Hi). split; [exact Hid|].
  destruct (waitq_fifo st Q [] [0x300; 0x200; 0x100] 0x40 Hwf) as (H & _); [done|]. exact (H Hid).
Defined.
