(* ===== verification/Cpu.v ===== *)
(** * The dosrun processor ([userland/dosrun/cpu.c], [cpu.h])

    The real-mode interpreter, instruction by instruction. Registers, segment
    registers and memory are functions from indices; every store truncates to
    the width of the C object it goes to. The callbacks of the struct (ports
    and the acknowledge of interrupts) are arguments, and [port_context] is
    the state they keep. A register operand has no segment and no offset:
    the code leaves those fields uninitialised, and [junk] stands for what
    the memory happens to hold.

    [cpu_step] runs one instruction. Loops that the code bounds by a register
    carry that bound as fuel. *)
From S2P Require Import Prelude.
Local Open Scope Z_scope.

(** ** Constants *)

Abbreviation MEM_SIZE := 0x100000%Z (only parsing).

Abbreviation AX := 0%Z (only parsing).
Abbreviation CX := 1%Z (only parsing).
Abbreviation DX := 2%Z (only parsing).
Abbreviation BX := 3%Z (only parsing).
Abbreviation SP := 4%Z (only parsing).
Abbreviation BP := 5%Z (only parsing).
Abbreviation SI := 6%Z (only parsing).
Abbreviation DI := 7%Z (only parsing).

Abbreviation FLAG_CF := 0x0001%Z (only parsing).
Abbreviation FLAG_PF := 0x0004%Z (only parsing).
Abbreviation FLAG_AF := 0x0010%Z (only parsing).
Abbreviation FLAG_ZF := 0x0040%Z (only parsing).
Abbreviation FLAG_SF := 0x0080%Z (only parsing).
Abbreviation FLAG_TF := 0x0100%Z (only parsing).
Abbreviation FLAG_IF := 0x0200%Z (only parsing).
Abbreviation FLAG_DF := 0x0400%Z (only parsing).
Abbreviation FLAG_OF := 0x0800%Z (only parsing).

Inductive cpu_stop := CPU_OK | CPU_HALT | CPU_INT | CPU_IRET | CPU_FAULT | CPU_GUEST | CPU_EXIT.

#[export] Instance cpu_stop_eq_dec : EqDecision cpu_stop.
Proof. solve_decision. Defined.

(** [switch] on an opcode: whether it is one of the labels. *)
Definition among (op : Z) (labels : list Z) : bool := existsb (Z.eqb op) labels.
Definition within (op lo hi : Z) : bool := (lo <=? op) && (op <=? hi).

Definition update (f : Z → Z) (i v : Z) : Z → Z := λ x, if x =? i then v else f x.

(** ** State *)

(** The register files as functions: [r] and [r_hi] have eight registers and
    [sreg] four, and the code indexes them with constants or with three and
    two bits of an instruction. *)
Record cpu (D : Type) := Cpu {
  r : Z → Z;
  r_hi : Z → Z;
  sreg : Z → Z;
  ip : Z;
  flags : Z;
  flags_hi : Z;
  mem : Z → Z;
  int_no : Z;
  fault_opcode : Z;
  exit_code : Z;
  insns : Z;
  irq_pending : Z;
  irq_shadow : Z;
  port_context : D
}.
Arguments Cpu {D}.
Arguments r {D}. Arguments r_hi {D}. Arguments sreg {D}. Arguments ip {D}. Arguments flags {D}.
Arguments flags_hi {D}. Arguments mem {D}. Arguments int_no {D}. Arguments fault_opcode {D}.
Arguments exit_code {D}. Arguments insns {D}. Arguments irq_pending {D}. Arguments irq_shadow {D}.
Arguments port_context {D}.

(** The operations of the arithmetic unit. *)
Abbreviation ADD := 0%Z (only parsing).
Abbreviation OR := 1%Z (only parsing).
Abbreviation ADC := 2%Z (only parsing).
Abbreviation SBB := 3%Z (only parsing).
Abbreviation AND := 4%Z (only parsing).
Abbreviation SUB := 5%Z (only parsing).
Abbreviation XOR := 6%Z (only parsing).
Abbreviation CMP := 7%Z (only parsing).

Section cpu.
Context {D : Type}.
Implicit Types c : cpu D.

Definition set_r c (i v : Z) : cpu D :=
  Cpu (update (r c) i (u16 v)) (r_hi c) (sreg c) (ip c) (flags c) (flags_hi c) (mem c) (int_no c)
    (fault_opcode c) (exit_code c) (insns c) (irq_pending c) (irq_shadow c) (port_context c).
Definition set_r_hi c (i v : Z) : cpu D :=
  Cpu (r c) (update (r_hi c) i (u16 v)) (sreg c) (ip c) (flags c) (flags_hi c) (mem c) (int_no c)
    (fault_opcode c) (exit_code c) (insns c) (irq_pending c) (irq_shadow c) (port_context c).
Definition set_sreg c (i v : Z) : cpu D :=
  Cpu (r c) (r_hi c) (update (sreg c) i (u16 v)) (ip c) (flags c) (flags_hi c) (mem c) (int_no c)
    (fault_opcode c) (exit_code c) (insns c) (irq_pending c) (irq_shadow c) (port_context c).
Definition set_ip c (v : Z) : cpu D :=
  Cpu (r c) (r_hi c) (sreg c) (u16 v) (flags c) (flags_hi c) (mem c) (int_no c)
    (fault_opcode c) (exit_code c) (insns c) (irq_pending c) (irq_shadow c) (port_context c).
Definition set_flags c (v : Z) : cpu D :=
  Cpu (r c) (r_hi c) (sreg c) (ip c) (u16 v) (flags_hi c) (mem c) (int_no c)
    (fault_opcode c) (exit_code c) (insns c) (irq_pending c) (irq_shadow c) (port_context c).
Definition set_flags_hi c (v : Z) : cpu D :=
  Cpu (r c) (r_hi c) (sreg c) (ip c) (flags c) (u16 v) (mem c) (int_no c)
    (fault_opcode c) (exit_code c) (insns c) (irq_pending c) (irq_shadow c) (port_context c).
Definition set_mem c (i v : Z) : cpu D :=
  Cpu (r c) (r_hi c) (sreg c) (ip c) (flags c) (flags_hi c) (update (mem c) i (u8 v)) (int_no c)
    (fault_opcode c) (exit_code c) (insns c) (irq_pending c) (irq_shadow c) (port_context c).
Definition set_int_no c (v : Z) : cpu D :=
  Cpu (r c) (r_hi c) (sreg c) (ip c) (flags c) (flags_hi c) (mem c) (u8 v)
    (fault_opcode c) (exit_code c) (insns c) (irq_pending c) (irq_shadow c) (port_context c).
Definition set_fault_opcode c (v : Z) : cpu D :=
  Cpu (r c) (r_hi c) (sreg c) (ip c) (flags c) (flags_hi c) (mem c) (int_no c)
    (u8 v) (exit_code c) (insns c) (irq_pending c) (irq_shadow c) (port_context c).
Definition set_insns c (v : Z) : cpu D :=
  Cpu (r c) (r_hi c) (sreg c) (ip c) (flags c) (flags_hi c) (mem c) (int_no c)
    (fault_opcode c) (exit_code c) (u32 v) (irq_pending c) (irq_shadow c) (port_context c).
Definition set_irq_pending c (v : Z) : cpu D :=
  Cpu (r c) (r_hi c) (sreg c) (ip c) (flags c) (flags_hi c) (mem c) (int_no c)
    (fault_opcode c) (exit_code c) (insns c) (u16 v) (irq_shadow c) (port_context c).
Definition set_irq_shadow c (v : Z) : cpu D :=
  Cpu (r c) (r_hi c) (sreg c) (ip c) (flags c) (flags_hi c) (mem c) (int_no c)
    (fault_opcode c) (exit_code c) (insns c) (irq_pending c) (u8 v) (port_context c).

Definition cpu_reg32 c (reg : Z) : Z := Z.lor (r c reg) (Z.shiftl (r_hi c reg) 16).
Definition cpu_put_reg32 c (reg value : Z) : cpu D :=
  set_r_hi (set_r c reg value) reg (Z.shiftr (u32 value) 16).

(** ** Memory and the stack *)

Definition mem_r8 c (addr : Z) : Z := mem c (Z.land addr (MEM_SIZE - 1)).

Definition mem_r16 c (addr : Z) : Z :=
  let addr := Z.land addr (MEM_SIZE - 1) in
  let lo := mem c addr in
  let hi := mem c (Z.land (addr + 1) (MEM_SIZE - 1)) in
  u16 (Z.lor lo (Z.shiftl hi 8)).

Definition mem_w8 c (addr v : Z) : cpu D := set_mem c (Z.land addr (MEM_SIZE - 1)) v.

Definition mem_w16 c (addr v : Z) : cpu D :=
  let addr := Z.land addr (MEM_SIZE - 1) in
  let c := set_mem c addr v in
  set_mem c (Z.land (addr + 1) (MEM_SIZE - 1)) (Z.shiftr (u16 v) 8).

(** Arguments are converted to [uint16_t] at the call. *)
Definition lin (seg off : Z) : Z := Z.shiftl (u16 seg) 4 + u16 off.

Definition rd8 c (seg off : Z) : Z := mem_r8 c (lin seg off).
Definition rd16 c (seg off : Z) : Z := mem_r16 c (lin seg off).
Definition wr8 c (seg off v : Z) : cpu D := mem_w8 c (lin seg off) v.
Definition wr16 c (seg off v : Z) : cpu D := mem_w16 c (lin seg off) v.

Definition push16 c (v : Z) : cpu D :=
  let c := set_r c SP (r c SP - 2) in
  wr16 c (sreg c 2) (r c SP) v.

Definition pop16 c : Z * cpu D :=
  let v := rd16 c (sreg c 2) (r c SP) in
  (v, set_r c SP (r c SP + 2)).

(** [cpu_init] once [calloc] succeeded, for the callbacks' state [d]. *)
Definition cpu_init (d : D) : cpu D :=
  Cpu (λ _, 0) (λ _, 0) (λ i, if i =? 1 then 0xFFFF else 0) 0 0x0002 0 (λ _, 0) 0 0 0 0 0 0 d.

(** [rd8(c, c->sreg[1], c->ip++)] *)
Definition fetch8 c : Z * cpu D := (rd8 c (sreg c 1) (ip c), set_ip c (ip c + 1)).
(** [rd16(c, c->sreg[1], c->ip); c->ip += 2] *)
Definition fetch16 c : Z * cpu D := (rd16 c (sreg c 1) (ip c), set_ip c (ip c + 2)).

(** ** Flags *)

Definition parity (v : Z) : Z :=
  let v := Z.lxor v (Z.shiftr v 4) in
  let v := Z.lxor v (Z.shiftr v 2) in
  let v := Z.lxor v (Z.shiftr v 1) in
  if truth (Z.land v 1) then 0 else FLAG_PF.

Definition cpu_set_flags c (value bits : Z) : cpu D :=
  let mask := if bits =? 8 then 0xFF else if bits =? 16 then 0xFFFF else 0xFFFFFFFF in
  let sign := if bits =? 8 then 0x80 else if bits =? 16 then 0x8000 else 0x80000000 in
  let value := Z.land (u32 value) mask in
  let c := set_flags c (Z.land (flags c) (Z.lnot (Z.lor FLAG_SF (Z.lor FLAG_ZF FLAG_PF)))) in
  let c := if value =? 0 then set_flags c (Z.lor (flags c) FLAG_ZF) else c in
  let c := if truth (Z.land value sign) then set_flags c (Z.lor (flags c) FLAG_SF) else c in
  set_flags c (Z.lor (flags c) (parity (u8 value))).

Definition set_flag c (flag : Z) (on : bool) : cpu D :=
  if on then set_flags c (Z.lor (flags c) flag) else set_flags c (Z.land (flags c) (Z.lnot flag)).
Definition set_cf c (on : bool) : cpu D := set_flag c FLAG_CF on.
Definition set_of c (on : bool) : cpu D := set_flag c FLAG_OF on.
Definition set_af c (on : bool) : cpu D := set_flag c FLAG_AF on.

(** [(c->flags & flag) != 0] *)
Definition flag c (f : Z) : bool := truth (Z.land (flags c) f).

(** ** Operands *)

Record operand := Operand { is_reg : bool; reg : Z; seg : Z; off : Z }.

Definition default_seg c (rm : Z) : Z :=
  if (rm =? 2) || (rm =? 3) || (rm =? 6) then sreg c 2 else sreg c 3.

(** What an uninitialised [uint16_t] holds. *)
Variable junk : Z.

(** The operand, the reg field and the state after the bytes read. *)
Definition decode_rm c : operand * Z * cpu D :=
  let '(m, c) := fetch8 c in
  let mod_ := Z.shiftr m 6 in
  let rr := Z.land (Z.shiftr m 3) 7 in
  let rm := Z.land m 7 in
  if mod_ =? 3 then (Operand true rm junk junk, rr, c)
  else
    let s := default_seg c rm in
    let base := u16 (if rm =? 0 then r c BX + r c SI
                     else if rm =? 1 then r c BX + r c DI
                     else if rm =? 2 then r c BP + r c SI
                     else if rm =? 3 then r c BP + r c DI
                     else if rm =? 4 then r c SI
                     else if rm =? 5 then r c DI
                     else if rm =? 6 then r c BP
                     else r c BX) in
    if (mod_ =? 0) && (rm =? 6) then
      let '(d, c) := fetch16 c in (Operand false 0 (sreg c 3) d, rr, c)
    else if mod_ =? 1 then
      let '(d, c) := fetch8 c in (Operand false 0 s (u16 (base + signed 8 d)), rr, c)
    else if mod_ =? 2 then
      let '(d, c) := fetch16 c in (Operand false 0 s (u16 (base + d)), rr, c)
    else (Operand false 0 s base, rr, c).

(** [if (override >= 0) rm.seg = override] *)
Definition with_override (rm : operand) (override : Z) : operand :=
  if 0 <=? override then Operand (is_reg rm) (reg rm) (u16 override) (off rm) else rm.

(** [decode_rm] and the override after it. *)
Definition decode_over c (override : Z) : operand * Z * cpu D :=
  let '(rm, rr, c) := decode_rm c in (with_override rm override, rr, c).

Definition get16 c (op : operand) : Z := if is_reg op then r c (reg op) else rd16 c (seg op) (off op).
Definition put16 c (op : operand) (v : Z) : cpu D :=
  if is_reg op then set_r c (reg op) v else wr16 c (seg op) (off op) v.

Definition get8 c (n : Z) : Z :=
  let v := r c (Z.land n 3) in
  if truth (Z.land n 4) then u8 (Z.shiftr v 8) else u8 v.
Definition put8 c (n v : Z) : cpu D :=
  let old := r c (Z.land n 3) in
  if truth (Z.land n 4)
  then set_r c (Z.land n 3) (Z.lor (Z.land old 0x00FF) (Z.shiftl (u8 v) 8))
  else set_r c (Z.land n 3) (Z.lor (Z.land old 0xFF00) (u8 v)).

Definition get8_rm c (op : operand) : Z := if is_reg op then get8 c (reg op) else rd8 c (seg op) (off op).
Definition put8_rm c (op : operand) (v : Z) : cpu D :=
  if is_reg op then put8 c (reg op) v else wr8 c (seg op) (off op) v.

(** The operand moved to the word of a bit string, unless that lies outside
    the segment. *)
Definition bit_address (rm : operand) (index bits : Z) : option operand :=
  if is_reg rm then Some rm
  else
    let words := Z.quot index bits in
    let words := if (index <? 0) && truth (Z.rem index bits) then words - 1 else words in
    let o := off rm + words * Z.quot bits 8 in
    if (o <? 0) || (o >? 0x10000 - Z.quot bits 8) then None
    else Some (Operand (is_reg rm) (reg rm) (seg rm) (u16 o)).

(** ** Arithmetic *)

(** The flags that the cases of [alu16] and [alu8] set. *)
Definition alu_flags c (cf of_ af : bool) : cpu D := set_af (set_of (set_cf c cf) of_) af.

Definition alu16 c (op a b : Z) : Z * cpu D :=
  let cf := b2z (flag c FLAG_CF) in
  let af (x : Z) := truth (Z.land (Z.lxor (Z.lxor a b) x) 0x10) in
  let of_add (x : Z) := truth (Z.land (Z.land (Z.lxor a x) (Z.lxor b x)) 0x8000) in
  let of_sub (x : Z) := truth (Z.land (Z.land (Z.lxor a b) (Z.lxor a x)) 0x8000) in
  let '(x, c) :=
    if op =? ADD then let x := u32 (a + b) in (x, alu_flags c (x >? 0xFFFF) (of_add x) (af x))
    else if op =? OR then (Z.lor a b, alu_flags c false false false)
    else if op =? ADC then let x := u32 (a + b + cf) in (x, alu_flags c (x >? 0xFFFF) (of_add x) (af x))
    else if op =? SBB then let x := u32 (a - b - cf) in (x, alu_flags c (a - b - cf <? 0) (of_sub x) (af x))
    else if op =? AND then (Z.land a b, alu_flags c false false false)
    else if (op =? SUB) || (op =? CMP) then let x := u32 (a - b) in (x, alu_flags c (a - b <? 0) (of_sub x) (af x))
    else (Z.lxor a b, alu_flags c false false false) in
  (u16 x, cpu_set_flags c x 16).

Definition alu8 c (op a b : Z) : Z * cpu D :=
  let cf := b2z (flag c FLAG_CF) in
  let af (x : Z) := truth (Z.land (Z.lxor (Z.lxor a b) x) 0x10) in
  let of_add (x : Z) := truth (Z.land (Z.land (Z.lxor a x) (Z.lxor b x)) 0x80) in
  let of_sub (x : Z) := truth (Z.land (Z.land (Z.lxor a b) (Z.lxor a x)) 0x80) in
  let '(x, c) :=
    if op =? ADD then let x := u32 (a + b) in (x, alu_flags c (x >? 0xFF) (of_add x) (af x))
    else if op =? OR then (Z.lor a b, alu_flags c false false false)
    else if op =? ADC then let x := u32 (a + b + cf) in (x, alu_flags c (x >? 0xFF) (of_add x) (af x))
    else if op =? SBB then let x := u32 (a - b - cf) in (x, alu_flags c (a - b - cf <? 0) (of_sub x) (af x))
    else if op =? AND then (Z.land a b, alu_flags c false false false)
    else if (op =? SUB) || (op =? CMP) then let x := u32 (a - b) in (x, alu_flags c (a - b <? 0) (of_sub x) (af x))
    else (Z.lxor a b, alu_flags c false false false) in
  (u8 x, cpu_set_flags c x 8).

Definition alu32 c (op a b : Z) : Z * cpu D :=
  let carry := b2z (flag c FLAG_CF) in
  let af (x : Z) := truth (Z.land (Z.lxor (Z.lxor a b) x) 0x10) in
  let '(x, c) :=
    if (op =? ADD) || (op =? ADC) then
      let wide := u64 (a + b + (if op =? ADC then carry else 0)) in
      let x := u32 wide in
      (x, alu_flags c (wide >? 0xFFFFFFFF)
            (truth (Z.land (Z.land (not32 (Z.lxor a b)) (Z.lxor a x)) 0x80000000)) (af x))
    else if (op =? SUB) || (op =? SBB) || (op =? CMP) then
      let wide := u64 (b + (if op =? SBB then carry else 0)) in
      let x := u32 (a - u32 wide) in
      (x, alu_flags c (a <? wide) (truth (Z.land (Z.land (Z.lxor a b) (Z.lxor a x)) 0x80000000)) (af x))
    else (if op =? AND then Z.land a b else if op =? OR then Z.lor a b else Z.lxor a b,
          alu_flags c false false false) in
  (x, cpu_set_flags c x 32).

(** ** Shifts *)

(** One round of the loop of [shift]. *)
Definition shift_once c (op x mask sign bits : Z) : Z * cpu D :=
  let cf := flag c FLAG_CF in
  let low := truth (Z.land x 1) in
  let high := truth (Z.land x sign) in
  if op =? 0 then (Z.land (Z.lor (u32 (Z.shiftl x 1)) (Z.shiftr x (bits - 1))) mask, set_cf c high)
  else if op =? 1 then (Z.lor (Z.shiftr x 1) (if low then sign else 0), set_cf c low)
  else if op =? 2 then (Z.land (Z.lor (u32 (Z.shiftl x 1)) (b2z cf)) mask, set_cf c high)
  else if op =? 3 then (Z.lor (Z.shiftr x 1) (if cf then sign else 0), set_cf c low)
  else if op =? 4 then (Z.land (u32 (Z.shiftl x 1)) mask, set_cf c high)
  else if op =? 5 then (Z.shiftr x 1, set_cf c low)
  else if op =? 7 then (Z.lor (Z.shiftr x 1) (Z.land x sign), set_cf c low)
  else (x, c).

Fixpoint shift_steps (n : nat) c (op x mask sign bits : Z) : Z * cpu D :=
  match n with
  | O => (x, c)
  | S n => let '(x, c) := shift_once c op x mask sign bits in shift_steps n c op x mask sign bits
  end.

Definition shift c (op v count bits : Z) : Z * cpu D :=
  let mask := if bits =? 32 then 0xFFFFFFFF else Z.shiftl 1 bits - 1 in
  let sign := Z.shiftl 1 (bits - 1) in
  let x := Z.land v mask in
  let count := Z.land count 31 in
  let steps := if ((op =? 2) || (op =? 3)) && (bits <? 32) then count mod (bits + 1) else count in
  if steps =? 0 then (x, c)
  else
    let '(x, c) := shift_steps (Z.to_nat steps) c op x mask sign bits in
    let c := if 4 <=? op then cpu_set_flags c x bits else c in
    let c :=
      if count =? 1 then
        if (op =? 0) || (op =? 2) || (op =? 4) then
          set_of c (xorb (truth (Z.land x sign)) (flag c FLAG_CF))
        else if (op =? 1) || (op =? 3) then
          set_of c (xorb (truth (Z.land x sign)) (truth (Z.land x (Z.shiftr sign 1))))
        else set_of c ((op =? 5) && truth (Z.land v sign))
      else c in
    (x, c).

Fixpoint double_steps (n : nat) c (value source mask sign : Z) (right : bool) : Z * cpu D :=
  match n with
  | O => (value, c)
  | S n =>
      if right then
        let c := set_cf c (truth (Z.land value 1)) in
        double_steps n c (Z.lor (Z.shiftr value 1) (if truth (Z.land source 1) then sign else 0))
          (Z.shiftr source 1) mask sign right
      else
        let c := set_cf c (truth (Z.land value sign)) in
        double_steps n c (Z.land (Z.lor (u32 (Z.shiftl value 1)) (b2z (truth (Z.land source sign)))) mask)
          (Z.land (u32 (Z.shiftl source 1)) mask) mask sign right
  end.

Definition double_shift c (value source count bits : Z) (right : bool) : Z * cpu D :=
  let count := Z.land count 31 in
  if count =? 0 then (value, c)
  else
    let mask := if bits =? 32 then 0xFFFFFFFF else 0xFFFF in
    let sign := Z.shiftl 1 (bits - 1) in
    let original := value in
    let '(value, c) := double_steps (Z.to_nat count) c value source mask sign right in
    let c := cpu_set_flags c value bits in
    let c := if count =? 1 then set_of c (truth (Z.land (Z.lxor original value) sign)) else c in
    (value, c).

(** ** Interrupts *)

(** The new CS and IP, and the state with the frame pushed. *)
Definition cpu_enter_interrupt c (vector : Z) : Z * Z * cpu D :=
  let c := push16 c (flags c) in
  let c := push16 c (sreg c 1) in
  let c := push16 c (ip c) in
  let c := set_flags c (Z.land (flags c) (Z.lnot (Z.lor FLAG_IF FLAG_TF))) in
  let o := rd16 c 0 (vector * 4) in
  let s := rd16 c 0 (vector * 4 + 2) in
  (s, o, c).

(** Entering it: the callers store the new CS and IP. *)
Definition take_interrupt c (vector : Z) : cpu D :=
  let '(s, o, c) := cpu_enter_interrupt c vector in set_ip (set_sreg c 1 s) o.

(** ** String instructions *)

(** One element: [sub] selects the instruction, [w] is its size in bytes,
    [df] the direction and [source] the segment of SI. *)
Definition string_once c (sub w df source : Z) : cpu D :=
  let next c i := set_r c i (r c i + df * w) in
  if sub =? 0xA4 then
    let c := if w =? 2 then wr16 c (sreg c 0) (r c DI) (rd16 c source (r c SI))
             else wr8 c (sreg c 0) (r c DI) (rd8 c source (r c SI)) in
    next (next c SI) DI
  else if sub =? 0xA6 then
    let a := if w =? 2 then rd16 c source (r c SI) else rd8 c source (r c SI) in
    let b := if w =? 2 then rd16 c (sreg c 0) (r c DI) else rd8 c (sreg c 0) (r c DI) in
    let c := if w =? 2 then (alu16 c CMP a b).2 else (alu8 c CMP (u8 a) (u8 b)).2 in
    next (next c SI) DI
  else if sub =? 0xAA then
    let c := if w =? 2 then wr16 c (sreg c 0) (r c DI) (r c AX)
             else wr8 c (sreg c 0) (r c DI) (get8 c 0) in
    next c DI
  else if sub =? 0xAC then
    let c := if w =? 2 then set_r c AX (rd16 c source (r c SI)) else put8 c 0 (rd8 c source (r c SI)) in
    next c SI
  else if sub =? 0xAE then
    let a := if w =? 2 then r c AX else get8 c 0 in
    let b := if w =? 2 then rd16 c (sreg c 0) (r c DI) else rd8 c (sreg c 0) (r c DI) in
    let c := if w =? 2 then (alu16 c CMP a b).2 else (alu8 c CMP (u8 a) (u8 b)).2 in
    next c DI
  else c.

(** The repeated rounds, [n] of them being fuel. *)
Fixpoint string_loop (n : nat) c (sub w df source rep : Z) : outcome (cpu D) :=
  match n with
  | O => NoFuel
  | S n =>
      let c := string_once c sub w df source in
      if rep =? 0 then Ok c
      else
        let k := u16 (r c CX - 1) in
        let c := set_r c CX k in
        if (sub =? 0xA6) || (sub =? 0xAE) then
          if (k =? 0) || negb (Bool.eqb (flag c FLAG_ZF) (rep =? 0xF3)) then Ok c
          else string_loop n c sub w df source rep
        else if k =? 0 then Ok c
        else string_loop n c sub w df source rep
  end.

Definition do_string c (op rep source : Z) : outcome (cpu D) :=
  let df := if flag c FLAG_DF then -1 else 1 in
  let w := if truth (Z.land op 1) then 2 else 1 in
  let sub := Z.land op 0xFE in
  if truth rep && negb (truth (r c CX)) then Ok c
  else string_loop (S (Z.to_nat (r c CX))) c sub w df source rep.

(** ** Conditions *)

Definition cond c (cc : Z) : bool :=
  let cf := flag c FLAG_CF in
  let zf := flag c FLAG_ZF in
  let sf := flag c FLAG_SF in
  let of_ := flag c FLAG_OF in
  let pf := flag c FLAG_PF in
  if cc =? 0x0 then of_
  else if cc =? 0x1 then negb of_
  else if cc =? 0x2 then cf
  else if cc =? 0x3 then negb cf
  else if cc =? 0x4 then zf
  else if cc =? 0x5 then negb zf
  else if cc =? 0x6 then cf || zf
  else if cc =? 0x7 then negb cf && negb zf
  else if cc =? 0x8 then sf
  else if cc =? 0x9 then negb sf
  else if cc =? 0xA then pf
  else if cc =? 0xB then negb pf
  else if cc =? 0xC then xorb sf of_
  else if cc =? 0xD then Bool.eqb sf of_
  else if cc =? 0xE then zf || xorb sf of_
  else negb zf && Bool.eqb sf of_.

(** ** The two-byte instructions *)

(** [while (!((v >> i) & 1)) i++] *)
Fixpoint lowest_bit (n : nat) (v i : Z) : outcome Z :=
  match n with
  | O => NoFuel
  | S n => if truth (Z.land (Z.shiftr v i) 1) then Ok i else lowest_bit n v (i + 1)
  end.

(** [for (i = 15; !((v >> i) & 1); i--)] *)
Fixpoint highest_bit (n : nat) (v i : Z) : outcome Z :=
  match n with
  | O => NoFuel
  | S n => if truth (Z.land (Z.shiftr v i) 1) then Ok i else highest_bit n v (i - 1)
  end.

(** BT, BTS, BTR and BTC on words. *)
Definition op_bit c (op override : Z) : cpu_stop * cpu D :=
  let '(rm, rg, c) := decode_over c override in
  if (op =? 0xBA) && (rg <? 4) then (CPU_FAULT, c)
  else
    let '(index, c) :=
      if op =? 0xBA then let '(i, c) := fetch8 c in (Z.land i 15, c) else (signed 16 (r c rg), c) in
    match bit_address rm index 16 with
    | None => (CPU_FAULT, c)
    | Some rm =>
        let v := get16 c rm in
        let bit := u16 (Z.shiftl 1 (Z.land index 15)) in
        let operation := if op =? 0xBA then rg - 4 else Z.land (Z.shiftr op 3) 3 in
        let c := set_cf c (truth (Z.land v bit)) in
        (CPU_OK,
         if truth operation then
           put16 c rm (if operation =? 1 then Z.lor v bit
                       else if operation =? 2 then Z.land v (Z.lnot bit) else Z.lxor v bit)
         else c)
    end.

(** BSF and BSR. *)
Definition op_scan c (op override : Z) : outcome (cpu_stop * cpu D) :=
  let '(rm, rg, c) := decode_over c override in
  let v := get16 c rm in
  if v =? 0 then Ok (CPU_OK, set_flags c (Z.lor (flags c) FLAG_ZF))
  else
    let c := set_flags c (Z.land (flags c) (Z.lnot FLAG_ZF)) in
    (if op =? 0xBC then lowest_bit 16 v 0 else highest_bit 16 v 15) ≫= λ i,
    Ok (CPU_OK, set_r c rg i).

(** CMPXCHG and XADD. *)
Definition op_cmpxchg c (op override : Z) : cpu_stop * cpu D :=
  let '(rm, rg, c) := decode_over c override in
  if op =? 0xB1 then
    let v := get16 c rm in
    let a := r c AX in
    let c := (alu16 c CMP a v).2 in
    (CPU_OK, if a =? v then put16 c rm (r c rg) else set_r c AX v)
  else
    let v := get8_rm c rm in
    let a := get8 c 0 in
    let c := (alu8 c CMP a v).2 in
    (CPU_OK, if a =? v then put8_rm c rm (get8 c rg) else put8 c 0 v).

Definition op_xadd c (op override : Z) : cpu_stop * cpu D :=
  let '(rm, rg, c) := decode_over c override in
  if op =? 0xC1 then
    let v := get16 c rm in
    let '(x, c) := alu16 c ADD v (r c rg) in
    let c := set_r c rg v in
    (CPU_OK, put16 c rm x)
  else
    let v := get8_rm c rm in
    let '(x, c) := alu8 c ADD v (get8 c rg) in
    let c := put8 c rg v in
    (CPU_OK, put8_rm c rm x).

Definition op_cpuid c : cpu D :=
  let leaf := cpu_reg32 c AX in
  let c := cpu_put_reg32 c AX (if leaf =? 0 then 1 else if leaf =? 1 then 0x400 else 0) in
  let c := cpu_put_reg32 c BX (if leaf =? 0 then 0x756E6547 else 0) in
  let c := cpu_put_reg32 c DX (if leaf =? 0 then 0x49656E69 else 0) in
  cpu_put_reg32 c CX (if leaf =? 0 then 0x6C65746E else 0).

Definition op_0f c (override : Z) : outcome (cpu_stop * cpu D) :=
  let '(op, c) := fetch8 c in
  let c := set_fault_opcode c op in
  if among op [0x00; 0x01; 0x02; 0x03; 0x06] then Ok (CPU_FAULT, c)
  else if among op [0x08; 0x09] then Ok (CPU_OK, c)
  else if among op [0x0B; 0x20; 0x21; 0x22; 0x23; 0x30] then Ok (CPU_FAULT, c)
  else if op =? 0x31 then Ok (CPU_OK, cpu_put_reg32 (cpu_put_reg32 c AX (insns c)) DX 0)
  else if within op 0x40 0x4F then
    let '(rm, rg, c) := decode_over c override in
    let v := get16 c rm in
    Ok (CPU_OK, if cond c (Z.land op 0x0F) then set_r c rg v else c)
  else if within op 0x80 0x8F then
    let '(d, c) := fetch16 c in
    Ok (CPU_OK, if cond c (Z.land op 0x0F) then set_ip c (ip c + signed 16 d) else c)
  else if within op 0x90 0x9F then
    let '(rm, _, c) := decode_over c override in
    Ok (CPU_OK, put8_rm c rm (b2z (cond c (Z.land op 0x0F))))
  else if among op [0xA0; 0xA1] then Ok (CPU_FAULT, c)
  else if op =? 0xA2 then Ok (CPU_OK, op_cpuid c)
  else if among op [0xA3; 0xAB; 0xB3; 0xBB; 0xBA] then Ok (op_bit c op override)
  else if among op [0xA4; 0xA5; 0xAC; 0xAD] then
    let '(rm, rg, c) := decode_over c override in
    let '(count, c) := if truth (Z.land op 1) then (r c CX, c) else fetch8 c in
    let '(x, c) := double_shift c (get16 c rm) (r c rg) count 16 (truth (Z.land op 8)) in
    Ok (CPU_OK, put16 c rm x)
  else if among op [0xA8; 0xA9] then Ok (CPU_FAULT, c)
  else if op =? 0xAF then
    let '(rm, rg, c) := decode_over c override in
    let x := signed 16 (r c rg) * signed 16 (get16 c rm) in
    let c := set_r c rg x in
    Ok (CPU_OK, set_of (set_cf c (negb (x =? signed 16 x))) (negb (x =? signed 16 x)))
  else if among op [0xB0; 0xB1] then Ok (op_cmpxchg c op override)
  else if among op [0xB6; 0xB7] then
    let '(rm, rg, c) := decode_over c override in
    Ok (CPU_OK, set_r c rg (if op =? 0xB7 then get16 c rm else get8_rm c rm))
  else if among op [0xBC; 0xBD] then op_scan c op override
  else if among op [0xBE; 0xBF] then
    let '(rm, rg, c) := decode_over c override in
    Ok (CPU_OK, set_r c rg (if op =? 0xBF then get16 c rm else signed 8 (get8_rm c rm)))
  else if among op [0xC0; 0xC1] then Ok (op_xadd c op override)
  else if within op 0xC8 0xCF then
    let rg := Z.land op 7 in
    let v := r c rg in
    Ok (CPU_OK, set_r c rg (Z.lor (Z.shiftr v 8) (Z.shiftl v 8)))
  else Ok (CPU_FAULT, c).

(** ** 32-bit operands *)

Definition read32 c (s o : Z) : Z :=
  Z.lor (mem_r16 c (lin s o)) (Z.shiftl (mem_r16 c (lin s o + 2)) 16).
Definition write32 c (s o v : Z) : cpu D :=
  mem_w16 (mem_w16 c (lin s o) (u16 v)) (lin s o + 2) (u16 (Z.shiftr v 16)).

Definition get32 c (o : operand) : Z := if is_reg o then cpu_reg32 c (reg o) else read32 c (seg o) (off o).
Definition put32 c (o : operand) (v : Z) : cpu D :=
  if is_reg o then cpu_put_reg32 c (reg o) v else write32 c (seg o) (off o) v.

(** The rounds of [string32], the fuel being one more than CX. *)
Fixpoint string32_loop (n : nat) c (op rep override delta : Z) : outcome (cpu_stop * cpu D) :=
  match n with
  | O => NoFuel
  | S n =>
      if among op [0xA5; 0xAD] && (r c SI >? 0xFFFC) then Ok (CPU_FAULT, c)
      else if among op [0xA5; 0xAB] && (r c DI >? 0xFFFC) then Ok (CPU_FAULT, c)
      else
        let value := if op =? 0xAB then cpu_reg32 c AX
                     else read32 c (if 0 <=? override then override else sreg c 3) (r c SI) in
        let c := if op =? 0xAD then cpu_put_reg32 c AX value else write32 c (sreg c 0) (r c DI) value in
        let c := if negb (op =? 0xAB) then set_r c SI (r c SI + delta) else c in
        let c := if negb (op =? 0xAD) then set_r c DI (r c DI + delta) else c in
        let c := if truth rep then set_r c CX (r c CX - 1) else c in
        if truth rep && truth (r c CX) then string32_loop n c op rep override delta else Ok (CPU_OK, c)
  end.

Definition string32 c (op rep override : Z) : outcome (cpu_stop * cpu D) :=
  if truth rep && negb (truth (r c CX)) then Ok (CPU_OK, c)
  else string32_loop (S (Z.to_nat (r c CX))) c op rep override (if flag c FLAG_DF then -4 else 4).

Definition divide_error c (start : Z) : cpu_stop * cpu D :=
  (CPU_INT, take_interrupt (set_int_no (set_ip c start) 0) 0).

(** The loop of [divide32] from bit [i - 1] down: the quotient and the
    remainder. *)
Fixpoint divide_bits (i : nat) (low divisor remainder quotient : Z) : Z * Z :=
  match i with
  | O => (quotient, remainder)
  | S i =>
      let remainder := u64 (Z.lor (Z.shiftl remainder 1) (Z.land (Z.shiftr low (Z.of_nat i)) 1)) in
      if divisor <=? remainder
      then divide_bits i low divisor (remainder - divisor) (Z.lor quotient (Z.shiftl 1 (Z.of_nat i)))
      else divide_bits i low divisor remainder quotient
  end.

Definition divide32 c (divisor : Z) (is_signed : bool) (start : Z) : cpu_stop * cpu D :=
  let dividend := Z.lor (Z.shiftl (cpu_reg32 c DX) 32) (cpu_reg32 c AX) in
  let negative := is_signed && truth (Z.shiftr dividend 63) in
  let neg_divisor := is_signed && truth (Z.land divisor 0x80000000) in
  let dividend := if negative then u64 (u64 (Z.lnot dividend) + 1) else dividend in
  let divisor := if neg_divisor then u32 (0 - divisor) else divisor in
  let remainder := Z.shiftr dividend 32 in
  let low := u32 dividend in
  if (divisor =? 0) || (divisor <=? remainder) then divide_error c start
  else
    let '(quotient, remainder) := divide_bits 32 low divisor remainder 0 in
    let neg_quotient := xorb negative neg_divisor in
    if is_signed && (quotient >? (if neg_quotient then 0x80000000 else 0x7FFFFFFF)) then divide_error c start
    else
      let c := cpu_put_reg32 c AX (if neg_quotient then u32 (0 - quotient) else quotient) in
      (CPU_OK, cpu_put_reg32 c DX (if negative then u32 (0 - u32 remainder) else u32 remainder)).

(** *** [op32]: what a form reads before anything is changed *)

(** The opcode after 0F (or -1), whether a ModR/M byte follows, the size of
    the immediate, or [None] for a form that faults. *)
Definition op32_form c (op : Z) : option (Z * bool * Z) * cpu D :=
  let alu := (op <? 0x40) && among (Z.land op 7) [1; 3; 5] in
  if alu then (Some (-1, negb (Z.land op 7 =? 5), if Z.land op 7 =? 5 then 4 else 0), c)
  else if within op 0xB8 0xBF then (Some (-1, false, 4), c)
  else if within op 0x40 0x5F then (Some (-1, false, 0), c)
  else if within op 0x90 0x99 then (Some (-1, false, 0), c)
  else if among op [0x9C; 0x9D] then (Some (-1, false, 0), c)
  else if op =? 0x68 then (Some (-1, false, 4), c)
  else if op =? 0x69 then (Some (-1, true, 4), c)
  else if op =? 0x6B then (Some (-1, true, 1), c)
  else if op =? 0x6A then (Some (-1, false, 1), c)
  else if op =? 0x81 then (Some (-1, true, 4), c)
  else if op =? 0x83 then (Some (-1, true, 1), c)
  else if among op [0x85; 0x87; 0x89; 0x8B; 0x8D; 0x8F; 0xF7; 0xFF] then (Some (-1, true, 0), c)
  else if among op [0xA1; 0xA3] then (Some (-1, false, 2), c)
  else if op =? 0xA9 then (Some (-1, false, 4), c)
  else if op =? 0xC7 then (Some (-1, true, 4), c)
  else if op =? 0xC1 then (Some (-1, true, 1), c)
  else if among op [0xD1; 0xD3] then (Some (-1, true, 0), c)
  else if op =? 0x0F then
    let '(ext, c) := fetch8 c in
    (if among ext [0xB6; 0xB7; 0xBE; 0xBF; 0xAF] then Some (ext, true, 0)
     else if among ext [0xA3; 0xAB; 0xB3; 0xBB; 0xBA] then Some (ext, true, b2z (ext =? 0xBA))
     else if among ext [0xA4; 0xA5; 0xAC; 0xAD] then Some (ext, true, if truth (Z.land ext 1) then 0 else 1)
     else if negb (ext =? 0xA2) && ((ext <? 0xC8) || (ext >? 0xCF)) then None
     else Some (ext, false, 0), c)
  else (None, c).

(** The operand, the reg field and the size of the immediate, checked. *)
Definition op32_operand c (op ext immediate override : Z) : option (operand * Z * Z) * cpu D :=
  let '(rm, rg, c) := decode_over c override in
  if among op [0xC1; 0xD1; 0xD3] && (rg =? 6) then (None, c)
  else if (op =? 0xC7) && negb (rg =? 0) then (None, c)
  else if (op =? 0x8F) && negb (rg =? 0) then (None, c)
  else if (op =? 0x8D) && is_reg rm then (None, c)
  else if (op =? 0xFF) && negb (rg =? 0) && negb (rg =? 1) && negb (rg =? 6) then (None, c)
  else if (ext =? 0xBA) && (rg <? 4) then (None, c)
  else
    match (if among ext [0xA3; 0xAB; 0xB3; 0xBB] then bit_address rm (signed 32 (cpu_reg32 c rg)) 32
           else Some rm) with
    | None => (None, c)
    | Some rm =>
        if (op =? 0xF7) && (rg =? 1) then (None, c)
        else
          let immediate := if (op =? 0xF7) && (rg =? 0) then 4 else immediate in
          let width := if among ext [0xB6; 0xBE] then 1 else if among ext [0xB7; 0xBF] then 2 else 4 in
          if negb (is_reg rm) && negb (op =? 0x8D) && (off rm + width >? 0x10000) then (None, c)
          else (Some (rm, rg, immediate), c)
    end.

(** *** [op32]: execution *)

(** Group F7: TEST, NOT, NEG, MUL, IMUL, DIV, IDIV. *)
Definition op32_group3 c (rm : operand) (rg b start : Z) : cpu_stop * cpu D :=
  let a := get32 c rm in
  if rg =? 0 then (CPU_OK, (alu32 c AND a b).2)
  else if (rg =? 2) || (rg =? 3) then
    let '(x, c) := if rg =? 2 then (not32 a, c) else alu32 c SUB 0 a in
    (CPU_OK, put32 c rm x)
  else if 6 <=? rg then divide32 c a (rg =? 7) start
  else
    let product := if rg =? 4 then u64 (cpu_reg32 c AX * a)
                   else u64 (signed 32 (cpu_reg32 c AX) * signed 32 a) in
    let c := cpu_put_reg32 c AX (u32 product) in
    let c := cpu_put_reg32 c DX (u32 (Z.shiftr product 32)) in
    let overflow := if rg =? 4 then truth (Z.shiftr product 32)
                    else negb (signed 64 product =? signed 32 product) in
    (CPU_OK, set_of (set_cf c overflow) overflow).

(** The 0F forms. *)
Definition op32_0f c (ext : Z) (rm : operand) (rg b override : Z) : outcome (cpu_stop * cpu D) :=
  if ext =? 0xA2 then op_0f (set_ip c (ip c - 1)) override
  else if among ext [0xA3; 0xAB; 0xB3; 0xBB; 0xBA] then
    let bit := u32 (Z.shiftl 1 (Z.land (if ext =? 0xBA then b else cpu_reg32 c rg) 31)) in
    let operation := if ext =? 0xBA then rg - 4 else Z.land (Z.shiftr ext 3) 3 in
    let a := get32 c rm in
    let c := set_cf c (truth (Z.land a bit)) in
    Ok (CPU_OK,
        if truth operation then
          put32 c rm (if operation =? 1 then Z.lor a bit
                      else if operation =? 2 then Z.land a (not32 bit) else Z.lxor a bit)
        else c)
  else if among ext [0xA4; 0xA5; 0xAC; 0xAD] then
    let '(x, c) := double_shift c (get32 c rm) (cpu_reg32 c rg)
                     (if truth (Z.land ext 1) then r c CX else b) 32 (truth (Z.land ext 8)) in
    Ok (CPU_OK, put32 c rm x)
  else if 0xC8 <=? ext then
    let a := cpu_reg32 c (Z.land ext 7) in
    Ok (CPU_OK, cpu_put_reg32 c (Z.land ext 7)
      (Z.lor (Z.shiftr a 24) (Z.lor (Z.land (Z.shiftr a 8) 0xFF00)
         (Z.lor (Z.land (u32 (Z.shiftl a 8)) 0xFF0000) (u32 (Z.shiftl a 24))))))
  else
    let value := if ext =? 0xB6 then get8_rm c rm
                 else if ext =? 0xB7 then get16 c rm
                 else if ext =? 0xBE then u32 (signed 8 (get8_rm c rm))
                 else u32 (signed 16 (get16 c rm)) in
    Ok (CPU_OK, cpu_put_reg32 c rg value).

(** The final [switch]. *)
Definition op32_switch c (op ext : Z) (rm : operand) (rg b override start : Z) : outcome (cpu_stop * cpu D) :=
  let data := if 0 <=? override then override else sreg c 3 in
  if op =? 0x98 then Ok (CPU_OK, cpu_put_reg32 c AX (u32 (signed 16 (r c AX))))
  else if op =? 0x99 then Ok (CPU_OK, cpu_put_reg32 c DX (if truth (Z.land (r_hi c AX) 0x8000) then 0xFFFFFFFF else 0))
  else if among op [0x81; 0x83] then
    let '(x, c) := alu32 c rg (get32 c rm) b in
    Ok (CPU_OK, if negb (rg =? CMP) then put32 c rm x else c)
  else if op =? 0x85 then Ok (CPU_OK, (alu32 c AND (get32 c rm) (cpu_reg32 c rg)).2)
  else if op =? 0x87 then
    let a := get32 c rm in
    let b := cpu_reg32 c rg in
    Ok (CPU_OK, cpu_put_reg32 (put32 c rm b) rg a)
  else if op =? 0x89 then Ok (CPU_OK, put32 c rm (cpu_reg32 c rg))
  else if op =? 0x8B then Ok (CPU_OK, cpu_put_reg32 c rg (get32 c rm))
  else if op =? 0x8D then Ok (CPU_OK, cpu_put_reg32 c rg (off rm))
  else if op =? 0xA1 then Ok (CPU_OK, cpu_put_reg32 c AX (read32 c data b))
  else if op =? 0xA3 then Ok (CPU_OK, write32 c data b (cpu_reg32 c AX))
  else if op =? 0xA9 then Ok (CPU_OK, (alu32 c AND (cpu_reg32 c AX) b).2)
  else if op =? 0xC7 then Ok (CPU_OK, put32 c rm b)
  else if among op [0xC1; 0xD1; 0xD3] then
    let '(x, c) := shift c rg (get32 c rm) (if op =? 0xD1 then 1 else if op =? 0xD3 then r c CX else b) 32 in
    Ok (CPU_OK, put32 c rm x)
  else if op =? 0xF7 then Ok (op32_group3 c rm rg b start)
  else if op =? 0xFF then
    let cf := flag c FLAG_CF in
    let '(x, c) := alu32 c (if rg =? 0 then ADD else SUB) (get32 c rm) 1 in
    Ok (CPU_OK, set_cf (put32 c rm x) cf)
  else if op =? 0x0F then op32_0f c ext rm rg b override
  else Ok (CPU_OK, c).

(** From the multiplications to the last [else]. *)
Definition op32_exec c (op ext : Z) (modrm : bool) (rm : operand) (rg b override start : Z)
    (pushing popping : bool) : outcome (cpu_stop * cpu D) :=
  let alu := (op <? 0x40) && among (Z.land op 7) [1; 3; 5] in
  if among op [0x69; 0x6B] || (ext =? 0xAF) then
    let product := signed 32 (get32 c rm) * signed 32 (if ext =? 0xAF then cpu_reg32 c rg else b) in
    let value := u32 product in
    let c := cpu_put_reg32 c rg value in
    let lost := negb (product =? signed 32 value) in
    Ok (CPU_OK, set_of (set_cf c lost) lost)
  else if alu then
    let operation := Z.land (Z.shiftr op 3) 7 in
    let direction := Z.land op 7 =? 3 in
    let a := if modrm then (if direction then cpu_reg32 c rg else get32 c rm) else cpu_reg32 c AX in
    let b := if modrm then (if direction then get32 c rm else cpu_reg32 c rg) else b in
    let '(value, c) := alu32 c operation a b in
    Ok (CPU_OK,
        if negb (operation =? CMP) then
          if negb modrm || direction then cpu_put_reg32 c (if modrm then rg else AX) value
          else put32 c rm value
        else c)
  else if within op 0xB8 0xBF then Ok (CPU_OK, cpu_put_reg32 c (Z.land op 7) b)
  else if within op 0x40 0x4F then
    let cf := flag c FLAG_CF in
    let '(value, c) := alu32 c (if op <? 0x48 then ADD else SUB) (cpu_reg32 c (Z.land op 7)) 1 in
    Ok (CPU_OK, set_cf (cpu_put_reg32 c (Z.land op 7) value) cf)
  else if pushing then
    let value :=
      if op =? 0x9C then
        Z.lor (Z.lor (Z.land (flags c) 0x7FD7) 2) (Z.shiftl (Z.land (flags_hi c) 0x24) 16)
      else if among op [0x68; 0x6A] then b
      else if op =? 0xFF then get32 c rm
      else cpu_reg32 c (Z.land op 7) in
    let c := set_r c SP (r c SP - 4) in
    Ok (CPU_OK, write32 c (sreg c 2) (r c SP) value)
  else if popping then
    let value := read32 c (sreg c 2) (r c SP) in
    let c := set_r c SP (r c SP + 4) in
    Ok (CPU_OK,
        if op =? 0x9D then
          set_flags_hi (set_flags c (Z.lor (Z.land value 0x7FD7) 2)) (Z.land (Z.shiftr value 16) 0x24)
        else if op =? 0x8F then put32 c rm value
        else cpu_put_reg32 c (Z.land op 7) value)
  else if within op 0x90 0x97 then
    let value := cpu_reg32 c AX in
    let a := cpu_reg32 c (Z.land op 7) in
    Ok (CPU_OK, cpu_put_reg32 (cpu_put_reg32 c AX a) (Z.land op 7) value)
  else op32_switch c op ext rm rg b override start.

Definition op32 c (op override start : Z) : outcome (cpu_stop * cpu D) :=
  let '(form, c) := op32_form c op in
  match form with
  | None => Ok (CPU_FAULT, c)
  | Some (ext, modrm, immediate) =>
      let '(dec, c) := if modrm then op32_operand c op ext immediate override
                       else (Some (Operand false 0 0 0, 0, immediate), c) in
      match dec with
      | None => Ok (CPU_FAULT, c)
      | Some (rm, rg, immediate) =>
          let pushing := within op 0x50 0x57 || among op [0x9C; 0x68; 0x6A] || (op =? 0xFF) && (rg =? 6) in
          let popping := within op 0x58 0x5F || (op =? 0x8F) || (op =? 0x9D) in
          if u16 (ip c - start) + immediate >? 15 then Ok (CPU_FAULT, c)
          else if pushing && (u16 (r c SP - 4) >? 0xFFFC) then Ok (CPU_FAULT, c)
          else if popping && (r c SP >? 0xFFFC) then Ok (CPU_FAULT, c)
          else
            let b :=
              if immediate =? 4 then
                Z.lor (rd16 c (sreg c 1) (ip c)) (Z.shiftl (rd16 c (sreg c 1) (ip c + 2)) 16)
              else if immediate =? 2 then rd16 c (sreg c 1) (ip c)
              else if immediate =? 1 then u32 (signed 8 (rd8 c (sreg c 1) (ip c)))
              else 0 in
            if among op [0xA1; 0xA3] && (b >? 0xFFFC) then Ok (CPU_FAULT, c)
            else op32_exec (set_ip c (ip c + immediate)) op ext modrm rm rg b override start pushing popping
      end
  end.

(** ** The one-byte instructions *)

(** The 00-3F forms with a ModR/M byte. *)
Definition step_alu_rm c (op override : Z) : cpu_stop * cpu D :=
  let alu_op := Z.land (Z.shiftr op 3) 7 in
  let w := truth (Z.land op 1) in
  let dir := truth (Z.land op 2) in
  let '(rm, rg, c) := decode_over c override in
  if w then
    let a := if dir then r c rg else get16 c rm in
    let b := if dir then get16 c rm else r c rg in
    let '(x, c) := alu16 c alu_op a b in
    (CPU_OK, if negb (alu_op =? CMP) then (if dir then set_r c rg x else put16 c rm x) else c)
  else
    let a := if dir then get8 c rg else get8_rm c rm in
    let b := if dir then get8_rm c rm else get8 c rg in
    let '(x, c) := alu8 c alu_op a b in
    (CPU_OK, if negb (alu_op =? CMP) then (if dir then put8 c rg x else put8_rm c rm x) else c).

(** The 00-3F forms on the accumulator. *)
Definition step_alu_acc c (op : Z) : cpu_stop * cpu D :=
  let alu_op := Z.land (Z.shiftr op 3) 7 in
  if truth (Z.land op 1) then
    let '(imm, c) := fetch16 c in
    let '(x, c) := alu16 c alu_op (r c AX) imm in
    (CPU_OK, if negb (alu_op =? CMP) then set_r c AX x else c)
  else
    let '(imm, c) := fetch8 c in
    let '(x, c) := alu8 c alu_op (get8 c 0) imm in
    (CPU_OK, if negb (alu_op =? CMP) then put8 c 0 x else c).

(** 40-5F: INC, DEC, PUSH and POP of a register. *)
Definition step_reg c (op : Z) : cpu_stop * cpu D :=
  let n := Z.land op 7 in
  if op <? 0x48 then
    let v := r c n in
    let res := u16 (v + 1) in
    let c := set_cf c (flag c FLAG_CF) in
    let cf := flag c FLAG_CF in
    let c := set_cf (cpu_set_flags c res 16) cf in
    let c := set_af (set_of c (res =? 0x8000)) (Z.land v 15 =? 15) in
    (CPU_OK, set_r c n res)
  else if op <? 0x50 then
    let v := r c n in
    let res := u16 (v - 1) in
    let cf := flag c FLAG_CF in
    let c := set_cf (cpu_set_flags c res 16) cf in
    let c := set_af (set_of c (res =? 0x7FFF)) (Z.land v 15 =? 0) in
    (CPU_OK, set_r c n res)
  else if op <? 0x58 then (CPU_OK, push16 c (r c n))
  else let '(v, c) := pop16 c in (CPU_OK, set_r c n v).

Definition pusha c : cpu D :=
  let sp := r c SP in
  for_range 0 8 (λ i c, push16 c (if i =? SP then sp else r c i)) c.

(** [for (int i = 7; i >= 0; i--)] *)
Definition popa c : cpu D :=
  for_range 0 8 (λ k c, let i := 7 - k in
    let '(value, c) := pop16 c in if negb (i =? SP) then set_r c i value else c) c.

(** Each of the following is a part of the [switch]: [None] when the opcode
    is not one of its labels. *)

Definition step_stack c (op : Z) : option (cpu_stop * cpu D) :=
  if op =? 0x06 then Some (CPU_OK, push16 c (sreg c 0))
  else if op =? 0x07 then let '(v, c) := pop16 c in Some (CPU_OK, set_sreg c 0 v)
  else if op =? 0x0E then Some (CPU_OK, push16 c (sreg c 1))
  else if op =? 0x16 then Some (CPU_OK, push16 c (sreg c 2))
  else if op =? 0x17 then let '(v, c) := pop16 c in Some (CPU_OK, set_irq_shadow (set_sreg c 2 v) 1)
  else if op =? 0x1E then Some (CPU_OK, push16 c (sreg c 3))
  else if op =? 0x1F then let '(v, c) := pop16 c in Some (CPU_OK, set_sreg c 3 v)
  else if op =? 0x60 then Some (CPU_OK, pusha c)
  else if op =? 0x61 then Some (CPU_OK, popa c)
  else if op =? 0x68 then
    let v := rd16 c (sreg c 1) (ip c) in
    let c := push16 c v in Some (CPU_OK, set_ip c (ip c + 2))
  else if op =? 0x6A then let '(v, c) := fetch8 c in Some (CPU_OK, push16 c (u16 (signed 8 v)))
  else None.

(** IMUL with an immediate, Jcc, the ALU group with an immediate, TEST, XCHG. *)
Definition step_group1 c (op override : Z) : option (cpu_stop * cpu D) :=
  if among op [0x69; 0x6B] then
    let '(rm, rg, c) := decode_over c override in
    let imm := if op =? 0x69 then rd16 c (sreg c 1) (ip c) else u16 (signed 8 (rd8 c (sreg c 1) (ip c))) in
    let c := set_ip c (ip c + (if op =? 0x69 then 2 else 1)) in
    let x := signed 16 (get16 c rm) * signed 16 imm in
    let c := set_r c rg x in
    Some (CPU_OK, set_of (set_cf c (negb (x =? signed 16 x))) (negb (x =? signed 16 x)))
  else if within op 0x70 0x7F then
    let '(rel, c) := fetch8 c in
    Some (CPU_OK, if cond c (Z.land op 0x0F) then set_ip c (ip c + signed 8 rel) else c)
  else if within op 0x80 0x83 then
    let '(rm, rg, c) := decode_over c override in
    if among op [0x80; 0x82] then
      let '(imm, c) := fetch8 c in
      let '(x, c) := alu8 c rg (get8_rm c rm) imm in
      Some (CPU_OK, if negb (rg =? CMP) then put8_rm c rm x else c)
    else
      let imm := if op =? 0x81 then rd16 c (sreg c 1) (ip c) else u16 (signed 8 (rd8 c (sreg c 1) (ip c))) in
      let c := set_ip c (ip c + (if op =? 0x81 then 2 else 1)) in
      let '(x, c) := alu16 c rg (get16 c rm) imm in
      Some (CPU_OK, if negb (rg =? CMP) then put16 c rm x else c)
  else if among op [0x84; 0x85] then
    let '(rm, rg, c) := decode_over c override in
    Some (CPU_OK, if op =? 0x85 then (alu16 c AND (get16 c rm) (r c rg)).2
                  else (alu8 c AND (get8_rm c rm) (get8 c rg)).2)
  else if among op [0x86; 0x87] then
    let '(rm, rg, c) := decode_over c override in
    if op =? 0x87 then
      let t := get16 c rm in
      let c := put16 c rm (r c rg) in
      Some (CPU_OK, set_r c rg t)
    else
      let t := get8_rm c rm in
      let c := put8_rm c rm (get8 c rg) in
      Some (CPU_OK, put8 c rg t)
  else None.

(** MOV, LEA and POP with a ModR/M byte. *)
Definition step_mov c (op override : Z) : option (cpu_stop * cpu D) :=
  if among op [0x88; 0x89] then
    let '(rm, rg, c) := decode_over c override in
    Some (CPU_OK, if op =? 0x89 then put16 c rm (r c rg) else put8_rm c rm (get8 c rg))
  else if among op [0x8A; 0x8B] then
    let '(rm, rg, c) := decode_over c override in
    Some (CPU_OK, if op =? 0x8B then set_r c rg (get16 c rm) else put8 c rg (get8_rm c rm))
  else if op =? 0x8C then
    let '(rm, rg, c) := decode_over c override in
    Some (CPU_OK, put16 c rm (sreg c (Z.land rg 3)))
  else if op =? 0x8D then
    let '(rm, rg, c) := decode_rm c in
    Some (CPU_OK, set_r c rg (off rm))
  else if op =? 0x8E then
    let '(rm, rg, c) := decode_over c override in
    let c := set_sreg c (Z.land rg 3) (get16 c rm) in
    Some (CPU_OK, if Z.land rg 3 =? 2 then set_irq_shadow c 1 else c)
  else if op =? 0x8F then
    let '(rm, rg, c) := decode_over c override in
    let '(v, c) := pop16 c in
    Some (CPU_OK, put16 c rm v)
  else None.

(** NOP to LAHF. *)
Definition step_misc c (op : Z) : option (cpu_stop * cpu D) :=
  if op =? 0x90 then Some (CPU_OK, c)
  else if within op 0x91 0x97 then
    let n := Z.land op 7 in
    let t := r c AX in
    let c := set_r c AX (r c n) in
    Some (CPU_OK, set_r c n t)
  else if op =? 0x9A then
    let o := rd16 c (sreg c 1) (ip c) in
    let s := rd16 c (sreg c 1) (ip c + 2) in
    let c := set_ip c (ip c + 4) in
    let c := push16 c (sreg c 1) in
    let c := push16 c (ip c) in
    Some (CPU_OK, set_ip (set_sreg c 1 s) o)
  else if op =? 0x98 then Some (CPU_OK, set_r c AX (signed 8 (r c AX)))
  else if op =? 0x99 then Some (CPU_OK, set_r c DX (if truth (Z.land (r c AX) 0x8000) then 0xFFFF else 0))
  else if op =? 0x9C then Some (CPU_OK, push16 c (Z.lor (Z.land (flags c) 0x7FD7) 2))
  else if op =? 0x9D then let '(v, c) := pop16 c in Some (CPU_OK, set_flags c (Z.lor (Z.land v 0x7FD7) 2))
  else if op =? 0x9E then
    Some (CPU_OK, set_flags c (Z.lor (Z.lor (Z.land (flags c) (Z.lnot 0x00D5)) (Z.land (Z.shiftr (r c AX) 8) 0xD5)) 0x02))
  else if op =? 0x9F then
    Some (CPU_OK, set_r c AX (Z.lor (Z.land (r c AX) 0x00FF) (Z.shiftl (Z.lor (Z.land (flags c) 0xD5) 0x02) 8)))
  else None.

(** DAA and DAS. *)
Definition step_decimal c (op : Z) : option (cpu_stop * cpu D) :=
  if op =? 0x27 then
    let old := get8 c 0 in
    let old_cf := flag c FLAG_CF in
    let low := (Z.land old 15 >? 9) || flag c FLAG_AF in
    let value := if low then u8 (old + 6) else old in
    let value := if (old >? 0x99) || old_cf then u8 (value + 0x60) else value in
    let c := set_cf c ((old >? 0x99) || old_cf) in
    let c := set_af c low in
    let c := put8 c 0 value in
    Some (CPU_OK, cpu_set_flags c value 8)
  else if op =? 0x2F then
    let old := get8 c 0 in
    let old_cf := flag c FLAG_CF in
    let adjust_low := (Z.land old 15 >? 9) || flag c FLAG_AF in
    let '(value, carry) := if adjust_low then (u8 (old - 6), old_cf || (old <? 6)) else (old, false) in
    let '(value, carry) := if (old >? 0x99) || old_cf then (u8 (value - 0x60), true) else (value, carry) in
    let c := set_cf c carry in
    let c := set_flag c FLAG_AF adjust_low in
    let c := put8 c 0 value in
    Some (CPU_OK, cpu_set_flags c value 8)
  else None.

(** Moves and tests of the accumulator, moves of immediates to registers. *)
Definition step_acc c (op override : Z) : option (cpu_stop * cpu D) :=
  let data := if 0 <=? override then override else sreg c 3 in
  if op =? 0xA0 then
    let c := set_r c AX (Z.lor (Z.land (r c AX) 0xFF00) (rd8 c data (rd16 c (sreg c 1) (ip c)))) in
    Some (CPU_OK, set_ip c (ip c + 2))
  else if op =? 0xA1 then
    let c := set_r c AX (rd16 c data (rd16 c (sreg c 1) (ip c))) in
    Some (CPU_OK, set_ip c (ip c + 2))
  else if op =? 0xA2 then
    let c := wr8 c data (rd16 c (sreg c 1) (ip c)) (get8 c 0) in
    Some (CPU_OK, set_ip c (ip c + 2))
  else if op =? 0xA3 then
    let c := wr16 c data (rd16 c (sreg c 1) (ip c)) (r c AX) in
    Some (CPU_OK, set_ip c (ip c + 2))
  else if op =? 0xA8 then let '(v, c) := fetch8 c in Some (CPU_OK, (alu8 c AND (get8 c 0) v).2)
  else if op =? 0xA9 then
    let c := (alu16 c AND (r c AX) (rd16 c (sreg c 1) (ip c))).2 in
    Some (CPU_OK, set_ip c (ip c + 2))
  else if within op 0xB0 0xB7 then let '(v, c) := fetch8 c in Some (CPU_OK, put8 c (Z.land op 7) v)
  else if within op 0xB8 0xBF then let '(v, c) := fetch16 c in Some (CPU_OK, set_r c (Z.land op 7) v)
  else None.

(** The loop of ENTER. *)
Fixpoint enter_frames (n : nat) c : cpu D :=
  match n with
  | O => c
  | S n =>
      let c := set_r c BP (r c BP - 2) in
      enter_frames n (push16 c (rd16 c (sreg c 2) (r c BP)))
  end.

(** RET, LES, LDS, MOV of immediates, ENTER, LEAVE, RETF. *)
Definition step_return c (op override : Z) : option (cpu_stop * cpu D) :=
  if op =? 0xC2 then
    let n := rd16 c (sreg c 1) (ip c) in
    let '(v, c) := pop16 c in
    let c := set_ip c v in
    Some (CPU_OK, set_r c SP (r c SP + n))
  else if op =? 0xC3 then let '(v, c) := pop16 c in Some (CPU_OK, set_ip c v)
  else if among op [0xC4; 0xC5] then
    let '(rm, rg, c) := decode_over c override in
    let c := set_r c rg (rd16 c (seg rm) (off rm)) in
    Some (CPU_OK, set_sreg c (if op =? 0xC4 then 0 else 3) (rd16 c (seg rm) (off rm + 2)))
  else if among op [0xC6; 0xC7] then
    let '(rm, rg, c) := decode_over c override in
    if op =? 0xC7 then
      let c := put16 c rm (rd16 c (sreg c 1) (ip c)) in
      Some (CPU_OK, set_ip c (ip c + 2))
    else let '(v, c) := fetch8 c in Some (CPU_OK, put8_rm c rm v)
  else if op =? 0xC8 then
    let size := rd16 c (sreg c 1) (ip c) in
    let level := rd8 c (sreg c 1) (ip c + 2) in
    let c := set_ip c (ip c + 3) in
    let c := push16 c (r c BP) in
    let frame := r c SP in
    let c := enter_frames (Z.to_nat level) c in
    let c := push16 c frame in
    let c := set_r c BP frame in
    Some (CPU_OK, set_r c SP (r c SP - size))
  else if op =? 0xC9 then
    let c := set_r c SP (r c BP) in
    let '(v, c) := pop16 c in
    Some (CPU_OK, set_r c BP v)
  else if op =? 0xCA then
    let n := rd16 c (sreg c 1) (ip c) in
    let '(v, c) := pop16 c in
    let c := set_ip c v in
    let '(s, c) := pop16 c in
    let c := set_sreg c 1 s in
    Some (CPU_OK, set_r c SP (r c SP + n))
  else if op =? 0xCB then
    let '(v, c) := pop16 c in
    let c := set_ip c v in
    let '(s, c) := pop16 c in
    Some (CPU_OK, set_sreg c 1 s)
  else None.

(** AAM, INTO, INT, IRET, AAD, XLAT. *)
Definition step_int c (op override : Z) : option (cpu_stop * cpu D) :=
  let data := if 0 <=? override then override else sreg c 3 in
  if op =? 0xD4 then
    let '(base, c) := fetch8 c in
    if base =? 0 then Some (CPU_INT, take_interrupt (set_int_no c 0) 0)
    else
      let al := get8 c 0 in
      let c := put8 c 4 (Z.quot al base) in
      let c := put8 c 0 (Z.rem al base) in
      Some (CPU_OK, cpu_set_flags c (get8 c 0) 8)
  else if op =? 0xCE then
    if negb (flag c FLAG_OF) then Some (CPU_OK, c)
    else Some (CPU_INT, take_interrupt (set_int_no c 4) 4)
  else if op =? 0xCD then
    let '(n, c) := fetch8 c in
    let c := set_int_no c n in
    Some (CPU_INT, take_interrupt c (int_no c))
  else if op =? 0xCF then
    let '(v, c) := pop16 c in
    let c := set_ip c v in
    let '(s, c) := pop16 c in
    let c := set_sreg c 1 s in
    let '(f, c) := pop16 c in
    Some (CPU_IRET, set_flags c f)
  else if op =? 0xD5 then
    let '(base, c) := fetch8 c in
    let c := set_r c AX (u8 (get8 c 0 + get8 c 4 * base)) in
    Some (CPU_OK, cpu_set_flags c (r c AX) 8)
  else if op =? 0xD7 then Some (CPU_OK, put8 c 0 (rd8 c data (r c BX + get8 c 0)))
  else None.

(** Shifts and rotates by 1, CL or an immediate. *)
Definition step_shift c (op override start : Z) : option (cpu_stop * cpu D) :=
  if among op [0xC0; 0xC1; 0xD0; 0xD1; 0xD2; 0xD3] then
    let '(rm, rg, c) := decode_over c override in
    if rg =? 6 then Some (CPU_FAULT, set_ip c start)
    else
      let '(count, c) := if among op [0xD0; 0xD1] then (1, c)
                         else if among op [0xD2; 0xD3] then (r c CX, c) else fetch8 c in
      if among op [0xC1; 0xD1; 0xD3] then
        let '(x, c) := shift c rg (get16 c rm) count 16 in Some (CPU_OK, put16 c rm x)
      else
        let '(x, c) := shift c rg (get8_rm c rm) count 8 in Some (CPU_OK, put8_rm c rm x)
  else None.

(** The callbacks. A port callback returns 0 for a port it handles. *)
Variable port_in8 : option (cpu D → Z → Z * Z * cpu D).
Variable port_out8 : option (cpu D → Z → Z → Z * cpu D).
Variable irq_ack : option (cpu D → Z * cpu D).

(** Loops, jumps, calls and ports. *)
Definition step_jump c (op : Z) : option (cpu_stop * cpu D) :=
  if within op 0xE0 0xE2 then
    let '(rel, c) := fetch8 c in
    let c := set_r c CX (r c CX - 1) in
    let zf := flag c FLAG_ZF in
    let take := (op =? 0xE2) || (op =? 0xE0) && negb zf || (op =? 0xE1) && zf in
    Some (CPU_OK, if truth (r c CX) && take then set_ip c (ip c + signed 8 rel) else c)
  else if op =? 0xE3 then
    let '(rel, c) := fetch8 c in
    Some (CPU_OK, if r c CX =? 0 then set_ip c (ip c + signed 8 rel) else c)
  else if among op [0xE4; 0xEC] then
    let port := if op =? 0xE4 then rd8 c (sreg c 1) (ip c) else r c DX in
    match port_in8 with
    | None => Some (CPU_FAULT, c)
    | Some f =>
        let '(rc, value, c) := f c port in
        if truth rc then Some (CPU_FAULT, c)
        else
          let c := if op =? 0xE4 then set_ip c (ip c + 1) else c in
          Some (CPU_OK, set_r c AX (Z.lor (Z.land (r c AX) 0xFF00) (u8 value)))
    end
  else if among op [0xE6; 0xEE] then
    let port := if op =? 0xE6 then rd8 c (sreg c 1) (ip c) else r c DX in
    match port_out8 with
    | None => Some (CPU_FAULT, c)
    | Some f =>
        let '(rc, c) := f c port (u8 (r c AX)) in
        if truth rc then Some (CPU_FAULT, c)
        else Some (CPU_OK, if op =? 0xE6 then set_ip c (ip c + 1) else c)
    end
  else if among op [0xE5; 0xE7; 0xED; 0xEF] then Some (CPU_FAULT, c)
  else if op =? 0xE8 then
    let '(rel, c) := fetch16 c in
    let c := push16 c (ip c) in
    Some (CPU_OK, set_ip c (ip c + signed 16 rel))
  else if op =? 0xE9 then
    let rel := signed 16 (rd16 c (sreg c 1) (ip c)) in
    Some (CPU_OK, set_ip c (ip c + 2 + rel))
  else if op =? 0xEA then
    let o := rd16 c (sreg c 1) (ip c) in
    let s := rd16 c (sreg c 1) (ip c + 2) in
    Some (CPU_OK, set_sreg (set_ip c o) 1 s)
  else if op =? 0xEB then
    let '(rel, c) := fetch8 c in
    Some (CPU_OK, set_ip c (ip c + signed 8 rel))
  else None.

(** MUL and IMUL of group 3. *)
Definition group3_mul c (rm : operand) (rg : Z) (w : bool) : cpu D :=
  if rg =? 4 then
    if w then
      let x := u32 (r c AX * get16 c rm) in
      let c := set_r (set_r c AX x) DX (Z.shiftr x 16) in
      set_of (set_cf c (negb (r c DX =? 0))) (negb (r c DX =? 0))
    else
      let x := u16 (get8 c 0 * get8_rm c rm) in
      let c := set_r c AX x in
      set_of (set_cf c (negb (Z.shiftr x 8 =? 0))) (negb (Z.shiftr x 8 =? 0))
  else
    if w then
      let x := signed 16 (r c AX) * signed 16 (get16 c rm) in
      let c := set_r (set_r c AX x) DX (Z.shiftr x 16) in
      set_of (set_cf c (negb (x =? signed 16 x))) (negb (x =? signed 16 x))
    else
      let x := signed 16 (signed 8 (get8 c 0) * signed 8 (get8_rm c rm)) in
      let c := set_r c AX x in
      set_of (set_cf c (negb (x =? signed 8 x))) (negb (x =? signed 8 x)).

(** DIV and IDIV of group 3. *)
Definition group3_div c (rm : operand) (rg : Z) (w : bool) (start : Z) : cpu_stop * cpu D :=
  if rg =? 6 then
    if w then
      let d := get16 c rm in
      if d =? 0 then divide_error c start
      else
        let n := Z.lor (Z.shiftl (r c DX) 16) (r c AX) in
        if n / d >? 0xFFFF then divide_error c start
        else (CPU_OK, set_r (set_r c AX (n / d)) DX (n mod d))
    else
      let d := get8_rm c rm in
      if d =? 0 then divide_error c start
      else
        let n := r c AX in
        if n / d >? 0xFF then divide_error c start
        else (CPU_OK, put8 (put8 c 0 (n / d)) 4 (n mod d))
  else
    if w then
      let d := signed 16 (get16 c rm) in
      if d =? 0 then divide_error c start
      else
        let n := signed 32 (Z.lor (Z.shiftl (r c DX) 16) (r c AX)) in
        if (n =? -0x80000000) && (d =? -1) then divide_error c start
        else
          let q := Z.quot n d in
          if (q >? 32767) || (q <? -32768) then divide_error c start
          else (CPU_OK, set_r (set_r c AX q) DX (Z.rem n d))
    else
      let d := signed 8 (get8_rm c rm) in
      if d =? 0 then divide_error c start
      else
        let n := signed 16 (r c AX) in
        let q := signed 16 (Z.quot n d) in
        if (q >? 127) || (q <? -128) then divide_error c start
        else (CPU_OK, put8 (put8 c 0 q) 4 (Z.rem n d)).

(** HLT, CMC and group 3. *)
Definition step_group3 c (op override start : Z) : option (cpu_stop * cpu D) :=
  if op =? 0xF4 then Some (CPU_HALT, c)
  else if op =? 0xF5 then Some (CPU_OK, set_flags c (Z.lxor (flags c) FLAG_CF))
  else if among op [0xF6; 0xF7] then
    let '(rm, rg, c) := decode_over c override in
    let w := op =? 0xF7 in
    if (rg =? 0) || (rg =? 1) then
      if w then
        let c := (alu16 c AND (get16 c rm) (rd16 c (sreg c 1) (ip c))).2 in
        Some (CPU_OK, set_ip c (ip c + 2))
      else
        let '(v, c) := fetch8 c in
        Some (CPU_OK, (alu8 c AND (get8_rm c rm) v).2)
    else if rg =? 2 then
      Some (CPU_OK, if w then put16 c rm (Z.lnot (get16 c rm)) else put8_rm c rm (Z.lnot (get8_rm c rm)))
    else if rg =? 3 then
      if w then
        let v := get16 c rm in
        let c := put16 c rm (u16 (0 - v)) in
        let c := set_of (set_cf c (negb (v =? 0))) (v =? 0x8000) in
        Some (CPU_OK, cpu_set_flags c (u16 (0 - v)) 16)
      else
        let v := get8_rm c rm in
        let c := put8_rm c rm (u8 (0 - v)) in
        let c := set_of (set_cf c (negb (v =? 0))) (v =? 0x80) in
        Some (CPU_OK, cpu_set_flags c (u8 (0 - v)) 8)
    else if (rg =? 4) || (rg =? 5) then Some (CPU_OK, group3_mul c rm rg w)
    else Some (group3_div c rm rg w start)
  else None.

(** CLC to STD. *)
Definition step_flags c (op : Z) : option (cpu_stop * cpu D) :=
  if op =? 0xF8 then Some (CPU_OK, set_cf c false)
  else if op =? 0xF9 then Some (CPU_OK, set_cf c true)
  else if op =? 0xFA then Some (CPU_OK, set_flags c (Z.land (flags c) (Z.lnot FLAG_IF)))
  else if op =? 0xFB then Some (CPU_OK, set_irq_shadow (set_flags c (Z.lor (flags c) FLAG_IF)) 1)
  else if op =? 0xFC then Some (CPU_OK, set_flags c (Z.land (flags c) (Z.lnot FLAG_DF)))
  else if op =? 0xFD then Some (CPU_OK, set_flags c (Z.lor (flags c) FLAG_DF))
  else None.

(** INC, DEC, CALL, JMP and PUSH with a ModR/M byte. *)
Definition step_group5 c (op override : Z) : option (cpu_stop * cpu D) :=
  if op =? 0xFE then
    let '(rm, rg, c) := decode_over c override in
    let v := get8_rm c rm in
    let cf := flag c FLAG_CF in
    let x := if rg =? 0 then u8 (v + 1) else u8 (v - 1) in
    let c := set_cf (cpu_set_flags c x 8) cf in
    let c := set_of c (if rg =? 0 then x =? 0x80 else x =? 0x7F) in
    let c := set_af c (if rg =? 0 then Z.land v 15 =? 15 else Z.land v 15 =? 0) in
    Some (CPU_OK, put8_rm c rm x)
  else if op =? 0xFF then
    let '(rm, rg, c) := decode_over c override in
    if (rg =? 0) || (rg =? 1) then
      let v := get16 c rm in
      let cf := flag c FLAG_CF in
      let x := if rg =? 0 then u16 (v + 1) else u16 (v - 1) in
      let c := set_cf (cpu_set_flags c x 16) cf in
      let c := set_of c (if rg =? 0 then x =? 0x8000 else x =? 0x7FFF) in
      let c := set_af c (if rg =? 0 then Z.land v 15 =? 15 else Z.land v 15 =? 0) in
      Some (CPU_OK, put16 c rm x)
    else if rg =? 2 then
      let target := get16 c rm in
      let c := push16 c (ip c) in
      Some (CPU_OK, set_ip c target)
    else if rg =? 3 then
      let o := rd16 c (seg rm) (off rm) in
      let s := rd16 c (seg rm) (off rm + 2) in
      let c := push16 c (sreg c 1) in
      let c := push16 c (ip c) in
      Some (CPU_OK, set_sreg (set_ip c o) 1 s)
    else if rg =? 4 then Some (CPU_OK, set_ip c (get16 c rm))
    else if rg =? 5 then
      let o := rd16 c (seg rm) (off rm) in
      let s := rd16 c (seg rm) (off rm + 2) in
      Some (CPU_OK, set_sreg (set_ip c o) 1 s)
    else if rg =? 6 then Some (CPU_OK, push16 c (get16 c rm))
    else Some (CPU_FAULT, c)
  else None.

(** ** One instruction *)

(** Tries the parts of the [switch] in turn; their labels are disjoint. *)
Definition first_of (l : list (option (cpu_stop * cpu D))) (other : cpu_stop * cpu D) : cpu_stop * cpu D :=
  default other (foldr (λ o acc, match o with Some x => Some x | None => acc end) None l).

Definition one_byte c (op override start : Z) : cpu_stop * cpu D :=
  first_of
    [step_stack c op; step_group1 c op override; step_mov c op override; step_misc c op; step_decimal c op;
     step_acc c op override; step_return c op override; step_int c op override; step_shift c op override start;
     step_jump c op; step_group3 c op override start; step_flags c op; step_group5 c op override]
    (CPU_FAULT, c).

(** The lowest pending interrupt line at or above [i], cleared, and its vector. *)
Fixpoint first_pending (n : nat) c (i : Z) : Z * cpu D :=
  match n with
  | O => (-1, c)
  | S n =>
      if truth (Z.land (irq_pending c) (Z.shiftl 1 i)) then
        (if i <? 8 then 0x08 + i else 0x70 + i - 8,
         set_irq_pending c (Z.land (irq_pending c) (Z.lnot (Z.shiftl 1 i))))
      else first_pending n c (i + 1)
  end.

(** The check for a hardware interrupt at the start of a step. *)
Definition check_irq c : bool * cpu D :=
  let inhibited := truth (irq_shadow c) in
  let c := if inhibited then set_irq_shadow c (irq_shadow c - 1) else c in
  if negb inhibited && flag c FLAG_IF then
    let '(vector, c) := match irq_ack with Some f => f c | None => (-1, c) end in
    let '(vector, c) := if (vector <? 0) && truth (irq_pending c) then first_pending 16 c 0 else (vector, c) in
    if 0 <=? vector then
      let c := set_int_no c vector in (true, take_interrupt c (int_no c))
    else (false, c)
  else (false, c).

(** The prefixes: [n] more bytes may be read. *)
Record prefix := Prefix { p_override : Z; p_operand32 : bool; p_rep : Z }.

Fixpoint read_prefixes (n : nat) c (p : prefix) (start : Z) : option (Z * prefix) * cpu D :=
  let '(op, c) := fetch8 c in
  match n with
  | O => (None, set_ip (set_fault_opcode c (if p_operand32 p then 0x66 else op)) start)
  | S n =>
      if op =? 0x66 then read_prefixes n c (Prefix (p_override p) true (p_rep p)) start
      else if op =? 0x26 then read_prefixes n c (Prefix (sreg c 0) (p_operand32 p) (p_rep p)) start
      else if op =? 0x2E then read_prefixes n c (Prefix (sreg c 1) (p_operand32 p) (p_rep p)) start
      else if op =? 0x36 then read_prefixes n c (Prefix (sreg c 2) (p_operand32 p) (p_rep p)) start
      else if op =? 0x3E then read_prefixes n c (Prefix (sreg c 3) (p_operand32 p) (p_rep p)) start
      else if among op [0xF2; 0xF3] then read_prefixes n c (Prefix (p_override p) (p_operand32 p) op) start
      else (Some (op, p), c)
  end.

(** An instruction with its operand-size prefix. *)
Definition step32 c (op rep override start : Z) : outcome (cpu_stop * cpu D) :=
  (if among op [0xA5; 0xAB; 0xAD] then string32 c op rep override
   else if truth rep then Ok (CPU_FAULT, c) else op32 c op override start) ≫= λ '(result, c),
  Ok (result, if decide (result = CPU_FAULT) then set_ip (set_fault_opcode c 0x66) start else c).

(** An instruction without. *)
Definition step16 c (op rep override start : Z) : outcome (cpu_stop * cpu D) :=
  if within op 0xA4 0xA7 || within op 0xAA 0xAF then
    do_string c op rep (if 0 <=? override then override else sreg c 3) ≫= λ c, Ok (CPU_OK, c)
  else if truth rep then Ok (CPU_FAULT, c)
  else if op =? 0x0F then op_0f c override
  else if (op <? 0x40) && (Z.land op 7 <=? 3) then Ok (step_alu_rm c op override)
  else if (op <? 0x40) && within (Z.land op 7) 4 5 then Ok (step_alu_acc c op)
  else if within op 0x40 0x5F then Ok (step_reg c op)
  else Ok (one_byte c op override start).

Definition cpu_step c : outcome (cpu_stop * cpu D) :=
  let '(taken, c) := check_irq c in
  if taken then Ok (CPU_INT, c)
  else
    let start := ip c in
    let '(fetched, c) := read_prefixes 15 c (Prefix (-1) false 0) start in
    match fetched with
    | None => Ok (CPU_FAULT, c)
    | Some (op, p) =>
        let c := set_fault_opcode (set_insns c (insns c + 1)) op in
        if p_operand32 p then step32 c op (p_rep p) (p_override p) start
        else step16 c op (p_rep p) (p_override p) start
    end.

End cpu.
