(* ===== verification/CpuWf.v ===== *)
(** * Every instruction of the dosrun processor ends and keeps its state in range

    [cpu_wf] says that every register, flag word and memory byte is in the
    range of its C type, and that nothing is stored outside the megabyte of
    memory. [cpu_step] keeps it, for every byte sequence in
    memory, and its loops end. *)
From S2P Require Import Prelude Cpu.
Local Open Scope Z_scope.

Definition byte (x : Z) : Prop := 0 ≤ x < 2 ^ 8.
Definition word (x : Z) : Prop := 0 ≤ x < 2 ^ 16.

Record cpu_wf {D} (c : cpu D) : Prop := {
  wf_r i : word (r c i);
  wf_r_hi i : word (r_hi c i);
  wf_sreg i : word (sreg c i);
  wf_ip : word (ip c);
  wf_flags : word (flags c);
  wf_flags_hi : word (flags_hi c);
  wf_mem a : byte (mem c a);
  wf_mem_end a : ¬ 0 ≤ a < MEM_SIZE → mem c a = 0;
  wf_int_no : byte (int_no c);
  wf_fault_opcode : byte (fault_opcode c);
  wf_exit_code : byte (exit_code c);
  wf_insns : 0 ≤ insns c < 2 ^ 32;
  wf_irq_pending : word (irq_pending c);
  wf_irq_shadow : byte (irq_shadow c)
}.

Create HintDb cpu.

Lemma update_word f i v x : (∀ x, word (f x)) → word (update f i (u16 v) x).
Proof. intros Hf. unfold update. destruct (x =? i); [apply u16_range|apply Hf]. Qed.

Lemma update_byte f i v x : (∀ x, byte (f x)) → byte (update f i (u8 v) x).
Proof. intros Hf. unfold update. destruct (x =? i); [apply u8_range|apply Hf]. Qed.

#[export] Hint Resolve update_word update_byte : cpu.
#[export] Hint Resolve u8_range u16_range u32_range : cpu.

Section wf.
Context {D : Type}.
Implicit Types c : cpu D.

(** ** Stores *)

Ltac setter := intros []; constructor; simpl; intros; auto with cpu; try (apply u8_range || apply u16_range || apply u32_range).

Lemma wf_set_r c i v : cpu_wf c → cpu_wf (set_r c i v).
Proof. setter. Qed.
Lemma wf_set_r_hi c i v : cpu_wf c → cpu_wf (set_r_hi c i v).
Proof. setter. Qed.
Lemma wf_set_sreg c i v : cpu_wf c → cpu_wf (set_sreg c i v).
Proof. setter. Qed.
Lemma wf_set_ip c v : cpu_wf c → cpu_wf (set_ip c v).
Proof. setter. Qed.
Lemma wf_set_flags c v : cpu_wf c → cpu_wf (set_flags c v).
Proof. setter. Qed.
Lemma wf_set_flags_hi c v : cpu_wf c → cpu_wf (set_flags_hi c v).
Proof. setter. Qed.
Lemma wf_set_mem c i v : cpu_wf c → cpu_wf (set_mem c (Z.land i (MEM_SIZE - 1)) v).
Proof.
  intros Hc. pose proof (land_range_r 20 i (MEM_SIZE - 1)) as Hi.
  destruct Hc. constructor; simpl; intros; auto with cpu. unfold update. case_if; [|auto].
  lia.
Qed.
Lemma wf_set_int_no c v : cpu_wf c → cpu_wf (set_int_no c v).
Proof. setter. Qed.
Lemma wf_set_fault_opcode c v : cpu_wf c → cpu_wf (set_fault_opcode c v).
Proof. setter. Qed.
Lemma wf_set_insns c v : cpu_wf c → cpu_wf (set_insns c v).
Proof. setter. Qed.
Lemma wf_set_irq_pending c v : cpu_wf c → cpu_wf (set_irq_pending c v).
Proof. setter. Qed.
Lemma wf_set_irq_shadow c v : cpu_wf c → cpu_wf (set_irq_shadow c v).
Proof. setter. Qed.
End wf.

#[export] Hint Resolve wf_set_r wf_set_r_hi wf_set_sreg wf_set_ip wf_set_flags wf_set_flags_hi wf_set_mem
  wf_set_int_no wf_set_fault_opcode wf_set_insns wf_set_irq_pending wf_set_irq_shadow : cpu.

(** Splits every [match] of the goal, remembering what was matched. *)
Ltac split_matches := repeat case_match.

(** Solves a goal about the components of a result: looks inside the
    definitions named and splits their cases. *)
Ltac pair_eqs :=
  repeat match goal with
  | H : (_, _) = (_, _) |- _ => injection H; clear H; intros; try subst
  | H : Some _ = Some _ |- _ => injection H; clear H; intros; try subst
  end.
Ltac wf_cases := intros; split_matches; pair_eqs; cbn [fst snd]; try discriminate; eauto 12 with cpu.

Section wf2.
Context {D : Type}.
Implicit Types c : cpu D.

Lemma wf_cpu_init (d : D) : cpu_wf (cpu_init d).
Proof. constructor; simpl; intros; unfold word, byte; try lia. case_match; lia. Qed.

Lemma wf_cpu_put_reg32 c n v : cpu_wf c → cpu_wf (cpu_put_reg32 c n v).
Proof. unfold cpu_put_reg32. auto with cpu. Qed.

Lemma wf_wr8 c s o v : cpu_wf c → cpu_wf (wr8 c s o v).
Proof. unfold wr8, mem_w8. auto with cpu. Qed.
Lemma wf_wr16 c s o v : cpu_wf c → cpu_wf (wr16 c s o v).
Proof. unfold wr16, mem_w16. auto with cpu. Qed.
Lemma wf_write32 c s o v : cpu_wf c → cpu_wf (write32 c s o v).
Proof. unfold write32, mem_w16. auto with cpu. Qed.
Hint Resolve wf_cpu_put_reg32 wf_wr8 wf_wr16 wf_write32 : cpu.

Lemma wf_push16 c v : cpu_wf c → cpu_wf (push16 c v).
Proof. unfold push16. auto with cpu. Qed.
Lemma wf_pop16 c v c' : pop16 c = (v, c') → cpu_wf c → cpu_wf c'.
Proof. unfold pop16. wf_cases. Qed.
Lemma wf_fetch8 c v c' : fetch8 c = (v, c') → cpu_wf c → cpu_wf c'.
Proof. unfold fetch8. wf_cases. Qed.
Lemma wf_fetch16 c v c' : fetch16 c = (v, c') → cpu_wf c → cpu_wf c'.
Proof. unfold fetch16. wf_cases. Qed.
Hint Resolve wf_push16 : cpu.
Hint Extern 1 (cpu_wf ?c') => match goal with E : pop16 _ = (_, c') |- _ => eapply wf_pop16; [exact E|] end : cpu.
Hint Extern 1 (cpu_wf ?c') => match goal with E : fetch8 _ = (_, c') |- _ => eapply wf_fetch8; [exact E|] end : cpu.
Hint Extern 1 (cpu_wf ?c') => match goal with E : fetch16 _ = (_, c') |- _ => eapply wf_fetch16; [exact E|] end : cpu.

Lemma wf_cpu_set_flags c v b : cpu_wf c → cpu_wf (cpu_set_flags c v b).
Proof. intros Hc. unfold cpu_set_flags. repeat (case_match || apply wf_set_flags); auto with cpu. Qed.
Lemma wf_set_flag c f b : cpu_wf c → cpu_wf (set_flag c f b).
Proof. unfold set_flag. wf_cases. Qed.
Hint Resolve wf_cpu_set_flags wf_set_flag : cpu.
Lemma wf_set_cf c b : cpu_wf c → cpu_wf (set_cf c b).
Proof. apply wf_set_flag. Qed.
Lemma wf_set_of c b : cpu_wf c → cpu_wf (set_of c b).
Proof. apply wf_set_flag. Qed.
Lemma wf_set_af c b : cpu_wf c → cpu_wf (set_af c b).
Proof. apply wf_set_flag. Qed.
Hint Resolve wf_set_cf wf_set_of wf_set_af : cpu.

Lemma wf_put8 c n v : cpu_wf c → cpu_wf (put8 c n v).
Proof. unfold put8. wf_cases. Qed.
Hint Resolve wf_put8 : cpu.
Lemma wf_put16 c o v : cpu_wf c → cpu_wf (put16 c o v).
Proof. unfold put16. wf_cases. Qed.
Lemma wf_put8_rm c o v : cpu_wf c → cpu_wf (put8_rm c o v).
Proof. unfold put8_rm. wf_cases. Qed.
Lemma wf_put32 c o v : cpu_wf c → cpu_wf (put32 c o v).
Proof. unfold put32. wf_cases. Qed.
Hint Resolve wf_put16 wf_put8_rm wf_put32 : cpu.

Lemma wf_decode_rm junk c o n c' : decode_rm junk c = (o, n, c') → cpu_wf c → cpu_wf c'.
Proof. unfold decode_rm. wf_cases. Qed.
Hint Extern 1 (cpu_wf ?c') => match goal with E : decode_rm _ _ = (_, _, c') |- _ => eapply wf_decode_rm; [exact E|] end : cpu.
Lemma wf_decode_over junk c ov o n c' : decode_over junk c ov = (o, n, c') → cpu_wf c → cpu_wf c'.
Proof. unfold decode_over. wf_cases. Qed.
Hint Extern 1 (cpu_wf ?c') => match goal with E : decode_over _ _ _ = (_, _, c') |- _ => eapply wf_decode_over; [exact E|] end : cpu.

(** ** Arithmetic *)

Lemma wf_alu_flags c a b d : cpu_wf c → cpu_wf (alu_flags c a b d).
Proof. unfold alu_flags. auto with cpu. Qed.
Hint Resolve wf_alu_flags : cpu.

Lemma wf_alu16 c op a b v c' : alu16 c op a b = (v, c') → cpu_wf c → cpu_wf c'.
Proof. unfold alu16. wf_cases. Qed.
Lemma wf_alu8 c op a b v c' : alu8 c op a b = (v, c') → cpu_wf c → cpu_wf c'.
Proof. unfold alu8. wf_cases. Qed.
Lemma wf_alu32 c op a b v c' : alu32 c op a b = (v, c') → cpu_wf c → cpu_wf c'.
Proof. unfold alu32. wf_cases. Qed.
Hint Extern 1 (cpu_wf ?c') => match goal with E : alu8 _ _ _ _ = (_, c') |- _ => eapply wf_alu8; [exact E|] end : cpu.
Hint Extern 1 (cpu_wf ?c') => match goal with E : alu16 _ _ _ _ = (_, c') |- _ => eapply wf_alu16; [exact E|] end : cpu.
Hint Extern 1 (cpu_wf ?c') => match goal with E : alu32 _ _ _ _ = (_, c') |- _ => eapply wf_alu32; [exact E|] end : cpu.

Lemma wf_alu16_2 c op a b : cpu_wf c → cpu_wf (alu16 c op a b).2.
Proof. destruct (alu16 c op a b) eqn:E. cbn [snd]. eauto with cpu. Qed.
Lemma wf_alu8_2 c op a b : cpu_wf c → cpu_wf (alu8 c op a b).2.
Proof. destruct (alu8 c op a b) eqn:E. cbn [snd]. eauto with cpu. Qed.
Lemma wf_alu32_2 c op a b : cpu_wf c → cpu_wf (alu32 c op a b).2.
Proof. destruct (alu32 c op a b) eqn:E. cbn [snd]. eauto with cpu. Qed.
Hint Resolve wf_alu8_2 wf_alu16_2 wf_alu32_2 : cpu.

(** ** Shifts *)

Lemma wf_shift_once c op x m s b v c' : shift_once c op x m s b = (v, c') → cpu_wf c → cpu_wf c'.
Proof. unfold shift_once. wf_cases. Qed.

Lemma wf_shift_steps n c op x m s b v c' : shift_steps n c op x m s b = (v, c') → cpu_wf c → cpu_wf c'.
Proof.
  revert c x. induction n as [|n IH]; intros c x; simpl; [wf_cases|].
  destruct (shift_once c op x m s b) as [x1 c1] eqn:E1. intros E Hc. eapply IH; [done|]. by eapply wf_shift_once.
Qed.
Hint Extern 1 (cpu_wf ?c') => match goal with E : shift_steps _ _ _ _ _ _ _ = (_, c') |- _ => eapply wf_shift_steps; [exact E|] end : cpu.

Lemma wf_shift c op v count b x c' : shift c op v count b = (x, c') → cpu_wf c → cpu_wf c'.
Proof.
  unfold shift. intros E Hc. case_match; [by simplify_eq|].
  destruct (shift_steps _ _ _ _ _ _ _) as [x1 c1] eqn:E1. assert (cpu_wf c1) by eauto with cpu.
  injection E as <- <-. destruct (4 <=? op), (Z.land count 31 =? 1); split_matches; auto with cpu.
Qed.

Lemma wf_double_steps n c a s m sg b v c' : double_steps n c a s m sg b = (v, c') → cpu_wf c → cpu_wf c'.
Proof.
  revert c a s. induction n as [|n IH]; intros c a s; simpl; [wf_cases|].
  destruct b; intros E Hc; (eapply IH; [done|]); auto with cpu.
Qed.
Hint Extern 1 (cpu_wf ?c') => match goal with E : shift _ _ _ _ _ = (_, c') |- _ => eapply wf_shift; [exact E|] end : cpu.
Hint Extern 1 (cpu_wf ?c') => match goal with E : double_steps _ _ _ _ _ _ _ = (_, c') |- _ => eapply wf_double_steps; [exact E|] end : cpu.

Lemma wf_double_shift c a s count b rt x c' : double_shift c a s count b rt = (x, c') → cpu_wf c → cpu_wf c'.
Proof.
  unfold double_shift. intros E Hc. case_match; [by simplify_eq|].
  destruct (double_steps _ _ _ _ _ _ _) as [x1 c1] eqn:E1. assert (cpu_wf c1) by eauto with cpu.
  injection E as <- <-. destruct (Z.land count 31 =? 1); auto with cpu.
Qed.
Hint Extern 1 (cpu_wf ?c') => match goal with E : double_shift _ _ _ _ _ _ = (_, c') |- _ => eapply wf_double_shift; [exact E|] end : cpu.

(** ** Interrupts and strings *)

Lemma wf_take_interrupt c v : cpu_wf c → cpu_wf (take_interrupt c v).
Proof. unfold take_interrupt, cpu_enter_interrupt. auto 10 with cpu. Qed.
Lemma wf_divide_error c s v c' : divide_error c s = (v, c') → cpu_wf c → cpu_wf c'.
Proof. unfold divide_error. intros [= <- <-] Hc. apply wf_take_interrupt. auto with cpu. Qed.
Hint Resolve wf_take_interrupt : cpu.
Hint Extern 1 (cpu_wf ?c') => match goal with E : divide_error _ _ = (_, c') |- _ => eapply wf_divide_error; [exact E|] end : cpu.

Lemma wf_string_once c sub w df s : cpu_wf c → cpu_wf (string_once c sub w df s).
Proof. intros Hc. unfold string_once. split_matches; auto 10 with cpu. Qed.
Hint Resolve wf_string_once : cpu.

Lemma update_ne f i v x : x ≠ i → update f i v x = f x.
Proof. intros. unfold update. by rewrite (proj2 (Z.eqb_neq x i)). Qed.
Lemma update_eq f i v : update f i v i = v.
Proof. unfold update. by rewrite Z.eqb_refl. Qed.

(** Arithmetic changes nothing but the flags. *)
Definition but_flags c := (r c, r_hi c, sreg c, ip c, flags_hi c, mem c, int_no c, insns c, port_context c).

Lemma but_set_flag c f b : but_flags (set_flag c f b) = but_flags c.
Proof. unfold set_flag. by destruct b. Qed.
Lemma but_alu_flags c a b d : but_flags (alu_flags c a b d) = but_flags c.
Proof. unfold alu_flags, set_af, set_of, set_cf. by rewrite !but_set_flag. Qed.
Lemma but_cpu_set_flags c v b : but_flags (cpu_set_flags c v b) = but_flags c.
Proof. unfold cpu_set_flags. by repeat case_match. Qed.

Lemma but_alu16 c op a b : but_flags (alu16 c op a b).2 = but_flags c.
Proof. unfold alu16. repeat case_match; simplify_eq; cbn [snd]; by rewrite but_cpu_set_flags, but_alu_flags. Qed.
Lemma but_alu8 c op a b : but_flags (alu8 c op a b).2 = but_flags c.
Proof. unfold alu8. repeat case_match; simplify_eq; cbn [snd]; by rewrite but_cpu_set_flags, but_alu_flags. Qed.
Lemma but_alu32 c op a b : but_flags (alu32 c op a b).2 = but_flags c.
Proof. unfold alu32. repeat case_match; simplify_eq; cbn [snd]; by rewrite but_cpu_set_flags, but_alu_flags. Qed.

Lemma but_r c c' : but_flags c' = but_flags c → r c' = r c.
Proof. by intros [= ? ? ? ? ? ? ? ? ?]. Qed.

Lemma r_alu16 c op a b : r (alu16 c op a b).2 = r c.
Proof. apply but_r, but_alu16. Qed.
Lemma r_alu8 c op a b : r (alu8 c op a b).2 = r c.
Proof. apply but_r, but_alu8. Qed.

Lemma r_put8 c n v i : i ≠ Z.land n 3 → r (put8 c n v) i = r c i.
Proof. intros. unfold put8. case_match; cbn [r set_r]; by apply update_ne. Qed.

(** A string instruction leaves CX to its loop. *)
Lemma string_once_cx c sub w df s : r (string_once c sub w df s) CX = r c CX.
Proof.
  unfold string_once. split_matches; cbn [r set_r]; rewrite ?update_ne by done; cbn [r set_r];
    rewrite ?update_ne by done; rewrite ?r_alu16, ?r_alu8, ?r_put8 by done; done.
Qed.

Lemma string_loop_total n c sub w df s rep :
  cpu_wf c → (if rep =? 0 then 0 < Z.of_nat n else 1 ≤ r c CX ≤ Z.of_nat n) →
  ∃ c', string_loop n c sub w df s rep = Ok c' ∧ cpu_wf c'.
Proof.
  revert c. induction n as [|n IH]; intros c Hc Hn; [destruct (rep =? 0); lia|]. cbn [string_loop].
  set (c1 := string_once c sub w df s). assert (cpu_wf c1) as Hc1 by (unfold c1; auto with cpu).
  assert (r c1 CX = r c CX) as Hcx by apply string_once_cx.
  destruct (rep =? 0) eqn:Erep; [eauto|]. rewrite Hcx. set (k := u16 (r c CX - 1)).
  assert (k = r c CX - 1) as Hk by (apply u16_small; pose proof (wf_r c Hc CX); unfold word in *; lia).
  assert (cpu_wf (set_r c1 CX k)) as Hc2 by auto with cpu.
  assert (k ≠ 0 → ∃ c', string_loop n (set_r c1 CX k) sub w df s rep = Ok c' ∧ cpu_wf c') as Hrec.
  { intros Hk0. apply IH; [done|]. cbn [r set_r]. rewrite update_eq, u16_small by (unfold k; apply u16_range). lia. }
  destruct (Z.eqb_spec k 0) as [|Hk0]; cbn [orb]; split_matches; eauto.
Qed.

Lemma do_string_total c op rep s : cpu_wf c → ∃ c', do_string c op rep s = Ok c' ∧ cpu_wf c'.
Proof.
  intros Hc. unfold do_string. destruct (truth rep && negb (truth (r c CX))) eqn:E; [eauto|].
  apply string_loop_total; [done|]. pose proof (wf_r c Hc CX). unfold word in *.
  destruct (Z.eqb_spec rep 0); [lia|]. rewrite truth_nonzero in E by done. simpl in E.
  apply negb_false_iff, truth_true_iff in E. lia.
Qed.

Lemma string32_loop_total n c op rep ov d :
  cpu_wf c → (if truth rep then 1 ≤ r c CX ≤ Z.of_nat n else 0 < Z.of_nat n) →
  ∃ v c', string32_loop n c op rep ov d = Ok (v, c') ∧ cpu_wf c'.
Proof.
  revert c. induction n as [|n IH]; intros c Hc Hn; [destruct (truth rep); lia|]. cbn [string32_loop].
  destruct (_ && (r c SI >? _)); [eauto|]. destruct (_ && (r c DI >? _)); [eauto|].
  set (value := if op =? 0xAB then _ else _). set (c1 := if op =? 0xAD then _ else _).
  set (c2 := if negb (op =? 0xAB) then _ else _). set (c3 := if negb (op =? 0xAD) then _ else _).
  assert (cpu_wf c1 ∧ r c1 CX = r c CX) as [H1 E1].
  { unfold c1. destruct (op =? 0xAD); [|split; [auto with cpu|done]]. split; [auto with cpu|].
    unfold cpu_put_reg32. cbn [r set_r set_r_hi]. by apply update_ne. }
  assert (cpu_wf c2 ∧ r c2 CX = r c CX) as [H2 E2].
  { unfold c2. destruct (negb (op =? 0xAB)); [|done]. split; [auto with cpu|]. cbn [r set_r]. by rewrite update_ne. }
  assert (cpu_wf c3 ∧ r c3 CX = r c CX) as [H3 E3].
  { unfold c3. destruct (negb (op =? 0xAD)); [|done]. split; [auto with cpu|]. cbn [r set_r]. by rewrite update_ne. }
  destruct (truth rep); cbn [andb]; [|eauto]. cbn [r set_r]. rewrite update_eq, E3.
  pose proof (wf_r c Hc CX) as Hcx. unfold word in Hcx. rewrite u16_small by lia.
  destruct (truth (r c CX - 1)) eqn:Et; [|eauto with cpu]. apply truth_true_iff in Et.
  apply IH; [auto with cpu|]. cbn [r set_r]. rewrite update_eq, u16_small by lia. lia.
Qed.

Lemma string32_total c op rep ov : cpu_wf c → ∃ v c', string32 c op rep ov = Ok (v, c') ∧ cpu_wf c'.
Proof.
  intros Hc. unfold string32. destruct (truth rep && negb (truth (r c CX))) eqn:E; [eauto|].
  apply string32_loop_total; [done|]. pose proof (wf_r c Hc CX). unfold word in *.
  destruct (truth rep); [|lia]. simpl in E. apply negb_false_iff, truth_true_iff in E. lia.
Qed.

(** ** Bit scans *)

Lemma shiftr_bit v i : 0 ≤ i → truth (Z.land (Z.shiftr v i) 1) = Z.testbit v i.
Proof.
  intros Hi. rewrite <- (Z.add_0_l i) at 2. rewrite <- Z.shiftr_spec by lia.
  change 1 with (Z.shiftl 1 0). by apply land_bit.
Qed.

Lemma lowest_bit_spec n v i :
  0 ≤ i → (∃ k, i ≤ k < i + Z.of_nat n ∧ Z.testbit v k = true) →
  ∃ k, lowest_bit n v i = Ok k ∧ i ≤ k < i + Z.of_nat n ∧ Z.testbit v k = true ∧
    ∀ j, i ≤ j < k → Z.testbit v j = false.
Proof.
  revert i. induction n as [|n IH]; intros i Hi (k & Hk & Hb); [lia|]. cbn [lowest_bit]. rewrite shiftr_bit by done.
  destruct (Z.testbit v i) eqn:Ei.
  - exists i. split; [done|]. split; [lia|]. split; [done|]. lia.
  - destruct (IH (i + 1)) as (k' & -> & Hk' & Hb' & Hlow); [lia|exists k; split; [|done]|].
    + destruct (decide (k = i)) as [->|]; [congruence|lia].
    + exists k'. split; [done|]. split; [lia|]. split; [done|]. intros j Hj.
      destruct (decide (j = i)) as [->|]; [done|]. apply Hlow. lia.
Qed.

Lemma highest_bit_spec n v i :
  Z.of_nat n = i + 1 → (∃ k, 0 ≤ k ≤ i ∧ Z.testbit v k = true) →
  ∃ k, highest_bit n v i = Ok k ∧ 0 ≤ k ≤ i ∧ Z.testbit v k = true ∧ ∀ j, k < j ≤ i → Z.testbit v j = false.
Proof.
  revert i. induction n as [|n IH]; intros i Hi (k & Hk & Hb); [lia|]. cbn [highest_bit]. rewrite shiftr_bit by lia.
  destruct (Z.testbit v i) eqn:Ei.
  - exists i. split; [done|]. split; [lia|]. split; [done|]. lia.
  - destruct (IH (i - 1)) as (k' & -> & Hk' & Hb' & Hhigh); [lia|exists k; split; [|done]|].
    + destruct (decide (k = i)) as [->|]; [congruence|lia].
    + exists k'. split; [done|]. split; [lia|]. split; [done|]. intros j Hj.
      destruct (decide (j = i)) as [->|]; [done|]. apply Hhigh. lia.
Qed.

Lemma some_bit v n : 0 < v < 2 ^ n → ∃ k, 0 ≤ k < n ∧ Z.testbit v k = true.
Proof.
  intros Hv. exists (Z.log2 v). split; [|apply Z.bit_log2; lia]. split; [apply Z.log2_nonneg|].
  apply Z.log2_lt_pow2; lia.
Qed.

Lemma get16_word c o : cpu_wf c → word (get16 c o).
Proof. intros Hc. unfold get16, rd16, mem_r16. case_match; [apply Hc|apply u16_range]. Qed.

(** ** The parts of the interpreter *)

Context (junk : Z).

Lemma op_scan_total c op ov : cpu_wf c → ∃ v c', op_scan junk c op ov = Ok (v, c') ∧ cpu_wf c'.
Proof.
  intros Hc. unfold op_scan. destruct (decode_over junk c ov) as [[rm rg] c1] eqn:E.
  assert (cpu_wf c1) as Hc1 by eauto with cpu. pose proof (get16_word c1 rm Hc1) as Hv. unfold word in Hv.
  destruct (Z.eqb_spec (get16 c1 rm) 0); [eauto with cpu|].
  destruct (some_bit (get16 c1 rm) 16) as (k & Hk & Hb); [lia|].
  destruct (op =? 0xBC).
  - destruct (lowest_bit_spec 16 (get16 c1 rm) 0) as (i & -> & _); [lia|exists k; split; [lia|done]|].
    cbn [mbind outcome_bind]. eauto 10 with cpu.
  - destruct (highest_bit_spec 16 (get16 c1 rm) 15) as (i & -> & _); [lia|exists k; split; [lia|done]|].
    cbn [mbind outcome_bind]. eauto 10 with cpu.
Qed.

Lemma wf_op_bit c op ov v c' : op_bit junk c op ov = (v, c') → cpu_wf c → cpu_wf c'.
Proof. unfold op_bit. wf_cases. Qed.
Lemma wf_op_cmpxchg c op ov v c' : op_cmpxchg junk c op ov = (v, c') → cpu_wf c → cpu_wf c'.
Proof. unfold op_cmpxchg. wf_cases. Qed.
Lemma wf_op_xadd c op ov v c' : op_xadd junk c op ov = (v, c') → cpu_wf c → cpu_wf c'.
Proof. unfold op_xadd. wf_cases. Qed.
Lemma wf_op_cpuid c : cpu_wf c → cpu_wf (op_cpuid c).
Proof. unfold op_cpuid. auto 10 with cpu. Qed.
Hint Resolve wf_op_cpuid : cpu.
Hint Extern 1 (cpu_wf ?c') => match goal with E : op_bit _ _ _ _ = (_, c') |- _ => eapply wf_op_bit; [exact E|] end : cpu.
Hint Extern 1 (cpu_wf ?c') => match goal with E : op_cmpxchg _ _ _ _ = (_, c') |- _ => eapply wf_op_cmpxchg; [exact E|] end : cpu.
Hint Extern 1 (cpu_wf ?c') => match goal with E : op_xadd _ _ _ _ = (_, c') |- _ => eapply wf_op_xadd; [exact E|] end : cpu.

(** An outcome that is a result with a state in range. *)
Definition good (o : outcome (cpu_stop * cpu D)) : Prop := ∃ v c', o = Ok (v, c') ∧ cpu_wf c'.

Lemma good_ok p : cpu_wf p.2 → good (Ok p).
Proof. destruct p. eexists _, _. eauto. Qed.

Lemma good_of_eq p (v : cpu_stop) c' : p = (v, c') → cpu_wf c' → good (Ok p).
Proof. intros ->. by eexists _, _. Qed.

(** Takes a body apart down to its results. *)
Ltac good_cases :=
  repeat match goal with
  | |- good (if ?b then _ else _) => destruct b
  | |- good (Ok (_, _)) => apply good_ok; cbn [snd]; split_matches
  | |- good (Ok ?p) => let E := fresh in destruct p eqn:E
  | |- good (let '_ := ?p in _) => let E := fresh in destruct p eqn:E
  end; split_matches; pair_eqs; cbn [fst snd]; try discriminate; try solve [eauto 12 with cpu].

Lemma op_0f_good c ov : cpu_wf c → good (op_0f junk c ov).
Proof.
  intros Hc. unfold op_0f. destruct (fetch8 c) as [op c0] eqn:E0. set (c1 := set_fault_opcode c0 op).
  assert (cpu_wf c1) as Hc1 by (unfold c1; eauto with cpu). clearbody c1. clear E0 Hc.
  good_cases; by apply op_scan_total.
Qed.

Hint Resolve op_0f_good : cpu.

Lemma wf_divide32 c d sg st v c' : divide32 c d sg st = (v, c') → cpu_wf c → cpu_wf c'.
Proof.
  unfold divide32. intros E Hc. repeat (case_match; pair_eqs; eauto with cpu).
Qed.
Hint Extern 1 (cpu_wf ?c') => match goal with E : divide32 _ _ _ _ = (_, c') |- _ => eapply wf_divide32; [exact E|] end : cpu.

Lemma wf_op32_form c op f c' : op32_form c op = (f, c') → cpu_wf c → cpu_wf c'.
Proof. unfold op32_form. intros E Hc. repeat (case_match; pair_eqs; eauto with cpu). Qed.

Lemma wf_op32_operand c op ext imm ov f c' : op32_operand junk c op ext imm ov = (f, c') → cpu_wf c → cpu_wf c'.
Proof.
  unfold op32_operand. intros E Hc. destruct (decode_over junk c ov) as [[rm rg] c1] eqn:Ed.
  assert (cpu_wf c1) by eauto with cpu. repeat (case_match; pair_eqs; eauto with cpu).
Qed.

Lemma wf_op32_group3 c rm rg b st v c' : op32_group3 c rm rg b st = (v, c') → cpu_wf c → cpu_wf c'.
Proof.
  unfold op32_group3. intros E Hc. cbv zeta in E. destruct (rg =? 0); [pair_eqs; auto with cpu|].
  destruct ((rg =? 2) || (rg =? 3)).
  - destruct (if rg =? 2 then _ else _) as [x c1] eqn:E1. destruct (rg =? 2); pair_eqs; eauto with cpu.
  - destruct (6 <=? rg); [eauto with cpu|]. pair_eqs. auto with cpu.
Qed.
Hint Extern 1 (cpu_wf ?c') => match goal with E : op32_form _ _ = (_, c') |- _ => eapply wf_op32_form; [exact E|] end : cpu.
Hint Extern 1 (cpu_wf ?c') => match goal with E : op32_operand _ _ _ _ _ _ = (_, c') |- _ => eapply wf_op32_operand; [exact E|] end : cpu.
Hint Extern 1 (cpu_wf ?c') => match goal with E : op32_group3 _ _ _ _ _ = (_, c') |- _ => eapply wf_op32_group3; [exact E|] end : cpu.

Lemma op32_0f_good c ext rm rg b ov : cpu_wf c → good (op32_0f junk c ext rm rg b ov).
Proof. intros Hc. unfold op32_0f. good_cases. Qed.
Hint Resolve op32_0f_good : cpu.

Lemma op32_switch_good c op ext rm rg b ov st : cpu_wf c → good (op32_switch junk c op ext rm rg b ov st).
Proof. intros Hc. unfold op32_switch. good_cases. Qed.
Hint Resolve op32_switch_good : cpu.

Lemma op32_exec_good c op ext m rm rg b ov st pu po : cpu_wf c → good (op32_exec junk c op ext m rm rg b ov st pu po).
Proof. intros Hc. unfold op32_exec. good_cases. Qed.
Hint Resolve op32_exec_good : cpu.

Lemma op32_good c op ov st : cpu_wf c → good (op32 junk c op ov st).
Proof.
  intros Hc. unfold op32. destruct (op32_form c op) as [[[[ext m] imm]|] c1] eqn:E1; [|apply good_ok; cbn [snd]; eauto with cpu].
  assert (cpu_wf c1) as Hc1 by eauto with cpu.
  destruct (if m then _ else _) as [[[[rm rg] imm']|] c2] eqn:E2.
  - assert (cpu_wf c2) as Hc2 by (destruct m; [eauto with cpu|by injection E2 as _ _ _ <-]).
    cbv zeta. repeat match goal with
    | |- good (Ok _) => by apply good_ok
    | |- good (op32_exec _ _ _ _ _ _ _ _ _ _ _ _) => apply op32_exec_good; auto with cpu
    | |- good (if ?b then _ else _) => destruct b
    end.
  - destruct m; [|discriminate E2]. apply good_ok. cbn [snd]. eauto with cpu.
Qed.

(** ** One-byte instructions *)

Lemma wf_step_alu_rm c op ov v c' : step_alu_rm junk c op ov = (v, c') → cpu_wf c → cpu_wf c'.
Proof. unfold step_alu_rm. wf_cases. Qed.
Lemma wf_step_alu_acc c op v c' : step_alu_acc c op = (v, c') → cpu_wf c → cpu_wf c'.
Proof. unfold step_alu_acc. wf_cases. Qed.
Lemma wf_step_reg c op v c' : step_reg c op = (v, c') → cpu_wf c → cpu_wf c'.
Proof. unfold step_reg. wf_cases. Qed.

Lemma wf_pusha c : cpu_wf c → cpu_wf (pusha c).
Proof. intros Hc. unfold pusha. apply (for_range_ind (λ _ c, cpu_wf c)); [lia|done|]. intros. auto with cpu. Qed.
Lemma wf_popa c : cpu_wf c → cpu_wf (popa c).
Proof.
  intros Hc. unfold popa. apply (for_range_ind (λ _ c, cpu_wf c)); [lia|done|]. intros i s _ Hs.
  destruct (pop16 s) as [x s'] eqn:E. assert (cpu_wf s') by eauto with cpu. case_match; auto with cpu.
Qed.
Lemma wf_enter_frames n c : cpu_wf c → cpu_wf (enter_frames n c).
Proof. revert c. induction n as [|n IH]; intros c Hc; simpl; [done|]. apply IH. auto with cpu. Qed.
Hint Resolve wf_pusha wf_popa wf_enter_frames : cpu.

(** A part of the [switch]: what it returns is in range. *)
Definition good_part (o : option (cpu_stop * cpu D)) : Prop := ∀ v c', o = Some (v, c') → cpu_wf c'.

Lemma good_part_some v c : cpu_wf c → good_part (Some (v, c)).
Proof. intros Hc v' c' [= <- <-]. done. Qed.
Lemma good_part_none : good_part None.
Proof. by intros v c'. Qed.
Hint Resolve good_part_none : cpu.

Ltac part_cases :=
  repeat match goal with
  | |- good_part (if ?b then _ else _) => destruct b
  | |- good_part None => apply good_part_none
  | |- good_part (Some (_, _)) => apply good_part_some
  | |- good_part (Some ?p) => let E := fresh in destruct p eqn:E
  | |- good_part (let '_ := ?p in _) => let E := fresh in destruct p eqn:E
  | |- cpu_wf (if ?b then _ else _) => destruct b
  end; try solve [eauto 12 with cpu].

Lemma step_stack_good c op : cpu_wf c → good_part (step_stack c op).
Proof. intros Hc. unfold step_stack. part_cases. Qed.
Lemma step_group1_good c op ov : cpu_wf c → good_part (step_group1 junk c op ov).
Proof. intros Hc. unfold step_group1. part_cases. Qed.
Lemma step_mov_good c op ov : cpu_wf c → good_part (step_mov junk c op ov).
Proof. intros Hc. unfold step_mov. part_cases. Qed.
Lemma step_misc_good c op : cpu_wf c → good_part (step_misc c op).
Proof. intros Hc. unfold step_misc. part_cases. Qed.
Lemma step_decimal_good c op : cpu_wf c → good_part (step_decimal c op).
Proof. intros Hc. unfold step_decimal. part_cases. Qed.
Lemma step_acc_good c op ov : cpu_wf c → good_part (step_acc c op ov).
Proof. intros Hc. unfold step_acc. part_cases. Qed.
Lemma step_return_good c op ov : cpu_wf c → good_part (step_return junk c op ov).
Proof. intros Hc. unfold step_return. part_cases. Qed.
Lemma step_int_good c op ov : cpu_wf c → good_part (step_int c op ov).
Proof. intros Hc. unfold step_int. part_cases. Qed.
Lemma step_shift_good c op ov st : cpu_wf c → good_part (step_shift junk c op ov st).
Proof.
  intros Hc. unfold step_shift. destruct (among op _); [|auto with cpu].
  destruct (decode_over junk c ov) as [[rm rg] c1] eqn:E. assert (cpu_wf c1) by eauto with cpu.
  destruct (rg =? 6); [apply good_part_some; auto with cpu|].
  destruct (if among op _ then _ else _) as [k c2] eqn:E2.
  assert (cpu_wf c2) by (split_matches; pair_eqs; eauto with cpu). part_cases.
Qed.

Lemma wf_group3_mul c rm rg w : cpu_wf c → cpu_wf (group3_mul c rm rg w).
Proof. intros Hc. unfold group3_mul. destruct (rg =? 4), w; auto 10 with cpu. Qed.
Lemma wf_group3_div c rm rg w st v c' : group3_div c rm rg w st = (v, c') → cpu_wf c → cpu_wf c'.
Proof.
  unfold group3_div. intros E Hc. destruct (rg =? 6), w;
    repeat match type of E with (if ?b then _ else _) = _ => destruct b | (let _ := _ in _) = _ => cbv zeta in E end;
    try (by eauto with cpu); injection E as _ <-; auto 10 with cpu.
Qed.
Hint Resolve wf_group3_mul : cpu.
Hint Extern 1 (cpu_wf ?c') => match goal with E : group3_div _ _ _ _ _ = (_, c') |- _ => eapply wf_group3_div; [exact E|] end : cpu.

Lemma step_group3_good c op ov st : cpu_wf c → good_part (step_group3 junk c op ov st).
Proof. intros Hc. unfold step_group3. part_cases. Qed.
Lemma step_flags_good c op : cpu_wf c → good_part (step_flags c op).
Proof. intros Hc. unfold step_flags. part_cases. Qed.
Lemma step_group5_good c op ov : cpu_wf c → good_part (step_group5 junk c op ov).
Proof. intros Hc. unfold step_group5. part_cases. Qed.

(** ** The callbacks keep the state in range *)

Context (port_in8 : option (cpu D → Z → Z * Z * cpu D)) (port_out8 : option (cpu D → Z → Z → Z * cpu D)).
Context (irq_ack : option (cpu D → Z * cpu D)).

Definition callbacks_ok : Prop :=
  (∀ f c p, port_in8 = Some f → cpu_wf c → cpu_wf (f c p).2) ∧
  (∀ f c p v, port_out8 = Some f → cpu_wf c → cpu_wf (f c p v).2) ∧
  (∀ f c, irq_ack = Some f → cpu_wf c → cpu_wf (f c).2).

Context (Hcb : callbacks_ok).

Lemma step_jump_good c op : cpu_wf c → good_part (step_jump port_in8 port_out8 c op).
Proof.
  intros Hc. destruct Hcb as (Hin & Hout & _). unfold step_jump.
  repeat match goal with |- good_part (if ?b then _ else _) => destruct b end; try solve [part_cases].
  - destruct port_in8 as [f|]; [|part_cases]. specialize (Hin f c (if op =? 0xE4 then rd8 c (sreg c 1) (ip c) else r c DX) eq_refl Hc).
    destruct (f c _) as [[rc v] c1]. simpl in Hin. destruct (op =? 0xE4); part_cases.
  - destruct port_out8 as [f|]; [|part_cases]. specialize (Hout f c (if op =? 0xE6 then rd8 c (sreg c 1) (ip c) else r c DX) (u8 (r c AX)) eq_refl Hc).
    destruct (f c _ _) as [rc c1]. simpl in Hout. destruct (op =? 0xE6); part_cases.
Qed.

Lemma first_of_good l other : (∀ o, In o l → good_part o) → cpu_wf other.2 → cpu_wf (first_of l other).2.
Proof.
  intros Hl Ho. unfold first_of. induction l as [|o l IH]; simpl; [done|].
  destruct o as [[v c]|]; simpl; [by apply (Hl _ (or_introl eq_refl) v)|]. apply IH. intros o Ho'. apply Hl. by right.
Qed.

Lemma one_byte_wf c op ov st : cpu_wf c → cpu_wf (one_byte junk port_in8 port_out8 c op ov st).2.
Proof.
  intros Hc. unfold one_byte. apply first_of_good; [|done]. intros o Ho.
  repeat (destruct Ho as [<-|Ho]); [by apply step_stack_good|by apply step_group1_good|by apply step_mov_good
    |by apply step_misc_good|by apply step_decimal_good|by apply step_acc_good|by apply step_return_good
    |by apply step_int_good|by apply step_shift_good|by apply step_jump_good|by apply step_group3_good
    |by apply step_flags_good|by apply step_group5_good|done].
Qed.

Lemma first_pending_wf n c i v c' : first_pending n c i = (v, c') → cpu_wf c → cpu_wf c'.
Proof.
  revert i. induction n as [|n IH]; intros i; simpl; [by intros [= _ <-]|].
  destruct (truth _); [intros [= _ <-]; auto with cpu|apply IH].
Qed.

Lemma check_irq_wf c b c' : check_irq irq_ack c = (b, c') → cpu_wf c → cpu_wf c'.
Proof.
  destruct Hcb as (_ & _ & Hack). unfold check_irq. intros E Hc. cbv zeta in E.
  set (c0 := if truth (irq_shadow c) then _ else c) in E.
  assert (cpu_wf c0) as Hc0 by (unfold c0; destruct (truth _); auto with cpu). clearbody c0.
  destruct (_ && _); [|by injection E as _ <-].
  destruct (match irq_ack with Some f => f c0 | None => _ end) as [v c1] eqn:E1.
  assert (cpu_wf c1) as Hc1.
  { destruct irq_ack as [f|]; [|by injection E1 as _ <-]. specialize (Hack f c0 eq_refl Hc0). by rewrite E1 in Hack. }
  destruct (if _ && _ then _ else _) as [v2 c2] eqn:E2.
  assert (cpu_wf c2) as Hc2 by (destruct (_ && _); [by eapply first_pending_wf|by injection E2 as _ <-]).
  destruct (0 <=? v2); injection E as _ <-; auto with cpu.
Qed.

Lemma read_prefixes_wf n c p st o c' : read_prefixes n c p st = (o, c') → cpu_wf c → cpu_wf c'.
Proof.
  revert c p. induction n as [|n IH]; intros c p; cbn [read_prefixes]; destruct (fetch8 c) as [op c1] eqn:E;
    intros E' Hc; assert (cpu_wf c1) by eauto with cpu.
  - injection E' as _ <-. auto with cpu.
  - repeat (case_match; [by eapply IH|]). by injection E' as _ <-.
Qed.

Lemma step32_good c op rep ov st : cpu_wf c → good (step32 junk c op rep ov st).
Proof.
  intros Hc. unfold step32.
  assert (good (if among op [0xA5; 0xAB; 0xAD] then string32 c op rep ov
    else if truth rep then Ok (CPU_FAULT, c) else op32 junk c op ov st)) as (v & c' & -> & Hc').
  { destruct (among _ _).
    - destruct (string32_total c op rep ov Hc) as (v & c' & -> & Hc'). by apply good_ok.
    - destruct (truth rep); [by apply good_ok|by apply op32_good]. }
  simpl. apply good_ok. cbn [snd]. case_decide; auto with cpu.
Qed.

Lemma step16_good c op rep ov st : cpu_wf c → good (step16 junk port_in8 port_out8 c op rep ov st).
Proof.
  intros Hc. unfold step16. destruct (_ || _).
  { destruct (do_string_total c op rep (if 0 <=? ov then ov else sreg c 3) Hc) as (c' & -> & Hc'). by apply good_ok. }
  repeat match goal with |- good (if ?b then _ else _) => destruct b end; try by apply good_ok.
  - by apply op_0f_good.
  - destruct (step_alu_rm _ _ _ _) eqn:E. apply good_ok. by eapply wf_step_alu_rm.
  - destruct (step_alu_acc _ _) eqn:E. apply good_ok. by eapply wf_step_alu_acc.
  - destruct (step_reg _ _) eqn:E. apply good_ok. by eapply wf_step_reg.
  - by apply good_ok, one_byte_wf.
Qed.

Lemma cpu_step_good c : cpu_wf c → good (cpu_step junk port_in8 port_out8 irq_ack c).
Proof.
  intros Hc. unfold cpu_step. destruct (check_irq irq_ack c) as [b c0] eqn:E0.
  assert (cpu_wf c0) as Hc0 by (by eapply check_irq_wf). destruct b; [by apply good_ok|].
  destruct (read_prefixes _ _ _ _) as [[[op p]|] c1] eqn:E1;
    assert (cpu_wf c1) as Hc1 by (by eapply read_prefixes_wf); [|by apply good_ok].
  destruct (p_operand32 p); [apply step32_good|apply step16_good]; auto with cpu.
Qed.
End wf2.

(** C16: The interpreter is total and type safe: whatever bytes the guest
    executes, and for any callbacks that keep the state in range, a step
    ends (REP loops, division and bit scans included) with one of the stop
    codes, and leaves every register, flag word and memory byte in the range
    of its type with no store outside the megabyte of guest memory. *)
Theorem cpu_step_total {D} (junk : Z) port_in8 port_out8 irq_ack (c : cpu D) :
  callbacks_ok port_in8 port_out8 irq_ack → cpu_wf c →
  ∃ stop c', cpu_step junk port_in8 port_out8 irq_ack c = Ok (stop, c') ∧ cpu_wf c'.
Proof. intros Hcb Hc. by apply cpu_step_good. Qed.

(** The state after [cpu_init], with a callback that acknowledges vector 8. *)
Lemma cpu_step_total_witness :
  ∃ stop c', cpu_step 0 None None (Some (λ c : cpu Z, (8, c))) (cpu_init 0) = Ok (stop, c') ∧ cpu_wf c'.
Proof.
  apply cpu_step_total; [|apply wf_cpu_init].
  split_and!; [discriminate|discriminate|]. intros f c [= <-] Hc. exact Hc.
Defined.
