(* ===== verification/CpuAlu.v ===== *)
(** * What the arithmetic and the conditions of the dosrun processor compute

    The results and flags of [alu8], [alu16] and [alu32] against their
    definition on integers, and the sixteen conditions of [cond] after a
    comparison. *)
From S2P Require Import Prelude Cpu CpuWf.
Local Open Scope Z_scope.

(** ** Specification *)

(** Result of an operation, before it is cut to its width. *)
Definition alu_exact (op a b cin : Z) : Z :=
  if op =? ADD then a + b else if op =? ADC then a + b + cin
  else if op =? SBB then a - b - cin
  else if (op =? SUB) || (op =? CMP) then a - b
  else if op =? OR then Z.lor a b else if op =? AND then Z.land a b else Z.lxor a b.

Definition is_add (op : Z) : bool := (op =? ADD) || (op =? ADC).
Definition is_sub (op : Z) : bool := (op =? SUB) || (op =? SBB) || (op =? CMP).

(** The carry that takes part in the operation. *)
Definition carry_in (op cin : Z) : Z := if (op =? ADC) || (op =? SBB) then cin else 0.

(** Carry or borrow out of the low [w] bits. *)
Definition carry_out (w op a b cin : Z) : bool :=
  if is_add op then 2 ^ w <=? a mod 2 ^ w + b mod 2 ^ w + carry_in op cin
  else if is_sub op then a mod 2 ^ w <? b mod 2 ^ w + carry_in op cin else false.

(** Whether the signed result does not fit [w] bits. *)
Definition overflow (w op a b cin : Z) : bool :=
  let x := if is_add op then signed w a + signed w b + carry_in op cin
           else if is_sub op then signed w a - signed w b - carry_in op cin else 0 in
  negb ((- 2 ^ (w - 1) <=? x) && (x <? 2 ^ (w - 1))).

(** Whether the low byte has an even number of ones. *)
Definition even_ones (x : Z) : bool :=
  Z.even (foldr (λ i n, b2z (Z.testbit x i) + n) 0 [0; 1; 2; 3; 4; 5; 6; 7]).

(** The three widths of the code. *)
Definition alu {D} (w : Z) (c : cpu D) (op a b : Z) : Z * cpu D :=
  if w =? 8 then alu8 c op a b else if w =? 16 then alu16 c op a b else alu32 c op a b.

(** What the operation leaves: the result, the six flags, the rest. *)
Record alu_spec {D} (w op a b : Z) (c : cpu D) (x : Z) (c' : cpu D) : Prop := {
  spec_result : x = alu_exact op a b (b2z (flag c FLAG_CF)) mod 2 ^ w;
  spec_cf : flag c' FLAG_CF = carry_out w op a b (b2z (flag c FLAG_CF));
  spec_of : flag c' FLAG_OF = overflow w op a b (b2z (flag c FLAG_CF));
  spec_af : flag c' FLAG_AF = carry_out 4 op a b (b2z (flag c FLAG_CF));
  spec_zf : flag c' FLAG_ZF = (x =? 0);
  spec_sf : flag c' FLAG_SF = (signed w x <? 0);
  spec_pf : flag c' FLAG_PF = even_ones x;
  spec_if : flag c' FLAG_IF = flag c FLAG_IF;
  spec_df : flag c' FLAG_DF = flag c FLAG_DF;
  spec_tf : flag c' FLAG_TF = flag c FLAG_TF;
  spec_rest : but_flags c' = but_flags c
}.

(** ** Single flags *)

(** A flag is a power of two. *)
Ltac flags_pow2 :=
  change FLAG_CF with (2 ^ 0); change FLAG_PF with (2 ^ 2); change FLAG_AF with (2 ^ 4);
  change FLAG_ZF with (2 ^ 6); change FLAG_SF with (2 ^ 7); change FLAG_TF with (2 ^ 8);
  change FLAG_IF with (2 ^ 9); change FLAG_DF with (2 ^ 10); change FLAG_OF with (2 ^ 11).

Section flags.
Context {D : Type}.
Implicit Types c : cpu D.

Lemma flag_testbit c k : 0 ≤ k → flag c (2 ^ k) = Z.testbit (flags c) k.
Proof. intros Hk. unfold flag. rewrite <- (Z.shiftl_1_l k). by apply land_bit. Qed.

Lemma flag_set_flags c v k : 0 ≤ k < 16 → flag (set_flags c v) (2 ^ k) = Z.testbit v k.
Proof. intros Hk. rewrite flag_testbit by lia. simpl. unfold u16. apply Z.mod_pow2_bits_low. lia. Qed.

Lemma flag_set_flag_eq c b k : 0 ≤ k < 16 → flag (set_flag c (2 ^ k) b) (2 ^ k) = b.
Proof.
  intros Hk. unfold set_flag. destruct b; rewrite flag_set_flags by lia.
  - rewrite Z.lor_spec, Z.pow2_bits_true by lia. apply orb_true_r.
  - rewrite Z.land_spec, Z.lnot_spec, Z.pow2_bits_true by lia. apply andb_false_r.
Qed.

Lemma flag_set_flag_ne c b j k : 0 ≤ j → 0 ≤ k < 16 → j ≠ k → flag (set_flag c (2 ^ j) b) (2 ^ k) = flag c (2 ^ k).
Proof.
  intros Hj Hk Hjk. unfold set_flag. destruct b; rewrite flag_set_flags, (flag_testbit c) by lia.
  - rewrite Z.lor_spec, Z.pow2_bits_false by lia. apply orb_false_r.
  - rewrite Z.land_spec, Z.lnot_spec, Z.pow2_bits_false by lia. apply andb_true_r.
Qed.

(** [alu_flags] sets CF, OF and AF. *)
Lemma flag_alu_flags c cf of_ af k :
  0 ≤ k < 16 →
  flag (alu_flags c cf of_ af) (2 ^ k) =
    if k =? 0 then cf else if k =? 11 then of_ else if k =? 4 then af else flag c (2 ^ k).
Proof.
  intros Hk. unfold alu_flags, set_af, set_of, set_cf.
  change FLAG_AF with (2 ^ 4). change FLAG_OF with (2 ^ 11). change FLAG_CF with (2 ^ 0).
  repeat case_if; subst; repeat first [rewrite flag_set_flag_eq by lia | rewrite flag_set_flag_ne by lia]; done.
Qed.

Lemma parity_bit v : 0 ≤ v < 2 ^ 8 → parity v = if even_ones v then FLAG_PF else 0.
Proof.
  intros Hv. assert (forallb (λ v, parity v =? if even_ones v then FLAG_PF else 0) (seqZ 0 256) = true) as H
    by (vm_compute; reflexivity).
  rewrite forallb_forall in H. apply Z.eqb_eq, H. apply list_elem_of_In, elem_of_seqZ. lia.
Qed.

Lemma parity_testbit v k : 0 ≤ v < 2 ^ 8 → 0 ≤ k → Z.testbit (parity v) k = (k =? 2) && even_ones v.
Proof.
  intros Hv Hk. rewrite parity_bit by done. destruct (even_ones v).
  - change FLAG_PF with (2 ^ 2). rewrite Z.pow2_bits_eqb by lia. rewrite andb_true_r. apply Z.eqb_sym.
  - by rewrite Z.bits_0, andb_false_r.
Qed.

Lemma even_ones_low x : even_ones (u8 x) = even_ones x.
Proof. unfold even_ones, u8. cbn [foldr]. by rewrite !Z.mod_pow2_bits_low by lia. Qed.

Lemma flag_lor c v k : 0 ≤ k < 16 → flag (set_flags c (Z.lor (flags c) v)) (2 ^ k) = flag c (2 ^ k) || Z.testbit v k.
Proof. intros Hk. by rewrite flag_set_flags, Z.lor_spec, <- flag_testbit by lia. Qed.

(** The width of an operation. *)
Definition width (w : Z) : Prop := w = 8 ∨ w = 16 ∨ w = 32.

Lemma flag_cpu_set_flags c v w k :
  width w → 0 ≤ k < 16 →
  flag (cpu_set_flags c v w) (2 ^ k) =
    if k =? 2 then even_ones (v mod 2 ^ w)
    else if k =? 6 then v mod 2 ^ w =? 0
    else if k =? 7 then Z.testbit (v mod 2 ^ w) (w - 1)
    else flag c (2 ^ k).
Proof.
  intros Hw Hk. unfold cpu_set_flags.
  set (x := Z.land (u32 v) _).
  assert (x = v mod 2 ^ w) as ->.
  { unfold x, u32. destruct Hw as [-> | [-> | ->]]; cbn [Z.eqb Pos.eqb].
    - change 0xFF with (2 ^ 8 - 1). rewrite land_ones_mod by lia. dlia.
    - change 0xFFFF with (2 ^ 16 - 1). rewrite land_ones_mod by lia. dlia.
    - change 0xFFFFFFFF with (2 ^ 32 - 1). rewrite land_ones_mod by lia. dlia. }
  generalize (v mod 2 ^ w) as x. intros x.
  assert (∀ s, s = (if w =? 8 then 0x80 else if w =? 16 then 0x8000 else 0x80000000) →
    truth (Z.land x s) = Z.testbit x (w - 1)) as Hs.
  { intros s ->. rewrite <- (land_bit x (w - 1)) by (destruct Hw as [-> | [-> | ->]]; lia).
    by destruct Hw as [-> | [-> | ->]]. }
  rewrite (Hs _ eq_refl). clear Hs.
  set (c1 := set_flags c _).
  assert (∀ j, 0 ≤ j < 16 → flag c1 (2 ^ j) = flag c (2 ^ j) && negb ((j =? 2) || (j =? 6) || (j =? 7))) as H1.
  { intros j Hj. unfold c1. rewrite flag_set_flags, flag_testbit by lia. rewrite Z.land_spec, Z.lnot_spec, !Z.lor_spec by lia.
    change FLAG_SF with (2 ^ 7). change FLAG_ZF with (2 ^ 6). change FLAG_PF with (2 ^ 2).
    rewrite !Z.pow2_bits_eqb by lia. f_equal. rewrite (Z.eqb_sym 7), (Z.eqb_sym 6), (Z.eqb_sym 2). f_equal.
    by destruct (j =? 7), (j =? 6), (j =? 2). }
  clearbody c1. clear Hw.
  rewrite flag_lor, parity_testbit, even_ones_low by (lia || apply u8_range).
  change FLAG_SF with (2 ^ 7). change FLAG_ZF with (2 ^ 6).
  destruct (x =? 0), (Z.testbit x (w - 1)); rewrite ?flag_lor, ?Z.pow2_bits_eqb, H1 by lia;
    destruct (k =? 2) eqn:?, (k =? 6) eqn:?, (k =? 7) eqn:?; zbool; try lia;
    rewrite ?(proj2 (Z.eqb_eq _ _)), ?(proj2 (Z.eqb_neq _ _)) by lia;
    cbn [andb orb negb]; rewrite ?andb_false_r, ?andb_true_r, ?orb_false_r; try done.
Qed.

(** ** Carries as bits *)

Lemma width_pos w : width w → 1 ≤ w ∧ 0 < 2 ^ (w - 1) ∧ 2 ^ w = 2 * 2 ^ (w - 1).
Proof. intros [-> | [-> | ->]]; lia. Qed.

Lemma top_bit w x : width w → Z.testbit x (w - 1) = (2 ^ (w - 1) <=? x mod 2 ^ w).
Proof.
  intros Hw. destruct (width_pos w Hw) as (H1 & H2 & H3).
  rewrite <- (Z.mod_pow2_bits_low x w) by lia. set (y := x mod 2 ^ w).
  assert (0 ≤ y < 2 ^ w) as Hy by (apply Z.mod_pos_bound; lia). rewrite Z.testbit_odd, Z.shiftr_div_pow2 by lia.
  destruct (2 ^ (w - 1) <=? y) eqn:E; zbool.
  - rewrite <- (Z.div_unique y (2 ^ (w - 1)) 1 (y - 2 ^ (w - 1))) by lia. done.
  - rewrite Z.div_small by lia. done.
Qed.

(** One round of wrap-around. *)
Lemma mod_cases m s : 0 < m → - m ≤ s < 2 * m →
  s mod m = s + m ∧ s < 0 ∨ s mod m = s ∧ 0 ≤ s < m ∨ s mod m = s - m ∧ m ≤ s.
Proof.
  intros Hm Hs. destruct (decide (s < 0)); [left|destruct (decide (s < m)); right; [left|right]]; (split; [|lia]).
  - symmetry. apply (Z.mod_unique _ _ (-1)); lia.
  - apply Z.mod_small. lia.
  - symmetry. apply (Z.mod_unique _ _ 1); lia.
Qed.

Section overflow.
Context (w a b ci x : Z) (Hw : width w) (Ha : 0 ≤ a < 2 ^ w) (Hb : 0 ≤ b < 2 ^ w) (Hci : 0 ≤ ci ≤ 1).

Lemma add_overflow :
  x mod 2 ^ w = (a + b + ci) mod 2 ^ w →
  xorb (Z.testbit a (w - 1)) (Z.testbit x (w - 1)) && xorb (Z.testbit b (w - 1)) (Z.testbit x (w - 1)) =
  negb ((- 2 ^ (w - 1) <=? signed w a + signed w b + ci) && (signed w a + signed w b + ci <? 2 ^ (w - 1))).
Proof using Type*.
  intros E. destruct (width_pos w Hw) as (? & ? & Hm). rewrite !(top_bit w), E by done.
  unfold signed. rewrite !(Z.mod_small a), !(Z.mod_small b) by done. rewrite Hm in *. clear E Hm Hw.
  generalize dependent (2 ^ (w - 1)). intros h ? ? ?.
  destruct (mod_cases (2 * h) (a + b + ci)) as [[-> ?] | [[-> ?] | [-> ?]]]; [lia..| | |]; compare_all.
Qed.

Lemma sub_overflow :
  x mod 2 ^ w = (a - b - ci) mod 2 ^ w →
  xorb (Z.testbit a (w - 1)) (Z.testbit b (w - 1)) && xorb (Z.testbit a (w - 1)) (Z.testbit x (w - 1)) =
  negb ((- 2 ^ (w - 1) <=? signed w a - signed w b - ci) && (signed w a - signed w b - ci <? 2 ^ (w - 1))).
Proof using Type*.
  intros E. destruct (width_pos w Hw) as (? & ? & Hm). rewrite !(top_bit w), E by done.
  unfold signed. rewrite !(Z.mod_small a), !(Z.mod_small b) by done. rewrite Hm in *. clear E Hm Hw.
  generalize dependent (2 ^ (w - 1)). intros h ? ? ?.
  destruct (mod_cases (2 * h) (a - b - ci)) as [[-> ?] | [[-> ?] | [-> ?]]]; [lia..| | |]; compare_all.
Qed.
End overflow.

(** Bit 4 of a number modulo a larger power of two. *)
Lemma bit4_mod w x : width w → Z.testbit x 4 = Z.odd (x mod 2 ^ w / 16).
Proof.
  intros Hw. assert (4 < w) by (destruct Hw as [-> | [-> | ->]]; lia).
  rewrite <- (Z.mod_pow2_bits_low x w) by lia. by rewrite Z.testbit_odd, Z.shiftr_div_pow2 by lia.
Qed.

Lemma odd_16 x q r : x = 16 * q + r → 0 ≤ r < 16 → Z.odd (x / 16) = Z.odd q.
Proof. intros -> Hr. f_equal. symmetry. apply (Z.div_unique _ _ _ r); lia. Qed.

Lemma testbit_4 x : Z.testbit x 4 = Z.odd (x / 16).
Proof. by rewrite Z.testbit_odd, Z.shiftr_div_pow2 by lia. Qed.

Lemma same_bit4 w x y : width w → x mod 2 ^ w = y mod 2 ^ w → Z.testbit x 4 = Z.testbit y 4.
Proof. intros Hw E. by rewrite !(bit4_mod w), E. Qed.

Lemma add_aux a b ci : 0 ≤ ci ≤ 1 →
  xorb (xorb (Z.testbit a 4) (Z.testbit b 4)) (Z.testbit (a + b + ci) 4) = (2 ^ 4 <=? a mod 2 ^ 4 + b mod 2 ^ 4 + ci).
Proof.
  intros Hci. rewrite !testbit_4. change (2 ^ 4) with 16.
  pose proof (Z.mod_pos_bound a 16). pose proof (Z.mod_pos_bound b 16).
  pose proof (Z.div_mod a 16). pose proof (Z.div_mod b 16).
  destruct (Z.leb_spec 16 (a mod 16 + b mod 16 + ci)).
  - rewrite (odd_16 (a + b + ci) (a / 16 + b / 16 + 1) (a mod 16 + b mod 16 + ci - 16)) by lia.
    rewrite !Z.odd_add. by destruct (Z.odd (a / 16)), (Z.odd (b / 16)).
  - rewrite (odd_16 (a + b + ci) (a / 16 + b / 16) (a mod 16 + b mod 16 + ci)) by lia.
    rewrite !Z.odd_add. by destruct (Z.odd (a / 16)), (Z.odd (b / 16)).
Qed.

Lemma sub_aux a b ci : 0 ≤ ci ≤ 1 →
  xorb (xorb (Z.testbit a 4) (Z.testbit b 4)) (Z.testbit (a - b - ci) 4) = (a mod 2 ^ 4 <? b mod 2 ^ 4 + ci).
Proof.
  intros Hci. rewrite !testbit_4. change (2 ^ 4) with 16.
  pose proof (Z.mod_pos_bound a 16). pose proof (Z.mod_pos_bound b 16).
  pose proof (Z.div_mod a 16). pose proof (Z.div_mod b 16).
  destruct (Z.ltb_spec (a mod 16) (b mod 16 + ci)).
  - rewrite (odd_16 (a - b - ci) (a / 16 - b / 16 - 1) (a mod 16 - b mod 16 - ci + 16)) by lia.
    rewrite !Z.odd_sub. by destruct (Z.odd (a / 16)), (Z.odd (b / 16)).
  - rewrite (odd_16 (a - b - ci) (a / 16 - b / 16) (a mod 16 - b mod 16 - ci)) by lia.
    rewrite !Z.odd_sub. by destruct (Z.odd (a / 16)), (Z.odd (b / 16)).
Qed.

(** ** The operations *)

(** The end of every operation: [x] is any representative of the result. *)
Lemma alu_spec_of w op a b c x cf of_ af :
  let cin := b2z (flag c FLAG_CF) in
  width w → x mod 2 ^ w = alu_exact op a b cin mod 2 ^ w →
  cf = carry_out w op a b cin → of_ = overflow w op a b cin → af = carry_out 4 op a b cin →
  alu_spec w op a b c (x mod 2 ^ w) (cpu_set_flags (alu_flags c cf of_ af) x w).
Proof.
  intros cin Hw E -> -> ->. assert (2 ^ w ≠ 0) by (destruct (width_pos w Hw); lia).
  split; fold cin; flags_pow2; rewrite ?(flag_cpu_set_flags _ _ w) by (done || lia); cbn [Z.eqb Pos.eqb];
    rewrite ?flag_alu_flags by lia; try done.
  - rewrite (top_bit w) by done. unfold signed. rewrite !Z.mod_mod by done.
    destruct (width_pos w Hw) as (? & ? & ?). pose proof (Z.mod_pos_bound x (2 ^ w)).
    compare_all.
  - by rewrite but_cpu_set_flags, but_alu_flags.
Qed.

Lemma b2z_range b : 0 ≤ b2z b ≤ 1.
Proof. destruct b; simpl; lia. Qed.

(** The bit tests of the code. *)
Lemma truth_bit x m k : 0 ≤ k → m = 2 ^ k → truth (Z.land x m) = Z.testbit x k.
Proof. intros Hk ->. rewrite <- Z.shiftl_1_l. by apply land_bit. Qed.

Lemma add_case w c op a b x cf ci :
  width w → 0 ≤ a < 2 ^ w → 0 ≤ b < 2 ^ w → is_add op = true → ci = carry_in op (b2z (flag c FLAG_CF)) →
  x mod 2 ^ w = (a + b + ci) mod 2 ^ w → cf = (2 ^ w <=? a + b + ci) →
  alu_spec w op a b c (x mod 2 ^ w) (cpu_set_flags (alu_flags c cf
    (xorb (Z.testbit a (w - 1)) (Z.testbit x (w - 1)) && xorb (Z.testbit b (w - 1)) (Z.testbit x (w - 1)))
    (xorb (xorb (Z.testbit a 4) (Z.testbit b 4)) (Z.testbit x 4))) x w).
Proof.
  intros Hw Ha Hb Ho Hci Hx ->. pose proof (b2z_range (flag c FLAG_CF)).
  assert (0 ≤ ci ≤ 1) by (subst ci; unfold carry_in; case_if; lia).
  assert (alu_exact op a b (b2z (flag c FLAG_CF)) = a + b + ci) as E.
  { rewrite Hci. unfold alu_exact, carry_in, is_add in *.
    destruct (op =? ADD) eqn:?, (op =? ADC) eqn:?; zbool; subst; try discriminate; simpl; lia. }
  apply alu_spec_of; [done|by rewrite E|..].
  - unfold carry_out. rewrite Ho, <- Hci, !(Z.mod_small _ (2 ^ w)) by done. done.
  - unfold overflow. rewrite Ho, <- Hci. by apply add_overflow.
  - unfold carry_out. rewrite Ho, <- Hci, (same_bit4 w x (a + b + ci)) by done. by apply add_aux.
Qed.

Lemma sub_case w c op a b x cf ci :
  width w → 0 ≤ a < 2 ^ w → 0 ≤ b < 2 ^ w → is_sub op = true → ci = carry_in op (b2z (flag c FLAG_CF)) →
  x mod 2 ^ w = (a - b - ci) mod 2 ^ w → cf = (a <? b + ci) →
  alu_spec w op a b c (x mod 2 ^ w) (cpu_set_flags (alu_flags c cf
    (xorb (Z.testbit a (w - 1)) (Z.testbit b (w - 1)) && xorb (Z.testbit a (w - 1)) (Z.testbit x (w - 1)))
    (xorb (xorb (Z.testbit a 4) (Z.testbit b 4)) (Z.testbit x 4))) x w).
Proof.
  intros Hw Ha Hb Ho Hci Hx ->. pose proof (b2z_range (flag c FLAG_CF)).
  assert (0 ≤ ci ≤ 1) by (subst ci; unfold carry_in; case_if; lia).
  assert (is_add op = false ∧ alu_exact op a b (b2z (flag c FLAG_CF)) = a - b - ci) as [Hn E].
  { rewrite Hci. unfold alu_exact, carry_in, is_add, is_sub in *.
    destruct (op =? SUB) eqn:?, (op =? SBB) eqn:?, (op =? CMP) eqn:?; zbool; subst; try discriminate; simpl; split; lia || done. }
  apply alu_spec_of; [done|by rewrite E|..].
  - unfold carry_out. rewrite Hn, Ho, <- Hci, !(Z.mod_small _ (2 ^ w)) by done. done.
  - unfold overflow. rewrite Hn, Ho, <- Hci. by apply sub_overflow.
  - unfold carry_out. rewrite Hn, Ho, <- Hci, (same_bit4 w x (a - b - ci)) by done. by apply sub_aux.
Qed.

Lemma logic_case w c op a b x :
  width w → is_add op = false → is_sub op = false → x = alu_exact op a b (b2z (flag c FLAG_CF)) →
  alu_spec w op a b c (x mod 2 ^ w) (cpu_set_flags (alu_flags c false false false) x w).
Proof.
  intros Hw Ha Hs ->. destruct (width_pos w Hw) as (? & ? & ?).
  apply alu_spec_of; [done|done|..]; unfold carry_out, overflow; rewrite Ha, Hs; try done.
  symmetry. apply negb_false_iff, andb_true_iff. split; [apply Z.leb_le|apply Z.ltb_lt]; lia.
Qed.

Lemma u32_mod w x : width w → u32 x mod 2 ^ w = x mod 2 ^ w.
Proof. intros [-> | [-> | ->]]; unfold u32; dlia. Qed.

(** Turns the mask tests of a case into bits, for sign bit [k]. *)
Ltac bits k :=
  rewrite ?(truth_bit _ (2 ^ k) k), ?(truth_bit _ 0x10 4) by (done || lia); rewrite ?Z.land_spec, ?Z.lxor_spec.

(** The cases of [alu8] and [alu16] at width [w] with sign bit [k]. *)
Ltac add_op w k := zbool; subst; bits k; eapply (add_case w); try done; rewrite ?u32_mod by done; unfold carry_in; simpl;
  [f_equal; lia|rewrite u32_small by lia; compare_all].
Ltac sub_op w k := bits k; eapply (sub_case w); try done; rewrite ?u32_mod by done; unfold carry_in; simpl;
  [f_equal; lia|compare_all].
Ltac alu_cases op w k :=
  destruct (op =? ADD) eqn:?; [add_op w k|];
  destruct (op =? OR) eqn:?; [zbool; subst; by apply (logic_case w)|];
  destruct (op =? ADC) eqn:?; [add_op w k|];
  destruct (op =? SBB) eqn:?; [zbool; subst; sub_op w k|];
  destruct (op =? AND) eqn:?; [zbool; subst; by apply (logic_case w)|];
  destruct (op =? SUB) eqn:Hsub; [zbool; subst; sub_op w k|];
  destruct (op =? CMP) eqn:Hcmp; [zbool; subst; sub_op w k|];
  cbn [orb]; apply (logic_case w); [done| | |];
  unfold is_add, is_sub, alu_exact;
  repeat match goal with H : (op =? _) = false |- _ => rewrite H end; done.

Lemma alu16_spec c op a b : word a → word b → alu_spec 16 op a b c (alu16 c op a b).1 (alu16 c op a b).2.
Proof.
  unfold word. intros Ha Hb. assert (width 16) as Hw by (right; by left). unfold alu16. change 0x8000 with (2 ^ 15).
  pose proof (b2z_range (flag c FLAG_CF)). alu_cases op 16 15.
Qed.

Lemma alu8_spec c op a b : byte a → byte b → alu_spec 8 op a b c (alu8 c op a b).1 (alu8 c op a b).2.
Proof.
  unfold byte. intros Ha Hb. assert (width 8) as Hw by (by left). unfold alu8. change 0x80 with (2 ^ 7).
  pose proof (b2z_range (flag c FLAG_CF)). alu_cases op 8 7.
Qed.

Lemma u32_id x : u32 x mod 2 ^ 32 = u32 x.
Proof. apply Z.mod_mod. lia. Qed.

Lemma alu_spec_mod w op a b c x c' : x mod 2 ^ w = x → alu_spec w op a b c (x mod 2 ^ w) c' → alu_spec w op a b c x c'.
Proof. by intros ->. Qed.

Lemma alu32_spec c op a b :
  0 ≤ a < 2 ^ 32 → 0 ≤ b < 2 ^ 32 → alu_spec 32 op a b c (alu32 c op a b).1 (alu32 c op a b).2.
Proof.
  intros Ha Hb. assert (width 32) as Hw by (right; by right). unfold alu32. change 0x80000000 with (2 ^ 31).
  pose proof (b2z_range (flag c FLAG_CF)).
  destruct (is_add op) eqn:Hadd; pose proof Hadd as Hadd'; unfold is_add in Hadd; rewrite Hadd.
  { set (ci := if op =? ADC then _ else 0).
    assert (ci = carry_in op (b2z (flag c FLAG_CF)) ∧ 0 ≤ ci ≤ 1) as [Hci ?].
    { unfold ci, carry_in. destruct (op =? ADD) eqn:?, (op =? ADC) eqn:?; zbool; subst; try discriminate; simpl; split; done || lia. }
    rewrite u64_small by lia. cbn [fst snd]. apply alu_spec_mod; [apply u32_id|]. bits 31. rewrite not32_testbit, Z.lxor_spec by lia.
    set (x := u32 (a + b + ci)). replace (negb _ && _) with
      (xorb (Z.testbit a (32 - 1)) (Z.testbit x (32 - 1)) && xorb (Z.testbit b (32 - 1)) (Z.testbit x (32 - 1)))
      by (change (32 - 1) with 31; by destruct (Z.testbit a 31), (Z.testbit b 31), (Z.testbit x 31)).
    apply (add_case 32 c op a b x _ ci); try done; [apply u32_id|compare_all]. }
  destruct (is_sub op) eqn:Hsub; pose proof Hsub as Hsub'; unfold is_sub in Hsub; rewrite Hsub.
  { set (ci := if op =? SBB then _ else 0).
    assert (ci = carry_in op (b2z (flag c FLAG_CF)) ∧ 0 ≤ ci ≤ 1) as [Hci ?].
    { unfold ci, carry_in. destruct (op =? SUB) eqn:?, (op =? SBB) eqn:?, (op =? CMP) eqn:?; zbool; subst; try discriminate; simpl; split; done || lia. }
    rewrite u64_small by lia. cbn [fst snd]. apply alu_spec_mod; [apply u32_id|]. bits 31.
    apply (sub_case 32 c op a b _ _ ci); try done. rewrite u32_id. unfold u32. rewrite Zminus_mod_idemp_r. f_equal. lia. }
  cbn [fst snd].
  assert (∀ y, (if op =? AND then Z.land a b else if op =? OR then Z.lor a b else Z.lxor a b) = y → y mod 2 ^ 32 = y ∧ y = alu_exact op a b (b2z (flag c FLAG_CF))) as Hy.
  { intros y <-. split.
    - apply Z.mod_small. repeat case_if; [apply land_range_l|apply lor_range|apply lxor_range]; lia.
    - unfold alu_exact. unfold is_add, is_sub in *. repeat match goal with H : (_ || _) = false |- _ => apply orb_false_iff in H; destruct H end.
      repeat match goal with H : (op =? _) = false |- _ => rewrite H end. cbn [orb].
      destruct (op =? AND) eqn:?; [zbool; subst; done|by destruct (op =? OR)]. }
  destruct (Hy _ eq_refl) as [H1 H2]. apply alu_spec_mod; [done|]. by apply (logic_case 32).
Qed.

Lemma alu_spec_all w c op a b :
  width w → 0 ≤ a < 2 ^ w → 0 ≤ b < 2 ^ w → alu_spec w op a b c (alu w c op a b).1 (alu w c op a b).2.
Proof. unfold alu. intros [-> | [-> | ->]] Ha Hb; [by apply alu8_spec|by apply alu16_spec|by apply alu32_spec]. Qed.

(** ** Conditions after a comparison *)

Lemma zero_diff w a b : width w → 0 ≤ a < 2 ^ w → 0 ≤ b < 2 ^ w → ((a - b) mod 2 ^ w =? 0) = (a =? b).
Proof.
  intros Hw Ha Hb. destruct (width_pos w Hw) as (? & ? & ?).
  destruct (mod_cases (2 ^ w) (a - b)) as [[-> ?] | [[-> ?] | [-> ?]]]; [lia..| | |];
    destruct (Z.eqb_spec a b), (Z.eqb_spec (a - b) 0); try lia; try done; by apply Z.eqb_neq; lia.
Qed.

(** SF ≠ OF after a comparison is the signed order. *)
Lemma signed_less w a b :
  width w → 0 ≤ a < 2 ^ w → 0 ≤ b < 2 ^ w →
  xorb (signed w ((a - b) mod 2 ^ w) <? 0) (overflow w CMP a b 0) = (signed w a <? signed w b).
Proof.
  intros Hw Ha Hb. destruct (width_pos w Hw) as (? & ? & Hm). unfold overflow, signed, carry_in. cbn.
  rewrite Z.mod_mod by lia. rewrite !(Z.mod_small a), !(Z.mod_small b) by done. rewrite Hm in *. clear Hm Hw.
  generalize dependent (2 ^ (w - 1)). intros h ? ? ?.
  destruct (mod_cases (2 * h) (a - b)) as [[-> ?] | [[-> ?] | [-> ?]]]; [lia..| | |]; compare_all.
Qed.

Lemma signed_less_equal w a b :
  width w → 0 ≤ a < 2 ^ w → 0 ≤ b < 2 ^ w → (a =? b) || (signed w a <? signed w b) = (signed w a <=? signed w b).
Proof.
  intros Hw Ha Hb. destruct (width_pos w Hw) as (? & ? & Hm). unfold signed.
  rewrite !(Z.mod_small a), !(Z.mod_small b) by done. destruct (Z.eqb_spec a b); compare_all.
Qed.

Lemma less_equal a b : (a <? b) || (a =? b) = (a <=? b).
Proof. destruct (Z.eqb_spec a b); compare_all. Qed.
End flags.

(** The meaning of the conditions of Jcc after comparing [a] with [b]. *)
Definition compare_cond (w cc a b : Z) : bool :=
  let d := (a - b) mod 2 ^ w in
  let even := if cc <? 2 then overflow w CMP a b 0
              else if cc <? 4 then a <? b
              else if cc <? 6 then a =? b
              else if cc <? 8 then a <=? b
              else if cc <? 10 then signed w d <? 0
              else if cc <? 12 then even_ones d
              else if cc <? 14 then signed w a <? signed w b
              else signed w a <=? signed w b in
  if Z.odd cc then negb even else even.

(** C17: The three ALU routines compute what the instruction set defines, for
    every operation, width and operands: the result is the exact one modulo
    the width, CF is the carry or borrow, OF says whether the signed result
    does not fit, AF is the carry out of the low four bits, ZF, SF and PF
    describe the result, and the other flags, the registers and memory stay. *)
Theorem alu_correct {D} (w : Z) (c : cpu D) (op a b : Z) :
  width w → 0 ≤ a < 2 ^ w → 0 ≤ b < 2 ^ w →
  alu_spec w op a b c (alu w c op a b).1 (alu w c op a b).2.
Proof. apply alu_spec_all. Qed.

(** 0x7F + 1 with carry at width 8. *)
Lemma alu_correct_witness :
  alu_spec 8 ADC 0x7F 1 (cpu_init tt) (alu 8 (cpu_init tt) ADC 0x7F 1).1 (alu 8 (cpu_init tt) ADC 0x7F 1).2.
Proof. apply alu_correct; [by left|lia|lia]. Defined.

(** A conditional jump after CMP decides the comparison it is named
    after: JB/JAE/JBE/JA the unsigned order, JL/JGE/JLE/JG the signed order,
    JE/JNE equality, JS/JNS, JO/JNO and JP/JNP the sign, overflow and parity
    of the difference, at all three widths. *)
Theorem cond_after_cmp {D} (w : Z) (c : cpu D) (cc a b : Z) :
  width w → 0 ≤ a < 2 ^ w → 0 ≤ b < 2 ^ w → 0 ≤ cc < 16 →
  cond (alu w c CMP a b).2 cc = compare_cond w cc a b.
Proof.
  intros Hw Ha Hb Hcc. destruct (alu_spec_all w c CMP a b Hw Ha Hb) as [Hx Hcf Hof _ Hzf Hsf Hpf _ _ _ _].
  rewrite Hx in Hzf, Hsf, Hpf. unfold alu_exact in Hzf, Hsf, Hpf. cbn in Hzf, Hsf, Hpf.
  rewrite zero_diff in Hzf by done.
  assert (carry_out w CMP a b (b2z (flag c FLAG_CF)) = (a <? b)) as Hlt.
  { unfold carry_out, carry_in. cbn. rewrite !Z.mod_small by done. f_equal. lia. }
  change (overflow w CMP a b (b2z (flag c FLAG_CF))) with (overflow w CMP a b 0) in Hof.
  pose proof (signed_less w a b Hw Ha Hb) as Hs. rewrite <- Hsf, <- Hof in Hs.
  rewrite Hsf, Hof in Hs. pose proof (signed_less_equal w a b Hw Ha Hb) as Hle. pose proof (less_equal a b) as Hule.
  unfold cond. rewrite Hcf, Hlt, Hzf, Hsf, Hpf, Hof. rewrite <- Hs in Hle.
  unfold compare_cond. cbv zeta. rewrite <- Hle, <- Hule, <- Hs. clear - Hcc.
  generalize (a <? b) as lt, (a =? b) as eq, (signed w ((a - b) mod 2 ^ w) <? 0) as sf,
    (even_ones ((a - b) mod 2 ^ w)) as pf, (overflow w CMP a b 0) as of_. intros.
  assert (cc ∈ [0; 1; 2; 3; 4; 5; 6; 7; 8; 9; 10; 11; 12; 13; 14; 15]) as Hin.
  { change (cc ∈ seqZ 0 16). apply elem_of_seqZ. lia. }
  clear Hcc. repeat apply elem_of_cons in Hin as [-> | Hin]; [..|by apply elem_of_nil in Hin];
    by destruct lt, eq, sf, pf, of_.
Qed.

(** 0x80000000 against 1 at width 32, condition JL. *)
Lemma cond_after_cmp_witness :
  cond (alu 32 (cpu_init tt) CMP 0x80000000 1).2 0xC = compare_cond 32 0xC 0x80000000 1.
Proof. apply cond_after_cmp; [right; by right|lia..]. Defined.
