(* ===== verification/CpuMath.v ===== *)
(** * Division, shifts and decimal adjustment of the dosrun processor

    The bit by bit division, the stepwise shifts and the decimal adjustment
    against their definitions on integers. *)
From S2P Require Import Prelude Cpu CpuWf CpuAlu.
Local Open Scope Z_scope.

(** ** Specification *)

(** The value of a [w]-bit pattern. *)
Definition value (w : Z) (is_signed : bool) (x : Z) : Z := if is_signed then signed w x else x.

(** Whether a quotient fits [w] bits. *)
Definition fits (w : Z) (is_signed : bool) (q : Z) : bool :=
  if is_signed then (- 2 ^ (w - 1) <=? q) && (q <? 2 ^ (w - 1)) else (0 <=? q) && (q <? 2 ^ w).

(** A shift by [n] of the [w]-bit [v] and the last bit shifted out. *)
Definition shift_result (w op v n : Z) : Z :=
  if op =? 4 then v * 2 ^ n mod 2 ^ w else if op =? 5 then v / 2 ^ n else signed w v / 2 ^ n mod 2 ^ w.
Definition shift_carry (w op v n : Z) : bool :=
  if op =? 4 then Z.testbit (v * 2 ^ n) w
  else if op =? 5 then Z.testbit v (n - 1) else Z.testbit (signed w v) (n - 1).

Section math.
Context {D : Type}.
Implicit Types c : cpu D.

(** ** Division *)

Lemma u64_step x b d : 0 ≤ x < d → d ≤ 2 ^ 32 → 0 ≤ b ≤ 1 → u64 (Z.lor (Z.shiftl x 1) b) = 2 * x + b.
Proof.
  intros Hx Hd Hb. rewrite Z.shiftl_mul_pow2, (lor_add 1) by dlia. rewrite u64_small by lia. lia.
Qed.

Lemma low_bits low i : 0 ≤ i → low mod 2 ^ (i + 1) = Z.land (Z.shiftr low i) 1 * 2 ^ i + low mod 2 ^ i.
Proof.
  intros Hi. rewrite land_1_mod, Z.shiftr_div_pow2, Z.pow_add_r by lia.
  change (2 ^ 1) with 2. rewrite (Z.rem_mul_r low (2 ^ i) 2) by lia. lia.
Qed.

(** Long division: the dividend left is [remainder * 2^i + low mod 2^i]. *)
Lemma divide_bits_spec i low d rem q :
  0 ≤ rem < d → d ≤ 2 ^ 32 → q mod 2 ^ Z.of_nat i = 0 →
  let n := rem * 2 ^ Z.of_nat i + low mod 2 ^ Z.of_nat i in
  divide_bits i low d rem q = (q + n / d, n mod d).
Proof.
  revert rem q. induction i as [|i IH]; intros rem q Hr Hd Hq.
  - cbn [divide_bits]. change (2 ^ Z.of_nat 0) with 1. rewrite Z.mod_1_r, Z.mul_1_r, Z.add_0_r, Z.div_small, Z.mod_small by lia.
    f_equal. lia.
  - cbn [divide_bits]. rewrite Nat2Z.inj_succ in *. change (Z.succ (Z.of_nat i)) with (Z.of_nat i + 1) in *.
    set (m := Z.of_nat i) in *. assert (0 ≤ m) by lia. assert (0 < 2 ^ m) by (apply Z.pow_pos_nonneg; lia).
    set (b := Z.land (Z.shiftr low m) 1). assert (0 ≤ b ≤ 1) by (unfold b; rewrite land_1_mod; dlia).
    rewrite (u64_step rem b d) by done. rewrite low_bits by lia. fold b. rewrite Z.pow_add_r in * by lia.
    assert (q mod 2 ^ m = 0) as Hq'.
    { apply Z.mod_divide in Hq as [k ->]; [|lia]. apply Z.mod_divide; [lia|]. exists (k * 2). lia. }
    destruct (Z.leb_spec d (2 * rem + b)).
    + rewrite Z.shiftl_1_l, (lor_add (m + 1)) by (rewrite ?Z.pow_add_r; lia). rewrite IH; [|lia|done|].
      * replace (rem * (2 ^ m * 2 ^ 1) + (b * 2 ^ m + low mod 2 ^ m))
          with (((2 * rem + b - d) * 2 ^ m + low mod 2 ^ m) + 2 ^ m * d) by lia.
        rewrite Z.div_add, Z.mod_add by lia. f_equal. lia.
      * rewrite <- (Z.mul_1_l (2 ^ m)) at 1. by rewrite Z.mod_add by lia.
    + rewrite IH by (done || lia). cbv zeta.
      by replace (rem * (2 ^ m * 2 ^ 1) + (b * 2 ^ m + low mod 2 ^ m)) with ((2 * rem + b) * 2 ^ m + low mod 2 ^ m) by lia.
Qed.

(** The two halves of a doubleword register. *)
Lemma reg32_put c i j v :
  cpu_reg32 (cpu_put_reg32 c i v) j = if j =? i then u32 v else cpu_reg32 c j.
Proof.
  unfold cpu_reg32, cpu_put_reg32. simpl. unfold update. destruct (j =? i); [|done].
  rewrite Z.shiftr_div_pow2, Z.shiftl_mul_pow2 by lia. unfold u16, u32. rewrite Z.lor_comm, (lor_add 16) by dlia. dlia.
Qed.

Lemma reg32_range c i : cpu_wf c → 0 ≤ cpu_reg32 c i < 2 ^ 32.
Proof.
  intros Hc. unfold cpu_reg32. pose proof (wf_r c Hc i). pose proof (wf_r_hi c Hc i). unfold word in *.
  rewrite Z.shiftl_mul_pow2, Z.lor_comm, (lor_add 16) by dlia. lia.
Qed.

(** The dividend and the value of its magnitude. *)
Definition edx_eax c : Z := cpu_reg32 c DX * 2 ^ 32 + cpu_reg32 c AX.

Lemma edx_eax_lor c : cpu_wf c → Z.lor (Z.shiftl (cpu_reg32 c DX) 32) (cpu_reg32 c AX) = edx_eax c ∧ 0 ≤ edx_eax c < 2 ^ 64.
Proof.
  intros Hc. pose proof (reg32_range c DX Hc). pose proof (reg32_range c AX Hc). unfold edx_eax.
  rewrite Z.shiftl_mul_pow2, (lor_add 32) by dlia. lia.
Qed.

(** Division of magnitudes with the signs put back is truncated division. *)
Lemma quot_rem_signs n d :
  d ≠ 0 → Z.quot n d = (if xorb (n <? 0) (d <? 0) then - (Z.abs n / Z.abs d) else Z.abs n / Z.abs d) ∧
          Z.rem n d = (if n <? 0 then - (Z.abs n mod Z.abs d) else Z.abs n mod Z.abs d).
Proof.
  intros Hd. rewrite <- Z.quot_div_nonneg, <- Z.rem_mod_nonneg by lia.
  destruct (Z.ltb_spec n 0), (Z.ltb_spec d 0); simpl;
    rewrite ?(Z.abs_neq n), ?(Z.abs_neq d), ?(Z.abs_eq n), ?(Z.abs_eq d) by lia;
    rewrite ?Z.quot_opp_opp, ?Z.quot_opp_l, ?Z.quot_opp_r, ?Z.rem_opp_opp, ?Z.rem_opp_l, ?Z.rem_opp_r, ?Z.opp_involutive by lia; done.
Qed.

Lemma signed_value w x : width w ∨ w = 64 → 0 ≤ x < 2 ^ w →
  signed w x = (if 2 ^ (w - 1) <=? x then x - 2 ^ w else x).
Proof. intros Hw Hx. unfold signed. rewrite Z.mod_small by done. compare_all. Qed.

Section divide32.
Context (c : cpu D) (divisor : Z) (s : bool) (start : Z) (Hc : cpu_wf c) (Hd : 0 ≤ divisor < 2 ^ 32).

Let N := value 64 s (edx_eax c).
Let d := value 32 s divisor.

Lemma negative_spec : s && truth (Z.shiftr (edx_eax c) 63) = (N <? 0).
Proof.
  destruct (edx_eax_lor c Hc) as [_ H]. unfold N, value. destruct s; simpl; [|symmetry; apply Z.ltb_ge; lia].
  rewrite signed_value by (done || lia). rewrite Z.shiftr_div_pow2 by lia. unfold truth. change (64 - 1) with 63.
  destruct (Z.leb_spec (2 ^ 63) (edx_eax c)).
  - rewrite (proj2 (Z.ltb_lt _ _)) by lia. apply negb_true_iff, Z.eqb_neq. dlia.
  - rewrite (proj2 (Z.ltb_ge _ _)) by lia. apply negb_false_iff, Z.eqb_eq. dlia.
Qed.

Lemma neg_divisor_spec : s && truth (Z.land divisor 0x80000000) = (d <? 0).
Proof.
  unfold d, value. destruct s; simpl; [|symmetry; apply Z.ltb_ge; lia].
  rewrite signed_value by (lia || (left; right; by right)).
  rewrite (truth_bit _ _ 31) by (done || lia). change 31 with (32 - 1). rewrite (top_bit 32), Z.mod_small by (done || (right; by right)).
  compare_all.
Qed.

Lemma magnitudes :
  (if N <? 0 then u64 (u64 (Z.lnot (edx_eax c)) + 1) else edx_eax c) = Z.abs N ∧
  (if d <? 0 then u32 (0 - divisor) else divisor) = Z.abs d ∧ 0 ≤ Z.abs N < 2 ^ 64 ∧ 0 ≤ Z.abs d < 2 ^ 32.
Proof.
  destruct (edx_eax_lor c Hc) as [_ H]. unfold N, d, value. destruct s.
  - rewrite !signed_value by (lia || (left; right; by right) || by right). unfold Z.lnot, u64, u32.
    repeat case_if; split_and!; lia || dlia.
  - rewrite !(proj2 (Z.ltb_ge _ _)) by lia. lia.
Qed.

Lemma divide32_spec :
  divide32 c divisor s start =
  if (d =? 0) || negb (fits 32 s (Z.quot N d)) then divide_error c start
  else (CPU_OK, cpu_put_reg32 (cpu_put_reg32 c AX (u32 (Z.quot N d))) DX (u32 (Z.rem N d))).
Proof.
  unfold divide32. destruct (edx_eax_lor c Hc) as [-> HX]. rewrite negative_spec, neg_divisor_spec.
  destruct magnitudes as (-> & -> & HN & Hda).
  destruct (Z.eqb_spec d 0) as [Hd0|Hd0]; [by rewrite Hd0|].
  rewrite (proj2 (Z.eqb_neq (Z.abs d) 0)) by lia. cbn [orb].
  destruct (quot_rem_signs N d Hd0) as [-> ->].
  assert (s = false → (N <? 0) = false ∧ (d <? 0) = false) as Hs.
  { unfold N, d, value. intros ->. split; apply Z.ltb_ge; lia. }
  assert (0 < Z.abs d < 2 ^ 32) as Hda' by lia. clear Hda.
  clearbody N d. clear HX. generalize dependent (Z.abs N). intros n Hn. generalize dependent (Z.abs d). intros e He.
  rewrite Z.shiftr_div_pow2 by lia. unfold fits.
  destruct (Z.leb_spec e (n / 2 ^ 32)).
  - assert (2 ^ 32 ≤ n / e) by (apply Z.div_le_lower_bound; [lia|]; pose proof (Z.mul_div_le n (2 ^ 32)); lia).
    destruct (xorb _ _), s; simpl; compare_all.
  - assert (0 ≤ n / e < 2 ^ 32).
    { split; [apply Z.div_pos; lia|]. apply Z.div_lt_upper_bound; [lia|]. pose proof (Z.mul_succ_div_gt n (2 ^ 32)). lia. }
    rewrite divide_bits_spec; [|pose proof (Z.div_pos n (2 ^ 32)); lia|lia|done].
    change (2 ^ Z.of_nat 32) with (2 ^ 32). cbv zeta.
    replace (n / 2 ^ 32 * 2 ^ 32 + u32 n mod 2 ^ 32) with n by (unfold u32; dlia).
    assert (0 ≤ n mod e < e) by (apply Z.mod_pos_bound; lia).
    rewrite Z.add_0_l, (u32_small (n mod e)) by lia.
    rewrite <- (Z.sub_0_l (n / e)), <- (Z.sub_0_l (n mod e)).
    generalize dependent (n / e). intros q Hq. generalize dependent (n mod e). intros m Hm. clear Hn.
    match goal with |- (if ?b then _ else _) = (if ?b' then _ else _) => assert (b = b') as -> end.
    { rewrite Z.gtb_ltb. destruct s; [destruct (xorb _ _); compare_all|].
      destruct (Hs eq_refl) as [-> ->]. simpl. compare_all. }
    destruct (negb _); [done|]. destruct (xorb _ _), (N <? 0); rewrite ?(u32_small q) by lia; rewrite ?(u32_small m) by lia; done.
Qed.
End divide32.

(** *** DIV and IDIV at 16 and 8 bits *)

Lemma quot_bound n d : d ≠ 0 → Z.abs (Z.quot n d) ≤ Z.abs n.
Proof.
  intros Hd. rewrite <- Z.quot_abs by done. rewrite Z.quot_div_nonneg by lia.
  destruct (decide (Z.abs d = 1)) as [->|]; [by rewrite Z.div_1_r|].
  destruct (decide (n = 0)) as [->|]; [done|]. apply Z.lt_le_incl, Z.div_lt; lia.
Qed.

(** A quotient whose magnitude fits [2^31] and the checks of the code. *)
Lemma idiv16_check n d : d ≠ 0 → - 2 ^ 31 ≤ n < 2 ^ 31 →
  (n =? -0x80000000) && (d =? -1) || ((Z.quot n d >? 32767) || (Z.quot n d <? -32768)) =
  negb (fits 16 true (Z.quot n d)).
Proof.
  intros Hd Hn. unfold fits. rewrite Z.gtb_ltb.
  destruct (Z.eqb_spec n (-0x80000000)) as [->|], (Z.eqb_spec d (-1)) as [->|]; simpl; try done;
    match goal with |- context [Z.quot ?a ?b] => generalize (Z.quot a b) end; intros; compare_all.
Qed.

Lemma idiv8_check n d : d ≠ 0 → - 2 ^ 15 ≤ n < 2 ^ 15 →
  (signed 16 (Z.quot n d) >? 127) || (signed 16 (Z.quot n d) <? -128) = negb (fits 8 true (Z.quot n d)).
Proof.
  intros Hd Hn. pose proof (quot_bound n d Hd). generalize dependent (Z.quot n d). intros q Hq.
  unfold fits, signed. rewrite Z.gtb_ltb.
  destruct (decide (q = 2 ^ 15)) as [->|]; [done|].
  destruct (mod_cases (2 ^ 16) q) as [[-> ?] | [[-> ?] | [-> ?]]]; [lia..| | |]; compare_all.
Qed.

Lemma idiv8_same q : fits 8 true q = true → signed 16 q = q.
Proof.
  unfold fits, signed. intros H. zbool. destruct (mod_cases (2 ^ 16) q) as [[-> ?] | [[-> ?] | [-> ?]]]; [lia..| | |]; compare_all.
Qed.

Lemma get8_rm_byte c rm : cpu_wf c → byte (get8_rm c rm).
Proof. intros Hc. unfold get8_rm, get8, rd8, mem_r8. repeat case_match; try apply u8_range. apply Hc. Qed.

Lemma ax_dx c : cpu_wf c → Z.lor (Z.shiftl (r c DX) 16) (r c AX) = r c DX * 2 ^ 16 + r c AX.
Proof.
  intros Hc. pose proof (wf_r c Hc AX). pose proof (wf_r c Hc DX). unfold word in *.
  rewrite Z.shiftl_mul_pow2, (lor_add 16) by dlia. done.
Qed.

Lemma unsigned_check w n d : 0 ≤ n → 0 < d → (n / d >? 2 ^ w - 1) = negb (fits w false (Z.quot n d)).
Proof.
  intros Hn Hd. rewrite Z.quot_div_nonneg by lia. pose proof (Z.div_pos n d). unfold fits. rewrite Z.gtb_ltb. compare_all.
Qed.

Lemma signed_bounds w x : 0 < w → - 2 ^ (w - 1) ≤ signed w x < 2 ^ (w - 1).
Proof.
  intros Hw. unfold signed. pose proof (Z.mod_pos_bound x (2 ^ w)).
  assert (2 ^ w = 2 * 2 ^ (w - 1)) by (rewrite <- Z.pow_succ_r by lia; f_equal; lia).
  assert (0 < 2 ^ (w - 1)) by (apply Z.pow_pos_nonneg; lia). case_if; lia.
Qed.

(** The dividend and the divisor of [group3_div]. *)
Definition group3_dividend c (s w : bool) : Z :=
  if w then value 32 s (r c DX * 2 ^ 16 + r c AX) else value 16 s (r c AX).
Definition group3_divisor c (rm : operand) (s w : bool) : Z :=
  if w then value 16 s (get16 c rm) else value 8 s (get8_rm c rm).
(** Where the quotient [q] and the remainder [m] go. *)
Definition group3_store c (w : bool) (q m : Z) : cpu D :=
  if w then set_r (set_r c AX q) DX m else put8 (put8 c 0 q) 4 m.

Lemma group3_div_spec c rm rg w start :
  cpu_wf c → rg = 6 ∨ rg = 7 →
  let s := rg =? 7 in
  let n := group3_dividend c s w in
  let d := group3_divisor c rm s w in
  group3_div c rm rg w start =
  if (d =? 0) || negb (fits (if w then 16 else 8) s (Z.quot n d)) then divide_error c start
  else (CPU_OK, group3_store c w (Z.quot n d) (Z.rem n d)).
Proof.
  intros Hc Hrg. unfold group3_div, group3_dividend, group3_divisor, group3_store, value.
  pose proof (wf_r c Hc AX) as Ha. pose proof (wf_r c Hc DX) as Hx. unfold word in Ha, Hx.
  destruct Hrg as [-> | ->], w; cbn [Z.eqb Pos.eqb].
  - rewrite ax_dx by done. assert (word (get16 c rm)) as Hg by (by apply get16_word). unfold word in Hg.
    destruct (Z.eqb_spec (get16 c rm) 0); [done|]. cbn [orb]. change 0xFFFF with (2 ^ 16 - 1).
    rewrite unsigned_check by lia. by rewrite Z.quot_div_nonneg, Z.rem_mod_nonneg by lia.
  - pose proof (get8_rm_byte c rm Hc) as Hg. unfold byte in Hg.
    destruct (Z.eqb_spec (get8_rm c rm) 0); [done|]. cbn [orb]. change 0xFF with (2 ^ 8 - 1).
    rewrite unsigned_check by lia. by rewrite Z.quot_div_nonneg, Z.rem_mod_nonneg by lia.
  - rewrite ax_dx by done. destruct (Z.eqb_spec (signed 16 (get16 c rm)) 0); [done|]. cbn [orb].
    rewrite <- idiv16_check by (done || by apply (signed_bounds 32)).
    destruct (_ && _); [done|]. done.
  - destruct (Z.eqb_spec (signed 8 (get8_rm c rm)) 0); [done|]. cbn [orb].
    rewrite idiv8_check by (done || by apply (signed_bounds 16)).
    destruct (fits 8 true _) eqn:Ef; [|done]. by rewrite (idiv8_same _ Ef).
Qed.
(** ** Shifts *)

(** What the steps of a shift change: the carry only. *)
Definition only_cf c c' : Prop :=
  but_flags c' = but_flags c ∧ ∀ k, 0 < k < 16 → flag c' (2 ^ k) = flag c (2 ^ k).

Lemma only_cf_set c c' b : only_cf (set_cf c b) c' → only_cf c c'.
Proof.
  intros [H1 H2]. split; [rewrite H1; apply but_set_flag|].
  intros k Hk. rewrite H2 by done. apply (flag_set_flag_ne c b 0 k); lia.
Qed.

Lemma flag_cf_set c b : flag (set_cf c b) FLAG_CF = b.
Proof. apply (flag_set_flag_eq c b 0). lia. Qed.

Lemma double_mod w x : width w → Z.land (u32 (Z.shiftl x 1)) (2 ^ w - 1) = 2 * x mod 2 ^ w.
Proof.
  intros Hw. rewrite land_ones_mod, u32_mod, Z.shiftl_mul_pow2 by (done || destruct (width_pos w Hw); lia). f_equal. lia.
Qed.

Section steps.
Context (w : Z) (Hw : width w).
Local Abbreviation mask := (2 ^ w - 1).
Local Abbreviation sign := (2 ^ (w - 1)).

(** SHL: [n + 1] doublings. *)
Lemma shl_steps n c x :
  0 ≤ x < 2 ^ w →
  ∃ c', shift_steps (S n) c 4 x mask sign w = (x * 2 ^ Z.of_nat (S n) mod 2 ^ w, c') ∧ only_cf c c' ∧
    flag c' FLAG_CF = Z.testbit (x * 2 ^ Z.of_nat (S n)) w.
Proof.
  destruct (width_pos w Hw) as (H1 & H2 & H3).
  revert c x. induction n as [|n IH]; intros c x Hx.
  - exists (set_cf c (truth (Z.land x sign))). cbn [shift_steps]. unfold shift_once. cbn [Z.eqb Pos.eqb].
    rewrite double_mod by done. split_and!; [f_equal; f_equal; lia|by apply (only_cf_set c _ (truth (Z.land x sign)))|].
    rewrite flag_cf_set, (truth_bit _ _ (w - 1)) by lia. rewrite Z.mul_pow2_bits by lia. done.
  - destruct (IH (set_cf c (truth (Z.land x sign))) (2 * x mod 2 ^ w)) as (c' & E & Ho & Hcf).
    { apply Z.mod_pos_bound. lia. }
    exists c'. split_and!; [|by eapply only_cf_set|].
    + assert (shift_steps (S (S n)) c 4 x mask sign w =
        shift_steps (S n) (set_cf c (truth (Z.land x sign))) 4 (2 * x mod 2 ^ w) mask sign w) as ->.
      { rewrite <- double_mod by done. reflexivity. }
      rewrite E. f_equal. rewrite Z.mul_mod_idemp_l by lia. f_equal.
      rewrite !Nat2Z.inj_succ, (Z.pow_succ_r _ (Z.succ (Z.of_nat n))) by lia. lia.
    + rewrite Hcf, !Z.mul_pow2_bits by lia.
      destruct (decide (w - Z.of_nat (S n) < 0)); [by rewrite !Z.testbit_neg_r by lia|].
      rewrite Z.mod_pow2_bits_low, Z.double_bits by lia. f_equal. lia.
Qed.

Lemma half_bit x n : 0 ≤ n → Z.testbit (x / 2) n = Z.testbit x (n + 1).
Proof. intros Hn. change 2 with (2 ^ 1). by rewrite Z.div_pow2_bits by lia. Qed.

(** SHR: [n + 1] halvings. *)
Lemma shr_steps n c x :
  ∃ c', shift_steps (S n) c 5 x mask sign w = (x / 2 ^ Z.of_nat (S n), c') ∧ only_cf c c' ∧
    flag c' FLAG_CF = Z.testbit x (Z.of_nat n).
Proof.
  revert c x. induction n as [|n IH]; intros c x.
  - exists (set_cf c (truth (Z.land x 1))). split_and!; [|by apply (only_cf_set c _ (truth (Z.land x 1)))|].
    + cbn [shift_steps]. unfold shift_once. cbn [Z.eqb Pos.eqb]. by rewrite Z.shiftr_div_pow2 by lia.
    + by rewrite flag_cf_set, (truth_bit _ _ 0) by lia.
  - destruct (IH (set_cf c (truth (Z.land x 1))) (x / 2)) as (c' & E & Ho & Hcf).
    exists c'. split_and!; [|by eapply only_cf_set|].
    + assert (shift_steps (S (S n)) c 5 x mask sign w =
        shift_steps (S n) (set_cf c (truth (Z.land x 1))) 5 (x / 2) mask sign w) as ->.
      { change (x / 2) with (x / 2 ^ 1). rewrite <- (Z.shiftr_div_pow2 x 1) by lia. reflexivity. }
      rewrite E, Z.div_div by lia. f_equal. f_equal. rewrite !Nat2Z.inj_succ, (Z.pow_succ_r _ (Z.succ (Z.of_nat n))) by lia. lia.
    + rewrite Hcf, half_bit by lia. f_equal. lia.
Qed.

(** SAR: halvings that keep the sign. *)
Lemma sar_once x : 0 ≤ x < 2 ^ w → Z.lor (Z.shiftr x 1) (Z.land x sign) = signed w x / 2 mod 2 ^ w.
Proof.
  intros Hx. destruct (width_pos w Hw) as (H1 & H2 & H3).
  assert (Z.land x sign = if sign <=? x then sign else 0) as ->.
  { apply Z.bits_inj'. intros i Hi. rewrite Z.land_spec, Z.pow2_bits_eqb by lia.
    destruct (Z.eqb_spec (w - 1) i) as [<-|Hne].
    - rewrite (top_bit w), Z.mod_small by done. case_if; [rewrite Z.pow2_bits_true by lia|rewrite Z.bits_0]; done.
    - rewrite andb_false_r. case_if; [rewrite Z.pow2_bits_false by lia|rewrite Z.bits_0]; done. }
  rewrite signed_value by (auto || done). rewrite Z.shiftr_div_pow2 by lia. change (2 ^ 1) with 2.
  destruct (Z.leb_spec sign x).
  - rewrite Z.lor_comm, (lor_add (w - 1)) by (try apply Z.mod_same; dlia).
    replace (x - 2 ^ w) with (x + - sign * 2) by lia. rewrite Z.div_add by lia.
    destruct (mod_cases (2 ^ w) (x / 2 + - sign)) as [[-> ?] | [[-> ?] | [-> ?]]]; dlia.
  - rewrite Z.lor_0_r, Z.mod_small; [done|]. dlia.
Qed.

Lemma signed_id y : - sign ≤ y < sign → signed w y = y.
Proof.
  intros Hy. destruct (width_pos w Hw) as (H1 & H2 & H3). unfold signed.
  destruct (mod_cases (2 ^ w) y) as [[-> ?] | [[-> ?] | [-> ?]]]; [lia..| | |]; compare_all.
Qed.

Lemma signed_half x : signed w (signed w x / 2 mod 2 ^ w) = signed w x / 2.
Proof.
  rewrite signed_mod. destruct (width_pos w Hw) as (H1 & H2 & H3). pose proof (signed_bounds w x). apply signed_id. dlia.
Qed.

Lemma signed_mod_eq x : 0 ≤ x < 2 ^ w → signed w x mod 2 ^ w = x.
Proof.
  intros Hx. unfold signed. destruct (width_pos w Hw) as (H1 & H2 & H3). rewrite (Z.mod_small x) by done.
  case_if; [by apply Z.mod_small|]. destruct (mod_cases (2 ^ w) (x - 2 ^ w)) as [[-> ?] | [[-> ?] | [-> ?]]]; lia.
Qed.

Lemma sar_steps n c x :
  0 ≤ x < 2 ^ w →
  ∃ c', shift_steps (S n) c 7 x mask sign w = (signed w x / 2 ^ Z.of_nat (S n) mod 2 ^ w, c') ∧ only_cf c c' ∧
    flag c' FLAG_CF = Z.testbit (signed w x) (Z.of_nat n).
Proof.
  destruct (width_pos w Hw) as (H1 & H2 & H3).
  revert c x. induction n as [|n IH]; intros c x Hx.
  - exists (set_cf c (truth (Z.land x 1))). split_and!; [|by apply (only_cf_set c _ (truth (Z.land x 1)))|].
    + change (2 ^ Z.of_nat 1) with 2. rewrite <- sar_once by done. reflexivity.
    + rewrite flag_cf_set, (truth_bit _ _ 0) by lia. rewrite <- (Z.mod_pow2_bits_low (signed w x) w) by lia.
      by rewrite signed_mod_eq.
  - destruct (IH (set_cf c (truth (Z.land x 1))) (signed w x / 2 mod 2 ^ w)) as (c' & E & Ho & Hcf).
    { apply Z.mod_pos_bound. lia. }
    exists c'. split_and!; [|by eapply only_cf_set|].
    + assert (shift_steps (S (S n)) c 7 x mask sign w =
        shift_steps (S n) (set_cf c (truth (Z.land x 1))) 7 (signed w x / 2 mod 2 ^ w) mask sign w) as ->.
      { rewrite <- sar_once by done. reflexivity. }
      rewrite E, signed_half, Z.div_div by lia. do 3 f_equal.
      rewrite !Nat2Z.inj_succ, (Z.pow_succ_r _ (Z.succ (Z.of_nat n))) by lia. lia.
    + rewrite Hcf, signed_half, half_bit by lia. f_equal. lia.
Qed.

(** The three shifts. *)
Lemma shift_steps_spec op n c v :
  op = 4 ∨ op = 5 ∨ op = 7 → 0 ≤ v < 2 ^ w → 0 < n →
  ∃ c', shift_steps (Z.to_nat n) c op v mask sign w = (shift_result w op v n, c') ∧ only_cf c c' ∧
    flag c' FLAG_CF = shift_carry w op v n.
Proof.
  intros Hop Hv Hn. replace (Z.to_nat n) with (S (Z.to_nat (n - 1))) by lia.
  assert (Z.of_nat (S (Z.to_nat (n - 1))) = n) as En by lia. assert (Z.of_nat (Z.to_nat (n - 1)) = n - 1) as En' by lia.
  destruct Hop as [-> | [-> | ->]].
  - destruct (shl_steps (Z.to_nat (n - 1)) c v Hv) as (c' & H). rewrite En in H. by exists c'.
  - destruct (shr_steps (Z.to_nat (n - 1)) c v) as (c' & H). rewrite En, En' in H. by exists c'.
  - destruct (sar_steps (Z.to_nat (n - 1)) c v Hv) as (c' & H). rewrite En, En' in H. by exists c'.
Qed.

Lemma shift_result_range op v n :
  op = 4 ∨ op = 5 ∨ op = 7 → 0 ≤ v < 2 ^ w → 0 < n → 0 ≤ shift_result w op v n < 2 ^ w.
Proof.
  intros Hop Hv Hn. destruct (width_pos w Hw) as (H1 & H2 & H3). unfold shift_result.
  destruct Hop as [-> | [-> | ->]]; cbn [Z.eqb Pos.eqb]; [apply Z.mod_pos_bound; lia| |apply Z.mod_pos_bound; lia].
  split; [apply Z.div_pos; lia|]. apply Z.div_lt_upper_bound; nia.
Qed.
End steps.

(** What a shift by [n > 0] leaves. *)
Record shift_spec (w op v n : Z) c (x : Z) (c' : cpu D) : Prop := {
  sh_result : x = shift_result w op v n;
  sh_cf : flag c' FLAG_CF = shift_carry w op v n;
  sh_zf : flag c' FLAG_ZF = (x =? 0);
  sh_sf : flag c' FLAG_SF = (signed w x <? 0);
  sh_pf : flag c' FLAG_PF = even_ones x;
  sh_of : flag c' FLAG_OF =
    if n =? 1 then (if op =? 4 then xorb (signed w x <? 0) (shift_carry w op v n)
                    else (op =? 5) && (signed w v <? 0))
    else flag c FLAG_OF;
  sh_af : flag c' FLAG_AF = flag c FLAG_AF;
  sh_if : flag c' FLAG_IF = flag c FLAG_IF;
  sh_df : flag c' FLAG_DF = flag c FLAG_DF;
  sh_tf : flag c' FLAG_TF = flag c FLAG_TF;
  sh_rest : but_flags c' = but_flags c
}.

Lemma sign_test w x : width w → 0 ≤ x < 2 ^ w → truth (Z.land x (2 ^ (w - 1))) = (signed w x <? 0).
Proof.
  intros Hw Hx. destruct (width_pos w Hw) as (H1 & H2 & H3). rewrite (truth_bit _ _ (w - 1)), (top_bit w) by (done || lia).
  rewrite signed_value by auto. rewrite Z.mod_small by done. compare_all.
Qed.

(** The flags after the steps. *)
Lemma shift_flags w op v n c c1 x :
  width w → op = 4 ∨ op = 5 ∨ op = 7 → 0 ≤ v < 2 ^ w → 0 ≤ x < 2 ^ w → x = shift_result w op v n →
  only_cf c c1 → flag c1 FLAG_CF = shift_carry w op v n →
  let c2 := cpu_set_flags c1 x w in
  shift_spec w op v n c x
    (if n =? 1 then
       if op =? 4 then set_of c2 (xorb (signed w x <? 0) (flag c2 FLAG_CF))
       else set_of c2 ((op =? 5) && (signed w v <? 0))
     else c2).
Proof.
  intros Hw Hop Hv Hx Er [Hb Hf] Hcf c2.
  assert (∀ k, 0 ≤ k < 16 → flag c2 (2 ^ k) = if k =? 2 then even_ones x else if k =? 6 then x =? 0
    else if k =? 7 then signed w x <? 0 else if k =? 0 then shift_carry w op v n else flag c (2 ^ k)) as H2.
  { intros k Hk. unfold c2. rewrite flag_cpu_set_flags by done. rewrite (Z.mod_small x) by done.
    rewrite <- (sign_test w x), (truth_bit _ _ (w - 1)) by (done || destruct (width_pos w Hw); lia).
    repeat case_if; try done; [by subst k|apply Hf; lia]. }
  assert (but_flags c2 = but_flags c) as Hb2 by (unfold c2; by rewrite but_cpu_set_flags).
  assert (flag c2 FLAG_CF = shift_carry w op v n) as Hcf2 by (apply (H2 0); lia). clearbody c2.
  set (ob := if op =? 4 then xorb (signed w x <? 0) (shift_carry w op v n) else (op =? 5) && (signed w v <? 0)).
  replace (if n =? 1 then _ else c2) with (if n =? 1 then set_of c2 ob else c2)
    by (unfold ob; rewrite Hcf2; by destruct (n =? 1), (op =? 4)).
  unfold set_of. change FLAG_OF with (2 ^ 11).
  split; try done; try (destruct (n =? 1); flags_pow2; rewrite ?flag_set_flag_eq, ?flag_set_flag_ne, ?H2 by lia; done).
  destruct (n =? 1); [by rewrite but_set_flag|done].
Qed.
End math.

(** ** Decimal adjustment *)

(** Two decimal digits in a byte. *)
Definition bcd (n : Z) : Z := n / 10 * 16 + n mod 10.

(** What DAA and DAS compute from AL, CF and AF: the value and CF. *)
Definition daa (al : Z) (cf af : bool) : Z * bool :=
  let v := if (Z.land al 15 >? 9) || af then u8 (al + 6) else al in
  (if (al >? 0x99) || cf then u8 (v + 0x60) else v, (al >? 0x99) || cf).
Definition das (al : Z) (cf af : bool) : Z * bool :=
  let low := (Z.land al 15 >? 9) || af in
  let v := if low then u8 (al - 6) else al in
  if (al >? 0x99) || cf then (u8 (v - 0x60), true) else (v, low && (cf || (al <? 6))).

Definition pair_eqb (p q : Z * bool) : bool := (p.1 =? q.1) && Bool.eqb p.2 q.2.

Lemma bcd_table :
  forallb (λ a, forallb (λ b,
    pair_eqb (daa (u8 (bcd a + bcd b)) (256 <=? bcd a + bcd b) (16 <=? a mod 10 + b mod 10))
      (bcd ((a + b) mod 100), 100 <=? a + b) &&
    pair_eqb (das (u8 (bcd a - bcd b)) (bcd a <? bcd b) (a mod 10 <? b mod 10))
      (bcd ((a - b) mod 100), a <? b)) (seqZ 0 100)) (seqZ 0 100) = true.
Proof. vm_compute. reflexivity. Qed.

Lemma bcd_adjust a b :
  0 ≤ a < 100 → 0 ≤ b < 100 →
  daa (u8 (bcd a + bcd b)) (256 <=? bcd a + bcd b) (16 <=? a mod 10 + b mod 10) = (bcd ((a + b) mod 100), 100 <=? a + b) ∧
  das (u8 (bcd a - bcd b)) (bcd a <? bcd b) (a mod 10 <? b mod 10) = (bcd ((a - b) mod 100), a <? b).
Proof.
  intros Ha Hb. pose proof bcd_table as H. rewrite forallb_forall in H.
  assert (∀ x, 0 ≤ x < 100 → In x (seqZ 0 100)) as Hin by (intros; apply list_elem_of_In, elem_of_seqZ; lia).
  specialize (H a (Hin a Ha)). rewrite forallb_forall in H. specialize (H b (Hin b Hb)).
  unfold pair_eqb in H. zbool.
  destruct (daa _ _ _), (das _ _ _); simpl in *; repeat match goal with H : Bool.eqb _ _ = true |- _ => apply Bool.eqb_prop in H end.
  by subst.
Qed.

Lemma get8_put8 {D} (c : cpu D) v : get8 (put8 c 0 v) 0 = u8 v.
Proof.
  unfold get8, put8. simpl. rewrite update_eq. apply (bits_eq 8); [apply u8_range|apply u8_range|].
  intros i Hi. unfold u8, u16. rewrite !Z.mod_pow2_bits_low, Z.lor_spec, Z.land_spec by lia.
  change 0xFF00 with (0xFF * 2 ^ 8). rewrite Z.mul_pow2_bits_low, andb_false_r by lia. simpl. apply Z.mod_pow2_bits_low. lia.
Qed.

Lemma flag_put8 {D} (c : cpu D) n v f : flag (put8 c n v) f = flag c f.
Proof. unfold put8. by destruct (truth _). Qed.

Lemma get8_same {D} (c c' : cpu D) n : r c' = r c → get8 c' n = get8 c n.
Proof. unfold get8. by intros ->. Qed.

(** The end of DAA and DAS: the value in AL, CF from the adjustment. *)
Lemma adjust_end {D} (c : cpu D) v cf af :
  0 ≤ v < 2 ^ 8 →
  let c' := cpu_set_flags (put8 (set_af (set_cf c cf) af) 0 v) v 8 in
  get8 c' 0 = v ∧ flag c' FLAG_CF = cf.
Proof.
  intros Hv c'. split.
  - unfold c'. rewrite (get8_same (put8 (set_af (set_cf c cf) af) 0 v)) by apply but_r, but_cpu_set_flags.
    rewrite get8_put8. by apply u8_small.
  - unfold c', set_af, set_cf. flags_pow2. rewrite flag_cpu_set_flags by (lia || by left). cbn [Z.eqb Pos.eqb].
    rewrite flag_put8. by rewrite flag_set_flag_ne, flag_set_flag_eq by lia.
Qed.

Lemma daa_spec {D} (c : cpu D) :
  ∃ c', step_decimal c 0x27 = Some (CPU_OK, c') ∧
    (get8 c' 0, flag c' FLAG_CF) = daa (get8 c 0) (flag c FLAG_CF) (flag c FLAG_AF).
Proof.
  set (low := (Z.land (get8 c 0) 15 >? 9) || flag c FLAG_AF).
  set (cf := (get8 c 0 >? 0x99) || flag c FLAG_CF).
  set (v := if cf then u8 ((if low then u8 (get8 c 0 + 6) else get8 c 0) + 0x60) else if low then u8 (get8 c 0 + 6) else get8 c 0).
  assert (0 ≤ v < 2 ^ 8) as Hv.
  { unfold v, get8. destruct cf, low; try apply u8_range. }
  destruct (adjust_end c v cf low Hv) as [H1 H2]. eexists. split; [reflexivity|]. fold low cf. fold v.
  by rewrite H1, H2.
Qed.

Lemma das_spec {D} (c : cpu D) :
  ∃ c', step_decimal c 0x2F = Some (CPU_OK, c') ∧
    (get8 c' 0, flag c' FLAG_CF) = das (get8 c 0) (flag c FLAG_CF) (flag c FLAG_AF).
Proof.
  set (p := das (get8 c 0) (flag c FLAG_CF) (flag c FLAG_AF)).
  assert (0 ≤ p.1 < 2 ^ 8) as Hv.
  { unfold p, das, get8. repeat case_match; try apply u8_range. }
  destruct (adjust_end c p.1 p.2 ((Z.land (get8 c 0) 15 >? 9) || flag c FLAG_AF) Hv) as [H1 H2].
  eexists. split; [|rewrite H1, H2; by destruct p].
  unfold step_decimal, p, das, set_af. cbn [Z.eqb Pos.eqb].
  by destruct ((Z.land (get8 c 0) 15 >? 9) || flag c FLAG_AF), ((get8 c 0 >? 0x99) || flag c FLAG_CF).
Qed.

(** An ADD or SUB to AL and the adjustment after it. *)
Definition adjusted {D} (c : cpu D) (op adjust a b : Z) : option (cpu_stop * cpu D) :=
  let '(x, c) := alu8 c op a b in step_decimal (put8 c 0 x) adjust.

Lemma bcd_byte a : 0 ≤ a < 100 → byte (bcd a) ∧ bcd a mod 16 = a mod 10.
Proof. unfold byte, bcd. intros Ha. dlia. Qed.

(** The carries of the binary operation on two such bytes. *)
Lemma bcd_carries a b cin :
  0 ≤ a < 100 → 0 ≤ b < 100 →
  carry_out 8 ADD (bcd a) (bcd b) cin = (256 <=? bcd a + bcd b) ∧
  carry_out 4 ADD (bcd a) (bcd b) cin = (16 <=? a mod 10 + b mod 10) ∧
  carry_out 8 SUB (bcd a) (bcd b) cin = (bcd a <? bcd b) ∧
  carry_out 4 SUB (bcd a) (bcd b) cin = (a mod 10 <? b mod 10).
Proof.
  intros Ha Hb. destruct (bcd_byte a Ha) as [Hba Hla], (bcd_byte b Hb) as [Hbb Hlb]. unfold byte in *.
  unfold carry_out, carry_in. cbn [is_add is_sub Z.eqb Pos.eqb orb]. change (2 ^ 4) with 16.
  rewrite !(Z.mod_small _ (2 ^ 8)), Hla, Hlb, !Z.add_0_r by done. done.
Qed.

(** C18: The doubleword division, which works bit by bit, is truncated
    division: DIV and IDIV of EDX:EAX raise the divide error exactly when the
    divisor is zero or the quotient does not fit, and otherwise leave the
    quotient in EAX and the remainder, with the sign of the dividend, in EDX,
    and no other register or flag changed. *)
Theorem divide32_correct {D} (c : cpu D) (divisor : Z) (is_signed : bool) (start : Z) :
  cpu_wf c → 0 ≤ divisor < 2 ^ 32 →
  let n := value 64 is_signed (edx_eax c) in
  let d := value 32 is_signed divisor in
  if (d =? 0) || negb (fits 32 is_signed (Z.quot n d)) then divide32 c divisor is_signed start = divide_error c start
  else ∃ c', divide32 c divisor is_signed start = (CPU_OK, c') ∧
    cpu_reg32 c' AX = u32 (Z.quot n d) ∧ cpu_reg32 c' DX = u32 (Z.rem n d) ∧
    (∀ i, i ≠ AX → i ≠ DX → cpu_reg32 c' i = cpu_reg32 c i) ∧ flags c' = flags c ∧ ip c' = ip c ∧ mem c' = mem c.
Proof.
  intros Hc Hd n d. rewrite divide32_spec by done. fold n d.
  destruct (_ || _); [done|]. eexists. split; [reflexivity|].
  split_and!; [rewrite !reg32_put; cbn [Z.eqb]; apply u32_small, u32_range|
    rewrite reg32_put; apply u32_small, u32_range| |done|done|done].
  intros i Ha Hx. rewrite !reg32_put. by rewrite !(proj2 (Z.eqb_neq _ _)).
Qed.

(** -7 / 2 = -3, remainder -1. *)
Lemma divide32_correct_witness :
  let c := cpu_put_reg32 (cpu_put_reg32 (cpu_init tt) AX 0xFFFFFFF9) DX 0xFFFFFFFF in
  ∃ c', divide32 c 2 true 0 = (CPU_OK, c') ∧
    cpu_reg32 c' AX = u32 (Z.quot (-7) 2) ∧ cpu_reg32 c' DX = u32 (Z.rem (-7) 2) ∧
    (∀ i, i ≠ AX → i ≠ DX → cpu_reg32 c' i = cpu_reg32 c i) ∧ flags c' = flags c ∧ ip c' = ip c ∧ mem c' = mem c.
Proof.
  apply (divide32_correct (cpu_put_reg32 (cpu_put_reg32 (cpu_init tt) AX 0xFFFFFFF9) DX 0xFFFFFFFF) 2 true 0); [|lia].
  apply wf_set_r_hi, wf_set_r, wf_set_r_hi, wf_set_r, wf_cpu_init.
Defined.

(** DIV and IDIV of a word or byte operand compute the truncated quotient
    and remainder of DX:AX or AX into AX, DX or AL, AH, and raise the divide
    error exactly when the divisor is zero or the quotient does not fit. *)
Theorem group3_div_correct {D} (c : cpu D) (rm : operand) (rg : Z) (w : bool) (start : Z) :
  cpu_wf c → rg = 6 ∨ rg = 7 →
  let s := rg =? 7 in
  let n := group3_dividend c s w in
  let d := group3_divisor c rm s w in
  group3_div c rm rg w start =
  if (d =? 0) || negb (fits (if w then 16 else 8) s (Z.quot n d)) then divide_error c start
  else (CPU_OK, group3_store c w (Z.quot n d) (Z.rem n d)).
Proof. apply group3_div_spec. Qed.

(** IDIV of AX = -100 by BL = 7. *)
Lemma group3_div_correct_witness :
  let c := set_r (set_r (cpu_init tt) AX 0xFF9C) BX 7 in
  group3_div c (Operand true 3 0 0) 7 false 0 = (CPU_OK, group3_store c false (-14) (-2)).
Proof.
  apply (group3_div_correct (set_r (set_r (cpu_init tt) AX 0xFF9C) BX 7) (Operand true 3 0 0) 7 false 0); [|by right].
  apply wf_set_r, wf_set_r, wf_cpu_init.
Defined.

(** SHL, SHR and SAR, which the code runs one bit at a time, multiply and
    divide by a power of two: for the count taken modulo 32, the result, the
    last bit shifted out in CF, ZF, SF and PF of the result, OF for a count
    of one, and nothing else; a count of zero changes nothing. *)
Theorem shift_correct {D} (w op v count : Z) (c : cpu D) :
  width w → op = 4 ∨ op = 5 ∨ op = 7 → 0 ≤ v < 2 ^ w →
  let n := count mod 32 in
  if n =? 0 then shift c op v count w = (v, c)
  else ∃ x c', shift c op v count w = (x, c') ∧ shift_spec w op v n c x c'.
Proof.
  intros Hw Hop Hv n. destruct (width_pos w Hw) as (H1 & H2 & H3). unfold shift.
  change 31 with (2 ^ 5 - 1). rewrite (land_ones_mod 5 count) by lia. change (2 ^ 5) with 32. fold n.
  assert (0 ≤ n < 32) as Hn by (apply Z.mod_pos_bound; lia).
  replace (if w =? 32 then _ else _) with (2 ^ w - 1) by (by destruct Hw as [-> | [-> | ->]]).
  replace (Z.shiftl 1 (w - 1)) with (2 ^ (w - 1)) by (by rewrite Z.shiftl_1_l).
  replace ((op =? 2) || (op =? 3)) with false by (by destruct Hop as [-> | [-> | ->]]). cbn [andb].
  rewrite (land_ones_mod w v), (Z.mod_small v) by lia.
  destruct (Z.eqb_spec n 0) as [|Hn0]; [done|].
  destruct (shift_steps_spec w Hw op n c v Hop Hv ltac:(lia)) as (c1 & E & Ho & Hcf). rewrite E.
  replace (4 <=? op) with true by (by destruct Hop as [-> | [-> | ->]]).
  replace ((op =? 0) || (op =? 2) || (op =? 4)) with (op =? 4) by (by destruct Hop as [-> | [-> | ->]]).
  replace ((op =? 1) || (op =? 3)) with false by (by destruct Hop as [-> | [-> | ->]]).
  pose proof (shift_result_range w Hw op v n Hop Hv ltac:(lia)) as Hx.
  rewrite !(sign_test w) by done. eexists _, _. split; [reflexivity|]. by apply shift_flags.
Qed.

(** SAR of 0x80 by 3 at width 8. *)
Lemma shift_correct_witness :
  ∃ x c', shift (cpu_init tt) 7 0x80 3 8 = (x, c') ∧ shift_spec 8 7 0x80 3 (cpu_init tt) x c'.
Proof. apply (shift_correct 8 7 0x80 3 (cpu_init tt)); [by left|right; by right|lia]. Defined.

(** ADD or SUB of two packed decimal bytes and then DAA or DAS gives the
    decimal sum or difference modulo 100, with CF the decimal carry or
    borrow. *)
Theorem decimal_adjust {D} (c : cpu D) (a b : Z) :
  0 ≤ a < 100 → 0 ≤ b < 100 →
  (∃ c', adjusted c ADD 0x27 (bcd a) (bcd b) = Some (CPU_OK, c') ∧
    get8 c' 0 = bcd ((a + b) mod 100) ∧ flag c' FLAG_CF = (100 <=? a + b)) ∧
  (∃ c', adjusted c SUB 0x2F (bcd a) (bcd b) = Some (CPU_OK, c') ∧
    get8 c' 0 = bcd ((a - b) mod 100) ∧ flag c' FLAG_CF = (a <? b)).
Proof.
  intros Ha Hb. destruct (bcd_adjust a b Ha Hb) as [Hadd Hsub], (bcd_carries a b (b2z (flag c FLAG_CF)) Ha Hb) as (C1 & C2 & C3 & C4).
  destruct (bcd_byte a Ha) as [Hba _], (bcd_byte b Hb) as [Hbb _]. unfold adjusted. split.
  - pose proof (alu8_spec c ADD (bcd a) (bcd b) Hba Hbb) as [Ex Ecf _ Eaf _ _ _ _ _ _ _].
    destruct (alu8 _ _ _ _) as [x c1]. cbn [fst snd] in *. destruct (daa_spec (put8 c1 0 x)) as (c' & -> & H).
    exists c'. split; [done|]. rewrite get8_put8, !flag_put8, Ecf, Eaf, Ex, C1, C2 in H.
    change (_ mod 2 ^ 8) with (u8 (bcd a + bcd b)) in H. rewrite (u8_small (u8 _)), Hadd in H by apply u8_range. by injection H.
  - pose proof (alu8_spec c SUB (bcd a) (bcd b) Hba Hbb) as [Ex Ecf _ Eaf _ _ _ _ _ _ _].
    destruct (alu8 _ _ _ _) as [x c1]. cbn [fst snd] in *. destruct (das_spec (put8 c1 0 x)) as (c' & -> & H).
    exists c'. split; [done|]. rewrite get8_put8, !flag_put8, Ecf, Eaf, Ex, C3, C4 in H.
    change (_ mod 2 ^ 8) with (u8 (bcd a - bcd b)) in H. rewrite (u8_small (u8 _)), Hsub in H by apply u8_range. by injection H.
Qed.

(** 58 + 67 and 58 - 67. *)
Lemma decimal_adjust_witness :
  (∃ c', adjusted (cpu_init tt) ADD 0x27 0x58 0x67 = Some (CPU_OK, c') ∧ get8 c' 0 = 0x25 ∧ flag c' FLAG_CF = true) ∧
  (∃ c', adjusted (cpu_init tt) SUB 0x2F 0x58 0x67 = Some (CPU_OK, c') ∧ get8 c' 0 = 0x91 ∧ flag c' FLAG_CF = true).
Proof. apply (decimal_adjust (cpu_init tt) 58 67); lia. Defined.
