(* ===== verification/CpuStack.v ===== *)
(** * The stack of the dosrun processor

    The words at SS:SP are a list on which [push16] and [pop16] act as cons
    and tail. PUSHA/POPA and INT/IRET restore what they saved. *)
From S2P Require Import Prelude Cpu CpuWf.
Local Open Scope Z_scope.

(** ** The stack as a list *)

(** The [k] words from SS:SP upwards, offsets wrapping at 64 KiB. *)
Fixpoint words {D} (k : nat) (c : cpu D) (o : Z) : list Z :=
  match k with O => [] | S k => rd16 c (sreg c 2) o :: words k c (u16 (o + 2)) end.
Definition stack {D} (c : cpu D) (k : nat) : list Z := words k c (r c SP).

(** The most words that fit the segment below the one about to be pushed. *)
Definition STACK_WORDS : nat := Z.to_nat 32767.

Section stack.
Context {D : Type}.
Implicit Types c : cpu D.

(** ** Words in memory *)

Lemma land_mem a : Z.land a (MEM_SIZE - 1) = a mod 2 ^ 20.
Proof. change (MEM_SIZE - 1) with (2 ^ 20 - 1). apply land_ones_mod. lia. Qed.

Lemma word_of_bytes v : Z.lor (u8 v) (Z.shiftl (u8 (Z.shiftr (u16 v) 8)) 8) = u16 v.
Proof.
  rewrite Z.shiftr_div_pow2, Z.shiftl_mul_pow2 by lia. unfold u8, u16.
  rewrite Z.lor_comm, (lor_add 8) by dlia. dlia.
Qed.

Lemma lin_word s o : word s → word o → lin s o = 16 * s + o.
Proof. unfold word. intros Hs Ho. unfold lin. rewrite !u16_small, Z.shiftl_mul_pow2 by lia. lia. Qed.

Lemma rd16_wr16_eq c s o v : rd16 (wr16 c s o v) s o = u16 v.
Proof.
  unfold rd16, wr16, mem_r16, mem_w16. rewrite !land_mem. simpl. rewrite !update_eq.
  rewrite update_ne, update_eq by dlia. rewrite word_of_bytes. apply u16_small, u16_range.
Qed.

Lemma rd16_wr16_ne c s o o' v :
  word s → word o → word o' → 2 ≤ Z.abs (o - o') → rd16 (wr16 c s o v) s o' = rd16 c s o'.
Proof.
  intros Hs Ho Ho' Hd. unfold rd16, wr16, mem_r16, mem_w16. rewrite !lin_word, !land_mem by done.
  unfold word in *. simpl. rewrite !update_ne by dlia. done.
Qed.

(** ** Push and pop *)

Lemma sreg_push16 c v : sreg (push16 c v) = sreg c.
Proof. done. Qed.
Lemma ip_push16 c v : ip (push16 c v) = ip c.
Proof. done. Qed.
Lemma flags_push16 c v : flags (push16 c v) = flags c.
Proof. done. Qed.
Lemma r_push16 c v i : r (push16 c v) i = if i =? SP then u16 (r c SP - 2) else r c i.
Proof. done. Qed.

Lemma words_push16 c v k o j :
  cpu_wf c → word o → o = u16 (r c SP + 2 * j) → 0 ≤ j → j + Z.of_nat k ≤ 32767 →
  words k (push16 c v) o = words k c o.
Proof.
  intros Hc. revert o j. induction k as [|k IH]; intros o j Ho Hj ? ?; simpl; [done|]. f_equal.
  - unfold push16. rewrite rd16_wr16_ne; [done|apply Hc|apply u16_range|done|].
    simpl. unfold update. rewrite Z.eqb_refl. pose proof (wf_r c Hc SP). unfold word, u16 in *. subst o. dlia.
  - apply (IH _ (j + 1)); [apply u16_range| |lia|lia]. subst o. unfold u16. rewrite Zplus_mod_idemp_l. f_equal. lia.
Qed.

Lemma stack_push16 c v k :
  cpu_wf c → (k ≤ STACK_WORDS)%nat → stack (push16 c v) (S k) = u16 v :: stack c k.
Proof.
  intros Hc Hk. unfold stack. cbn [words]. rewrite sreg_push16, r_push16. cbn [Z.eqb Pos.eqb]. f_equal.
  - apply (rd16_wr16_eq (set_r c SP (r c SP - 2))).
  - unfold STACK_WORDS in Hk. replace (u16 (u16 (r c SP - 2) + 2)) with (r c SP).
    + apply (words_push16 c v k _ 0); [done|apply Hc| |lia|lia]. rewrite u16_small; [lia|].
      pose proof (wf_r c Hc SP). unfold word in *. lia.
    + pose proof (wf_r c Hc SP). unfold word, u16 in *. dlia.
Qed.

(** The stack depends on SS and memory only. *)
Lemma words_eq c c' k o : sreg c 2 = sreg c' 2 → mem c = mem c' → words k c o = words k c' o.
Proof.
  intros Hs Hm. revert o. induction k as [|k IH]; intros o; simpl; [done|].
  rewrite Hs, IH. unfold rd16, mem_r16. by rewrite Hm.
Qed.

(** [pop16] takes the head off. *)
Lemma stack_pop16 c k : stack c (S k) = (pop16 c).1 :: stack (pop16 c).2 k.
Proof. unfold stack. cbn [words]. f_equal. by apply words_eq. Qed.
Lemma wf_popped c : cpu_wf c → cpu_wf (pop16 c).2.
Proof. intros Hc. unfold pop16. cbn [snd]. auto with cpu. Qed.

Lemma stack_set_r c i v k : i ≠ SP → stack (set_r c i v) k = stack c k.
Proof. intros Hi. unfold stack. simpl. rewrite update_ne by done. by apply words_eq. Qed.

(** ** PUSHA and POPA *)

(** The order in which PUSHA leaves the registers. *)
Definition saved c : list Z := [r c DI; r c SI; r c BP; r c SP; r c BX; r c DX; r c CX; r c AX].

Lemma stack_pushes c l k :
  cpu_wf c → (length l + k ≤ STACK_WORDS)%nat →
  stack (foldl push16 c l) (length l + k) = reverse (u16 <$> l) ++ stack c k.
Proof.
  revert c k. induction l as [|v l IH]; intros c k Hc Hk; [done|]. cbn [length] in *.
  replace (S (length l) + k)%nat with (length l + S k)%nat by lia. cbn [foldl].
  rewrite IH by (apply wf_push16, Hc || lia). rewrite stack_push16 by (done || lia).
  by rewrite fmap_cons, reverse_cons, <- app_assoc.
Qed.

Lemma r_pushes c l i : i ≠ SP → r (foldl push16 c l) i = r c i.
Proof.
  intros Hi. revert c. induction l as [|v l IH]; intros c; [done|]. cbn [foldl]. rewrite IH, r_push16.
  by rewrite (proj2 (Z.eqb_neq _ _)).
Qed.

Lemma push_loop c0 c sp l :
  (∀ i, i ≠ SP → r c i = r c0 i) →
  foldl (λ c i, push16 c (if i =? SP then sp else r c i)) c l =
  foldl push16 c ((λ i, if i =? SP then sp else r c0 i) <$> l).
Proof.
  revert c. induction l as [|i l IH]; intros c Hr; [done|]. cbn [foldl fmap list_fmap].
  replace (if i =? SP then sp else r c i) with (if i =? SP then sp else r c0 i)
    by (destruct (Z.eqb_spec i SP); [done|by rewrite Hr]).
  apply IH. intros j Hj. rewrite r_push16, (proj2 (Z.eqb_neq j SP) Hj). by apply Hr.
Qed.

Lemma pusha_eq c : pusha c = foldl push16 c (reverse (saved c)).
Proof. unfold pusha, for_range. by rewrite (push_loop c). Qed.

(** The body of the loop of [popa] for register [i]. *)
Definition pop_reg c (i : Z) : cpu D :=
  let '(value, c) := pop16 c in if negb (i =? SP) then set_r c i value else c.

Lemma pop_reg_spec c i v l k :
  cpu_wf c → stack c (S k) = v :: l →
  cpu_wf (pop_reg c i) ∧ stack (pop_reg c i) k = l ∧ (i ≠ SP → r (pop_reg c i) i = v) ∧
  (∀ j, j ≠ i → j ≠ SP → r (pop_reg c i) j = r c j) ∧ r (pop_reg c i) SP = u16 (r c SP + 2) ∧
  sreg (pop_reg c i) = sreg c ∧ mem (pop_reg c i) = mem c.
Proof.
  intros Hc Hs. pose proof (wf_popped c Hc) as Hp. rewrite stack_pop16 in Hs. assert ((pop16 c).1 = v ∧ stack (pop16 c).2 k = l) as [Hv Hl] by (by injection Hs).
  assert (word v) as Hw by (rewrite <- Hv; apply u16_range).
  unfold pop_reg. destruct (pop16 c) as [x c1] eqn:E. cbn [fst snd] in *. rewrite Hv.
  assert (r c1 = update (r c) SP (u16 (r c SP + 2)) ∧ sreg c1 = sreg c ∧ mem c1 = mem c) as (Hr & Hsr & Hm)
    by (by injection E as _ <-).
  destruct (Z.eqb_spec i SP) as [->|Hi]; cbn [negb].
  - split_and!; try done; [intros j _ Hj|]; rewrite Hr; [by apply update_ne|apply update_eq].
  - split_and!; try done.
    + auto with cpu.
    + by rewrite stack_set_r.
    + intros _. simpl. rewrite update_eq. by apply u16_small.
    + intros j Hj Hj'. simpl. rewrite update_ne, Hr by done. by apply update_ne.
    + simpl. rewrite update_ne, Hr by done. apply update_eq.
Qed.

(** Popping a list of registers. *)
Lemma pop_regs_spec regs vals l k c :
  cpu_wf c → NoDup regs → length vals = length regs → stack c (length regs + k) = vals ++ l →
  let c' := foldl pop_reg c regs in
  stack c' k = l ∧ (∀ n i v, regs !! n = Some i → vals !! n = Some v → i ≠ SP → r c' i = v) ∧
  (∀ j, j ∉ regs → j ≠ SP → r c' j = r c j) ∧ r c' SP = u16 (r c SP + 2 * Z.of_nat (length regs)) ∧
  sreg c' = sreg c ∧ mem c' = mem c.
Proof.
  revert vals c. induction regs as [|i regs IH]; intros [|v vals] c Hc Hnd Hlen Hs; try done; cbn [foldl length] in *.
  - split_and!; try done. rewrite u16_small; [lia|]. pose proof (wf_r c Hc SP). unfold word in *. lia.
  - apply NoDup_cons in Hnd as [Hi Hnd].
    destruct (pop_reg_spec c i v (vals ++ l) (length regs + k) Hc Hs) as (Hc1 & Hs1 & Hv & Ho & Hsp & Hsr & Hm).
    destruct (IH vals (pop_reg c i) Hc1 Hnd ltac:(lia) Hs1) as (H1 & H2 & H3 & H4 & H5 & H6).
    split_and!; [done| | | |by rewrite H5|by rewrite H6].
    + intros [|n] j w Hj Hw Hne; simpl in *; [|by eapply H2]. injection Hj as <-. injection Hw as <-. rewrite H3 by done. by apply Hv.
    + intros j Hj Hne. apply not_elem_of_cons in Hj as [? ?]. rewrite H3 by done. by apply Ho.
    + rewrite H4, Hsp. unfold u16. rewrite Zplus_mod_idemp_l. f_equal. lia.
Qed.

Lemma popa_eq c : popa c = foldl pop_reg c [DI; SI; BP; SP; BX; DX; CX; AX].
Proof.
  change [DI; SI; BP; SP; BX; DX; CX; AX] with ((λ k, 7 - k) <$> seqZ 0 (8 - 0)).
  rewrite foldl_fmap. unfold popa, for_range. generalize (seqZ 0 (8 - 0)) as l. intros l. revert c.
  induction l as [|i l IH]; intros c; [reflexivity|]. cbn [foldl]. exact (IH (pop_reg c (7 - i))).
Qed.

Lemma saved_word c : cpu_wf c → u16 <$> reverse (saved c) = reverse (saved c).
Proof.
  intros Hc. change (reverse (saved c)) with [r c AX; r c CX; r c DX; r c BX; r c SP; r c BP; r c SI; r c DI].
  cbn [fmap list_fmap]. by rewrite !u16_small by apply Hc.
Qed.

Lemma stack_pusha c k :
  cpu_wf c → (8 + k ≤ STACK_WORDS)%nat → stack (pusha c) (8 + k) = saved c ++ stack c k.
Proof.
  intros Hc Hk. rewrite pusha_eq. change (8 + k)%nat with (length (reverse (saved c)) + k)%nat. rewrite stack_pushes by done.
  by rewrite saved_word, reverse_involutive.
Qed.

Lemma pushes_same c l :
  cpu_wf c →
  sreg (foldl push16 c l) = sreg c ∧ r (foldl push16 c l) SP = u16 (r c SP - 2 * Z.of_nat (length l)).
Proof.
  revert c. induction l as [|v l IH]; intros c Hc; cbn [foldl length].
  - split; [done|]. rewrite u16_small; [lia|]. pose proof (wf_r c Hc SP). unfold word in *. lia.
  - destruct (IH (push16 c v) (wf_push16 c v Hc)) as [-> ->]. split; [done|].
    rewrite r_push16. cbn [Z.eqb Pos.eqb]. unfold u16. rewrite Zminus_mod_idemp_l. f_equal. lia.
Qed.

Lemma wf_pushes c l : cpu_wf c → cpu_wf (foldl push16 c l).
Proof. revert c. induction l as [|v l IH]; intros c Hc; [done|]. apply IH, wf_push16, Hc. Qed.

Lemma saved_lookup c i : 0 ≤ i < 8 → saved c !! Z.to_nat (7 - i) = Some (r c i).
Proof.
  intros Hi. assert (i ∈ [AX; CX; DX; BX; SP; BP; SI; DI]) as Hin by (change (i ∈ seqZ 0 8); apply elem_of_seqZ; lia).
  clear Hi. repeat apply elem_of_cons in Hin as [-> | Hin]; [done..|by apply elem_of_nil in Hin].
Qed.

Lemma order_lookup i : 0 ≤ i < 8 → [DI; SI; BP; SP; BX; DX; CX; AX] !! Z.to_nat (7 - i) = Some i.
Proof.
  intros Hi. assert (i ∈ [AX; CX; DX; BX; SP; BP; SI; DI]) as Hin by (change (i ∈ seqZ 0 8); apply elem_of_seqZ; lia).
  clear Hi. repeat apply elem_of_cons in Hin as [-> | Hin]; [done..|by apply elem_of_nil in Hin].
Qed.

(** ** Interrupts *)

(** The state IRET leaves. *)
Definition iret c : cpu D :=
  let '(v, c) := pop16 c in
  let c := set_ip c v in
  let '(s, c) := pop16 c in
  let c := set_sreg c 1 s in
  let '(f, c) := pop16 c in
  set_flags c f.

Lemma step16_iret junk pin pout c ov st : step16 junk pin pout c 0xCF 0 ov st = Ok (CPU_IRET, iret c).
Proof. reflexivity. Qed.

Lemma pop16_spec c v l k c' x :
  stack c (S k) = v :: l → pop16 c = (x, c') →
  x = v ∧ stack c' k = l ∧ c' = set_r c SP (r c SP + 2).
Proof. intros H E. rewrite stack_pop16, E in H. injection E as _ <-. by injection H. Qed.

Lemma iret_spec c v s f l k :
  word v → word s → word f → stack c (3 + k) = v :: s :: f :: l →
  let c' := iret c in
  ip c' = v ∧ (∀ i, sreg c' i = if i =? 1 then s else sreg c i) ∧ flags c' = f ∧
  (∀ i, r c' i = if i =? SP then u16 (r c SP + 6) else r c i) ∧ stack c' k = l.
Proof.
  intros Hv Hs Hf H c'.
  destruct (pop16 c) as [x1 c1] eqn:E1. destruct (pop16_spec c v (s :: f :: l) (2 + k) c1 x1 H E1) as (-> & H1 & Hc1).
  destruct (pop16 (set_ip c1 v)) as [x2 c2] eqn:E2.
  destruct (pop16_spec (set_ip c1 v) s (f :: l) (1 + k) c2 x2) as (-> & H2 & Hc2); [rewrite <- H1; by apply words_eq|done|].
  destruct (pop16 (set_sreg c2 1 s)) as [x3 c3] eqn:E3.
  destruct (pop16_spec (set_sreg c2 1 s) f l k c3 x3) as (-> & H3 & Hc3); [rewrite <- H2; by apply words_eq|done|].
  assert (c' = set_flags c3 f) as -> by (unfold c', iret; by rewrite E1, E2, E3). clear E1 E2 E3.
  split_and!.
  - rewrite Hc3, Hc2. simpl. by apply u16_small.
  - intros i. rewrite Hc3, Hc2, Hc1. simpl. unfold update. destruct (i =? 1); [|done]. by apply u16_small.
  - by apply u16_small.
  - intros i. rewrite Hc3, Hc2, Hc1. simpl. unfold update. destruct (i =? SP); [|done]. rewrite !Z.eqb_refl.
    unfold u16. repeat rewrite Zplus_mod_idemp_l, <- !Z.add_assoc. reflexivity.
  - rewrite <- H3. by apply words_eq.
Qed.

(** The frame is pushed, then the flags, CS and IP of the handler set. *)
Lemma take_interrupt_eq c v :
  ∃ s o, take_interrupt c v =
    set_ip (set_sreg (set_flags (foldl push16 c [flags c; sreg c 1; ip c])
      (Z.land (flags c) (Z.lnot (Z.lor FLAG_IF FLAG_TF)))) 1 s) o.
Proof.
  unfold take_interrupt, cpu_enter_interrupt. cbv zeta. cbn [foldl].
  rewrite !ip_push16, !flags_push16, !sreg_push16. cbv beta iota. eexists _, _. reflexivity.
Qed.

Lemma enter_handler (p : cpu D) f s o k :
  let c := set_ip (set_sreg (set_flags p f) 1 s) o in
  stack c k = stack p k ∧ (∀ i, i ≠ 1 → sreg c i = sreg p i) ∧ r c = r p ∧ flags c = u16 f.
Proof. split_and!; [by apply words_eq|intros i Hi; by apply update_ne|done|done]. Qed.

Lemma take_interrupt_spec c v k :
  cpu_wf c → (3 + k ≤ STACK_WORDS)%nat →
  let c' := take_interrupt c v in
  cpu_wf c' ∧ stack c' (3 + k) = ip c :: sreg c 1 :: flags c :: stack c k ∧
  (∀ i, i ≠ 1 → sreg c' i = sreg c i) ∧
  (∀ i, r c' i = if i =? SP then u16 (r c SP - 6) else r c i) ∧
  flags c' = u16 (Z.land (flags c) (Z.lnot (Z.lor FLAG_IF FLAG_TF))).
Proof.
  intros Hc Hk. split; [apply wf_take_interrupt, Hc|].
  pose proof (stack_pushes c [flags c; sreg c 1; ip c] k Hc Hk) as Hs.
  destruct (pushes_same c [flags c; sreg c 1; ip c] Hc) as [Hsr Hsp].
  pose proof (λ i, r_pushes c [flags c; sreg c 1; ip c] i) as Hr.
  cbn [length fmap list_fmap] in Hs, Hsp. rewrite !u16_small in Hs by apply Hc.
  destruct (take_interrupt_eq c v) as (s & o & ->).
  generalize dependent (foldl push16 c [flags c; sreg c 1; ip c]). intros p Hs Hsr Hsp Hr.
  destruct (enter_handler p (Z.land (flags c) (Z.lnot (Z.lor FLAG_IF FLAG_TF))) s o (3 + k)) as (-> & H2 & -> & ->).
  split; [exact Hs|]. split; [intros i Hi; by rewrite H2, Hsr|]. split; [|done].
  intros i. destruct (Z.eqb_spec i SP) as [->|Hi]; [exact Hsp|by apply Hr].
Qed.

(** ** ENTER *)

Lemma r_sp_push16 c v : r (push16 c v) SP = u16 (r c SP - 2).
Proof. done. Qed.

Lemma enter_frames_sp n c : r (enter_frames n c) SP = if decide (n = O) then r c SP else u16 (r c SP - 2 * Z.of_nat n).
Proof.
  revert c. induction n as [|n IH]; intros c; [done|]. cbn [enter_frames]. rewrite IH, r_sp_push16.
  rewrite (decide_False (P := S n = O)) by done. simpl r. rewrite update_ne by done. case_decide; [by subst|].
  unfold u16. rewrite Zminus_mod_idemp_l. f_equal. lia.
Qed.
End stack.

(** ENTER leaves SP two bytes lower than the push of BP, the [level] words
    of the display and the locals account for: the frame pointer is pushed
    after [level] outer pointers, where the instruction set copies one less,
    and is pushed for level 0 too. *)
Lemma enter_sp {D} junk (c : cpu D) ov :
  let size := rd16 c (sreg c 1) (ip c) in
  let level := rd8 c (sreg c 1) (ip c + 2) in
  ∃ c', step_return junk c 0xC8 ov = Some (CPU_OK, c') ∧
    r c' SP = u16 (r c SP - 2 - 2 * Z.of_nat (Z.to_nat level) - size - 2).
Proof.
  intros size level. eexists. split; [reflexivity|]. fold size level.
  set (c1 := push16 (set_ip c (ip c + 3)) _). set (f := enter_frames _ c1).
  assert (u16 (r f SP) = u16 (r c SP - 2 - 2 * Z.of_nat (Z.to_nat level))) as H2.
  { unfold f. rewrite enter_frames_sp. change (r c1 SP) with (u16 (r c SP - 2)). unfold u16. case_decide as E.
    - rewrite E. change (2 * Z.of_nat 0) with 0. by rewrite Zmod_mod, Z.sub_0_r.
    - by rewrite Zmod_mod, Zminus_mod_idemp_l. }
  generalize dependent f. generalize (r c1 SP). intros frame f H2. simpl. rewrite update_eq, update_ne by done. simpl.
  unfold update. rewrite Z.eqb_refl. unfold u16 in *.
  rewrite Zminus_mod_idemp_l, <- Z.sub_add_distr, <- Zminus_mod_idemp_l, H2, Zminus_mod_idemp_l. f_equal. lia.
Qed.

(** The words at SS:SP behave as a list: a push conses its operand, cut
    to a word, and leaves the words below as they were, a pop returns the
    head and leaves the tail. It holds for every SS:SP, with the offset
    wrapping inside the segment and the address at one megabyte, as long as
    the words fit the segment. *)
Theorem stack_is_list {D} (c : cpu D) (v : Z) (k : nat) :
  cpu_wf c → (k ≤ STACK_WORDS)%nat →
  stack (push16 c v) (S k) = u16 v :: stack c k ∧
  stack c (S k) = (pop16 c).1 :: stack (pop16 c).2 k ∧
  (pop16 (push16 c v)).1 = u16 v ∧ stack (pop16 (push16 c v)).2 k = stack c k.
Proof.
  intros Hc Hk. pose proof (stack_push16 c v k Hc Hk) as H. split; [done|]. split; [apply stack_pop16|].
  rewrite stack_pop16 in H. by injection H.
Qed.

(** A word pushed by a program with SP = 0. *)
Lemma stack_is_list_witness :
  let c := cpu_init tt in
  stack (push16 c 0x12345) 3 = u16 0x12345 :: stack c 2 ∧
  stack c 3 = (pop16 c).1 :: stack (pop16 c).2 2 ∧
  (pop16 (push16 c 0x12345)).1 = u16 0x12345 ∧ stack (pop16 (push16 c 0x12345)).2 2 = stack c 2.
Proof. apply (stack_is_list (cpu_init tt) 0x12345 2); [apply wf_cpu_init|unfold STACK_WORDS; lia]. Defined.

(** POPA after PUSHA restores all eight registers, SP included, and
    leaves the segment registers and the words of the stack as they were. *)
Theorem pusha_popa {D} (c : cpu D) (k : nat) :
  cpu_wf c → (8 + k ≤ STACK_WORDS)%nat →
  let c' := popa (pusha c) in
  (∀ i, 0 ≤ i < 8 → r c' i = r c i) ∧ sreg c' = sreg c ∧ stack c' k = stack c k.
Proof.
  intros Hc Hk c'. pose proof (stack_pusha c k Hc Hk) as Hs.
  assert (cpu_wf (pusha c)) as Hp by (rewrite pusha_eq; by apply wf_pushes).
  destruct (pushes_same c (reverse (saved c)) Hc) as [Hsr Hsp]. rewrite <- pusha_eq in Hsr, Hsp.
  destruct (pop_regs_spec [DI; SI; BP; SP; BX; DX; CX; AX] (saved c) (stack c k) k (pusha c)) as (H1 & H2 & _ & H4 & H5 & _);
    [done|by apply (bool_decide_unpack _)|done|done|].
  rewrite <- popa_eq in H1, H2, H4, H5. fold c' in H1, H2, H4, H5. clearbody c'.
  split; [|split; [congruence|exact H1]].
  intros i Hi. destruct (decide (i = SP)) as [->|Hne].
  - rewrite H4, Hsp. pose proof (wf_r c Hc SP). change (length (reverse (saved c))) with 8%nat. unfold word, u16 in *. simpl. dlia.
  - by eapply (H2 (Z.to_nat (7 - i))); [apply order_lookup|apply saved_lookup|].
Qed.

Lemma pusha_popa_witness :
  let c := cpu_init tt in let c' := popa (pusha c) in
  (∀ i, 0 ≤ i < 8 → r c' i = r c i) ∧ sreg c' = sreg c ∧ stack c' 1 = stack c 1.
Proof. apply (pusha_popa (cpu_init tt) 1); [apply wf_cpu_init|unfold STACK_WORDS; lia]. Defined.

(** Without IF no interrupt is taken. *)
Lemma check_irq_off {D} ack (c : cpu D) :
  flag c FLAG_IF = false →
  check_irq ack c = (false, if truth (irq_shadow c) then set_irq_shadow c (irq_shadow c - 1) else c).
Proof.
  intros Hf. unfold check_irq. destruct (truth (irq_shadow c)); [done|]. cbn [negb andb]. by rewrite Hf.
Qed.

(** An opcode that is not a prefix. *)
Lemma read_prefixes_plain {D} n (c : cpu D) p st op :
  rd8 c (sreg c 1) (ip c) = op → among op [0x66; 0x26; 0x2E; 0x36; 0x3E; 0xF2; 0xF3] = false →
  read_prefixes (S n) c p st = (Some (op, p), set_ip c (ip c + 1)).
Proof.
  intros Hop Hp. cbn [read_prefixes fetch8]. rewrite Hop.
  cbn [among existsb] in Hp. repeat apply orb_false_iff in Hp as [-> Hp]. cbn [among existsb].
  repeat match goal with H : _ || _ = false |- _ => apply orb_false_iff in H as [-> ?] end. done.
Qed.

(** A step of the processor at an IRET. *)
Lemma cpu_step_iret {D} junk pin pout ack (c : cpu D) :
  flag c FLAG_IF = false → rd8 c (sreg c 1) (ip c) = 0xCF →
  ∃ c0, cpu_step junk pin pout ack c = Ok (CPU_IRET, iret c0) ∧
    r c0 = r c ∧ sreg c0 = sreg c ∧ mem c0 = mem c.
Proof.
  intros Hf Hop. unfold cpu_step. rewrite check_irq_off by done.
  set (c1 := if truth (irq_shadow c) then _ else c).
  assert (r c1 = r c ∧ sreg c1 = sreg c ∧ mem c1 = mem c ∧ ip c1 = ip c) as (Hr & Hs & Hm & Hi)
    by (unfold c1; by destruct (truth _)).
  clearbody c1.
  assert (rd8 c1 (sreg c1 1) (ip c1) = 0xCF) as Hop1 by (rewrite <- Hop, Hs, Hi; unfold rd8, mem_r8; by rewrite Hm).
  rewrite (read_prefixes_plain 14 c1 _ _ 0xCF) by done. cbn [p_operand32 p_rep p_override]. rewrite step16_iret.
  eexists. split; [reflexivity|]. cbn. by rewrite Hr, Hs, Hm.
Qed.

(** An interrupt returns where it came from: when the handler that the
    vector table names starts with IRET, the step after the interrupt was
    taken resumes the interrupted program with its CS:IP, all registers and
    segments, SP, the flags word (IF and TF included) and the stack as they
    were, however SP wraps. *)
Theorem interrupt_iret {D} (junk : Z) pin pout ack (c : cpu D) (vector : Z) (k : nat) :
  cpu_wf c → (3 + k ≤ STACK_WORDS)%nat →
  let c1 := take_interrupt c vector in
  rd8 c1 (sreg c1 1) (ip c1) = 0xCF →
  ∃ c2, cpu_step junk pin pout ack c1 = Ok (CPU_IRET, c2) ∧ ip c2 = ip c ∧ flags c2 = flags c ∧
    (∀ i, sreg c2 i = sreg c i) ∧ (∀ i, r c2 i = r c i) ∧ stack c2 k = stack c k.
Proof.
  intros Hc Hk c1 Hop. destruct (take_interrupt_spec c vector k Hc Hk) as (Hc1 & Hst & Hsr & Hr & Hfl).
  fold c1 in Hc1, Hst, Hsr, Hr, Hfl. clearbody c1.
  destruct (cpu_step_iret junk pin pout ack c1) as (c0 & -> & Hr0 & Hs0 & Hm0); [|done|].
  { unfold flag. rewrite Hfl, u16_small by (apply land_range_l; [lia|apply Hc]).
    rewrite <- Z.land_assoc. change (Z.land (Z.lnot _) FLAG_IF) with 0. by rewrite Z.land_0_r. }
  eexists. split; [reflexivity|].
  destruct (iret_spec c0 (ip c) (sreg c 1) (flags c) (stack c k) k) as (H1 & H2 & H3 & H4 & H5); [apply Hc..| |].
  { rewrite <- Hst. unfold stack. rewrite Hr0. apply words_eq; [by rewrite Hs0|done]. }
  split; [exact H1|]. split; [exact H3|]. split; [|split; [|exact H5]].
  - intros i. rewrite H2. destruct (Z.eqb_spec i 1) as [->|Hi]; [done|]. rewrite Hs0. by apply Hsr.
  - intros i. rewrite H4, Hr0, !Hr. destruct (Z.eqb_spec i SP) as [->|Hi]; [|done]. cbn [Z.eqb Pos.eqb].
    pose proof (wf_r c Hc SP). unfold word, u16 in *. dlia.
Qed.

(** Vector 9 of a machine whose memory holds IRET at 0000:0000. *)
Lemma interrupt_iret_witness :
  let c := mem_w8 (set_sreg (set_r (cpu_init tt) SP 0x100) 2 0x2000) 0 0xCF in
  let c1 := take_interrupt c 9 in
  ∃ c2, cpu_step 0 None None None c1 = Ok (CPU_IRET, c2) ∧ ip c2 = ip c ∧ flags c2 = flags c ∧
    (∀ i, sreg c2 i = sreg c i) ∧ (∀ i, r c2 i = r c i) ∧ stack c2 4 = stack c 4.
Proof.
  apply interrupt_iret; [|unfold STACK_WORDS; lia|reflexivity].
  apply wf_set_mem, wf_set_sreg, wf_set_r, wf_cpu_init.
Defined.
