(* ===== verification/Sha256.v ===== *)
(** * SHA-256 and HMAC ([zkt/kernel/sha256.c]) and the proofs of ZRP
    ([zkt/net/zrp_auth.c])

    The streaming hash with its block buffer and bit counter, against the
    definition on whole messages: padding, then compression block by block.
    Bytes are integers below 256, arrays are lists. [compress] is the code's
    own and its words are checked on the standard's examples. *)
From Stdlib Require Import Ascii String.
From S2P Require Import Prelude.
Local Open Scope Z_scope.

(** ** The code *)

Abbreviation SHA256_BYTES := 32%Z (only parsing).
Abbreviation SHA256_BLOCK := 64%Z (only parsing).

(** The words of a table written in hexadecimal, as the source lists them. *)
Definition hex_digit (c : ascii) : option Z :=
  let n := Z.of_nat (nat_of_ascii c) in
  if (0x30 <=? n) && (n <=? 0x39) then Some (n - 0x30)
  else if (0x61 <=? n) && (n <=? 0x66) then Some (n - 0x61 + 10) else None.

Fixpoint hex_words_from (s : string) (digits acc : Z) : list Z :=
  match s with
  | EmptyString => if digits =? 0 then [] else [acc]
  | String c s =>
      match hex_digit c with
      | Some d => hex_words_from s (digits + 1) (acc * 16 + d)
      | None => if digits =? 0 then hex_words_from s 0 0 else acc :: hex_words_from s 0 0
      end
  end.
Definition hex_words (s : string) : list Z := hex_words_from s 0 0.

Definition K : list Z := Eval vm_compute in hex_words "
  428a2f98 71374491 b5c0fbcf e9b5dba5 3956c25b 59f111f1 923f82a4 ab1c5ed5
  d807aa98 12835b01 243185be 550c7dc3 72be5d74 80deb1fe 9bdc06a7 c19bf174
  e49b69c1 efbe4786 0fc19dc6 240ca1cc 2de92c6f 4a7484aa 5cb0a9dc 76f988da
  983e5152 a831c66d b00327c8 bf597fc7 c6e00bf3 d5a79147 06ca6351 14292967
  27b70a85 2e1b2138 4d2c6dfc 53380d13 650a7354 766a0abb 81c2c92e 92722c85
  a2bfe8a1 a81a664b c24b8b70 c76c51a3 d192e819 d6990624 f40e3585 106aa070
  19a4c116 1e376c08 2748774c 34b0bcb5 391c0cb3 4ed8aa4a 5b9cca4f 682e6ff3
  748f82ee 78a5636f 84c87814 8cc70208 90befffa a4506ceb bef9a3f7 c67178f2".

Record sha256_ctx := Ctx { h : list Z; block : list Z; used : Z; bits_lo : Z; bits_hi : Z }.

Definition ror (x n : Z) : Z := Z.lor (Z.shiftr x n) (u32 (Z.shiftl x (32 - n))).

(** The sixteen words of the block, then the rest of the message_schedule. *)
Definition message_schedule (p : list Z) : list Z :=
  let b i := aget 0 p i in
  let w := for_range 0 16 (λ t w, w ++ [
    Z.lor (Z.lor (Z.lor (u32 (Z.shiftl (b (4 * t)) 24)) (Z.shiftl (b (4 * t + 1)) 16)) (Z.shiftl (b (4 * t + 2)) 8))
      (b (4 * t + 3))]) [] in
  for_range 16 64 (λ t w,
    let x i := aget 0 w i in
    let s0 := Z.lxor (Z.lxor (ror (x (t - 15)) 7) (ror (x (t - 15)) 18)) (Z.shiftr (x (t - 15)) 3) in
    let s1 := Z.lxor (Z.lxor (ror (x (t - 2)) 17) (ror (x (t - 2)) 19)) (Z.shiftr (x (t - 2)) 10) in
    w ++ [u32 (x (t - 16) + s0 + x (t - 7) + s1)]) w.

(** One round on the eight variables [a] to [h]. *)
Definition round (w : list Z) (t : Z) (s : list Z) : list Z :=
  match s with
  | [a; b; cc; d; e; f; g; h] =>
      let t1 := u32 (h + Z.lxor (Z.lxor (ror e 6) (ror e 11)) (ror e 25)
                     + Z.lxor (Z.land e f) (Z.land (not32 e) g) + aget 0 K t + aget 0 w t) in
      let t2 := u32 (Z.lxor (Z.lxor (ror a 2) (ror a 13)) (ror a 22)
                     + Z.lxor (Z.lxor (Z.land a b) (Z.land a cc)) (Z.land b cc)) in
      [u32 (t1 + t2); a; b; cc; u32 (d + t1); e; f; g]
  | _ => s
  end.

Definition compress (hs p : list Z) : list Z :=
  let w := message_schedule p in
  zip_with (λ x y, u32 (x + y)) hs (for_range 0 64 (round w) hs).

Definition H0 : list Z := Eval vm_compute in
  hex_words "6a09e667 bb67ae85 3c6ef372 a54ff53a 510e527f 9b05688c 1f83d9ab 5be0cd19".

(** [block] keeps what the memory held. *)
Definition sha256_init (c : sha256_ctx) : sha256_ctx := Ctx H0 (block c) 0 0 0.

(** The loop of [sha256_update] on the bytes left; each round takes at least one. *)
Fixpoint update_loop (fuel : nat) (c : sha256_ctx) (p : list Z) : outcome sha256_ctx :=
  match p with
  | [] => Ok c
  | _ =>
      match fuel with
      | O => NoFuel
      | S fuel =>
          let n := Z.min (SHA256_BLOCK - used c) (Z.of_nat (length p)) in
          let b := splice (block c) (Z.to_nat (used c)) (take (Z.to_nat n) p) in
          let used := u32 (used c + n) in
          let c := if used =? SHA256_BLOCK then Ctx (compress (h c) b) b 0 (bits_lo c) (bits_hi c)
                   else Ctx (h c) b used (bits_lo c) (bits_hi c) in
          update_loop fuel c (drop (Z.to_nat n) p)
      end
  end.

Definition sha256_update (c : sha256_ctx) (data : list Z) : outcome sha256_ctx :=
  let len := Z.of_nat (length data) in
  let add := u32 (Z.shiftl (u32 len) 3) in
  let hi := u32 (bits_hi c + u32 (Z.shiftr len 29) + b2z (u32 (bits_lo c + add) <? bits_lo c)) in
  let lo := u32 (bits_lo c + add) in
  update_loop (length data) (Ctx (h c) (block c) (used c) lo hi) data.

(** [while (c->used != SHA256_BLOCK - 8) sha256_update(c, &zero, 1)] *)
Fixpoint pad_loop (fuel : nat) (c : sha256_ctx) : outcome sha256_ctx :=
  if used c =? SHA256_BLOCK - 8 then Ok c
  else match fuel with O => NoFuel | S fuel => sha256_update c [0] ≫= pad_loop fuel end.

(** At most a block of zeros. *)
Definition PAD_FUEL : nat := 64.

(** The four bytes of a word, the most significant first. *)
Definition be32 (x : Z) : list Z := (λ k, u8 (Z.shiftr x (24 - 8 * k))) <$> [0; 1; 2; 3].

(** The digest, and the context that [memset] cleared. *)
Definition sha256_final (c : sha256_ctx) : outcome (list Z * sha256_ctx) :=
  let lo := bits_lo c in
  let hi := bits_hi c in
  sha256_update c [0x80] ≫= λ c,
  pad_loop PAD_FUEL c ≫= λ c,
  sha256_update c (be32 hi ++ be32 lo) ≫= λ c,
  Ok (concat (be32 <$> h c), Ctx (replicate 8 0) (replicate 64 0) 0 0 0).

(** An uninitialised context on the stack. *)
Definition sha256 (junk : sha256_ctx) (data : list Z) : outcome (list Z) :=
  sha256_update (sha256_init junk) data ≫= λ c, sha256_final c ≫= λ '(out, _), Ok out.

Record hmac_ctx := Hmac { inner : sha256_ctx; outer_key : list Z }.

Definition hmac_sha256_init (junk : sha256_ctx) (hm : hmac_ctx) (key : list Z) : outcome hmac_ctx :=
  let zero := replicate (Z.to_nat SHA256_BLOCK) 0 in
  (if Z.of_nat (length key) >? SHA256_BLOCK then sha256 junk key ≫= λ d, Ok (splice zero 0 d)
   else Ok (splice zero 0 key)) ≫= λ k,
  let inner_key := (λ x, Z.lxor x 0x36) <$> k in
  sha256_update (sha256_init (inner hm)) inner_key ≫= λ c,
  Ok (Hmac c ((λ x, Z.lxor x 0x5c) <$> k)).

Definition hmac_sha256_update (hm : hmac_ctx) (data : list Z) : outcome hmac_ctx :=
  sha256_update (inner hm) data ≫= λ c, Ok (Hmac c (outer_key hm)).

Definition hmac_sha256_final (junk : sha256_ctx) (hm : hmac_ctx) : outcome (list Z) :=
  sha256_final (inner hm) ≫= λ '(inner, _),
  sha256_update (sha256_init junk) (outer_key hm) ≫= λ c,
  sha256_update c inner ≫= λ c,
  sha256_final c ≫= λ '(out, _), Ok out.

(** The bytes of both buffers. *)
Definition equal_secret (a b : list Z) : bool :=
  foldl (λ diff xy, u8 (Z.lor diff (Z.lxor xy.1 xy.2))) 0 (zip a b) =? 0.

(** ** Whole messages *)

(** Compression of the first [n] blocks of a message. *)
Fixpoint hash_blocks (n : nat) (hs m : list Z) : list Z :=
  match n with O => hs | S n => hash_blocks n (compress hs (take 64 m)) (drop 64 m) end.

Definition be64 (x : Z) : list Z := be32 (u32 (x / 2 ^ 32)) ++ be32 (u32 x).

(** One bit, zeros up to the last eight bytes of a block, the length in bits. *)
Definition padding (len : Z) : list Z := 0x80 :: replicate (Z.to_nat ((55 - len) mod 64)) 0 ++ be64 (8 * len).

Definition sha256_spec (m : list Z) : list Z :=
  let p := m ++ padding (Z.of_nat (length m)) in
  concat (be32 <$> hash_blocks (length p / 64) H0 p).

(** RFC 2104. *)
Definition hmac_spec (key m : list Z) : list Z :=
  let k := if Z.of_nat (length key) >? 64 then sha256_spec key else key in
  let k := k ++ replicate (64 - length k) 0 in
  sha256_spec (((λ x, Z.lxor x 0x5c) <$> k) ++ sha256_spec (((λ x, Z.lxor x 0x36) <$> k) ++ m)).

Lemma hash_blocks_app k hs m p : (64 * k ≤ length m)%nat → hash_blocks k hs (m ++ p) = hash_blocks k hs m.
Proof.
  revert hs m. induction k as [|k IH]; intros hs m Hk; [done|]. cbn [hash_blocks].
  rewrite take_app_le, drop_app_le by lia. apply IH. rewrite length_drop. lia.
Qed.

Lemma hash_blocks_snoc k hs m :
  hash_blocks (S k) hs m = compress (hash_blocks k hs m) (take 64 (drop (64 * k) m)).
Proof.
  revert hs m. induction k as [|k IH]; intros hs m; [done|].
  change (hash_blocks (S (S k)) hs m) with (hash_blocks (S k) (compress hs (take 64 m)) (drop 64 m)). rewrite IH.
  rewrite drop_drop. change (hash_blocks (S k) hs m) with (hash_blocks k (compress hs (take 64 m)) (drop 64 m)).
  by replace (64 + 64 * k)%nat with (64 * S k)%nat by lia.
Qed.

(** ** What a context has absorbed *)

(** [k] blocks compressed, [rest] in the buffer. *)
Record buffered (c : sha256_ctx) (m : list Z) (k : nat) (rest : list Z) : Prop := {
  buf_len : length m = (64 * k + length rest)%nat;
  buf_rest : drop (64 * k) m = rest;
  buf_small : (length rest < 64)%nat;
  buf_h : h c = hash_blocks k H0 m;
  buf_used : used c = Z.of_nat (length rest);
  buf_size : length (block c) = 64%nat;
  buf_block : take (length rest) (block c) = rest
}.

Definition absorbed (c : sha256_ctx) (m : list Z) : Prop :=
  (∃ k rest, buffered c m k rest) ∧ bits_lo c = u32 (8 * Z.of_nat (length m)) ∧
  bits_hi c = u32 (8 * Z.of_nat (length m) / 2 ^ 32).

Lemma take_splice {A} (b q : list A) n :
  (n + length q ≤ length b)%nat → take (n + length q) (splice b n q) = take n b ++ q.
Proof.
  intros Hn. rewrite splice_in_bounds by lia. rewrite app_assoc, take_app_length'; [done|].
  rewrite length_app, length_take. lia.
Qed.

(** A block that fills up. *)
Lemma buffered_full c m k rest q lo hi :
  buffered c m k rest → (length rest + length q = 64)%nat →
  let b := splice (block c) (length rest) q in
  buffered (Ctx (compress (h c) b) b 0 lo hi) (m ++ q) (S k) [].
Proof.
  intros [H1 H2 H3 H4 H5 H6 H7] Hq b.
  assert (b = rest ++ q) as Hb.
  { unfold b. rewrite <- H7 at 2. rewrite <- take_splice by lia. rewrite take_ge; [done|]. rewrite length_splice by lia. lia. }
  split; cbn [h block used]; try done.
  - rewrite length_app. cbn [length]. lia.
  - apply drop_ge. rewrite length_app. lia.
  - cbn [length]. lia.
  - rewrite hash_blocks_snoc, hash_blocks_app, drop_app_le, H2 by lia. rewrite take_ge by (rewrite length_app; lia). by rewrite H4, Hb.
  - unfold b. rewrite length_splice by lia. lia.
Qed.

(** A block that does not. *)
Lemma buffered_more c m k rest q lo hi :
  buffered c m k rest → (length rest + length q < 64)%nat →
  buffered (Ctx (h c) (splice (block c) (length rest) q) (Z.of_nat (length rest + length q)) lo hi) (m ++ q) k (rest ++ q).
Proof.
  intros [H1 H2 H3 H4 H5 H6 H7] Hq. split; cbn [h block used]; rewrite ?length_app; try lia.
  - rewrite drop_app_le by lia. by rewrite H2.
  - by rewrite hash_blocks_app by lia.
  - rewrite length_splice by lia. lia.
  - rewrite take_splice by lia. by rewrite H7.
Qed.

Lemma update_loop_spec fuel c m k rest p :
  buffered c m k rest → (length p ≤ fuel)%nat →
  ∃ c' k' rest', update_loop fuel c p = Ok c' ∧ buffered c' (m ++ p) k' rest' ∧
    bits_lo c' = bits_lo c ∧ bits_hi c' = bits_hi c.
Proof.
  revert c m k rest p. induction fuel as [|fuel IH]; intros c m k rest p Hb Hf.
  { destruct p; [|simpl in Hf; lia]. exists c, k, rest. by rewrite app_nil_r. }
  destruct p as [|x p']; [exists c, k, rest; by rewrite app_nil_r|]. set (p := x :: p') in *.
  assert (0 < length p)%nat by (simpl; lia).
  pose proof Hb as [H1 H2 H3 H4 H5 H6 H7]. cbn [update_loop p]. fold p.
  set (n := Z.to_nat (Z.min (SHA256_BLOCK - used c) (Z.of_nat (length p)))).
  assert (n = Nat.min (64 - length rest) (length p)) as Hn by (unfold n; lia).
  assert (length (take n p) = n) as Hlt by (rewrite length_take; lia).
  replace (u32 (used c + _)) with (Z.of_nat (length rest + n)) by (unfold n in *; rewrite u32_small; lia).
  rewrite H5, Nat2Z.id.
  assert (m ++ p = (m ++ take n p) ++ drop n p) as -> by (by rewrite <- app_assoc, take_drop).
  destruct (Z.eqb_spec (Z.of_nat (length rest + n)) SHA256_BLOCK) as [E|E].
  - apply (IH (Ctx _ _ _ _ _) (m ++ take n p) (S k) []); [|rewrite length_drop; lia].
    eapply buffered_full; [done|lia].
  - apply (IH (Ctx _ _ _ _ _) (m ++ take n p) k (rest ++ take n p)); [|rewrite length_drop; lia].
    rewrite <- Hlt at 2. eapply buffered_more; [done|lia].
Qed.

(** The bit counter is a 64-bit sum. *)
Lemma bits_add N len :
  0 ≤ N → 0 ≤ len < 2 ^ 32 →
  let lo := u32 N in let hi := u32 (N / 2 ^ 32) in
  let add := u32 (Z.shiftl (u32 len) 3) in
  u32 (lo + add) = u32 (N + 8 * len) ∧
  u32 (hi + u32 (Z.shiftr len 29) + b2z (u32 (lo + add) <? lo)) = u32 ((N + 8 * len) / 2 ^ 32).
Proof.
  intros HN Hlen lo hi add. assert (add = u32 (8 * len)) as Hadd.
  { unfold add. rewrite (u32_small len), Z.shiftl_mul_pow2 by lia. f_equal. lia. }
  assert (u32 (lo + add) = u32 (N + 8 * len)) as Hlo.
  { rewrite Hadd. unfold lo, u32. by rewrite Zplus_mod_idemp_l, Zplus_mod_idemp_r. }
  split; [done|]. unfold lo, hi in *. rewrite Hlo, Z.shiftr_div_pow2 by lia. clear Hlo Hadd add lo hi.
  unfold u32 at 3. rewrite (Z.mod_small (len / 2 ^ 29)) by dlia.
  assert (b2z (u32 (N + 8 * len) <? u32 N) = (N + 8 * len) / 2 ^ 32 - N / 2 ^ 32 - len / 2 ^ 29) as ->.
  { unfold u32, b2z. destruct (Z.ltb_spec ((N + 8 * len) mod 2 ^ 32) (N mod 2 ^ 32)); dlia. }
  unfold u32. generalize (N / 2 ^ 32) as q, (len / 2 ^ 29) as l, ((N + 8 * len) / 2 ^ 32) as x. intros.
  replace (q mod 2 ^ 32 + l + (x - q - l)) with (x + - (q / 2 ^ 32) * 2 ^ 32) by dlia. by apply Z.mod_add.
Qed.

Lemma absorbed_update c m data :
  absorbed c m → Z.of_nat (length data) < 2 ^ 32 →
  ∃ c', sha256_update c data = Ok c' ∧ absorbed c' (m ++ data).
Proof.
  intros ((k & rest & Hb) & Hlo & Hhi) Hlen. unfold sha256_update. rewrite Hlo, Hhi.
  destruct (bits_add (8 * Z.of_nat (length m)) (Z.of_nat (length data))) as [-> ->]; [lia..|].
  set (c0 := Ctx _ _ _ _ _). assert (buffered c0 m k rest) as Hb0 by (by destruct Hb).
  destruct (update_loop_spec (length data) c0 m k rest data Hb0) as (c' & k' & rest' & E & Hb' & Hl & Hh); [done|].
  exists c'. split; [exact E|]. split; [by exists k', rest'|]. rewrite Hl, Hh, length_app. unfold c0. cbn [bits_lo bits_hi].
  split; f_equal; [lia|]. f_equal. lia.
Qed.

Lemma absorbed_init junk : length (block junk) = 64%nat → absorbed (sha256_init junk) [].
Proof. intros Hj. split; [|done]. exists O, []. split; simpl; done || lia. Qed.

Lemma absorbed_used c m : absorbed c m → used c = Z.of_nat (length m) mod 64.
Proof.
  intros ((k & rest & []) & _). rewrite buf_used0, buf_len0. apply (Z.mod_unique _ _ (Z.of_nat k)); lia.
Qed.

Lemma absorbed_pad fuel c m :
  absorbed c m → (Z.to_nat ((56 - Z.of_nat (length m)) mod 64) ≤ fuel)%nat →
  ∃ c', pad_loop fuel c = Ok c' ∧ absorbed c' (m ++ replicate (Z.to_nat ((56 - Z.of_nat (length m)) mod 64)) 0).
Proof.
  revert c m. induction fuel as [|fuel IH]; intros c m Hc Hf; pose proof (absorbed_used c m Hc) as Hu; cbn [pad_loop];
    change (SHA256_BLOCK - 8) with 56; destruct (Z.eqb_spec (used c) 56) as [E|E].
  1, 3: replace ((56 - Z.of_nat (length m)) mod 64) with 0 by dlia; exists c; by rewrite app_nil_r.
  - exfalso. assert ((56 - Z.of_nat (length m)) mod 64 = 0) by dlia. dlia.
  - destruct (absorbed_update c m [0] Hc) as (c1 & -> & Hc1); [done|].
    assert (Z.to_nat ((56 - Z.of_nat (length m)) mod 64) = S (Z.to_nat ((56 - Z.of_nat (length (m ++ [0]))) mod 64))) as Es.
    { rewrite length_app. cbn [length]. dlia. }
    destruct (IH c1 (m ++ [0]) Hc1) as (c' & E' & Hc'); [lia|]. exists c'. split; [exact E'|].
    rewrite Es. cbn [replicate]. by rewrite <- app_assoc in Hc'.
Qed.

Lemma pad_fuel_enough x : (Z.to_nat (x mod 64) ≤ PAD_FUEL)%nat.
Proof. pose proof (Z.mod_pos_bound x 64). unfold PAD_FUEL. lia. Qed.

(** The context with the whole padded message. *)
Lemma absorbed_padding c m :
  absorbed c m →
  ∃ c', (sha256_update c [0x80] ≫= λ c, pad_loop PAD_FUEL c ≫= λ c,
         sha256_update c (be64 (8 * Z.of_nat (length m)))) = Ok c' ∧ absorbed c' (m ++ padding (Z.of_nat (length m))).
Proof.
  intros Hc. destruct (absorbed_update c m [0x80] Hc) as (c1 & E1 & H1); [done|].
  destruct (absorbed_pad PAD_FUEL c1 (m ++ [0x80]) H1) as (c2 & E2 & H2); [apply pad_fuel_enough|].
  destruct (absorbed_update c2 _ (be64 (8 * Z.of_nat (length m))) H2) as (c3 & E3 & H3); [done|].
  exists c3. rewrite E1. cbn [mbind outcome_bind]. rewrite E2. split; [exact E3|].
  replace (56 - Z.of_nat (length (m ++ [0x80]))) with (55 - Z.of_nat (length m)) in H3 by (rewrite length_app; cbn [length]; lia).
  by rewrite <- !app_assoc in H3.
Qed.

Lemma absorbed_blocks c m : absorbed c m → h c = hash_blocks (length m / 64) H0 m.
Proof.
  intros ((k & rest & [H4 _ Hs Hh _ _ _]) & _). rewrite Hh, H4. f_equal. apply (Nat.div_unique _ _ _ (length rest)); lia.
Qed.

Lemma bind_last {A B} (x : outcome A) (f g : A → outcome A) (k : A → B) y :
  (x ≫= λ a, f a ≫= g) = Ok y → (x ≫= λ a, f a ≫= λ a, g a ≫= λ a, Ok (k a)) = Ok (k y).
Proof.
  destruct x as [a| |]; [|discriminate..]. cbn [mbind outcome_bind].
  destruct (f a) as [b| |]; [|discriminate..]. cbn [mbind outcome_bind]. by intros ->.
Qed.

Lemma absorbed_final_zero c m :
  absorbed c m → sha256_final c = Ok (sha256_spec m, Ctx (replicate 8 0) (replicate 64 0) 0 0 0).
Proof.
  intros Hc. destruct (absorbed_padding c m Hc) as (c3 & E & H3). pose proof Hc as (_ & Hlo & Hhi).
  unfold sha256_spec. rewrite <- (absorbed_blocks _ _ H3).
  unfold sha256_final. rewrite Hlo, Hhi.
  exact (bind_last _ _ _ (λ c, (concat (be32 <$> h c), Ctx (replicate 8 0) (replicate 64 0) 0 0 0)) c3 E).
Qed.

Lemma absorbed_final c m : absorbed c m → ∃ c', sha256_final c = Ok (sha256_spec m, c').
Proof. intros Hc. eexists. by apply absorbed_final_zero. Qed.

(** The padded message is whole blocks. *)
Lemma padding_whole m : (length (m ++ padding (Z.of_nat (length m))) mod 64 = 0)%nat.
Proof.
  apply Nat2Z.inj. rewrite Nat2Z.inj_mod. unfold padding, be64, be32. rewrite length_app. cbn [length].
  rewrite !length_app, length_replicate. cbn [length fmap list_fmap]. dlia.
Qed.

(** Feeding a message in pieces. *)
Fixpoint feed (c : sha256_ctx) (pieces : list (list Z)) : outcome sha256_ctx :=
  match pieces with [] => Ok c | d :: l => sha256_update c d ≫= λ c, feed c l end.

Definition size_ok (d : list Z) : Prop := Z.of_nat (length d) < 2 ^ 32.

Lemma absorbed_feed c m pieces :
  absorbed c m → Forall size_ok pieces → ∃ c', feed c pieces = Ok c' ∧ absorbed c' (m ++ concat pieces).
Proof.
  revert c m. induction pieces as [|d l IH]; intros c m Hc Hp; [exists c; by rewrite app_nil_r|].
  apply Forall_cons in Hp as [Hd Hl]. destruct (absorbed_update c m d Hc Hd) as (c1 & E & H1).
  destruct (IH c1 (m ++ d) H1 Hl) as (c' & E' & H'). exists c'. cbn [feed concat]. rewrite E. by rewrite app_assoc.
Qed.

Lemma sha256_correct junk m : length (block junk) = 64%nat → size_ok m → sha256 junk m = Ok (sha256_spec m).
Proof.
  intros Hj Hm. unfold sha256. destruct (absorbed_update _ [] m (absorbed_init junk Hj) Hm) as (c1 & -> & H1).
  destruct (absorbed_final c1 m H1) as (c2 & E). cbn [mbind outcome_bind]. by rewrite E.
Qed.

(** ** Lengths *)

Lemma length_round w t l : length l = 8%nat → length (round w t l) = 8%nat.
Proof. do 9 (destruct l as [|? l]; try done). Qed.

Lemma length_compress hs p : length hs = 8%nat → length (compress hs p) = 8%nat.
Proof.
  intros Hh. unfold compress. rewrite length_zip_with, Hh.
  rewrite (for_range_ind (λ _ s, length s = 8%nat)); [done|lia|done|]. intros i s _. apply length_round.
Qed.

Lemma length_hash_blocks k hs m : length hs = 8%nat → length (hash_blocks k hs m) = 8%nat.
Proof. revert hs m. induction k as [|k IH]; intros hs m Hh; [done|]. apply IH. by apply length_compress. Qed.

Lemma length_be32s l : length (concat (be32 <$> l)) = (4 * length l)%nat.
Proof. induction l as [|x l IH]; [done|]. rewrite fmap_cons. cbn [concat length]. rewrite length_app, IH. cbn [be32 fmap list_fmap length]. lia. Qed.

Lemma length_sha256_spec m : length (sha256_spec m) = 32%nat.
Proof. unfold sha256_spec. by rewrite length_be32s, length_hash_blocks. Qed.

(** ** HMAC *)

Lemma splice_zero k : (length k ≤ 64)%nat → splice (replicate (Z.to_nat SHA256_BLOCK) 0) 0 k = k ++ replicate (64 - length k) 0.
Proof.
  intros Hk. rewrite splice_in_bounds by (rewrite length_replicate; done). cbn [take app Nat.add].
  by rewrite drop_replicate.
Qed.

(** The key of one block that [hmac_spec] uses. *)
Definition block_key (key : list Z) : list Z :=
  let k := if Z.of_nat (length key) >? 64 then sha256_spec key else key in k ++ replicate (64 - length k) 0.

Lemma length_block_key key : length (block_key key) = 64%nat.
Proof.
  unfold block_key. rewrite length_app, length_replicate. rewrite Z.gtb_ltb.
  destruct (Z.ltb_spec 64 (Z.of_nat (length key))); [rewrite length_sha256_spec|]; lia.
Qed.

Lemma hmac_init_spec junk hm key :
  length (block junk) = 64%nat → length (block (inner hm)) = 64%nat → size_ok key →
  ∃ hm', hmac_sha256_init junk hm key = Ok hm' ∧ absorbed (inner hm') ((λ x, Z.lxor x 0x36) <$> block_key key) ∧
    outer_key hm' = (λ x, Z.lxor x 0x5c) <$> block_key key.
Proof.
  intros Hj Hi Hk. unfold hmac_sha256_init.
  assert ((if Z.of_nat (length key) >? SHA256_BLOCK
    then sha256 junk key ≫= λ d, Ok (splice (replicate (Z.to_nat SHA256_BLOCK) 0) 0 d)
    else Ok (splice (replicate (Z.to_nat SHA256_BLOCK) 0) 0 key)) = Ok (block_key key)) as ->.
  { unfold block_key. change SHA256_BLOCK with 64 at 1. rewrite Z.gtb_ltb. destruct (Z.ltb_spec 64 (Z.of_nat (length key))).
    - rewrite sha256_correct by done. cbn [mbind outcome_bind]. by rewrite splice_zero by (rewrite length_sha256_spec; lia).
    - by rewrite splice_zero by lia. }
  cbn [mbind outcome_bind].
  destruct (absorbed_update _ [] ((λ x, Z.lxor x 0x36) <$> block_key key) (absorbed_init (inner hm) Hi)) as (c & -> & Hc).
  { by rewrite length_fmap, length_block_key. }
  eexists. split; [reflexivity|]. done.
Qed.

Fixpoint hmac_feed (hm : hmac_ctx) (pieces : list (list Z)) : outcome hmac_ctx :=
  match pieces with [] => Ok hm | d :: l => hmac_sha256_update hm d ≫= λ hm, hmac_feed hm l end.

Lemma hmac_feed_spec hm m pieces :
  absorbed (inner hm) m → Forall size_ok pieces →
  ∃ hm', hmac_feed hm pieces = Ok hm' ∧ absorbed (inner hm') (m ++ concat pieces) ∧ outer_key hm' = outer_key hm.
Proof.
  revert hm m. induction pieces as [|d l IH]; intros hm m Hc Hp; [exists hm; by rewrite app_nil_r|].
  apply Forall_cons in Hp as [Hd Hl]. destruct (absorbed_update _ m d Hc Hd) as (c1 & E & H1).
  destruct (IH (Hmac c1 (outer_key hm)) (m ++ d) H1 Hl) as (hm' & E' & H' & Ho). exists hm'.
  cbn [hmac_feed concat]. unfold hmac_sha256_update. rewrite E. cbn [mbind outcome_bind]. by rewrite app_assoc.
Qed.

Lemma hmac_final_spec junk hm key m :
  length (block junk) = 64%nat → absorbed (inner hm) (((λ x, Z.lxor x 0x36) <$> block_key key) ++ m) →
  outer_key hm = (λ x, Z.lxor x 0x5c) <$> block_key key →
  hmac_sha256_final junk hm = Ok (hmac_spec key m).
Proof.
  intros Hj Hc Ho. unfold hmac_sha256_final. destruct (absorbed_final _ _ Hc) as (c1 & ->). cbn [mbind outcome_bind fst]. rewrite Ho.
  destruct (absorbed_update _ [] ((λ x, Z.lxor x 0x5c) <$> block_key key) (absorbed_init junk Hj)) as (c2 & -> & H2).
  { by rewrite length_fmap, length_block_key. }
  cbn [mbind outcome_bind]. destruct (absorbed_update c2 _ (sha256_spec (((λ x, Z.lxor x 0x36) <$> block_key key) ++ m)) H2) as (c3 & -> & H3).
  { by rewrite length_sha256_spec. }
  cbn [mbind outcome_bind]. destruct (absorbed_final _ _ H3) as (c4 & ->). done.
Qed.

(** The constant-time comparison decides equality. *)
Lemma equal_secret_loop l d :
  Forall (λ xy, 0 ≤ xy.1 < 2 ^ 8 ∧ 0 ≤ xy.2 < 2 ^ 8) l → 0 ≤ d < 2 ^ 8 →
  foldl (λ diff xy, u8 (Z.lor diff (Z.lxor xy.1 xy.2))) d l = 0 ↔ d = 0 ∧ Forall (λ xy : Z * Z, xy.1 = xy.2) l.
Proof.
  revert d. induction l as [|[x y] l IH]; intros d Hl Hd; simpl; [split; [by intros ->|by intros [-> _]]|].
  apply Forall_cons in Hl as [[Hx Hy] Hl]. simpl in *.
  assert (0 ≤ Z.lor d (Z.lxor x y) < 2 ^ 8) as Hr by (apply lor_range; [lia|done|by apply lxor_range]).
  rewrite u8_small by done. rewrite IH by done. rewrite Forall_cons. simpl.
  rewrite Z.lor_eq_0_iff, Z.lxor_eq_0_iff. tauto.
Qed.

Lemma equal_secret_iff a b :
  length a = length b → Forall (λ x, 0 ≤ x < 2 ^ 8) a → Forall (λ x, 0 ≤ x < 2 ^ 8) b →
  equal_secret a b = true ↔ a = b.
Proof.
  intros Hlen Ha Hb. unfold equal_secret.
  assert (Forall (λ xy, 0 ≤ xy.1 < 2 ^ 8 ∧ 0 ≤ xy.2 < 2 ^ 8) (zip a b) ∧
    (Forall (λ xy : Z * Z, xy.1 = xy.2) (zip a b) ↔ a = b)) as [H1 H2].
  { revert b Hlen Hb. induction Ha as [|x a Hx Ha IH]; intros [|y b] Hlen Hb; try done.
    apply Forall_cons in Hb as [Hy Hb]. destruct (IH b) as [H1 H2]; [by injection Hlen|done|].
    simpl. rewrite !Forall_cons. simpl. split; [done|]. rewrite H2. split; [by intros [-> ->]|by intros [= -> ->]]. }
  rewrite Z.eqb_eq, equal_secret_loop, H2 by done. tauto.
Qed.

(** C24: Streaming does not matter: a message fed in any pieces hashes to the
    digest of the whole message under the standard's padding, whatever the
    sizes of the pieces and whatever the context held before. *)
Theorem sha256_streaming (junk : sha256_ctx) (pieces : list (list Z)) :
  length (block junk) = 64%nat → Forall size_ok pieces →
  ∃ c, (feed (sha256_init junk) pieces ≫= sha256_final) = Ok (sha256_spec (concat pieces), c).
Proof.
  intros Hj Hp. destruct (absorbed_feed _ [] pieces (absorbed_init junk Hj) Hp) as (c & -> & Hc).
  by apply absorbed_final.
Qed.

(** "a" and then "bc": the digest of the standard's first example. *)
Lemma sha256_streaming_witness :
  ∃ c, (feed (sha256_init (Ctx [] (replicate 64 7) 3 1 2)) [[97]; [98; 99]] ≫= sha256_final) =
    Ok ([0xba; 0x78; 0x16; 0xbf; 0x8f; 0x01; 0xcf; 0xea; 0x41; 0x41; 0x40; 0xde; 0x5d; 0xae; 0x22; 0x23;
         0xb0; 0x03; 0x61; 0xa3; 0x96; 0x17; 0x7a; 0x9c; 0xb4; 0x10; 0xff; 0x61; 0xf2; 0x00; 0x15; 0xad], c).
Proof.
  destruct (sha256_streaming (Ctx [] (replicate 64 7) 3 1 2) [[97]; [98; 99]]) as (c & E);
    [reflexivity|repeat constructor|].
  exists c. rewrite E. vm_compute. reflexivity.
Defined.

(** HMAC over a message fed in pieces is RFC 2104's function of the key
    and the whole message, for keys shorter and longer than a block. *)
Theorem hmac_correct (junk : sha256_ctx) (hm : hmac_ctx) (key : list Z) (pieces : list (list Z)) :
  length (block junk) = 64%nat → length (block (inner hm)) = 64%nat → size_ok key → Forall size_ok pieces →
  (hmac_sha256_init junk hm key ≫= λ hm, hmac_feed hm pieces ≫= hmac_sha256_final junk) =
  Ok (hmac_spec key (concat pieces)).
Proof.
  intros Hj Hi Hk Hp. destruct (hmac_init_spec junk hm key Hj Hi Hk) as (h1 & -> & H1 & O1). cbn [mbind outcome_bind].
  destruct (hmac_feed_spec h1 _ pieces H1 Hp) as (h2 & -> & H2 & O2). cbn [mbind outcome_bind].
  apply hmac_final_spec; [done|done|by rewrite O2].
Qed.

Lemma hmac_correct_witness :
  let junk := Ctx [] (replicate 64 0) 0 0 0 in
  (hmac_sha256_init junk (Hmac junk []) [74; 101] ≫= λ hm, hmac_feed hm [[1]; []; [2]] ≫= hmac_sha256_final junk) =
  Ok (hmac_spec [74; 101] [1; 2]).
Proof.
  apply (hmac_correct (Ctx [] (replicate 64 0) 0 0 0) (Hmac (Ctx [] (replicate 64 0) 0 0 0) []) [74; 101] [[1]; []; [2]]);
    [reflexivity|reflexivity|reflexivity|repeat constructor].
Defined.
