(* ===== verification/Zrp.v ===== *)
(** * Messages and proofs of the resource protocol ([zkt/net/zrp_msg.c],
    [zkt/net/zrp_auth.c])

    A cursor over a message buffer with a sticky error: [room] hands out the
    next bytes or sets [bad]. The buffer is a list, a pointer into it is an
    offset, sizes are 32-bit. The readers are computations in [option]: a
    read outside the buffer, or a write outside the caller's, is [None], so
    that a result is one without a wild access. A C string is the list of its bytes before the
    terminator. The second half derives keys, nonces and proofs with the hash
    of [Sha256]. *)
From S2P Require Import Prelude Abi Sha256.
Local Open Scope Z_scope.

(** ** Messages *)

Abbreviation ZRP_HEADER := 7%Z (only parsing).
Abbreviation ZRP_NONCE := 16%Z (only parsing).
Abbreviation ZRP_MAC := 32%Z (only parsing).
Abbreviation ZRP_KEY := 32%Z (only parsing).

Abbreviation ZKT_TYPE_DIR := 0%Z (only parsing).
Abbreviation ZKT_TYPE_FILE := 1%Z (only parsing).
Abbreviation ZKT_TYPE_DEVICE := 2%Z (only parsing).

Record zmsg := Zmsg { buf : list Z; cap : Z; pos : Z; bad : bool }.

Definition set_bad (m : zmsg) : zmsg := Zmsg (buf m) (cap m) (pos m) true.
Definition set_buf (m : zmsg) (b : list Z) : zmsg := Zmsg b (cap m) (pos m) (bad m).

(** The offset of [n] bytes, or [None] for the null pointer. *)
Definition room (m : zmsg) (n : Z) : option Z * zmsg :=
  if bad m || (n >? u32 (cap m - pos m)) then (None, set_bad m)
  else (Some (pos m), Zmsg (buf m) (cap m) (u32 (pos m + n)) (bad m)).

(** [p[i] = b] for the bytes of a list. *)
Definition put_at (m : zmsg) (p : Z) (bytes : list Z) : zmsg :=
  set_buf m (splice (buf m) (Z.to_nat p) bytes).

(** The low [n] bytes of a number, the least significant first. *)
Definition le_bytes (n : nat) (v : Z) : list Z := (λ i : nat, u8 (Z.shiftr v (8 * Z.of_nat i))) <$> seq 0 n.

Definition zmsg_put8 (m : zmsg) (v : Z) : zmsg :=
  let '(p, m) := room m 1 in match p with Some p => put_at m p [u8 v] | None => m end.

Definition zmsg_put16 (m : zmsg) (v : Z) : zmsg :=
  let '(p, m) := room m 2 in match p with Some p => put_at m p [u8 v; u8 (Z.shiftr v 8)] | None => m end.

Definition zmsg_put32 (m : zmsg) (v : Z) : zmsg :=
  let '(p, m) := room m 4 in match p with Some p => put_at m p (le_bytes 4 v) | None => m end.

Definition zmsg_putbytes (m : zmsg) (data : list Z) : zmsg :=
  let '(p, m) := room m (Z.of_nat (length data)) in
  match p with Some p => put_at m p data | None => m end.

Definition zmsg_putstr (m : zmsg) (s : list Z) : zmsg :=
  let len := Z.of_nat (length s) in
  if len >? 0xFFFF then set_bad m
  else zmsg_putbytes (zmsg_put16 m (u16 len)) s.

Definition zmsg_putstat (m : zmsg) (type : vnode_type) (length : Z) (name : list Z) : zmsg :=
  let m := zmsg_put8 m (match type with
                        | VNODE_DIR => ZKT_TYPE_DIR | VNODE_DEVICE => ZKT_TYPE_DEVICE | _ => ZKT_TYPE_FILE end) in
  let m := zmsg_put32 m length in
  zmsg_putstr m name.

Definition zmsg_start (b : list Z) (cap : Z) (type tag : Z) : zmsg :=
  let m := Zmsg b cap 4 (cap <? ZRP_HEADER) in
  zmsg_put16 (zmsg_put8 m type) tag.

Definition zmsg_finish (m : zmsg) : Z * zmsg :=
  if bad m then (0, m) else (pos m, put_at m 0 (le_bytes 4 (u32 (pos m)))).

Definition zmsg_open (b : list Z) (len : Z) : zmsg := Zmsg b len 0 false.

(** [p[i]], unless it is outside the buffer. *)
Definition peek (m : zmsg) (i : Z) : option Z := if i <? 0 then None else buf m !! Z.to_nat i.

Definition zmsg_get8 (m : zmsg) : option (Z * zmsg) :=
  let '(p, m) := room m 1 in
  match p with Some p => a ← peek m p; Some (a, m) | None => Some (0, m) end.

Definition zmsg_get16 (m : zmsg) : option (Z * zmsg) :=
  let '(p, m) := room m 2 in
  match p with
  | Some p => a ← peek m p; b ← peek m (p + 1); Some (u16 (Z.lor a (Z.shiftl b 8)), m)
  | None => Some (0, m)
  end.

Definition zmsg_get32 (m : zmsg) : option (Z * zmsg) :=
  let '(p, m) := room m 4 in
  match p with
  | Some p =>
      a ← peek m p; b ← peek m (p + 1); c ← peek m (p + 2); d ← peek m (p + 3);
      Some (Z.lor (Z.lor (Z.lor a (Z.shiftl b 8)) (Z.shiftl c 16)) (u32 (Z.shiftl d 24)), m)
  | None => Some (0, m)
  end.

Definition zmsg_getbytes (m : zmsg) (len : Z) : option Z * zmsg := room m len.

(** [memcpy(out, p, len)]: what is read, *)
Definition bytes_at (m : zmsg) (p len : Z) : option (list Z) :=
  if (0 <=? p) && (0 <=? len) && (p + len <=? Z.of_nat (length (buf m)))
  then Some (take (Z.to_nat len) (drop (Z.to_nat p) (buf m))) else None.
(** and what is written. *)
Definition store (out : list Z) (i : Z) (bytes : list Z) : option (list Z) :=
  if (0 <=? i) && (i + Z.of_nat (length bytes) <=? Z.of_nat (length out))
  then Some (splice out (Z.to_nat i) bytes) else None.

(** What [out] holds afterwards, for a buffer of [size] bytes. *)
Definition zmsg_getstr (m : zmsg) (out : list Z) (size : Z) : option (list Z * zmsg) :=
  '(len, m) ← zmsg_get16 m;
  let '(p, m) := zmsg_getbytes m len in
  let refuse := (out ← (if truth size then store out 0 [0] else Some out); Some (out, set_bad m)) in
  match p with
  | Some p =>
      if len >=? size then refuse
      else s ← bytes_at m p len; out ← store out 0 s; out ← store out len [0]; Some (out, m)
  | None => refuse
  end.

(** Whether it is good, the type (unchanged if it is not), the length, the
    name buffer and the cursor. *)
Definition zmsg_getstat (m : zmsg) (type : vnode_type) (name : list Z) (size : Z)
    : option (bool * vnode_type * Z * list Z * zmsg) :=
  '(t, m) ← zmsg_get8 m;
  '(length, m) ← zmsg_get32 m;
  '(name, m) ← zmsg_getstr m name size;
  let '(type, m) :=
    if t =? ZKT_TYPE_DIR then (VNODE_DIR, m)
    else if t =? ZKT_TYPE_FILE then (VNODE_FILE, m)
    else if t =? ZKT_TYPE_DEVICE then (VNODE_DEVICE, m)
    else (type, set_bad m) in
  Some (negb (bad m), type, length, name, m).

(** ** Fields *)

Inductive field :=
  | F8 (v : Z) | F16 (v : Z) | F32 (v : Z) | FStr (s : list Z) | FBytes (b : list Z)
  | FStat (type : vnode_type) (len : Z) (name : list Z).

(** What a reader asks for: the sizes of its buffers. *)
Inductive kind := K8 | K16 | K32 | KStr (size : nat) | KBytes (n : nat) | KStat (size : nat).

Definition put_field (m : zmsg) (f : field) : zmsg :=
  match f with
  | F8 v => zmsg_put8 m v
  | F16 v => zmsg_put16 m v
  | F32 v => zmsg_put32 m v
  | FStr s => zmsg_putstr m s
  | FBytes b => zmsg_putbytes m b
  | FStat t l n => zmsg_putstat m t l n
  end.

(** The string in a buffer. *)
Fixpoint cstr (l : list Z) : list Z :=
  match l with [] => [] | x :: l => if x =? 0 then [] else x :: cstr l end.

Definition get_field (junk : Z) (m : zmsg) (k : kind) : option (field * zmsg) :=
  match k with
  | K8 => '(v, m) ← zmsg_get8 m; Some (F8 v, m)
  | K16 => '(v, m) ← zmsg_get16 m; Some (F16 v, m)
  | K32 => '(v, m) ← zmsg_get32 m; Some (F32 v, m)
  | KStr size => '(out, m) ← zmsg_getstr m (replicate size junk) (Z.of_nat size); Some (FStr (cstr out), m)
  | KBytes n =>
      let '(p, m) := zmsg_getbytes m (Z.of_nat n) in
      match p with Some p => s ← bytes_at m p (Z.of_nat n); Some (FBytes s, m) | None => Some (FBytes [], m) end
  | KStat size =>
      '(_, t, l, name, m) ← zmsg_getstat m VNODE_PIPE (replicate size junk) (Z.of_nat size);
      Some (FStat t l (cstr name), m)
  end.

Fixpoint get_fields (junk : Z) (m : zmsg) (ks : list kind) : option (list field * zmsg) :=
  match ks with
  | [] => Some ([], m)
  | k :: ks => '(f, m) ← get_field junk m k; '(fs, m) ← get_fields junk m ks; Some (f :: fs, m)
  end.

(** The bytes of a field on the wire. *)
Definition type_code (t : vnode_type) : Z :=
  match t with VNODE_DIR => ZKT_TYPE_DIR | VNODE_DEVICE => ZKT_TYPE_DEVICE | _ => ZKT_TYPE_FILE end.
Definition wire_str (s : list Z) : list Z := le_bytes 2 (Z.of_nat (length s)) ++ s.
Definition wire (f : field) : list Z :=
  match f with
  | F8 v => [v]
  | F16 v => le_bytes 2 v
  | F32 v => le_bytes 4 v
  | FStr s => wire_str s
  | FBytes b => b
  | FStat t l n => type_code t :: le_bytes 4 l ++ wire_str n
  end.

Definition is_byte (x : Z) : Prop := 0 ≤ x < 2 ^ 8.
Definition is_char (x : Z) : Prop := 0 < x < 2 ^ 8.
Definition string_ok (s : list Z) : Prop := Forall is_char s ∧ Z.of_nat (length s) ≤ 0xFFFF.

Definition field_ok (f : field) : Prop :=
  match f with
  | F8 v => 0 ≤ v < 2 ^ 8
  | F16 v => 0 ≤ v < 2 ^ 16
  | F32 v => 0 ≤ v < 2 ^ 32
  | FStr s => string_ok s
  | FBytes b => Z.of_nat (length b) < 2 ^ 32
  | FStat t l n => t ≠ VNODE_PIPE ∧ 0 ≤ l < 2 ^ 32 ∧ string_ok n
  end.

(** A reader whose buffers are large enough for the field. *)
Definition kind_for (f : field) (k : kind) : Prop :=
  match f, k with
  | F8 _, K8 | F16 _, K16 | F32 _, K32 => True
  | FStr s, KStr size => (length s < size)%nat
  | FBytes b, KBytes n => n = length b
  | FStat _ _ s, KStat size => (length s < size)%nat
  | _, _ => False
  end.

(** ** Writing *)

(** A message under construction with [l] after its size field. *)
Record writing (m : zmsg) (l : list Z) : Prop := {
  wr_bad : bad m = false;
  wr_pos : pos m = 4 + Z.of_nat (length l);
  wr_cap : pos m ≤ cap m < 2 ^ 32;
  wr_size : cap m ≤ Z.of_nat (length (buf m));
  wr_data : take (length l) (drop 4 (buf m)) = l
}.

(** Every put is this. *)
Definition emit (m : zmsg) (b : list Z) : zmsg :=
  let '(p, m) := room m (Z.of_nat (length b)) in match p with Some p => put_at m p b | None => m end.

Lemma bad_emit m b : bad m = true → bad (emit m b) = true.
Proof. intros H. unfold emit, room. by rewrite H. Qed.

Lemma emit_fits m l b :
  writing m l → 4 + Z.of_nat (length l) + Z.of_nat (length b) ≤ cap m →
  writing (emit m b) (l ++ b) ∧ cap (emit m b) = cap m ∧ length (buf (emit m b)) = length (buf m).
Proof.
  intros [H1 H2 H3 H4 H5] Hf. unfold emit, room. rewrite H1, u32_small, Z.gtb_ltb by lia.
  rewrite (proj2 (Z.ltb_ge _ _)) by lia. simpl orb. cbv iota. rewrite u32_small by lia.
  assert (length (splice (buf m) (Z.to_nat (pos m)) b) = length (buf m)) as Hl by (apply length_splice; lia).
  split; [|split; [done|exact Hl]]. split; cbn [buf cap pos bad put_at set_buf]; try done.
  - rewrite length_app. lia.
  - lia.
  - rewrite Hl. lia.
  - rewrite H2, splice_in_bounds by lia. replace (Z.to_nat (4 + Z.of_nat (length l))) with (4 + length l)%nat by lia.
    rewrite drop_app_le by (rewrite length_take; lia). rewrite <- take_drop_commute, H5.
    rewrite app_assoc, take_app_length'; [done|]. by rewrite !length_app.
Qed.

Lemma emit_full m l b : writing m l → cap m < 4 + Z.of_nat (length l) + Z.of_nat (length b) → bad (emit m b) = true.
Proof.
  intros [H1 H2 H3 H4 H5] Hf. unfold emit, room. rewrite H1, u32_small, Z.gtb_ltb by lia.
  by rewrite (proj2 (Z.ltb_lt _ _)) by lia.
Qed.

Lemma bad_emits m bs : bad m = true → bad (foldl emit m bs) = true.
Proof. revert m. induction bs as [|b bs IH]; intros m Hm; [done|]. apply IH. by apply bad_emit. Qed.

Lemma emits_spec m l bs :
  writing m l →
  if 4 + Z.of_nat (length l) + Z.of_nat (length (concat bs)) <=? cap m then
    writing (foldl emit m bs) (l ++ concat bs) ∧ cap (foldl emit m bs) = cap m ∧
    length (buf (foldl emit m bs)) = length (buf m)
  else bad (foldl emit m bs) = true.
Proof.
  revert m l. induction bs as [|b bs IH]; intros m l Hm; cbn [concat foldl].
  - rewrite app_nil_r. destruct (Z.leb_spec (4 + Z.of_nat (length l) + Z.of_nat (length (@nil Z))) (cap m)); [done|].
    destruct Hm. simpl in *. lia.
  - rewrite length_app. destruct (decide (4 + Z.of_nat (length l) + Z.of_nat (length b) ≤ cap m)) as [Hf|Hf].
    + destruct (emit_fits m l b Hm Hf) as (H1 & H2 & H3). specialize (IH (emit m b) (l ++ b) H1).
      rewrite H2, H3, length_app in IH. rewrite app_assoc.
      replace (4 + Z.of_nat (length l) + Z.of_nat (length b + length (concat bs)))
        with (4 + Z.of_nat (length l + length b) + Z.of_nat (length (concat bs))) by lia. exact IH.
    + rewrite (proj2 (Z.leb_gt _ _)) by lia. apply bad_emits. eapply emit_full; [done|lia].
Qed.

(** The pieces in which a field is written. *)
Definition chunks (f : field) : list (list Z) :=
  match f with
  | FStr s => [le_bytes 2 (Z.of_nat (length s)); s]
  | FStat t l n => [[type_code t]; le_bytes 4 l; le_bytes 2 (Z.of_nat (length n)); n]
  | f => [wire f]
  end.

Lemma concat_chunks f : concat (chunks f) = wire f.
Proof. destruct f; cbn [chunks concat wire]; unfold wire_str; rewrite ?app_nil_r; try done. Qed.

Lemma put_str_emits m s : string_ok s → zmsg_putstr m s = foldl emit m [le_bytes 2 (Z.of_nat (length s)); s].
Proof.
  intros [_ Hs]. unfold zmsg_putstr. rewrite Z.gtb_ltb, (proj2 (Z.ltb_ge _ _)), u16_small by lia. done.
Qed.

Lemma put_field_emits m f : field_ok f → put_field m f = foldl emit m (chunks f).
Proof.
  destruct f as [v|v|v|s|b|t l n]; cbn [field_ok put_field chunks]; intros Hf; try done.
  - unfold zmsg_put8. rewrite u8_small by done. done.
  - by apply put_str_emits.
  - destruct Hf as (_ & _ & Hn). unfold zmsg_putstat. rewrite put_str_emits by done. by destruct t.
Qed.

(** All fields together. *)
Definition wires (fs : list field) : list Z := concat (wire <$> fs).

Lemma put_fields_emits m fs : Forall field_ok fs → foldl put_field m fs = foldl emit m (concat (chunks <$> fs)).
Proof.
  intros Hf. revert m. induction Hf as [|f fs Hf _ IH]; intros m; [done|].
  cbn [fmap list_fmap concat foldl]. rewrite foldl_app, <- put_field_emits by done. apply IH.
Qed.

Lemma concat_chunks_all fs : concat (concat (chunks <$> fs)) = wires fs.
Proof.
  unfold wires. induction fs as [|f fs IH]; [done|]. rewrite !fmap_cons. cbn [concat]. by rewrite concat_app, concat_chunks, IH.
Qed.

(** ** Reading *)

(** A cursor with [l] left before the end. *)
Record reading (m : zmsg) (l : list Z) : Prop := {
  rd_bad : bad m = false;
  rd_pos : 0 ≤ pos m;
  rd_cap : cap m = pos m + Z.of_nat (length l) ∧ cap m < 2 ^ 32;
  rd_size : cap m ≤ Z.of_nat (length (buf m));
  rd_data : take (length l) (drop (Z.to_nat (pos m)) (buf m)) = l
}.

Lemma room_reading m b l :
  reading m (b ++ l) →
  let m' := Zmsg (buf m) (cap m) (pos m + Z.of_nat (length b)) false in
  room m (Z.of_nat (length b)) = (Some (pos m), m') ∧ reading m' l ∧
  bytes_at m' (pos m) (Z.of_nat (length b)) = Some b.
Proof.
  intros [H1 H2 [H3 H3'] Hsz H4] m'. rewrite length_app in *. split_and!.
  - unfold room. rewrite H1, u32_small, Z.gtb_ltb by lia. rewrite (proj2 (Z.ltb_ge _ _)) by lia.
    simpl orb. cbv iota. by rewrite u32_small by lia.
  - split; cbn [m' bad pos cap buf]; [done|lia|lia|done|].
    replace (Z.to_nat (pos m + Z.of_nat (length b))) with (Z.to_nat (pos m) + length b)%nat by lia.
    rewrite <- drop_drop, take_drop_commute, H4. apply drop_app_length.
  - unfold bytes_at. cbn [m' buf]. rewrite !(proj2 (Z.leb_le _ _)), Nat2Z.id by lia. cbn [andb]. f_equal.
    assert (take (length b) (take (length b + length l) (drop (Z.to_nat (pos m)) (buf m))) = b) as E by (by rewrite H4, take_app_length).
    by rewrite take_take, Nat.min_l in E by lia.
Qed.

Lemma peek_bytes m p b j x :
  0 ≤ j → bytes_at m p (Z.of_nat (length b)) = Some b → b !! Z.to_nat j = Some x → peek m (p + j) = Some x.
Proof.
  unfold bytes_at, peek. intros Hj Hb Hi. destruct (Z.leb_spec 0 p); [|done]. destruct (_ && _); [|done].
  injection Hb as Hb. rewrite Nat2Z.id in Hb. rewrite (proj2 (Z.ltb_ge _ _)) by lia.
  replace (Z.to_nat (p + j)) with (Z.to_nat p + Z.to_nat j)%nat by lia.
  rewrite <- Hb in Hi. apply lookup_take_Some in Hi as [Hi _]. by rewrite lookup_drop in Hi.
Qed.

Lemma peek_first m p b x l : b = x :: l → bytes_at m p (Z.of_nat (length b)) = Some b → peek m p = Some x.
Proof. intros -> Hb. rewrite <- (Z.add_0_r p). by apply (peek_bytes m p (x :: l) 0). Qed.

Lemma get8_reading m v l :
  reading m (v :: l) → ∃ m', zmsg_get8 m = Some (v, m') ∧ reading m' l.
Proof.
  intros H. destruct (room_reading m [v] l H) as (H1 & H2 & H3). eexists. split; [|exact H2].
  unfold zmsg_get8. change 1 with (Z.of_nat (length [v])). rewrite H1, (peek_first _ _ [v] v []) by done. done.
Qed.

Lemma get16_reading m v l :
  0 ≤ v < 2 ^ 16 → reading m (le_bytes 2 v ++ l) → ∃ m', zmsg_get16 m = Some (v, m') ∧ reading m' l.
Proof.
  intros Hv H. destruct (room_reading m (le_bytes 2 v) l H) as (H1 & H2 & H3). eexists. split; [|exact H2].
  unfold zmsg_get16. change 2 with (Z.of_nat (length (le_bytes 2 v))). rewrite H1.
  rewrite (peek_first _ _ _ (u8 v) _ eq_refl H3), (peek_bytes _ _ _ 1 (u8 (Z.shiftr v 8)) ltac:(lia) H3) by done.
  cbn [mbind option_bind]. by rewrite le_lor2, u16_small by done.
Qed.

Lemma get32_reading m v l :
  0 ≤ v < 2 ^ 32 → reading m (le_bytes 4 v ++ l) → ∃ m', zmsg_get32 m = Some (v, m') ∧ reading m' l.
Proof.
  intros Hv H. destruct (room_reading m (le_bytes 4 v) l H) as (H1 & H2 & H3). eexists. split; [|exact H2].
  unfold zmsg_get32. change 4 with (Z.of_nat (length (le_bytes 4 v))). rewrite H1.
  rewrite (peek_first _ _ _ (u8 v) _ eq_refl H3), (peek_bytes _ _ _ 1 (u8 (Z.shiftr v 8)) ltac:(lia) H3),
    (peek_bytes _ _ _ 2 (u8 (Z.shiftr v 16)) ltac:(lia) H3), (peek_bytes _ _ _ 3 (u8 (Z.shiftr v 24)) ltac:(lia) H3) by done.
  cbn [mbind option_bind]. pose proof (u8_range (Z.shiftr v 24)). rewrite (u32_small (Z.shiftl _ _)) by (rewrite Z.shiftl_mul_pow2; lia).
  by rewrite le_lor4.
Qed.

Lemma getbytes_reading m b l :
  reading m (b ++ l) →
  ∃ p m', zmsg_getbytes m (Z.of_nat (length b)) = (Some p, m') ∧ reading m' l ∧ bytes_at m' p (Z.of_nat (length b)) = Some b.
Proof. intros H. destruct (room_reading m b l H) as (H1 & H2 & H3). eexists _, _. split; [exact H1|]. by split. Qed.

Lemma cstr_app s l : Forall is_char s → cstr (s ++ 0 :: l) = s.
Proof.
  induction 1 as [|x s Hx _ IH]; [done|]. simpl. unfold is_char in Hx. rewrite (proj2 (Z.eqb_neq _ _)) by lia. by rewrite IH.
Qed.

Lemma splice_str (out s : list Z) :
  (length s < length out)%nat → ∃ l, splice (splice out 0 s) (length s) [0] = s ++ 0 :: l.
Proof.
  intros Hl. exists (drop (length s + 1) (splice out 0 s)).
  assert (length (splice out 0 s) = length out) as E by (apply length_splice; lia).
  rewrite splice_in_bounds by (rewrite E; cbn [length]; lia).
  assert (take (length s) (splice out 0 s) = s) as ->; [|done].
  rewrite splice_in_bounds by lia. rewrite take_0, app_nil_l. apply take_app_length.
Qed.

Lemma store_fits out i bytes :
  0 ≤ i → i + Z.of_nat (length bytes) ≤ Z.of_nat (length out) → store out i bytes = Some (splice out (Z.to_nat i) bytes).
Proof. intros Hi Hl. unfold store. by rewrite !(proj2 (Z.leb_le _ _)) by lia. Qed.

Lemma getstr_reading m s l junk size :
  string_ok s → (length s < size)%nat → reading m (wire_str s ++ l) →
  ∃ out m', zmsg_getstr m (replicate size junk) (Z.of_nat size) = Some (out, m') ∧ cstr out = s ∧ reading m' l.
Proof.
  intros [Hc Hs] Hsize H. unfold wire_str in H. rewrite <- app_assoc in H.
  destruct (get16_reading m (Z.of_nat (length s)) (s ++ l)) as (m1 & E1 & H1); [lia|done|].
  destruct (getbytes_reading m1 s l H1) as (p & m2 & E2 & H2 & H3).
  unfold zmsg_getstr. rewrite E1. cbn [mbind option_bind]. rewrite E2, Z.geb_leb, (proj2 (Z.leb_gt _ _)), H3 by lia. cbn [mbind option_bind].
  rewrite store_fits by (rewrite ?length_replicate; lia). cbn [mbind option_bind].
  rewrite store_fits by (rewrite ?length_splice; rewrite ?length_replicate; cbn [length]; lia). cbn [mbind option_bind]. rewrite Nat2Z.id.
  destruct (splice_str (replicate size junk) s) as (l' & E); [by rewrite length_replicate|]. change (Z.to_nat 0) with 0%nat. rewrite E.
  eexists _, _. split; [reflexivity|]. split; [by apply cstr_app|done].
Qed.

Lemma getstat_reading m t len s l junk size :
  t ≠ VNODE_PIPE → 0 ≤ len < 2 ^ 32 → string_ok s → (length s < size)%nat →
  reading m (wire (FStat t len s) ++ l) →
  ∃ out m', zmsg_getstat m VNODE_PIPE (replicate size junk) (Z.of_nat size) = Some (true, t, len, out, m') ∧
    cstr out = s ∧ reading m' l.
Proof.
  intros Ht Hlen Hs Hsize H. cbn [wire app] in H. rewrite <- app_assoc in H.
  destruct (get8_reading m _ _ H) as (m1 & E1 & H1). destruct (get32_reading m1 _ _ Hlen H1) as (m2 & E2 & H2).
  destruct (getstr_reading m2 s l junk size Hs Hsize H2) as (out & m3 & E3 & Ho & H3).
  exists out, m3. split; [|done]. unfold zmsg_getstat. rewrite E1. cbn [mbind option_bind]. rewrite E2. cbn [mbind option_bind].
  rewrite E3. destruct t; [..|done]; cbn; by rewrite (rd_bad _ _ H3).
Qed.

Lemma get_field_reading m f k l junk :
  field_ok f → kind_for f k → reading m (wire f ++ l) → ∃ m', get_field junk m k = Some (f, m') ∧ reading m' l.
Proof.
  destruct f as [v|v|v|s|b|t len n], k as [| | |size|n'|size]; try done; cbn [field_ok kind_for get_field]; intros Hf Hk H.
  - destruct (get8_reading m v l H) as (m' & -> & H'). eauto.
  - destruct (get16_reading m v l Hf H) as (m' & -> & H'). eauto.
  - destruct (get32_reading m v l Hf H) as (m' & -> & H'). eauto.
  - destruct (getstr_reading m s l junk size Hf Hk H) as (out & m' & -> & <- & H'). eauto.
  - subst n'. destruct (getbytes_reading m b l H) as (p & m' & -> & H' & Hb). exists m'. by rewrite Hb.
  - destruct Hf as (Ht & Hl & Hn). destruct (getstat_reading m t len n l junk size Ht Hl Hn Hk H) as (out & m' & -> & <- & H'). eauto.
Qed.

Lemma get_fields_reading m fs ks l junk :
  Forall field_ok fs → Forall2 kind_for fs ks → reading m (wires fs ++ l) →
  ∃ m', get_fields junk m ks = Some (fs, m') ∧ reading m' l.
Proof.
  intros Hf Hk. revert m. induction Hk as [|f k fs ks Hk _ IH]; intros m H; [by exists m|].
  apply Forall_cons in Hf as [Hf Hfs]. unfold wires in H. rewrite fmap_cons in H. cbn [concat] in H. rewrite <- app_assoc in H.
  destruct (get_field_reading m f k _ junk Hf Hk H) as (m1 & E1 & H1). destruct (IH Hfs m1 H1) as (m2 & E2 & H2).
  exists m2. cbn [get_fields]. rewrite E1. cbn [mbind option_bind]. by rewrite E2.
Qed.

(** ** Any input *)

(** A cursor inside a message of [len] bytes in the buffer [b]. *)
Definition cursor_ok (b : list Z) (len : Z) (m : zmsg) : Prop := buf m = b ∧ cap m = len ∧ 0 ≤ pos m ≤ len.

Lemma room_ok b len m n p m' :
  len < 2 ^ 32 → 0 ≤ n → cursor_ok b len m → room m n = (p, m') →
  cursor_ok b len m' ∧ match p with Some q => 0 ≤ q ∧ q + n ≤ len | None => bad m' = true end.
Proof.
  intros Hlen Hn (Hb & Hc & Hp). unfold room. rewrite Hc, (u32_small (_ - _)), Z.gtb_ltb by lia.
  destruct (bad m) eqn:Eb; [intros [= <- <-]; by split_and!|].
  destruct (Z.ltb_spec (len - pos m) n); intros [= <- <-]; [by split_and!|].
  split; [|lia]. unfold cursor_ok. cbn [buf cap pos]. rewrite u32_small by lia. split_and!; [done..|lia|lia].
Qed.

(** A reader that makes no wild access and leaves the cursor inside. *)
Definition stays {A} (b : list Z) (len : Z) (r : option (A * zmsg)) : Prop := ∃ a m', r = Some (a, m') ∧ cursor_ok b len m'.

Section any_input.
Context (b : list Z) (len : Z) (Hlen : len < 2 ^ 32) (Hb : len ≤ Z.of_nat (length b)).

Lemma stays_ret {A} (a : A) m : cursor_ok b len m → stays b len (Some (a, m)).
Proof. intros H. by exists a, m. Qed.

Lemma stays_bind {A B} (r : option (A * zmsg)) (f : A * zmsg → option (B * zmsg)) :
  stays b len r → (∀ a m, cursor_ok b len m → stays b len (f (a, m))) → stays b len (r ≫= f).
Proof. intros (a & m & -> & Hm) Hf. by apply Hf. Qed.

Lemma stays_peek {A} m i (f : Z → option (A * zmsg)) :
  cursor_ok b len m → 0 ≤ i < len → (∀ x, stays b len (f x)) → stays b len (peek m i ≫= f).
Proof.
  intros (Eb & _) Hi Hf. unfold peek. rewrite (proj2 (Z.ltb_ge _ _)), Eb by lia.
  destruct (lookup_lt_is_Some_2 b (Z.to_nat i)) as [x ->]; [lia|]. apply Hf.
Qed.

Lemma stays_room {A} m n (f : option Z → zmsg → option (A * zmsg)) :
  0 ≤ n → cursor_ok b len m →
  (∀ p m', cursor_ok b len m' → match p with Some q => 0 ≤ q ∧ q + n ≤ len | None => bad m' = true end → stays b len (f p m')) →
  stays b len (let '(p, m') := room m n in f p m').
Proof. intros Hn Hm Hf. destruct (room m n) as [p m'] eqn:E. destruct (room_ok b len m n p m' Hlen Hn Hm E). by apply Hf. Qed.

Lemma get8_stays m : cursor_ok b len m → stays b len (zmsg_get8 m).
Proof.
  intros Hm. apply stays_room; [lia|done|]. intros [p|] m' Hm' Hp; [|by apply stays_ret].
  apply stays_peek; [done|lia|]. intros x. by apply stays_ret.
Qed.
Lemma get16_stays m : cursor_ok b len m → stays b len (zmsg_get16 m).
Proof.
  intros Hm. apply stays_room; [lia|done|]. intros [p|] m' Hm' Hp; [|by apply stays_ret].
  do 2 (apply stays_peek; [done|lia|]; intros ?). by apply stays_ret.
Qed.
Lemma get32_stays m : cursor_ok b len m → stays b len (zmsg_get32 m).
Proof.
  intros Hm. apply stays_room; [lia|done|]. intros [p|] m' Hm' Hp; [|by apply stays_ret].
  do 4 (apply stays_peek; [done|lia|]; intros ?). by apply stays_ret.
Qed.

Lemma get16_nonneg m n m' : zmsg_get16 m = Some (n, m') → 0 ≤ n.
Proof.
  unfold zmsg_get16. destruct (room m 2) as [[p|] m1]; [|by intros [= <- _]].
  destruct (peek m1 p), (peek m1 (p + 1)); try done. cbn. intros [= <- _]. apply u16_range.
Qed.

Lemma bytes_at_ok m p n : cursor_ok b len m → 0 ≤ n → 0 ≤ p ∧ p + n ≤ len → ∃ s, bytes_at m p n = Some s ∧ Z.of_nat (length s) = n.
Proof.
  intros (Eb & _) Hn Hp. unfold bytes_at. rewrite Eb, !(proj2 (Z.leb_le _ _)) by lia. eexists. split; [done|].
  rewrite length_take, length_drop. lia.
Qed.

Lemma getstr_stays m out : cursor_ok b len m → stays b len (zmsg_getstr m out (Z.of_nat (length out))).
Proof.
  intros Hm. unfold zmsg_getstr. destruct (get16_stays m Hm) as (n & m1 & E & Hm1). pose proof (get16_nonneg _ _ _ E) as Hn.
  rewrite E. cbn [mbind option_bind]. apply stays_room; [done|done|]. intros p m2 Hm2 Hp. cbn zeta.
  assert (stays b len (out ← (if truth (Z.of_nat (length out)) then store out 0 [0] else Some out); Some (out, set_bad m2))) as Hr.
  { destruct (truth _) eqn:Et; [|by apply stays_ret]. rewrite store_fits; [by apply stays_ret|done|].
    destruct out; [done|]. cbn [length]. lia. }
  destruct p as [p|]; [|done]. rewrite Z.geb_leb. destruct (Z.leb_spec (Z.of_nat (length out)) n); [done|].
  destruct (bytes_at_ok m2 p n Hm2 Hn Hp) as (s & -> & Hs). cbn [mbind option_bind].
  rewrite store_fits by lia. cbn [mbind option_bind].
  rewrite store_fits; [by apply stays_ret|done|]. rewrite length_splice by lia. cbn [length]. lia.
Qed.

Lemma getstat_stays m ty out : cursor_ok b len m → stays b len (zmsg_getstat m ty out (Z.of_nat (length out))).
Proof.
  intros Hm. apply stays_bind; [by apply get8_stays|]. intros t m1 Hm1. apply stays_bind; [by apply get32_stays|]. intros l m2 Hm2.
  apply stays_bind; [by apply getstr_stays|]. intros o m3 Hm3. repeat case_match; simplify_eq; by apply stays_ret.
Qed.

Lemma get_field_stays junk m k : cursor_ok b len m → stays b len (get_field junk m k).
Proof.
  intros Hm. destruct k as [| | |size|n|size]; cbn [get_field].
  - apply stays_bind; [by apply get8_stays|]. intros. by apply stays_ret.
  - apply stays_bind; [by apply get16_stays|]. intros. by apply stays_ret.
  - apply stays_bind; [by apply get32_stays|]. intros. by apply stays_ret.
  - rewrite <- (length_replicate size junk) at 2. apply stays_bind; [by apply getstr_stays|]. intros. by apply stays_ret.
  - apply stays_room; [lia|done|]. intros [p|] m' Hm' Hp; [|by apply stays_ret].
    destruct (bytes_at_ok m' p (Z.of_nat n) Hm' ltac:(lia) Hp) as (s & -> & _). by apply stays_ret.
  - rewrite <- (length_replicate size junk) at 2. apply stays_bind; [by apply getstat_stays|]. intros [[[? ?] ?] ?] ? ?. by apply stays_ret.
Qed.

Lemma get_fields_stays junk m ks : cursor_ok b len m → stays b len (get_fields junk m ks).
Proof.
  revert m. induction ks as [|k ks IH]; intros m Hm; [by apply stays_ret|]. cbn [get_fields].
  apply stays_bind; [by apply get_field_stays|]. intros f m1 Hm1. apply stays_bind; [by apply IH|]. intros. by apply stays_ret.
Qed.
End any_input.

(** ** Whole messages *)

Lemma writing_start b type tag fs :
  Forall field_ok fs → 0 ≤ type < 2 ^ 8 →
  foldl put_field (zmsg_start b (Z.of_nat (length b)) type tag) fs =
  foldl emit (Zmsg b (Z.of_nat (length b)) 4 (Z.of_nat (length b) <? ZRP_HEADER))
    ([[type]; le_bytes 2 tag] ++ concat (chunks <$> fs)).
Proof.
  intros Hf Ht. rewrite put_fields_emits, foldl_app by done. unfold zmsg_start, zmsg_put8. by rewrite u8_small by done.
Qed.

(** The finished message is read from the start. *)
Lemma reading_finished m l :
  writing m l → ∃ m', zmsg_finish m = (4 + Z.of_nat (length l), m') ∧
    reading (zmsg_open (buf m') (4 + Z.of_nat (length l))) (le_bytes 4 (4 + Z.of_nat (length l)) ++ l).
Proof.
  intros [H1 H2 H3 H4 H5]. unfold zmsg_finish. rewrite H1, H2. eexists. split; [reflexivity|].
  rewrite u32_small by lia. set (n := 4 + Z.of_nat (length l)) in *.
  split; cbn [zmsg_open put_at set_buf buf bad pos cap]; [done|lia|rewrite length_app; cbn [length le_bytes seq fmap list_fmap]; lia|
    rewrite length_splice by (cbn [length le_bytes seq fmap list_fmap Z.to_nat]; lia); lia|].
  cbn [Z.to_nat]. rewrite drop_0, splice_in_bounds by (cbn [length le_bytes seq fmap list_fmap]; lia).
  rewrite take_0, app_nil_l, length_app. rewrite take_app_add. f_equal. exact H5.
Qed.

(** C27: What a ZRP peer encodes the other decodes: a message started with
    [zmsg_start], filled with any fields and finished is read back, field by
    field, as it was written, up to its last byte and without an error. If
    it does not fit its buffer, [zmsg_finish] reports 0 instead, and it
    does so only then. *)
Theorem zmsg_roundtrip (junk : Z) (b : list Z) (type tag : Z) (fs : list field) (ks : list kind) :
  Z.of_nat (length b) < 2 ^ 32 → 0 ≤ type < 2 ^ 8 → 0 ≤ tag < 2 ^ 16 →
  Forall field_ok fs → Forall2 kind_for fs ks →
  let total := 7 + Z.of_nat (length (wires fs)) in
  let m := foldl put_field (zmsg_start b (Z.of_nat (length b)) type tag) fs in
  if total <=? Z.of_nat (length b) then
    ∃ m' m'', zmsg_finish m = (total, m') ∧
      get_fields junk (zmsg_open (buf m') total) (K32 :: K8 :: K16 :: ks) =
        Some (F32 total :: F8 type :: F16 tag :: fs, m'') ∧ bad m'' = false ∧ pos m'' = total
  else (zmsg_finish m).1 = 0.
Proof.
  intros Hb Ht Htag Hf Hk total m. unfold m. rewrite writing_start by done.
  set (bs := [[type]; le_bytes 2 tag] ++ concat (chunks <$> fs)).
  set (m0 := Zmsg b (Z.of_nat (length b)) 4 (Z.of_nat (length b) <? ZRP_HEADER)).
  assert (concat bs = type :: le_bytes 2 tag ++ wires fs) as Ebs.
  { unfold bs. rewrite concat_app, concat_chunks_all. cbn [concat app]. by rewrite app_nil_r. }
  destruct (Z.ltb_spec (Z.of_nat (length b)) ZRP_HEADER) as [Hs|Hs].
  { rewrite (proj2 (Z.leb_gt _ _)) by lia. unfold zmsg_finish. by rewrite bad_emits. }
  assert (writing m0 []) as Hw by (split; cbn [m0 bad pos cap buf length]; done || lia).
  pose proof (emits_spec m0 [] bs Hw) as H. rewrite Ebs in H. cbn [length m0 cap app] in H.
  replace (4 + Z.of_nat 0 + Z.of_nat (S (length (le_bytes 2 tag ++ wires fs)))) with total in H
    by (unfold total; rewrite length_app; cbn [length le_bytes seq fmap list_fmap]; lia).
  fold m0 in H. destruct (Z.leb_spec total (Z.of_nat (length b))) as [Hle|_]; [|unfold zmsg_finish; by rewrite H].
  destruct H as [H _]. destruct (reading_finished _ _ H) as (m' & E & Hr).
  replace (4 + Z.of_nat (length (type :: le_bytes 2 tag ++ wires fs))) with total in E, Hr
    by (unfold total; cbn [length]; rewrite length_app; cbn [length le_bytes seq fmap list_fmap]; lia).
  assert (total < 2 ^ 32) as Htotal by lia.
  destruct (get_fields_reading (zmsg_open (buf m') total) (F32 total :: F8 type :: F16 tag :: fs) (K32 :: K8 :: K16 :: ks) [] junk)
    as (m'' & E'' & Hr'').
  { repeat constructor; try done; unfold total; lia. }
  { by repeat constructor. }
  { unfold wires. rewrite !fmap_cons. cbn [concat wire]. by rewrite app_nil_r. }
  exists m', m''. split; [exact E|]. split; [exact E''|]. split; [apply Hr''|].
  destruct (get_fields_stays (buf m') total Htotal (rd_size _ _ Hr) junk (zmsg_open (buf m') total) (K32 :: K8 :: K16 :: ks)) as (fs' & m1 & E1 & _ & Hc & _).
  { unfold cursor_ok, total. cbn. split_and!; lia || done. }
  rewrite E'' in E1. injection E1 as <- <-. destruct (rd_cap _ _ Hr'') as [Hc' _]. cbn [length] in Hc'. lia.
Qed.

(** A stat and some data in a buffer of 40 bytes. *)
Lemma zmsg_roundtrip_witness :
  ∃ m' m'', zmsg_finish (foldl put_field (zmsg_start (replicate 40 0xEE) 40 6 0x1234)
      [FStat VNODE_DIR 0x01020304 [97; 98]; FBytes [0; 1; 2]]) = (19, m') ∧
    get_fields 0xAA (zmsg_open (buf m') 19) [K32; K8; K16; KStat 32; KBytes 3] =
      Some ([F32 19; F8 6; F16 0x1234; FStat VNODE_DIR 0x01020304 [97; 98]; FBytes [0; 1; 2]], m'') ∧
    bad m'' = false ∧ pos m'' = 19.
Proof.
  apply (zmsg_roundtrip 0xAA (replicate 40 0xEE) 6 0x1234
    [FStat VNODE_DIR 0x01020304 [97; 98]; FBytes [0; 1; 2]] [KStat 32; KBytes 3]); [cbn; lia|lia|lia| |].
  - repeat constructor; cbn; lia || done.
  - repeat constructor; cbn; lia.
Defined.

(** C30: A parser never leaves the message: whatever bytes arrive and whatever
    is asked of them, no byte outside the message is read and none outside the
    buffers a reader passes is written; the cursor stays inside the message,
    the message is not changed, and the bytes the next request would be given
    lie inside it; once an error is noted it stays. *)
Theorem zmsg_parse_in_bounds (junk : Z) (b : list Z) (ks : list kind) (n : Z) :
  Z.of_nat (length b) < 2 ^ 32 → 0 ≤ n →
  let len := Z.of_nat (length b) in
  ∃ fs m, get_fields junk (zmsg_open b len) ks = Some (fs, m) ∧
    buf m = b ∧ 0 ≤ pos m ≤ len ∧
    match room m n with
    | (Some p, m') => bad m = false ∧ 0 ≤ p ∧ p + n ≤ len ∧ pos m' = p + n
    | (None, m') => bad m' = true
    end.
Proof.
  intros Hlen Hn len. destruct (get_fields_stays b len Hlen ltac:(lia) junk (zmsg_open b len) ks) as (fs & m & E & Hm).
  { unfold cursor_ok. cbn. split_and!; done || lia. }
  exists fs, m. split; [done|]. pose proof Hm as (H1 & H2 & H3). split_and!; [done|lia|lia|].
  destruct (room m n) as [p m'] eqn:Er. destruct (room_ok b len m n p m' Hlen Hn Hm Er) as [_ Hp].
  destruct p as [p|]; [|done]. unfold room in Er.
  destruct (bad m) eqn:Eb; [done|]. cbn [orb] in Er. destruct (n >? _); [done|]. injection Er as <- <-.
  split_and!; [done|lia|lia|]. cbn [pos]. apply u32_small. lia.
Qed.

Lemma zmsg_parse_in_bounds_witness :
  ∃ fs m, get_fields 0xAA (zmsg_open [3; 0; 97; 98] 4) [KStr 8; K8] = Some (fs, m) ∧
    buf m = [3; 0; 97; 98] ∧ 0 ≤ pos m ≤ 4 ∧
    match room m 2 with
    | (Some p, m') => bad m = false ∧ 0 ≤ p ∧ p + 2 ≤ 4 ∧ pos m' = p + 2
    | (None, m') => bad m' = true
    end.
Proof. apply (zmsg_parse_in_bounds 0xAA [3; 0; 97; 98] [KStr 8; K8] 2); cbn; lia. Defined.

(** ** Keys, nonces and proofs *)

Record auth := Auth { key : list Z; have_key : bool; pool : list Z; counter : Z }.

Definition zrp_key (a : auth) : option (list Z) := if have_key a then Some (key a) else None.

Definition zrp_key_set (a : auth) (k : option (list Z)) : auth :=
  match k with
  | Some k => Auth (splice (key a) 0 (take (Z.to_nat ZRP_KEY) k)) true (pool a) (counter a)
  | None => Auth (replicate (Z.to_nat ZRP_KEY) 0) false (pool a) (counter a)
  end.

(** The string literals of the code. *)
Definition ZRP2_KEY : list Z := [0x5A; 0x52; 0x50; 0x32; 0x20; 0x6B; 0x65; 0x79].
Definition ZRP2_ : list Z := [0x5A; 0x52; 0x50; 0x32; 0x20].
Definition POOL : list Z := [0x70; 0x6F; 0x6F; 0x6C].
Definition NONCE : list Z := [0x6E; 0x6F; 0x6E; 0x63; 0x65].
Definition SERVER : list Z := [0x73; 0x65; 0x72; 0x76; 0x65; 0x72].
Definition CLIENT : list Z := [0x63; 0x6C; 0x69; 0x65; 0x6E; 0x74].

(** [sha256_init(c)], two updates and [sha256_final], on a context that
    holds anything. *)
Definition hash2 (c : sha256_ctx) (x y : list Z) : outcome (list Z * sha256_ctx) :=
  sha256_update (sha256_init c) x ≫= λ c, sha256_update c y ≫= sha256_final.

Definition zrp_key_derive (junk : sha256_ctx) (passphrase : list Z) : outcome (list Z) :=
  hash2 junk ZRP2_KEY passphrase ≫= λ '(out, _), Ok out.

(** [fine], [wall] and [ticks] are what the clocks return. *)
Definition zrp_nonce (junk : sha256_ctx) (a : auth) (fine wall ticks : Z) : outcome (list Z * auth) :=
  let n := counter a in
  let mix := le_bytes 4 n ++ le_bytes 4 fine ++ le_bytes 4 wall ++ le_bytes 8 ticks in
  hash2 junk (pool a) mix ≫= λ '(digest, c),
  hash2 c POOL digest ≫= λ '(pool, c),
  hash2 c NONCE digest ≫= λ '(digest, c),
  Ok (take (Z.to_nat ZRP_NONCE) digest, Auth (key a) (have_key a) pool (u32 (counter a + 1))).

Definition zrp_auth_mac (junk : sha256_ctx) (hm : hmac_ctx) (k role cnonce snonce : list Z) : outcome (list Z) :=
  hmac_sha256_init junk hm (take (Z.to_nat ZRP_KEY) k) ≫= λ hm,
  hmac_sha256_update hm ZRP2_ ≫= λ hm,
  hmac_sha256_update hm role ≫= λ hm,
  hmac_sha256_update hm (take (Z.to_nat ZRP_NONCE) cnonce) ≫= λ hm,
  hmac_sha256_update hm (take (Z.to_nat ZRP_NONCE) snonce) ≫= λ hm,
  hmac_sha256_final junk hm.

(** What the proof of a role is computed over. *)
Definition proof_text (role cnonce snonce : list Z) : list Z :=
  ZRP2_ ++ role ++ take (Z.to_nat ZRP_NONCE) cnonce ++ take (Z.to_nat ZRP_NONCE) snonce.

Lemma hash2_spec c x y :
  length (block c) = 64%nat → size_ok x → size_ok y →
  hash2 c x y = Ok (sha256_spec (x ++ y), Ctx (replicate 8 0) (replicate 64 0) 0 0 0).
Proof.
  intros Hc Hx Hy. unfold hash2.
  destruct (absorbed_update _ [] x (absorbed_init c Hc) Hx) as (c1 & -> & H1). cbn [mbind outcome_bind app] in *.
  destruct (absorbed_update c1 x y H1 Hy) as (c2 & -> & H2). cbn [mbind outcome_bind].
  by apply absorbed_final_zero.
Qed.

(** Stated as an equation so that checking it never runs the hash. *)
Lemma bind_ok {A B} (x : A) (f : A → outcome B) : (Ok x ≫= f) = f x.
Proof. done. Qed.

Lemma bind_four {A B} (x : outcome A) (f g h : A → outcome A) (k : A → outcome B) y :
  (x ≫= λ a, f a ≫= λ a, g a ≫= λ a, h a ≫= λ a, Ok a) = Ok y →
  (x ≫= λ a, f a ≫= λ a, g a ≫= λ a, h a ≫= k) = k y.
Proof.
  destruct x as [a| |]; [|discriminate..]. cbn [mbind outcome_bind].
  destruct (f a) as [a1| |]; [|discriminate..]. cbn [mbind outcome_bind].
  destruct (g a1) as [a2| |]; [|discriminate..]. cbn [mbind outcome_bind].
  destruct (h a2) as [a3| |]; [|discriminate..]. by intros [= ->].
Qed.

Lemma hmac_feed_four {B} hm a b c d hm' (k : hmac_ctx → outcome B) :
  hmac_feed hm [a; b; c; d] = Ok hm' →
  (hmac_sha256_update hm a ≫= λ hm, hmac_sha256_update hm b ≫= λ hm,
   hmac_sha256_update hm c ≫= λ hm, hmac_sha256_update hm d ≫= k) = k hm'.
Proof. cbn [hmac_feed]. apply bind_four. Qed.

Lemma size_ok_take (n : nat) (l : list Z) : Z.of_nat n < 2 ^ 32 → size_ok (take n l).
Proof. intros Hn. unfold size_ok. rewrite length_take. lia. Qed.

Lemma auth_mac_spec junk hm k role cnonce snonce :
  length (block junk) = 64%nat → length (block (inner hm)) = 64%nat → size_ok role →
  zrp_auth_mac junk hm k role cnonce snonce = Ok (hmac_spec (take (Z.to_nat ZRP_KEY) k) (proof_text role cnonce snonce)).
Proof.
  intros Hj Hi Hr.
  destruct (hmac_init_spec junk hm (take (Z.to_nat ZRP_KEY) k) Hj Hi) as (h1 & E1 & H1 & O1); [by apply size_ok_take|].
  destruct (hmac_feed_spec h1 _ [ZRP2_; role; take (Z.to_nat ZRP_NONCE) cnonce; take (Z.to_nat ZRP_NONCE) snonce] H1) as (h2 & E2 & H2 & O2).
  { repeat constructor; try done; by apply size_ok_take. }
  unfold zrp_auth_mac. rewrite E1, bind_ok.
  rewrite (hmac_feed_four _ _ _ _ _ h2) by exact E2. apply hmac_final_spec; [done| |by rewrite O2].
  unfold proof_text. cbn [concat] in H2. by rewrite app_nil_r in H2.
Qed.

Lemma key_derive_spec junk pass :
  length (block junk) = 64%nat → size_ok pass → zrp_key_derive junk pass = Ok (sha256_spec (ZRP2_KEY ++ pass)).
Proof. intros Hj Hp. unfold zrp_key_derive. by rewrite hash2_spec. Qed.

Lemma texts_differ cn sn cn' sn' : proof_text SERVER cn sn ≠ proof_text CLIENT cn' sn'.
Proof. intros H. discriminate H. Qed.

(** The proofs of a session are what the protocol says: the MAC of a role
    is HMAC-SHA-256 under the shared key of the text made of the version, the
    role and both nonces, and the key of a passphrase is the hash of the
    prefixed passphrase. The texts of the server and of the client never
    coincide, so neither proof can be replayed as the other. *)
Theorem zrp_proofs (junk : sha256_ctx) (hm : hmac_ctx) (k role cnonce snonce pass : list Z) :
  length (block junk) = 64%nat → length (block (inner hm)) = 64%nat → size_ok role → size_ok pass →
  zrp_auth_mac junk hm k role cnonce snonce = Ok (hmac_spec (take (Z.to_nat ZRP_KEY) k) (proof_text role cnonce snonce)) ∧
  zrp_key_derive junk pass = Ok (sha256_spec (ZRP2_KEY ++ pass)) ∧
  (∀ cn sn cn' sn', proof_text SERVER cn sn ≠ proof_text CLIENT cn' sn').
Proof.
  intros Hj Hi Hr Hp. split; [by apply auth_mac_spec|]. split; [by apply key_derive_spec|]. exact texts_differ.
Qed.

Lemma zrp_proofs_witness :
  let junk := Ctx [] (replicate 64 0) 0 0 0 in
  zrp_auth_mac junk (Hmac junk []) [1; 2] CLIENT [3] [4] = Ok (hmac_spec [1; 2] (proof_text CLIENT [3] [4])) ∧
  zrp_key_derive junk [112; 119] = Ok (sha256_spec (ZRP2_KEY ++ [112; 119])) ∧
  (∀ cn sn cn' sn', proof_text SERVER cn sn ≠ proof_text CLIENT cn' sn').
Proof.
  apply (zrp_proofs (Ctx [] (replicate 64 0) 0 0 0) (Hmac (Ctx [] (replicate 64 0) 0 0 0) []) [1; 2] CLIENT [3] [4] [112; 119]);
    reflexivity.
Defined.

(** A nonce is the first bytes of one hash, the state moves on by another,
    and the counter makes the hashed text of two calls differ. *)
Lemma zrp_nonce_spec junk a fine wall ticks :
  length (block junk) = 64%nat → size_ok (pool a) →
  let digest := sha256_spec (pool a ++ le_bytes 4 (counter a) ++ le_bytes 4 fine ++ le_bytes 4 wall ++ le_bytes 8 ticks) in
  zrp_nonce junk a fine wall ticks =
  Ok (take 16 (sha256_spec (NONCE ++ digest)),
      Auth (key a) (have_key a) (sha256_spec (POOL ++ digest)) (u32 (counter a + 1))).
Proof.
  intros Hj Hp digest. unfold zrp_nonce. rewrite hash2_spec by done. cbn [mbind outcome_bind]. fold digest.
  assert (size_ok digest) by (unfold size_ok, digest; by rewrite length_sha256_spec).
  rewrite hash2_spec by done. cbn [mbind outcome_bind]. by rewrite hash2_spec.
Qed.
