(* ===== verification/Pipe.v ===== *)
(** * Pipes ([zkt/fs/pipe.c])

    Each direction is a queue of messages. The body of [pipe_recv] and of
    [pipe_send] runs with interrupts off between two sleeps, so each round of
    their loops is one step: it either finishes the call or puts it to sleep
    on a wait queue. A woken call runs its loop again, in whatever order the
    scheduler chooses. [false] and [true] are the ends 0 and 1. *)
From S2P Require Import Prelude Abi.
Local Open Scope Z_scope.

(** ** The code *)

Abbreviation PIPE_CAPACITY := (64 * 1024)%Z (only parsing).
Abbreviation MESSAGE_MAX := (256 * 1024)%Z (only parsing).

Record message := Message { data : list Z; mpos : Z }.
Definition mlen (m : message) : Z := Z.of_nat (length (data m)).

(** The queue from [head] to [tail], and its size. *)
Record direction := Direction { messages : list message; bytes : Z }.

Record pipe := Pipe { dir : bool → direction; open : bool → bool }.

Definition set_dir (p : pipe) (i : bool) (d : direction) : pipe :=
  Pipe (λ j, if Bool.eqb j i then d else dir p j) (open p).
Definition set_open (p : pipe) (i b : bool) : pipe :=
  Pipe (dir p) (λ j, if Bool.eqb j i then b else open p j).

Definition pipe_create : pipe := Pipe (λ _, Direction [] 0) (λ _, true).

(** A round of a loop: sleep on the queue of direction [q], or finish. *)
Inductive attempt (A : Type) := Sleep | Finish (a : A).
Arguments Sleep {A}.
Arguments Finish {A}.

(** [pipe_recv] on the end [side]: the result, the bytes copied out, the pipe,
    and whether the writers of the direction are woken. *)
Definition pipe_recv (p : pipe) (side : bool) (len : Z) : attempt (Z * list Z * pipe * bool) :=
  let d := dir p side in
  match messages d with
  | [] => if open p (negb side) then Sleep else Finish (0, [], p, false)
  | m :: rest =>
      let n := if mlen m - mpos m <? len then mlen m - mpos m else len in
      let out := take (Z.to_nat n) (drop (Z.to_nat (mpos m)) (data m)) in
      let m := Message (data m) (mpos m + n) in
      if mpos m =? mlen m then Finish (n, out, set_dir p side (Direction rest (u32 (bytes d - mlen m))), true)
      else Finish (n, out, set_dir p side (Direction (m :: rest) (bytes d)), false)
  end.

(** [pipe_send] before it takes the lock: an error, or the message to queue.
    [room] says whether [kmalloc] succeeded. *)
Definition pipe_send_start (room : bool) (buf : list Z) : Z + message :=
  if Z.of_nat (length buf) >? MESSAGE_MAX then inl (- EINVAL)
  else if room then inr (Message buf 0) else inl (- ENOMEM).

(** The rest of it: the result, the pipe, and whether the readers of the
    direction (and the pollers) are woken. *)
Definition pipe_send (p : pipe) (side : bool) (m : message) : attempt (Z * pipe * bool) :=
  let i := negb side in
  let d := dir p i in
  if open p i && truth (bytes d) && (u32 (bytes d + mlen m) >? PIPE_CAPACITY) then Sleep
  else if negb (open p i) then Finish (- EPIPE, p, false)
  else Finish (mlen m, set_dir p i (Direction (messages d ++ [m]) (u32 (bytes d + mlen m))), true).

Definition end_poll (p : pipe) (side : bool) : bool :=
  match messages (dir p side) with [] => negb (open p (negb side)) | _ => true end.

Definition free_messages (d : direction) : direction := Direction [] 0.

(** [end_release]: the readers of the other direction and the writers of
    this one are woken; the last end frees the messages. It then frees the
    memory of the pipe, which is not part of the state; see
    [freed_before_woken]. *)
Definition end_release (p : pipe) (side : bool) : pipe :=
  let p := set_open p side false in
  if open p (negb side) then p
  else Pipe (λ i, free_messages (dir p i)) (open p).

(** ** Threads in calls *)

(** A call in progress, by its end: a read of so many bytes, with a deadline
    or without, or a message to send. *)
Inductive call :=
  | Recv (side : bool) (len : Z) (timed : bool)
  | Send (side : bool) (m : message).
Definition side_of (c : call) : bool := match c with Recv s _ _ => s | Send s _ => s end.

(** What a finished call did. *)
Inductive event :=
  | Received (side : bool) (result : Z) (out : list Z)
  | Sent (side : bool) (result : Z) (m : message).

(** A [waitq_wake_all] that a call still has to make: it does so after it
    let interrupts in again. *)
Inductive wake := WakeReaders (i : bool) | WakeWriters (i : bool).

(** The pipe, the calls asleep on [readable] and on [writable] of each
    direction, the calls about to run their loop, and the wake-ups to come. *)
Record system := System {
  sys_pipe : pipe; readers : bool → list call; writers : bool → list call; ready : list call; pending : list wake
}.

Definition set_at {A} (f : bool → A) (i : bool) (x : A) : bool → A := λ j, if Bool.eqb j i then x else f j.

(** [waitq_wake_all] *)
Definition do_wake (s : system) (w : wake) : system :=
  match w with
  | WakeReaders i => System (sys_pipe s) (set_at (readers s) i []) (writers s) (ready s ++ readers s i) (pending s)
  | WakeWriters i => System (sys_pipe s) (readers s) (set_at (writers s) i []) (ready s ++ writers s i) (pending s)
  end.

(** A new state of the pipe and the wake-ups that go with it. *)
Definition with_pipe (s : system) (p : pipe) (ws : list wake) : system :=
  System p (readers s) (writers s) (ready s) (pending s ++ ws).

(** One round of a call that was taken from [ready]. *)
Definition run_call (s : system) (c : call) : system * option event :=
  match c with
  | Recv side len timed =>
      match pipe_recv (sys_pipe s) side len with
      | Sleep => (System (sys_pipe s) (set_at (readers s) side (readers s side ++ [c])) (writers s) (ready s) (pending s), None)
      | Finish (r, out, p, wake) =>
          (with_pipe s p (if wake : bool then [WakeWriters side] else []), Some (Received side r out))
      end
  | Send side m =>
      match pipe_send (sys_pipe s) side m with
      | Sleep => (System (sys_pipe s) (readers s) (set_at (writers s) (negb side) (writers s (negb side) ++ [c]))
                    (ready s) (pending s), None)
      | Finish (r, p, wake) =>
          (with_pipe s p (if wake : bool then [WakeReaders (negb side)] else []), Some (Sent side r m))
      end
  end.

(** No call is in progress on an end that is released: a call holds a
    reference to its end. *)
Definition call_in (s : system) (c : call) : Prop := ∃ i, c ∈ ready s ∨ c ∈ readers s i ∨ c ∈ writers s i.
Definition idle (s : system) (side : bool) : Prop := ∀ c, call_in s c → side_of c ≠ side.

Definition call_ok (c : call) : Prop :=
  match c with
  | Recv _ len _ => 0 ≤ len
  | Send _ m => mpos m = 0 ∧ mlen m ≤ MESSAGE_MAX
  end.

Inductive step : system → option event → system → Prop :=
  | step_start s c :
      call_ok c → open (sys_pipe s) (side_of c) = true →
      step s None (System (sys_pipe s) (readers s) (writers s) (ready s ++ [c]) (pending s))
  | step_run s l1 c l2 s' e :
      ready s = l1 ++ c :: l2 →
      run_call (System (sys_pipe s) (readers s) (writers s) (l1 ++ l2) (pending s)) c = (s', e) →
      step s e s'
  | step_wake s l1 w l2 :
      pending s = l1 ++ w :: l2 →
      step s None (do_wake (System (sys_pipe s) (readers s) (writers s) (ready s) (l1 ++ l2)) w)
  | step_timeout s i l1 side len l2 :
      readers s i = l1 ++ Recv side len true :: l2 →
      step s (Some (Received side (- ETIMEDOUT) []))
        (System (sys_pipe s) (set_at (readers s) i (l1 ++ l2)) (writers s) (ready s) (pending s))
  | step_close s side :
      open (sys_pipe s) side = true → idle s side →
      step s None (with_pipe s (end_release (sys_pipe s) side) [WakeReaders (negb side); WakeWriters side]).

(** The states a new pipe reaches, with what happened, latest first. *)
Inductive reachable : system → list event → Prop :=
  | reach_new : reachable (System pipe_create (λ _, []) (λ _, []) [] []) []
  | reach_step s e s' tr :
      reachable s tr → step s e s' → reachable s' (match e with Some e => e :: tr | None => tr end).

(** An end that is released lets interrupts in before it wakes the other one's
    calls. When the other end is released in between, that one is the last: it
    wakes, and frees the pipe, while the first one still has to wake calls on
    queues inside it. *)
Lemma freed_before_woken :
  ∃ s, reachable s [] ∧ open (sys_pipe s) false = false ∧ open (sys_pipe s) true = false ∧
    pending s = [WakeReaders true; WakeWriters false].
Proof.
  pose proof reach_new as H. eapply reach_step in H; [|apply (step_close _ false); [done|intros c (? & [Hc|[Hc|Hc]]); by apply elem_of_nil in Hc]].
  eapply reach_step in H; [|apply (step_close _ true); [done|intros c (? & [Hc|[Hc|Hc]]); by apply elem_of_nil in Hc]].
  eapply reach_step in H; [|by apply (step_wake _ [WakeReaders true; WakeWriters false] (WakeReaders false) [WakeWriters true])].
  eapply reach_step in H; [|by apply (step_wake _ [WakeReaders true; WakeWriters false] (WakeWriters true) [])].
  eexists. split; [exact H|]. done.
Qed.

(** ** Specification *)

(** The bytes of a direction that were accepted and that were read, in order. *)
Fixpoint accepted (i : bool) (tr : list event) : list Z :=
  match tr with
  | [] => []
  | Sent side r m :: tr => accepted i tr ++ (if Bool.eqb (negb side) i && (0 <=? r) then data m else [])
  | _ :: tr => accepted i tr
  end.
Fixpoint delivered (i : bool) (tr : list event) : list Z :=
  match tr with
  | [] => []
  | Received side r out :: tr => delivered i tr ++ (if Bool.eqb side i then out else [])
  | _ :: tr => delivered i tr
  end.

(** What is left of a message, and of a queue. *)
Definition rest_of (m : message) : list Z := drop (Z.to_nat (mpos m)) (data m).
Definition queued (d : direction) : list Z := concat (rest_of <$> messages d).
Definition total (l : list message) : Z := foldr (λ m n, mlen m + n) 0 l.

(** A message in a queue: something is left of it, or it is an empty one. *)
Definition message_ok (m : message) : Prop := 0 ≤ mpos m ∧ (mpos m < mlen m ∨ mpos m = 0 ∧ mlen m = 0) ∧ mlen m ≤ MESSAGE_MAX.

(** The bytes queued, and the limit: over the capacity only with a single
    message that is not empty. *)
Record direction_ok (d : direction) : Prop := {
  dir_messages : Forall message_ok (messages d);
  dir_bytes : bytes d = total (messages d);
  dir_limit : bytes d ≤ PIPE_CAPACITY ∨ ∃ m, filter (λ m, mlen m ≠ 0) (messages d) = [m]
}.

(** A sleeping call has a reason to sleep, or is about to be woken. *)
Definition reader_waits (s : system) (i : bool) : Prop :=
  messages (dir (sys_pipe s) i) = [] ∧ open (sys_pipe s) (negb i) = true.
Definition writer_waits (s : system) (i : bool) (c : call) : Prop :=
  match c with
  | Send side m => open (sys_pipe s) i = true ∧ bytes (dir (sys_pipe s) i) ≠ 0 ∧
      bytes (dir (sys_pipe s) i) + mlen m > PIPE_CAPACITY
  | _ => False
  end.

(** No call is in progress on a closed end. *)
Definition closed_ok (s : system) : Prop := ∀ i c, open (sys_pipe s) i = false → call_in s c → side_of c ≠ i.

Record system_ok (s : system) : Prop := {
  ok_dirs i : direction_ok (dir (sys_pipe s) i);
  ok_ready : Forall call_ok (ready s);
  ok_readers i : Forall (λ c, call_ok c ∧ match c with Recv side _ _ => side = i | _ => False end) (readers s i);
  ok_writers i : Forall (λ c, call_ok c ∧ match c with Send side _ => side = negb i | _ => False end) (writers s i);
  ok_asleep_r i : readers s i ≠ [] → reader_waits s i ∨ WakeReaders i ∈ pending s;
  ok_asleep_w i : Forall (writer_waits s i) (writers s i) ∨ WakeWriters i ∈ pending s;
  ok_closed : closed_ok s
}.

(** ** One direction *)

Lemma total_nonneg l : 0 ≤ total l.
Proof. induction l as [|m l IH]; simpl; [lia|]. unfold mlen. lia. Qed.
Lemma total_app l k : total (l ++ k) = total l + total k.
Proof. induction l as [|m l IH]; simpl; [done|]. lia. Qed.

Lemma total_single l m : filter (λ m, mlen m ≠ 0) l = [m] → total l = mlen m ∧ m ∈ l.
Proof.
  induction l as [|x l IH]; [done|]. rewrite filter_cons. case_decide as Hx.
  - intros [= <- Hl]. split; [|by left]. simpl. assert (total l = 0); [|lia]. clear -Hl.
    induction l as [|y l IH]; [done|]. rewrite filter_cons in Hl. case_decide; [done|]. simpl. rewrite IH by done. lia.
  - intros Hl. destruct (IH Hl) as [H1 H2]. split; [simpl; lia|by right].
Qed.

Lemma filter_zero l : total l = 0 → filter (λ m, mlen m ≠ 0) l = [].
Proof.
  induction l as [|x l IH]; [done|]. simpl. pose proof (total_nonneg l). unfold mlen at 1. intros Ht.
  rewrite filter_cons, decide_False by (unfold mlen; lia). apply IH. lia.
Qed.

(** However much is queued, it stays far from wrapping. *)
Lemma bytes_bound d : direction_ok d → 0 ≤ bytes d ≤ MESSAGE_MAX.
Proof.
  intros [Hm Hb Hl]. split; [rewrite Hb; apply total_nonneg|]. destruct Hl as [Hl|(m & Hl)].
  - lia.
  - destruct (total_single _ _ Hl) as [Ht Hin]. rewrite Forall_forall in Hm. rewrite Hb, Ht. apply Hm, Hin.
Qed.

Lemma dir_set_eq p i d : dir (set_dir p i d) i = d.
Proof. simpl. by rewrite eqb_reflx. Qed.
Lemma dir_set_ne p i j d : j ≠ i → dir (set_dir p i d) j = dir p j.
Proof. intros Hj. simpl. by rewrite (proj2 (eqb_false_iff j i)). Qed.

Lemma limit_tail m rest (b : Z) :
  b ≤ PIPE_CAPACITY ∨ (∃ x, filter (λ m, mlen m ≠ 0) (m :: rest) = [x]) →
  b ≤ PIPE_CAPACITY ∨ total rest ≤ PIPE_CAPACITY ∨ ∃ x, filter (λ m, mlen m ≠ 0) rest = [x].
Proof.
  intros [Hl|(x & Hl)]; [by left|right]. rewrite filter_cons in Hl. case_decide; [left|right; by exists x].
  injection Hl as _ Hl. assert (total rest = 0) as ->; [|done].
  induction rest as [|y l IH]; [done|]. rewrite filter_cons in Hl. case_decide; [done|]. simpl. rewrite IH by done. lia.
Qed.

Lemma limit_head m m' rest :
  mlen m' = mlen m → (∃ x, filter (λ m, mlen m ≠ 0) (m :: rest) = [x]) →
  ∃ x, filter (λ m, mlen m ≠ 0) (m' :: rest) = [x].
Proof.
  intros E (x & Hl). rewrite filter_cons in *. rewrite E. case_decide; [|by exists x]. injection Hl as _ ->. by exists m'.
Qed.

(** What a finished read did to its direction. *)
Record recv_effect (p : pipe) (side : bool) (len r : Z) (out : list Z) (p' : pipe) (wake : bool) : Prop := {
  re_open : open p' = open p;
  re_other : dir p' (negb side) = dir p (negb side);
  re_ok : direction_ok (dir p' side);
  re_data : queued (dir p side) = out ++ queued (dir p' side);
  re_result : r = Z.of_nat (length out) ∧ r ≤ Z.max 0 len;
  re_same : wake = false → bytes (dir p' side) = bytes (dir p side);
  re_less : messages (dir p side) = [] → messages (dir p' side) = []
}.

Lemma pipe_recv_effect p side len r out p' wake :
  direction_ok (dir p side) → 0 ≤ len → pipe_recv p side len = Finish (r, out, p', wake) →
  recv_effect p side len r out p' wake.
Proof.
  intros Hd Hlen. pose proof (bytes_bound _ Hd) as Hb. unfold pipe_recv.
  destruct (messages (dir p side)) as [|m rest] eqn:Em.
  { destruct (open p (negb side)); [done|]. intros [= <- <- <- <-]. split; try done. cbn [length]. lia. }
  destruct Hd as [Hm Hby Hl]. rewrite Em in Hm, Hby, Hl. apply Forall_cons in Hm as [(Hp0 & Hp & Hmax) Hrest].
  set (n := if mlen m - mpos m <? len then mlen m - mpos m else len).
  assert (0 ≤ n ≤ mlen m - mpos m ∧ n ≤ len) as Hn by (unfold n; case_if; lia).
  set (out0 := take (Z.to_nat n) (drop (Z.to_nat (mpos m)) (data m))).
  assert (length out0 = Z.to_nat n) as Hout by (unfold out0; rewrite length_take, length_drop; unfold mlen in *; lia).
  assert (rest_of m = out0 ++ drop (Z.to_nat (mpos m + n)) (data m)) as Hsplit.
  { unfold rest_of, out0. rewrite Z2Nat.inj_add, <- drop_drop by lia. by rewrite take_drop. }
  assert (queued (dir p side) = rest_of m ++ concat (rest_of <$> rest)) as Hq by (unfold queued; by rewrite Em).
  cbn [mpos data mlen]. change (mlen (Message (data m) (mpos m + n))) with (mlen m).
  destruct (Z.eqb_spec (mpos m + n) (mlen m)) as [E|E]; intros [= <- <- <- <-].
  - pose proof (total_nonneg rest). cbn [total foldr] in Hby. fold (total rest) in Hby. rewrite u32_small by (lia).
    split; rewrite ?dir_set_eq; try done.
    + rewrite dir_set_ne; [done|by destruct side].
    + split; cbn [messages bytes]; [done|lia|]. destruct (limit_tail m rest _ Hl) as [?|[?|?]]; [left; unfold mlen in *; lia|left; lia|by right].
    + rewrite Hq, Hsplit. unfold queued. cbn [messages]. rewrite (drop_ge (data m)); [by rewrite app_nil_r|].
      rewrite E. unfold mlen. lia.
    + rewrite Hout. lia.
    + by rewrite Em.
  - split; rewrite ?dir_set_eq; try done.
    + rewrite dir_set_ne; [done|by destruct side].
    + split; cbn [messages bytes]; [constructor; [|done]|done|].
      * unfold message_ok. cbn [mpos]. change (mlen (Message (data m) (mpos m + n))) with (mlen m). lia.
      * destruct Hl as [Hl|Hl]; [by left|right]. by apply (limit_head m).
    + rewrite Hq, Hsplit. unfold queued. cbn [messages fmap list_fmap concat]. by rewrite <- app_assoc.
    + rewrite Hout. lia.
    + by rewrite Em.
Qed.

(** What a finished write did. *)
Inductive send_effect (p : pipe) (side : bool) (m : message) : Z → pipe → bool → Prop :=
  | send_refused : open p (negb side) = false → send_effect p side m (- EPIPE) p false
  | send_queued p' :
      open p (negb side) = true → open p' = open p → dir p' side = dir p side → direction_ok (dir p' (negb side)) →
      queued (dir p' (negb side)) = queued (dir p (negb side)) ++ data m →
      bytes (dir p' (negb side)) = bytes (dir p (negb side)) + mlen m →
      send_effect p side m (mlen m) p' true.

Lemma pipe_send_effect p side m r p' wake :
  direction_ok (dir p (negb side)) → call_ok (Send side m) → pipe_send p side m = Finish (r, p', wake) →
  send_effect p side m r p' wake.
Proof.
  intros Hd [Hpos Hlen]. pose proof (bytes_bound _ Hd) as Hb. destruct Hd as [Hm Hby Hl]. unfold pipe_send.
  assert (0 ≤ mlen m) by (unfold mlen; lia).
  rewrite u32_small by (lia). rewrite Z.gtb_ltb.
  destruct (open p (negb side)) eqn:Eo; cbn [andb negb]; [|intros [= <- <- <-]; by constructor].
  destruct (truth (bytes (dir p (negb side))) && (PIPE_CAPACITY <? bytes (dir p (negb side)) + mlen m)) eqn:Ew; [done|].
  intros [= <- <- <-]. apply send_queued; rewrite ?dir_set_eq; try done.
  - apply dir_set_ne. by destruct side.
  - split; cbn [messages bytes].
    + apply Forall_app. split; [done|]. constructor; [|done]. unfold message_ok. rewrite Hpos. lia.
    + rewrite total_app, <- Hby. simpl. lia.
    + apply andb_false_iff in Ew as [Ew|Ew]; [|left; by apply Z.ltb_ge in Ew].
      apply truth_false_iff in Ew. rewrite Ew in Hby. destruct (decide (mlen m = 0)); [left; lia|right].
      exists m. rewrite filter_app. rewrite filter_zero, filter_cons, decide_True by done. done.
  - unfold queued. cbn [messages]. rewrite fmap_app, concat_app. cbn [fmap list_fmap concat]. unfold rest_of at 2.
    by rewrite Hpos, drop_0, app_nil_r.
Qed.

(** ** The system *)

Lemma set_at_eq {A} (f : bool → A) i x : set_at f i x i = x.
Proof. unfold set_at. by rewrite eqb_reflx. Qed.
Lemma set_at_ne {A} (f : bool → A) i j x : j ≠ i → set_at f i x j = f j.
Proof. intros Hj. unfold set_at. by rewrite (proj2 (eqb_false_iff j i)). Qed.

(** A direction is the one that changed, or the other. *)
Lemma side_cases (side i : bool) : i = side ∨ i = negb side.
Proof. destruct side, i; auto. Qed.

Lemma closed_mono s s' :
  open (sys_pipe s') = open (sys_pipe s) → (∀ c, call_in s' c → call_in s c) → closed_ok s → closed_ok s'.
Proof. intros Ho Hc H i c Hi Hin. rewrite Ho in Hi. by eapply H, Hc. Qed.

(** A call that runs is taken from [ready]. *)
Definition taken (s : system) (l1 l2 : list call) : system :=
  System (sys_pipe s) (readers s) (writers s) (l1 ++ l2) (pending s).

Section run.
Context (s : system) (l1 l2 : list call) (c : call).
Context (Hs : system_ok s) (Hr : ready s = l1 ++ c :: l2).

Lemma run_call_ok : call_ok c ∧ Forall call_ok (l1 ++ l2).
Proof.
  pose proof (ok_ready s Hs) as H. rewrite Hr in H. apply Forall_app in H as [H1 H2]. apply Forall_cons in H2 as [Hc H2].
  split; [done|]. by apply Forall_app.
Qed.

Lemma in_ready x : x ∈ l1 ++ l2 ∨ x = c → x ∈ ready s.
Proof. rewrite Hr, !elem_of_app, elem_of_cons. naive_solver. Qed.

Lemma calls_taken x p ws : call_in (with_pipe (taken s l1 l2) p ws) x → call_in s x.
Proof.
  intros (i & Hx). exists i. cbn in Hx. destruct Hx as [Hx|Hx]; [left; apply in_ready; by left|by right].
Qed.

(** A read that goes to sleep. *)
Lemma recv_sleep_ok side len timed :
  c = Recv side len timed → pipe_recv (sys_pipe s) side len = Sleep →
  system_ok (System (sys_pipe s) (set_at (readers s) side (readers s side ++ [c])) (writers s) (l1 ++ l2) (pending s)).
Proof.
  intros Ec E. destruct run_call_ok as [Hc Hl]. pose proof in_ready as Hin. clear Hr. subst c. destruct Hs as [H1 H2 H3 H4 H5 H6 H7].
  assert (messages (dir (sys_pipe s) side) = [] ∧ open (sys_pipe s) (negb side) = true) as [Hm Ho].
  { unfold pipe_recv in E. destruct (messages _) as [|m l]; [|by destruct (_ =? _)]. by destruct (open _ _). }
  split; cbn [sys_pipe readers writers ready pending]; try done.
  - intros i. destruct (side_cases side i) as [-> | ->].
    + rewrite set_at_eq. apply Forall_app. split; [apply H3|]. by constructor.
    + rewrite set_at_ne by (by destruct side). apply H3.
  - intros i Hi. destruct (side_cases side i) as [-> | ->]; [left; by split|].
    rewrite set_at_ne in Hi by (by destruct side). by apply H5.
  - apply (closed_mono s); [done| |exact H7]. intros x (i & Hx). cbn [ready readers writers] in Hx.
    destruct Hx as [Hx|[Hx|Hx]]; [exists i; left; apply Hin; by left| |exists i; by right; right].
    destruct (side_cases side i) as [-> | ->]; [|rewrite set_at_ne in Hx by (by destruct side); exists (negb side); by right; left].
    rewrite set_at_eq in Hx. apply elem_of_app in Hx as [Hx|Hx%list_elem_of_singleton]; [exists side; by right; left|].
    exists side. left. apply Hin. by right.
Qed.

(** A read that finishes. *)
Lemma recv_finish_ok side len timed r out p wake :
  c = Recv side len timed → pipe_recv (sys_pipe s) side len = Finish (r, out, p, wake) →
  system_ok (with_pipe (taken s l1 l2) p (if wake : bool then [WakeWriters side] else [])).
Proof.
  intros Ec E. destruct run_call_ok as [Hc Hl]. pose proof calls_taken as Hin. clear Hr. subst c. pose proof (pipe_recv_effect _ _ _ _ _ _ _ (ok_dirs s Hs side) Hc E) as He.
  destruct He as [Eo Eother Eok _ _ Esame Eless]. destruct Hs as [H1 H2 H3 H4 H5 H6 H7].
  split; cbn [with_pipe taken sys_pipe readers writers ready pending]; try done.
  - intros i. destruct (side_cases side i) as [-> | ->]; [done|]. rewrite Eother. apply H1.
  - intros i Hi. destruct (H5 i Hi) as [[Hm Ho]|Hw]; [left|right; apply elem_of_app; by left].
    split; cbn [with_pipe taken sys_pipe]; [|by rewrite Eo]. destruct (side_cases side i) as [-> | ->]; [by apply Eless|by rewrite Eother].
  - intros i. destruct (side_cases side i) as [-> | ->].
    + destruct wake; [right; apply elem_of_app; right; by left|].
      destruct (H6 side) as [Hw|Hw]; [left|right; apply elem_of_app; by left].
      eapply Forall_impl; [exact Hw|]. intros x Hx. unfold writer_waits in *. destruct x; [done|].
      cbn [with_pipe taken sys_pipe]. by rewrite Eo, Esame.
    + destruct (H6 (negb side)) as [Hw|Hw]; [left|right; apply elem_of_app; by left].
      eapply Forall_impl; [exact Hw|]. intros x Hx. unfold writer_waits in *. destruct x; [done|].
      cbn [with_pipe taken sys_pipe]. by rewrite Eo, Eother.
  - apply (closed_mono s); [exact Eo| |exact H7]. intros x. apply Hin.
Qed.
(** A write that goes to sleep. *)
Lemma send_sleep_ok side m :
  c = Send side m → pipe_send (sys_pipe s) side m = Sleep →
  system_ok (System (sys_pipe s) (readers s) (set_at (writers s) (negb side) (writers s (negb side) ++ [c]))
    (l1 ++ l2) (pending s)).
Proof.
  intros Ec E. destruct run_call_ok as [Hc Hl]. pose proof in_ready as Hin. clear Hr. subst c.
  pose proof (bytes_bound _ (ok_dirs s Hs (negb side))) as Hb. destruct Hs as [H1 H2 H3 H4 H5 H6 H7].
  assert (writer_waits s (negb side) (Send side m)) as Hw.
  { unfold pipe_send in E. destruct (open _ _) eqn:Eo; cbn [andb negb] in E; [|done].
    destruct (truth _) eqn:Et; cbn [andb] in E; [|done]. destruct (_ >? _) eqn:Eg; [|done].
    apply truth_true_iff in Et. destruct Hc as [_ Hlen]. rewrite u32_small in Eg by (unfold mlen in *; lia).
    rewrite Z.gtb_ltb in Eg. zbool. split_and!; [done|done|lia]. }
  split; cbn [sys_pipe readers writers ready pending]; try done.
  - intros i. destruct (side_cases (negb side) i) as [-> | ->].
    + rewrite set_at_eq. apply Forall_app. split; [apply H4|]. constructor; [|done]. split; [done|]. by rewrite negb_involutive.
    + rewrite set_at_ne by (by destruct side). apply H4.
  - intros i. destruct (side_cases (negb side) i) as [-> | ->].
    + rewrite set_at_eq. destruct (H6 (negb side)) as [Hf|Hf]; [left|by right]. apply Forall_app. split; [done|]. by constructor.
    + rewrite set_at_ne by (by destruct side). apply H6.
  - apply (closed_mono s); [done| |exact H7]. intros x (i & Hx). cbn [ready readers writers] in Hx.
    destruct Hx as [Hx|[Hx|Hx]]; [exists i; left; apply Hin; by left|exists i; by right; left|].
    destruct (side_cases (negb side) i) as [-> | ->]; [|rewrite set_at_ne in Hx by (by destruct side); eexists; right; right; exact Hx].
    rewrite set_at_eq in Hx. apply elem_of_app in Hx as [Hx|Hx%list_elem_of_singleton]; [eexists; right; right; exact Hx|].
    exists side. left. apply Hin. by right.
Qed.

(** A write that finishes. *)
Lemma send_finish_ok side m r p wake :
  c = Send side m → pipe_send (sys_pipe s) side m = Finish (r, p, wake) →
  system_ok (with_pipe (taken s l1 l2) p (if wake : bool then [WakeReaders (negb side)] else [])).
Proof.
  intros Ec E. destruct run_call_ok as [Hc Hl]. pose proof calls_taken as Hin. clear Hr. subst c.
  pose proof (pipe_send_effect _ _ _ _ _ _ (ok_dirs s Hs (negb side)) Hc E) as He.
  assert (0 ≤ mlen m) as Hm0 by (unfold mlen; lia).
  destruct Hs as [H1 H2 H3 H4 H5 H6 H7]. destruct He as [Ho|p' Ho Eo Eother Eok _ Ebytes].
  { split; cbn [with_pipe taken sys_pipe readers writers ready pending]; rewrite ?app_nil_r; try done.
    apply (closed_mono s); [done| |exact H7]. intros x. apply Hin. }
  split; cbn [with_pipe taken sys_pipe readers writers ready pending]; try done.
  - intros i. destruct (side_cases side i) as [-> | ->]; [|done]. rewrite Eother. apply H1.
  - intros i Hi. destruct (side_cases side i) as [-> | ->]; [|right; apply elem_of_app; right; by left].
    destruct (H5 side Hi) as [[Hm Hop]|Hw]; [left|right; apply elem_of_app; by left].
    split; cbn [with_pipe taken sys_pipe]; [by rewrite Eother|by rewrite Eo].
  - intros i. destruct (H6 i) as [Hw|Hw]; [left|right; apply elem_of_app; by left].
    eapply Forall_impl; [exact Hw|]. intros x Hx. unfold writer_waits in *. destruct x; [done|].
    cbn [with_pipe taken sys_pipe]. rewrite Eo. destruct (side_cases side i) as [-> | ->]; [by rewrite Eother|].
    rewrite Ebytes. pose proof (bytes_bound _ (H1 (negb side))). destruct Hx as (? & ? & ?). split_and!; [done|lia|lia].
  - apply (closed_mono s); [exact Eo| |exact H7]. intros x. apply Hin.
Qed.

End run.

Lemma run_ok s l1 l2 c s' e :
  system_ok s → ready s = l1 ++ c :: l2 → run_call (taken s l1 l2) c = (s', e) → system_ok s'.
Proof.
  intros Hs Hr. destruct c as [side len timed|side m]; cbn [run_call taken sys_pipe].
  - destruct (pipe_recv (sys_pipe s) side len) as [|[[[r out] p] wake]] eqn:Er; intros [= <- <-].
    + by eapply recv_sleep_ok.
    + by eapply recv_finish_ok.
  - destruct (pipe_send (sys_pipe s) side m) as [|[[r p] wake]] eqn:Er; intros [= <- <-].
    + by eapply send_sleep_ok.
    + by eapply send_finish_ok.
Qed.

Lemma wake_ok s l1 w l2 :
  system_ok s → pending s = l1 ++ w :: l2 →
  system_ok (do_wake (System (sys_pipe s) (readers s) (writers s) (ready s) (l1 ++ l2)) w).
Proof.
  intros [H1 H2 H3 H4 H5 H6 H7] Hp.
  assert (∀ x, x ∈ pending s → x = w ∨ x ∈ l1 ++ l2) as Hin.
  { intros x. rewrite Hp, !elem_of_app, elem_of_cons. naive_solver. }
  assert (∀ i, Forall call_ok (readers s i) ∧ Forall call_ok (writers s i)) as Hc.
  { intros i. split; [eapply Forall_impl; [apply H3|]|eapply Forall_impl; [apply H4|]]; by intros x []. }
  destruct w as [i|i]; split; cbn [do_wake sys_pipe readers writers ready pending]; try done.
  - apply Forall_app. split; [done|apply Hc].
  - intros j. destruct (side_cases i j) as [-> | ->]; [rewrite set_at_eq|rewrite set_at_ne by (by destruct i)]; done.
  - intros j. destruct (side_cases i j) as [-> | ->]; [by rewrite set_at_eq|rewrite set_at_ne by (by destruct i)].
    intros Hj. destruct (H5 _ Hj) as [?|Hw]; [by left|right]. destruct (Hin _ Hw) as [[= Hx]|?]; [by destruct i|done].
  - intros j. destruct (H6 j) as [?|Hw]; [by left|right]. by destruct (Hin _ Hw).
  - apply (closed_mono s); [done| |done]. intros x (j & [Hx|[Hx|Hx]]); cbn [do_wake ready readers writers] in Hx.
    + apply elem_of_app in Hx as [Hx|Hx]; [by exists i; left|by exists i; right; left].
    + destruct (side_cases i j) as [-> | ->]; [by rewrite set_at_eq in Hx; apply elem_of_nil in Hx|].
      rewrite set_at_ne in Hx by (by destruct i). eexists. right. left. exact Hx.
    + eexists. right. right. exact Hx.
  - apply Forall_app. split; [done|apply Hc].
  - intros j. destruct (side_cases i j) as [-> | ->]; [rewrite set_at_eq|rewrite set_at_ne by (by destruct i)]; done.
  - intros j Hj. destruct (H5 _ Hj) as [?|Hw]; [by left|right]. by destruct (Hin _ Hw).
  - intros j. destruct (side_cases i j) as [-> | ->]; [rewrite set_at_eq; left; constructor|rewrite set_at_ne by (by destruct i)].
    destruct (H6 (negb i)) as [?|Hw]; [by left|right]. destruct (Hin _ Hw) as [[= Hx]|?]; [by destruct i|done].
  - apply (closed_mono s); [done| |done]. intros x (j & [Hx|[Hx|Hx]]); cbn [do_wake ready readers writers] in Hx.
    + apply elem_of_app in Hx as [Hx|Hx]; [by exists i; left|by exists i; right; right].
    + eexists. right. left. exact Hx.
    + destruct (side_cases i j) as [-> | ->]; [by rewrite set_at_eq in Hx; apply elem_of_nil in Hx|].
      rewrite set_at_ne in Hx by (by destruct i). eexists. right. right. exact Hx.
Qed.

Lemma timeout_ok s i l1 c l2 :
  system_ok s → readers s i = l1 ++ c :: l2 →
  system_ok (System (sys_pipe s) (set_at (readers s) i (l1 ++ l2)) (writers s) (ready s) (pending s)).
Proof.
  intros [H1 H2 H3 H4 H5 H6 H7] Hi. split; cbn [sys_pipe readers writers ready pending]; try done.
  - intros j. destruct (side_cases i j) as [-> | ->]; [rewrite set_at_eq|rewrite set_at_ne by (by destruct i); done].
    pose proof (H3 i) as H. rewrite Hi in H. apply Forall_app in H as [? H]. apply Forall_cons in H as [_ H]. by apply Forall_app.
  - intros j Hj. apply H5. destruct (side_cases i j) as [-> | ->]; [rewrite Hi; by destruct l1|].
    by rewrite set_at_ne in Hj by (by destruct i).
  - apply (closed_mono s); [done| |done]. intros x (j & [Hx|[Hx|Hx]]); cbn [ready readers writers] in Hx;
      [by exists j; left| |by exists j; right; right]. exists j. right. left.
    destruct (side_cases i j) as [-> | ->]; [|by rewrite set_at_ne in Hx by (by destruct i)].
    rewrite set_at_eq in Hx. rewrite Hi. revert Hx. rewrite !elem_of_app, elem_of_cons. naive_solver.
Qed.

Lemma release_open p side i : open (end_release p side) i = if Bool.eqb i side then false else open p i.
Proof. unfold end_release. by destruct (open (set_open p side false) (negb side)). Qed.

Lemma release_dir p side i :
  dir (end_release p side) i = if open p (negb side) then dir p i else Direction [] 0.
Proof.
  unfold end_release. cbn [set_open open]. rewrite (proj2 (eqb_false_iff (negb side) side)) by (by destruct side).
  by destruct (open p (negb side)).
Qed.

Lemma direction_new : direction_ok (Direction [] 0).
Proof. split; [done|done|left; done]. Qed.

Lemma close_ok s side :
  system_ok s → idle s side →
  system_ok (with_pipe s (end_release (sys_pipe s) side) [WakeReaders (negb side); WakeWriters side]).
Proof.
  intros [H1 H2 H3 H4 H5 H6 H7] Hidle.
  split; cbn [with_pipe sys_pipe readers writers ready pending]; try done.
  - intros i. rewrite release_dir. destruct (open _ _); [apply H1|apply direction_new].
  - intros i Hi. right. apply elem_of_app. right. destruct (side_cases side i) as [-> | ->]; [|by left].
    exfalso. destruct (readers s side) as [|x l] eqn:Er; [done|]. pose proof (H3 side) as H. rewrite Er in H.
    apply Forall_cons in H as [[_ Hx] _]. apply (Hidle x); [exists side; right; left; rewrite Er; by left|by destruct x].
  - intros i. destruct (side_cases side i) as [-> | ->]; [right; apply elem_of_app; right; right; by left|left].
    destruct (writers s (negb side)) as [|x l] eqn:Ew; [done|]. exfalso. pose proof (H4 (negb side)) as H. rewrite Ew in H.
    apply Forall_cons in H as [[_ Hx] _]. apply (Hidle x); [exists (negb side); right; right; rewrite Ew; by left|].
    destruct x; [done|]. by rewrite negb_involutive in Hx.
  - intros i c Hi Hc. cbn [with_pipe sys_pipe] in Hi. rewrite release_open in Hi.
    destruct (Bool.eqb_spec i side) as [->|_]; [by apply Hidle|by apply (H7 i)].
Qed.

Lemma step_ok s e s' : system_ok s → step s e s' → system_ok s'.
Proof.
  intros Hs. destruct 1 as [s c Hc Ho|s l1 c l2 s' e Hr E|s l1 w l2 Hp|s i l1 side len l2 Hi|s side Ho Hidle].
  - destruct Hs as [H1 H2 H3 H4 H5 H6 H7]. split; cbn [sys_pipe readers writers ready pending]; try done.
    + apply Forall_app. split; [done|by constructor].
    + intros i x Hi (j & [Hx|Hx]); [|by apply (H7 i x Hi); exists j; right]. cbn [ready sys_pipe] in *.
      apply elem_of_app in Hx as [Hx|Hx%list_elem_of_singleton]; [apply (H7 i x Hi); exists j; by left|subst x; congruence].
  - by eapply run_ok.
  - by apply wake_ok.
  - by eapply timeout_ok.
  - by apply close_ok.
Qed.

Lemma reachable_ok s tr : reachable s tr → system_ok s.
Proof.
  induction 1 as [|s e s' tr _ IH Hst]; [|by eapply step_ok].
  split; cbn; try done; intros i; [apply direction_new|by left].
Qed.

(** ** The data *)

(** Everything accepted was read or is queued, until the last end is closed;
    then what nobody read is lost. *)
Definition conserved (s : system) (tr : list event) : Prop := ∀ i,
  ∃ lost, accepted i tr = delivered i tr ++ queued (dir (sys_pipe s) i) ++ lost ∧
    ((∃ j, open (sys_pipe s) j = true) → lost = []).

Lemma run_conserved s l1 l2 c s' e tr :
  system_ok s → ready s = l1 ++ c :: l2 → run_call (taken s l1 l2) c = (s', e) →
  conserved s tr → conserved s' (match e with Some e => e :: tr | None => tr end).
Proof.
  intros Hs Hr E Hc.
  assert (open (sys_pipe s) (side_of c) = true) as Hopen.
  { destruct (open (sys_pipe s) (side_of c)) eqn:Eo; [done|]. exfalso. apply (ok_closed _ Hs _ c Eo); [|done].
    exists true. left. rewrite Hr. apply elem_of_app. right. by left. }
  assert (call_ok c) as Hok.
  { pose proof (ok_ready _ Hs) as H. rewrite Hr in H. apply Forall_app in H as [_ H]. by apply Forall_cons in H as [? _]. }
  intros i. destruct (Hc i) as (lost & Ha & Hlost). rewrite Hlost, app_nil_r in Ha by eauto.
  destruct c as [side len timed|side m]; cbn [run_call taken sys_pipe side_of] in *.
  - destruct (pipe_recv (sys_pipe s) side len) as [|[[[r out] p] wake]] eqn:Er; injection E as <- <-;
      cbn [accepted delivered with_pipe sys_pipe]; exists []; rewrite app_nil_r; split; try done.
    destruct (pipe_recv_effect _ _ _ _ _ _ _ (ok_dirs _ Hs side) Hok Er) as [_ Ho _ Hq _ _ _].
    destruct (side_cases side i) as [-> | ->].
    + by rewrite eqb_reflx, <- app_assoc, <- Hq.
    + rewrite (proj2 (eqb_false_iff side (negb side))) by (by destruct side). by rewrite app_nil_r, Ho.
  - destruct (pipe_send (sys_pipe s) side m) as [|[[r p] wake]] eqn:Er; injection E as <- <-;
      cbn [accepted delivered with_pipe sys_pipe]; exists []; rewrite app_nil_r; split; try done.
    destruct (pipe_send_effect _ _ _ _ _ _ (ok_dirs _ Hs (negb side)) Hok Er) as [|p Ho _ Hother _ Hq _].
    + rewrite andb_false_r, app_nil_r. done.
    + rewrite (proj2 (Z.leb_le 0 _)) by (unfold mlen; lia). rewrite andb_true_r.
      destruct (side_cases side i) as [-> | ->].
      * rewrite (proj2 (eqb_false_iff (negb side) side)) by (by destruct side). by rewrite app_nil_r, Hother.
      * by rewrite eqb_reflx, Hq, Ha, app_assoc.
Qed.

Lemma reachable_conserved s tr : reachable s tr → conserved s tr.
Proof.
  induction 1 as [|s e s' tr Hreach IH Hst]; [intros i; by exists []|].
  apply reachable_ok in Hreach. destruct Hst as [s c _ _|s l1 c l2 s' e Hr E|s l1 w l2 Hp|s i l1 side len l2 Hi|s side Ho Hidle].
  - done.
  - by eapply run_conserved.
  - by destruct w.
  - intros j. cbn [accepted delivered sys_pipe]. case_match; rewrite app_nil_r; apply IH.
  - intros i. destruct (IH i) as (lost & Ha & Hlost). rewrite Hlost, app_nil_r in Ha by eauto.
    cbn [with_pipe sys_pipe]. rewrite release_dir. destruct (open (sys_pipe s) (negb side)) eqn:Eo.
    + exists []. by rewrite app_nil_r.
    + exists (queued (dir (sys_pipe s) i)). split; [by rewrite Ha|]. intros (j & Hj). rewrite release_open in Hj.
      destruct (side_cases side j) as [-> | ->]; [by rewrite eqb_reflx in Hj|].
      rewrite (proj2 (eqb_false_iff (negb side) side)), Eo in Hj by (by destruct side). done.
Qed.

(** ** The properties *)

(** C31: No wake-up is lost, in any interleaving of reads, writes, timeouts and
    closes. A reader stays asleep only while its queue is empty and the other
    end is open, and a writer only while the reader's end is open and the
    queue is not empty and has no room for its message, unless the wake-up is
    already on its way. The byte count is the sum of the queued messages and
    stays within one message over which it never wraps. *)
Theorem pipe_no_lost_wakeup s tr :
  reachable s tr →
  (∀ i, readers s i ≠ [] → WakeReaders i ∉ pending s →
     messages (dir (sys_pipe s) i) = [] ∧ open (sys_pipe s) (negb i) = true) ∧
  (∀ i side m, Send side m ∈ writers s i → WakeWriters i ∉ pending s →
     open (sys_pipe s) i = true ∧ messages (dir (sys_pipe s) i) ≠ [] ∧ bytes (dir (sys_pipe s) i) + mlen m > PIPE_CAPACITY) ∧
  (∀ i, bytes (dir (sys_pipe s) i) = total (messages (dir (sys_pipe s) i)) ∧ bytes (dir (sys_pipe s) i) ≤ MESSAGE_MAX).
Proof.
  intros Hs%reachable_ok. split; [|split].
  - intros i Hi Hp. by destruct (ok_asleep_r _ Hs i Hi).
  - intros i side m Hm Hp. destruct (ok_asleep_w _ Hs i) as [H|?]; [|done].
    rewrite Forall_forall in H. destruct (H _ Hm) as (H1 & H2 & H3). split; [done|]. split; [|done].
    intros E. apply H2. by rewrite (dir_bytes _ (ok_dirs _ Hs i)), E.
  - intros i. split; [apply (ok_dirs _ Hs i)|apply bytes_bound, (ok_dirs _ Hs i)].
Qed.

(** C32: What the readers of a direction got is, byte for byte and in order, the
    beginning of what was accepted from its writers; as long as an end is
    open, the rest is in the queue. *)
Theorem pipe_conserves_data s tr i :
  reachable s tr →
  delivered i tr `prefix_of` accepted i tr ∧
  ((∃ j, open (sys_pipe s) j = true) → accepted i tr = delivered i tr ++ queued (dir (sys_pipe s) i)).
Proof.
  intros Hr. destruct (reachable_conserved _ _ Hr i) as (lost & Ha & Hl). split; [by eexists|].
  intros Ho. by rewrite Ha, Hl, app_nil_r by done.
Qed.

(** A call made while no other is ready to run. *)
Definition issue (st : system * list event) (c : call) : system * list event :=
  let '(s, e) := run_call (taken st.1 [] []) c in (s, match e with Some e => e :: st.2 | None => st.2 end).

Lemma issue_reachable st c :
  reachable st.1 st.2 → ready st.1 = [] → call_ok c → open (sys_pipe st.1) (side_of c) = true →
  reachable (issue st c).1 (issue st c).2.
Proof.
  destruct st as [s tr]. cbn [fst snd]. intros Hr Hn Hc Ho. unfold issue. cbn [fst snd].
  destruct (run_call (taken s [] []) c) as [s' e] eqn:E. cbn [fst snd].
  eapply (reach_step _ e); [eapply (reach_step _ None); [exact Hr|by apply (step_start s c)]|].
  apply (step_run _ [] c []); [cbn [ready]; by rewrite Hn|exact E].
Qed.

(** A reader went to sleep, a message arrived, and its writer is about to wake
    the reader; another reader took the first two bytes. *)
Definition race : system * list event :=
  foldl issue (System pipe_create (λ _, []) (λ _, []) [] [], [])
    [Recv true 10 false; Send false (Message [1; 2; 3] 0); Recv true 2 false].

Lemma race_reachable : reachable race.1 race.2.
Proof. repeat (apply issue_reachable; [|done|done|done]). apply reach_new. Qed.

Lemma pipe_no_lost_wakeup_witness :
  reachable race.1 race.2 ∧ bytes (dir (sys_pipe race.1) true) ≤ MESSAGE_MAX.
Proof. split; [apply race_reachable|]. apply (pipe_no_lost_wakeup race.1 race.2 race_reachable). Defined.

Lemma pipe_conserves_data_witness :
  reachable race.1 race.2 ∧ accepted true race.2 = delivered true race.2 ++ [3].
Proof.
  split; [apply race_reachable|].
  apply (pipe_conserves_data race.1 race.2 true race_reachable). by exists true.
Defined.
