(* ===== verification/Fat.v ===== *)
(** * The FAT file system ([zkt/fs/fat.c]): the code

    Everything runs under the lock of the volume, so an operation is a
    function of its state: the device, the sector cache and the allocation
    hint ([fat_fs]), and the node it is called on ([fat_node]). Bytes are [Z],
    a sector is a list of 512 of them, a C string is the list of its bytes
    before the terminator. Memory for a node comes from [kmalloc], whose
    success is an argument ([room]). The text [fat_mount] prints about the
    volume is left out.

    [FatTable] proves what the allocation table does, [FatData] what reading
    and writing do, [FatRun] that the operations on files end, [FatDir] what the
    searches of directories and the names do, [FatOps] what creating, removing
    and renaming do. *)
From S2P Require Import Prelude StateM Abi.
Local Open Scope Z_scope.

(** ** Block devices ([zkt/drivers/device.c]) *)

Inductive device_class := DEVICE_CHAR | DEVICE_BLOCK.

(** [works] says which of the transfers to come succeed. *)
Record device := Device {
  dev_class : device_class; block_size : Z; block_count : Z;
  can_read : bool; can_write : bool;
  blocks : Z → list Z; works : nat → bool
}.

Definition next_transfer (d : device) (b : Z → list Z) : device :=
  Device (dev_class d) (block_size d) (block_count d) (can_read d) (can_write d) b (λ n, works d (S n)).

Definition is_block (d : device) : bool := match dev_class d with DEVICE_BLOCK => true | _ => false end.

Definition device_read_blocks (lba count : Z) : st device (list Z) := λ d,
  if negb (is_block d) || negb (can_read d) then (Err (- ENODEV), d)
  else if (lba >? block_count d) || (count >? block_count d - lba) then (Err (- ENXIO), d)
  else if count =? 0 then (Good [], d)
  else (if works d 0 then Good (concat (blocks d <$> seqZ lba count)) else Err (- EIO), next_transfer d (blocks d)).

Definition device_write_blocks (lba count : Z) (buf : list Z) : st device unit := λ d,
  if negb (is_block d) || negb (can_write d) then (Err (- ENODEV), d)
  else if (lba >? block_count d) || (count >? block_count d - lba) then (Err (- ENXIO), d)
  else if count =? 0 then (Good tt, d)
  else if works d 0 then
    (Good tt, next_transfer d (λ i,
       if (lba <=? i) && (i <? lba + count)
       then take (Z.to_nat (block_size d)) (drop (Z.to_nat ((i - lba) * block_size d)) buf) else blocks d i))
  else (Err (- EIO), next_transfer d (blocks d)).

(** ** The volume *)

Definition SECTOR : Z := 512.
Abbreviation DIRENT_SIZE := 32%Z (only parsing).
Abbreviation ATTR_VOLUME_ID := 0x08%Z (only parsing).
Abbreviation ATTR_DIRECTORY := 0x10%Z (only parsing).
Abbreviation ATTR_LONG_NAME := 0x0F%Z (only parsing).
Abbreviation ATTR_ARCHIVE := 0x20%Z (only parsing).
Abbreviation ENTRY_END := 0x00%Z (only parsing).
Abbreviation ENTRY_DELETED := 0xE5%Z (only parsing).
Abbreviation ENTRY_KANJI_E5 := 0x05%Z (only parsing).
Abbreviation FAT_DATE_EPOCH := 0x0021%Z (only parsing).

(** The fields of [struct fat_fs] that [fat_mount] sets once, *)
Record geometry := Geometry {
  fat12 : bool; read_only : bool; fats : Z; sectors_per_cluster : Z; bytes_per_cluster : Z;
  fat_start : Z; fat_size : Z; root_start : Z; root_bytes : Z; data_start : Z; cluster_count : Z
}.

(** and the others. *)
Record fat_fs := Fs {
  geo : geometry; dev : device; hint : Z; cached_sector : Z; cache_valid : bool; cache : list Z
}.

Definition set_dev (fs : fat_fs) (d : device) : fat_fs :=
  Fs (geo fs) d (hint fs) (cached_sector fs) (cache_valid fs) (cache fs).
Definition set_hint (fs : fat_fs) (h : Z) : fat_fs :=
  Fs (geo fs) (dev fs) h (cached_sector fs) (cache_valid fs) (cache fs).
Definition set_cache (fs : fat_fs) (sector : Z) (valid : bool) (data : list Z) : fat_fs :=
  Fs (geo fs) (dev fs) (hint fs) sector valid data.

Record fat_node := Node {
  ntype : vnode_type; nsize : Z; fixed_root : bool; first_cluster : Z; cursor_index : Z; cursor_cluster : Z;
  has_entry : bool; entry_dir_fixed : bool; entry_dir_cluster : Z; entry_off : Z
}.

Definition set_cursor (n : fat_node) (i c : Z) : fat_node :=
  Node (ntype n) (nsize n) (fixed_root n) (first_cluster n) i c (has_entry n) (entry_dir_fixed n) (entry_dir_cluster n)
    (entry_off n).
Definition set_first (n : fat_node) (c : Z) : fat_node :=
  Node (ntype n) (nsize n) (fixed_root n) c (cursor_index n) (cursor_cluster n) (has_entry n) (entry_dir_fixed n)
    (entry_dir_cluster n) (entry_off n).
Definition set_size (n : fat_node) (s : Z) : fat_node :=
  Node (ntype n) s (fixed_root n) (first_cluster n) (cursor_index n) (cursor_cluster n) (has_entry n) (entry_dir_fixed n)
    (entry_dir_cluster n) (entry_off n).

(** Computations on the volume, and on a node of it. *)
Abbreviation io := (st fat_fs).
Abbreviation nio := (st (fat_fs * fat_node)).

Definition on_dev {A} (m : st device A) : io A := λ fs, let '(r, d) := m (dev fs) in (r, set_dev fs d).
Definition lift {A} (m : io A) : nio A := λ '(fs, n), let '(r, fs) := m fs in (r, (fs, n)).
Definition node : nio fat_node := λ '(fs, n), (Good n, (fs, n)).
Definition geom : io geometry := λ fs, (Good (geo fs), fs).
Definition set_node (f : fat_node → fat_node) : nio unit := λ '(fs, n), (Good tt, (fs, f n)).

(** Runs on another node, one on the stack. *)
Definition within {A} (n' : fat_node) (m : nio A) : nio A := λ '(fs, n),
  let '(r, (fs, _)) := m (fs, n') in (r, (fs, n)).

(** *** Bytes *)

Definition le16 (p : list Z) (o : Z) : Z := Z.lor (aget 0 p o) (Z.shiftl (aget 0 p (o + 1)) 8).
Definition le32 (p : list Z) (o : Z) : Z :=
  Z.lor (Z.lor (Z.lor (aget 0 p o) (Z.shiftl (aget 0 p (o + 1)) 8)) (Z.shiftl (aget 0 p (o + 2)) 16))
    (Z.shiftl (aget 0 p (o + 3)) 24).
Definition put_le16 (p : list Z) (o v : Z) : list Z :=
  aset (aset p o (u8 v)) (o + 1) (u8 (Z.shiftr v 8)).
Definition put_le32 (p : list Z) (o v : Z) : list Z :=
  aset (aset (aset (aset p o (u8 v)) (o + 1) (u8 (Z.shiftr v 8))) (o + 2) (u8 (Z.shiftr v 16))) (o + 3)
    (u8 (Z.shiftr v 24)).

(** *** Sectors *)

(** The null pointer is the error every caller makes of it. *)
Definition read_sector (sector : Z) : io (list Z) :=
  fs ← get;
  if negb (cache_valid fs) || negb (cached_sector fs =? sector) then
    modify (λ fs, set_cache fs (cached_sector fs) false (cache fs)) ;;
    r ← try (on_dev (device_read_blocks sector 1));
    match r with
    | inl _ => fail (- EIO)
    | inr data => modify (λ fs, set_cache fs sector true data) ;; mret data
    end
  else mret (cache fs).

(** [data] is never the cache itself. *)
Definition write_sector (sector : Z) (data : list Z) : io unit :=
  fs ← get;
  if read_only (geo fs) then fail (- EROFS)
  else
    r ← try (on_dev (device_write_blocks sector 1 data));
    match r with
    | inl _ => fail (- EIO)
    | inr _ => modify (λ fs, if cache_valid fs && (cached_sector fs =? sector) then set_cache fs sector true data else fs)
    end.

(** *** The allocation table *)

Definition fat_patch_byte (offset mask set : Z) : io unit :=
  g ← geom;
  each (seqZ 0 (fats g)) (λ copy,
    let sector := u32 (fat_start g + copy * fat_size g + offset / SECTOR) in
    let within := offset mod SECTOR in
    s ← read_sector sector;
    write_sector sector (aset s within (u8 (Z.lor (Z.land (aget 0 s within) mask) set)))).

Definition fat_byte (offset : Z) : io Z :=
  g ← geom;
  s ← read_sector (u32 (fat_start g + offset / SECTOR));
  mret (aget 0 s (offset mod SECTOR)).

Definition entry_offset (g : geometry) (cluster : Z) : Z :=
  u32 (if fat12 g then cluster + cluster / 2 else cluster * 2).

Definition fat_entry (cluster : Z) : io Z :=
  g ← geom;
  let offset := entry_offset g cluster in
  lo ← try (fat_byte offset);
  hi ← try (fat_byte (u32 (offset + 1)));
  match lo, hi with
  | inr lo, inr hi =>
      let v := Z.lor lo (Z.shiftl hi 8) in
      mret (if fat12 g then (if truth (Z.land cluster 1) then Z.shiftr v 4 else Z.land v 0xFFF) else v)
  | _, _ => fail (- EIO)
  end.

Definition fat_set_entry (cluster value : Z) : io unit :=
  g ← geom;
  let offset := entry_offset g cluster in
  if negb (fat12 g) then
    fat_patch_byte offset 0x00 (u8 value) ;; fat_patch_byte (u32 (offset + 1)) 0x00 (u8 (Z.shiftr value 8))
  else if truth (Z.land cluster 1) then
    fat_patch_byte offset 0x0F (u8 (Z.shiftl (Z.land value 0x0F) 4)) ;;
    fat_patch_byte (u32 (offset + 1)) 0x00 (u8 (Z.shiftr value 4))
  else
    fat_patch_byte offset 0xFF (u8 (Z.land value 0xFF)) ;;
    fat_patch_byte (u32 (offset + 1)) 0xF0 (u8 (Z.land (Z.shiftr value 8) 0x0F)).

Definition is_end_of_chain (g : geometry) (v : Z) : bool := v >=? (if fat12 g then 0xFF8 else 0xFFF8).
Definition valid_cluster (g : geometry) (c : Z) : bool := (c >=? 2) && (c <? u32 (cluster_count g + 2)).
Definition end_marker (g : geometry) : Z := if fat12 g then 0xFFF else 0xFFFF.

(** The rounds of [alloc_cluster], from the [i]th. *)
Fixpoint alloc_loop (rounds : nat) (start i : Z) : io Z :=
  match rounds with
  | O => fail (- ENOSPC)
  | S rounds =>
      g ← geom;
      let c := 2 + u32 (u32 (start - 2) + i) mod cluster_count g in
      r ← try (fat_entry c);
      match r with
      | inl _ => fail (- EIO)
      | inr v =>
          if v =? 0 then
            fat_set_entry c (end_marker g) ;;
            modify (λ fs, set_hint fs (if u32 (c + 1) <? u32 (cluster_count g + 2) then u32 (c + 1) else 2)) ;;
            mret c
          else alloc_loop rounds start (i + 1)
      end
  end.

Definition alloc_cluster : io Z :=
  fs ← get;
  alloc_loop (Z.to_nat (cluster_count (geo fs))) (if hint fs >=? 2 then hint fs else 2) 0.

Fixpoint free_loop (fuel : nat) (c steps : Z) : io unit :=
  match fuel with
  | O => hang
  | S fuel =>
      g ← geom;
      if negb (valid_cluster g c) then mret tt
      else if steps >? cluster_count g then fail (- EIO)
      else
        r ← try (fat_entry c);
        match r with
        | inl _ => fail (- EIO)
        | inr next =>
            fat_set_entry c 0 ;;
            if is_end_of_chain g next then mret tt
            else if negb (valid_cluster g next) then fail (- EIO)
            else free_loop fuel next (steps + 1)
        end
  end.

Definition free_chain (first : Z) : io unit :=
  g ← geom;
  modify (λ fs, set_hint fs (if valid_cluster g first then first else hint fs)) ;;
  free_loop (S (S (Z.to_nat (cluster_count g)))) first 0.

(** The rounds of [cluster_at], from position [i]: the cluster, or 0 past
    the end of the chain. *)
Fixpoint follow (rounds : nat) (i index c : Z) : io Z :=
  match rounds with
  | O => mret c
  | S rounds =>
      g ← geom;
      if index - i >? cluster_count g then fail (- EIO)
      else
        r ← try (fat_entry c);
        match r with
        | inl _ => fail (- EIO)
        | inr next =>
            if is_end_of_chain g next then mret 0
            else if negb (valid_cluster g next) then fail (- EIO)
            else follow rounds (i + 1) index next
        end
  end.

Definition cluster_at (index : Z) : nio Z :=
  g ← lift geom;
  n ← node;
  let '(i, c) := if truth (cursor_cluster n) && (cursor_index n <=? index) then (cursor_index n, cursor_cluster n)
    else (0, first_cluster n) in
  if negb (valid_cluster g c) then (if c =? 0 then mret 0 else fail (- EIO))
  else
    c ← lift (follow (Z.to_nat (index - i)) i index c);
    if c =? 0 then mret 0 else set_node (λ n, set_cursor n index c) ;; mret c.

Definition cluster_sector (g : geometry) (c : Z) : Z := u32 (data_start g + (c - 2) * sectors_per_cluster g).

(** A new directory cluster holds no stale entries. *)
Definition clear_cluster (c : Z) : io unit :=
  g ← geom;
  each (seqZ 0 (sectors_per_cluster g)) (λ s,
    r ← try (write_sector (u32 (cluster_sector g c + s)) (replicate 512 0));
    match r with
    | inl rc => try (fat_set_entry c 0) ;; fail rc
    | inr _ => mret tt
    end).

Definition is_dir (t : vnode_type) : bool := match t with VNODE_DIR => true | _ => false end.

(** [sync_entry] calls [node_write] on the directory, which has no entry of
    its own to keep: there [sync_entry] is what returns at once. So the
    writing functions are given the [sync_entry] they call. *)
Section write.
Context (sync : nio unit).

(** The part of a round of [cluster_for_write] that finds no cluster. *)
Definition take_cluster (prev : Z) : nio Z :=
  c ← lift alloc_cluster;
  n ← node;
  (if is_dir (ntype n) then lift (clear_cluster c) else mret tt) ;;
  (if truth prev then lift (fat_set_entry prev c)
   else set_node (λ n, set_cursor (set_first n c) 0 0) ;; sync) ;;
  mret c.

Fixpoint write_loop (rounds : nat) (i index c prev : Z) : nio Z :=
  match rounds with
  | O => fail (- EIO)
  | S rounds =>
      g ← lift geom;
      c ← (if c =? 0 then take_cluster prev else if negb (valid_cluster g c) then fail (- EIO) else mret c);
      if i =? index then mret c
      else
        next ← lift (fat_entry c);
        if is_end_of_chain g next then write_loop rounds (i + 1) index 0 c
        else if negb (valid_cluster g next) then fail (- EIO)
        else write_loop rounds (i + 1) index next c
  end.

Definition cluster_for_write (index : Z) : nio Z :=
  g ← lift geom;
  n ← node;
  write_loop (S (Z.to_nat (cluster_count g))) 0 index (first_cluster n) 0.

(** The sector a byte of a node is in, once its cluster is known. *)
Definition sector_in (g : geometry) (c offset : Z) : Z :=
  u32 (cluster_sector g c + (offset mod bytes_per_cluster g) / SECTOR).

Definition chunk_of (offset left : Z) : Z :=
  if SECTOR - offset mod SECTOR <? left then SECTOR - offset mod SECTOR else left.

(** What a call that fails half way returns. *)
Definition or_done (done e : Z) : nio Z := if truth done then mret done else fail e.

Fixpoint node_write_loop (fuel : nat) (offset : Z) (buf : list Z) (done : Z) : nio Z :=
  match buf with
  | [] => mret done
  | _ =>
      match fuel with
      | O => hang
      | S fuel =>
          g ← lift geom;
          n ← node;
          sec ← (if fixed_root n then mret (inr (u32 (root_start g + offset / SECTOR)))
                 else r ← try (cluster_for_write (offset / bytes_per_cluster g));
                      mret (match r with inl rc => inl rc | inr c => inr (sector_in g c offset) end));
          match sec with
          | inl rc => or_done done rc
          | inr sector =>
              r ← try (lift (read_sector sector));
              match r with
              | inl _ => or_done done (- EIO)
              | inr s =>
                  let chunk := chunk_of offset (Z.of_nat (length buf)) in
                  let block := splice s (Z.to_nat (offset mod SECTOR)) (take (Z.to_nat chunk) buf) in
                  r ← try (lift (write_sector sector block));
                  match r with
                  | inl rc => or_done done rc
                  | inr _ => node_write_loop fuel (u32 (offset + chunk)) (drop (Z.to_nat chunk) buf) (done + chunk)
                  end
              end
          end
      end
  end.

Definition node_write_with (offset : Z) (buf : list Z) : nio Z :=
  g ← lift geom;
  n ← node;
  if fixed_root n && (offset >=? root_bytes g) then fail (- ENOSPC)
  else
    let buf := if fixed_root n && (Z.of_nat (length buf) >? root_bytes g - offset)
      then take (Z.to_nat (root_bytes g - offset)) buf else buf in
    node_write_loop (length buf) offset buf 0.
End write.

(** The bytes read, fewer than asked for at the end of the chain. *)
Fixpoint node_read_loop (fuel : nat) (offset len : Z) (done : list Z) : nio (list Z) :=
  if negb (Z.of_nat (length done) <? len) then mret done
  else
    match fuel with
    | O => hang
    | S fuel =>
        g ← lift geom;
        n ← node;
        sec ← (if fixed_root n then
                 mret (inr (if offset >=? root_bytes g then None else Some (u32 (root_start g + offset / SECTOR))))
               else r ← try (cluster_at (offset / bytes_per_cluster g));
                    mret (match r with
                          | inl rc => inl rc
                          | inr c => inr (if c =? 0 then None else Some (sector_in g c offset))
                          end));
        match sec with
        | inl _ => if truth (Z.of_nat (length done)) then mret done else fail (- EIO)
        | inr None => mret done
        | inr (Some sector) =>
            r ← try (lift (read_sector sector));
            match r with
            | inl _ => if truth (Z.of_nat (length done)) then mret done else fail (- EIO)
            | inr s =>
                let chunk := chunk_of offset (len - Z.of_nat (length done)) in
                let part := take (Z.to_nat chunk) (drop (Z.to_nat (offset mod SECTOR)) s) in
                node_read_loop fuel (u32 (offset + chunk)) len (done ++ part)
            end
        end
    end.

Definition node_read (offset len : Z) : nio (list Z) := node_read_loop (Z.to_nat len) offset len [].

(** *** Directory entries *)

(** A directory on the stack. *)
Definition dir_at (fixed : bool) (first : Z) : fat_node := Node VNODE_DIR 0 fixed first 0 0 false false 0 0.

(** A whole entry, or the error. *)
Definition read_entry (off : Z) : nio (list Z) :=
  r ← try (node_read off DIRENT_SIZE);
  match r with
  | inr e => if Z.of_nat (length e) =? DIRENT_SIZE then mret e else fail (- EIO)
  | inl _ => fail (- EIO)
  end.

(** [node_write] of all the bytes, or the error [e]. *)
Definition write_all (write : Z → list Z → nio Z) (off : Z) (buf : list Z) (e : Z) : nio unit :=
  r ← try (write off buf);
  match r with
  | inr n => if n =? Z.of_nat (length buf) then mret tt else fail e
  | inl _ => fail e
  end.

(** The [sync_entry] of a directory on the stack. *)
Definition no_entry : nio unit := mret tt.

Definition sync_entry : nio unit :=
  n ← node;
  if negb (has_entry n) then mret tt
  else within (dir_at (entry_dir_fixed n) (entry_dir_cluster n)) (
    e ← read_entry (entry_off n);
    if aget 0 e 0 =? ENTRY_DELETED then fail (- ENOENT)
    else
      let e := put_le16 e 26 (first_cluster n) in
      let e := put_le32 e 28 (if is_dir (ntype n) then 0 else nsize n) in
      write_all (node_write_with no_entry) (entry_off n) e (- EIO)).

Definition node_write : Z → list Z → nio Z := node_write_with sync_entry.

Definition refresh_entry : nio unit :=
  n ← node;
  if negb (has_entry n) then mret tt
  else
    e ← within (dir_at (entry_dir_fixed n) (entry_dir_cluster n)) (
      e ← read_entry (entry_off n);
      if aget 0 e 0 =? ENTRY_DELETED then fail (- ENOENT) else mret e);
    set_node (λ n, set_cursor (set_size (set_first n (le16 e 26)) (le32 e 28)) 0 0).

(** *** Names *)

(** The bytes of a buffer up to the terminator. *)
Fixpoint c_string (l : list Z) : list Z :=
  match l with [] => [] | c :: l => if c =? 0 then [] else c :: c_string l end.

Definition lower_char (c : Z) : Z := if (c >=? 65) && (c <=? 90) then c + 32 else c.
Definition upper_char (c : Z) : Z := if (c >=? 97) && (c <=? 122) then c - 32 else c.

Fixpoint until_space (l : list Z) : list Z :=
  match l with [] => [] | c :: l => if c =? 32 then [] else c :: until_space l end.

Definition short_name (e : list Z) : list Z :=
  let base := until_space (take 8 e) in
  let base := match base with c :: l => (if c =? ENTRY_KANJI_E5 then 0xE5 else c) :: l | [] => [] end in
  let ext := if aget 0 e 8 =? 32 then [] else 46 :: (lower_char <$> until_space (take 3 (drop 8 e))) in
  c_string ((lower_char <$> base) ++ ext).

Fixpoint names_equal_nocase (a b : list Z) : bool :=
  match a, b with
  | x :: a, y :: b => if lower_char x =? lower_char y then names_equal_nocase a b else false
  | [], [] => true
  | _, _ => false
  end.

Definition name11_equal (a b : list Z) : bool :=
  forallb (λ i, upper_char (aget 0 a i) =? upper_char (aget 0 b i)) (seqZ 0 11).

(** [for_each_entry] from an offset on. *)
Definition skipped (e : list Z) : bool :=
  (aget 0 e 0 =? ENTRY_DELETED) || (aget 0 e 11 =? ATTR_LONG_NAME) || truth (Z.land (aget 0 e 11) ATTR_VOLUME_ID)
  || (aget 0 e 0 =? 46).

Fixpoint for_each_loop {C} (fuel : nat) (off : Z) (fn : list Z → list Z → Z → C → bool * C) (ctx : C) : nio C :=
  match fuel with
  | O => hang
  | S fuel =>
      r ← try (node_read off DIRENT_SIZE);
      match r with
      | inl _ => fail (- EIO)
      | inr e =>
          if (Z.of_nat (length e) <? DIRENT_SIZE) || (aget 0 e 0 =? ENTRY_END) then mret ctx
          else if skipped e then for_each_loop fuel (u32 (off + DIRENT_SIZE)) fn ctx
          else
            let '(stop, ctx) := fn e (short_name e) off ctx in
            if stop : bool then mret ctx else for_each_loop fuel (u32 (off + DIRENT_SIZE)) fn ctx
      end
  end.

Definition for_each_entry {C} (fuel : nat) (fn : list Z → list Z → Z → C → bool * C) (ctx : C) : nio C :=
  for_each_loop fuel 0 fn ctx.

Definition new_node (dir : fat_node) (e : list Z) (off : Z) : fat_node :=
  let d := truth (Z.land (aget 0 e 11) ATTR_DIRECTORY) in
  Node (if d then VNODE_DIR else VNODE_FILE) (if d then 0 else le32 e 28) false (le16 e 26) 0 0 true
    (fixed_root dir) (first_cluster dir) off.

(** The characters allowed besides letters and digits. *)
Abbreviation ALLOWED := ([36; 37; 39; 45; 95; 64; 126; 33; 35; 38; 40; 41; 94; 96; 123; 125]%Z) (only parsing).

Definition name_char (c : Z) : Z :=
  let c := upper_char c in
  if ((c >=? 65) && (c <=? 90)) || ((c >=? 48) && (c <=? 57)) then c
  else if existsb (Z.eqb c) ALLOWED then c else 95.

Definition pad (n : nat) (l : list Z) : list Z := take n (l ++ replicate n 32).
Definition pack11 (base ext : list Z) : list Z := pad 8 base ++ pad 3 ext.

Record fat_name := FatName { base : list Z; ext : list Z }.

(** The index of the last dot. *)
Fixpoint last_dot (l : list Z) (i : Z) (found : option Z) : option Z :=
  match l with [] => found | c :: l => last_dot l (i + 1) (if c =? 46 then Some i else found) end.

Definition split_name (name : list Z) : Z + fat_name :=
  let dot := match last_dot name 0 None with Some d => if d >? 0 then Some d else None | None => None end in
  let base := match dot with Some d => take (Z.to_nat d) name | None => name end in
  let ext := match dot with Some d => take 3 (drop (Z.to_nat (d + 1)) name) | None => [] end in
  let f := FatName (name_char <$> base) (name_char <$> ext) in
  match name with [] => inl (- EINVAL) | _ => inr f end.

Definition alias11 (f : fat_name) (n : Z) : list Z :=
  let digits := if n <? 10 then 1 else if n <? 100 then 2 else 3 in
  let keep := 8 - 1 - digits in
  let keep := if keep <? 1 then 1 else keep in
  let keep := if keep >? Z.of_nat (length (base f)) then Z.of_nat (length (base f)) else keep in
  pack11 (take (Z.to_nat keep) (base f) ++ [126]
    ++ (if n >=? 100 then [48 + n / 100] else []) ++ (if n >=? 10 then [48 + n / 10 mod 10] else []) ++ [48 + n mod 10])
    (ext f).

Definition fits (f : fat_name) : bool := (Z.of_nat (length (base f)) <=? 8) && (Z.of_nat (length (ext f)) <=? 3).

Definition name11_of (name : list Z) : Z + list Z :=
  match split_name name with
  | inl rc => inl rc
  | inr f => inr (if fits f then pack11 (base f) (ext f) else alias11 f 1)
  end.

(** The context of a search: the name, its entry's 11 bytes, and what was found. *)
Record walk_ctx := Walk { want : list Z; alias : option (list Z); found : option (list Z * Z) }.

Definition want_ctx (name : list Z) : walk_ctx :=
  Walk name (match name11_of name with inr a => Some a | inl _ => None end) None.

Definition match_name (e name : list Z) (off : Z) (w : walk_ctx) : bool * walk_ctx :=
  if names_equal_nocase name (want w) || match alias w with Some a => name11_equal e a | None => false end
  then (true, Walk (want w) (alias w) (Some (e, off))) else (false, w).

Definition entry_find (fuel : nat) (name : list Z) : nio (list Z * Z) :=
  w ← for_each_entry fuel match_name (want_ctx name);
  match found w with Some r => mret r | None => fail (- ENOENT) end.

Definition fat_walk (fuel : nat) (room : bool) (name : list Z) : nio fat_node :=
  '(e, off) ← entry_find fuel name;
  d ← node;
  if room then mret (new_node d e off) else fail (- ENOMEM).

Definition match11 (want : list Z) (skip : option Z) (e name : list Z) (off : Z) (taken : bool) : bool * bool :=
  if match skip with Some s => off =? s | None => false end then (false, taken)
  else if name11_equal e want then (true, true) else (false, taken).

Definition name_taken (fuel : nat) (want : list Z) (skip : option Z) : nio bool :=
  for_each_entry fuel (match11 want skip) false.

(** The aliases from [n] on. *)
Fixpoint make_alias (rounds : nat) (fuel : nat) (f : fat_name) (n : Z) (skip : option Z) : nio (list Z) :=
  match rounds with
  | O => fail (- ENOSPC)
  | S rounds =>
      let out := alias11 f n in
      taken ← name_taken fuel out skip;
      if taken : bool then make_alias rounds fuel f (n + 1) skip else mret out
  end.

Definition make_entry_name (fuel : nat) (name : list Z) (skip : option Z) : nio (list Z) :=
  match split_name name with
  | inl rc => fail rc
  | inr f =>
      if fits f then
        let out := pack11 (base f) (ext f) in
        taken ← name_taken fuel out skip;
        if taken : bool then make_alias 999 fuel f 1 skip else mret out
      else make_alias 999 fuel f 1 skip
  end.

(** *** Slots *)

(** The offset of a free slot, and whether it held the end marker. *)
Fixpoint entry_slot_loop (fuel : nat) (at_ : Z) : nio (Z * bool) :=
  match fuel with
  | O => hang
  | S fuel =>
      n ← node;
      r ← try (node_read at_ DIRENT_SIZE);
      match r with
      | inl _ => fail (- EIO)
      | inr e =>
          if Z.of_nat (length e) <? DIRENT_SIZE then (if fixed_root n then fail (- ENOSPC) else mret (at_, true))
          else if aget 0 e 0 =? ENTRY_DELETED then mret (at_, false)
          else if aget 0 e 0 =? ENTRY_END then mret (at_, true)
          else entry_slot_loop fuel (u32 (at_ + DIRENT_SIZE))
      end
  end.

Definition entry_slot (fuel : nat) : nio (Z * bool) := entry_slot_loop fuel 0.

Definition entry_place (off : Z) (e : list Z) (at_end : bool) : nio unit :=
  write_all node_write off e (- ENOSPC) ;;
  if negb at_end then mret tt
  else
    r ← try (node_read (u32 (off + DIRENT_SIZE)) DIRENT_SIZE);
    match r with
    | inl _ => fail (- EIO)
    | inr next =>
        if Z.of_nat (length next) =? DIRENT_SIZE
        then write_all node_write (u32 (off + DIRENT_SIZE)) (replicate 32 0) (- ENOSPC)
        else mret tt
    end.

Fixpoint lfn_loop (rounds : nat) (at_ start : Z) : nio Z :=
  match rounds with
  | O => mret start
  | S rounds =>
      if negb (at_ >=? DIRENT_SIZE) then mret start
      else
        let at_ := at_ - DIRENT_SIZE in
        e ← read_entry at_;
        if negb (aget 0 e 11 =? ATTR_LONG_NAME) then mret start else lfn_loop rounds at_ at_
  end.

Definition lfn_start (off : Z) : nio Z := lfn_loop (Z.to_nat (off / DIRENT_SIZE)) off off.

Definition slots_delete (start off : Z) : nio unit :=
  each (seqZ 0 ((off - start) / DIRENT_SIZE + 1)) (λ i,
    let at_ := start + i * DIRENT_SIZE in
    e ← read_entry at_;
    write_all node_write at_ (aset e 0 ENTRY_DELETED) (- EIO)).

Definition entry_delete (off : Z) : nio unit :=
  start ← lfn_start off;
  slots_delete start off.

(** *** The operations *)

Definition new_directory (cluster : Z) : nio unit :=
  parent ← node;
  let dot (second : bool) (c : Z) :=
    let e := [46] ++ (if second then [46] else [32]) ++ replicate 9 32 ++ [ATTR_DIRECTORY] ++ replicate 20 0 in
    let e := put_le16 (put_le16 e 16 FAT_DATE_EPOCH) 24 FAT_DATE_EPOCH in
    put_le16 e 26 c in
  let block := dot false cluster ++ dot true (if fixed_root parent then 0 else first_cluster parent) ++ replicate 32 0 in
  within (dir_at false cluster) (write_all node_write 0 block (- EIO)).

Definition fat_read (offset len : Z) : nio (list Z) :=
  n ← node;
  if offset >=? nsize n then mret []
  else node_read offset (if len >? nsize n - offset then nsize n - offset else len).

(** A call whose failure is ignored. *)
Definition ignore {A} (m : nio A) : nio unit := try m ;; mret tt.

Definition fat_create (fuel : nat) (room : bool) (name : list Z) (type : vnode_type) : nio fat_node :=
  g ← lift geom;
  if read_only g then fail (- EROFS)
  else
    r ← try (entry_find fuel name);
    match r with
    | inr _ => fail (- EEXIST)
    | inl rc =>
        if negb (rc =? - ENOENT) then fail rc
        else
          name11 ← make_entry_name fuel name None;
          '(off, at_end) ← entry_slot fuel;
          let e := name11 ++ [if is_dir type then ATTR_DIRECTORY else ATTR_ARCHIVE] ++ replicate 20 0 in
          let e := put_le16 (put_le16 e 16 FAT_DATE_EPOCH) 24 FAT_DATE_EPOCH in
          '(first, e) ← (if is_dir type then
              first ← lift alloc_cluster;
              r ← try (new_directory first);
              match r with
              | inl rc => ignore (lift (free_chain first)) ;; fail rc
              | inr _ => mret (first, put_le16 e 26 first)
              end
            else mret (0, e));
          r ← try (entry_place off e at_end);
          match r with
          | inl rc => (if is_dir type then ignore (lift (free_chain first)) else mret tt) ;; fail rc
          | inr _ =>
              d ← node;
              if room then
                mret (Node type 0 false first 0 0 true (fixed_root d) (first_cluster d) off)
              else
                ignore (entry_delete off) ;;
                (if is_dir type then ignore (lift (free_chain first)) else mret tt) ;;
                fail (- ENOMEM)
          end
    end.

Fixpoint dir_is_empty_loop (fuel : nat) (off : Z) : nio unit :=
  match fuel with
  | O => hang
  | S fuel =>
      r ← try (node_read off DIRENT_SIZE);
      match r with
      | inl _ => fail (- EIO)
      | inr e =>
          if (Z.of_nat (length e) <? DIRENT_SIZE) || (aget 0 e 0 =? ENTRY_END) then mret tt
          else if (aget 0 e 0 =? ENTRY_DELETED) || (aget 0 e 11 =? ATTR_LONG_NAME)
                  || truth (Z.land (aget 0 e 11) ATTR_VOLUME_ID)
          then dir_is_empty_loop fuel (u32 (off + DIRENT_SIZE))
          else if (aget 0 e 0 =? 46) && ((aget 0 e 1 =? 32) || ((aget 0 e 1 =? 46) && (aget 0 e 2 =? 32)))
          then dir_is_empty_loop fuel (u32 (off + DIRENT_SIZE))
          else fail (- ENOTEMPTY)
      end
  end.

Definition dir_is_empty (fuel : nat) : nio unit := dir_is_empty_loop fuel 0.

Definition entry_is_dir (e : list Z) : bool := truth (Z.land (aget 0 e 11) ATTR_DIRECTORY).

Definition fat_remove (fuel : nat) (name : list Z) (expect : vnode_type) : nio unit :=
  g ← lift geom;
  if read_only g then fail (- EROFS)
  else
    '(e, off) ← entry_find fuel name;
    let d := entry_is_dir e in
    if (match expect with VNODE_FILE => true | _ => false end) && d then fail (- EISDIR)
    else if is_dir expect && negb d then fail (- ENOTDIR)
    else
      (if d then within (dir_at false (le16 e 26)) (dir_is_empty fuel) else mret tt) ;;
      lift (free_chain (le16 e 26)) ;;
      entry_delete off.

Definition drop_target (fuel : nat) (src tgt : list Z) (toff : Z) : nio unit :=
  if negb (Bool.eqb (entry_is_dir src) (entry_is_dir tgt)) then
    fail (if entry_is_dir src then - ENOTDIR else - EISDIR)
  else
    (if entry_is_dir tgt then within (dir_at false (le16 tgt 26)) (dir_is_empty fuel) else mret tt) ;;
    lfn ← lfn_start toff;
    (if lfn <? toff then slots_delete lfn (toff - DIRENT_SIZE) else mret tt) ;;
    lift (free_chain (le16 tgt 26)) ;;
    entry_delete toff.

Definition fat_rename (fuel : nat) (from to : list Z) : nio unit :=
  g ← lift geom;
  if read_only g then fail (- EROFS)
  else
    '(e, off) ← entry_find fuel from;
    r ← try (entry_find fuel to);
    (match r with
     | inr (other, ooff) => if negb (ooff =? off) then drop_target fuel e other ooff else mret tt
     | inl rc => if rc =? - ENOENT then mret tt else fail rc
     end) ;;
    name11 ← make_entry_name fuel to (Some off);
    lfn ← lfn_start off;
    (if lfn <? off then slots_delete lfn (off - DIRENT_SIZE) else mret tt) ;;
    entry_place off (name11 ++ drop 11 e) false.

(** The loop of [fat_truncate]: the last cluster to keep. *)
Fixpoint keep_loop (rounds : nat) (c : Z) : io Z :=
  match rounds with
  | O => mret c
  | S rounds =>
      g ← geom;
      if negb (truth c && valid_cluster g c) then mret c
      else
        r ← try (fat_entry c);
        match r with
        | inl _ => fail (- EIO)
        | inr next => if is_end_of_chain g next then mret c else keep_loop rounds next
        end
  end.

Definition fat_truncate (size : Z) : nio unit :=
  g ← lift geom;
  if read_only g then fail (- EROFS)
  else
    refresh_entry ;;
    n ← node;
    if size =? 0 then
      r ← try (lift (free_chain (first_cluster n)));
      set_node (λ n, set_size (set_cursor (set_first n 0) 0 0) 0) ;;
      match r with inl rc => fail rc | inr _ => sync_entry end
    else if size >? nsize n then fail (- EINVAL)
    else if size <? nsize n then
      let keep := u32 (size + bytes_per_cluster g - 1) / bytes_per_cluster g in
      c ← lift (keep_loop (Z.to_nat (keep - 1)) (first_cluster n));
      if negb (valid_cluster g c) then fail (- EIO)
      else
        r ← try (lift (fat_entry c));
        match r with
        | inl _ => fail (- EIO)
        | inr next =>
            (if negb (is_end_of_chain g next) then lift (free_chain next) else mret tt) ;;
            lift (fat_set_entry c (end_marker g)) ;;
            set_node (λ n, set_size n size) ;;
            sync_entry
        end
    else mret tt.

Definition fat_write (offset : Z) (buf : list Z) : nio Z :=
  g ← lift geom;
  n ← node;
  if read_only g then fail (- EROFS)
  else if is_dir (ntype n) then fail (- EISDIR)
  else
    refresh_entry ;;
    done ← node_write offset buf;
    n ← node;
    (if (done >? 0) && (u32 (offset + done) >? nsize n)
     then set_node (λ n, set_size n (u32 (offset + done))) ;; ignore sync_entry else mret tt) ;;
    mret done.

Definition nth_entry (e name : list Z) (off : Z) (r : Z * option dirent) : bool * (Z * option dirent) :=
  let '(skip, out) := r in
  if truth skip then (false, (u32 (skip - 1), out))
  else (true, (u32 (skip - 1),
          Some (Dirent (take 63 name) (if entry_is_dir e then VNODE_DIR else VNODE_FILE)
                  (if entry_is_dir e then 0 else le32 e 28)))).

Definition fat_readdir (fuel : nat) (index : Z) : nio (option dirent) :=
  r ← for_each_entry fuel nth_entry (index, None);
  mret r.2.

(** [fat_filetime] and [fat_fileattr]: with a value they set it. *)
Definition entry_access (set : bool) (f : list Z → Z * list Z) : nio Z :=
  g ← lift geom;
  n ← node;
  if negb (has_entry n) then fail (- EINVAL)
  else if set && read_only g then fail (- EROFS)
  else within (dir_at (entry_dir_fixed n) (entry_dir_cluster n)) (
    e ← read_entry (entry_off n);
    if aget 0 e 0 =? ENTRY_DELETED then fail (- ENOENT)
    else
      let '(v, e) := f e in
      (if set then write_all node_write (entry_off n) e (- EIO) else mret tt) ;;
      mret v).

Definition fat_filetime (stamp : option Z) : nio Z :=
  entry_access (match stamp with Some _ => true | None => false end)
    (λ e, match stamp with Some t => (t, put_le32 e 22 t) | None => (le32 e 22, e) end).

Definition fat_fileattr (attr : option Z) : nio Z :=
  entry_access (match attr with Some _ => true | None => false end)
    (λ e, match attr with
          | Some a => (a, aset e 11 (u8 (Z.lor (Z.land (aget 0 e 11) (not32 0x27)) (Z.land a 0x27))))
          | None => (aget 0 e 11, e)
          end).

(** [room1] and [room2]: the allocations of the volume and of the root. *)
Definition fat_mount (d : device) (room0 room1 room2 : bool) : result (fat_fs * fat_node) :=
  if negb (is_block d) || negb (block_size d =? SECTOR) then Err (- EINVAL)
  else if negb room0 then Err (- ENOMEM)
  else
    match device_read_blocks 0 1 d with
    | (Err _, _) | (Hang, _) => Err (- EIO)
    | (Good b, d) =>
        let bytes_per_sector := le16 b 11 in
        let per_cluster := aget 0 b 13 in
        let reserved := le16 b 14 in
        let fats := aget 0 b 16 in
        let root_entries := le16 b 17 in
        let total := if truth (le16 b 19) then le16 b 19 else le32 b 32 in
        let fat_size := le16 b 22 in
        let media := aget 0 b 21 in
        let signature := le16 b 510 in
        if negb (signature =? 0xAA55) || negb (bytes_per_sector =? SECTOR) || (per_cluster =? 0)
           || truth (Z.land per_cluster (per_cluster - 1)) || (reserved =? 0) || (fats =? 0) || (fats >? 2)
           || (negb (media =? 0xF0) && (media <? 0xF8)) || (root_entries =? 0) || (fat_size =? 0)
           || (total >? block_count d) then Err (- EINVAL)
        else
          let root_sectors := u32 (root_entries * DIRENT_SIZE + SECTOR - 1) / SECTOR in
          let data_start := u32 (reserved + fats * fat_size + root_sectors) in
          if data_start >=? total then Err (- EINVAL)
          else
            let clusters := (total - data_start) / per_cluster in
            if clusters >=? 65525 then Err (- EINVAL)
            else if negb room1 || negb room2 then Err (- ENOMEM)
            else Good (Fs (Geometry (clusters <? 4085) (negb (can_write d)) fats per_cluster (per_cluster * SECTOR)
                             reserved fat_size (u32 (reserved + fats * fat_size)) (root_entries * DIRENT_SIZE)
                             data_start clusters)
                        d 2 0 false (replicate 512 0),
                      Node VNODE_DIR 0 true 0 0 0 false false 0 0)
    end.
