(* ===== verification/FatTable.v ===== *)
(** * The FAT file system: sectors and the allocation table

    On a volume whose geometry is sound and whose device works, the sector
    cache is invisible and the bytes of the table behave as an array of
    entries ([table]). [fat_set_entry] changes one of them in every copy of the
    table; for the even entries of a FAT12 volume it does not replace the old
    value but adds bits to it ([stored]). On top of that: allocation and the
    freeing of chains. *)
From S2P Require Import Prelude StateM Abi Fat.
Local Open Scope Z_scope.

(** ** Sound volumes *)

Definition disk (fs : fat_fs) : Z → list Z := blocks (dev fs).
Definition byte (b : Z) : Prop := 0 ≤ b < 256.

(** The bytes that the first [n] entries of the table take. *)
Definition table_bytes (g : geometry) (n : Z) : Z := if fat12 g then (3 * n + 1) / 2 else 2 * n.

Record geo_ok (g : geometry) (count : Z) : Prop := {
  g_fats : 1 ≤ fats g ≤ 2;
  g_spc : 1 ≤ sectors_per_cluster g;
  g_bpc : bytes_per_cluster g = sectors_per_cluster g * SECTOR;
  g_start : 1 ≤ fat_start g;
  g_size : 1 ≤ fat_size g;
  g_root : root_start g = fat_start g + fats g * fat_size g;
  g_rootb : 0 < root_bytes g;
  g_data : root_start g * SECTOR + root_bytes g ≤ data_start g * SECTOR;
  g_end : data_start g + cluster_count g * sectors_per_cluster g ≤ count;
  g_count : count < 2 ^ 32;
  g_clusters : 0 ≤ cluster_count g < if fat12 g then 4085 else 65525;
  g_covers : table_bytes g (cluster_count g + 2) ≤ fat_size g * SECTOR
}.

Record fs_ok (fs : fat_fs) : Prop := {
  ok_geo : geo_ok (geo fs) (block_count (dev fs));
  ok_block : is_block (dev fs) = true;
  ok_read : can_read (dev fs) = true;
  ok_write : can_write (dev fs) = negb (read_only (geo fs));
  ok_bsize : block_size (dev fs) = SECTOR;
  ok_disk i : length (disk fs i) = 512%nat ∧ Forall byte (disk fs i);
  ok_cache : cache_valid fs = true → cache fs = disk fs (cached_sector fs);
  ok_works n : works (dev fs) n = true;
  ok_hint : 0 ≤ hint fs ≤ cluster_count (geo fs) + 2
}.

(** The same volume with other contents. *)
Record updated (fs fs' : fat_fs) (D : Z → list Z) : Prop := {
  up_ok : fs_ok fs';
  up_geo : geo fs' = geo fs;
  up_count : block_count (dev fs') = block_count (dev fs);
  up_disk i : disk fs' i = D i
}.
Definition same (fs fs' : fat_fs) : Prop := updated fs fs' (disk fs).

Definition write_to (D : Z → list Z) (s : Z) (data : list Z) : Z → list Z := λ i, if i =? s then data else D i.

Lemma same_refl fs : fs_ok fs → same fs fs.
Proof. by split. Qed.

Lemma updated_trans fs fs1 fs2 D : same fs fs1 → updated fs1 fs2 D → updated fs fs2 D.
Proof. intros [] []. split; congruence. Qed.

Lemma same_trans fs fs1 fs2 : same fs fs1 → same fs1 fs2 → same fs fs2.
Proof. intros [] []. split; congruence. Qed.

Lemma updated_ext fs fs' D D' : updated fs fs' D → (∀ i, D i = D' i) → updated fs fs' D'.
Proof. intros [] H. split; try done. intros i. rewrite <- H. auto. Qed.

(** ** Sectors *)

Lemma seqZ_one (s : Z) : seqZ s 1 = [s].
Proof. rewrite seqZ_cons by lia. by rewrite (seqZ_nil _ (Z.pred 1)) by lia. Qed.

Lemma device_read_one d s :
  is_block d = true → can_read d = true → works d 0 = true → 0 ≤ s < block_count d →
  device_read_blocks s 1 d = (Good (blocks d s), next_transfer d (blocks d)).
Proof.
  intros Hb Hr Hk Hs. unfold device_read_blocks. rewrite Hb, Hr, Hk, !Z.gtb_ltb. cbn [negb orb].
  rewrite !(proj2 (Z.ltb_ge _ _)) by lia. cbn [orb]. rewrite seqZ_one. cbn. by rewrite app_nil_r.
Qed.

Lemma device_write_one d s data :
  is_block d = true → can_write d = true → block_size d = SECTOR → works d 0 = true →
  0 ≤ s < block_count d → length data = 512%nat →
  ∃ f, device_write_blocks s 1 data d = (Good tt, next_transfer d f) ∧ ∀ i, f i = write_to (blocks d) s data i.
Proof.
  intros Hb Hw Hbs Hk Hs Hl. unfold device_write_blocks. rewrite Hb, Hw, Hk, !Z.gtb_ltb. cbn [negb orb].
  rewrite !(proj2 (Z.ltb_ge _ _)) by lia. cbn [orb]. eexists. split; [done|]. intros i. cbn beta. unfold write_to.
  destruct (Z.eqb_spec i s) as [->|Hne].
  - rewrite Z.sub_diag, (proj2 (Z.leb_le _ _)), (proj2 (Z.ltb_lt _ _)) by lia. cbn [andb].
    rewrite Z.mul_0_l. by rewrite Hbs, drop_0, take_ge by (rewrite Hl; done).
  - destruct ((s <=? i) && (i <? s + 1)) eqn:E; [|done]. zbool. lia.
Qed.

Lemma wp_read_sector fs s :
  fs_ok fs → 0 ≤ s < block_count (dev fs) → wp (read_sector s) fs (λ data fs', data = disk fs s ∧ same fs fs').
Proof.
  intros Hok Hs. destruct Hok as [Hg Hb Hr Hw Hbs Hd Hc Hk Hh]. unfold wp, read_sector, mbind, st_bind, get.
  destruct (negb (cache_valid fs) || negb (cached_sector fs =? s)) eqn:E.
  - unfold modify, try, on_dev. cbn [dev set_cache]. rewrite device_read_one by done. cbn.
    eexists _, _. split; [done|]. split; [done|]. split; try done. split; try done. intros n. apply Hk.
  - apply orb_false_iff in E as [E1 E2]. apply negb_false_iff in E1, E2. apply Z.eqb_eq in E2.
    exists (cache fs), fs. split; [done|]. split; [rewrite Hc, E2; done|]. by apply same_refl.
Qed.

Lemma wp_write_sector fs s data :
  fs_ok fs → read_only (geo fs) = false → 0 ≤ s < block_count (dev fs) → length data = 512%nat → Forall byte data →
  wp (write_sector s data) fs (λ _ fs', updated fs fs' (write_to (disk fs) s data)).
Proof.
  intros Hok Hro Hs Hl Hdata. destruct Hok as [Hg Hb Hr Hw Hbs Hd Hc Hk Hh].
  destruct (device_write_one (dev fs) s data) as (f & Hf & Hfi); try done; [by rewrite Hw, Hro|].
  unfold wp, write_sector, mbind, st_bind, get. rewrite Hro. unfold modify, try, on_dev. rewrite Hf. cbn.
  assert (∀ i, length (f i) = 512%nat ∧ Forall byte (f i)) as Hd'.
  { intros i. rewrite Hfi. unfold write_to. case_if; [done|apply Hd]. }
  eexists _, _. split; [done|]. destruct (cache_valid fs && (cached_sector fs =? s)) eqn:E.
  - split; try done. split; try done; [|intros n; apply Hk]. intros _. cbn. rewrite Hfi. unfold write_to. by rewrite Z.eqb_refl.
  - split; try done. split; try done; [|intros n; apply Hk]. cbn. intros Hv. rewrite Hfi. unfold write_to.
    rewrite Hv in E. cbn [andb] in E. rewrite E. by apply Hc.
Qed.

(** ** The bytes of the table *)

(** Byte [off] of copy [k] of the table. *)
Definition byte_of (g : geometry) (D : Z → list Z) (k off : Z) : Z :=
  aget 0 (D (fat_start g + k * fat_size g + off / SECTOR)) (off mod SECTOR).

(** The sectors of the table. *)
Definition in_table (g : geometry) (s : Z) : Prop := fat_start g ≤ s < root_start g.

(** A byte of every copy was changed, and nothing else. *)
Record patched (g : geometry) (D D' : Z → list Z) (off : Z) (f : Z → Z) : Prop := {
  patch_byte k o : 0 ≤ k < fats g → 0 ≤ o < fat_size g * SECTOR →
    byte_of g D' k o = if o =? off then f (byte_of g D k o) else byte_of g D k o;
  patch_rest s : ¬ in_table g s → D' s = D s
}.

Lemma off_sector g count off :
  geo_ok g count → 0 ≤ off < fat_size g * SECTOR → 0 ≤ off / SECTOR < fat_size g ∧ 0 ≤ off mod SECTOR < SECTOR.
Proof. unfold SECTOR. intros [] H. dlia. Qed.

Lemma sector_below g count k i :
  geo_ok g count → 0 ≤ k < fats g → 0 ≤ i < fat_size g →
  fat_start g ≤ fat_start g + k * fat_size g + i < root_start g ∧ root_start g ≤ count.
Proof.
  intros [] Hk Hi. unfold SECTOR in *.
  assert (0 ≤ cluster_count g * sectors_per_cluster g) by (apply Z.mul_nonneg_nonneg; lia).
  assert (k * fat_size g + fat_size g ≤ fats g * fat_size g) by nia. nia.
Qed.

Lemma byte_of_write g count D k k' off o data :
  geo_ok g count → 0 ≤ k → 0 ≤ k' → 0 ≤ off < fat_size g * SECTOR → 0 ≤ o < fat_size g * SECTOR →
  byte_of g (write_to D (fat_start g + k * fat_size g + off / SECTOR) data) k' o =
    if (k' =? k) && (o / SECTOR =? off / SECTOR) then aget 0 data (o mod SECTOR) else byte_of g D k' o.
Proof.
  intros Hg Hk Hk' Hoff Ho. destruct (off_sector _ _ _ Hg Hoff) as [H1 _]. destruct (off_sector _ _ _ Hg Ho) as [H2 _].
  unfold byte_of, write_to. destruct (Z.eqb_spec k' k) as [->|Hne]; cbn [andb].
  - destruct (Z.eqb_spec (o / SECTOR) (off / SECTOR)) as [->|Hne']; [by rewrite Z.eqb_refl|].
    by rewrite (proj2 (Z.eqb_neq _ _)) by lia.
  - rewrite (proj2 (Z.eqb_neq _ _)); [done|]. intros H.
    assert ((k' - k) * fat_size g = off / SECTOR - o / SECTOR) by lia. nia.
Qed.

Lemma aget_same_offset (s : list Z) off o v :
  length s = 512%nat → 0 ≤ off → 0 ≤ o → o / SECTOR = off / SECTOR →
  aget 0 (aset s (off mod SECTOR) v) (o mod SECTOR) = if o =? off then v else aget 0 s (o mod SECTOR).
Proof.
  unfold SECTOR. intros Hs Hoff Ho E. destruct (Z.eqb_spec o off) as [->|Hne].
  - apply aget_aset_eq. rewrite Hs. dlia.
  - apply aget_aset_ne; [dlia..|]. intros E'. apply Hne. dlia.
Qed.

(** One copy, its sector read, changed and written back. *)
Lemma byte_of_patch g count D n off v k o :
  geo_ok g count → 0 ≤ n → 0 ≤ k → 0 ≤ off < fat_size g * SECTOR → 0 ≤ o < fat_size g * SECTOR →
  let sec := fat_start g + n * fat_size g + off / SECTOR in
  length (D sec) = 512%nat →
  byte_of g (write_to D sec (aset (D sec) (off mod SECTOR) v)) k o =
    if (k =? n) && (o =? off) then v else byte_of g D k o.
Proof.
  intros Hg Hn Hk Hoff Ho sec Hl. unfold sec. rewrite (byte_of_write g _ _ _ _ _ _ _ Hg) by lia.
  destruct (Z.eqb_spec k n) as [->|]; cbn [andb]; [|done].
  destruct (Z.eqb_spec (o / SECTOR) (off / SECTOR)) as [E|E].
  - rewrite aget_same_offset by (done || lia). case_if; [done|]. unfold byte_of. by rewrite E.
  - rewrite (proj2 (Z.eqb_neq o off)) by congruence. done.
Qed.

Lemma byte_of_range fs k o : fs_ok fs → byte (byte_of (geo fs) (disk fs) k o).
Proof.
  intros Hok. unfold byte_of, SECTOR. destruct (ok_disk _ Hok (fat_start (geo fs) + k * fat_size (geo fs) + o / 512)) as [Hl Hb].
  apply aget_Forall; [done|]. rewrite Hl. dlia.
Qed.

Lemma wp_bind_geom {A} (f : geometry → io A) fs Q : wp (f (geo fs)) fs Q → wp (geom ≫= f) fs Q.
Proof. done. Qed.
Lemma wp_bind_get {A} (f : fat_fs → io A) fs Q : wp (f fs) fs Q → wp (get ≫= f) fs Q.
Proof. done. Qed.
Lemma wp_bind_modify {A} h (m : io A) fs Q : wp m (h fs) Q → wp (modify h ;; m) fs Q.
Proof. done. Qed.

Lemma wp_fat_byte fs off :
  fs_ok fs → 0 ≤ off < fat_size (geo fs) * SECTOR →
  wp (fat_byte off) fs (λ b fs', b = byte_of (geo fs) (disk fs) 0 off ∧ same fs fs').
Proof.
  intros Hok Hoff. pose proof (ok_geo _ Hok) as Hg. destruct (off_sector _ _ _ Hg Hoff) as [H1 H2].
  destruct (sector_below _ _ 0 _ Hg ltac:(destruct Hg; lia) H1) as [H3 H4]. pose proof (g_start _ _ Hg). pose proof (g_count _ _ Hg).
  unfold fat_byte. apply wp_bind_geom.
  rewrite u32_small by lia.
  eapply wp_bind; [apply wp_read_sector; [done|lia]|]. intros d fs' [-> Hs]. apply wp_ret. split; [|done].
  unfold byte_of. by rewrite Z.mul_0_l, Z.add_0_r.
Qed.

Lemma wp_fat_patch_byte fs off mask set :
  fs_ok fs → read_only (geo fs) = false → 0 ≤ off < fat_size (geo fs) * SECTOR →
  wp (fat_patch_byte off mask set) fs (λ _ fs', ∃ D', updated fs fs' D' ∧
    patched (geo fs) (disk fs) D' off (λ b, u8 (Z.lor (Z.land b mask) set))).
Proof.
  intros Hok Hro Hoff. pose proof (ok_geo _ Hok) as Hg. destruct (off_sector _ _ _ Hg Hoff) as [H1 H2].
  unfold fat_patch_byte. apply wp_bind_geom.
  set (g := geo fs) in *. set (f := λ b, u8 (Z.lor (Z.land b mask) set)).
  apply (wp_each (λ n fs', ∃ D', updated fs fs' D' ∧ (∀ k o, 0 ≤ k < fats g → 0 ≤ o < fat_size g * SECTOR →
      byte_of g D' k o = if (o =? off) && (k <? n) then f (byte_of g (disk fs) k o) else byte_of g (disk fs) k o) ∧
      ∀ s, ¬ in_table g s → D' s = disk fs s)).
  - destruct Hg; lia.
  - exists (disk fs). split; [by apply same_refl|]. split; [|done]. intros k o Hk Ho.
    rewrite (proj2 (Z.ltb_ge k 0)), andb_false_r by lia. done.
  - intros n fs1 Hn (D1 & Hup & Hb & Hrest). destruct (sector_below _ _ n _ Hg Hn H1) as [H3 H4].
    pose proof (g_start _ _ Hg). pose proof (g_count _ _ Hg). rewrite u32_small by (unfold g in *; lia).
    set (sec := fat_start g + n * fat_size g + off / SECTOR) in *.
    eapply wp_bind; [apply wp_read_sector; [apply Hup|rewrite (up_count _ _ _ Hup); unfold g in *; lia]|].
    intros s fs2 [-> Hs2]. cbn beta.
    destruct (ok_disk _ (up_ok _ _ _ Hup) sec) as [Hl Hby].
    eapply wp_conseq; [apply wp_write_sector|].
    + apply Hs2.
    + by rewrite (up_geo _ _ _ Hs2), (up_geo _ _ _ Hup).
    + rewrite (up_count _ _ _ Hs2), (up_count _ _ _ Hup). unfold g in *. lia.
    + by rewrite length_aset.
    + apply aset_Forall; [done|apply u8_range].
    + intros [] fs3 H5. cbn beta in H5. eexists. split; [|split].
      * destruct Hup, Hs2, H5. split; try congruence. exact up_disk2.
      * intros k o Hk Ho. rewrite <- (up_disk _ _ _ Hs2 sec) in Hl. rewrite <- (up_disk _ _ _ Hs2 sec).
        unfold sec in *. rewrite (byte_of_patch g _ _ _ _ _ _ _ Hg) by (done || lia). fold (byte_of g (disk fs2) n off).
        assert (∀ k o, byte_of g (disk fs2) k o = byte_of g D1 k o) as HD.
        { intros k' o'. unfold byte_of. by rewrite (up_disk _ _ _ Hs2), (up_disk _ _ _ Hup). }
        rewrite !HD, !Hb by lia. rewrite Z.ltb_irrefl, andb_false_r.
        destruct (Z.eqb_spec k n) as [->|Hkn]; cbn [andb].
        -- rewrite Z.ltb_irrefl, andb_false_r, (proj2 (Z.ltb_lt n (n + 1))), andb_true_r by lia.
           by destruct (Z.eqb_spec o off) as [->|].
        -- assert ((k <? n + 1) = (k <? n)) as -> by compare_all. done.
      * intros s Hs. unfold write_to. rewrite (proj2 (Z.eqb_neq s sec)); [|intros ->; apply Hs; unfold in_table; lia].
        rewrite (up_disk _ _ _ Hs2), (up_disk _ _ _ Hup). by apply Hrest.
  - intros fs' (D' & Hup & Hb & Hrest). exists D'. split; [done|]. split; [|done]. intros k o Hk Ho.
    rewrite Hb, Z.add_0_l, (proj2 (Z.ltb_lt k (fats g))), andb_true_r by lia. done.
Qed.

(** ** Entries *)

(** An entry from its two bytes. *)
Definition decode (g : geometry) (c lo hi : Z) : Z :=
  let v := Z.lor lo (Z.shiftl hi 8) in
  if fat12 g then (if truth (Z.land c 1) then Z.shiftr v 4 else Z.land v 0xFFF) else v.
Definition eoff (g : geometry) (c : Z) : Z := if fat12 g then c + c / 2 else c * 2.
Definition table (g : geometry) (D : Z → list Z) (k c : Z) : Z :=
  decode g c (byte_of g D k (eoff g c)) (byte_of g D k (eoff g c + 1)).

(** What [fat_set_entry] makes of an entry: the value, except that the low
    byte of an even entry of a FAT12 table keeps the bits it had. *)
Definition stored (g : geometry) (c old v : Z) : Z :=
  if fat12 g && negb (truth (Z.land c 1)) then Z.lor (Z.land old 0xFF) v else v.

Definition entry_limit (g : geometry) : Z := if fat12 g then 2 ^ 12 else 2 ^ 16.

Lemma odd_cases c : truth (Z.land c 1) = negb (c mod 2 =? 0).
Proof. by rewrite land_1_mod. Qed.

Lemma entry_offsets g count c :
  geo_ok g count → 0 ≤ c < cluster_count g + 2 →
  entry_offset g c = eoff g c ∧ u32 (entry_offset g c + 1) = eoff g c + 1 ∧ 0 ≤ eoff g c ∧ eoff g c + 1 < fat_size g * SECTOR.
Proof.
  intros [] Hc. unfold entry_offset, eoff, table_bytes in *. destruct (fat12 g).
  - assert (0 ≤ c + c / 2 < 2 ^ 16) by dlia. rewrite !u32_small by lia. repeat split; dlia.
  - rewrite !u32_small by lia. lia.
Qed.

Lemma wp_fat_entry fs c :
  fs_ok fs → 0 ≤ c < cluster_count (geo fs) + 2 →
  wp (fat_entry c) fs (λ v fs', v = table (geo fs) (disk fs) 0 c ∧ same fs fs').
Proof.
  intros Hok Hc. destruct (entry_offsets _ _ c (ok_geo _ Hok) Hc) as (E1 & E2 & E3 & E4).
  unfold fat_entry. apply wp_bind_geom.
  rewrite E1 in *. rewrite E2.
  eapply wp_bind; [apply wp_attempt, wp_fat_byte; [done|lia]|]. intros ? fs1 (? & -> & -> & H1).
  eapply wp_bind; [apply wp_attempt, wp_fat_byte; [apply H1|rewrite (up_geo _ _ _ H1); lia]|].
  intros ? fs2 (? & -> & -> & H2). apply wp_ret. split; [|by eapply same_trans].
  unfold table, decode. rewrite (up_geo _ _ _ H1). unfold byte_of at 2 4 6. rewrite (up_disk _ _ _ H1). done.
Qed.

(** *** Nibbles *)

Lemma land_0F x : Z.land x 0x0F = x mod 16.
Proof. exact (land_ones_mod 4 x ltac:(lia)). Qed.
Lemma land_FF x : Z.land x 0xFF = x mod 256.
Proof. exact (land_ones_mod 8 x ltac:(lia)). Qed.
Lemma land_FFF x : Z.land x 0xFFF = x mod 4096.
Proof. exact (land_ones_mod 12 x ltac:(lia)). Qed.
Lemma land_F0 x : byte x → Z.land x 0xF0 = x / 16 * 16.
Proof.
  intros Hx. transitivity (Z.land x (not32 (2 ^ 4 - 1))).
  - apply (bits_eq 8); [by apply land_range_l|by apply land_range_l|]. intros i Hi. rewrite !Z.land_spec. f_equal.
    assert (i = 0 ∨ i = 1 ∨ i = 2 ∨ i = 3 ∨ i = 4 ∨ i = 5 ∨ i = 6 ∨ i = 7) as H by lia.
    by repeat destruct H as [-> | H]; [..|subst i].
  - apply (land_not32_mask 4 x); unfold byte in *; lia.
Qed.
Lemma lor_byte lo hi : byte lo → Z.lor lo (Z.shiftl hi 8) = hi * 256 + lo.
Proof.
  intros Hlo. rewrite Z.shiftl_mul_pow2, Z.lor_comm by lia. apply (lor_add 8); [lia| |done]. apply Z.mod_mul. lia.
Qed.
Lemma lor_nibble lo hi : 0 ≤ lo < 16 → Z.lor lo (hi * 16) = hi * 16 + lo.
Proof. intros Hlo. rewrite Z.lor_comm. apply (lor_add 4); [lia| |done]. apply Z.mod_mul. lia. Qed.
Lemma lor_bytes x y : byte x → byte y → byte (Z.lor x y).
Proof. apply (lor_range 8). lia. Qed.

Lemma lor_FF x : byte x → Z.lor 0xFF x = 0xFF.
Proof.
  intros Hx. apply (bits_eq 8); [by apply lor_bytes|done|]. intros i Hi. rewrite Z.lor_spec.
  change 0xFF with (Z.ones 8). by rewrite Z.ones_spec_low.
Qed.

Ltac nibbles := rewrite ?land_0F, ?land_FF, ?Z.land_0_r, ?Z.lor_0_l, ?Z.shiftr_div_pow2, ?Z.shiftl_mul_pow2 by lia;
  try change (2 ^ 4) with 16; try change (2 ^ 8) with 256.

(** The bytes [fat_set_entry] writes: an odd entry, *)
Lemma odd_low lo v : byte lo → u8 (Z.lor (Z.land lo 0x0F) (u8 (Z.shiftl (Z.land v 0x0F) 4))) = v mod 16 * 16 + lo mod 16.
Proof.
  intros Hlo. nibbles. rewrite (u8_small (_ * 16)) by dlia.
  rewrite lor_nibble by dlia. apply u8_small. dlia.
Qed.
Lemma odd_high hi v : 0 ≤ v < 2 ^ 12 → u8 (Z.lor (Z.land hi 0x00) (u8 (Z.shiftr v 4))) = v / 16.
Proof. intros Hv. nibbles. rewrite (u8_small (_ / _)), u8_small; dlia. Qed.

(** an even one, *)
Lemma even_low lo v : byte lo → u8 (Z.lor (Z.land lo 0xFF) (u8 (Z.land v 0xFF))) = Z.lor lo (v mod 256).
Proof.
  intros Hlo. nibbles. rewrite (Z.mod_small lo) by (unfold byte in *; lia). rewrite (u8_small (v mod 256)) by dlia.
  apply u8_small, lor_bytes; [done|]. unfold byte. dlia.
Qed.
Lemma even_high hi v : byte hi → 0 ≤ v < 2 ^ 12 →
  u8 (Z.lor (Z.land hi 0xF0) (u8 (Z.land (Z.shiftr v 8) 0x0F))) = hi / 16 * 16 + v / 256.
Proof.
  intros Hhi Hv. rewrite land_F0 by done. nibbles. unfold byte in *.
  rewrite (u8_small (_ mod 16)) by dlia. rewrite Z.lor_comm, lor_nibble by dlia. rewrite u8_small; dlia.
Qed.

(** and an entry of a FAT16 table. *)
Lemma wide_low lo v : u8 (Z.lor (Z.land lo 0x00) (u8 v)) = v mod 256.
Proof. nibbles. rewrite u8_small; [done|apply u8_range]. Qed.
Lemma wide_high hi v : 0 ≤ v < 2 ^ 16 → u8 (Z.lor (Z.land hi 0x00) (u8 (Z.shiftr v 8))) = v / 256.
Proof. intros Hv. nibbles. rewrite (u8_small (_ / _)), u8_small; dlia. Qed.

(** An entry as a number. *)
Lemma decode_eq g c lo hi :
  byte lo → byte hi →
  decode g c lo hi = if fat12 g then (if c mod 2 =? 0 then hi mod 16 * 256 + lo else hi * 16 + lo / 16) else hi * 256 + lo.
Proof.
  unfold byte. intros Hlo Hhi. unfold decode. rewrite lor_byte, odd_cases by done.
  destruct (fat12 g); [|done]. destruct (c mod 2 =? 0); cbn [negb].
  - rewrite land_FFF. dlia.
  - rewrite Z.shiftr_div_pow2 by lia. dlia.
Qed.

Lemma decode_range g c lo hi : byte lo → byte hi → 0 ≤ decode g c lo hi < entry_limit g.
Proof. intros Hlo Hhi. rewrite decode_eq by done. unfold entry_limit, byte in *. repeat case_if; dlia. Qed.

(** Adding bits to an even entry. *)
Lemma lor_even lo v : byte lo → 0 ≤ v < 2 ^ 12 → Z.lor lo v = v / 256 * 256 + Z.lor lo (v mod 256).
Proof.
  intros Hlo Hv. assert (Z.lor (v mod 256) (Z.shiftl (v / 256) 8) = v) as E by (rewrite lor_byte by (unfold byte; dlia); dlia).
  rewrite <- E at 1. rewrite Z.lor_assoc. apply lor_byte, lor_bytes; [done|]. unfold byte. dlia.
Qed.

(** One entry of every copy was set, and nothing outside the table changed. *)
Record entry_set (g : geometry) (D D' : Z → list Z) (c v : Z) : Prop := {
  es_entry k c' : 0 ≤ k < fats g → 0 ≤ c' < cluster_count g + 2 →
    table g D' k c' = if c' =? c then stored g c (table g D k c) v else table g D k c';
  es_rest s : ¬ in_table g s → D' s = D s
}.

Section set_entry.
Context (g : geometry) (count : Z) (D D' : Z → list Z) (c v : Z) (f1 f2 : Z → Z).
Context (Hg : geo_ok g count) (Hb : ∀ k o, byte (byte_of g D k o)) (Hc : 0 ≤ c < cluster_count g + 2) (Hv : 0 ≤ v < entry_limit g).
Context (Hbytes : ∀ k o, 0 ≤ k < fats g → 0 ≤ o < fat_size g * SECTOR →
  byte_of g D' k o = if o =? eoff g c then f1 (byte_of g D k o) else if o =? eoff g c + 1 then f2 (byte_of g D k o) else byte_of g D k o).

(** The two bytes of an entry. *)
Lemma entry_bytes k c' :
  0 ≤ k < fats g → 0 ≤ c' < cluster_count g + 2 →
  let b o := if o =? eoff g c then f1 (byte_of g D k o) else if o =? eoff g c + 1 then f2 (byte_of g D k o) else byte_of g D k o in
  table g D' k c' = decode g c' (b (eoff g c')) (b (eoff g c' + 1)).
Proof.
  intros Hk Hc'. destruct (entry_offsets _ _ c' Hg Hc') as (_ & _ & H1 & H2). unfold table. by rewrite !Hbytes by lia.
Qed.

Lemma set_wide :
  fat12 g = false → (∀ b, byte b → f1 b = v mod 256) → (∀ b, byte b → f2 b = v / 256) →
  ∀ k c', 0 ≤ k < fats g → 0 ≤ c' < cluster_count g + 2 →
    table g D' k c' = if c' =? c then stored g c (table g D k c) v else table g D k c'.
Proof.
  intros E H1 H2 k c' Hk Hc'. rewrite entry_bytes by done. unfold eoff, stored, entry_limit in *. rewrite E in *. cbn [andb].
  destruct (Z.eqb_spec c' c) as [->|Hne].
  - rewrite Z.eqb_refl, (proj2 (Z.eqb_neq (c * 2 + 1) (c * 2))), Z.eqb_refl, H1, H2 by (done || lia).
    rewrite decode_eq, E by (unfold byte; dlia). dlia.
  - rewrite !(proj2 (Z.eqb_neq _ _)) by lia. unfold table, eoff. by rewrite E.
Qed.

Lemma set_odd :
  fat12 g = true → c mod 2 = 1 → (∀ b, byte b → f1 b = v mod 16 * 16 + b mod 16) → (∀ b, byte b → f2 b = v / 16) →
  ∀ k c', 0 ≤ k < fats g → 0 ≤ c' < cluster_count g + 2 →
    table g D' k c' = if c' =? c then stored g c (table g D k c) v else table g D k c'.
Proof.
  intros E Eo H1 H2 k c' Hk Hc'. rewrite entry_bytes by done. unfold stored, entry_limit in *. rewrite E, odd_cases, Eo in *. cbn [andb negb Z.eqb].
  unfold table, eoff. rewrite E. destruct (Z.eqb_spec c' c) as [->|Hne].
  - rewrite Z.eqb_refl, (proj2 (Z.eqb_neq (c + c / 2 + 1) (c + c / 2))), Z.eqb_refl, H1, H2 by (done || lia).
    rewrite decode_eq, E, Eo by (unfold byte; dlia). cbn [Z.eqb]. dlia.
  - rewrite (proj2 (Z.eqb_neq (c' + c' / 2) (c + c / 2))), (proj2 (Z.eqb_neq (c' + c' / 2 + 1) (c + c / 2 + 1))) by dlia.
    rewrite (proj2 (Z.eqb_neq (c' + c' / 2) (c + c / 2 + 1))) by dlia.
    destruct (Z.eqb_spec (c' + c' / 2 + 1) (c + c / 2)) as [Eq|_]; [|done].
    rewrite H1 by done. pose proof (Hb k (c' + c' / 2 + 1)) as Hbh. pose proof (Hb k (c' + c' / 2)) as Hbl.
    assert (c' mod 2 = 0) as Ec by dlia. rewrite !decode_eq, E, Ec by (done || (unfold byte in *; dlia)). cbn [Z.eqb]. dlia.
Qed.

Lemma set_even :
  fat12 g = true → c mod 2 = 0 → (∀ b, byte b → f1 b = Z.lor b (v mod 256)) → (∀ b, byte b → f2 b = b / 16 * 16 + v / 256) →
  ∀ k c', 0 ≤ k < fats g → 0 ≤ c' < cluster_count g + 2 →
    table g D' k c' = if c' =? c then stored g c (table g D k c) v else table g D k c'.
Proof.
  intros E Eo H1 H2 k c' Hk Hc'. rewrite entry_bytes by done. unfold stored, entry_limit in *. rewrite E, odd_cases, Eo in *. cbn [andb negb Z.eqb].
  unfold table, eoff. rewrite E. destruct (Z.eqb_spec c' c) as [->|Hne].
  - rewrite Z.eqb_refl, (proj2 (Z.eqb_neq (c + c / 2 + 1) (c + c / 2))), Z.eqb_refl, H1, H2 by (done || lia).
    pose proof (Hb k (c + c / 2 + 1)) as Hbh. pose proof (Hb k (c + c / 2)) as Hbl.
    assert (byte (Z.lor (byte_of g D k (c + c / 2)) (v mod 256))) by (apply lor_bytes; [done|unfold byte; dlia]).
    rewrite !decode_eq, E, Eo by (done || (unfold byte in *; dlia)). cbn [Z.eqb]. rewrite land_FF.
    replace ((byte_of g D k (c + c / 2 + 1) mod 16 * 256 + byte_of g D k (c + c / 2)) mod 256) with (byte_of g D k (c + c / 2)) by (unfold byte in *; dlia).
    rewrite (lor_even _ v Hbl Hv). unfold byte in *. dlia.
  - rewrite (proj2 (Z.eqb_neq (c' + c' / 2) (c + c / 2))), (proj2 (Z.eqb_neq (c' + c' / 2 + 1) (c + c / 2 + 1))) by dlia.
    rewrite (proj2 (Z.eqb_neq (c' + c' / 2 + 1) (c + c / 2))) by dlia.
    destruct (Z.eqb_spec (c' + c' / 2) (c + c / 2 + 1)) as [Eq|_]; [|done].
    rewrite H2 by done. pose proof (Hb k (c' + c' / 2 + 1)) as Hbh. pose proof (Hb k (c' + c' / 2)) as Hbl.
    assert (c' mod 2 = 1) as Ec by dlia. rewrite !decode_eq, E, Ec by (done || (unfold byte in *; dlia)). cbn [Z.eqb]. unfold byte in *. dlia.
Qed.
End set_entry.

(** Two bytes patched one after the other. *)
Lemma wp_patch_two fs o m1 s1 m2 s2 :
  fs_ok fs → read_only (geo fs) = false → 0 ≤ o → o + 1 < fat_size (geo fs) * SECTOR →
  wp (fat_patch_byte o m1 s1 ;; fat_patch_byte (o + 1) m2 s2) fs (λ _ fs', ∃ D', updated fs fs' D' ∧
    (∀ k i, 0 ≤ k < fats (geo fs) → 0 ≤ i < fat_size (geo fs) * SECTOR → byte_of (geo fs) D' k i =
      if i =? o then u8 (Z.lor (Z.land (byte_of (geo fs) (disk fs) k i) m1) s1)
      else if i =? o + 1 then u8 (Z.lor (Z.land (byte_of (geo fs) (disk fs) k i) m2) s2) else byte_of (geo fs) (disk fs) k i) ∧
    ∀ s, ¬ in_table (geo fs) s → D' s = disk fs s).
Proof.
  intros Hok Hro H1 H2. eapply wp_bind; [apply wp_fat_patch_byte; [done..|lia]|].
  intros [] fs1 (D1 & Hu1 & [Hb1 Hr1]). pose proof (up_geo _ _ _ Hu1) as Eg.
  eapply wp_conseq; [apply wp_fat_patch_byte; [apply Hu1|by rewrite Eg|rewrite Eg; lia]|].
  intros [] fs2 (D2 & Hu2 & [Hb2 Hr2]). rewrite Eg in *. exists D2. split; [|split].
  - destruct Hu1, Hu2. split; congruence.
  - intros k i Hk Hi. rewrite Hb2 by done.
    assert (byte_of (geo fs) (disk fs1) k i = byte_of (geo fs) D1 k i) as -> by (unfold byte_of; by rewrite (up_disk _ _ _ Hu1)).
    rewrite Hb1 by done. destruct (Z.eqb_spec i (o + 1)) as [->|]; [by rewrite (proj2 (Z.eqb_neq (o + 1) o)) by lia|done].
  - intros s Hs. rewrite Hr2, (up_disk _ _ _ Hu1) by done. by apply Hr1.
Qed.

Lemma wp_fat_set_entry fs c v :
  fs_ok fs → read_only (geo fs) = false → 0 ≤ c < cluster_count (geo fs) + 2 → 0 ≤ v < entry_limit (geo fs) →
  wp (fat_set_entry c v) fs (λ _ fs', ∃ D', updated fs fs' D' ∧ entry_set (geo fs) (disk fs) D' c v).
Proof.
  intros Hok Hro Hc Hv. pose proof (ok_geo _ Hok) as Hg. destruct (entry_offsets _ _ c Hg Hc) as (E1 & E2 & E3 & E4).
  pose proof (λ k o, byte_of_range fs k o Hok) as Hb.
  unfold fat_set_entry. apply wp_bind_geom.
  rewrite E1 in *. rewrite E2, odd_cases. unfold entry_limit in *. destruct (fat12 (geo fs)) eqn:E; cbn [negb].
  - destruct (Z.eqb_spec (c mod 2) 0) as [Ec|Ec]; cbn [negb].
    + eapply wp_conseq; [by apply wp_patch_two|]. intros [] fs' (D' & Hu & Hbytes & Hrest). exists D'. split; [done|]. split; [|done].
      apply (set_even _ _ _ _ _ _ (λ b, u8 (Z.lor (Z.land b 0xFF) (u8 (Z.land v 0xFF))))
        (λ b, u8 (Z.lor (Z.land b 0xF0) (u8 (Z.land (Z.shiftr v 8) 0x0F)))) Hg Hb Hc); try done; [unfold entry_limit; by rewrite E|intros b Hbb; by apply even_low|intros b Hbb; by apply even_high].
    + eapply wp_conseq; [by apply wp_patch_two|]. intros [] fs' (D' & Hu & Hbytes & Hrest). exists D'. split; [done|]. split; [|done].
      apply (set_odd _ _ _ _ _ _ (λ b, u8 (Z.lor (Z.land b 0x0F) (u8 (Z.shiftl (Z.land v 0x0F) 4))))
        (λ b, u8 (Z.lor (Z.land b 0x00) (u8 (Z.shiftr v 4)))) Hg Hb Hc); try done; [unfold entry_limit; by rewrite E|dlia|intros b Hbb; by apply odd_low|intros b Hbb; by apply odd_high].
  - eapply wp_conseq; [by apply wp_patch_two|]. intros [] fs' (D' & Hu & Hbytes & Hrest). exists D'. split; [done|]. split; [|done].
    apply (set_wide _ _ _ _ _ _ (λ b, u8 (Z.lor (Z.land b 0x00) (u8 v)))
        (λ b, u8 (Z.lor (Z.land b 0x00) (u8 (Z.shiftr v 8)))) Hg Hb Hc); try done; [unfold entry_limit; by rewrite E|intros b Hbb; by apply wide_low|intros b Hbb; by apply wide_high].
Qed.

(** ** Allocation *)

Lemma valid_cluster_iff g count c : geo_ok g count → valid_cluster g c = true ↔ 2 ≤ c < cluster_count g + 2.
Proof.
  intros [] . unfold valid_cluster. rewrite u32_small by (destruct (fat12 g); lia). rewrite andb_true_iff, Z.geb_le, Z.ltb_lt. lia.
Qed.

Lemma end_of_marker g : is_end_of_chain g (end_marker g) = true.
Proof. unfold is_end_of_chain, end_marker. by destruct (fat12 g). Qed.
Lemma marker_range g : 0 ≤ end_marker g < entry_limit g.
Proof. unfold end_marker, entry_limit. destruct (fat12 g); lia. Qed.
Lemma stored_marker g c : stored g c 0 (end_marker g) = end_marker g.
Proof. unfold stored, end_marker. by destruct (fat12 g), (truth (Z.land c 1)). Qed.

(** No cluster of the volume is an end marker. *)
Lemma valid_not_end g count c : geo_ok g count → valid_cluster g c = true → is_end_of_chain g c = false.
Proof.
  intros Hg Hv%(valid_cluster_iff _ _ _ Hg). destruct Hg. unfold is_end_of_chain. rewrite Z.geb_leb. apply Z.leb_gt.
  destruct (fat12 g); lia.
Qed.

Lemma set_hint_ok fs h : fs_ok fs → 0 ≤ h ≤ cluster_count (geo fs) + 2 → fs_ok (set_hint fs h).
Proof. intros [] Hh. by split. Qed.
Lemma set_hint_updated fs fs' D h : updated fs fs' D → 0 ≤ h ≤ cluster_count (geo fs) + 2 → updated fs (set_hint fs' h) D.
Proof. intros [] Hh. split; try done. apply set_hint_ok; [done|congruence]. Qed.

(** What [alloc_cluster] did when it returned [c]. *)
Definition allocated (fs : fat_fs) (c : Z) (fs' : fat_fs) : Prop :=
  ∃ D', updated fs fs' D' ∧ entry_set (geo fs) (disk fs) D' c (end_marker (geo fs)) ∧
    valid_cluster (geo fs) c = true ∧ table (geo fs) (disk fs) 0 c = 0.

Lemma allocated_same fs fs1 c fs' : same fs fs1 → allocated fs1 c fs' → allocated fs c fs'.
Proof.
  intros [] (D' & Hu & [He1 He2] & Hv & Ht). rewrite up_geo0 in *.
  assert (∀ k c, table (geo fs) (disk fs1) k c = table (geo fs) (disk fs) k c) as HT.
  { intros. unfold table, byte_of. by rewrite !up_disk0. }
  exists D'. split; [destruct Hu; split; congruence|]. split; [|by rewrite <- HT]. split.
  - intros k c' Hk Hc'. by rewrite He1, !HT.
  - intros s Hs. by rewrite He2, up_disk0.
Qed.

Section alloc.
Context (g : geometry) (start : Z) (Hstart : 2 ≤ start ≤ cluster_count g + 2) (Hcount : cluster_count g < 65525).

(** The cluster of round [i]. *)
Definition candidate (i : Z) : Z := 2 + (start - 2 + i) mod cluster_count g.

Lemma candidate_valid count i : geo_ok g count → 0 < cluster_count g → valid_cluster g (candidate i) = true.
Proof.
  intros Hg Hc. apply (valid_cluster_iff _ _ _ Hg). unfold candidate. pose proof (Z.mod_pos_bound (start - 2 + i) _ Hc). lia.
Qed.

(** Every cluster has a round. *)
Lemma candidate_onto c : 2 ≤ c < cluster_count g + 2 → ∃ i, 0 ≤ i < cluster_count g ∧ candidate i = c.
Proof.
  intros Hc. exists ((c - start) mod cluster_count g). split; [apply Z.mod_pos_bound; lia|].
  unfold candidate. rewrite Zplus_mod_idemp_r. replace (start - 2 + (c - start)) with (c - 2) by lia.
  rewrite Z.mod_small; lia.
Qed.

Lemma wp_alloc_loop n i fs :
  fs_ok fs → read_only g = false → geo fs = g → 0 ≤ i → i + Z.of_nat n = cluster_count g →
  (∃ j, i ≤ j < cluster_count g ∧ table g (disk fs) 0 (candidate j) = 0) →
  wp (alloc_loop n start i) fs (allocated fs).
Proof.
  revert i fs. induction n as [|n IH]; intros i fs Hok Hro Eg Hi Hn (j & Hj & Hfree); [lia|].
  pose proof (ok_geo _ Hok) as Hg. rewrite Eg in Hg.
  cbn [alloc_loop]. apply wp_bind_geom. rewrite Eg.
  rewrite (u32_small (start - 2)), u32_small by lia. fold (candidate i).
  pose proof (candidate_valid _ i Hg ltac:(lia)) as Hv. pose proof (proj1 (valid_cluster_iff _ _ _ Hg) Hv) as Hr.
  eapply wp_bind; [apply wp_attempt, wp_fat_entry; [done|rewrite Eg; lia]|]. rewrite Eg.
  intros ? fs1 (? & -> & -> & H1). destruct (Z.eqb_spec (table g (disk fs) 0 (candidate i)) 0) as [E|E].
  - eapply wp_bind; [apply wp_fat_set_entry; [apply H1|rewrite (up_geo _ _ _ H1), Eg; done || lia..|]|].
    { rewrite (up_geo _ _ _ H1), Eg. apply marker_range. }
    intros [] fs2 (D' & Hu & He). apply wp_bind_modify, wp_ret. apply (allocated_same _ _ _ _ H1). exists D'. rewrite (up_geo _ _ _ H1), Eg in *.
    rewrite !u32_small by lia. split; [|split; [done|split; [done|]]].
    + apply set_hint_updated; [done|]. rewrite (up_geo _ _ _ H1), Eg. case_if; lia.
    + unfold table, byte_of in *. by rewrite !(up_disk _ _ _ H1).
  - eapply wp_conseq; [apply IH|].
    + apply H1.
    + done.
    + by rewrite (up_geo _ _ _ H1).
    + lia.
    + lia.
    + exists j. split; [destruct (decide (j = i)); [congruence|lia]|]. unfold table, byte_of in *. by rewrite !(up_disk _ _ _ H1).
    + intros c fs'. by apply allocated_same.
Qed.
End alloc.

Lemma table_ext g D D' k c : (∀ i, D' i = D i) → table g D' k c = table g D k c.
Proof. intros H. unfold table, byte_of. by rewrite !H. Qed.

Definition is_free (g : geometry) (D : Z → list Z) (c : Z) : Prop := valid_cluster g c = true ∧ table g D 0 c = 0.

Lemma start_range fs : fs_ok fs → 2 ≤ (if hint fs >=? 2 then hint fs else 2) ≤ cluster_count (geo fs) + 2.
Proof. intros Hok. pose proof (ok_hint _ Hok). destruct (ok_geo _ Hok). rewrite Z.geb_leb. case_if; lia. Qed.

Lemma wp_alloc_cluster fs :
  fs_ok fs → read_only (geo fs) = false → (∃ c, is_free (geo fs) (disk fs) c) → wp alloc_cluster fs (allocated fs).
Proof.
  intros Hok Hro (c & Hv & Ht). pose proof (ok_geo _ Hok) as Hg. apply (valid_cluster_iff _ _ _ Hg) in Hv.
  unfold alloc_cluster. apply wp_bind_get.
  assert (cluster_count (geo fs) < 65525) by (destruct Hg; destruct (fat12 _); lia).
  apply (wp_alloc_loop (geo fs)); [by apply start_range|done..|lia|lia|].
  destruct (candidate_onto (geo fs) (if hint fs >=? 2 then hint fs else 2) c Hv) as (i & Hi & E).
  exists i. by rewrite E.
Qed.

(** With nothing free the disk is full, and unchanged. *)
Lemma alloc_loop_full n start i fs :
  fs_ok fs → 2 ≤ start ≤ cluster_count (geo fs) + 2 → 0 ≤ i → i + Z.of_nat n = cluster_count (geo fs) →
  (∀ c, ¬ is_free (geo fs) (disk fs) c) →
  ∃ fs', alloc_loop n start i fs = (Err (- ENOSPC), fs') ∧ same fs fs'.
Proof.
  revert i fs. induction n as [|n IH]; intros i fs Hok Hs Hi Hn Hfull; [exists fs; split; [done|by apply same_refl]|].
  pose proof (ok_geo _ Hok) as Hg. assert (cluster_count (geo fs) < 65525) by (destruct Hg; destruct (fat12 _); lia).
  pose proof (candidate_valid (geo fs) start _ i Hg ltac:(lia)) as Hv. pose proof (proj1 (valid_cluster_iff _ _ _ Hg) Hv) as Hr.
  destruct (wp_fat_entry fs (candidate (geo fs) start i) Hok ltac:(lia)) as (v & fs1 & E & -> & H1).
  cbn [alloc_loop]. unfold mbind, st_bind, geom, try. rewrite (u32_small (start - 2)), u32_small by lia.
  fold (candidate (geo fs) start i). rewrite E.
  destruct (Z.eqb_spec (table (geo fs) (disk fs) 0 (candidate (geo fs) start i)) 0) as [E0|E0].
  - destruct (Hfull _ (conj Hv E0)).
  - destruct (IH (i + 1) fs1) as (fs' & E' & H').
    + apply H1.
    + by rewrite (up_geo _ _ _ H1).
    + lia.
    + rewrite (up_geo _ _ _ H1). lia.
    + intros c [Hc1 Hc2]. rewrite (up_geo _ _ _ H1) in *. apply (Hfull c). split; [done|]. rewrite <- (table_ext _ (disk fs) (disk fs1)); [done|apply H1].
    + exists fs'. split; [done|]. by eapply same_trans.
Qed.

(** ** Chains *)

(** The clusters from [c] to the end marker. *)
Inductive chain (g : geometry) (t : Z → Z) : Z → list Z → Prop :=
  | chain_end c : valid_cluster g c = true → is_end_of_chain g (t c) = true → chain g t c [c]
  | chain_next c l : valid_cluster g c = true → valid_cluster g (t c) = true → chain g t (t c) l → chain g t c (c :: l).

Section chains.
Context (g : geometry) (count : Z) (Hg : geo_ok g count).
Implicit Types t : Z → Z.

Lemma chain_head t c l : chain g t c l → ∃ l', l = c :: l'.
Proof. destruct 1; eauto. Qed.

Lemma chain_valid t c l : chain g t c l → Forall (λ x, valid_cluster g x = true) l.
Proof. induction 1; by constructor. Qed.

Lemma chain_unique t c l l' : chain g t c l → chain g t c l' → l = l'.
Proof.
  intros H. revert l'. induction H as [c Hv He|c l Hv Hn _ IH]; intros l'; inversion 1 as [? ? He'|? ? ? Hn' Hl']; subst; try done.
  - rewrite (valid_not_end _ _ _ Hg Hn') in He. done.
  - rewrite (valid_not_end _ _ _ Hg Hn) in He'. done.
  - f_equal. by apply IH.
Qed.

(** From any cluster of a chain the rest of it is a chain. *)
Lemma chain_from t c l x : chain g t c l → x ∈ l → ∃ l1 l2, l = l1 ++ l2 ∧ chain g t x l2.
Proof.
  induction 1 as [c Hv He|c l Hv Hn Hl IH]; intros Hx.
  - apply list_elem_of_singleton in Hx as ->. exists [], [c]. split; [done|by constructor].
  - apply elem_of_cons in Hx as [->|Hx]; [exists [], (c :: l); split; [done|by constructor]|].
    destruct (IH Hx) as (l1 & l2 & -> & H2). by exists (c :: l1), l2.
Qed.

(** So no chain that ends visits a cluster twice, *)
Lemma chain_NoDup t c l : chain g t c l → NoDup l.
Proof.
  induction 1 as [c Hv He|c l Hv Hn Hl IH]; [apply NoDup_singleton|]. constructor; [|done]. intros Hc.
  destruct (chain_from _ _ _ _ Hl Hc) as (l1 & l2 & -> & H2).
  assert (c :: l1 ++ l2 = l2) as E by (eapply chain_unique; [by apply chain_next|done]).
  apply (f_equal length) in E. rewrite length_cons, length_app in E. lia.
Qed.

(** and it is no longer than the volume. *)
Lemma chain_length t c l : chain g t c l → Z.of_nat (length l) ≤ cluster_count g.
Proof.
  intros H. assert (length l ≤ length (seqZ 2 (cluster_count g)))%nat as Hle.
  { apply submseteq_length, NoDup_submseteq; [by eapply chain_NoDup|]. intros x Hx. apply elem_of_seqZ.
    pose proof (chain_valid _ _ _ H) as Hv. rewrite Forall_forall in Hv. apply Hv in Hx. apply (valid_cluster_iff _ _ _ Hg) in Hx. lia. }
  rewrite length_seqZ in Hle. destruct Hg. lia.
Qed.

Lemma cluster_chain_ext t t' c l : (∀ x, x ∈ l → t' x = t x) → chain g t c l → chain g t' c l.
Proof.
  intros He H. induction H as [c Hv E|c l Hv Hn Hl IH].
  - constructor; [done|]. by rewrite He by (by left).
  - assert (t' c = t c) as Ec by (apply He; by left). apply chain_next; [done|by rewrite Ec|]. rewrite Ec.
    apply IH. intros x Hx. apply He. by right.
Qed.
End chains.

Lemma table_range fs k c : fs_ok fs → 0 ≤ table (geo fs) (disk fs) k c < entry_limit (geo fs).
Proof. intros Hok. apply decode_range; by apply byte_of_range. Qed.

(** *** Freeing *)

(** All the entries of a list were cleared. *)
Record cleared (g : geometry) (D D' : Z → list Z) (l : list Z) : Prop := {
  cl_entry k c : 0 ≤ k < fats g → 0 ≤ c < cluster_count g + 2 → table g D' k c = if bool_decide (c ∈ l) then 0 else table g D k c;
  cl_rest s : ¬ in_table g s → D' s = D s
}.

Lemma entry_set_cleared g D D' c :
  fat12 g = false → entry_set g D D' c 0 → cleared g D D' [c].
Proof.
  intros H16 [He Hr]. split; [|done]. intros k c' Hk Hc'. rewrite He by done. unfold stored. rewrite H16. cbn [andb].
  destruct (Z.eqb_spec c' c) as [->|Hne]; [by rewrite bool_decide_true by (by left)|].
  rewrite bool_decide_false; [done|]. by rewrite list_elem_of_singleton.
Qed.

Lemma cleared_cons g D D1 D2 c l : cleared g D D1 [c] → cleared g D1 D2 l → cleared g D D2 (c :: l).
Proof.
  intros [H1 R1] [H2 R2]. split; [|intros s Hs; by rewrite R2, R1]. intros k c' Hk Hc'. rewrite H2, H1 by done.
  destruct (decide (c' ∈ l)) as [Hl|Hl].
  - rewrite !bool_decide_true by (done || by right). done.
  - rewrite (bool_decide_false (c' ∈ l)) by done. destruct (decide (c' = c)) as [->|Hne].
    + by rewrite !bool_decide_true by set_solver.
    + by rewrite !bool_decide_false by set_solver.
Qed.

Lemma wp_free_loop fs c l fuel steps :
  fs_ok fs → read_only (geo fs) = false → fat12 (geo fs) = false →
  chain (geo fs) (table (geo fs) (disk fs) 0) c l → (length l < fuel)%nat → 0 ≤ steps →
  steps + Z.of_nat (length l) ≤ cluster_count (geo fs) + 1 →
  wp (free_loop fuel c steps) fs (λ _ fs', ∃ D', updated fs fs' D' ∧ cleared (geo fs) (disk fs) D' l).
Proof.
  revert fs c fuel steps. induction l as [|x l IH]; intros fs c fuel steps Hok Hro H16 Hch Hfuel Hs Hsteps; [by inversion Hch|].
  destruct fuel as [|fuel]; [lia|]. rewrite length_cons in *. pose proof (ok_geo _ Hok) as Hg.
  assert (valid_cluster (geo fs) c = true ∧ x = c) as [Hv ->] by (by inversion Hch).
  pose proof (proj1 (valid_cluster_iff _ _ _ Hg) Hv) as Hr.
  cbn [free_loop]. apply wp_bind_geom.
  rewrite Hv, Z.gtb_ltb, (proj2 (Z.ltb_ge _ _)) by lia. cbn [negb].
  eapply wp_bind; [apply wp_attempt, wp_fat_entry; [done|lia]|]. intros ? fs1 (? & -> & -> & H1).
  pose proof (up_geo _ _ _ H1) as Eg1.
  eapply wp_bind; [apply wp_fat_set_entry; [apply H1|rewrite Eg1; done || lia..|]|].
  { rewrite Eg1. unfold entry_limit. destruct (fat12 _); lia. }
  intros [] fs2 (D2 & Hu2 & He2). rewrite Eg1 in *. pose proof (up_geo _ _ _ Hu2) as Eg2. rewrite Eg1 in Eg2.
  assert (cleared (geo fs) (disk fs) D2 [c]) as Hc1.
  { apply entry_set_cleared; [done|]. destruct He2 as [Ha Hb]. split.
    - intros k c' Hk Hc'. rewrite Ha by done. by rewrite !(table_ext _ (disk fs) (disk fs1)) by apply H1.
    - intros s Hss. by rewrite Hb, (up_disk _ _ _ H1) by done. }
  assert (updated fs fs2 D2) as Hu by (destruct H1, Hu2; split; congruence).
  pose proof (chain_NoDup _ _ Hg _ _ _ Hch) as [Hnd _]%NoDup_cons.
  inversion Hch as [? _ He|? ? _ Hn Hl]; subst.
  - rewrite He. apply wp_ret. by exists D2.
  - rewrite (valid_not_end _ _ _ Hg Hn), Hn. cbn [negb].
    eapply wp_conseq; [apply IH|].
    + apply Hu2.
    + by rewrite Eg2.
    + by rewrite Eg2.
    + rewrite Eg2. eapply cluster_chain_ext; [|exact Hl]. intros y Hy. rewrite (table_ext _ D2) by apply Hu2.
      pose proof (chain_valid _ _ _ _ Hl) as Hvl. rewrite Forall_forall in Hvl. apply Hvl in Hy as Hyv.
      apply (valid_cluster_iff _ _ _ Hg) in Hyv. rewrite (cl_entry _ _ _ _ Hc1) by (destruct Hg; lia).
      rewrite bool_decide_false; [done|]. rewrite list_elem_of_singleton. by intros ->.
    + lia.
    + lia.
    + rewrite Eg2. lia.
    + intros [] fs3 (D3 & Hu3 & Hc3). rewrite Eg2 in *. exists D3. split; [destruct Hu, Hu3; split; congruence|].
      eapply cleared_cons; [exact Hc1|]. destruct Hc3 as [Ha Hb]. split.
      * intros k c' Hk Hc'. rewrite Ha by done. by rewrite (table_ext _ D2 (disk fs2)) by apply Hu2.
      * intros s Hss. by rewrite Hb, (up_disk _ _ _ Hu2).
Qed.

Lemma wp_free_chain fs c l :
  fs_ok fs → read_only (geo fs) = false → fat12 (geo fs) = false →
  chain (geo fs) (table (geo fs) (disk fs) 0) c l →
  wp (free_chain c) fs (λ _ fs', ∃ D', updated fs fs' D' ∧ cleared (geo fs) (disk fs) D' l).
Proof.
  intros Hok Hro H16 Hch. pose proof (ok_geo _ Hok) as Hg. pose proof (chain_length _ _ Hg _ _ _ Hch) as Hlen.
  unfold free_chain. apply wp_bind_geom.
  apply wp_bind_modify. set (h := if valid_cluster (geo fs) c then c else hint fs).
  assert (0 ≤ h ≤ cluster_count (geo fs) + 2) as Hh.
  { unfold h. destruct (valid_cluster (geo fs) c) eqn:E; [apply (valid_cluster_iff _ _ _ Hg) in E; lia|apply Hok]. }
  eapply wp_conseq; [apply (wp_free_loop (set_hint fs h) c l); [by apply set_hint_ok|done|done|done|..]|].
  - cbn [geo set_hint]. lia.
  - lia.
  - cbn [geo set_hint]. lia.
  - intros [] fs' (D' & [] & Hcl). exists D'. split; [by split|]. done.
Qed.

(** ** The properties *)

(** C3: [fat_set_entry] sets the entry of its cluster and no other, in every
    copy of the table, and changes nothing outside the table; [fat_entry] reads
    it back. The value read back is the value set, except for the even entries
    of a FAT12 volume, whose low byte keeps the bits it had ([stored]). *)
Theorem fat_set_entry_correct fs c v :
  fs_ok fs → read_only (geo fs) = false → valid_cluster (geo fs) c = true → 0 ≤ v < entry_limit (geo fs) →
  ∃ fs', fat_set_entry c v fs = (Good tt, fs') ∧ fs_ok fs' ∧ geo fs' = geo fs ∧
    (∀ c', valid_cluster (geo fs) c' = true → ∃ fs'', same fs' fs'' ∧ fat_entry c' fs' =
      (Good (if c' =? c then stored (geo fs) c (table (geo fs) (disk fs) 0 c) v else table (geo fs) (disk fs) 0 c'), fs'')) ∧
    (∀ k c', 0 ≤ k < fats (geo fs) → valid_cluster (geo fs) c' = true → table (geo fs) (disk fs') k c' =
      if c' =? c then stored (geo fs) c (table (geo fs) (disk fs) k c) v else table (geo fs) (disk fs) k c') ∧
    (∀ s, ¬ in_table (geo fs) s → disk fs' s = disk fs s).
Proof.
  intros Hok Hro Hc Hv. pose proof (ok_geo _ Hok) as Hg. apply (valid_cluster_iff _ _ _ Hg) in Hc.
  destruct (wp_fat_set_entry fs c v) as ([] & fs' & E & D' & Hu & [He Hr]); [done|done|lia|done|].
  assert (∀ k c', table (geo fs) (disk fs') k c' = table (geo fs) D' k c') as HT by (intros; apply table_ext, Hu).
  exists fs'. split; [done|]. split; [apply Hu|]. split; [apply Hu|]. split; [|split].
  - intros c' Hc'%(valid_cluster_iff _ _ _ Hg).
    destruct (wp_fat_entry fs' c') as (v' & fs'' & E' & -> & H''); [apply Hu|rewrite (up_geo _ _ _ Hu); lia|].
    exists fs''. split; [done|]. rewrite E', (up_geo _ _ _ Hu), HT, He by (destruct Hg; lia). done.
  - intros k c' Hk Hc'%(valid_cluster_iff _ _ _ Hg). rewrite HT. apply He; [done|lia].
  - intros s Hs. rewrite (up_disk _ _ _ Hu). by apply Hr.
Qed.

(** C36: On a FAT12 volume an even cluster that is part of a chain cannot be
    freed, and a cluster cannot be linked behind it: clearing its entry leaves
    the low byte of the old one, and a successor written over the end marker
    is read back with all bits of its low byte set. *)
Theorem fat12_even_entries fs c next :
  fs_ok fs → read_only (geo fs) = false → fat12 (geo fs) = true → valid_cluster (geo fs) c = true → c mod 2 = 0 →
  valid_cluster (geo fs) next = true →
  (∃ fs' fs'', fat_set_entry c 0 fs = (Good tt, fs') ∧
     fat_entry c fs' = (Good (table (geo fs) (disk fs) 0 c mod 256), fs'')) ∧
  (table (geo fs) (disk fs) 0 c = end_marker (geo fs) →
   ∃ fs' fs'', fat_set_entry c next fs = (Good tt, fs') ∧ fat_entry c fs' = (Good (next / 256 * 256 + 0xFF), fs'')).
Proof.
  intros Hok Hro H12 Hc Hev Hn. pose proof (ok_geo _ Hok) as Hg.
  apply (valid_cluster_iff _ _ _ Hg) in Hc, Hn. pose proof (g_clusters _ _ Hg) as Hcc. rewrite H12 in Hcc.
  assert (∀ v, 0 ≤ v < 2 ^ 12 → ∃ fs' fs'', fat_set_entry c v fs = (Good tt, fs') ∧
    fat_entry c fs' = (Good (Z.lor (table (geo fs) (disk fs) 0 c mod 256) v), fs'')) as H.
  { intros v Hv. destruct (wp_fat_set_entry fs c v) as ([] & fs' & E & D' & Hu & [He _]);
      [done|done|lia|unfold entry_limit; by rewrite H12|].
    destruct (wp_fat_entry fs' c) as (v' & fs'' & E' & -> & _); [apply Hu|rewrite (up_geo _ _ _ Hu); lia|].
    exists fs', fs''. split; [done|]. rewrite E', (up_geo _ _ _ Hu), (table_ext _ D') by apply Hu.
    rewrite He, Z.eqb_refl by (destruct Hg; lia). unfold stored. by rewrite H12, odd_cases, Hev, land_FF. }
  split.
  - destruct (H 0) as (fs' & fs'' & H1 & H2); [lia|]. rewrite Z.lor_0_r in H2. eauto.
  - intros Ht. destruct (H next) as (fs' & fs'' & H1 & H2); [lia|]. rewrite Ht in H2. unfold end_marker in H2. rewrite H12 in H2.
    exists fs', fs''. split; [done|]. rewrite H2. change (0xFFF mod 256) with 0xFF.
    rewrite lor_even by (unfold byte; lia). rewrite lor_FF by (unfold byte; dlia). done.
Qed.

(** Allocation finds a free cluster when there is one, marks it as the end
    of a chain and touches no other entry; otherwise it reports a full disk
    and changes nothing. *)
Theorem alloc_cluster_correct fs :
  fs_ok fs → read_only (geo fs) = false →
  ((∃ c, is_free (geo fs) (disk fs) c) →
   ∃ c fs', alloc_cluster fs = (Good c, fs') ∧ fs_ok fs' ∧ is_free (geo fs) (disk fs) c ∧
     (∀ c', valid_cluster (geo fs) c' = true → table (geo fs) (disk fs') 0 c' =
        if c' =? c then end_marker (geo fs) else table (geo fs) (disk fs) 0 c') ∧
     ∀ s, ¬ in_table (geo fs) s → disk fs' s = disk fs s) ∧
  ((∀ c, ¬ is_free (geo fs) (disk fs) c) →
   ∃ fs', alloc_cluster fs = (Err (- ENOSPC), fs') ∧ ∀ s, disk fs' s = disk fs s).
Proof.
  intros Hok Hro. pose proof (ok_geo _ Hok) as Hg. split.
  - intros Hf. destruct (wp_alloc_cluster fs Hok Hro Hf) as (c & fs' & E & D' & Hu & [He Hr] & Hv & Ht).
    exists c, fs'. split; [done|]. split; [apply Hu|]. split; [done|]. split.
    + intros c' Hc'%(valid_cluster_iff _ _ _ Hg). rewrite (table_ext _ D') by apply Hu. rewrite He by (destruct Hg; lia).
      by rewrite Ht, stored_marker.
    + intros s Hs. rewrite (up_disk _ _ _ Hu). by apply Hr.
  - intros Hf. destruct (alloc_loop_full (Z.to_nat (cluster_count (geo fs))) (if hint fs >=? 2 then hint fs else 2) 0 fs) as (fs' & E & Hs);
      [done|by apply start_range|lia|destruct Hg; lia|done|].
    exists fs'. split; [exact E|apply Hs].
Qed.

(** On a FAT16 volume [free_chain] gives back exactly the clusters of the
    chain, following it to its end. *)
Theorem free_chain_correct fs c l :
  fs_ok fs → read_only (geo fs) = false → fat12 (geo fs) = false →
  chain (geo fs) (table (geo fs) (disk fs) 0) c l →
  ∃ fs', free_chain c fs = (Good tt, fs') ∧ fs_ok fs' ∧
    (∀ c', valid_cluster (geo fs) c' = true → table (geo fs) (disk fs') 0 c' =
       if bool_decide (c' ∈ l) then 0 else table (geo fs) (disk fs) 0 c') ∧
    ∀ s, ¬ in_table (geo fs) s → disk fs' s = disk fs s.
Proof.
  intros Hok Hro H16 Hch. pose proof (ok_geo _ Hok) as Hg.
  destruct (wp_free_chain fs c l Hok Hro H16 Hch) as ([] & fs' & E & D' & Hu & [He Hr]).
  exists fs'. split; [done|]. split; [apply Hu|]. split.
  - intros c' Hc'%(valid_cluster_iff _ _ _ Hg). rewrite (table_ext _ D') by apply Hu. apply He; destruct Hg; lia.
  - intros s Hs. rewrite (up_disk _ _ _ Hu). by apply Hr.
Qed.

(** *** Two volumes *)

(** A volume whose tables begin with the given bytes. *)
Definition sample (g : geometry) (count : Z) (bytes : list Z) : fat_fs :=
  Fs g (Device DEVICE_BLOCK 512 count true true
          (λ i, if (fat_start g <=? i) && (i <? root_start g) && ((i - fat_start g) mod fat_size g =? 0)
                then take 512 (bytes ++ replicate 512 0) else replicate 512 0) (λ _, true))
    2 0 false [].

Lemma sample_ok g count bytes :
  geo_ok g count → read_only g = false → Forall byte bytes → fs_ok (sample g count bytes).
Proof.
  intros Hg Hro Hb. assert (Forall byte (replicate 512 0)) as Hz by (apply Forall_replicate; done).
  split; try done.
  - cbn. by rewrite Hro.
  - intros i. cbn [disk sample dev blocks]. destruct (_ && _).
    + split; [rewrite length_take, length_app, length_replicate; lia|]. apply Forall_take, Forall_app. by split.
    + split; [by rewrite length_replicate|done].
  - cbn [sample hint geo]. destruct Hg. lia.
Qed.

Definition floppy : geometry := Geometry true false 2 1 512 1 1 3 512 4 100.
Definition floppy_fs : fat_fs := sample floppy 104 [0xF0; 0xFF; 0xFF; 0x03; 0x40; 0x00; 0xFF; 0x0F].
Definition partition : geometry := Geometry false false 1 1 512 1 20 21 512 22 5000.
Definition partition_fs : fat_fs := sample partition 5022 [0xF8; 0xFF; 0xFF; 0xFF; 0x03; 0x00; 0xFF; 0xFF].

Lemma floppy_ok : fs_ok floppy_fs.
Proof. apply sample_ok; [split; vm_compute; intuition congruence|done|]. repeat constructor; done. Qed.
Lemma partition_ok : fs_ok partition_fs.
Proof. apply sample_ok; [split; vm_compute; intuition congruence|done|]. repeat constructor; done. Qed.

Lemma fat_set_entry_correct_witness :
  ∃ fs', fat_set_entry 3 0xABC floppy_fs = (Good tt, fs') ∧ table floppy (disk fs') 0 3 = 0xABC ∧ table floppy (disk fs') 1 2 = 3.
Proof.
  destruct (fat_set_entry_correct floppy_fs 3 0xABC floppy_ok eq_refl eq_refl ltac:(split; done))
    as (fs' & E & _ & _ & _ & H & _).
  exists fs'. split; [exact E|].
  split; [refine (eq_trans (H 0 3 _ _) _)|refine (eq_trans (H 1 2 _ _) _)];
    [cbn; lia|reflexivity|vm_compute; reflexivity|cbn; lia|reflexivity|vm_compute; reflexivity].
Defined.

Lemma fat12_even_entries_witness :
  table floppy (disk floppy_fs) 0 4 = 0xFFF ∧
  ∃ fs' fs'', fat_set_entry 4 5 floppy_fs = (Good tt, fs') ∧ fat_entry 4 fs' = (Good 0x0FF, fs'').
Proof.
  split; [vm_compute; done|].
  apply (fat12_even_entries floppy_fs 4 5 floppy_ok eq_refl eq_refl eq_refl eq_refl eq_refl). vm_compute. done.
Defined.

Lemma alloc_cluster_correct_witness : ∃ c fs', alloc_cluster partition_fs = (Good c, fs') ∧ is_free partition (disk partition_fs) c.
Proof.
  destruct (proj1 (alloc_cluster_correct partition_fs partition_ok eq_refl)) as (c & fs' & E & _ & H & _).
  - exists 4. split; vm_compute; done.
  - exists c, fs'. split; [exact E|exact H].
Defined.

Lemma free_chain_correct_witness :
  ∃ fs', free_chain 2 partition_fs = (Good tt, fs') ∧ table partition (disk fs') 0 3 = 0.
Proof.
  destruct (free_chain_correct partition_fs 2 [2; 3] partition_ok eq_refl eq_refl) as (fs' & E & _ & H & _).
  - apply chain_next; [done|vm_compute; done|]. apply chain_end; vm_compute; done.
  - exists fs'. split; [exact E|]. etransitivity; [by apply H|vm_compute; done].
Defined.
