(* ===== verification/FatData.v ===== *)
(** * The FAT file system: the contents of files

    The contents of a chain are the sectors of its clusters one after the
    other ([contents]). Reading a node copies a part of them. Writing extends
    the chain with free clusters as far as it has to, puts the bytes in their
    place, and leaves all other chains and their contents alone. Linking a
    cluster behind another is only right on a FAT16 volume (see
    [FatTable.fat12_even_entries]), so the theorems about writing are about
    these. *)
From S2P Require Import Prelude StateM Abi Fat FatTable.
Local Open Scope Z_scope.

(** ** Sectors in a row *)

Section uniform.
Context (n : nat).
Implicit Types L : list (list Z).

Lemma length_concat_uniform L : Forall (λ l, length l = n) L → length (concat L) = (length L * n)%nat.
Proof. induction 1 as [|x L Hx _ IH]; simpl; [done|]. rewrite length_app. lia. Qed.

Lemma drop_concat_uniform L q : Forall (λ l, length l = n) L → drop (q * n) (concat L) = concat (drop q L).
Proof.
  intros H. revert q. induction H as [|x L Hx _ IH]; intros [|q]; simpl; [done|by rewrite drop_nil|done|].
  rewrite <- IH. rewrite drop_app_ge by lia. f_equal. lia.
Qed.
End uniform.

(** *** Splicing *)

Lemma splice_nil {A} (l : list A) off : splice l off [] = l.
Proof. unfold splice. rewrite take_nil. simpl. by rewrite Nat.add_0_r, take_drop. Qed.

Lemma splice_app_l {A} (l r : list A) off src :
  (off + length src ≤ length l)%nat → splice (l ++ r) off src = splice l off src ++ r.
Proof.
  intros H. rewrite !splice_in_bounds by (rewrite ?length_app; lia).
  rewrite take_app_le, drop_app_le by lia. by rewrite <- !app_assoc.
Qed.

Lemma splice_app_r {A} (l r : list A) off src :
  (off + length src ≤ length r)%nat → splice (l ++ r) (length l + off) src = l ++ splice r off src.
Proof.
  intros H. rewrite !splice_in_bounds by (rewrite ?length_app; lia).
  rewrite <- Nat.add_assoc. by rewrite take_app_add', drop_app_add', <- app_assoc by lia.
Qed.

Lemma splice_splice {A} (l : list A) off a b :
  (off + length a + length b ≤ length l)%nat →
  splice (splice l off a) (off + length a) b = splice l off (a ++ b).
Proof.
  intros H. rewrite (splice_in_bounds l off a), (splice_in_bounds l off (a ++ b)) by (rewrite ?length_app; lia).
  rewrite app_assoc. set (p := take off l ++ a). assert (length p = off + length a)%nat as Hp.
  { unfold p. rewrite length_app, length_take. lia. }
  pose proof (splice_app_r p (drop (off + length a) l) 0 b) as E. rewrite Nat.add_0_r, Hp in E.
  rewrite E by (rewrite length_drop; lia).
  unfold p. rewrite <- !app_assoc. do 2 f_equal. rewrite splice_in_bounds by (rewrite length_drop; lia).
  rewrite take_0. simpl. f_equal. rewrite drop_drop, length_app. f_equal. lia.
Qed.

Lemma splice_Forall {A} (P : A → Prop) l off src : Forall P l → Forall P src → Forall P (splice l off src).
Proof. intros Hl Hs. unfold splice. rewrite !Forall_app. auto using Forall_take, Forall_drop. Qed.

(** ** Contents *)

(** The sectors of a cluster and of a chain. *)
Definition cluster_start (g : geometry) (c : Z) : Z := data_start g + (c - 2) * sectors_per_cluster g.
Definition sectors (g : geometry) (l : list Z) : list Z :=
  concat ((λ c, seqZ (cluster_start g c) (sectors_per_cluster g)) <$> l).
Definition contents (g : geometry) (D : Z → list Z) (l : list Z) : list Z := concat (D <$> sectors g l).

Section contents.
Context (g : geometry) (count : Z) (Hg : geo_ok g count).

Lemma sectors_app l k : sectors g (l ++ k) = sectors g l ++ sectors g k.
Proof. unfold sectors. by rewrite fmap_app, concat_app. Qed.

Lemma length_sectors l : length (sectors g l) = (length l * Z.to_nat (sectors_per_cluster g))%nat.
Proof.
  unfold sectors. rewrite (length_concat_uniform (Z.to_nat (sectors_per_cluster g))), length_fmap; [done|].
  apply Forall_fmap, Forall_true. intros c. cbn. by rewrite length_seqZ.
Qed.

Lemma elem_of_sectors l s :
  s ∈ sectors g l ↔ ∃ c, c ∈ l ∧ cluster_start g c ≤ s < cluster_start g c + sectors_per_cluster g.
Proof.
  unfold sectors. rewrite list_elem_of_In, in_concat. split.
  - intros (x & Hx & Hs). apply list_elem_of_In, list_elem_of_fmap in Hx as (c & -> & Hc). exists c. split; [done|].
    by apply list_elem_of_In, elem_of_seqZ in Hs.
  - intros (c & Hc & Hs). eexists. split; [apply list_elem_of_In, list_elem_of_fmap; by exists c|].
    by apply list_elem_of_In, elem_of_seqZ.
Qed.

(** Different clusters have different sectors. *)
Lemma start_inj c c' s :
  cluster_start g c ≤ s < cluster_start g c + sectors_per_cluster g →
  cluster_start g c' ≤ s < cluster_start g c' + sectors_per_cluster g → c = c'.
Proof. destruct Hg. unfold cluster_start. intros H1 H2. nia. Qed.

Lemma sectors_NoDup l : NoDup l → NoDup (sectors g l).
Proof.
  induction 1 as [|c l Hc _ IH]; [constructor|]. change (c :: l) with ([c] ++ l). rewrite sectors_app.
  apply NoDup_app. split; [|split; [|done]].
  - unfold sectors. simpl. rewrite app_nil_r. apply NoDup_seqZ.
  - intros s Hs Hs'. apply elem_of_sectors in Hs as (c1 & ->%list_elem_of_singleton & H1).
    apply elem_of_sectors in Hs' as (c2 & H2 & H3). by rewrite (start_inj _ _ _ H1 H3) in Hc.
Qed.

Lemma sectors_disjoint l l' s : (∀ c, c ∈ l → c ∉ l') → s ∈ sectors g l → s ∉ sectors g l'.
Proof.
  intros H (c & Hc & H1)%elem_of_sectors (c' & Hc' & H2)%elem_of_sectors.
  rewrite <- (start_inj _ _ _ H1 H2) in Hc'. by apply (H c).
Qed.

(** The sectors of valid clusters are inside the data area. *)
Lemma sector_range l s :
  Forall (λ c, valid_cluster g c = true) l → s ∈ sectors g l → data_start g ≤ s < count ∧ ¬ in_table g s.
Proof.
  intros Hv (c & Hc & Hs)%elem_of_sectors. rewrite Forall_forall in Hv. apply Hv, (valid_cluster_iff _ _ _ Hg) in Hc.
  destruct Hg. unfold cluster_start, in_table, SECTOR in *. split; [nia|]. intros [_ H]. nia.
Qed.

(** The sector a byte is in. *)
Lemma sectors_lookup l off c :
  0 ≤ off → l !! Z.to_nat (off / bytes_per_cluster g) = Some c →
  sectors g l !! Z.to_nat (off / SECTOR) = Some (cluster_start g c + (off mod bytes_per_cluster g) / SECTOR).
Proof.
  intros Ho Hl. pose proof (g_spc _ _ Hg) as Hs. rewrite (g_bpc _ _ Hg) in *. unfold SECTOR in *.
  set (spc := sectors_per_cluster g) in *. set (i := off / (spc * 512)) in *. set (j := (off mod (spc * 512)) / 512).
  assert (off / 512 = i * spc + j ∧ 0 ≤ j < spc ∧ 0 ≤ i) as (E & Hj & Hi).
  { unfold i, j. assert (0 < spc * 512) by lia. pose proof (Z.div_mod off (spc * 512) ltac:(lia)).
    pose proof (Z.mod_pos_bound off (spc * 512) ltac:(lia)). set (q := off / (spc * 512)) in *. set (r := off mod (spc * 512)) in *.
    split; [|split; [|apply Z.div_pos; lia]].
    - replace off with (r + (q * spc) * 512) by lia. rewrite Z.div_add by lia. lia.
    - split; [apply Z.div_pos; lia|apply Z.div_lt_upper_bound; lia]. }
  rewrite E. apply list_elem_of_split_length in Hl as (l1 & l2 & -> & Hlen).
  rewrite sectors_app. change (c :: l2) with ([c] ++ l2). rewrite sectors_app.
  rewrite lookup_app_r; rewrite length_sectors, <- Hlen; fold spc; [|nia].
  rewrite lookup_app_l by (rewrite length_sectors; fold spc; simpl; nia). unfold sectors. simpl. rewrite app_nil_r. fold spc.
  apply lookup_seqZ. split; nia.
Qed.
Implicit Types D : Z → list Z.

Lemma contents_app D l k : contents g D (l ++ k) = contents g D l ++ contents g D k.
Proof. unfold contents. by rewrite sectors_app, fmap_app, concat_app. Qed.

Lemma length_contents D l :
  (∀ i, length (D i) = 512%nat) → Z.of_nat (length (contents g D l)) = Z.of_nat (length l) * bytes_per_cluster g.
Proof.
  intros HD. unfold contents. rewrite (length_concat_uniform 512) by (apply Forall_fmap, Forall_true, HD).
  rewrite length_fmap, length_sectors. destruct Hg. unfold SECTOR in *. nia.
Qed.

Lemma contents_ext D D' l : (∀ s, s ∈ sectors g l → D' s = D s) → contents g D' l = contents g D l.
Proof.
  intros H. unfold contents. f_equal. apply list_fmap_ext. intros i s Hs. apply H. by eapply list_elem_of_lookup_2.
Qed.

(** A byte's sector, with what is before and behind it. *)
Lemma contents_split D l off c :
  (∀ i, length (D i) = 512%nat) → NoDup l → 0 ≤ off → l !! Z.to_nat (off / bytes_per_cluster g) = Some c →
  let s := cluster_start g c + (off mod bytes_per_cluster g) / SECTOR in
  ∃ S1 S2, sectors g l = S1 ++ s :: S2 ∧ (s ∉ S1) ∧ (s ∉ S2) ∧
    Z.to_nat off = (length (concat (D <$> S1)) + Z.to_nat (off mod SECTOR))%nat.
Proof.
  intros HD Hnd Ho Hl s. pose proof (sectors_lookup l off c Ho Hl) as Hs. fold s in Hs.
  apply list_elem_of_split_length in Hs as (S1 & S2 & E & Hlen). exists S1, S2. split; [done|].
  pose proof (sectors_NoDup l Hnd) as Hn. rewrite E in Hn. apply NoDup_app in Hn as (_ & H1 & H2). apply NoDup_cons in H2 as [H2 _].
  split; [intros H; apply (H1 s H); by left|]. split; [done|].
  rewrite (length_concat_uniform 512) by (apply Forall_fmap, Forall_true, HD). rewrite length_fmap, <- Hlen. unfold SECTOR. clear -Ho. dlia.
Qed.

Lemma contents_read D l off c n :
  (∀ i, length (D i) = 512%nat) → NoDup l → 0 ≤ off → l !! Z.to_nat (off / bytes_per_cluster g) = Some c →
  (Z.to_nat (off mod SECTOR) + n ≤ 512)%nat →
  take n (drop (Z.to_nat off) (contents g D l)) =
    take n (drop (Z.to_nat (off mod SECTOR)) (D (cluster_start g c + (off mod bytes_per_cluster g) / SECTOR))).
Proof.
  intros HD Hnd Ho Hl Hn. destruct (contents_split D l off c HD Hnd Ho Hl) as (S1 & S2 & E & _ & _ & ->).
  unfold contents. rewrite E, fmap_app, concat_app. cbn [fmap list_fmap concat].
  rewrite drop_app_add' by done. rewrite drop_app_le by (rewrite HD; lia). apply take_app_le. rewrite length_drop, HD. lia.
Qed.

Lemma contents_write D l off c data :
  (∀ i, length (D i) = 512%nat) → NoDup l → 0 ≤ off → l !! Z.to_nat (off / bytes_per_cluster g) = Some c →
  (Z.to_nat (off mod SECTOR) + length data ≤ 512)%nat →
  let s := cluster_start g c + (off mod bytes_per_cluster g) / SECTOR in
  contents g (write_to D s (splice (D s) (Z.to_nat (off mod SECTOR)) data)) l = splice (contents g D l) (Z.to_nat off) data.
Proof.
  intros HD Hnd Ho Hl Hn s. destruct (contents_split D l off c HD Hnd Ho Hl) as (S1 & S2 & E & H1 & H2 & ->). fold s in E, H1, H2.
  unfold contents. rewrite E, !fmap_app, !concat_app. cbn [fmap list_fmap concat].
  assert (∀ (S : list Z) x, s ∉ S → write_to D s x <$> S = D <$> S) as Hext.
  { intros S x HS. apply list_fmap_ext. intros i y Hy. unfold write_to. rewrite (proj2 (Z.eqb_neq y s)); [done|].
    intros ->. apply HS. by eapply list_elem_of_lookup_2. }
  rewrite !Hext by done. unfold write_to at 1. rewrite Z.eqb_refl.
  rewrite splice_app_r by (rewrite length_app, HD; lia). by rewrite splice_app_l by (rewrite HD; lia).
Qed.
End contents.

(** ** Nodes *)

Lemma wp_lift {A} (m : io A) fs n (P : A → fat_fs → Prop) (Q : A → fat_fs * fat_node → Prop) :
  wp m fs P → (∀ a fs', P a fs' → Q a (fs', n)) → wp (lift m) (fs, n) Q.
Proof. intros (a & fs' & E & HP) H. exists a, (fs', n). unfold lift. rewrite E. auto. Qed.
Lemma wp_bind_lift {A B} (m : io A) (f : A → nio B) fs n (P : A → fat_fs → Prop) Q :
  wp m fs P → (∀ a fs', P a fs' → wp (f a) (fs', n) Q) → wp (lift m ≫= f) (fs, n) Q.
Proof. intros H Hf. eapply wp_bind; [apply (wp_lift m fs n _ (λ a s, P a s.1 ∧ s.2 = n) H); by intros|]. intros a [fs' n'] [HP [= ->]]. by apply Hf. Qed.
Lemma wp_bind_try_lift {A B} (m : io A) (f : Z + A → nio B) fs n (P : A → fat_fs → Prop) Q :
  wp m fs P → (∀ a fs', P a fs' → wp (f (inr a)) (fs', n) Q) → wp (try (lift m) ≫= f) (fs, n) Q.
Proof.
  intros H Hf. eapply wp_bind; [eapply wp_attempt, (wp_lift m fs n _ (λ a s, P a s.1 ∧ s.2 = n) H); by intros|].
  intros ? [fs' n'] (a & -> & HP & [= ->]). by apply Hf.
Qed.
Lemma wp_bind_lgeom {A} (f : geometry → nio A) fs n Q : wp (f (geo fs)) (fs, n) Q → wp (lift geom ≫= f) (fs, n) Q.
Proof. done. Qed.
Lemma wp_bind_node {A} (f : fat_node → nio A) fs n Q : wp (f n) (fs, n) Q → wp (node ≫= f) (fs, n) Q.
Proof. done. Qed.
Lemma wp_bind_set_node {A} h (m : nio A) fs n Q : wp m (fs, h n) Q → wp (set_node h ;; m) (fs, n) Q.
Proof. done. Qed.

(** The node [n] with its chain [l] on a disk. *)
Definition starts (g : geometry) (D : Z → list Z) (c : Z) (l : list Z) : Prop :=
  match l with [] => c = 0 | _ => chain g (table g D 0) c l end.
Definition cursor_ok (n : fat_node) (l : list Z) : Prop :=
  cursor_cluster n ≠ 0 → 0 ≤ cursor_index n ∧ l !! Z.to_nat (cursor_index n) = Some (cursor_cluster n).
Record holds (g : geometry) (D : Z → list Z) (n : fat_node) (l : list Z) : Prop := {
  h_chain : fixed_root n = false;
  h_starts : starts g D (first_cluster n) l;
  h_cursor : cursor_ok n l
}.

(** The clusters of a chain by position. *)
Lemma chain_lookup g t c l i x :
  chain g t c l → l !! i = Some x → chain g t x (drop i l).
Proof.
  intros H. revert i x. induction H as [c Hv He|c l Hv Hn Hl IH]; intros [|i] x; simpl; intros [= <-] || intros Hx; try done.
  - by constructor.
  - by constructor.
  - by apply IH.
Qed.

Lemma wp_follow fs c l rounds i index :
  fs_ok fs → chain (geo fs) (table (geo fs) (disk fs) 0) c l → index - i = Z.of_nat rounds → index - i ≤ cluster_count (geo fs) →
  wp (follow rounds i index c) fs (λ x fs', x = default 0 (l !! rounds) ∧ same fs fs').
Proof.
  revert fs c l i. induction rounds as [|rounds IH]; intros fs c l i Hok Hch Hi Hle.
  - apply wp_ret. destruct (chain_head _ _ _ _ Hch) as [l' ->]. split; [done|by apply same_refl].
  - pose proof (ok_geo _ Hok) as Hg. assert (valid_cluster (geo fs) c = true) as Hv by (by inversion Hch).
    apply (valid_cluster_iff _ _ _ Hg) in Hv. cbn [follow].
    apply wp_bind_geom.
    rewrite Z.gtb_ltb, (proj2 (Z.ltb_ge _ _)) by lia.
    eapply wp_bind; [apply wp_attempt, wp_fat_entry; [done|lia]|]. intros ? fs1 (? & -> & -> & H1).
    inversion Hch as [? _ He|? l' _ Hn Hl]; subst.
    + rewrite He. apply wp_ret. split; [done|done].
    + rewrite (valid_not_end _ _ _ Hg Hn), Hn. cbn [negb].
      eapply wp_conseq; [apply (IH fs1 _ l')|]; [apply H1| |lia|rewrite (up_geo _ _ _ H1); lia|].
      * rewrite (up_geo _ _ _ H1). eapply cluster_chain_ext; [|exact Hl]. intros x _. apply table_ext, H1.
      * intros x fs2 [-> H2]. split; [done|]. by eapply same_trans.
Qed.

(** [cluster_at] finds the cluster, wherever the cursor was. *)
Lemma wp_cluster_at fs n l index :
  fs_ok fs → holds (geo fs) (disk fs) n l → 0 ≤ index ≤ cluster_count (geo fs) →
  wp (cluster_at index) (fs, n) (λ x s', x = default 0 (l !! Z.to_nat index) ∧ same fs s'.1 ∧
    ∃ i c, s'.2 = set_cursor n i c ∧ cursor_ok s'.2 l).
Proof.
  intros Hok [Hf Hst Hcur] Hi. pose proof (ok_geo _ Hok) as Hg. unfold cluster_at. apply wp_bind_lgeom, wp_bind_node.
  assert (∃ i c, (if truth (cursor_cluster n) && (cursor_index n <=? index) then (cursor_index n, cursor_cluster n) else (0, first_cluster n)) = (i, c)
    ∧ 0 ≤ i ≤ index ∧ (l = [] ∧ c = 0 ∨ l !! Z.to_nat i = Some c ∧ chain (geo fs) (table (geo fs) (disk fs) 0) c (drop (Z.to_nat i) l))) as (i & c & -> & Hic & Hc).
  { destruct (truth (cursor_cluster n) && (cursor_index n <=? index)) eqn:E.
    - apply andb_true_iff in E as [Ht%truth_true_iff Hle%Z.leb_le]. destruct (Hcur Ht) as [H0 Hl]. eexists _, _. split; [done|]. split; [lia|].
      right. split; [done|]. destruct l as [|x l]; [done|]. by eapply chain_lookup.
    - eexists _, _. split; [done|]. split; [lia|]. destruct l as [|x l]; [by left|right].
      destruct (chain_head _ _ _ _ Hst) as [l' [= -> ->]]. by rewrite drop_0. }
  destruct Hc as [[-> ->]|[Hl Hch]].
  - assert (valid_cluster (geo fs) 0 = false) as -> by done. cbn [negb Z.eqb]. apply wp_ret.
    split; [done|]. split; [by apply same_refl|]. exists (cursor_index n), (cursor_cluster n). by destruct n.
  - assert (valid_cluster (geo fs) c = true) as -> by (by inversion Hch). cbn [negb].
    eapply wp_bind_lift; [apply wp_follow; [done|exact Hch|lia|lia]|]. intros x fs' [Ex Hs].
    rewrite lookup_drop in Ex. replace (Z.to_nat i + Z.to_nat (index - i))%nat with (Z.to_nat index) in Ex by lia. subst x.
    destruct (l !! Z.to_nat index) as [x|] eqn:El; cbn [from_option id].
    + assert (x ≠ 0) as Hx.
      { destruct l as [|y l]; [done|]. pose proof (chain_valid _ _ _ _ Hst) as Hv.
        apply (Forall_lookup_1 _ _ _ _ Hv), (valid_cluster_iff _ _ _ Hg) in El. lia. }
      rewrite (proj2 (Z.eqb_neq x 0)) by done. apply wp_bind_set_node, wp_ret. split; [done|]. split; [done|].
      exists index, x. split; [done|]. intros _. cbn [snd set_cursor cursor_index cursor_cluster]. by split; [lia|].
    + apply wp_ret. split; [done|]. split; [done|]. exists (cursor_index n), (cursor_cluster n). by destruct n.
Qed.

Lemma holds_cursor g D n l i c : holds g D n l → cursor_ok (set_cursor n i c) l → holds g D (set_cursor n i c) l.
Proof. intros [] H. by split. Qed.

(** *** Reading *)

Lemma sector_in_eq g count l c off :
  geo_ok g count → Forall (λ c, valid_cluster g c = true) l → 0 ≤ off → l !! Z.to_nat (off / bytes_per_cluster g) = Some c →
  let s := cluster_start g c + (off mod bytes_per_cluster g) / SECTOR in
  sector_in g c off = s ∧ s ∈ sectors g l ∧ data_start g ≤ s < count.
Proof.
  intros Hg Hv Ho Hl s. pose proof (sectors_lookup _ _ Hg _ _ _ Ho Hl) as Hs. fold s in Hs. apply list_elem_of_lookup_2 in Hs.
  destruct (sector_range _ _ Hg _ _ Hv Hs) as [Hr _]. split; [|done].
  apply (Forall_lookup_1 _ _ _ _ Hv), (valid_cluster_iff _ _ _ Hg) in Hl as Hc. pose proof (g_count _ _ Hg).
  assert (0 ≤ (off mod bytes_per_cluster g) / SECTOR).
  { apply Z.div_pos; [apply Z.mod_pos_bound; destruct Hg; unfold SECTOR in *; lia|unfold SECTOR; lia]. }
  assert (0 ≤ cluster_start g c).
  { unfold cluster_start. destruct Hg. unfold SECTOR in *. nia. }
  unfold sector_in, cluster_sector. fold (cluster_start g c). rewrite (u32_small (cluster_start g c)) by lia. apply u32_small. lia.
Qed.

Lemma chunk_range offset left : 0 ≤ offset → 0 < left →
  0 < chunk_of offset left ≤ left ∧ offset mod SECTOR + chunk_of offset left ≤ SECTOR.
Proof. intros Ho Hl. unfold chunk_of, SECTOR. case_if; dlia. Qed.

(** What a read or a write touches stays inside the contents. *)
Lemma chunk_inside offset left n : 0 ≤ offset < n → n mod SECTOR = 0 → 0 < left → offset + chunk_of offset left ≤ n.
Proof. intros Ho Hn Hl. unfold chunk_of, SECTOR in *. case_if; dlia. Qed.

Lemma contents_end g count D l off :
  geo_ok g count → (∀ i, length (D i) = 512%nat) → 0 ≤ off →
  (off < Z.of_nat (length (contents g D l)) ↔ is_Some (l !! Z.to_nat (off / bytes_per_cluster g))).
Proof.
  intros Hg HD Ho. rewrite (length_contents _ _ Hg) by done. rewrite lookup_lt_is_Some.
  assert (0 < bytes_per_cluster g) by (destruct Hg; unfold SECTOR in *; lia).
  pose proof (Z.div_pos off (bytes_per_cluster g) Ho ltac:(lia)).
  transitivity (off / bytes_per_cluster g < Z.of_nat (length l)); [|lia].
  split; intros H1.
  - apply Z.div_lt_upper_bound; lia.
  - pose proof (Z.div_mod off (bytes_per_cluster g) ltac:(lia)). pose proof (Z.mod_pos_bound off (bytes_per_cluster g) ltac:(lia)). nia.
Qed.

(** The clusters of a node are valid and different. *)
Lemma starts_valid g D c l : starts g D c l → Forall (λ c, valid_cluster g c = true) l.
Proof. destruct l; [constructor|apply chain_valid]. Qed.
Lemma starts_NoDup g count D c l : geo_ok g count → starts g D c l → NoDup l.
Proof. intros Hg. destruct l; [constructor|by apply (chain_NoDup _ _ Hg)]. Qed.
Lemma starts_length g count D c l : geo_ok g count → starts g D c l → Z.of_nat (length l) ≤ cluster_count g.
Proof. intros Hg. destruct l; [destruct Hg; simpl; lia|by apply (chain_length _ _ Hg)]. Qed.

(** The state of a node after its cursor moved. *)
Definition moved (l : list Z) (n n' : fat_node) : Prop := ∃ i c, n' = set_cursor n i c ∧ cursor_ok n' l.

Lemma moved_refl l n : cursor_ok n l → moved l n n.
Proof. intros H. exists (cursor_index n), (cursor_cluster n). by destruct n. Qed.
Lemma moved_trans l n1 n2 n3 : moved l n1 n2 → moved l n2 n3 → moved l n1 n3.
Proof. intros (i & c & -> & _) (j & d & -> & H). by exists j, d. Qed.
Lemma moved_holds g D l n n' : holds g D n l → moved l n n' → holds g D n' l.
Proof. intros [] (i & c & -> & H). by split. Qed.

Lemma holds_same fs fs' n l : same fs fs' → holds (geo fs) (disk fs) n l → holds (geo fs') (disk fs') n l.
Proof.
  intros Hs [Hf Hst Hc]. rewrite (up_geo _ _ _ Hs). split; [done| |done]. destruct l; [done|].
  eapply cluster_chain_ext; [|exact Hst]. intros x _. apply table_ext, Hs.
Qed.

Lemma contents_same fs fs' l : same fs fs' → contents (geo fs') (disk fs') l = contents (geo fs) (disk fs) l.
Proof. intros Hs. rewrite (up_geo _ _ _ Hs). apply contents_ext. intros s _. apply Hs. Qed.

(** The sector to read next. *)
Lemma wp_locate fs n l offset :
  fs_ok fs → holds (geo fs) (disk fs) n l → 0 ≤ offset ≤ Z.of_nat (length (contents (geo fs) (disk fs) l)) →
  wp (r ← try (cluster_at (offset / bytes_per_cluster (geo fs)));
      mret (match r with
            | inl rc => inl rc
            | inr c => inr (if c =? 0 then None else Some (sector_in (geo fs) c offset))
            end)) (fs, n) (λ sec s', same fs s'.1 ∧ moved l n s'.2 ∧
    (sec = inr None ∧ offset = Z.of_nat (length (contents (geo fs) (disk fs) l)) ∨
     ∃ c, l !! Z.to_nat (offset / bytes_per_cluster (geo fs)) = Some c ∧ sec = inr (Some (sector_in (geo fs) c offset)))).
Proof.
  intros Hok Hh Ho. pose proof (ok_geo _ Hok) as Hg. pose proof (ok_disk _ Hok) as HD.
  assert (0 < bytes_per_cluster (geo fs)) as Hb by (destruct Hg; unfold SECTOR in *; lia).
  pose proof (starts_length _ _ _ _ _ Hg (h_starts _ _ _ _ Hh)) as Hlen.
  pose proof (Z.div_pos offset _ (proj1 Ho) Hb) as Hpos.
  assert (offset / bytes_per_cluster (geo fs) ≤ Z.of_nat (length l)) as Hidx.
  { apply Z.div_le_upper_bound; [done|]. rewrite (length_contents _ _ Hg) in Ho by apply HD. lia. }
  eapply wp_bind; [apply wp_attempt, (wp_cluster_at _ _ l); [done|done|lia]|].
  intros ? [fs' n'] (? & -> & -> & Hs & Hm). apply wp_ret. split; [done|]. split; [done|].
  pose proof (contents_end _ _ (disk fs) l offset Hg ltac:(apply HD) (proj1 Ho)) as Hend.
  destruct (l !! Z.to_nat (offset / bytes_per_cluster (geo fs))) as [c|] eqn:El; cbn [from_option id].
  - right. exists c. split; [done|]. pose proof (starts_valid _ _ _ _ (h_starts _ _ _ _ Hh)) as Hv.
    apply (Forall_lookup_1 _ _ _ _ Hv), (valid_cluster_iff _ _ _ Hg) in El. by rewrite (proj2 (Z.eqb_neq c 0)) by lia.
  - left. split; [done|]. destruct (decide (offset < Z.of_nat (length (contents (geo fs) (disk fs) l)))) as [Hlt|]; [|lia].
    apply Hend in Hlt as [? [=]].
Qed.

Lemma wp_node_read_loop fuel fs n l offset len done :
  fs_ok fs → holds (geo fs) (disk fs) n l → 0 ≤ offset ≤ Z.of_nat (length (contents (geo fs) (disk fs) l)) →
  Z.of_nat (length done) ≤ len → len - Z.of_nat (length done) ≤ Z.of_nat fuel → offset + (len - Z.of_nat (length done)) < 2 ^ 32 →
  wp (node_read_loop fuel offset len done) (fs, n) (λ r s',
    r = done ++ take (Z.to_nat (len - Z.of_nat (length done))) (drop (Z.to_nat offset) (contents (geo fs) (disk fs) l)) ∧
    same fs s'.1 ∧ moved l n s'.2).
Proof.
  revert fs n offset done. induction fuel as [|fuel IH]; intros fs n offset done Hok Hh Ho Hd Hfuel Hw; cbn [node_read_loop].
  all: destruct (Z.ltb_spec (Z.of_nat (length done)) len) as [Hlt|Hge]; cbn [negb]; try lia.
  1, 3: apply wp_ret; replace (Z.to_nat (len - _)) with 0%nat by lia; rewrite take_0, app_nil_r; split; [done|];
    split; [by apply same_refl|]; apply moved_refl; apply Hh.
  pose proof (ok_geo _ Hok) as Hg. pose proof (ok_disk _ Hok) as HD. pose proof Hh as [Hfix Hst Hcur].
  apply wp_bind_lgeom, wp_bind_node. rewrite Hfix.
  eapply wp_bind; [by apply (wp_locate _ _ l)|]. intros sec [fs1 n1] (Hs1 & Hm1 & Hsec). cbn [fst snd] in *.
  destruct Hsec as [[-> Hend]|(c & Hc & ->)].
  { apply wp_ret. rewrite drop_ge, take_nil, app_nil_r by lia. done. }
  pose proof (starts_valid _ _ _ _ Hst) as Hv.
  destruct (sector_in_eq _ _ _ _ _ Hg Hv (proj1 Ho) Hc) as (-> & _ & Hsr).
  eapply wp_bind_try_lift; [apply wp_read_sector; [apply Hs1|rewrite (up_count _ _ _ Hs1); destruct Hg; unfold SECTOR in *; lia]|].
  intros ? fs2 [-> Hs2]. pose proof (same_trans _ _ _ Hs1 Hs2) as Hs12.
  set (left := len - Z.of_nat (length done)) in *. destruct (chunk_range offset left) as [Hch1 Hch2]; [lia..|].
  assert (offset < Z.of_nat (length (contents (geo fs) (disk fs) l))) as Hin by (apply (contents_end _ _ _ _ _ Hg); [apply HD|lia|by eexists]).
  assert (offset + chunk_of offset left ≤ Z.of_nat (length (contents (geo fs) (disk fs) l))) as Hin'.
  { apply chunk_inside; [lia| |lia]. rewrite (length_contents _ _ Hg), (g_bpc _ _ Hg), Z.mul_assoc by apply HD. apply Z.mod_mul. done. }
  rewrite (up_disk _ _ _ Hs1). rewrite <- (contents_read _ _ Hg (disk fs) l offset c);
    [|apply HD|by eapply starts_NoDup|lia|done|unfold SECTOR in *; dlia].
  set (part := take _ _). assert (length part = Z.to_nat (chunk_of offset left)) as Hpart by (unfold part; rewrite length_take, length_drop; lia).
  rewrite u32_small by lia.
  eapply wp_conseq; [apply (IH fs2 n1 (offset + chunk_of offset left) (done ++ part))|].
  - apply Hs2.
  - eapply moved_holds; [by eapply holds_same|done].
  - rewrite (contents_same _ _ _ Hs12). lia.
  - rewrite length_app. lia.
  - rewrite length_app. lia.
  - rewrite length_app. lia.
  - intros r [fs3 n3] (-> & Hs3 & Hm3). split; [|split; [by eapply same_trans|by eapply moved_trans]].
    rewrite (contents_same _ _ _ Hs12), <- app_assoc. f_equal. rewrite length_app, Hpart. unfold part.
    replace (Z.to_nat left) with (Z.to_nat (chunk_of offset left) + Z.to_nat (len - Z.of_nat (length done + Z.to_nat (chunk_of offset left))))%nat by lia.
    by rewrite <- take_take_drop, drop_drop, <- Z2Nat.inj_add by lia.
Qed.

Lemma wp_node_read fs n l offset len :
  fs_ok fs → holds (geo fs) (disk fs) n l → 0 ≤ offset ≤ Z.of_nat (length (contents (geo fs) (disk fs) l)) →
  0 ≤ len → offset + len < 2 ^ 32 →
  wp (node_read offset len) (fs, n) (λ r s',
    r = take (Z.to_nat len) (drop (Z.to_nat offset) (contents (geo fs) (disk fs) l)) ∧ same fs s'.1 ∧ moved l n s'.2).
Proof.
  intros Hok Hh Ho Hl Hw. eapply wp_conseq; [apply (wp_node_read_loop _ _ _ l); cbn [length]; done || lia|].
  intros r s' (-> & H). cbn [length app]. by rewrite Z.sub_0_r.
Qed.

(** ** Growing a chain *)

(** The entries of a chain are in use. *)
Lemma chain_used g count t c l x : geo_ok g count → chain g t c l → x ∈ l → t x ≠ 0.
Proof.
  intros Hg H. induction H as [c Hv He|c l Hv Hn Hl IH]; intros Hx.
  - apply list_elem_of_singleton in Hx as ->. unfold is_end_of_chain in He. apply Z.geb_le in He. destruct (fat12 g); lia.
  - apply elem_of_cons in Hx as [->|Hx]; [|by apply IH]. apply (valid_cluster_iff _ _ _ Hg) in Hn. lia.
Qed.

Lemma starts_used g count D c l x : geo_ok g count → starts g D c l → x ∈ l → table g D 0 x ≠ 0.
Proof. intros Hg. destruct l; [intros _ []%elem_of_nil|by apply (chain_used _ _ _ _ _ _ Hg)]. Qed.

Lemma chain_snoc g t t' f l p c :
  chain g t f (l ++ [p]) → (∀ x, x ∈ l → t' x = t x) → t' p = c → valid_cluster g c = true → is_end_of_chain g (t' c) = true →
  chain g t' f (l ++ [p; c]).
Proof.
  revert f. induction l as [|y l IH]; intros f Hch He Hp Hv Hend; simpl in *.
  - inversion Hch as [? Hf _|? ? ? ? Hnil]; subst; [|inversion Hnil]. apply chain_next; [done|done|]. by apply chain_end.
  - inversion Hch as [|? ? Hf Hn Hl]; subst; [by destruct l|].
    assert (t' y = t y) as Ef by (apply He; by left). apply chain_next; [done|by rewrite Ef|]. rewrite Ef.
    apply IH; [done| |done..]. intros x Hx. apply He. by right.
Qed.

(** [new] was added to the chain [l]. *)
Record extends (g : geometry) (D D' : Z → list Z) (l new : list Z) : Prop := {
  ext_free : Forall (is_free g D) new;
  ext_other c : valid_cluster g c = true → c ∉ l ++ new → table g D' 0 c = table g D 0 c;
  ext_data s : data_start g ≤ s → D' s = D s
}.

Lemma extends_nil g D l : extends g D D l [].
Proof. by split. Qed.

Lemma extends_trans g count D D1 D2 l a b f :
  geo_ok g count → starts g D1 f (l ++ a) → extends g D D1 l a → extends g D1 D2 (l ++ a) b → extends g D D2 l (a ++ b).
Proof.
  intros Hg Hst [F1 O1 R1] [F2 O2 R2]. split.
  - apply Forall_app. split; [done|]. rewrite Forall_forall in *. intros c Hc. destruct (F2 c Hc) as [Hv Ht]. split; [done|].
    rewrite <- O1; [done|done|]. intros Hin. by apply (starts_used _ _ _ _ _ _ Hg Hst Hin).
  - intros c Hv Hc. rewrite app_assoc in Hc. rewrite O2, O1; [done|done| |done|done]. intros H. apply Hc, elem_of_app. by left.
  - intros s Hs. by rewrite R2, R1.
Qed.

(** There are [k] free clusters. *)
Definition enough (g : geometry) (D : Z → list Z) (k : Z) : Prop :=
  ∃ F, NoDup F ∧ Forall (is_free g D) F ∧ k ≤ Z.of_nat (length F).

Lemma enough_taken g D D' l new k :
  enough g D k → (∀ c, valid_cluster g c = true → c ∉ l ++ new → table g D' 0 c = table g D 0 c) → (∀ x, x ∈ l → table g D 0 x ≠ 0) →
  enough g D' (k - Z.of_nat (length new)).
Proof.
  intros (F & Hnd & HF & Hk) Ho Hl. exists (filter (λ x, x ∉ new) F). split; [by apply NoDup_filter|]. split.
  - rewrite Forall_forall in *. intros x [Hx Hin]%list_elem_of_filter. destruct (HF x Hin) as [Hv Ht]. split; [done|].
    rewrite Ho; [done|done|]. rewrite elem_of_app. intros [H|H]; [by apply (Hl x)|done].
  - assert (length F ≤ length (new ++ filter (λ x, x ∉ new) F))%nat as Hle.
    { apply submseteq_length, NoDup_submseteq; [done|]. intros x Hx. apply elem_of_app.
      destruct (decide (x ∈ new)); [by left|right]. by apply list_elem_of_filter. }
    rewrite length_app in Hle. lia.
Qed.

Lemma enough_one g D k : 0 < k → enough g D k → ∃ c, is_free g D c.
Proof. intros Hk (F & _ & HF & Hlen). destruct F as [|c F]; [simpl in *; lia|]. exists c. by apply Forall_cons in HF as [? _]. Qed.

Lemma enough_mono g D k k' : k' ≤ k → enough g D k → enough g D k'.
Proof. intros Hk (F & Hnd & HF & Hlen). exists F. split; [done|]. split; [done|lia]. Qed.

(** A chain and the free clusters fit on the volume together. *)
Lemma enough_bound g count D f l k :
  geo_ok g count → starts g D f l → enough g D k → Z.of_nat (length l) + k ≤ cluster_count g.
Proof.
  intros Hg Hst (F & Hnd & HF & Hk).
  assert (length (l ++ F) ≤ length (seqZ 2 (cluster_count g)))%nat as Hle.
  { apply submseteq_length, NoDup_submseteq.
    - apply NoDup_app. split; [by eapply starts_NoDup|]. split; [|done]. intros x Hx HxF. rewrite Forall_forall in HF.
      destruct (HF x HxF) as [_ Ht]. by apply (starts_used _ _ _ _ _ _ Hg Hst Hx).
    - intros x Hx. apply elem_of_seqZ. apply elem_of_app in Hx as [Hx|Hx].
      + pose proof (starts_valid _ _ _ _ Hst) as Hv. rewrite Forall_forall in Hv. apply Hv, (valid_cluster_iff _ _ _ Hg) in Hx. lia.
      + rewrite Forall_forall in HF. destruct (HF x Hx) as [Hv _]. apply (valid_cluster_iff _ _ _ Hg) in Hv. lia. }
  rewrite length_app, length_seqZ in Hle. destruct Hg. lia.
Qed.

(** A node that was given its first cluster, or whose cursor was reset. *)
Definition grown (n n' : fat_node) : Prop := ∃ f i c, n' = set_cursor (set_first n f) i c.

Lemma grown_refl n : grown n n.
Proof. exists (first_cluster n), (cursor_index n), (cursor_cluster n). by destruct n. Qed.
Lemma grown_trans n1 n2 n3 : grown n1 n2 → grown n2 n3 → grown n1 n3.
Proof. intros (f & i & c & ->) (f' & i' & c' & ->). by exists f', i', c'. Qed.

Lemma cursor_ok_app n l k : cursor_ok n l → cursor_ok n (l ++ k).
Proof. intros H Hc. destruct (H Hc) as [H0 Hl]. split; [done|]. by apply lookup_app_l_Some. Qed.

(** *** What a write needs of [sync_entry]

    It may change the root directory, not the table and not the data, and it
    can be called again. [ready] is what it keeps of the directory and the
    node: when the node's first cluster or size have changed since, [sync]
    makes it hold again. *)
Definition touched (n n' : fat_node) : Prop := ∃ f z i c, n' = set_cursor (set_size (set_first n f) z) i c.

Definition in_root (g : geometry) (s : Z) : Prop := root_start g ≤ s < data_start g.

Class Syncs (sync : nio unit) (ready : fat_fs → fat_node → Prop) : Prop := {
  sync_runs fs n0 n : fs_ok fs → read_only (geo fs) = false → ready fs n0 → touched n0 n →
    wp sync (fs, n) (λ _ s', s'.2 = n ∧ ∃ D', updated fs s'.1 D' ∧ ready s'.1 n ∧ ∀ s, ¬ in_root (geo fs) s → D' s = disk fs s);
  ready_mono fs fs' n : fs_ok fs → ready fs n → geo fs' = geo fs → (∀ s, in_root (geo fs) s → disk fs' s = disk fs s) → ready fs' n
}.

#[export] Instance no_entry_syncs : Syncs no_entry (λ _ _, True).
Proof.
  split; [|done]. intros fs n0 n Hok _ _ _. apply wp_ret. split; [done|]. exists (disk fs). split; [by apply same_refl|]. done.
Qed.

Section growing.
Context (sync : nio unit) (ready : fat_fs → fat_node → Prop) `{!Syncs sync ready}.

(** A file that can be written. *)
Record writable (fs : fat_fs) (n : fat_node) (l : list Z) : Prop := {
  w_ok : fs_ok fs;
  w_rw : read_only (geo fs) = false;
  w_fat16 : fat12 (geo fs) = false;
  w_file : is_dir (ntype n) = false;
  w_holds : holds (geo fs) (disk fs) n l;
  w_ready : ready fs n
}.

Lemma data_not_table g count s : geo_ok g count → data_start g ≤ s → ¬ in_table g s ∧ ¬ in_root g s.
Proof. intros [] Hs. unfold in_table, in_root, SECTOR in *. lia. Qed.
Lemma root_not_table g count s : geo_ok g count → in_root g s → ¬ in_table g s.
Proof. intros [] Hs. unfold in_table, in_root, SECTOR in *. lia. Qed.
Lemma table_not_root g count D D' k c :
  geo_ok g count → 0 ≤ k < fats g → 0 ≤ c < cluster_count g + 2 → (∀ s, ¬ in_root g s → D' s = D s) → table g D' k c = table g D k c.
Proof.
  intros Hg Hk Hc H. destruct (entry_offsets _ _ c Hg Hc) as (_ & _ & H1 & H2). unfold table, byte_of.
  rewrite !H; [done|..]; intros Hs; eapply root_not_table; try done; unfold in_table.
  - pose proof (off_sector _ _ (eoff g c + 1) Hg ltac:(lia)) as [H3 _]. pose proof (sector_below _ _ k _ Hg Hk H3) as [? _]. lia.
  - pose proof (off_sector _ _ (eoff g c) Hg ltac:(lia)) as [H3 _]. pose proof (sector_below _ _ k _ Hg Hk H3) as [? _]. lia.
Qed.

(** The entries do not depend on a sector outside the table. *)
Lemma table_outside g count D D' k c s :
  geo_ok g count → 0 ≤ k < fats g → 0 ≤ c < cluster_count g + 2 → ¬ in_table g s → (∀ i, i ≠ s → D' i = D i) → table g D' k c = table g D k c.
Proof.
  intros Hg Hk Hc Hs H. destruct (entry_offsets _ _ c Hg Hc) as (_ & _ & H1 & H2). unfold table, byte_of.
  rewrite !H; [done|..]; intros <-; apply Hs; unfold in_table.
  - pose proof (off_sector _ _ (eoff g c + 1) Hg ltac:(lia)) as [H3 _]. pose proof (sector_below _ _ k _ Hg Hk H3) as [? _]. lia.
  - pose proof (off_sector _ _ (eoff g c) Hg ltac:(lia)) as [H3 _]. pose proof (sector_below _ _ k _ Hg Hk H3) as [? _]. lia.
Qed.

(** A cluster was put behind the last one of the chain. *)
Definition one_more (fs : fat_fs) (n : fat_node) (l : list Z) (c : Z) (s' : fat_fs * fat_node) : Prop :=
  ∃ D', updated fs s'.1 D' ∧ extends (geo fs) (disk fs) D' l [c] ∧ writable s'.1 s'.2 (l ++ [c]) ∧ grown n s'.2.

(** The first cluster of a file. *)
Lemma wp_take_first fs n :
  writable fs n [] → (∃ c, is_free (geo fs) (disk fs) c) →
  wp (take_cluster sync 0) (fs, n) (one_more fs n []).
Proof.
  intros [Hok Hro H16 Hf [Hfix Hst Hcur] Hrd] Hfree. pose proof (ok_geo _ Hok) as Hg. unfold take_cluster.
  eapply wp_bind_lift; [by apply wp_alloc_cluster|]. intros c fs1 (D1 & Hu1 & [He1 Hr1] & Hv & Ht).
  apply wp_bind_node. rewrite Hf. eapply wp_bind; [by apply (wp_ret tt (fs1, n) (λ _ s, s = (fs1, n)))|]. intros [] ? ->.
  cbn [truth negb Z.eqb]. set (n1 := set_cursor (set_first n c) 0 0). pose proof (up_geo _ _ _ Hu1) as Eg1.
  assert (grown n n1) as Hgr by (by exists c, 0, 0).
  eapply wp_bind; [apply wp_bind_set_node; fold n1; apply (sync_runs _ n)|].
  - apply Hu1.
  - by rewrite Eg1.
  - eapply ready_mono; [exact Hok|exact Hrd|done|]. intros s Hs. rewrite (up_disk _ _ _ Hu1). by apply Hr1, (root_not_table _ _ _ Hg).
  - exists c, (nsize n), 0, 0. by destruct n.
  - intros [] [fs2 n2] (En & D2 & Hu2 & Hrd2 & Hr2). cbn [fst snd] in *. subst n2. rewrite Eg1 in *. apply wp_ret.
    pose proof (up_geo _ _ _ Hu2) as Eg2. rewrite Eg1 in Eg2.
    assert (∀ x, valid_cluster (geo fs) x = true → table (geo fs) D2 0 x = if x =? c then end_marker (geo fs) else table (geo fs) (disk fs) 0 x) as HT.
    { intros x Hx%(valid_cluster_iff _ _ _ Hg). rewrite (table_not_root _ _ (disk fs1) D2 _ _ Hg) by (done || destruct Hg; lia).
      rewrite (table_ext _ D1) by apply Hu1. rewrite He1 by (destruct Hg; lia). unfold stored. by rewrite H16. }
    exists D2. cbn [fst snd]. split; [destruct Hu1, Hu2; split; congruence|]. split; [|split; [|done]].
    + split.
      * by repeat constructor.
      * intros x Hx Hin. rewrite HT by done. rewrite (proj2 (Z.eqb_neq x c)); [done|]. intros ->. apply Hin. by left.
      * intros s Hs. destruct (data_not_table _ _ _ Hg Hs). by rewrite Hr2, (up_disk _ _ _ Hu1), Hr1.
    + split; cbn [fst snd]; rewrite ?Eg2; try done; [apply Hu2|]. split; [done| |done]. apply chain_end; [done|].
      rewrite (table_ext _ D2) by apply Hu2. rewrite HT, Z.eqb_refl by done. apply end_of_marker.
Qed.

(** The next one. *)
Lemma wp_take_next fs n l p :
  writable fs n (l ++ [p]) → (∃ c, is_free (geo fs) (disk fs) c) →
  wp (take_cluster sync p) (fs, n) (one_more fs n (l ++ [p])).
Proof.
  intros [Hok Hro H16 Hf [Hfix Hst Hcur] Hrd] Hfree. pose proof (ok_geo _ Hok) as Hg. unfold take_cluster.
  assert (chain (geo fs) (table (geo fs) (disk fs) 0) (first_cluster n) (l ++ [p])) as Hch by (by destruct l).
  pose proof (chain_NoDup _ _ Hg _ _ _ Hch) as Hnd. apply NoDup_app in Hnd as (_ & Hdis & _).
  pose proof (chain_valid _ _ _ _ Hch) as Hvl. apply Forall_app in Hvl as [Hvl Hvp]. apply Forall_cons in Hvp as [Hvp _].
  eapply wp_bind_lift; [by apply wp_alloc_cluster|]. intros c fs1 (D1 & Hu1 & [He1 Hr1] & Hv & Ht).
  apply wp_bind_node. rewrite Hf. eapply wp_bind; [by apply (wp_ret tt (fs1, n) (λ _ s, s = (fs1, n)))|]. intros [] ? ->.
  pose proof (up_geo _ _ _ Hu1) as Eg1. pose proof (proj1 (valid_cluster_iff _ _ _ Hg) Hvp) as Hp. pose proof (proj1 (valid_cluster_iff _ _ _ Hg) Hv) as Hc.
  rewrite truth_nonzero by lia.
  eapply wp_bind_lift; [apply wp_fat_set_entry; [apply Hu1|by rewrite Eg1|rewrite Eg1; lia|]|].
  { rewrite Eg1. unfold entry_limit. destruct Hg. rewrite H16 in *. lia. }
  intros [] fs2 (D2 & Hu2 & [He2 Hr2]). rewrite Eg1 in *. pose proof (up_geo _ _ _ Hu2) as Eg2. rewrite Eg1 in Eg2. apply wp_ret.
  assert (p ≠ c) as Hpc.
  { intros ->. apply (chain_used _ _ _ _ _ c Hg Hch); [apply elem_of_app; right; by left|done]. }
  assert (∀ x, valid_cluster (geo fs) x = true → table (geo fs) D2 0 x =
    if x =? p then c else if x =? c then end_marker (geo fs) else table (geo fs) (disk fs) 0 x) as HT.
  { intros x Hx%(valid_cluster_iff _ _ _ Hg). rewrite He2 by (destruct Hg; lia). unfold stored. rewrite H16. cbn [andb].
    destruct (x =? p); [done|]. rewrite (table_ext _ D1) by apply Hu1. rewrite He1 by (destruct Hg; lia). unfold stored. by rewrite H16. }
  exists D2. cbn [fst snd]. split; [destruct Hu1, Hu2; split; congruence|]. split; [|split; [|apply grown_refl]].
  - split.
    + by repeat constructor.
    + intros x Hx Hin. rewrite !elem_of_app, !list_elem_of_singleton in Hin. rewrite HT, !(proj2 (Z.eqb_neq x _)) by naive_solver. done.
    + intros s Hs. destruct (data_not_table _ _ _ Hg Hs). by rewrite Hr2, (up_disk _ _ _ Hu1), Hr1.
  - split; rewrite ?Eg2; try done; [apply Hu2| |].
    + split; [done| |by apply cursor_ok_app]. rewrite <- app_assoc. cbn [app].
      assert (chain (geo fs) (table (geo fs) (disk fs2) 0) (first_cluster n) (l ++ [p; c])) as Hch2; [|by destruct l].
      eapply chain_snoc; [exact Hch|..]; intros; rewrite ?(table_ext _ D2) by apply Hu2.
      * rewrite Forall_forall in Hvl. rewrite HT by auto. rewrite !(proj2 (Z.eqb_neq x _)); [done|..].
        -- intros ->. apply (chain_used _ _ _ _ _ c Hg Hch); [apply elem_of_app; by left|done].
        -- intros ->. apply (Hdis p); [done|by left].
      * by rewrite HT, Z.eqb_refl.
      * done.
      * rewrite HT, (proj2 (Z.eqb_neq c p)), Z.eqb_refl by done. apply end_of_marker.
    + eapply ready_mono; [exact Hok|exact Hrd|done|]. intros s Hs. pose proof (root_not_table _ _ _ Hg Hs).
      by rewrite (up_disk _ _ _ Hu2), Hr2, (up_disk _ _ _ Hu1), Hr1.
Qed.
(** The chain of a node was made long enough for position [index], where [x] is. *)
Definition reaches (fs : fat_fs) (n : fat_node) (l : list Z) (index x : Z) (s' : fat_fs * fat_node) : Prop :=
  ∃ new D', updated fs s'.1 D' ∧ extends (geo fs) (disk fs) D' l new ∧ writable s'.1 s'.2 (l ++ new) ∧ grown n s'.2 ∧
    Z.of_nat (length (l ++ new)) = Z.max (Z.of_nat (length l)) (index + 1) ∧ (l ++ new) !! Z.to_nat index = Some x.

Lemma writable_same fs fs' n l : same fs fs' → writable fs n l → writable fs' n l.
Proof.
  intros Hs [Hok Hro H16 Hf Hh Hrd]. pose proof (up_geo _ _ _ Hs) as Eg. split; rewrite ?Eg; try done.
  - apply Hs.
  - rewrite <- Eg. by eapply holds_same.
  - eapply ready_mono; [exact Hok|exact Hrd|done|]. intros s _. apply Hs.
Qed.

Lemma reaches_same fs fs1 n l index x s' : same fs fs1 → reaches fs1 n l index x s' → reaches fs n l index x s'.
Proof.
  intros Hs (new & D' & Hu & [He1 He2 He3] & Hw & Hgr & Hl & Hx). rewrite (up_geo _ _ _ Hs) in *. exists new, D'.
  split; [destruct Hs, Hu; split; congruence|]. split; [|done]. split.
  - eapply Forall_impl; [exact He1|]. intros y [H1 H2]. split; [done|]. by rewrite <- (table_ext _ (disk fs) (disk fs1)) by apply Hs.
  - intros y Hy Hin. rewrite He2 by done. apply table_ext, Hs.
  - intros y Hy. rewrite He3 by done. apply Hs.
Qed.

(** A position of the chain, and then a later one. *)
Lemma reaches_trans fs n l i x fs1 n1 index y s' :
  writable fs n l → 0 ≤ i ≤ index → reaches fs n l i x (fs1, n1) →
  (∀ new, Z.of_nat (length (l ++ new)) = Z.max (Z.of_nat (length l)) (i + 1) → (l ++ new) !! Z.to_nat i = Some x →
     writable fs1 n1 (l ++ new) → reaches fs1 n1 (l ++ new) index y s') →
  reaches fs n l index y s'.
Proof.
  intros Hw Hi (a & D1 & Hu1 & Hx1 & Hw1 & Hg1 & Hl1 & Hi1) H. cbn [fst snd] in *.
  destruct (H a Hl1 Hi1 Hw1) as (b & D2 & Hu2 & Hx2 & Hw2 & Hg2 & Hl2 & Hi2).
  pose proof (ok_geo _ (w_ok _ _ _ Hw)) as Hg. pose proof (up_geo _ _ _ Hu1) as Eg. rewrite Eg in *.
  exists (a ++ b), D2. rewrite app_assoc. split; [destruct Hu1, Hu2; split; congruence|]. split; [|split; [done|split; [by eapply grown_trans|split; [lia|done]]]].
  eapply (extends_trans _ _ _ (disk fs1)); [exact Hg| |..|exact Hx2].
  - rewrite <- Eg. apply (w_holds _ _ _ Hw1).
  - destruct Hx1 as [F O R]. split; [done|..].
    + intros c Hv Hc. rewrite (table_ext _ D1) by apply Hu1. by apply O.
    + intros s Hs. rewrite (up_disk _ _ _ Hu1). by apply R.
Qed.

(** One round of the loop, up to the test. *)
Lemma wp_round fs n l i :
  writable fs n l → 0 ≤ i ≤ Z.of_nat (length l) → (i = Z.of_nat (length l) → ∃ c, is_free (geo fs) (disk fs) c) →
  let c := default 0 (l !! Z.to_nat i) in
  let prev := if i =? 0 then 0 else default 0 (l !! Z.to_nat (i - 1)) in
  wp (if c =? 0 then take_cluster sync prev else if negb (valid_cluster (geo fs) c) then fail (- EIO) else mret c) (fs, n)
    (λ x s', reaches fs n l i x s').
Proof.
  intros Hw Hi Hfree. pose proof (ok_geo _ (w_ok _ _ _ Hw)) as Hg.
  destruct (l !! Z.to_nat i) as [c|] eqn:El; cbn [from_option id].
  - pose proof (starts_valid _ _ _ _ (h_starts _ _ _ _ (w_holds _ _ _ Hw))) as Hv.
    apply (Forall_lookup_1 _ _ _ _ Hv) in El as Hc. rewrite Hc. apply (valid_cluster_iff _ _ _ Hg) in Hc.
    rewrite (proj2 (Z.eqb_neq c 0)) by lia. cbn [negb]. apply wp_ret. exists [], (disk fs). cbn [fst snd]. rewrite app_nil_r.
    split; [apply same_refl, Hw|]. split; [apply extends_nil|]. split; [done|]. split; [apply grown_refl|]. split; [|done].
    apply lookup_lt_Some in El. lia.
  - apply lookup_ge_None in El. cbn [Z.eqb].
    assert (∀ c s', one_more fs n l c s' → reaches fs n l i c s') as Hone.
    { intros c s' (D' & Hu & Hx & Hw' & Hgr). exists [c], D'. do 4 (split; [done|]). split; [rewrite length_app; simpl; lia|].
      rewrite lookup_app_r by lia. by replace (Z.to_nat i - length l)%nat with 0%nat by lia. }
    destruct (Z.eqb_spec i 0) as [->|Hi0].
    + destruct l; [|simpl in *; lia]. eapply wp_conseq; [apply wp_take_first; [done|by apply Hfree]|done].
    + destruct (exists_last (l := l)) as (l0 & p & E); [destruct l; simpl in *; [lia|done]|].
      assert (l !! Z.to_nat (i - 1) = Some p) as ->.
      { rewrite E in *. rewrite length_app in *. simpl in *. rewrite lookup_app_r by lia. by replace (Z.to_nat (i - 1) - length l0)%nat with 0%nat by lia. }
      cbn [from_option id]. rewrite E in *. eapply wp_conseq; [apply wp_take_next; [done|apply Hfree; lia]|]. exact Hone.
Qed.
Lemma wp_write_loop rounds fs n l i index :
  writable fs n l → 0 ≤ i ≤ index → i ≤ Z.of_nat (length l) → i + Z.of_nat rounds = cluster_count (geo fs) + 1 →
  enough (geo fs) (disk fs) (index + 1 - Z.of_nat (length l)) → index ≤ cluster_count (geo fs) →
  wp (write_loop sync rounds i index (default 0 (l !! Z.to_nat i)) (if i =? 0 then 0 else default 0 (l !! Z.to_nat (i - 1)))) (fs, n)
    (reaches fs n l index).
Proof.
  revert fs n l i. induction rounds as [|rounds IH]; intros fs n l i Hw Hi Hil Hr Hen Hix; [lia|].
  pose proof (ok_geo _ (w_ok _ _ _ Hw)) as Hg. cbn [write_loop]. apply wp_bind_lgeom.
  eapply wp_bind; [apply wp_round; [done|lia|]|].
  { intros ->. eapply enough_one; [|exact Hen]. lia. }
  intros x [fs1 n1] Hre1. destruct (Z.eqb_spec i index) as [->|Hne]; [by apply wp_ret|].
  pose proof Hre1 as (new & D1 & Hu1 & Hx1 & Hw1 & Hg1 & Hl1 & Hi1). cbn [fst snd] in *.
  pose proof (up_geo _ _ _ Hu1) as Eg1. set (l1 := l ++ new) in *.
  assert (chain (geo fs) (table (geo fs) (disk fs1) 0) x (drop (Z.to_nat i) l1)) as Hch.
  { pose proof (h_starts _ _ _ _ (w_holds _ _ _ Hw1)) as Hst. rewrite Eg1 in Hst. destruct l1; [done|]. by eapply chain_lookup. }
  assert (valid_cluster (geo fs) x = true) as Hv by (by inversion Hch). apply (valid_cluster_iff _ _ _ Hg) in Hv.
  eapply wp_bind_lift; [apply wp_fat_entry; [apply Hu1|rewrite Eg1; lia]|]. intros ? fs2 [-> Hs2]. rewrite Eg1.
  assert (wp (write_loop sync rounds (i + 1) index (default 0 (l1 !! Z.to_nat (i + 1)))
    (if i + 1 =? 0 then 0 else default 0 (l1 !! Z.to_nat (i + 1 - 1)))) (fs2, n1) (reaches fs2 n1 l1 index)) as Hrec.
  { pose proof (up_geo _ _ _ Hs2) as Eg2. rewrite Eg1 in Eg2. apply IH.
    - by eapply writable_same.
    - lia.
    - lia.
    - rewrite Eg2. lia.
    - rewrite Eg2. pose proof (enough_taken _ _ _ _ _ _ Hen (ext_other _ _ _ _ _ Hx1)) as H.
      assert (∀ x, x ∈ l → table (geo fs) (disk fs) 0 x ≠ 0) as Hused by (intros y Hy; eapply (starts_used _ _ _ _ _ _ Hg); [apply (w_holds _ _ _ Hw)|done]).
      destruct (H Hused) as (F & Hnd & HF & Hk). exists F. split; [done|]. split.
      + eapply Forall_impl; [exact HF|]. intros y [Hy1 Hy2]. split; [done|].
        by rewrite (table_ext _ (disk fs1)), (table_ext _ D1) by (apply Hs2 || apply Hu1).
      + unfold l1. rewrite length_app. lia.
    - rewrite Eg2. lia. }
  replace (i + 1 - 1) with i in Hrec by lia. rewrite Hi1, (proj2 (Z.eqb_neq (i + 1) 0)) in Hrec by lia. cbn [from_option id] in Hrec.
  assert (∀ y s', reaches fs2 n1 l1 index y s' → reaches fs n l index y s') as Hcomp.
  { intros y s' Hy. eapply reaches_trans; [done| |exact Hre1|]; [lia|]. intros new' Hl' Hi' Hw'.
    assert (l ++ new' = l1) as ->; [|by eapply reaches_same].
    pose proof (h_starts _ _ _ _ (w_holds _ _ _ Hw1)) as H1. pose proof (h_starts _ _ _ _ (w_holds _ _ _ Hw')) as H2.
    rewrite Eg1 in H1, H2. unfold l1 in *. destruct (l ++ new'), (l ++ new); try done. by eapply chain_unique. }
  assert (drop (Z.to_nat i) l1 = x :: drop (Z.to_nat (i + 1)) l1) as Edrop.
  { rewrite (drop_S _ x) by done. do 2 f_equal. lia. }
  rewrite Edrop in Hch. destruct (drop (Z.to_nat (i + 1)) l1) as [|y l'] eqn:Ed.
  - assert (is_end_of_chain (geo fs) (table (geo fs) (disk fs1) 0 x) = true) as -> by (inversion Hch as [|? ? ? ? Hnil]; [done|inversion Hnil]).
    rewrite lookup_ge_None_2 in Hrec by (apply (f_equal length) in Ed; rewrite length_drop in Ed; simpl in *; lia).
    cbn [from_option id] in Hrec. eapply wp_conseq; [exact Hrec|done].
  - inversion Hch as [|? ? _ Hn Hl]; subst. rewrite (valid_not_end _ _ _ Hg Hn), Hn. cbn [negb].
    destruct (chain_head _ _ _ _ Hl) as [l2 [= -> ->]]. rewrite <- (Nat.add_0_r (Z.to_nat (i + 1))), <- lookup_drop, Ed in Hrec.
    eapply wp_conseq; [exact Hrec|done].
Qed.

Lemma wp_cluster_for_write fs n l index :
  writable fs n l → 0 ≤ index → enough (geo fs) (disk fs) (index + 1 - Z.of_nat (length l)) → index ≤ cluster_count (geo fs) →
  wp (cluster_for_write sync index) (fs, n) (reaches fs n l index).
Proof.
  intros Hw Hi Hen Hix. pose proof (ok_geo _ (w_ok _ _ _ Hw)) as Hg. unfold cluster_for_write. apply wp_bind_lgeom, wp_bind_node.
  pose proof (wp_write_loop (S (Z.to_nat (cluster_count (geo fs)))) fs n l 0 index Hw) as H.
  assert (default 0 (l !! 0%nat) = first_cluster n) as E.
  { pose proof (h_starts _ _ _ _ (w_holds _ _ _ Hw)) as Hst. destruct l; [done|]. by destruct (chain_head _ _ _ _ Hst) as [? [= -> _]]. }
  change (Z.to_nat 0) with 0%nat in H. rewrite E in H. apply H; [lia|lia|destruct Hg; lia|done|done].
Qed.
(** ** Writing *)

(** Bytes were written at an offset of the chain [l], which grew by [new]. *)
Record wrote (g : geometry) (D D' : Z → list Z) (l new : list Z) (off : Z) (buf : list Z) : Prop := {
  wr_free : Forall (is_free g D) new;
  wr_other c : valid_cluster g c = true → c ∉ l ++ new → table g D' 0 c = table g D 0 c;
  wr_contents : contents g D' (l ++ new) = splice (contents g D (l ++ new)) (Z.to_nat off) buf;
  wr_rest s : data_start g ≤ s → s ∉ sectors g (l ++ new) → D' s = D s
}.

(** A sector's worth of bytes in a chain that was long enough. *)
Lemma wrote_chunk g count D D1 D2 l new f off c data :
  geo_ok g count → (∀ i, length (D i) = 512%nat) → 0 ≤ off → extends g D D1 l new → starts g D1 f (l ++ new) →
  (l ++ new) !! Z.to_nat (off / bytes_per_cluster g) = Some c → (Z.to_nat (off mod SECTOR) + length data ≤ 512)%nat →
  let s := cluster_start g c + (off mod bytes_per_cluster g) / SECTOR in
  (∀ i, D2 i = write_to D1 s (splice (D1 s) (Z.to_nat (off mod SECTOR)) data) i) →
  wrote g D D2 l new off data.
Proof.
  intros Hg HD Ho [F O R] Hst Hc Hlen s H2. pose proof (starts_valid _ _ _ _ Hst) as Hv.
  destruct (sector_in_eq _ _ _ _ _ Hg Hv Ho Hc) as (_ & Hin & Hr & _). fold s in Hin, Hr.
  assert (∀ i, i ∈ sectors g (l ++ new) → D1 i = D i) as Hsame.
  { intros i Hi. apply R. by apply (sector_range _ _ Hg _ _ Hv Hi). }
  split; [done| | |].
  - intros x Hx Hnot. rewrite <- O by done. apply (valid_cluster_iff _ _ _ Hg) in Hx.
    destruct (data_not_table _ _ _ Hg Hr) as [Ht _]. apply (table_outside _ _ _ _ _ _ s Hg); [destruct Hg; lia|lia|done|].
    intros i Hi. rewrite H2. unfold write_to. by rewrite (proj2 (Z.eqb_neq i s)).
  - rewrite <- (contents_write _ _ Hg D _ off c) by (done || by eapply starts_NoDup). apply contents_ext. intros i Hi. rewrite H2. fold s.
    unfold write_to. rewrite (Hsame s Hin). destruct (i =? s); [done|by apply Hsame].
  - intros i Hi Hnot. rewrite H2. unfold write_to. rewrite (proj2 (Z.eqb_neq i s)) by (by intros ->). by apply R.
Qed.

(** Two writes in a row. *)
Lemma wrote_app g count D D1 D2 l a b f off x y :
  geo_ok g count → (∀ i, length (D i) = 512%nat) → 0 ≤ off → starts g D1 f (l ++ a) → NoDup ((l ++ a) ++ b) → Forall (λ c, valid_cluster g c = true) b →
  wrote g D D1 l a off x → wrote g D1 D2 (l ++ a) b (off + Z.of_nat (length x)) y →
  off + Z.of_nat (length x) ≤ Z.of_nat (length (contents g D (l ++ a))) →
  off + Z.of_nat (length x) + Z.of_nat (length y) ≤ Z.of_nat (length (contents g D ((l ++ a) ++ b))) →
  wrote g D D2 l (a ++ b) off (x ++ y).
Proof.
  intros Hg HD Ho Hst Hnd Hvb [F1 O1 C1 R1] [F2 O2 C2 R2] Hx Hy.
  apply NoDup_app in Hnd as (_ & Hdis & _).
  assert (∀ c, c ∈ b → c ∉ l ++ a) as Hb by (intros c Hc Hin; by apply (Hdis c)).
  split; rewrite ?app_assoc.
  - apply Forall_app. split; [done|]. rewrite Forall_forall in *. intros c Hc. destruct (F2 c Hc) as [Hv Ht]. split; [done|].
    rewrite <- O1; auto.
  - intros c Hv Hc. rewrite O2, O1; [done|done| |done|done]. intros H. apply Hc, elem_of_app. by left.
  - rewrite C2, contents_app, C1.
    assert (contents g D1 b = contents g D b) as ->.
    { apply contents_ext. intros s Hs. apply R1; [by apply (sector_range _ _ Hg _ _ Hvb Hs)|]. by apply (sectors_disjoint _ _ Hg b). }
    rewrite <- splice_app_l, <- contents_app by lia. rewrite Z2Nat.inj_add, Nat2Z.id by lia. apply splice_splice. lia.
  - intros s Hs Hnot. rewrite sectors_app in Hnot. rewrite R2, R1; [done|done| |done|by rewrite sectors_app].
    intros H. apply Hnot, elem_of_app. by left.
Qed.
(** The position of the last cluster of a range of bytes. *)
Definition last_index (g : geometry) (off : Z) (buf : list Z) : Z := (off + Z.of_nat (length buf) - 1) / bytes_per_cluster g.

(** The clusters a chain of [k] has after a write. *)
Definition grown_length (g : geometry) (off : Z) (buf : list Z) (k : Z) : Z :=
  match buf with [] => k | _ => Z.max k (last_index g off buf + 1) end.

Lemma grown_length_eq g off buf k : buf ≠ [] → grown_length g off buf k = Z.max k (last_index g off buf + 1).
Proof. by destruct buf. Qed.

(** What a finished write did. *)
Definition write_done (fs : fat_fs) (n : fat_node) (l : list Z) (off : Z) (buf : list Z) (s' : fat_fs * fat_node) : Prop :=
  ∃ new D', updated fs s'.1 D' ∧ wrote (geo fs) (disk fs) D' l new off buf ∧ writable s'.1 s'.2 (l ++ new) ∧ grown n s'.2 ∧
    Z.of_nat (length (l ++ new)) = grown_length (geo fs) off buf (Z.of_nat (length l)).

Lemma same_cluster g count off k :
  geo_ok g count → 0 ≤ off → 0 < k → off mod SECTOR + k ≤ SECTOR → (off + k - 1) / bytes_per_cluster g = off / bytes_per_cluster g.
Proof.
  intros Hg Ho Hk Hm. pose proof (g_spc _ _ Hg). rewrite (g_bpc _ _ Hg), (Z.mul_comm (sectors_per_cluster g)). unfold SECTOR in *. rewrite <- !Z.div_div by lia. f_equal. dlia.
Qed.

(** The sector of one round, with its cluster, changed and written back. *)
Lemma wp_write_chunk fs n l off data :
  writable fs n l → 0 ≤ off → data ≠ [] → Forall byte data → (Z.to_nat (off mod SECTOR) + length data ≤ 512)%nat →
  enough (geo fs) (disk fs) (off / bytes_per_cluster (geo fs) + 1 - Z.of_nat (length l)) →
  off / bytes_per_cluster (geo fs) ≤ cluster_count (geo fs) →
  wp (cluster_for_write sync (off / bytes_per_cluster (geo fs))) (fs, n) (λ c s1,
    wp (read_sector (sector_in (geo fs) c off)) s1.1 (λ s fs2,
      wp (write_sector (sector_in (geo fs) c off) (splice s (Z.to_nat (off mod SECTOR)) data)) fs2 (λ _ fs3,
        write_done fs n l off data (fs3, s1.2)))).
Proof.
  intros Hw Ho Hne Hb Hlen Hen Hix. pose proof (ok_geo _ (w_ok _ _ _ Hw)) as Hg. pose proof (ok_disk _ (w_ok _ _ _ Hw)) as HD.
  assert (0 < bytes_per_cluster (geo fs)) as Hbpc by (destruct Hg; unfold SECTOR in *; lia).
  eapply wp_conseq; [apply (wp_cluster_for_write _ _ l); [done|by apply Z.div_pos|done|done]|].
  intros c [fs1 n1] (new & D1 & Hu1 & Hx1 & Hw1 & Hg1 & Hl1 & Hi1). cbn [fst snd] in *.
  pose proof (up_geo _ _ _ Hu1) as Eg1. pose proof (h_starts _ _ _ _ (w_holds _ _ _ Hw1)) as Hst. rewrite Eg1 in Hst.
  pose proof (starts_valid _ _ _ _ Hst) as Hv. destruct (sector_in_eq _ _ _ _ _ Hg Hv Ho Hi1) as (-> & Hin & Hr).
  set (s := cluster_start (geo fs) c + _) in *. destruct (data_not_table _ _ _ Hg (proj1 Hr)) as [Hnt Hnr].
  assert (0 ≤ s < block_count (dev fs)) as Hs by (destruct Hg; unfold SECTOR in *; lia).
  eapply wp_conseq; [apply wp_read_sector; [apply Hu1|by rewrite (up_count _ _ _ Hu1)]|]. intros ? fs2 [-> Hs2].
  pose proof (up_geo _ _ _ Hs2) as Eg2. rewrite Eg1 in Eg2. destruct (ok_disk _ (up_ok _ _ _ Hu1) s) as [Hl Hby].
  eapply wp_conseq; [apply wp_write_sector|].
  - apply Hs2.
  - rewrite Eg2. apply Hw.
  - by rewrite (up_count _ _ _ Hs2), (up_count _ _ _ Hu1).
  - rewrite length_splice; [done|lia].
  - by apply splice_Forall.
  - intros [] fs3 Hu3. cbn beta in Hu3. pose proof (up_geo _ _ _ Hu3) as Eg3. rewrite Eg2 in Eg3.
    assert (∀ i, disk fs3 i = write_to (disk fs1) s (splice (disk fs1 s) (Z.to_nat (off mod SECTOR)) data) i) as H3.
    { intros i. rewrite (up_disk _ _ _ Hu3). unfold write_to. destruct (i =? s); [done|apply Hs2]. }
    exists new, (disk fs3). cbn [fst snd]. split; [destruct Hu1, Hs2, Hu3; split; congruence|]. split; [|split; [|split; [done|]]].
    + eapply (wrote_chunk _ _ _ (disk fs1)); [exact Hg|intros i; apply HD|done| |exact Hst|exact Hi1|done|exact H3].
      destruct Hx1 as [F O R]. split; [done|..].
      * intros x Hx Hnot. rewrite (table_ext _ D1) by apply Hu1. by apply O.
      * intros i Hi. rewrite (up_disk _ _ _ Hu1). by apply R.
    + destruct Hw1 as [_ Hro H16 Hf [Hfix _ Hcur] Hrd]. rewrite Eg1 in *.
      split; rewrite ?Eg3; try done; [apply Hu3| |].
      * split; [done| |done]. destruct (l ++ new) as [|y k] eqn:El; [done|]. eapply cluster_chain_ext; [|exact Hst]. intros x Hx.
        rewrite Forall_forall in Hv. apply Hv, (valid_cluster_iff _ _ _ Hg) in Hx.
        apply (table_outside _ _ _ _ _ _ s Hg); [destruct Hg; lia|lia|done|]. intros i Hi. rewrite H3. unfold write_to. by rewrite (proj2 (Z.eqb_neq i s)).
      * eapply ready_mono; [apply Hu1|exact Hrd|congruence|]. intros i Hi. rewrite Eg1 in Hi. rewrite H3. unfold write_to.
        rewrite (proj2 (Z.eqb_neq i s)); [done|]. by intros ->.
    + rewrite grown_length_eq, Hl1 by done. unfold last_index. rewrite (same_cluster _ _ _ _ Hg Ho); [done|destruct data; simpl; [done|lia]|].
      unfold SECTOR in *. dlia.
Qed.
Lemma wrote_ext g D D1 D2 l new off buf : (∀ i, D2 i = D1 i) → wrote g D D1 l new off buf → wrote g D D2 l new off buf.
Proof.
  intros H [F O C R]. split; [done| | |].
  - intros c Hv Hc. rewrite (table_ext _ D1) by done. by apply O.
  - rewrite <- C. by apply contents_ext.
  - intros s Hs Hn. rewrite H. by apply R.
Qed.

(** A chain up to the last cluster of a range has its bytes. *)
Lemma last_index_bytes g count D off buf l :
  geo_ok g count → (∀ i, length (D i) = 512%nat) → 0 ≤ off → last_index g off buf + 1 ≤ Z.of_nat (length l) →
  off + Z.of_nat (length buf) ≤ Z.of_nat (length (contents g D l)).
Proof.
  intros Hg HD Ho Hl. rewrite (length_contents _ _ Hg) by done. unfold last_index in Hl.
  assert (0 < bytes_per_cluster g) by (destruct Hg; unfold SECTOR in *; lia).
  pose proof (Z.div_mod (off + Z.of_nat (length buf) - 1) (bytes_per_cluster g) ltac:(lia)).
  pose proof (Z.mod_pos_bound (off + Z.of_nat (length buf) - 1) (bytes_per_cluster g) ltac:(lia)). nia.
Qed.

(** A write and then the rest of it. *)
Lemma write_done_app fs n l off x y fs1 n1 a D1 s' :
  writable fs n l → 0 ≤ off → x ≠ [] → updated fs fs1 D1 → wrote (geo fs) (disk fs) D1 l a off x → grown n n1 →
  Z.of_nat (length (l ++ a)) = grown_length (geo fs) off x (Z.of_nat (length l)) → writable fs1 n1 (l ++ a) →
  write_done fs1 n1 (l ++ a) (off + Z.of_nat (length x)) y s' → write_done fs n l off (x ++ y) s'.
Proof.
  intros Hw Ho Hx Hu1 Hwr1 Hg1 Hl1 Hw1 (b & D2 & Hu2 & Hwr2 & Hw2 & Hg2 & Hl2).
  pose proof (ok_geo _ (w_ok _ _ _ Hw)) as Hg. pose proof (ok_disk _ (w_ok _ _ _ Hw)) as HD. pose proof (up_geo _ _ _ Hu1) as Eg1. rewrite Eg1 in *.
  pose proof (h_starts _ _ _ _ (w_holds _ _ _ Hw1)) as Hst1. rewrite Eg1 in Hst1.
  pose proof (h_starts _ _ _ _ (w_holds _ _ _ Hw2)) as Hst2. rewrite (up_geo _ _ _ Hu2), Eg1 in Hst2.
  assert (last_index (geo fs) (off + Z.of_nat (length x)) y = last_index (geo fs) off (x ++ y)) as Eli
    by (unfold last_index; rewrite length_app; f_equal; lia).
  assert (last_index (geo fs) off (x ++ y) + 1 ≤ Z.of_nat (length ((l ++ a) ++ b)) ∧
    Z.of_nat (length ((l ++ a) ++ b)) = Z.max (Z.of_nat (length l)) (last_index (geo fs) off (x ++ y) + 1)) as [Hlast Hlen].
  { assert (last_index (geo fs) off x ≤ last_index (geo fs) off (x ++ y)) as Hle.
    { apply Z.div_le_mono; [destruct Hg; unfold SECTOR in *; lia|]. rewrite length_app. lia. }
    rewrite grown_length_eq in Hl1 by done. destruct y as [|y0 y'] eqn:Ey; cbn [grown_length] in Hl2; [rewrite app_nil_r; lia|lia]. }
  exists (a ++ b), D2. rewrite app_assoc. split; [destruct Hu1, Hu2; split; congruence|]. split; [|split; [done|split; [by eapply grown_trans|]]].
  - rewrite grown_length_eq in Hl1 by done.
    eapply (wrote_app _ _ _ (disk fs1)); [exact Hg|intros i; apply HD|done|exact Hst1|by eapply starts_NoDup| | |exact Hwr2|..].
    + pose proof (starts_valid _ _ _ _ Hst2) as Hv. by apply Forall_app in Hv as [_ Hv].
    + eapply wrote_ext; [|exact Hwr1]. apply Hu1.
    + apply (last_index_bytes _ _ _ _ _ _ Hg); [intros i; apply HD|done|lia].
    + rewrite <- Z.add_assoc, <- Nat2Z.inj_add, <- length_app. apply (last_index_bytes _ _ _ _ _ _ Hg); [intros i; apply HD|done|lia].
  - rewrite grown_length_eq; [lia|]. by destruct x.
Qed.

Lemma write_round fuel fs n off buf done c fs1 n1 s fs2 fs3 :
  let k := chunk_of off (Z.of_nat (length buf)) in
  buf ≠ [] → fixed_root n = false →
  cluster_for_write sync (off / bytes_per_cluster (geo fs)) (fs, n) = (Good c, (fs1, n1)) →
  read_sector (sector_in (geo fs) c off) fs1 = (Good s, fs2) →
  write_sector (sector_in (geo fs) c off) (splice s (Z.to_nat (off mod SECTOR)) (take (Z.to_nat k) buf)) fs2 = (Good tt, fs3) →
  node_write_loop sync (S fuel) off buf done (fs, n) =
    node_write_loop sync fuel (u32 (off + k)) (drop (Z.to_nat k) buf) (done + k) (fs3, n1).
Proof.
  intros k Hne Hfix E1 E2 E3. unfold k in *. clear k. destruct buf as [|b0 buf0] eqn:Eb; [done|]. rewrite <- Eb in *. rewrite Eb at 1. cbn [node_write_loop].
  rewrite <- Eb. unfold mbind, st_bind, lift, geom, node, try. rewrite Hfix, E1. unfold mret, st_ret. rewrite E2, E3. done.
Qed.

Lemma wp_node_write_loop fuel fs n l off buf done :
  writable fs n l → 0 ≤ off → off + Z.of_nat (length buf) < 2 ^ 32 → (length buf ≤ fuel)%nat → Forall byte buf →
  (buf ≠ [] → enough (geo fs) (disk fs) (last_index (geo fs) off buf + 1 - Z.of_nat (length l))) →
  wp (node_write_loop sync fuel off buf done) (fs, n) (λ r s', r = done + Z.of_nat (length buf) ∧ write_done fs n l off buf s').
Proof.
  revert fs n l off buf done. induction fuel as [|fuel IH]; intros fs n l off buf done Hw Ho Hof Hfuel Hby Hen.
  all: destruct buf as [|b0 buf0] eqn:Ebuf;
    [apply wp_ret; split; [simpl; lia|]; exists [], (disk fs); rewrite app_nil_r; cbn [fst snd];
     split; [apply same_refl, Hw|]; split; [split; try done; by rewrite app_nil_r, splice_nil|]; by split; [|split; [apply grown_refl|]]|].
  { simpl in Hfuel. lia. }
  rewrite <- Ebuf in *. assert (buf ≠ []) as Hne by (by rewrite Ebuf).
  assert (0 < Z.of_nat (length buf)) as Hlen by (rewrite Ebuf; simpl; lia).
  pose proof (ok_geo _ (w_ok _ _ _ Hw)) as Hg. pose proof (ok_disk _ (w_ok _ _ _ Hw)) as HD.
  assert (0 < bytes_per_cluster (geo fs)) as Hbpc by (destruct Hg; unfold SECTOR in *; lia).
  destruct (chunk_range off (Z.of_nat (length buf))) as [Hch1 Hch2]; [lia..|]. set (k := chunk_of off (Z.of_nat (length buf))) in *.
  set (x := take (Z.to_nat k) buf). set (y := drop (Z.to_nat k) buf).
  assert (x ++ y = buf) as Exy by apply take_drop. assert (length x = Z.to_nat k) as Hx by (unfold x; rewrite length_take; lia).
  assert (Z.of_nat (length x) + Z.of_nat (length y) = Z.of_nat (length buf)) as Hy by (rewrite <- Exy, length_app; lia).
  assert (off / bytes_per_cluster (geo fs) ≤ last_index (geo fs) off buf) as Hli by (apply Z.div_le_mono; lia).
  pose proof (enough_bound _ _ _ _ _ _ Hg (h_starts _ _ _ _ (w_holds _ _ _ Hw)) (Hen Hne)) as Hbound.
  destruct (wp_write_chunk fs n l off x) as (c & [fs1 n1] & E1 & s & fs2 & E2 & [] & fs3 & E3 & Hdone); try done.
  { intros E. rewrite E in Hx. simpl in Hx. lia. }
  { by apply Forall_take. }
  { rewrite Hx. unfold SECTOR in *. clear -Hch1 Hch2 Ho. dlia. }
  { eapply enough_mono; [|by apply Hen]. lia. }
  { lia. }
  cbn [fst snd] in *. unfold wp. rewrite (write_round fuel _ _ _ _ _ _ _ _ _ _ _ Hne (h_chain _ _ _ _ (w_holds _ _ _ Hw)) E1 E2 E3).
  fold k y. rewrite u32_small by lia. destruct Hdone as (a & D3 & Hu3 & Hwr3 & Hw3 & Hg3 & Hl3). cbn [fst snd] in *.
  pose proof (up_geo _ _ _ Hu3) as Eg3.
  assert (x ≠ []) as Hxne by (intros E; rewrite E in Hx; simpl in Hx; lia).
  destruct (IH fs3 n1 (l ++ a) (off + k) y (done + k)) as (r & s' & E & -> & Hd'); try done.
  - lia.
  - lia.
  - lia.
  - by apply Forall_drop.
  - intros _. rewrite Eg3. replace (last_index (geo fs) (off + k) y) with (last_index (geo fs) off buf) by (unfold last_index; f_equal; lia).
    pose proof (λ z Hz, starts_used _ _ _ _ _ z Hg (h_starts _ _ _ _ (w_holds _ _ _ Hw)) Hz) as Hused.
    destruct (enough_taken _ _ (disk fs3) _ _ _ (Hen Hne) (wr_other _ _ _ _ _ _ _ (wrote_ext _ _ _ (disk fs3) _ _ _ _ (up_disk _ _ _ Hu3) Hwr3)) Hused)
      as (F & HF1 & HF2 & HF3). exists F. split; [done|]. split; [done|]. rewrite length_app. lia.
  - exists (done + k + Z.of_nat (length y)), s'. split; [done|]. split; [lia|]. rewrite <- Exy.
    apply (write_done_app _ _ _ _ _ _ _ _ _ _ _ Hw Ho Hxne Hu3 Hwr3 Hg3 Hl3 Hw3). by replace (off + Z.of_nat (length x)) with (off + k) by lia.
Qed.
End growing.

(** ** The root directory *)

(** An entry of the fixed root directory, and its 32 bytes. *)
Definition root_slot (g : geometry) (off : Z) : Prop := 0 ≤ off ∧ off mod DIRENT_SIZE = 0 ∧ off + DIRENT_SIZE ≤ root_bytes g.
Definition root_sector (g : geometry) (off : Z) : Z := root_start g + off / SECTOR.
Definition root_entry (g : geometry) (D : Z → list Z) (off : Z) : list Z :=
  take 32 (drop (Z.to_nat (off mod SECTOR)) (D (root_sector g off))).

Lemma root_sector_range g count off : geo_ok g count → root_slot g off →
  in_root g (root_sector g off) ∧ 0 ≤ root_sector g off < count ∧ off mod SECTOR + 32 ≤ SECTOR ∧ chunk_of off 32 = 32.
Proof.
  intros [] (H0 & Hm & Hb). unfold in_root, root_sector, SECTOR, chunk_of in *.
  assert (root_start g ≤ root_start g + off / 512 < data_start g) by dlia.
  assert (0 ≤ cluster_count g * sectors_per_cluster g) by nia. unfold SECTOR. split; [done|]. split; [nia|].
  split; [dlia|]. case_if; dlia.
Qed.

Lemma length_root_entry fs off : fs_ok fs → root_slot (geo fs) off → length (root_entry (geo fs) (disk fs) off) = 32%nat.
Proof.
  intros Hok Hs. destruct (root_sector_range _ _ _ (ok_geo _ Hok) Hs) as (_ & _ & H & _). unfold root_entry.
  destruct (ok_disk _ Hok (root_sector (geo fs) off)) as [Hl _]. rewrite length_take, length_drop, Hl. unfold SECTOR in *. dlia.
Qed.

(** A round of the loops on the root directory. *)
Lemma read_root_round fuel fs n off len done s fs1 :
  fixed_root n = true → Z.of_nat (length done) < len → off < root_bytes (geo fs) →
  read_sector (u32 (root_start (geo fs) + off / SECTOR)) fs = (Good s, fs1) →
  let k := chunk_of off (len - Z.of_nat (length done)) in
  node_read_loop (S fuel) off len done (fs, n) =
    node_read_loop fuel (u32 (off + k)) len (done ++ take (Z.to_nat k) (drop (Z.to_nat (off mod SECTOR)) s)) (fs1, n).
Proof.
  intros Hfix Hl Ho E k. cbn [node_read_loop]. rewrite (proj2 (Z.ltb_lt _ _)) by done. cbn [negb].
  unfold mbind, st_bind, lift, geom, node, mret, st_ret, try. rewrite Hfix, Z.geb_leb, (proj2 (Z.leb_gt _ _)) by lia. by rewrite E.
Qed.

Lemma read_loop_done fuel off len done s :
  len ≤ Z.of_nat (length done) → node_read_loop fuel off len done s = (Good done, s).
Proof. intros H. destruct fuel; cbn [node_read_loop]; by rewrite (proj2 (Z.ltb_ge _ _)) by lia. Qed.

Lemma write_root_round sync fuel fs n off buf done s fs1 fs2 :
  fixed_root n = true → buf ≠ [] →
  read_sector (u32 (root_start (geo fs) + off / SECTOR)) fs = (Good s, fs1) →
  let k := chunk_of off (Z.of_nat (length buf)) in
  write_sector (u32 (root_start (geo fs) + off / SECTOR)) (splice s (Z.to_nat (off mod SECTOR)) (take (Z.to_nat k) buf)) fs1 = (Good tt, fs2) →
  node_write_loop sync (S fuel) off buf done (fs, n) =
    node_write_loop sync fuel (u32 (off + k)) (drop (Z.to_nat k) buf) (done + k) (fs2, n).
Proof.
  intros Hfix Hne E1 k E2. unfold k in *. clear k. destruct buf as [|b0 buf0] eqn:Eb; [done|]. rewrite <- Eb in *. rewrite Eb at 1. cbn [node_write_loop].
  rewrite <- Eb. unfold mbind, st_bind, lift, geom, node, try, mret, st_ret. rewrite Hfix, E1, E2. done.
Qed.

Lemma wp_root_read fs n off :
  fs_ok fs → fixed_root n = true → root_slot (geo fs) off →
  wp (node_read off DIRENT_SIZE) (fs, n) (λ e s', e = root_entry (geo fs) (disk fs) off ∧ same fs s'.1 ∧ s'.2 = n).
Proof.
  intros Hok Hfix Hs. pose proof (ok_geo _ Hok) as Hg. destruct (root_sector_range _ _ _ Hg Hs) as (H1 & H2 & H3 & H4).
  destruct (wp_read_sector fs (root_sector (geo fs) off) Hok H2) as (d & fs1 & E & -> & Hs1).
  pose proof (length_root_entry _ _ Hok Hs) as Hlen. destruct Hs as (Ho & Hm & Hb).
  exists (root_entry (geo fs) (disk fs) off), (fs1, n). split; [|done].
  unfold node_read in *. change (Z.to_nat 32) with (S 31).
  rewrite (read_root_round 31 _ _ _ _ _ (disk fs (root_sector (geo fs) off)) fs1);
    [|done|simpl; lia|lia|rewrite u32_small by (destruct Hg; unfold root_sector in *; lia); done].
  cbn [length]. change (32 - Z.of_nat 0) with 32. rewrite H4. fold (root_entry (geo fs) (disk fs) off).
  apply read_loop_done. cbn [app]. by rewrite Hlen.
Qed.

Lemma wp_root_write sync fs n off e :
  fs_ok fs → read_only (geo fs) = false → fixed_root n = true → root_slot (geo fs) off → length e = 32%nat → Forall byte e →
  wp (node_write_with sync off e) (fs, n) (λ r s', r = 32 ∧ s'.2 = n ∧
    updated fs s'.1 (write_to (disk fs) (root_sector (geo fs) off) (splice (disk fs (root_sector (geo fs) off)) (Z.to_nat (off mod SECTOR)) e))).
Proof.
  intros Hok Hro Hfix Hs Hl Hby. pose proof (ok_geo _ Hok) as Hg. destruct (root_sector_range _ _ _ Hg Hs) as (H1 & H2 & H3 & H4).
  destruct (wp_read_sector fs (root_sector (geo fs) off) Hok H2) as (d & fs1 & E & -> & Hs1).
  destruct (ok_disk _ Hok (root_sector (geo fs) off)) as [Hdl Hdb].
  destruct (wp_write_sector fs1 (root_sector (geo fs) off) (splice (disk fs (root_sector (geo fs) off)) (Z.to_nat (off mod SECTOR)) e)) as ([] & fs2 & E2 & Hu2).
  { apply Hs1. }
  { by rewrite (up_geo _ _ _ Hs1). }
  { by rewrite (up_count _ _ _ Hs1). }
  { rewrite length_splice; [done|]. rewrite Hl, Hdl. unfold SECTOR in *. clear -H3. dlia. }
  { by apply splice_Forall. }
  destruct Hs as (Ho & Hm & Hb). exists 32, (fs2, n). split.
  - unfold node_write_with, mbind, st_bind, lift, geom, node. rewrite Hfix. cbn [andb]. 
    rewrite Z.geb_leb, (proj2 (Z.leb_gt _ _)), Z.gtb_ltb, (proj2 (Z.ltb_ge _ _)), Hl by lia.
    rewrite (write_root_round sync 31 _ _ _ _ _ (disk fs (root_sector (geo fs) off)) fs1 fs2); rewrite ?Hl.
    + change (Z.of_nat 32) with 32. rewrite H4, drop_ge by (rewrite Hl; done). done.
    + done.
    + by destruct e.
    + rewrite u32_small by (destruct Hg; unfold root_sector in *; lia). done.
    + change (Z.of_nat 32) with 32. rewrite H4, take_ge by (rewrite Hl; done).
      rewrite u32_small by (destruct Hg; unfold root_sector in *; lia). done.
  - split; [done|]. split; [done|]. cbn [fst]. split; [apply Hu2|by rewrite (up_geo _ _ _ Hu2), (up_geo _ _ _ Hs1)|
      by rewrite (up_count _ _ _ Hu2), (up_count _ _ _ Hs1)|].
    intros i. rewrite (up_disk _ _ _ Hu2). unfold write_to. destruct (i =? _); [done|apply Hs1].
Qed.

(** *** [sync_entry] for a file of the root directory *)

Definition deleted (e : list Z) : bool := aget 0 e 0 =? ENTRY_DELETED.

Definition entry_ready (fs : fat_fs) (n : fat_node) : Prop :=
  has_entry n = true → entry_dir_fixed n = true ∧ root_slot (geo fs) (entry_off n) ∧ deleted (root_entry (geo fs) (disk fs) (entry_off n)) = false.

Lemma wp_within {A} n' (m : nio A) fs n (P : A → fat_fs → Prop) :
  wp m (fs, n') (λ a s', P a s'.1) → wp (within n' m) (fs, n) (λ a s', P a s'.1 ∧ s'.2 = n).
Proof. intros (a & [fs1 n1] & E & HP). exists a, (fs1, n). unfold within. by rewrite E. Qed.

Lemma wp_read_entry fs n off :
  fs_ok fs → fixed_root n = true → root_slot (geo fs) off →
  wp (read_entry off) (fs, n) (λ e s', e = root_entry (geo fs) (disk fs) off ∧ same fs s'.1 ∧ s'.2 = n).
Proof.
  intros Hok Hfix Hs. unfold read_entry. eapply wp_bind; [apply wp_attempt, wp_root_read; done|].
  intros ? s' (? & -> & -> & Hs' & Hn). rewrite (length_root_entry _ _ Hok Hs). by apply wp_ret.
Qed.

Lemma wp_write_entry sync fs n off e err :
  fs_ok fs → read_only (geo fs) = false → fixed_root n = true → root_slot (geo fs) off → length e = 32%nat → Forall byte e →
  wp (write_all (node_write_with sync) off e err) (fs, n) (λ _ s', s'.2 = n ∧
    updated fs s'.1 (write_to (disk fs) (root_sector (geo fs) off) (splice (disk fs (root_sector (geo fs) off)) (Z.to_nat (off mod SECTOR)) e))).
Proof.
  intros Hok Hro Hfix Hs Hl Hby. unfold write_all. eapply wp_bind; [apply wp_attempt, wp_root_write; done|].
  intros ? s' (? & -> & -> & Hs' & Hn). rewrite Hl. by apply wp_ret.
Qed.

Lemma root_entry_bytes fs off : fs_ok fs → Forall byte (root_entry (geo fs) (disk fs) off).
Proof. intros Hok. apply Forall_take, Forall_drop, Hok. Qed.

(** The entry that was written is read back; the other ones are as they were. *)
Lemma root_entry_write g count D off off' e :
  geo_ok g count → (∀ i, length (D i) = 512%nat) → root_slot g off → root_slot g off' → length e = 32%nat →
  root_entry g (write_to D (root_sector g off) (splice (D (root_sector g off)) (Z.to_nat (off mod SECTOR)) e)) off' =
    if off' =? off then e else root_entry g D off'.
Proof.
  intros Hg HD Hs Hs' Hl. destruct (root_sector_range _ _ _ Hg Hs) as (_ & _ & H3 & _). unfold root_entry, write_to at 1.
  destruct (Z.eqb_spec off' off) as [->|Hne].
  - rewrite Z.eqb_refl. rewrite <- Hl at 1. apply take_drop_splice. rewrite Hl, HD. unfold SECTOR in *. clear -H3. dlia.
  - destruct (Z.eqb_spec (root_sector g off') (root_sector g off)) as [E|E]; [|done]. rewrite E.
    destruct Hs as (Ho & Hm & _), Hs' as (Ho' & Hm' & _). unfold root_sector, SECTOR in *.
    apply list_eq. intros i. destruct (decide (i < 32)%nat) as [Hi|Hi]; [|by rewrite !lookup_take_ge by lia].
    rewrite !lookup_take_lt, !lookup_drop by lia. apply lookup_splice_ne; [rewrite Hl, HD; clear -H3; dlia|].
    rewrite Hl. clear -Hi E Hne Ho Hm Ho' Hm'. dlia.
Qed.

Lemma put_le16_ok e o v : length e = 32%nat → Forall byte e → length (put_le16 e o v) = 32%nat ∧ Forall byte (put_le16 e o v).
Proof. intros Hl Hb. unfold put_le16. rewrite !length_aset. split; [done|]. repeat apply aset_Forall; try done; apply u8_range. Qed.
Lemma put_le32_ok e o v : length e = 32%nat → Forall byte e → length (put_le32 e o v) = 32%nat ∧ Forall byte (put_le32 e o v).
Proof. intros Hl Hb. unfold put_le32. rewrite !length_aset. split; [done|]. repeat apply aset_Forall; try done; apply u8_range. Qed.

(** What [sync_entry] puts into the entry. *)
Definition synced (e : list Z) (n : fat_node) : list Z :=
  put_le32 (put_le16 e 26 (first_cluster n)) 28 (if is_dir (ntype n) then 0 else nsize n).

Lemma wp_sync_entry fs n :
  fs_ok fs → read_only (geo fs) = false → entry_ready fs n → has_entry n = true →
  wp sync_entry (fs, n) (λ _ s', s'.2 = n ∧ updated fs s'.1 (write_to (disk fs) (root_sector (geo fs) (entry_off n))
    (splice (disk fs (root_sector (geo fs) (entry_off n))) (Z.to_nat (entry_off n mod SECTOR))
       (synced (root_entry (geo fs) (disk fs) (entry_off n)) n)))).
Proof.
  intros Hok Hro Hrd He. destruct (Hrd He) as (Hfix & Hs & Hdel). unfold sync_entry. apply wp_bind_node. rewrite He. cbn [negb].
  set (D' := write_to _ _ _). eapply wp_conseq; [apply (wp_within _ _ _ _ (λ _ fs', updated fs fs' D'))|by intros [] s' [H1 H2]].
  rewrite Hfix. eapply wp_bind; [by apply wp_read_entry|]. intros e [fs1 n1] (-> & Hs1 & Hn1). cbn [fst snd] in *. subst n1.
  unfold deleted in Hdel. rewrite Hdel. pose proof (up_geo _ _ _ Hs1) as Eg.
  pose proof (length_root_entry _ _ Hok Hs) as Hl. pose proof (root_entry_bytes fs (entry_off n) Hok) as Hby.
  destruct (put_le16_ok _ 26 (first_cluster n) Hl Hby) as [Hl1 Hb1].
  destruct (put_le32_ok _ 28 (if is_dir (ntype n) then 0 else nsize n) Hl1 Hb1) as [Hl2 Hb2].
  eapply wp_conseq; [apply wp_write_entry|]; [apply Hs1|by rewrite Eg|done|by rewrite Eg|done|done|].
  intros [] s' [_ Hu]. rewrite Eg in Hu. split; [apply Hu|by rewrite (up_geo _ _ _ Hu)|by rewrite (up_count _ _ _ Hu), (up_count _ _ _ Hs1)|].
  intros i. rewrite (up_disk _ _ _ Hu). unfold D', write_to, synced. rewrite (up_disk _ _ _ Hs1). destruct (i =? _); [done|apply Hs1].
Qed.

Lemma synced_deleted e n : length e = 32%nat → deleted (synced e n) = deleted e.
Proof.
  intros Hl. unfold deleted, synced, put_le32, put_le16. by rewrite !aget_aset_ne by (rewrite ?length_aset; lia).
Qed.

(** The bytes [sync_entry] changes, and that it takes the last of several calls. *)
Lemma synced_eq e n : length e = 32%nat →
  let v := first_cluster n in let z := if is_dir (ntype n) then 0 else nsize n in
  synced e n = take 26 e ++ [u8 v; u8 (Z.shiftr v 8); u8 z; u8 (Z.shiftr z 8); u8 (Z.shiftr z 16); u8 (Z.shiftr z 24)].
Proof.
  intros Hl v z. unfold synced, put_le32, put_le16. fold v z. do 32 (destruct e as [|? e]; [done|]). by destruct e.
Qed.

Lemma synced_synced e n n' : length e = 32%nat → length (synced e n) = 32%nat → synced (synced e n) n' = synced e n'.
Proof.
  intros Hl Hl'. rewrite !(synced_eq _ n') by done. by rewrite (synced_eq e n), take_app_length' by (rewrite ?length_take; lia).
Qed.

Lemma synced_ok e n : length e = 32%nat → Forall byte e → length (synced e n) = 32%nat ∧ Forall byte (synced e n).
Proof. intros Hl Hb. unfold synced. apply put_le32_ok; by apply put_le16_ok. Qed.

(** The fields say what the node says, and an entry that says so is not changed. *)
Definition fields_agree (e : list Z) (n : fat_node) : Prop := le16 e 26 = first_cluster n ∧ le32 e 28 = nsize n.

Lemma synced_fields e n :
  length e = 32%nat → is_dir (ntype n) = false → 0 ≤ first_cluster n < 2 ^ 16 → 0 ≤ nsize n < 2 ^ 32 → fields_agree (synced e n) n.
Proof.
  intros Hl Hf Hc Hz. unfold fields_agree. rewrite synced_eq, Hf by done. do 32 (destruct e as [|? e]; [done|]). destruct e; [|done].
  split; [apply (le_lor2 _ Hc)|apply (le_lor4 _ Hz)].
Qed.

Lemma synced_same e n :
  length e = 32%nat → Forall byte e → is_dir (ntype n) = false → fields_agree e n → synced e n = e.
Proof.
  intros Hl Hb Hf [Hc Hz]. rewrite synced_eq, Hf by done. cbn zeta.
  assert (∀ i, 0 ≤ i < 32 → 0 ≤ aget 0 e i < 2 ^ 8) as H by (intros i Hi; apply (aget_Forall byte); [done|lia]).
  assert (e = take 26 e ++ [aget 0 e 26; aget 0 e (26 + 1); aget 0 e 28; aget 0 e (28 + 1); aget 0 e (28 + 2); aget 0 e (28 + 3)]) as He.
  { clear -Hl. do 32 (destruct e as [|? e]; [done|]). by destruct e. }
  rewrite <- Hc, <- Hz. unfold le16, le32.
  destruct (le_unlor2 (aget 0 e 26) (aget 0 e (26 + 1))) as [-> ->]; [apply H; lia..|].
  destruct (le_unlor4 (aget 0 e 28) (aget 0 e (28 + 1)) (aget 0 e (28 + 2)) (aget 0 e (28 + 3))) as (-> & -> & -> & ->); [apply H; lia..|done].
Qed.

(** The root directory is the one of the disk [D0], with the entry of the node brought up to date. *)
Definition entry_tracks (D0 : Z → list Z) (fs : fat_fs) (n : fat_node) : Prop :=
  entry_ready fs n ∧ ∀ o, root_slot (geo fs) o → length (root_entry (geo fs) D0 o) = 32%nat ∧
    root_entry (geo fs) (disk fs) o =
      if has_entry n && (o =? entry_off n) then synced (root_entry (geo fs) D0 o) n else root_entry (geo fs) D0 o.

Lemma entry_ready_touched fs n n' : touched n n' → entry_ready fs n → entry_ready fs n'.
Proof. by intros (f & z & i & c & ->). Qed.

Lemma entry_ready_mono fs fs' n :
  fs_ok fs → entry_ready fs n → geo fs' = geo fs → (∀ s, in_root (geo fs) s → disk fs' s = disk fs s) → entry_ready fs' n.
Proof.
  intros Hok Hrd Eg Hroot He. destruct (Hrd He) as (Hfix & Hs & Hdel). rewrite Eg. split; [done|]. split; [done|].
  unfold root_entry. rewrite Hroot; [done|]. apply (root_sector_range _ _ _ (ok_geo _ Hok) Hs).
Qed.

Lemma sync_entry_tracks D0 fs n0 n :
  fs_ok fs → read_only (geo fs) = false → entry_tracks D0 fs n0 → touched n0 n →
  wp sync_entry (fs, n) (λ _ s', s'.2 = n ∧ ∃ D', updated fs s'.1 D' ∧ entry_tracks D0 s'.1 n ∧ ∀ s, ¬ in_root (geo fs) s → D' s = disk fs s).
Proof.
  intros Hok Hro [Hrd0 Hd0] Ht. pose proof (entry_ready_touched _ _ _ Ht Hrd0) as Hrd. pose proof (ok_geo _ Hok) as Hg.
  assert (has_entry n = has_entry n0 ∧ entry_off n = entry_off n0) as [Ee Eo] by (by destruct Ht as (f & z & i & c & ->)).
  destruct (has_entry n) eqn:He.
  - eapply wp_conseq; [by apply wp_sync_entry|]. intros [] s' [Hn Hu]. split; [done|]. eexists. split; [exact Hu|].
    destruct (Hrd He) as (Hfix & Hs & Hdel). set (off := entry_off n) in *. pose proof (length_root_entry _ _ Hok Hs) as Hl.
    destruct (synced_ok _ n Hl (root_entry_bytes _ off Hok)) as [Hl' _]. split.
    + assert (∀ o, root_slot (geo fs) o → root_entry (geo fs) (disk s'.1) o =
        if o =? off then synced (root_entry (geo fs) (disk fs) off) n else root_entry (geo fs) (disk fs) o) as Hw.
      { intros o Ho. rewrite <- (root_entry_write _ _ _ _ _ _ Hg ltac:(intros i; apply Hok) Hs Ho Hl').
        unfold root_entry at 1. by rewrite (up_disk _ _ _ Hu). }
      unfold entry_tracks, entry_ready. rewrite (up_geo _ _ _ Hu), He. fold off. split.
      * intros _. split; [done|]. split; [done|]. by rewrite Hw, Z.eqb_refl, synced_deleted.
      * intros o Ho. destruct (Hd0 o Ho) as [Hl0 Hr0]. split; [done|]. rewrite Hw by done. cbn [andb].
        rewrite <- Ee, <- Eo in Hr0. cbn [andb] in Hr0. destruct (Z.eqb_spec o off) as [->|Hne]; [|done].
        rewrite Hr0 in *. by apply synced_synced.
    + intros s Hns. unfold write_to. rewrite (proj2 (Z.eqb_neq s _)); [done|]. intros ->.
      by destruct (root_sector_range _ _ _ Hg Hs) as (? & _).
  - unfold sync_entry. apply wp_bind_node. rewrite He. apply wp_ret. split; [done|]. exists (disk fs). split; [by apply same_refl|].
    split; [|done]. split; [done|]. cbn [fst]. intros o Ho. destruct (Hd0 o Ho) as [Hl0 Hr0]. split; [done|]. rewrite He. by rewrite <- Ee in Hr0.
Qed.

#[export] Instance sync_entry_syncs D0 : Syncs sync_entry (entry_tracks D0).
Proof.
  split; [apply sync_entry_tracks|]. intros fs fs' n Hok [Hrd Hd0] Eg Hroot.
  split; [by eapply entry_ready_mono|]. rewrite Eg. intros o Ho. destruct (Hd0 o Ho) as [Hl0 Hr0]. split; [done|]. rewrite <- Hr0.
  unfold root_entry. rewrite Hroot; [done|]. apply (root_sector_range _ _ _ (ok_geo _ Hok) Ho).
Qed.

(** ** Files *)

Lemma wp_node_write D0 fs n l off buf :
  writable (entry_tracks D0) fs n l → 0 ≤ off → off + Z.of_nat (length buf) < 2 ^ 32 → Forall byte buf →
  (buf ≠ [] → enough (geo fs) (disk fs) (last_index (geo fs) off buf + 1 - Z.of_nat (length l))) →
  wp (node_write off buf) (fs, n) (λ r s', r = Z.of_nat (length buf) ∧ write_done (entry_tracks D0) fs n l off buf s').
Proof.
  intros Hw Ho Hof Hby Hen. unfold node_write, node_write_with. apply wp_bind_lgeom, wp_bind_node.
  rewrite (h_chain _ _ _ _ (w_holds _ _ _ _ Hw)). cbn [andb].
  by apply (wp_node_write_loop sync_entry (entry_tracks D0) (length buf) fs n l off buf 0).
Qed.

(** The entry in the directory says what the node says. *)
Definition entry_agrees (fs : fat_fs) (n : fat_node) : Prop :=
  has_entry n = true → fields_agree (root_entry (geo fs) (disk fs) (entry_off n)) n.

Lemma wp_refresh fs n :
  fs_ok fs → entry_ready fs n → entry_agrees fs n →
  wp refresh_entry (fs, n) (λ _ s', same fs s'.1 ∧ (s'.2 = n ∨ s'.2 = set_cursor n 0 0)).
Proof.
  intros Hok Hrd Hag. unfold refresh_entry. apply wp_bind_node. destruct (has_entry n) eqn:He; cbn [negb].
  - destruct (Hrd He) as (Hfix & Hs & Hdel). destruct (Hag He) as [H1 H2]. rewrite Hfix.
    eapply wp_bind; [apply (wp_within _ _ _ _ (λ e fs', e = root_entry (geo fs) (disk fs) (entry_off n) ∧ same fs fs'))|].
    + eapply wp_bind; [by apply wp_read_entry|]. intros e s' (-> & Hs' & _). unfold deleted in Hdel. rewrite Hdel. by apply wp_ret.
    + intros e [fs1 n1] ([-> Hs1] & [= ->]). eexists tt, _. split; [done|]. split; [done|]. right. cbn [snd]. rewrite H1, H2. by destruct n.
  - apply wp_ret. split; [by apply same_refl|by left].
Qed.

(** A file whose entry agrees tracks its own disk, *)
Lemma writable_tracks fs n l :
  writable entry_ready fs n l → entry_agrees fs n → writable (entry_tracks (disk fs)) fs n l.
Proof.
  intros [Hok Hro H16 Hf Hh Hrd] Hag. split; try done. split; [done|]. intros o Ho.
  pose proof (length_root_entry _ _ Hok Ho) as Hl. split; [done|]. destruct (has_entry n) eqn:He; [|done]. cbn [andb].
  destruct (Z.eqb_spec o (entry_off n)) as [->|_]; [|done]. symmetry. apply synced_same; try done; [by apply root_entry_bytes|by apply Hag].
Qed.

(** and an entry that tracks it agrees. *)
Lemma tracks_agrees D0 fs n l :
  writable (entry_tracks D0) fs n l → 0 ≤ nsize n < 2 ^ 32 → entry_agrees fs n ∧ writable entry_ready fs n l.
Proof.
  intros [Hok Hro H16 Hf Hh [Hrd Hd]] Hsz. split; [|done]. intros He. destruct (Hrd He) as (_ & Hs & _). destruct (Hd _ Hs) as [Hl ->].
  rewrite He, Z.eqb_refl. cbn [andb]. apply synced_fields; try done.
  pose proof (h_starts _ _ _ _ Hh) as Hst. pose proof (g_clusters _ _ (ok_geo _ Hok)) as Hc. rewrite H16 in Hc. destruct l as [|x l]; cbn [starts] in Hst; [lia|].
  assert (valid_cluster (geo fs) (first_cluster n) = true) as Hv by (by inversion Hst).
  apply (valid_cluster_iff _ _ _ (ok_geo _ Hok)) in Hv. lia.
Qed.

(** What is seen of the directory then. *)
Lemma tracks_root D0 fs n o :
  entry_tracks D0 fs n → root_slot (geo fs) o →
  if has_entry n && (o =? entry_off n) then take 26 (root_entry (geo fs) (disk fs) o) = take 26 (root_entry (geo fs) D0 o)
  else root_entry (geo fs) (disk fs) o = root_entry (geo fs) D0 o.
Proof.
  intros [_ Hd] Ho. destruct (Hd o Ho) as [Hl ->]. destruct (_ && _); [|done].
  by rewrite synced_eq, take_app_length' by (rewrite ?length_take; lia).
Qed.

Lemma refresh_writable D0 fs fs1 n n1 l :
  writable (entry_tracks D0) fs n l → same fs fs1 → n1 = n ∨ n1 = set_cursor n 0 0 → writable (entry_tracks D0) fs1 n1 l.
Proof.
  intros Hw Hs [-> | ->]; apply (writable_same sync_entry _ _ _ _ _ Hs) in Hw; [done|].
  destruct Hw as [Hok Hro H16 Hf [] Hrd]. by split.
Qed.

(** Another file's chain is not among the free clusters, and keeps its data. *)
Lemma wrote_elsewhere g count D D' l new off buf c k :
  geo_ok g count → wrote g D D' l new off buf → chain g (table g D 0) c k → (∀ x, x ∈ k → x ∉ l) →
  chain g (table g D' 0) c k ∧ contents g D' k = contents g D k.
Proof.
  intros Hg [F O _ R] Hch Hdis. pose proof (chain_valid _ _ _ _ Hch) as Hv. rewrite Forall_forall in F.
  assert (∀ x, x ∈ k → x ∉ l ++ new) as Hout.
  { intros x Hx [H|H]%elem_of_app; [by apply (Hdis x)|]. destruct (F x H) as [_ Ht]. by apply (chain_used _ _ _ _ _ x Hg Hch). }
  split.
  - eapply cluster_chain_ext; [|exact Hch]. intros x Hx. rewrite Forall_forall in Hv. apply O; auto.
  - apply contents_ext. intros s Hs. apply R; [by apply (sector_range _ _ Hg _ _ Hv Hs)|]. by apply (sectors_disjoint _ _ Hg k).
Qed.

(** A write of the root directory changes no chain. *)
Lemma root_elsewhere g count D D' :
  geo_ok g count → (∀ s, ¬ in_root g s → D' s = D s) →
  (∀ c, valid_cluster g c = true → table g D' 0 c = table g D 0 c) ∧ (∀ s, data_start g ≤ s → D' s = D s).
Proof.
  intros Hg H. split.
  - intros c Hc%(valid_cluster_iff _ _ _ Hg). apply (table_not_root _ _ _ _ _ _ Hg); [destruct Hg; lia|lia|done].
  - intros s Hs. apply H. by apply (data_not_table _ _ _ Hg).
Qed.

Lemma wrote_root g count D D1 D2 l new off buf :
  geo_ok g count → (∀ s, ¬ in_root g s → D2 s = D1 s) → Forall (λ c, valid_cluster g c = true) (l ++ new) →
  wrote g D D1 l new off buf → wrote g D D2 l new off buf.
Proof.
  intros Hg H Hv [F O C R]. destruct (root_elsewhere _ _ _ _ Hg H) as [Ht Hd]. split; [done| | |].
  - intros c Hc Hn. rewrite Ht by done. by apply O.
  - rewrite <- C. apply contents_ext. intros s Hs. apply Hd. by apply (sector_range _ _ Hg _ _ Hv Hs).
  - intros s Hs Hn. rewrite Hd by done. by apply R.
Qed.

Lemma holds_root g count D D' n n' l :
  geo_ok g count → (∀ s, ¬ in_root g s → D' s = D s) → fixed_root n' = fixed_root n → first_cluster n' = first_cluster n →
  cursor_index n' = cursor_index n → cursor_cluster n' = cursor_cluster n → holds g D n l → holds g D' n' l.
Proof.
  intros Hg H E1 E2 E3 E4 [Hf Hst Hc]. destruct (root_elsewhere _ _ _ _ Hg H) as [Ht _]. split; [congruence| |].
  - rewrite E2. destruct l; [done|]. eapply cluster_chain_ext; [|exact Hst]. intros x Hx. apply Ht.
    pose proof (chain_valid _ _ _ _ Hst) as Hv. rewrite Forall_forall in Hv. auto.
  - unfold cursor_ok. by rewrite E3, E4.
Qed.

Lemma wp_ignore {A} (m : nio A) s (Q : fat_fs * fat_node → Prop) : wp m s (λ _, Q) → wp (ignore m) s (λ _, Q).
Proof. intros H. eapply wp_bind; [by apply wp_attempt|]. intros ? s' (a & -> & HQ). by apply wp_ret. Qed.

(** What [fat_write] leaves behind. *)
Record file_written (fs : fat_fs) (n : fat_node) (l : list Z) (off : Z) (buf : list Z) (fs' : fat_fs) (n' : fat_node) (new : list Z) : Prop := {
  fw_writable : writable (entry_tracks (disk fs)) fs' n' (l ++ new);
  fw_geo : geo fs' = geo fs;
  fw_node : touched n n';
  fw_size : nsize n' = Z.max (nsize n) (off + Z.of_nat (length buf));
  fw_wrote : wrote (geo fs) (disk fs) (disk fs') l new off buf;
  fw_length : Z.of_nat (length (l ++ new)) = Z.max (Z.of_nat (length l)) (last_index (geo fs) off buf + 1)
}.

Lemma grown_size n n' : grown n n' → nsize n' = nsize n ∧ ntype n' = ntype n.
Proof. by intros (f & i & c & ->). Qed.

Lemma wrote_same g D D0 D' l new off buf : (∀ i, D0 i = D i) → wrote g D0 D' l new off buf → wrote g D D' l new off buf.
Proof.
  intros H [F O C R]. split.
  - eapply Forall_impl; [exact F|]. intros c [Hv Ht]. split; [done|]. by rewrite <- (table_ext _ D D0).
  - intros c Hv Hc. rewrite O by done. by apply table_ext.
  - rewrite C. f_equal. by apply contents_ext.
  - intros s Hs Hn. by rewrite R.
Qed.

Lemma wp_fat_write fs n l off buf :
  writable entry_ready fs n l → entry_agrees fs n → 0 ≤ off → buf ≠ [] → Forall byte buf →
  off + Z.of_nat (length buf) < 2 ^ 32 → 0 ≤ nsize n →
  enough (geo fs) (disk fs) (last_index (geo fs) off buf + 1 - Z.of_nat (length l)) →
  wp (fat_write off buf) (fs, n) (λ r s', r = Z.of_nat (length buf) ∧ ∃ new, file_written fs n l off buf s'.1 s'.2 new).
Proof.
  intros Hw Hag Ho Hne Hby Hof Hsz Hen. pose proof (ok_geo _ (w_ok _ _ _ _ Hw)) as Hg.
  assert (0 < Z.of_nat (length buf)) as Hlen by (destruct buf; simpl; [done|lia]).
  unfold fat_write. apply wp_bind_lgeom, wp_bind_node. rewrite (w_rw _ _ _ _ Hw), (w_file _ _ _ _ Hw).
  eapply wp_bind; [apply wp_refresh; [apply Hw|apply Hw|done]|]. intros [] [fs1 n1] [Hs1 Hn1]. cbn [fst snd] in *.
  pose proof (refresh_writable _ _ _ _ _ _ (writable_tracks _ _ _ Hw Hag) Hs1 Hn1) as Hw1. pose proof (up_geo _ _ _ Hs1) as Eg1.
  assert (nsize n1 = nsize n) as Esz by (by destruct Hn1 as [-> | ->]).
  eapply wp_bind; [apply (wp_node_write (disk fs) fs1 n1 l); [done|done|done|done|]|].
  { intros _. rewrite Eg1. destruct Hen as (F & HF1 & HF2 & HF3). exists F. split; [done|]. split; [|done].
    eapply Forall_impl; [exact HF2|]. intros c [Hc1 Hc2]. split; [done|]. by rewrite (table_ext _ (disk fs)) by apply Hs1. }
  intros r [fs2 n2] (-> & new & D2 & Hu2 & Hwr2 & Hw2 & Hg2 & Hl2). cbn [fst snd] in *. rewrite Eg1 in *.
  pose proof (up_geo _ _ _ Hu2) as Eg2. rewrite Eg1 in Eg2. rewrite grown_length_eq in Hl2 by done.
  destruct (grown_size _ _ Hg2) as [Esz2 _]. rewrite Esz in Esz2.
  pose proof (w_holds _ _ _ _ Hw2) as Hh2. rewrite Eg2 in Hh2.
  assert (wrote (geo fs) (disk fs) (disk fs2) l new off buf) as Hwr.
  { eapply wrote_ext; [apply Hu2|]. eapply wrote_same; [|exact Hwr2]. apply Hs1. }
  assert (∀ z, touched n (set_size n2 z)) as Ht2.
  { intros z. destruct Hg2 as (f & i & c & ->), Hn1 as [-> | ->]; by exists f, z, i, c. }
  apply wp_bind_node. rewrite Esz2, Z.gtb_ltb, (proj2 (Z.ltb_lt 0 _)), u32_small by lia. cbn [andb]. rewrite Z.gtb_ltb.
  destruct (Z.ltb_spec (nsize n) (off + Z.of_nat (length buf))) as [Hgrow|Hkeep].
  - set (n3 := set_size n2 (off + Z.of_nat (length buf))).
    assert (touched n2 n3) as Ht by (exists (first_cluster n2), (nsize n3), (cursor_index n2), (cursor_cluster n2); by destruct n2).
    eapply wp_bind; [apply wp_bind_set_node, wp_ignore; fold n3;
      eapply (sync_entry_tracks (disk fs) _ n2); [apply Hu2|rewrite Eg2; apply Hw|apply (w_ready _ _ _ _ Hw2)|done]|].
    intros [] [fs3 n3'] ([= ->] & D3 & Hu3 & Htr & Hr3). apply wp_ret. split; [done|]. exists new. cbn [fst snd] in *.
    pose proof (up_geo _ _ _ Hu3) as Eg3. rewrite Eg2 in *.
    assert (∀ s, ¬ in_root (geo fs) s → disk fs3 s = disk fs2 s) as Hroot by (intros s Hs; rewrite (up_disk _ _ _ Hu3); auto).
    split; [|done|apply Ht2|cbn; lia| |done].
    + destruct Hw2 as [_ Hro H16 Hf _ _]. rewrite Eg2 in *. split; rewrite ?Eg3; try done; [apply Hu3|].
      by apply (holds_root _ _ (disk fs2) _ n2 _ _ Hg).
    + eapply wrote_root; [exact Hg|exact Hroot| |done]. apply (starts_valid _ _ _ _ (h_starts _ _ _ _ Hh2)).
  - eapply wp_bind; [by apply (wp_ret tt (fs2, n2) (λ _ s, s = (fs2, n2)))|]. intros [] ? ->. apply wp_ret. split; [done|]. exists new. cbn [fst snd].
    split; try done; [|lia]. replace n2 with (set_size n2 (nsize n2)) by (by destruct n2). apply Ht2.
Qed.

(** C2: What is written to a file of the root directory of a FAT16 volume is
    read back, byte for byte, when the device works and there is room. The
    file's chain grows by free clusters only, its other bytes are as they
    were, its size covers the write, and every other chain keeps its clusters
    and its contents. Afterwards the file's directory entry holds the first
    cluster and the size of the node, the rest of the entry and all other
    entries are as they were, and the file can be written again. *)
Theorem fat_write_read fs n l off buf :
  writable entry_ready fs n l → entry_agrees fs n → 0 ≤ off → buf ≠ [] → Forall byte buf →
  off + Z.of_nat (length buf) < 2 ^ 32 → 0 ≤ nsize n < 2 ^ 32 →
  enough (geo fs) (disk fs) (last_index (geo fs) off buf + 1 - Z.of_nat (length l)) →
  ∃ fs1 n1 new s2,
    fat_write off buf (fs, n) = (Good (Z.of_nat (length buf)), (fs1, n1)) ∧
    fat_read off (Z.of_nat (length buf)) (fs1, n1) = (Good buf, s2) ∧
    nsize n1 = Z.max (nsize n) (off + Z.of_nat (length buf)) ∧
    Forall (is_free (geo fs) (disk fs)) new ∧ holds (geo fs) (disk fs1) n1 (l ++ new) ∧
    contents (geo fs) (disk fs1) (l ++ new) = splice (contents (geo fs) (disk fs) (l ++ new)) (Z.to_nat off) buf ∧
    (∀ c k, chain (geo fs) (table (geo fs) (disk fs) 0) c k → (∀ x, x ∈ k → x ∉ l) →
      chain (geo fs) (table (geo fs) (disk fs1) 0) c k ∧ contents (geo fs) (disk fs1) k = contents (geo fs) (disk fs) k) ∧
    geo fs1 = geo fs ∧ touched n n1 ∧ writable entry_ready fs1 n1 (l ++ new) ∧ entry_agrees fs1 n1 ∧
    ∀ o, root_slot (geo fs) o →
      if has_entry n && (o =? entry_off n)
      then take 26 (root_entry (geo fs) (disk fs1) o) = take 26 (root_entry (geo fs) (disk fs) o)
      else root_entry (geo fs) (disk fs1) o = root_entry (geo fs) (disk fs) o.
Proof.
  intros Hw Hag Ho Hne Hby Hof Hsz Hen. pose proof (ok_geo _ (w_ok _ _ _ _ Hw)) as Hg. pose proof (ok_disk _ (w_ok _ _ _ _ Hw)) as HD.
  destruct (wp_fat_write fs n l off buf Hw Hag Ho Hne Hby Hof (proj1 Hsz) Hen) as (r & [fs1 n1] & E & -> & new & [Hw1 Eg1 Ht1 Hsz1 Hwr1 Hl1]).
  cbn [fst snd] in *. pose proof (w_holds _ _ _ _ Hw1) as Hh1. rewrite Eg1 in Hh1. destruct (tracks_agrees _ _ _ _ Hw1 ltac:(lia)) as [Hag1 Hw1'].
  assert (off + Z.of_nat (length buf) ≤ Z.of_nat (length (contents (geo fs) (disk fs) (l ++ new)))) as Hfit
    by (apply (last_index_bytes _ _ _ _ _ _ Hg); [intros i; apply HD|done|lia]).
  pose proof (wr_contents _ _ _ _ _ _ _ Hwr1) as Hc.
  destruct (wp_node_read fs1 n1 (l ++ new) off (Z.of_nat (length buf))) as (d & s2 & E2 & -> & _); rewrite ?Eg1; try done; [apply Hw1| |lia|].
  { rewrite Hc, length_splice; lia. }
  exists fs1, n1, new, s2. split_and!; try done.
  - unfold fat_read, mbind, st_bind, node. rewrite Z.geb_leb, (proj2 (Z.leb_gt _ _)), Z.gtb_ltb, (proj2 (Z.ltb_ge _ _)) by (destruct buf; simpl in *; [done|lia]).
    rewrite E2, Eg1, Hc, Nat2Z.id. rewrite take_drop_splice by lia. done.
  - apply Hwr1.
  - intros c k. by apply (wrote_elsewhere _ _ _ _ _ _ _ _ _ _ Hg Hwr1).
  - intros o Hs. rewrite <- Eg1 in *. pose proof (tracks_root _ _ _ o (w_ready _ _ _ _ Hw1) Hs) as H. by destruct Ht1 as (f & z & i & c & ->).
Qed.

(** An empty file of the root directory of the sample volume. *)
Definition empty_file : fat_node := Node VNODE_FILE 0 false 0 0 0 true true 0 0.

Lemma empty_file_writable : writable entry_ready partition_fs empty_file [].
Proof.
  split; [apply partition_ok|done|done|done|by split|]. intros _. split; [done|]. split; by vm_compute.
Qed.

Lemma fat_write_read_witness :
  ∃ fs1 n1 s2, fat_write 600 [1; 2; 3] (partition_fs, empty_file) = (Good 3, (fs1, n1)) ∧ fat_read 600 3 (fs1, n1) = (Good [1; 2; 3], s2) ∧
    nsize n1 = 603 ∧ has_entry n1 = true ∧ entry_agrees fs1 n1.
Proof.
  destruct (fat_write_read partition_fs empty_file [] 600 [1; 2; 3] empty_file_writable) as (fs1 & n1 & new & s2 & H1 & H2 & H3 & _ & _ & _ & _ & _ & Ht & _ & Ha & _).
  - intros _. by vm_compute.
  - lia.
  - done.
  - by repeat constructor.
  - simpl. lia.
  - simpl. lia.
  - exists [4; 5]. split; [repeat constructor; set_solver|]. split; [repeat constructor; by vm_compute|by vm_compute].
  - exists fs1, n1, s2. split; [exact H1|]. split; [exact H2|]. split; [exact H3|]. split; [by destruct Ht as (? & ? & ? & ? & ->)|exact Ha].
Defined.
