(* ===== verification/FatRun.v ===== *)
(** * The FAT file system: termination

    Reading, writing and truncating a file, and reading and setting its time
    and attributes, end: on any disk contents, with any geometry, for any
    node and whatever transfers fail. The searches of a directory are not
    among them (see [FatDir.directory_loop_hangs]). *)
From S2P Require Import Prelude StateM Abi Fat.
Local Open Scope Z_scope.

(** The device delivers whole sectors. *)
Record whole (g : geometry) (fs : fat_fs) : Prop := {
  whole_geo : geo fs = g;
  whole_size : block_size (dev fs) = SECTOR;
  whole_disk i : length (blocks (dev fs) i) = 512%nat;
  whole_cache : cache_valid fs = true → length (cache fs) = 512%nat
}.
Definition nwhole (g : geometry) (s : fat_fs * fat_node) : Prop := whole g s.1.

Section run.
Context (g : geometry).
Abbreviation ends m := (runs (whole g) m (λ _, True)).
Abbreviation nends m := (runs (nwhole g) m (λ _, True)).

(** ** Sectors *)

Lemma runs_read_sector sector : runs (whole g) (read_sector sector) (λ s, length s = 512%nat).
Proof.
  intros fs [Hg Hs Hd Hc]. unfold read_sector, mbind, st_bind, get.
  destruct (negb (cache_valid fs) || negb (cached_sector fs =? sector)) eqn:E.
  - unfold modify, try, on_dev, device_read_blocks. cbn [dev set_cache].
    repeat (case_match; simplify_eq; cbn in *; try (split; [by split|done])).
    rewrite app_nil_r. split; [|done]. split; try done. cbn. by rewrite Hd.
  - apply orb_false_iff in E as [E _]. apply negb_false_iff in E. split; [by split|]. by apply Hc.
Qed.

Lemma runs_write_sector sector data : length data = 512%nat → ends (write_sector sector data).
Proof.
  intros Hl fs [Hg Hs Hd Hc]. unfold write_sector, mbind, st_bind, get. destruct (read_only (geo fs)); [split; [by split|done]|].
  unfold modify, try, on_dev, device_write_blocks.
  repeat (case_match; simplify_eq; cbn [fst snd] in *; try (split; [by split|done])).
  all: split; [|done]; split; try done; cbn [dev set_cache set_dev next_transfer blocks]; intros i; case_match; try done.
  all: rewrite Hs, length_take, length_drop, Hl; zbool; replace (i - sector) with 0 by lia; done.
Qed.

Lemma runs_geom : runs (whole g) geom (λ x, x = g).
Proof. intros fs Hf. split; [done|apply Hf]. Qed.
Lemma runs_hint f : ends (modify (λ fs, set_hint fs (f fs))).
Proof. apply runs_modify. by intros fs []. Qed.

(** ** Composition *)

Lemma runs_true {S A} (I : S → Prop) (m : st S A) Q : runs I m Q → runs I m (λ _, True).
Proof. intros H. by eapply runs_conseq. Qed.
Lemma runs_attempt {S A} (I : S → Prop) (m : st S A) : runs I m (λ _, True) → runs I (try m) (λ _, True).
Proof. intros H. by eapply runs_true, runs_try. Qed.
Lemma runs_lift {A} (m : io A) Q : runs (whole g) m Q → runs (nwhole g) (lift m) Q.
Proof. intros H [fs n] Hs. destruct (H fs Hs) as [H1 H2]. unfold lift. by destruct (m fs) as [r fs']. Qed.
Lemma runs_within {A} n' (m : nio A) Q : runs (nwhole g) m Q → runs (nwhole g) (within n' m) Q.
Proof. intros H [fs n] Hs. destruct (H (fs, n') Hs) as [H1 H2]. unfold within. by destruct (m (fs, n')) as [r [fs' n'']]. Qed.
Lemma runs_node : nends node.
Proof. by intros [fs n] Hs. Qed.
Lemma runs_set_node f : nends (set_node f).
Proof. by intros [fs n] Hs. Qed.

Lemma ends_read sector : ends (read_sector sector).
Proof. eapply runs_true, runs_read_sector. Qed.
Lemma ends_geom : ends geom.
Proof. eapply runs_true, runs_geom. Qed.

(** Goes through a computation whose loops are dealt with by the hints. *)
Ltac run := repeat first
  [ progress intros | apply runs_fail | by apply (runs_ret _ _ (λ _, True)) | apply runs_node | apply runs_set_node | apply ends_geom
  | apply ends_read | apply runs_hint | by eauto with manios | apply runs_attempt | apply runs_within | apply runs_lift
  | eapply runs_bind; [|] | case_match ].

(** ** The table *)

Lemma ends_patch offset mask set : ends (fat_patch_byte offset mask set).
Proof.
  eapply runs_bind; [apply ends_geom|]. intros x _. apply runs_each. intros i.
  eapply runs_bind; [apply runs_read_sector|]. intros s Hs. apply runs_write_sector. by rewrite length_aset.
Qed.
Lemma ends_byte offset : ends (fat_byte offset).
Proof. unfold fat_byte. run. Qed.
Hint Resolve ends_patch ends_byte : manios.
Lemma ends_entry c : ends (fat_entry c).
Proof. unfold fat_entry. run. Qed.
Lemma ends_set_entry c v : ends (fat_set_entry c v).
Proof. unfold fat_set_entry. run. Qed.
Hint Resolve ends_entry ends_set_entry : manios.

Lemma ends_alloc_loop rounds start i : ends (alloc_loop rounds start i).
Proof. revert i. induction rounds as [|rounds IH]; intros i; cbn [alloc_loop]; run. Qed.
Hint Resolve ends_alloc_loop : manios.
Lemma ends_alloc : ends alloc_cluster.
Proof. unfold alloc_cluster. eapply runs_bind; [apply runs_get|]. run. Qed.

(** The step counter stops [free_chain]. *)
Lemma ends_free_loop fuel c steps :
  0 ≤ steps → cluster_count g + 1 < steps + Z.of_nat fuel → (0 < fuel)%nat → ends (free_loop fuel c steps).
Proof.
  revert c steps. induction fuel as [|fuel IH]; intros c steps Hs Hf Hp; [lia|]. cbn [free_loop].
  eapply runs_bind; [apply runs_geom|]. intros x ->.
  destruct (negb (valid_cluster g c)); [run|]. rewrite Z.gtb_ltb. destruct (Z.ltb_spec (cluster_count g) steps); [run|].
  eapply runs_bind; [apply runs_attempt, ends_entry|]. intros [e|next] _; [run|].
  eapply runs_bind; [apply ends_set_entry|]. intros [] _. destruct (is_end_of_chain g next); [run|].
  destruct (negb (valid_cluster g next)); [run|]. apply IH; lia.
Qed.
Lemma ends_free first : ends (free_chain first).
Proof.
  unfold free_chain. eapply runs_bind; [apply runs_geom|]. intros x ->. eapply runs_bind; [apply runs_hint|]. intros [] _.
  apply ends_free_loop; lia.
Qed.
Lemma ends_follow rounds i index c : ends (follow rounds i index c).
Proof. revert i c. induction rounds as [|rounds IH]; intros i c; cbn [follow]; run. Qed.
Lemma ends_keep rounds c : ends (keep_loop rounds c).
Proof. revert c. induction rounds as [|rounds IH]; intros c; cbn [keep_loop]; run. Qed.
Hint Resolve ends_alloc ends_free ends_follow ends_keep : manios.

(** ** Nodes *)

Lemma ends_cluster_at index : nends (cluster_at index).
Proof. unfold cluster_at. run. Qed.
Lemma ends_clear c : ends (clear_cluster c).
Proof.
  eapply runs_bind; [apply ends_geom|]. intros x _. apply runs_each. intros i.
  eapply runs_bind; [apply runs_attempt, runs_write_sector; by rewrite length_replicate|]. run.
Qed.
Hint Resolve ends_cluster_at ends_clear : manios.

Lemma chunk_part offset left (s : list Z) :
  length s = 512%nat → 0 < left → (0 < Z.to_nat (chunk_of offset left))%nat ∧ chunk_of offset left ≤ left ∧
    (Z.to_nat (offset mod SECTOR) + Z.to_nat (chunk_of offset left) ≤ 512)%nat.
Proof. intros Hs Hl. unfold chunk_of, SECTOR. case_if; dlia. Qed.

Lemma ends_read_loop fuel offset len done :
  len - Z.of_nat (length done) ≤ Z.of_nat fuel → nends (node_read_loop fuel offset len done).
Proof.
  revert offset done. induction fuel as [|fuel IH]; intros offset done Hf; cbn [node_read_loop];
    (destruct (Z.ltb_spec (Z.of_nat (length done)) len); cbn [negb]; [|run]); [lia|].
  eapply runs_bind; [apply runs_lift, ends_geom|]. intros x _. eapply runs_bind; [apply runs_node|]. intros n _.
  eapply (runs_bind _ _ _ (λ _, True)); [run|]. intros [e|[sector|]] _; [run| |run].
  eapply runs_bind; [apply runs_try, runs_lift, runs_read_sector|]. intros [e|s] Hs; [run|].
  destruct (chunk_part offset (len - Z.of_nat (length done)) s Hs) as (H1 & H2 & H3); [lia|].
  apply IH. rewrite length_app, length_take, length_drop, Hs. lia.
Qed.
Lemma ends_node_read offset len : nends (node_read offset len).
Proof. apply ends_read_loop. cbn. lia. Qed.
Hint Resolve ends_node_read : manios.

Lemma ends_write_loop sync rounds i index c prev : nends sync → nends (write_loop sync rounds i index c prev).
Proof.
  intros Hs. revert i c prev. induction rounds as [|rounds IH]; intros i c prev; cbn [write_loop]; unfold take_cluster; run.
Qed.
Hint Resolve ends_write_loop : manios.

Lemma ends_node_write_loop sync fuel offset buf done :
  nends sync → (length buf ≤ fuel)%nat → nends (node_write_loop sync fuel offset buf done).
Proof.
  intros Hsync. revert offset buf done. induction fuel as [|fuel IH]; intros offset buf done Hf;
    (destruct buf as [|b0 buf0] eqn:Eb; [by apply runs_ret|]); [simpl in Hf; lia|].
  rewrite <- Eb in *. assert (0 < Z.of_nat (length buf)) by (rewrite Eb; simpl; lia). rewrite Eb at 1. cbn [node_write_loop]. rewrite <- Eb.
  eapply runs_bind; [apply runs_lift, ends_geom|]. intros x _. eapply runs_bind; [apply runs_node|]. intros n _.
  eapply (runs_bind _ _ _ (λ _, True)); [unfold cluster_for_write; run|]. intros [e|sector] _; [unfold or_done; run|].
  eapply runs_bind; [apply runs_try, runs_lift, runs_read_sector|]. intros [e|s] Hs; [unfold or_done; run|].
  destruct (chunk_part offset (Z.of_nat (length buf)) s Hs) as (H1 & H2 & H3); [lia|].
  eapply runs_bind; [apply runs_attempt, runs_lift, runs_write_sector|].
  - rewrite length_splice; [done|]. rewrite length_take, Hs. lia.
  - intros [e|[]] _; [unfold or_done; run|]. apply IH. rewrite length_drop. lia.
Qed.
Lemma ends_node_write_with sync offset buf : nends sync → nends (node_write_with sync offset buf).
Proof.
  intros Hs. unfold node_write_with. eapply runs_bind; [apply runs_lift, ends_geom|]. intros x _. eapply runs_bind; [apply runs_node|]. intros n _.
  case_match; [run|]. by apply ends_node_write_loop.
Qed.
Lemma ends_read_entry off : nends (read_entry off).
Proof. unfold read_entry. run. Qed.
Hint Resolve ends_read_entry : manios.
Lemma ends_write_all sync off buf e : nends sync → nends (write_all (node_write_with sync) off buf e).
Proof. intros Hs. unfold write_all. eapply runs_bind; [by apply runs_attempt, ends_node_write_with|]. run. Qed.
Lemma ends_sync : nends sync_entry.
Proof.
  unfold sync_entry. eapply runs_bind; [apply runs_node|]. intros n _. case_match; [run|]. apply runs_within.
  eapply runs_bind; [apply ends_read_entry|]. intros e _. case_match; [run|]. by apply ends_write_all, runs_ret.
Qed.
Lemma ends_refresh : nends refresh_entry.
Proof. unfold refresh_entry. run. Qed.
Hint Resolve ends_sync ends_refresh : manios.
Lemma ends_node_write offset buf : nends (node_write offset buf).
Proof. apply ends_node_write_with, ends_sync. Qed.
Hint Resolve ends_node_write : manios.
Lemma ends_write_entry off e err : nends (write_all node_write off e err).
Proof. apply ends_write_all, ends_sync. Qed.
Hint Resolve ends_write_entry : manios.
Lemma ends_entry_access set f : nends (entry_access set f).
Proof. unfold entry_access. run. Qed.
Lemma ends_truncate size : nends (fat_truncate size).
Proof. unfold fat_truncate. run. Qed.
Lemma ends_fat_write offset buf : nends (fat_write offset buf).
Proof. unfold fat_write, ignore. run. Qed.
Lemma ends_fat_read offset len : nends (fat_read offset len).
Proof. unfold fat_read. run. Qed.
End run.

(** C20: Reading, writing and truncating a file and accessing its entry end, with
    a result or an error, on any disk and whatever transfers fail: a chain
    that loops does not keep them from returning. *)
Theorem fat_file_operations_end fs n offset len buf size stamp attr :
  whole (geo fs) fs →
  (fat_read offset len (fs, n)).1 ≠ Hang ∧ (fat_write offset buf (fs, n)).1 ≠ Hang ∧ (fat_truncate size (fs, n)).1 ≠ Hang ∧
  (fat_filetime stamp (fs, n)).1 ≠ Hang ∧ (fat_fileattr attr (fs, n)).1 ≠ Hang.
Proof.
  intros Hw. assert (∀ A (m : nio A), runs (nwhole (geo fs)) m (λ _, True) → (m (fs, n)).1 ≠ Hang) as H.
  { intros A m Hm E. destruct (Hm (fs, n) Hw) as [_ Hr]. by rewrite E in Hr. }
  repeat split; apply H; [apply ends_fat_read|apply ends_fat_write|apply ends_truncate|apply ends_entry_access|apply ends_entry_access].
Qed.

(** A disk whose every byte is 2, so that cluster 2 of its FAT12 table points
    into a loop, on a device where every other transfer fails. *)
Definition broken_fs : fat_fs :=
  Fs (Geometry true false 2 1 512 1 1 3 512 4 100)
    (Device DEVICE_BLOCK 512 104 true true (λ _, replicate 512 2) Nat.even) 2 0 false [].

Lemma fat_file_operations_end_witness :
  whole (geo broken_fs) broken_fs ∧ (fat_read 0 100 (broken_fs, Node VNODE_FILE 1000 false 2 0 0 false false 0 0)).1 ≠ Hang.
Proof.
  assert (whole (geo broken_fs) broken_fs) as H by (by split).
  split; [done|]. exact (proj1 (fat_file_operations_end broken_fs (Node VNODE_FILE 1000 false 2 0 0 false false 0 0) 0 100 [] 0 None None H)).
Defined.
