(* ===== verification/FatDir.v ===== *)
(** * The FAT file system: directories and names

    A directory is read slot by slot. On a directory whose bytes can be read
    ([reads_as], for a chain of clusters and for the fixed root) a search
    visits its visible entries in order ([entries]). On a chain that loops it
    never ends. The second half is about names, and about what [fat_mount]
    accepts. *)
From S2P Require Import Prelude StateM Abi Fat FatTable FatData.
Local Open Scope Z_scope.

(** ** Reading a directory *)

(** The slots from [i] on, [n] of them, as far as the end marker, without
    those that are skipped; each with its offset. *)
Fixpoint entries_from (bytes : list Z) (n i : nat) : list (list Z * Z) :=
  match n with
  | O => []
  | S n =>
      let e := take 32 (drop (32 * i) bytes) in
      if aget 0 e 0 =? ENTRY_END then []
      else (if skipped e then [] else [(e, 32 * Z.of_nat i)]) ++ entries_from bytes n (S i)
  end.
Definition entries (bytes : list Z) : list (list Z * Z) := entries_from bytes (length bytes / 32) 0.

(** A search: the first visit that stops. *)
Fixpoint scan {C} (fn : list Z → list Z → Z → C → bool * C) (l : list (list Z * Z)) (ctx : C) : C :=
  match l with
  | [] => ctx
  | (e, off) :: l => let '(stop, ctx) := fn e (short_name e) off ctx in if stop : bool then ctx else scan fn l ctx
  end.

(** In states with [I] the directory's bytes are these. *)
Class ReadsAs (I : fat_fs * fat_node → Prop) (bytes : list Z) : Prop := {
  reads_slot s off : I s → 0 ≤ off ≤ Z.of_nat (length bytes) → off mod 32 = 0 →
    wp (node_read off DIRENT_SIZE) s (λ r s', r = take 32 (drop (Z.to_nat off) bytes) ∧ I s');
  reads_slots : (length bytes mod 32 = 0)%nat;
  reads_bound : Z.of_nat (length bytes) + 32 < 2 ^ 32
}.

Section search.
Context (I : fat_fs * fat_node → Prop) (bytes : list Z) `{!ReadsAs I bytes}.

Lemma wp_for_each_loop {C} fuel n i (fn : list Z → list Z → Z → C → bool * C) ctx s :
  I s → (i + n = length bytes / 32)%nat → (n < fuel)%nat →
  wp (for_each_loop fuel (32 * Z.of_nat i) fn ctx) s (λ c s', c = scan fn (entries_from bytes n i) ctx ∧ I s').
Proof.
  revert i ctx s n. induction fuel as [|fuel IH]; intros i ctx s n HI Hn Hf; [lia|]. cbn [for_each_loop].
  pose proof reads_slots as H32. pose proof reads_bound as Hb.
  assert (length bytes = 32 * (i + n))%nat as Hlen by (rewrite Hn; pose proof (Nat.div_mod_eq (length bytes) 32); lia).
  eapply wp_bind; [apply wp_attempt, reads_slot; [done|lia|rewrite Z.mul_comm; by apply Z.mod_mul]|].
  intros ? s1 (e & -> & -> & HI1). replace (Z.to_nat (32 * Z.of_nat i)) with (32 * i)%nat by lia. 
  rewrite length_take, length_drop. destruct n as [|n]; cbn [entries_from].
  { rewrite (proj2 (Z.ltb_lt _ _)) by lia. by apply wp_ret. }
  rewrite (proj2 (Z.ltb_ge _ _)) by lia. cbn [orb]. set (e := take 32 (drop (32 * i) bytes)).
  destruct (aget 0 e 0 =? ENTRY_END); [by apply wp_ret|].
  rewrite (u32_small (_ + 32)) by lia. replace (32 * Z.of_nat i + 32) with (32 * Z.of_nat (S i)) by lia.
  destruct (skipped e); [by apply IH; [|lia..]|]. cbn [app scan].
  destruct (fn e (short_name e) (32 * Z.of_nat i) ctx) as [[|] ctx']; [by apply wp_ret|]. by apply IH; [|lia..].
Qed.

Lemma wp_for_each {C} fuel (fn : list Z → list Z → Z → C → bool * C) ctx s :
  I s → (length bytes / 32 < fuel)%nat →
  wp (for_each_entry fuel fn ctx) s (λ c s', c = scan fn (entries bytes) ctx ∧ I s').
Proof. intros HI Hf. by apply (wp_for_each_loop fuel (length bytes / 32) 0). Qed.
End search.

(** *** What is looked for *)

Definition matches (name e : list Z) : bool :=
  names_equal_nocase (short_name e) name || match name11_of name with inr a => name11_equal e a | inl _ => false end.

Lemma scan_match_name name l :
  found (scan match_name l (want_ctx name)) = List.find (λ x, matches name x.1) l.
Proof.
  induction l as [|[e off] l IH]; [done|]. cbn [scan List.find fst]. unfold match_name at 1, matches at 1. cbn [want alias want_ctx].
  destruct (name11_of name) as [rc|a] eqn:Ea; cbn [alias]; destruct (_ || _); try done; exact IH.
Qed.



(** *** The two kinds of directories *)

(** A chain of clusters. *)
Lemma chain_reads fs n l :
  fs_ok fs → holds (geo fs) (disk fs) n l → Z.of_nat (length (contents (geo fs) (disk fs) l)) + 32 < 2 ^ 32 →
  ReadsAs (λ s, same fs s.1 ∧ holds (geo fs) (disk fs) s.2 l) (contents (geo fs) (disk fs) l).
Proof.
  intros Hok Hh Hb. pose proof (ok_geo _ Hok) as Hg. split; [| |done].
  - intros [fs1 n1] off [Hs Hh1] Ho Hm. cbn [fst snd] in *. pose proof (up_geo _ _ _ Hs) as Eg.
    eapply wp_conseq; [apply (wp_node_read fs1 n1 l)|].
    + apply Hs.
    + by eapply holds_same.
    + rewrite (contents_same _ _ _ Hs). lia.
    + done.
    + lia.
    + intros r s' (-> & Hs' & Hm'). rewrite (contents_same _ _ _ Hs). split; [done|]. split; [by eapply same_trans|].
      by eapply moved_holds.
  - assert (Z.of_nat (length (contents (geo fs) (disk fs) l)) mod 32 = 0) as H.
    { rewrite (length_contents _ _ Hg), (g_bpc _ _ Hg) by apply Hok. unfold SECTOR.
      replace (Z.of_nat (length l) * (sectors_per_cluster (geo fs) * 512)) with (Z.of_nat (length l) * sectors_per_cluster (geo fs) * 16 * 32) by lia.
      by apply Z.mod_mul. }
    apply Nat2Z.inj. by rewrite Nat2Z.inj_mod.
Qed.

(** The fixed root. *)
Definition root_contents (g : geometry) (D : Z → list Z) : list Z :=
  take (Z.to_nat (root_bytes g)) (concat (D <$> seqZ (root_start g) (data_start g - root_start g))).

Lemma length_root_contents fs : fs_ok fs → Z.of_nat (length (root_contents (geo fs) (disk fs))) = root_bytes (geo fs).
Proof.
  intros Hok. unfold root_contents. rewrite length_take, (length_concat_uniform 512) by (apply Forall_fmap, Forall_true, Hok).
  rewrite length_fmap, length_seqZ. destruct (ok_geo _ Hok). unfold SECTOR in *. lia.
Qed.

Lemma root_slot_contents fs off :
  fs_ok fs → root_slot (geo fs) off → take 32 (drop (Z.to_nat off) (root_contents (geo fs) (disk fs))) = root_entry (geo fs) (disk fs) off.
Proof.
  intros Hok Hs. pose proof (ok_geo _ Hok) as Hg. destruct (root_sector_range _ _ _ Hg Hs) as ([H1 H2] & _ & H3 & _).
  destruct Hs as (Ho & Hm & Hb). unfold root_contents, root_entry, root_sector, SECTOR in *.
  rewrite skipn_firstn_comm, take_take, Nat.min_l by lia.
  replace (Z.to_nat off) with (Z.to_nat (off / 512) * 512 + Z.to_nat (off mod 512))%nat by (clear -Ho; dlia).
  rewrite <- drop_drop, (drop_concat_uniform 512) by (apply Forall_fmap, Forall_true, Hok). rewrite <- fmap_drop.
  rewrite (drop_S (seqZ _ _) (root_start (geo fs) + off / 512)) by (apply lookup_seqZ; lia). cbn [fmap list_fmap concat].
  destruct (ok_disk _ Hok (root_start (geo fs) + off / 512)) as [Hl _].
  rewrite drop_app_le by (rewrite Hl; clear -H3; dlia). apply take_app_le. rewrite length_drop, Hl. clear -H3. dlia.
Qed.

Lemma root_reads fs n :
  fs_ok fs → fixed_root n = true → root_bytes (geo fs) mod 32 = 0 → root_bytes (geo fs) + 32 < 2 ^ 32 →
  ReadsAs (λ s, same fs s.1 ∧ s.2 = n) (root_contents (geo fs) (disk fs)).
Proof.
  intros Hok Hfix Hm Hb. split.
  - intros [fs1 n1] off [Hs Hn1] Ho Hmo. cbn [fst snd] in *. subst n1. rewrite (length_root_contents _ Hok) in Ho. pose proof (up_geo _ _ _ Hs) as Eg.
    destruct (decide (off = root_bytes (geo fs))) as [->|Hne].
    + assert (length (root_contents (geo fs) (disk fs)) ≤ Z.to_nat (root_bytes (geo fs)))%nat by (pose proof (length_root_contents _ Hok); lia).
      exists [], (fs1, n). split; [|split; [by rewrite drop_ge|done]].
      unfold node_read. change (Z.to_nat DIRENT_SIZE) with (S 31). generalize 31%nat. intros k. cbn [node_read_loop].
      unfold mbind, st_bind, lift, geom, node, mret, st_ret. cbn [length]. change (Z.of_nat 0 <? DIRENT_SIZE) with true. cbn [negb].
      by rewrite Hfix, Eg, Z.geb_leb, (proj2 (Z.leb_le _ _)) by lia.
    + assert (root_slot (geo fs) off) as Hslot by (unfold root_slot; repeat split; [lia|done|dlia]).
      eapply wp_conseq; [apply wp_root_read; [apply Hs|done|by rewrite Eg]|]. intros r s' (-> & Hs' & Hn').
      rewrite Eg. split; [|split; [by eapply same_trans|done]]. rewrite root_slot_contents by done. unfold root_entry. by rewrite (up_disk _ _ _ Hs).
  - apply Nat2Z.inj. rewrite Nat2Z.inj_mod, (length_root_contents _ Hok). done.
  - by rewrite (length_root_contents _ Hok).
Qed.

(** ** A directory that loops *)

Lemma read_chain_round fuel fs n off len done c fs1 n1 s fs2 :
  fixed_root n = false → Z.of_nat (length done) < len →
  cluster_at (off / bytes_per_cluster (geo fs)) (fs, n) = (Good c, (fs1, n1)) → c ≠ 0 →
  read_sector (sector_in (geo fs) c off) fs1 = (Good s, fs2) →
  let k := chunk_of off (len - Z.of_nat (length done)) in
  node_read_loop (S fuel) off len done (fs, n) =
    node_read_loop fuel (u32 (off + k)) len (done ++ take (Z.to_nat k) (drop (Z.to_nat (off mod SECTOR)) s)) (fs2, n1).
Proof.
  intros Hfix Hl E Hc E2 k. cbn [node_read_loop]. rewrite (proj2 (Z.ltb_lt _ _)) by done. cbn [negb].
  unfold mbind, st_bind, lift, geom, node, try, mret, st_ret. rewrite Hfix, E, (proj2 (Z.eqb_neq c 0)) by done. by rewrite E2.
Qed.

(** A directory whose chain never ends: from its first cluster on, every
    successor is among [L] again. *)
Record chain_loops (fs : fat_fs) (dir : fat_node) (L : list Z) : Prop := {
  cl_ok : fs_ok fs;
  cl_dir : fixed_root dir = false;
  cl_first : first_cluster dir ∈ L;
  cl_next c : c ∈ L → valid_cluster (geo fs) c = true ∧ table (geo fs) (disk fs) 0 c ∈ L;
  cl_cursor : cursor_cluster dir ≠ 0 → 0 ≤ cursor_index dir ∧ cursor_cluster dir ∈ L
}.

(** A slot at which a search for [name] does not stop. *)
Definition passed (name e : list Z) : Prop := aget 0 e 0 ≠ ENTRY_END ∧ (skipped e = true ∨ matches name e = false).

Section looping.
Context (fs0 : fat_fs) (dir : fat_node) (L : list Z) (Hloop : chain_loops fs0 dir L).
Let g := geo fs0.

(** The cursor of the directory when the slot at [off] is read next. *)
Definition looping (off : Z) (s : fat_fs * fat_node) : Prop :=
  same fs0 s.1 ∧ ∃ i c, s.2 = set_cursor dir i c ∧
    let index := off / bytes_per_cluster g in
    (c = 0 ∧ index = 0 ∨ c ∈ L ∧ 0 ≤ i ∧ index ≤ i + 1 ∧ (i ≤ index ∨ index = 0)).

Lemma loop_geo : geo_ok g (block_count (dev fs0)).
Proof. apply (cl_ok _ _ _ Hloop). Qed.
Lemma loop_range c : c ∈ L → 2 ≤ c < cluster_count g + 2.
Proof. intros Hc. apply (valid_cluster_iff _ _ _ loop_geo). by apply (cl_next _ _ _ Hloop). Qed.

Lemma wp_loop_follow fs rounds i index c :
  same fs0 fs → c ∈ L → index - i = Z.of_nat rounds → (rounds ≤ 1)%nat → wp (follow rounds i index c) fs (λ c' fs', c' ∈ L ∧ same fs0 fs').
Proof.
  intros Hs Hc Hr Hle. destruct rounds as [|[|]]; [by apply wp_ret| |lia]. cbn [follow]. apply wp_bind_geom. rewrite (up_geo _ _ _ Hs).
  pose proof (loop_range c Hc). rewrite Z.gtb_ltb, (proj2 (Z.ltb_ge _ _)) by (unfold g in *; lia).
  eapply wp_bind; [apply wp_attempt, wp_fat_entry; [apply Hs|rewrite (up_geo _ _ _ Hs); unfold g in *; lia]|].
  intros ? fs' (? & -> & -> & Hs'). rewrite (up_geo _ _ _ Hs), (table_ext _ (disk fs0)) by apply Hs.
  destruct (cl_next _ _ _ Hloop c Hc) as [_ Hn]. destruct (cl_next _ _ _ Hloop _ Hn) as [Hv _].
  rewrite (valid_not_end _ _ _ loop_geo) by done. rewrite Hv. apply wp_ret. split; [done|]. by eapply same_trans.
Qed.

(** One step at a time is never too many. *)
Lemma wp_loop_cluster off s :
  looping off s → 0 ≤ off →
  wp (cluster_at (off / bytes_per_cluster g)) s
    (λ c s', c ∈ L ∧ same fs0 s'.1 ∧ s'.2 = set_cursor dir (off / bytes_per_cluster g) c).
Proof.
  intros (Hs & i & c & Hn & Hc) Ho. destruct s as [fs n]. cbn [fst snd] in *. subst n. set (index := off / _) in *.
  unfold cluster_at. apply wp_bind_lgeom, wp_bind_node. cbn [cursor_cluster cursor_index set_cursor first_cluster]. rewrite (up_geo _ _ _ Hs).
  assert (∃ i' c', (if truth c && (i <=? index) then (i, c) else (0, first_cluster dir)) = (i', c') ∧ c' ∈ L ∧ 0 ≤ index - i' ≤ 1) as (i' & c' & -> & Hc' & Hi').
  { pose proof (cl_first _ _ _ Hloop) as Hf. destruct Hc as [[-> ->]|(Hin & Hi & Hx & Hle)]; [by exists 0, (first_cluster dir)|].
    pose proof (loop_range c Hin). rewrite truth_nonzero by lia. cbn [andb].
    destruct (Z.leb_spec i index) as [|]; [exists i, c; split_and!; done || lia|exists 0, (first_cluster dir); split_and!; done || lia]. }
  destruct (cl_next _ _ _ Hloop c' Hc') as [-> _]. cbn [negb].
  eapply wp_bind_lift; [apply (wp_loop_follow _ _ _ _ c'); [done|done|lia|lia]|]. intros d fs' [Hd Hs'].
  pose proof (loop_range d Hd). rewrite (proj2 (Z.eqb_neq d 0)) by lia. by apply wp_bind_set_node, wp_ret.
Qed.

Lemma loop_sector c off :
  c ∈ L → 0 ≤ off → sector_in g c off ∈ sectors g L ∧ 0 ≤ sector_in g c off < block_count (dev fs0).
Proof.
  intros Hc Ho. pose proof loop_geo as Hg. assert (0 < bytes_per_cluster g) as Hb by (destruct Hg; unfold SECTOR in *; lia).
  assert (sector_in g c off = sector_in g c (off mod bytes_per_cluster g)) as -> by (unfold sector_in; by rewrite Zmod_mod).
  pose proof (Z.mod_pos_bound off _ Hb). destruct (cl_next _ _ _ Hloop c Hc) as [Hv _].
  destruct (sector_in_eq g _ [c] c (off mod bytes_per_cluster g) Hg) as (-> & Hin & Hr); [by repeat constructor|lia|by rewrite Z.div_small by lia|].
  split; [|destruct Hg; unfold SECTOR in *; lia]. revert Hin. unfold sectors. rewrite !list_elem_of_In, !in_concat.
  intros (x & Hx & Hs). cbn in Hx. destruct Hx as [<-|[]]. eexists. split; [|exact Hs]. apply list_elem_of_In, list_elem_of_fmap. by exists c.
Qed.

Lemma wp_loop_slot off s :
  looping off s → 0 ≤ off < 2 ^ 32 → off mod 32 = 0 →
  wp (node_read off DIRENT_SIZE) s (λ e s', looping (u32 (off + DIRENT_SIZE)) s' ∧ length e = 32%nat ∧
    ∃ x o, x ∈ sectors g L ∧ 0 ≤ o < 512 ∧ o mod 32 = 0 ∧ e = take 32 (drop (Z.to_nat o) (disk fs0 x))).
Proof.
  intros Hl Ho Hm. destruct (wp_loop_cluster off s Hl (proj1 Ho)) as (c & [fs1 n1] & E1 & Hc & Hs1 & Hn1). cbn [fst snd] in *.
  destruct (loop_sector c off Hc (proj1 Ho)) as [Hin Hr]. pose proof (loop_range c Hc).
  destruct (wp_read_sector fs1 (sector_in g c off)) as (d & fs2 & E2 & -> & Hs2); [apply Hs1|by rewrite (up_count _ _ _ Hs1)|].
  destruct Hl as (Hs & i & c0 & Hn & _). destruct s as [fs n]. cbn [fst snd] in *. pose proof (up_geo _ _ _ Hs) as Eg.
  assert (chunk_of off 32 = 32) as Ech by (unfold chunk_of, SECTOR; case_if; dlia).
  destruct (ok_disk _ (cl_ok _ _ _ Hloop) (sector_in g c off)) as [Hlen _].
  set (e := take 32 (drop (Z.to_nat (off mod SECTOR)) (disk fs0 (sector_in g c off)))).
  assert (length e = 32%nat) as He by (unfold e; rewrite length_take, length_drop, Hlen; unfold SECTOR; clear -Hm Ho; dlia).
  exists e, (fs2, n1). split; [|split; [|split; [done|]]].
  - unfold node_read. change (Z.to_nat DIRENT_SIZE) with (S 31).
    rewrite (read_chain_round 31 _ _ _ _ _ c fs1 n1 (disk fs1 (sector_in g c off)) fs2);
      [|subst n; apply (cl_dir _ _ _ Hloop)|done|by rewrite Eg|lia|by rewrite Eg].
    cbn [length app]. change (DIRENT_SIZE - Z.of_nat 0) with 32. rewrite Ech, (up_disk _ _ _ Hs1).
    change (Z.to_nat 32) with 32%nat. fold e. apply read_loop_done. by rewrite He.
  - split; [by eapply same_trans|]. exists (off / bytes_per_cluster g), c. split; [done|]. right. split; [done|].
    assert (512 ≤ bytes_per_cluster g) as Hb by (destruct loop_geo; unfold SECTOR in *; lia).
    split; [apply Z.div_pos; lia|]. unfold u32. destruct (decide (off + 32 < 2 ^ 32)) as [H'|H'].
    + rewrite Z.mod_small by lia. split; [|left; apply Z.div_le_mono; lia].
      apply Z.lt_succ_r, Z.div_lt_upper_bound; [lia|]. pose proof (Z.div_mod off (bytes_per_cluster g) ltac:(lia)).
      pose proof (Z.mod_pos_bound off (bytes_per_cluster g) ltac:(lia)). nia.
    + replace (off + 32) with (2 ^ 32) by (clear -H' Ho Hm; dlia). rewrite Z.mod_same, Z.div_0_l by lia.
      split; [|by right]. pose proof (Z.div_pos off (bytes_per_cluster g)). lia.
  - exists (sector_in g c off), (off mod SECTOR). unfold SECTOR. split_and!; try done; clear -Hm Ho; dlia.
Qed.

Lemma loop_search_hangs name fuel off s :
  (∀ x o, x ∈ sectors g L → 0 ≤ o < 512 → o mod 32 = 0 → passed name (take 32 (drop (Z.to_nat o) (disk fs0 x)))) →
  looping off s → 0 ≤ off < 2 ^ 32 → off mod 32 = 0 → (for_each_loop fuel off match_name (want_ctx name) s).1 = Hang.
Proof.
  intros Hpass. revert off s. induction fuel as [|fuel IH]; intros off s Hl Ho Hm; [done|]. cbn [for_each_loop].
  destruct (wp_loop_slot off s Hl Ho Hm) as (e & s' & E & Hl' & Hlen & x & o & Hx & Hor & Hom & He). unfold mbind, st_bind, try. rewrite E.
  destruct (Hpass x o Hx Hor Hom) as [Hend Hno]. rewrite <- He in Hend, Hno. rewrite Hlen, (proj2 (Z.eqb_neq _ _) Hend). cbn [Z.of_nat orb].
  assert (0 ≤ u32 (off + 32) < 2 ^ 32 ∧ u32 (off + 32) mod 32 = 0) as [Hu Hum] by (split; [apply u32_range|unfold u32; clear -Hm; dlia]).
  change (32 <? DIRENT_SIZE) with false. cbn [orb]. destruct (skipped e); [by apply IH|]. destruct Hno as [?|Hno]; [done|].
  unfold match_name. cbn [want alias want_ctx]. unfold matches in Hno.
  assert (match (match name11_of name with inr a => Some a | inl _ => None end) with Some a => name11_equal e a | None => false end
    = match name11_of name with inr a => name11_equal e a | inl _ => false end) as -> by (by destruct (name11_of name)).
  rewrite Hno. by apply IH.
Qed.
End looping.

(** C37: A search of a directory whose chain loops never ends, when no slot of
    the loop holds an end marker or an entry that matches: no number of
    rounds is enough, on any sound volume and a device that works. The limit
    of [cluster_at] does not help, because the cursor makes every step a
    short one. *)
Theorem directory_loop_hangs fs dir L name :
  chain_loops fs dir L →
  (∀ x o, x ∈ sectors (geo fs) L → 0 ≤ o < 512 → o mod 32 = 0 → passed name (take 32 (drop (Z.to_nat o) (disk fs x)))) →
  ∀ fuel room, (fat_walk fuel room name (fs, dir)).1 = Hang.
Proof.
  intros Hloop Hpass fuel room. unfold fat_walk, entry_find, for_each_entry, mbind, st_bind.
  destruct (for_each_loop fuel 0 match_name (want_ctx name) (fs, dir)) as [r s'] eqn:E.
  assert (r = Hang) as ->; [|done]. pose proof (loop_search_hangs fs dir L Hloop name fuel 0 (fs, dir) Hpass) as H. rewrite E in H. apply H; [|lia|done].
  split; [apply same_refl, (cl_ok _ _ _ Hloop)|]. exists (cursor_index dir), (cursor_cluster dir). split; [by destruct dir|]. cbv zeta.
  pose proof (cl_cursor _ _ _ Hloop) as Hcur. rewrite Z.div_0_l by (pose proof (loop_geo fs dir L Hloop) as Hg; destruct Hg; unfold SECTOR in *; lia).
  destruct (decide (cursor_cluster dir = 0)) as [|Hne]; [by left|]. destruct (Hcur Hne). right. split_and!; try done; lia || by right.
Qed.

(** A sound FAT16 volume whose cluster 2 is its own successor and holds
    sixteen deleted entries. *)
Definition deleted_slot : list Z := 0xE5 :: replicate 31 0.
Definition loop_fs : fat_fs :=
  Fs partition
    (Device DEVICE_BLOCK 512 5022 true true
       (λ i, if i =? 1 then [0xF8; 0xFF; 0xFF; 0xFF; 0x02; 0x00] ++ replicate 506 0
             else if i =? 22 then concat (replicate 16 deleted_slot) else replicate 512 0) (λ _, true))
    2 0 false [].
Definition loop_dir : fat_node := dir_at false 2.

Lemma loop_fs_ok : fs_ok loop_fs.
Proof.
  split; try done. intros i. cbn [disk loop_fs dev blocks].
  destruct (i =? 1); [|destruct (i =? 22)]; (split; [by vm_compute|]).
  - repeat constructor; done.
  - repeat constructor; done.
  - apply Forall_replicate. done.
Qed.

Lemma slot_of_deleted off : 0 ≤ off → off mod 32 = 0 → take 32 (drop (Z.to_nat (off mod 512)) (concat (replicate 16 deleted_slot))) = deleted_slot.
Proof.
  intros Ho Hm. assert (∃ k : nat, (k < 16)%nat ∧ Z.to_nat (off mod 512) = (k * 32)%nat) as (k & Hk & ->).
  { exists (Z.to_nat ((off mod 512) / 32)). split; dlia. }
  rewrite (drop_concat_uniform 32) by (apply Forall_replicate; done). rewrite drop_replicate.
  replace (16 - k)%nat with (S (15 - k)) by lia. by vm_compute.
Qed.

Lemma loop_fs_loops : chain_loops loop_fs loop_dir [2].
Proof.
  split; [apply loop_fs_ok|done|by left| |done]. intros c Hc. apply list_elem_of_singleton in Hc as ->. split; [by vm_compute|].
  replace (table _ _ 0 2) with 2 by (by vm_compute). by left.
Qed.

Lemma directory_loop_hangs_witness :
  fs_ok loop_fs ∧ table (geo loop_fs) (disk loop_fs) 0 2 = 2 ∧ ∀ fuel, (fat_walk fuel true (text "README") (loop_fs, loop_dir)).1 = Hang.
Proof.
  split; [apply loop_fs_ok|]. split; [by vm_compute|]. intros fuel.
  apply (directory_loop_hangs loop_fs loop_dir [2] (text "README") loop_fs_loops).
  intros x o Hx Ho Hm. assert (x = 22) as -> by (vm_compute in Hx; by apply list_elem_of_singleton in Hx).
  change (disk loop_fs 22) with (concat (replicate 16 deleted_slot)). rewrite <- (Z.mod_small o 512) by lia. rewrite slot_of_deleted by (done || lia).
  split; [by vm_compute|by left].
Defined.

(** ** Names *)

(** A character that 8.3 names keep: a small letter, a digit or one of [ALLOWED]. *)
Definition plain (c : Z) : Prop := 97 ≤ c ≤ 122 ∨ 48 ≤ c ≤ 57 ∨ c ∈ ALLOWED.

Lemma plain_char c :
  plain c → lower_char (name_char c) = c ∧ name_char c ≠ 32 ∧ name_char c ≠ 0 ∧ name_char c ≠ ENTRY_KANJI_E5 ∧ c ≠ 46 ∧ c ≠ 0.
Proof.
  intros Hc. set (good := λ c, (lower_char (name_char c) =? c) && negb (name_char c =? 32) && negb (name_char c =? 0)
    && negb (name_char c =? ENTRY_KANJI_E5) && negb (c =? 46) && negb (c =? 0)).
  enough (good c = true) as H by (unfold good in H; zbool; done).
  assert (forallb good (seqZ 97 26 ++ seqZ 48 10 ++ ALLOWED) = true) as H by (by vm_compute).
  rewrite forallb_forall in H. apply H, list_elem_of_In. rewrite !elem_of_app, !elem_of_seqZ. unfold plain in Hc. naive_solver lia.
Qed.

Lemma pad_eq n l : (length l ≤ n)%nat → pad n l = l ++ replicate (n - length l) 32.
Proof. intros Hn. unfold pad. rewrite take_app_ge by done. by rewrite take_replicate, Nat.min_l by lia. Qed.

Lemma until_space_app l k : Forall (λ c, c ≠ 32) l → until_space (l ++ replicate k 32) = l.
Proof.
  induction 1 as [|c l Hc _ IH]; cbn [until_space app]; [by destruct k|]. rewrite (proj2 (Z.eqb_neq c 32)) by done. by rewrite IH.
Qed.

Lemma last_dot_none l i r : Forall (λ c, c ≠ 46) l → last_dot l i r = r.
Proof. intros H. revert i. induction H as [|c l Hc _ IH]; intros i; [done|]. cbn [last_dot]. by rewrite (proj2 (Z.eqb_neq c 46)). Qed.

Lemma last_dot_app l x i r : last_dot (l ++ x) i r = last_dot x (i + Z.of_nat (length l)) (last_dot l i r).
Proof.
  revert i r. induction l as [|c l IH]; intros i r; cbn [app last_dot length]; [by rewrite Z.add_0_r|].
  rewrite IH. f_equal. lia.
Qed.

Lemma last_dot_dot x i r : Forall (λ c, c ≠ 46) x → last_dot (46 :: x) i r = Some i.
Proof. intros H. cbn [last_dot]. by rewrite last_dot_none. Qed.

(** A name of at most eight and three such characters. *)
Record name83 (b x : list Z) : Prop := {
  n83_base : b ≠ [] ∧ (length b ≤ 8)%nat ∧ Forall plain b;
  n83_ext : (length x ≤ 3)%nat ∧ Forall plain x
}.
Definition dotted (b x : list Z) : list Z := b ++ match x with [] => [] | _ => 46 :: x end.

Lemma split_dotted b x : name83 b x → split_name (dotted b x) = inr (FatName (name_char <$> b) (name_char <$> x)).
Proof.
  intros [(Hb & Hb8 & Hpb) (Hx3 & Hpx)].
  assert (∀ l, Forall plain l → Forall (λ c, c ≠ 46) l) as Hdot.
  { intros l Hl. eapply Forall_impl; [exact Hl|]. intros c Hc. by destruct (plain_char c Hc) as (_ & _ & _ & _ & ? & _). }
  unfold split_name, dotted. destruct x as [|c x].
  - rewrite app_nil_r, last_dot_none by auto. destruct b; [done|]. done.
  - rewrite last_dot_app, last_dot_dot by auto.
    rewrite Z.add_0_l, Z.gtb_ltb, (proj2 (Z.ltb_lt _ _)) by (destruct b; [done|simpl; lia]).
    rewrite Nat2Z.id, take_app_length. replace (Z.to_nat (Z.of_nat (length b) + 1)) with (length b + 1)%nat by lia.
    rewrite drop_app_add. cbn [drop]. rewrite take_ge by done. by destruct b.
Qed.

Lemma lower_names l : Forall plain l → lower_char <$> (name_char <$> l) = l.
Proof. induction 1 as [|c l Hc _ IH]; [done|]. cbn. rewrite IH. f_equal. apply plain_char, Hc. Qed.

Lemma no_space l : Forall plain l → Forall (λ c, c ≠ 32) (name_char <$> l).
Proof. intros H. apply Forall_fmap. eapply Forall_impl; [exact H|]. intros c Hc. by destruct (plain_char c Hc) as (_ & ? & _). Qed.

Lemma c_string_id l : Forall (λ c, c ≠ 0) l → c_string l = l.
Proof. induction 1 as [|c l Hc _ IH]; [done|]. cbn. by rewrite (proj2 (Z.eqb_neq c 0)), IH. Qed.

Lemma short_name_pack b x rest :
  name83 b x → short_name (pack11 (name_char <$> b) (name_char <$> x) ++ rest) = dotted b x.
Proof.
  intros [(Hb & Hb8 & Hpb) (Hx3 & Hpx)]. unfold pack11.
  assert (length (pad 8 (name_char <$> b)) = 8%nat) as H8 by (rewrite pad_eq, length_app, length_replicate, length_fmap by (by rewrite length_fmap); lia).
  assert (length (pad 3 (name_char <$> x)) = 3%nat) as H3 by (rewrite pad_eq, length_app, length_replicate, length_fmap by (by rewrite length_fmap); lia).
  unfold short_name. rewrite <- app_assoc. rewrite (take_app_le _ _ 8), (take_ge (pad 8 _)) by lia.
  rewrite (drop_app_length' (pad 8 _)) by done. rewrite (take_app_le _ _ 3), (take_ge (pad 3 _)) by lia.
  rewrite (pad_eq 8), until_space_app by (rewrite ?length_fmap; auto using no_space).
  assert (match name_char <$> b with [] => [] | c :: l => (if c =? ENTRY_KANJI_E5 then 0xE5 else c) :: l end = name_char <$> b) as ->.
  { destruct b as [|c b]; [done|]. cbn. apply Forall_cons in Hpb as [Hc _]. destruct (plain_char c Hc) as (_ & _ & _ & H & _).
    by rewrite (proj2 (Z.eqb_neq _ _)). }
  rewrite (pad_eq 3), until_space_app, !lower_names by (rewrite ?length_fmap; auto using no_space).
  rewrite <- (pad_eq 8) by (by rewrite length_fmap). unfold aget. change (8 <? 0) with false. cbv iota.
  rewrite lookup_app_r by (rewrite H8; done). rewrite H8. change (Z.to_nat 8 - 8)%nat with 0%nat.
  assert (∀ l, Forall plain l → Forall (λ c, c ≠ 0) l) as Hz.
  { intros l Hl. eapply Forall_impl; [exact Hl|]. intros c Hc. by destruct (plain_char c Hc) as (_ & _ & _ & _ & _ & ?). }
  unfold dotted. destruct x as [|c x].
  - cbn [fmap list_fmap app length]. apply c_string_id. rewrite app_nil_r. auto.
  - cbn [fmap list_fmap app]. change ((name_char c :: ?k) !! 0%nat) with (Some (name_char c)). cbn [from_option id].
    apply Forall_cons in Hpx as Hpc. destruct (plain_char c (proj1 Hpc)) as (_ & H & _). rewrite (proj2 (Z.eqb_neq (name_char c) 32)) by done.
    apply c_string_id, Forall_app. split; [auto|]. constructor; [done|auto].
Qed.

(** A name of at most eight and three small letters, digits and the other
    characters FAT allows is stored as it is: the entry made for it is listed
    under the name, and a search for the name accepts it. *)
Theorem name83_roundtrip b x rest :
  name83 b x →
  ∃ a, name11_of (dotted b x) = inr a ∧ length a = 11%nat ∧ short_name (a ++ rest) = dotted b x ∧ matches (dotted b x) (a ++ rest) = true.
Proof.
  intros H. pose proof H as [(Hb & Hb8 & Hpb) (Hx3 & Hpx)]. exists (pack11 (name_char <$> b) (name_char <$> x)).
  assert (name11_of (dotted b x) = inr (pack11 (name_char <$> b) (name_char <$> x))) as E.
  { unfold name11_of. rewrite split_dotted by done. unfold fits. cbn [base ext]. rewrite !length_fmap.
    by rewrite !(proj2 (Z.leb_le _ _)) by lia. }
  split; [done|]. split; [unfold pack11; rewrite !pad_eq, !length_app, !length_replicate, !length_fmap by (by rewrite length_fmap); lia|].
  split; [by apply short_name_pack|]. unfold matches. rewrite short_name_pack by done.
  assert (∀ l, names_equal_nocase l l = true) as -> by (intros l; induction l as [|c l IH]; [done|]; cbn; by rewrite Z.eqb_refl). done.
Qed.

(** *** Long names *)

Lemma alias_prefix f f' :
  (8 < length (base f))%nat → (8 < length (base f'))%nat → take 6 (base f) = take 6 (base f') → ext f = ext f' → alias11 f 1 = alias11 f' 1.
Proof.
  intros H H' Eb Ee. unfold alias11. change (1 <? 10) with true. cbv iota. change (8 - 1 - 1) with 6. change (6 <? 1) with false. cbv iota.
  rewrite !Z.gtb_ltb, !(proj2 (Z.ltb_ge _ _)) by lia. change (Z.to_nat 6) with 6%nat. by rewrite Eb, Ee.
Qed.

Lemma name11_equal_prefix e a : take 11 e = a → name11_equal e a = true.
Proof.
  intros <-. unfold name11_equal. apply forallb_forall. intros i Hi%list_elem_of_In%elem_of_seqZ. apply Z.eqb_eq. f_equal.
  unfold aget. rewrite (proj2 (Z.ltb_ge i 0)), lookup_take_lt by lia. done.
Qed.

Lemma name11_long name f : split_name name = inr f → (8 < length (base f))%nat → name11_of name = inr (alias11 f 1).
Proof. intros E H. unfold name11_of. rewrite E. unfold fits. by rewrite (proj2 (Z.leb_gt _ _)) by lia. Qed.

(** C35: Two long names with the same first six characters and the same extension
    are not told apart when they are made: with the entry of the first one in
    the directory, creating the second one fails because it exists. *)
Theorem second_long_name I bytes s fuel room name1 name2 f1 f2 e off type :
  ReadsAs I bytes → I s → (length bytes / 32 < fuel)%nat → read_only (geo s.1) = false →
  split_name name1 = inr f1 → split_name name2 = inr f2 → (8 < length (base f1))%nat → (8 < length (base f2))%nat →
  take 6 (base f1) = take 6 (base f2) → ext f1 = ext f2 →
  (e, off) ∈ entries bytes → name11_of name1 = inr (take 11 e) →
  ∃ s', fat_create fuel room name2 type s = (Err (- EEXIST), s').
Proof.
  intros HR HI Hf Hro E1 E2 H1 H2 Eb Ee Hin Ha.
  destruct (wp_for_each I bytes fuel match_name (want_ctx name2) s HI Hf) as (w & s' & E & -> & HI').
  assert (matches name2 e = true) as Hm.
  { unfold matches. rewrite (name11_long _ f2), <- (alias_prefix f1 f2) by done. rewrite (name11_long _ f1) in Ha by done.
    injection Ha as Ha. rewrite name11_equal_prefix by done. apply orb_true_r. }
  destruct (List.find (λ x, matches name2 x.1) (entries bytes)) as [r|] eqn:Ef.
  - exists s'. destruct s as [fs n]. cbn [fst] in *. unfold fat_create, mbind, st_bind, lift, geom. rewrite Hro. unfold try, entry_find, mbind, st_bind.
    rewrite E, scan_match_name, Ef. done.
  - apply list_elem_of_In in Hin. apply (find_none _ _ Ef) in Hin. cbn in Hin. congruence.
Qed.

(** *** An example *)

(** A FAT16 volume with one file in its root, made as [notes2024.txt]. *)
Definition notes_entry : list Z := text "NOTES2~1TXT" ++ [ATTR_ARCHIVE] ++ replicate 20 0.
Definition notes_fs : fat_fs :=
  Fs partition
    (Device DEVICE_BLOCK 512 5022 true true
       (λ i, if i =? 21 then notes_entry ++ replicate 480 0 else replicate 512 0) (λ _, true))
    2 0 false [].
Definition root_node : fat_node := Node VNODE_DIR 0 true 0 0 0 false false 0 0.
Definition notes_state (s : fat_fs * fat_node) : Prop := same notes_fs s.1 ∧ s.2 = root_node.

Lemma notes_fs_ok : fs_ok notes_fs.
Proof.
  split; try done. intros i. cbn [disk notes_fs dev blocks]. destruct (i =? 21); (split; [by vm_compute|]).
  - repeat constructor; done.
  - apply Forall_replicate. done.
Qed.
Lemma notes_reads : ReadsAs notes_state (root_contents partition (disk notes_fs)).
Proof. by apply (root_reads notes_fs root_node notes_fs_ok). Qed.
Lemma notes_now : notes_state (notes_fs, root_node).
Proof. split; [apply same_refl, notes_fs_ok|done]. Qed.


Lemma name83_roundtrip_witness :
  short_name (text "README  TXT" ++ replicate 21 0) = text "readme.txt" ∧ ∃ a, name11_of (text "readme.txt") = inr a ∧ length a = 11%nat.
Proof.
  split; [by vm_compute|]. destruct (name83_roundtrip [114; 101; 97; 100; 109; 101] [116; 120; 116] []) as (a & E & Hl & _).
  - split; [split; [done|]|]; (split; [simpl; lia|]); repeat (apply Forall_cons; split; [left; lia|]); apply Forall_nil_2.
  - by exists a.
Defined.

Lemma second_long_name_witness :
  name11_of (text "notes2024.txt") = inr (text "NOTES2~1TXT") ∧
  ∃ s', fat_create 17 true (text "notes2025.txt") VNODE_FILE (notes_fs, root_node) = (Err (- EEXIST), s').
Proof.
  split; [by vm_compute|].
  eapply (second_long_name notes_state (root_contents partition (disk notes_fs)) (notes_fs, root_node) 17 true
    (text "notes2024.txt") (text "notes2025.txt") _ _ notes_entry 0 VNODE_FILE notes_reads notes_now).
  - vm_compute. lia.
  - done.
  - by vm_compute.
  - by vm_compute.
  - vm_compute. lia.
  - vm_compute. lia.
  - by vm_compute.
  - by vm_compute.
  - vm_compute. by left.
  - by vm_compute.
Defined.

(** ** Mounting *)

Lemma le16_range p o : Forall byte p → 0 ≤ le16 p o < 2 ^ 16.
Proof.
  intros Hp. assert (∀ i, byte (aget 0 p i)) as Hb.
  { intros i. unfold aget. case_if; [done|]. destruct (p !! Z.to_nat i) eqn:E; [by eapply Forall_lookup_1|done]. }
  unfold le16. rewrite lor_byte by apply Hb. pose proof (Hb o). pose proof (Hb (o + 1)). unfold byte in *. lia.
Qed.
Lemma aget_byte p o : Forall byte p → byte (aget 0 p o).
Proof. intros Hp. unfold aget. case_if; [done|]. destruct (p !! Z.to_nat o) eqn:E; [by eapply Forall_lookup_1|done]. Qed.

(** What [fat_mount] accepts lies on the device: the tables, the root
    directory and every cluster are behind each other and end before the
    device does, the numbers do not wrap, and no cluster number is an end
    marker. Provided the table is as long as the clusters need, the volume
    is sound. *)
Theorem fat_mount_sound d r0 r1 r2 fs n :
  (∀ i, length (blocks d i) = 512%nat ∧ Forall byte (blocks d i)) → block_count d < 2 ^ 32 → can_read d = true →
  (∀ k, works d k = true) → fat_mount d r0 r1 r2 = Good (fs, n) →
  n = root_node ∧ disk fs = blocks d ∧ root_bytes (geo fs) mod 32 = 0 ∧
  (table_bytes (geo fs) (cluster_count (geo fs) + 2) ≤ fat_size (geo fs) * SECTOR → fs_ok fs).
Proof.
  intros Hd Hbc Hr Hk. unfold fat_mount. destruct (is_block d) eqn:Eb; [|done]. cbn [negb orb].
  destruct (Z.eqb_spec (block_size d) SECTOR) as [Es|]; [|done]. cbn [negb]. destruct r0; [|done]. cbn [negb].
  destruct (decide (0 < block_count d)) as [Hpos|Hno].
  2: { unfold device_read_blocks. rewrite Eb, Hr. cbn [negb orb]. rewrite !Z.gtb_ltb.
       destruct (Z.ltb_spec (block_count d) 0), (Z.ltb_spec (block_count d - 0) 1); cbn [orb]; try done; lia. }
  rewrite (device_read_one d 0) by (done || lia). set (b := blocks d 0). destruct (Hd 0) as [_ Hby]. fold b in Hby.
  pose proof (le16_range b 14 Hby). pose proof (le16_range b 17 Hby). pose proof (le16_range b 22 Hby).
  pose proof (aget_byte b 13 Hby) as Hspc. pose proof (aget_byte b 16 Hby) as Hfats. unfold byte in Hspc, Hfats.
  set (total := if truth (le16 b 19) then le16 b 19 else le32 b 32). cbn [block_count next_transfer].
  match goal with |- context [if ?c then _ else _] => destruct c eqn:E end; [done|].
  repeat (apply orb_false_iff in E as [E ?]). zbool. cbn [fst snd].
  set (rs := u32 (le16 b 17 * DIRENT_SIZE + SECTOR - 1) / SECTOR).
  assert (0 ≤ rs ≤ 2 ^ 12 ∧ le16 b 17 * 32 ≤ rs * 512) as Hrs.
  { unfold rs, SECTOR in *. rewrite u32_small by lia. dlia. }
  destruct (_ >=? total) eqn:Et; [done|]. destruct (_ >=? 65525) eqn:Ec; [done|]. zbool.
  destruct r1; [|done]. destruct r2; [|done]. cbn [negb orb]. intros [= <- <-].
  assert (0 ≤ aget 0 b 16 * le16 b 22 ≤ 2 ^ 17) as Hfs by nia.
  rewrite !u32_small in * by lia. split; [done|]. split; [done|]. split; [cbn; by apply Z.mod_mul|]. cbn [geo cluster_count fat_size].
  intros Hcov. split; try done.
  all: try (intros; by first [apply Hd | apply Hk]).
  - pose proof (Z.mul_div_le (total - (le16 b 14 + aget 0 b 16 * le16 b 22 + rs)) (aget 0 b 13) ltac:(lia)).
    pose proof (Z.div_pos (total - (le16 b 14 + aget 0 b 16 * le16 b 22 + rs)) (aget 0 b 13) ltac:(lia) ltac:(lia)).
    set (cc := _ / aget 0 b 13) in *. clearbody cc rs total. unfold SECTOR in *.
    split; cbn [geo fat12 fats sectors_per_cluster bytes_per_cluster fat_start fat_size root_start root_bytes data_start cluster_count
      dev block_count next_transfer]; unfold SECTOR; try done; try lia. destruct (Z.ltb_spec cc 4085); lia.
  - cbn. by destruct (can_write d).
  - cbn [geo cluster_count hint]. pose proof (Z.div_pos (total - (le16 b 14 + aget 0 b 16 * le16 b 22 + rs)) (aget 0 b 13) ltac:(lia) ltac:(lia)). lia.
Qed.

(** But the length of the table is not checked. This boot sector describes a
    FAT12 volume of nearly four thousand clusters with tables of one sector,
    and it is accepted: the entry of cluster 3000 is in the root directory. *)
Definition boot_sector : list Z :=
  let b := put_le16 (replicate 512 0) 11 512 in
  let b := aset b 13 1 in
  let b := put_le16 b 14 1 in
  let b := aset b 16 2 in
  let b := put_le16 b 17 512 in
  let b := put_le16 b 19 4000 in
  let b := aset b 21 0xF8 in
  let b := put_le16 b 22 1 in
  put_le16 b 510 0xAA55.
Definition short_dev : device :=
  Device DEVICE_BLOCK 512 4000 true true (λ i, if i =? 0 then boot_sector else replicate 512 0) (λ _, true).

Lemma fat_mount_short_table :
  ∃ fs n, fat_mount short_dev true true true = Good (fs, n) ∧ valid_cluster (geo fs) 3000 = true ∧
    in_root (geo fs) (fat_start (geo fs) + entry_offset (geo fs) 3000 / SECTOR).
Proof. eexists _, _. split; [vm_compute; reflexivity|]. split; [by vm_compute|]. split; by vm_compute. Qed.

(** A sound one: the same with tables of twelve sectors. *)
Definition good_dev : device :=
  Device DEVICE_BLOCK 512 4000 true true (λ i, if i =? 0 then put_le16 boot_sector 22 12 else replicate 512 0) (λ _, true).

Lemma fat_mount_sound_witness :
  ∃ fs n, fat_mount good_dev true true true = Good (fs, n) ∧ fs_ok fs.
Proof.
  destruct (fat_mount good_dev true true true) as [[fs n]| |] eqn:E; [|vm_compute in E; discriminate|vm_compute in E; discriminate].
  exists fs, n. split; [reflexivity|].
  assert (geo fs = Geometry true false 2 1 512 1 12 25 16384 57 3943) as Eg by (vm_compute in E; injection E as <- <-; reflexivity).
  apply (fat_mount_sound good_dev true true true fs n); [|done|done|done|exact E|].
  - intros i. cbn [good_dev blocks]. destruct (i =? 0); (split; [by vm_compute|]); [|apply Forall_replicate; done].
    vm_compute. repeat constructor; done.
  - rewrite Eg. by vm_compute.
Defined.
