(* ===== verification/FatOps.v ===== *)
(** * The FAT file system: creating, removing and renaming files

    [fat_create], [fat_remove] and [fat_rename] on the root directory of a
    FAT16 volume, as changes of the list of its slots and of what is visible
    in it. *)
From S2P Require Import Prelude StateM Abi Fat FatTable FatData FatDir.
Local Open Scope Z_scope.

(** ** Slots *)

Implicit Types (e : list Z) (slots : list (list Z)).

(** The visible entries of the slots, the first of which has index [i]. *)
Fixpoint visible (i : nat) (slots : list (list Z)) : list (list Z * Z) :=
  match slots with
  | [] => []
  | e :: slots =>
      if aget 0 e 0 =? ENTRY_END then []
      else (if skipped e then [] else [(e, 32 * Z.of_nat i)]) ++ visible (S i) slots
  end.

Lemma slot_concat slots i e :
  Forall (λ e, length e = 32%nat) slots → slots !! i = Some e → take 32 (drop (32 * i) (concat slots)) = e.
Proof.
  intros Hl E. rewrite Nat.mul_comm, (drop_concat_uniform 32) by done. rewrite (drop_S _ _ _ E). cbn [concat].
  apply take_app_length'. rewrite Forall_forall in Hl. symmetry. apply Hl. by eapply list_elem_of_lookup_2.
Qed.

Lemma entries_visible slots : Forall (λ e, length e = 32%nat) slots → entries (concat slots) = visible 0 slots.
Proof.
  intros Hl. unfold entries. rewrite (length_concat_uniform 32) by done. rewrite Nat.div_mul by done.
  assert (∀ n i, (i + n = length slots)%nat → entries_from (concat slots) n i = visible i (drop i slots)) as H; [|by apply H].
  induction n as [|n IH]; intros i Hi; cbn [entries_from]; [by rewrite drop_ge by lia|].
  destruct (lookup_lt_is_Some_2 slots i) as [e E]; [lia|]. rewrite (slot_concat _ _ _ Hl E), (drop_S _ _ _ E). cbn [visible].
  by rewrite IH by lia.
Qed.

Definition open_slot (e : list Z) : bool := (aget 0 e 0 =? ENTRY_DELETED) || (aget 0 e 0 =? ENTRY_END).


(** Behind slots without an end marker. *)
Lemma visible_app i (l r : list (list Z)) :
  Forall (λ e, (aget 0 e 0 =? ENTRY_END) = false) l → visible i (l ++ r) = visible i l ++ visible (i + length l) r.
Proof.
  revert i. induction l as [|e l IH]; intros i Hl; cbn [visible app length]; [by rewrite Nat.add_0_r|].
  apply Forall_cons in Hl as [-> Hl]. rewrite IH by done. rewrite <- app_assoc. do 2 f_equal. f_equal. lia.
Qed.


(** One slot of the directory, all before it without an end marker. *)
Lemma visible_at (l : list (list Z)) j e :
  l !! j = Some e → Forall (λ e, (aget 0 e 0 =? ENTRY_END) = false) (take j l) →
  visible 0 l = visible 0 (take j l) ++ visible j (drop j l).
Proof.
  intros E Hf. rewrite <- (take_drop j l) at 1. rewrite visible_app by done. rewrite length_take, Nat.min_l; [done|].
  apply lookup_lt_Some in E. lia.
Qed.

(** *** Marking slots deleted *)








(** *** Placing an entry *)

(** The first slot that can take an entry. *)
Definition first_open slots : option (nat * list Z) := list_find (λ e, open_slot e = true) slots.

(** With an end marker behind the entry, where there is a slot for it. *)
Definition placed (i : nat) e (at_end : bool) slots : list (list Z) :=
  if at_end then <[S i := replicate 32 0]> (<[i := e]> slots) else <[i := e]> slots.

Definition shows e : Prop := (aget 0 e 0 =? ENTRY_END) = false ∧ skipped e = false.

Lemma insert_split slots i x e : slots !! i = Some x → <[i := e]> slots = take i slots ++ e :: drop (S i) slots.
Proof. intros E. rewrite insert_take_drop; [done|]. by eapply lookup_lt_Some. Qed.

Lemma visible_insert slots i x e :
  slots !! i = Some x → Forall (λ e, (aget 0 e 0 =? ENTRY_END) = false) (take i slots) → shows e →
  visible 0 (<[i := e]> slots) = visible 0 (take i slots) ++ (e, 32 * Z.of_nat i) :: visible (S i) (drop (S i) slots).
Proof.
  intros E Hf [H1 H2]. rewrite (insert_split _ _ _ _ E), visible_app by done. f_equal. cbn [visible]. rewrite H1, H2. cbn [app].
  rewrite length_take, Nat.min_l; [done|]. apply lookup_lt_Some in E. lia.
Qed.

Lemma visible_placed slots i x e :
  first_open slots = Some (i, x) → shows e →
  ∃ before after, visible 0 slots = before ++ after ∧
    visible 0 (placed i e (negb (aget 0 x 0 =? ENTRY_DELETED)) slots) = before ++ (e, 32 * Z.of_nat i) :: after.
Proof.
  intros (E & Ho & Hno)%list_find_Some Hs. pose proof (lookup_lt_Some _ _ _ E) as Hi.
  assert (Forall (λ e, (aget 0 e 0 =? ENTRY_END) = false) (take i slots)) as Hf.
  { apply Forall_lookup. intros j y Hj. apply lookup_take_Some in Hj as [Ey Hj]. specialize (Hno j y Ey Hj).
    apply not_true_is_false, orb_false_iff in Hno. tauto. }
  rewrite (visible_at _ _ _ E Hf), (drop_S _ _ _ E). cbn [visible]. unfold placed.
  destruct (aget 0 x 0 =? ENTRY_DELETED) eqn:Ed; cbn [negb].
  - exists (visible 0 (take i slots)), (visible (S i) (drop (S i) slots)). rewrite (visible_insert _ _ _ _ E Hf Hs). split; [|done].
    assert (aget 0 x 0 = ENTRY_DELETED) as Ex by by apply Z.eqb_eq. unfold skipped. by rewrite Ex.
  - unfold open_slot in Ho. rewrite Ed in Ho. cbn [orb] in Ho. rewrite Ho. exists (visible 0 (take i slots)), [].
    split; [done|]. rewrite list_insert_insert_ne by lia.
    destruct (decide (S i < length slots)%nat) as [Hl|Hl].
    + assert (<[S i := replicate 32 0]> slots !! i = Some x) as E' by by rewrite list_lookup_insert_ne by lia.
      rewrite (visible_insert _ _ _ _ E'), take_insert_ge by (done || lia || by rewrite take_insert_ge by lia).
      do 2 f_equal. rewrite (drop_S _ (replicate 32 0)) by (by apply list_lookup_insert_eq). done.
    + rewrite (list_insert_ge slots (S i)) by lia. rewrite (visible_insert _ _ _ _ E Hf Hs). do 2 f_equal. by rewrite drop_ge by lia.
Qed.

(** *** Taking an entry away *)







(** *** By offset *)











(** ** What the 11 bytes of a name are *)

Definition name_byte (c : Z) : Prop := 33 ≤ c < 127 ∧ c ≠ 46.

Lemma name_char_byte c : name_byte (name_char c).
Proof.
  unfold name_char. set (u := upper_char c). destruct ((_ && _) || _) eqn:E1.
  - unfold name_byte. rewrite !Z.geb_leb in E1. apply orb_true_iff in E1 as [E1|E1]; apply andb_true_iff in E1 as [? ?]; rewrite Z.leb_le in *; lia.
  - destruct (existsb (Z.eqb u) ALLOWED) eqn:E2; [|unfold name_byte; lia].
    apply existsb_exists in E2 as (x & Hx & ->%Z.eqb_eq). unfold name_byte. cbn in Hx. lia.
Qed.

Lemma name11_bytes name a :
  name11_of name = inr a → length a = 11%nat ∧ Forall byte a ∧ name_byte (aget 0 a 0).
Proof.
  unfold name11_of. destruct (split_name name) as [|f] eqn:Ef; [done|]. intros [= <-].
  assert (Forall name_byte (base f) ∧ Forall name_byte (ext f) ∧ base f ≠ []) as (Hb & He & Hne).
  { unfold split_name in Ef. destruct name as [|c name']; [done|]. set (name := c :: name') in *.
    set (dot := match last_dot name 0 None with Some d => _ | None => _ end) in Ef. injection Ef as <-. cbn [base ext].
    split; [apply Forall_fmap, Forall_true; intros; apply name_char_byte|]. split; [apply Forall_fmap, Forall_true; intros; apply name_char_byte|].
    destruct dot as [d|] eqn:Ed; [|done]. assert (0 < d) as Hd.
    { subst dot. destruct (last_dot _ _ _) as [d'|]; [|done]. destruct (d' >? 0) eqn:E; [|done]. injection Ed as ->. rewrite Z.gtb_ltb in E. by apply Z.ltb_lt in E. }
    unfold name. replace (Z.to_nat d) with (S (Z.to_nat (d - 1))) by lia. done. }
  assert (∀ k l, Forall name_byte l → length (pad k l) = k ∧ Forall byte (pad k l)) as Hp.
  { intros k l Hl. unfold pad. split; [rewrite length_take, length_app, length_replicate; lia|].
    apply Forall_take, Forall_app. split; [eapply Forall_impl; [exact Hl|]; unfold name_byte, byte; lia|apply Forall_replicate; unfold byte; lia]. }
  assert (∀ l x, Forall name_byte l → Forall name_byte x → l ≠ [] →
    length (pack11 l x) = 11%nat ∧ Forall byte (pack11 l x) ∧ name_byte (aget 0 (pack11 l x) 0)) as Hk.
  { intros l x Hl Hx Hn. unfold pack11. destruct (Hp 8%nat l Hl) as [L1 B1], (Hp 3%nat x Hx) as [L2 B2].
    split; [rewrite length_app; lia|]. split; [by apply Forall_app|]. destruct l as [|c l]; [done|]. by apply Forall_cons in Hl as [Hc _]. }
  destruct (fits f); [by apply Hk|]. unfold alias11. apply Hk; [|done|].
  - apply Forall_app. split; [by apply Forall_take|]. cbn. change (48 + 1 mod 10) with 49. repeat (apply Forall_cons_2; [unfold name_byte; lia|]). apply Forall_nil_2.
  - intros H. by apply app_eq_nil in H as [_ ?].
Qed.

(** *** New entries *)

(** The entry of a new, empty file. *)
Definition new_entry (name11 : list Z) : list Z :=
  put_le16 (put_le16 (name11 ++ [ATTR_ARCHIVE] ++ replicate 20 0) 16 FAT_DATE_EPOCH) 24 FAT_DATE_EPOCH.

Lemma new_entry_ok a :
  length a = 11%nat → Forall byte a → name_byte (aget 0 a 0) →
  length (new_entry a) = 32%nat ∧ Forall byte (new_entry a) ∧ shows (new_entry a) ∧ take 11 (new_entry a) = a.
Proof.
  intros Hl Hb [H1 H2]. set (e0 := a ++ [ATTR_ARCHIVE] ++ replicate 20 0).
  assert (length e0 = 32%nat) as L0 by (unfold e0; rewrite !length_app, Hl; done).
  assert (Forall byte e0) as B0.
  { unfold e0. rewrite !Forall_app. split; [done|]. split; [apply Forall_singleton; unfold byte; lia|apply Forall_replicate; unfold byte; lia]. }
  destruct (put_le16_ok e0 16 FAT_DATE_EPOCH L0 B0) as [L1 B1]. destruct (put_le16_ok _ 24 FAT_DATE_EPOCH L1 B1) as [L2 B2].
  split; [done|]. split; [done|]. unfold e0, new_entry, shows, skipped. clear -Hl H1 H2.
  destruct a as [|c a]; [done|]. do 10 (destruct a as [|? a]; [done|]). destruct a; [|done]. change (33 ≤ c < 127) in H1. change (c ≠ 46) in H2.
  cbn -[Z.eqb Z.land]. 
  rewrite !(proj2 (Z.eqb_neq c _)) by lia. done.
Qed.

Lemma find_none_iff {A} (f : A → bool) l : List.find f l = None ↔ ∀ x, x ∈ l → f x = false.
Proof.
  induction l as [|y l IH]; cbn; [split; [intros _ x Hx; by apply elem_of_nil in Hx|done]|]. destruct (f y) eqn:E.
  - split; [done|]. intros H. rewrite H in E; [done|by left].
  - rewrite IH. split; intros H x Hx; [apply elem_of_cons in Hx as [->|Hx]; auto|apply H; by right].
Qed.

(** ** The root directory *)

(** The state: the directory's slots, and [T] for the rest of the disk. *)
Record root_dir (g : geometry) (n : fat_node) (T : Z → list Z) (slots : list (list Z)) (s : fat_fs * fat_node) : Prop := {
  rd_ok : fs_ok s.1;
  rd_geo : geo s.1 = g;
  rd_node : s.2 = n;
  rd_length : Z.of_nat (length slots) * 32 = root_bytes g;
  rd_slot i e : slots !! i = Some e → root_entry g (disk s.1) (32 * Z.of_nat i) = e;
  rd_rest i : ¬ in_root g i → disk s.1 i = T i
}.

Section root.
Context (g : geometry) (n : fat_node).
Context (Hfix : fixed_root n = true) (Hro : read_only g = false) (Hb : root_bytes g + 32 < 2 ^ 32).
Implicit Types (T : Z → list Z) (s : fat_fs * fat_node).
Local Abbreviation dir := (root_dir g n).

Lemma rd_same T slots s s' : dir T slots s → same s.1 s'.1 → s'.2 = n → dir T slots s'.
Proof.
  intros [] Hs Hn. pose proof (up_geo _ _ _ Hs) as Eg. split; [apply Hs|by rewrite Eg|done|done| |].
  - intros i e E. rewrite <- (rd_slot0 i e E). unfold root_entry. by rewrite (up_disk _ _ _ Hs).
  - intros i Hi. rewrite (up_disk _ _ _ Hs). by apply rd_rest0.
Qed.

Lemma rd_root_slot T slots s i : dir T slots s → (i < length slots)%nat → root_slot g (32 * Z.of_nat i).
Proof. intros [] Hi. unfold root_slot. split_and!; [lia|rewrite Z.mul_comm; by apply Z.mod_mul|lia]. Qed.

Lemma rd_entry T slots s i e : dir T slots s → slots !! i = Some e → length e = 32%nat ∧ Forall byte e.
Proof.
  intros Hd E. pose proof (rd_root_slot _ _ _ i Hd ltac:(by eapply lookup_lt_Some)) as Hs. destruct Hd. rewrite <- (rd_slot0 i e E).
  rewrite <- rd_geo0 in *. split; [by apply length_root_entry|by apply root_entry_bytes].
Qed.

Lemma rd_lengths T slots s : dir T slots s → Forall (λ e, length e = 32%nat) slots.
Proof. intros Hd. apply Forall_lookup. intros i e E. by apply (rd_entry _ _ _ _ _ Hd E). Qed.

Lemma rd_read T slots s i e :
  dir T slots s → slots !! i = Some e → wp (node_read (32 * Z.of_nat i) DIRENT_SIZE) s (λ r s', r = e ∧ dir T slots s').
Proof.
  intros Hd E. pose proof (rd_root_slot _ _ _ i Hd ltac:(by eapply lookup_lt_Some)) as Hs. destruct s as [fs n1].
  pose proof Hd as [Hok Hg Hn _ Hsl _]. cbn [fst snd] in *. subst n1.
  eapply wp_conseq; [apply wp_root_read; [done|done|by rewrite Hg]|]. intros r s' (-> & Hs' & Hn'). rewrite Hg.
  split; [by apply Hsl|by eapply rd_same].
Qed.

Lemma rd_read_end T slots s :
  dir T slots s → wp (node_read (32 * Z.of_nat (length slots)) DIRENT_SIZE) s (λ r s', r = [] ∧ dir T slots s').
Proof.
  intros Hd. destruct s as [fs n1]. pose proof Hd as [_ Hg Hn Hl _ _]. cbn [fst snd] in *. subst n1. exists [], (fs, n). split; [|done].
  unfold node_read. change (Z.to_nat DIRENT_SIZE) with (S 31). generalize 31%nat. intros k. cbn [node_read_loop].
  unfold mbind, st_bind, lift, geom, node, mret, st_ret. cbn [length]. change (Z.of_nat 0 <? DIRENT_SIZE) with true. cbn [negb].
  by rewrite Hfix, Hg, Z.geb_leb, (proj2 (Z.leb_le _ _)) by lia.
Qed.

#[local] Instance rd_reads T slots :
  Forall (λ e, length e = 32%nat) slots → Z.of_nat (length slots) * 32 = root_bytes g → ReadsAs (dir T slots) (concat slots).
Proof.
  intros Hl Hn. pose proof (length_concat_uniform 32 _ Hl) as Hc. split.
  - intros s off Hd Ho Hm. replace off with (32 * Z.of_nat (Z.to_nat (off / 32))) by dlia. set (i := Z.to_nat (off / 32)).
    assert (i ≤ length slots)%nat as Hi by (unfold i; dlia). destruct (decide (i = length slots)) as [->|Hne].
    + eapply wp_conseq; [by apply rd_read_end|]. intros r s' [-> Hd']. split; [|done].
      rewrite drop_ge by (rewrite Hc; lia). done.
    + destruct (lookup_lt_is_Some_2 slots i) as [e E]; [lia|]. eapply wp_conseq; [by apply rd_read|]. intros r s' [-> Hd'].
      split; [|done]. symmetry. replace (Z.to_nat (32 * Z.of_nat i)) with (32 * i)%nat by lia. by apply slot_concat.
  - rewrite Hc. by apply Nat.Div0.mod_mul.
  - rewrite Hc. lia.
Qed.

Lemma rd_for_each {C} fuel (fn : list Z → list Z → Z → C → bool * C) ctx T slots s :
  dir T slots s → (length slots < fuel)%nat →
  wp (for_each_entry fuel fn ctx) s (λ c s', c = scan fn (visible 0 slots) ctx ∧ dir T slots s').
Proof.
  intros Hd Hf. pose proof (rd_lengths _ _ _ Hd) as Hl. rewrite <- (entries_visible slots) by done.
  pose proof (rd_reads T slots Hl (rd_length _ _ _ _ _ Hd)). apply wp_for_each; [done|done|].
  rewrite (length_concat_uniform 32) by done. by rewrite Nat.div_mul.
Qed.

Lemma rd_find fuel name T slots s :
  dir T slots s → (length slots < fuel)%nat →
  ∃ s', dir T slots s' ∧ entry_find fuel name s =
    (match List.find (λ x, matches name x.1) (visible 0 slots) with Some r => Good r | None => Err (- ENOENT) end, s').
Proof.
  intros Hd Hf. destruct (rd_for_each fuel match_name (want_ctx name) T slots s Hd Hf) as (w & s' & E & -> & Hd').
  exists s'. split; [done|]. unfold entry_find, mbind, st_bind. rewrite E, scan_match_name. by destruct (List.find _ _).
Qed.


Lemma rd_write T slots s i e err :
  dir T slots s → (i < length slots)%nat → length e = 32%nat → Forall byte e →
  wp (write_all node_write (32 * Z.of_nat i) e err) s (λ _ s', dir T (<[i := e]> slots) s').
Proof.
  intros Hd Hi Hl Hby. pose proof (rd_root_slot _ _ _ i Hd Hi) as Hs. destruct s as [fs n1].
  pose proof Hd as [Hok Hg Hn Hlen Hsl Hr]. cbn [fst snd] in *. subst n1. pose proof (ok_geo _ Hok) as Hgo. rewrite Hg in Hgo.
  eapply wp_conseq; [apply (wp_write_entry sync_entry fs n); [done|by rewrite Hg|done|by rewrite Hg|done|done]|].
  intros _ s' [Hn' Hu]. rewrite Hg in *. split; [apply Hu|by rewrite (up_geo _ _ _ Hu)|done|by rewrite length_insert| |].
  - intros j x Ej. assert (j < length slots)%nat as Hj by (apply lookup_lt_Some in Ej; by rewrite length_insert in Ej).
    pose proof (rd_root_slot _ _ _ j Hd Hj) as Hsj. unfold root_entry. rewrite (up_disk _ _ _ Hu). fold (root_entry g (write_to (disk fs) (root_sector g (32 * Z.of_nat i)) (splice (disk fs (root_sector g (32 * Z.of_nat i))) (Z.to_nat (32 * Z.of_nat i mod SECTOR)) e)) (32 * Z.of_nat j)).
    rewrite (root_entry_write g _ _ _ _ _ Hgo) by (done || intros; apply Hok). destruct (Z.eqb_spec (32 * Z.of_nat j) (32 * Z.of_nat i)) as [Eq|Ne].
    + assert (j = i) as -> by lia. rewrite list_lookup_insert_eq in Ej by done. congruence.
    + apply Hsl. rewrite list_lookup_insert_ne in Ej by lia. done.
  - intros j Hj. rewrite (up_disk _ _ _ Hu). unfold write_to. destruct (Z.eqb_spec j (root_sector g (32 * Z.of_nat i))) as [->|]; [|by apply Hr].
    destruct Hj. by apply (root_sector_range _ _ _ Hgo Hs).
Qed.

(** *** The helpers of the operations *)

Lemma rd_slot_loop fuel T slots s i :
  dir T slots s → (i ≤ length slots)%nat → (length slots - i < fuel)%nat →
  ∃ s', dir T slots s' ∧ entry_slot_loop fuel (32 * Z.of_nat i) s =
    (match first_open (drop i slots) with
     | Some (k, e) => Good (32 * Z.of_nat (i + k), negb (aget 0 e 0 =? ENTRY_DELETED))
     | None => Err (- ENOSPC)
     end, s').
Proof.
  revert s i. induction fuel as [|fuel IH]; intros s i Hd Hi Hf; [lia|]. cbn [entry_slot_loop].
  assert (fixed_root s.2 = true) as Hfs by (by rewrite (rd_node _ _ _ _ _ Hd)).
  destruct (decide (i = length slots)) as [->|Hne].
  - destruct (rd_read_end _ _ _ Hd) as (? & s' & E & -> & Hd'). exists s'. split; [done|].
    unfold mbind, st_bind, node, try. destruct s as [fs n1]. rewrite E. cbn [fst snd] in *. rewrite drop_ge by done. cbn. by rewrite Hfs.
  - destruct (lookup_lt_is_Some_2 slots i) as [e Ee]; [lia|]. pose proof (rd_entry _ _ _ _ _ Hd Ee) as [Hl _].
    destruct (rd_read _ _ _ _ _ Hd Ee) as (? & s' & E & -> & Hd').
    rewrite (drop_S _ _ _ Ee). unfold first_open. cbn [list_find].
    unfold mbind at 1 2, st_bind at 1 2, node, try. destruct s as [fs n1]. rewrite E. rewrite Hl. change (Z.of_nat 32 <? DIRENT_SIZE) with false. cbv iota.
    assert (open_slot e = (aget 0 e 0 =? ENTRY_DELETED) || (aget 0 e 0 =? ENTRY_END)) as Eo by done.
    destruct (decide (open_slot e = true)) as [Ht|Ht]; [rewrite Ht in Eo|apply not_true_is_false in Ht; rewrite Ht in Eo; symmetry in Eo; apply orb_false_iff in Eo as [E1 E2]; rewrite E1, E2].
    + exists s'. split; [done|]. rewrite Nat.add_0_r. destruct (aget 0 e 0 =? ENTRY_DELETED); [done|]. cbn [orb] in Eo. by rewrite <- Eo.
    + rewrite u32_small by (pose proof (rd_length _ _ _ _ _ Hd); pose proof Hb; lia).
      replace (32 * Z.of_nat i + DIRENT_SIZE) with (32 * Z.of_nat (S i)) by (lia).
      destruct (IH s' (S i) Hd' ltac:(lia) ltac:(lia)) as (s'' & Hd'' & E''). exists s''. split; [done|]. rewrite E''.
      unfold first_open. destruct (list_find _ (drop (S i) slots)) as [[k x]|]; cbn; [|done]. do 2 f_equal. f_equal. lia.
Qed.

Lemma rd_slot_found fuel T slots s :
  dir T slots s → (length slots < fuel)%nat →
  ∃ s', dir T slots s' ∧ entry_slot fuel s =
    (match first_open slots with
     | Some (k, e) => Good (32 * Z.of_nat k, negb (aget 0 e 0 =? ENTRY_DELETED))
     | None => Err (- ENOSPC)
     end, s').
Proof.
  intros Hd Hf. destruct (rd_slot_loop fuel T slots s 0 Hd) as (s' & Hd' & E); [lia|lia|]. exists s'. split; [done|].
  rewrite drop_0 in E. exact E.
Qed.

Lemma rd_place T slots s i e at_end :
  dir T slots s → (i < length slots)%nat → length e = 32%nat → Forall byte e →
  wp (entry_place (32 * Z.of_nat i) e at_end) s (λ _ s', dir T (placed i e at_end slots) s').
Proof.
  intros Hd Hi Hl Hby. unfold entry_place, placed. eapply wp_bind; [by apply rd_write|]. intros [] s1 Hd1.
  destruct at_end; cbn [negb]; [|by apply wp_ret]. rewrite u32_small by (pose proof (rd_length _ _ _ _ _ Hd); pose proof Hb; lia).
  replace (32 * Z.of_nat i + DIRENT_SIZE) with (32 * Z.of_nat (S i)) by (lia).
  destruct (decide (S i = length slots)) as [E|Hne].
  - rewrite (list_insert_ge (<[i := e]> slots) (S i)) by (rewrite length_insert; lia). rewrite E, <- (length_insert slots i e). eapply wp_bind; [by apply wp_attempt, rd_read_end|]. intros ? s2 (? & -> & -> & Hd2).
    by apply wp_ret.
  - destruct (lookup_lt_is_Some_2 (<[i := e]> slots) (S i)) as [x Ex]; [rewrite length_insert; lia|].
    eapply wp_bind; [by apply wp_attempt, rd_read|]. intros ? s2 (? & -> & -> & Hd2).
    rewrite (proj1 (rd_entry _ _ _ _ _ Hd1 Ex)). change (Z.of_nat 32 =? DIRENT_SIZE) with true. cbv iota.
    apply rd_write; [done|rewrite length_insert; lia|done|]. by apply Forall_replicate.
Qed.







(** *** Names *)

Lemma rd_taken fuel want skip T slots s :
  dir T slots s → (length slots < fuel)%nat → (∀ x, x ∈ visible 0 slots → Some x.2 ≠ skip → name11_equal x.1 want = false) →
  wp (name_taken fuel want skip) s (λ b s', b = false ∧ dir T slots s').
Proof.
  intros Hd Hf Hn. eapply wp_conseq; [by apply rd_for_each|]. intros b s' [-> Hd']. split; [|done].
  revert Hn. generalize (visible 0 slots). clear. intros l. induction l as [|[e off] l IH]; intros Hn; [done|]. cbn [scan]. unfold match11 at 1.
  pose proof (Hn (e, off) ltac:(by left)) as H. cbn [fst snd] in H.
  assert (scan (match11 want skip) l false = false) as IH' by (apply IH; intros x Hx; apply Hn; by right).
  destruct skip as [o|].
  - destruct (Z.eqb_spec off o) as [->|Hne]; [done|]. rewrite H by congruence. done.
  - by rewrite H.
Qed.

Lemma rd_entry_name fuel name a skip T slots s :
  dir T slots s → (length slots < fuel)%nat → name11_of name = inr a →
  (∀ x, x ∈ visible 0 slots → Some x.2 ≠ skip → matches name x.1 = false) →
  wp (make_entry_name fuel name skip) s (λ r s', r = a ∧ dir T slots s').
Proof.
  intros Hd Hf Ha Hn.
  assert (∀ x, x ∈ visible 0 slots → Some x.2 ≠ skip → name11_equal x.1 a = false) as Hn'.
  { intros x Hx Hs. specialize (Hn x Hx Hs). unfold matches in Hn. rewrite Ha in Hn. by apply orb_false_iff in Hn as [_ Hn]. }
  unfold name11_of in Ha. unfold make_entry_name. destruct (split_name name) as [|f]; [done|]. injection Ha as Ha.
  destruct (fits f).
  - rewrite Ha. eapply wp_bind; [by apply rd_taken|]. intros b s1 [-> Hd1]. by apply wp_ret.
  - change 999%nat with (S 998). generalize 998%nat. intros k. cbn [make_alias]. rewrite Ha.
    eapply wp_bind; [by apply rd_taken|]. intros b s1 [-> Hd1]. by apply wp_ret.
Qed.

(** ** The operations *)

Lemma bind_geom {A} (f : geometry → nio A) T slots s : dir T slots s → (lift geom ≫= f) s = f g s.
Proof. intros Hd. rewrite <- (rd_geo _ _ _ _ _ Hd). by destruct s. Qed.

Lemma bind_this {A} (f : fat_node → nio A) T slots s : dir T slots s → (node ≫= f) s = f n s.
Proof. intros Hd. rewrite <- (rd_node _ _ _ _ _ Hd). by destruct s. Qed.

Lemma find_app_none {A} (f : A → bool) l x r : List.find f (l ++ r) = None → f x = true → List.find f (l ++ x :: r) = Some x.
Proof. intros Hn Hx. induction l as [|y l IH]; cbn in *; [by rewrite Hx|]. destruct (f y); [done|by apply IH]. Qed.

(** C4: creating a file in the root directory. A name that is there is
    [EEXIST], a directory without a free slot is [ENOSPC], both without a
    change. Otherwise the first free slot takes an entry for an empty file
    under the name's 11 bytes; every other entry stays visible, in its order,
    nothing that followed the end marker appears, the rest of the disk is as
    it was, and a search for the name finds the new entry. *)
Theorem fat_create_file T slots s fuel name a :
  dir T slots s → (length slots < fuel)%nat → name11_of name = inr a →
  ∃ r s', fat_create fuel true name VNODE_FILE s = (r, s') ∧
  match List.find (λ x, matches name x.1) (visible 0 slots), first_open slots with
  | Some _, _ => r = Err (- EEXIST) ∧ dir T slots s'
  | None, None => r = Err (- ENOSPC) ∧ dir T slots s'
  | None, Some (i, _) =>
      let off := 32 * Z.of_nat i in
      r = Good (Node VNODE_FILE 0 false 0 0 0 true true (first_cluster n) off) ∧
      ∃ slots' before after,
        dir T slots' s' ∧ visible 0 slots = before ++ after ∧ visible 0 slots' = before ++ (new_entry a, off) :: after ∧
        List.find (λ x, matches name x.1) (visible 0 slots') = Some (new_entry a, off)
  end.
Proof.
  intros Hd Hf Ha. destruct (rd_find fuel name T slots s Hd Hf) as (s1 & Hd1 & E1).
  unfold fat_create. rewrite (bind_geom _ _ _ _ Hd), Hro.
  destruct (List.find (λ x, matches name x.1) (visible 0 slots)) as [x|] eqn:Ef.
  { rewrite (bind_try_good _ _ _ _ _ E1). by exists (Err (- EEXIST)), s1. }
  rewrite (bind_try_err _ _ _ _ _ E1), Z.eqb_refl. cbn [negb]. pose proof (proj1 (find_none_iff _ _) Ef) as Hnone.
  destruct (rd_entry_name fuel name a None T slots s1 Hd1 Hf Ha) as (? & s2 & E2 & -> & Hd2); [by intros; apply Hnone|].
  rewrite (bind_good _ _ _ _ _ E2). destruct (rd_slot_found fuel T slots s2 Hd2 Hf) as (s3 & Hd3 & E3).
  destruct (first_open slots) as [[i x]|] eqn:Eo; [|rewrite (bind_err _ _ _ _ _ E3); by exists (Err (- ENOSPC)), s3].
  rewrite (bind_good _ _ _ _ _ E3). cbn [is_dir]. cbv beta iota zeta.
  destruct (name11_bytes _ _ Ha) as (La & Ba & Na). destruct (new_entry_ok a La Ba Na) as (Le & Be & Hs & Ht).
  destruct (rd_place T slots s3 i (new_entry a) (negb (aget 0 x 0 =? ENTRY_DELETED)) Hd3) as ([] & s4 & E4 & Hd4);
    [apply list_find_Some in Eo as [Ei _]; by eapply lookup_lt_Some|done|done|].
  rewrite (bind_good (mret _) s3 s3 _ _ eq_refl). cbv beta iota. rewrite (bind_try_good _ _ _ _ _ E4), (bind_this _ _ _ _ Hd4), Hfix.
  eexists _, s4. split; [done|]. split; [done|]. destruct (visible_placed _ _ _ _ Eo Hs) as (before & after & V1 & V2).
  eexists _, before, after. split; [done|]. split; [done|]. split; [done|]. rewrite V2. apply find_app_none; [by rewrite <- V1|].
  unfold matches. cbn [fst]. rewrite Ha, (name11_equal_prefix _ _ Ht). apply orb_true_r.
Qed.



(** *** Renaming *)




End root.

(** ** An example *)

Definition notes_slots : list (list Z) := notes_entry :: replicate 15 (replicate 32 0).

Lemma notes_dir : root_dir partition root_node (disk notes_fs) notes_slots (notes_fs, root_node).
Proof.
  split; [apply notes_fs_ok|done|done|by vm_compute| |done]. intros i e E. pose proof (lookup_lt_Some _ _ _ E) as Hi.
  change (length notes_slots) with 16%nat in Hi.
  do 16 (destruct i as [|i]; [injection E as <-; by vm_compute|]). lia.
Qed.

Lemma fat_create_file_witness :
  ∃ s', fat_create 17 true (text "todo") VNODE_FILE (notes_fs, root_node) = (Good (Node VNODE_FILE 0 false 0 0 0 true true 0 32), s') ∧
    ∃ slots', root_dir partition root_node (disk notes_fs) slots' s' ∧
      List.find (λ x, matches (text "todo") x.1) (visible 0 slots') = Some (new_entry (text "TODO       "), 32).
Proof.
  destruct (fat_create_file partition root_node eq_refl eq_refl eq_refl (disk notes_fs) notes_slots (notes_fs, root_node) 17
    (text "todo") (text "TODO       ") notes_dir) as (r & s' & E & H); [vm_compute; lia|by vm_compute|].
  assert (List.find (λ x, matches (text "todo") x.1) (visible 0 notes_slots) = None) as Ef by by vm_compute.
  assert (first_open notes_slots = Some (1%nat, replicate 32 0)) as Eo by by vm_compute.
  rewrite Ef, Eo in H. destruct H as [-> (slots' & before & after & Hd & _ & _ & V)]. exists s'. split; [exact E|]. by exists slots'.
Defined.


