(* ===== verification/Libc.v ===== *)
(** * The C library: numbers, searching and formatting

    [libc/divdi3.c]: 64-bit division out of 32-bit instructions.
    [libc/ctype.c] and [libc/stdlib.c]: parsing numbers, [qsort],
    [bsearch]. [libc/format.c] and [vsnprintf] of [libc/stdio.c]: the
    engine behind [printf].

    A C string is the list of its bytes without the terminating NUL; reading
    at its end gives 0. [int], [long] and pointers are 32 bits wide. *)
From S2P Require Import Prelude Abi.

Local Open Scope Z_scope.

(** ** 64-bit division *)

(** The [divl] instruction: the 64-bit [hi:lo] by the 32-bit [d]; [None] is
    the divide fault. *)
Definition divl (hi lo d : Z) : option (Z * Z) :=
  let n := hi * 2 ^ 32 + lo in
  if (d =? 0) || (2 ^ 32 <=? n / d) then None else Some (n / d, n mod d).

(** [while (!(d >> 63) && (d << 1) <= n) { d <<= 1; shift++; }] *)
Fixpoint align_divisor (fuel : nat) (n d : Z) (shift : nat) : option (Z * nat) :=
  if (Z.shiftr d 63 =? 0) && (u64 (Z.shiftl d 1) <=? n) then
    match fuel with
    | O => None
    | S fuel => align_divisor fuel n (u64 (Z.shiftl d 1)) (S shift)
    end
  else Some (d, shift).

(** The loop of shifts and subtractions, one quotient bit a turn. *)
Fixpoint divide_shifted (shift : nat) (n d q : Z) : Z * Z :=
  let q := u64 (Z.shiftl q 1) in
  let '(n, q) := if d <=? n then (n - d, Z.lor q 1) else (n, q) in
  match shift with
  | O => (q, n)
  | S shift => divide_shifted shift n (Z.shiftr d 1) q
  end.

(** The quotient and the remainder; [None] is the divide fault. *)
Definition __udivmoddi4 (n d : Z) : option (Z * Z) :=
  if Z.shiftr d 32 =? 0 then
    let hi := u32 (Z.shiftr n 32) in
    let lo := u32 n in
    '(qh, r) ← divl 0 hi (u32 d);
    '(ql, r) ← divl r lo (u32 d);
    Some (Z.lor (Z.shiftl qh 32) ql, r)
  else
    '(d, shift) ← align_divisor 64 n d 0;
    Some (divide_shifted shift n d 0).

Definition __udivdi3 (n d : Z) : option Z := fst <$> __udivmoddi4 n d.
Definition __umoddi3 (n d : Z) : option Z := snd <$> __udivmoddi4 n d.

(** The signed routines take and return the values of the 64-bit patterns. *)
Definition __divdi3 (n d : Z) : option Z :=
  let un := if n <? 0 then u64 (0 - u64 n) else u64 n in
  let ud := if d <? 0 then u64 (0 - u64 d) else u64 d in
  '(q, _) ← __udivmoddi4 un ud;
  Some (if xorb (n <? 0) (d <? 0) then signed 64 (u64 (0 - q)) else signed 64 q).

Definition __moddi3 (n d : Z) : option Z :=
  let un := if n <? 0 then u64 (0 - u64 n) else u64 n in
  let ud := if d <? 0 then u64 (0 - u64 d) else u64 d in
  '(_, r) ← __udivmoddi4 un ud;
  Some (if n <? 0 then signed 64 (u64 (0 - r)) else signed 64 r).

(** ** Characters *)

Definition isdigit (c : Z) : bool := (48 <=? c) && (c <=? 57).
Definition islower (c : Z) : bool := (97 <=? c) && (c <=? 122).
Definition isupper (c : Z) : bool := (65 <=? c) && (c <=? 90).
Definition isalpha (c : Z) : bool := islower c || isupper c.
Definition isspace (c : Z) : bool := (c =? 32) || (9 <=? c) && (c <=? 13).
Definition tolower (c : Z) : Z := if isupper c then c + (97 - 65) else c.

(** ** Parsing numbers *)

Definition digit_value (c : Z) : Z :=
  if isdigit c then c - 48 else if isalpha c then tolower c - 97 + 10 else 36.

(** [None]: the product does not fit and [*v] keeps its value. *)
Definition mul_add (v base d : Z) : option Z :=
  let lo := u64 (u32 v * base + d) in
  let hi := u64 (u32 (Z.shiftr v 32) * base + Z.shiftr lo 32) in
  if truth (Z.shiftr hi 32) then None else Some (Z.lor (u64 (Z.shiftl hi 32)) (u32 lo)).

Fixpoint skip_space (s : list Z) : list Z :=
  match s with c :: s' => if isspace c then skip_space s' else s | [] => [] end.

(** The digits of [s]: the value, whether it overflowed, and what follows. *)
Fixpoint parse_digits (base v : Z) (overflow : bool) (s : list Z) : Z * bool * list Z :=
  match s with
  | [] => (v, overflow, [])
  | c :: s' =>
      if digit_value c <? base then
        match mul_add v base (digit_value c) with
        | Some v => parse_digits base v overflow s'
        | None => parse_digits base v true s'
        end
      else (v, overflow, s)
  end.

(** What [parse] returns and stores: the magnitude, [*negative],
    [*overflow], [*end] (as what is left of the string) and whether it set
    [errno] to EINVAL. *)
Record parsed := Parsed {
  magnitude : Z;
  negative : bool;
  overflow : bool;
  rest : list Z;
  bad_base : bool
}.

Definition parse (s : list Z) (base : Z) : parsed :=
  let p := skip_space s in
  let '(neg, p) := if (aget 0 p 0 =? 43) || (aget 0 p 0 =? 45) then (aget 0 p 0 =? 45, drop 1 p) else (false, p) in
  let '(base, p) :=
    if ((base =? 0) || (base =? 16)) && (aget 0 p 0 =? 48) && ((aget 0 p 1 =? 120) || (aget 0 p 1 =? 88))
       && (digit_value (aget 0 p 2) <? 16) then (16, drop 2 p)
    else if base =? 0 then (if aget 0 p 0 =? 48 then 8 else 10, p)
    else (base, p) in
  if (base <? 2) || (base >? 36) then Parsed 0 neg false s true
  else
    let '(v, ovf, q) := parse_digits base 0 false p in
    Parsed v neg ovf (if (length q =? length p)%nat then s else q) false.

Definition LONG_MAX : Z := 2 ^ 31 - 1.
Definition LLONG_MAX : Z := 2 ^ 63 - 1.

(** The value, what [*end] points to, and [errno] as the call leaves it when
    it was [errno] before. *)
Definition strtol (s : list Z) (base errno : Z) : Z * list Z * Z :=
  let r := parse s base in
  let errno := if bad_base r then EINVAL else errno in
  let limit := if negative r then LONG_MAX + 1 else LONG_MAX in
  if overflow r || (magnitude r >? limit)
  then (if negative r then - LONG_MAX - 1 else LONG_MAX, rest r, ERANGE)
  else (if negative r then signed 32 (u64 (0 - magnitude r)) else signed 32 (magnitude r), rest r, errno).

Definition strtoul (s : list Z) (base errno : Z) : Z * list Z * Z :=
  let r := parse s base in
  let errno := if bad_base r then EINVAL else errno in
  if overflow r || (magnitude r >? 2 ^ 32 - 1) then (2 ^ 32 - 1, rest r, ERANGE)
  else (if negative r then u32 (0 - u32 (magnitude r)) else u32 (magnitude r), rest r, errno).

Definition strtoll (s : list Z) (base errno : Z) : Z * list Z * Z :=
  let r := parse s base in
  let errno := if bad_base r then EINVAL else errno in
  let limit := if negative r then LLONG_MAX + 1 else LLONG_MAX in
  if overflow r || (magnitude r >? limit)
  then (if negative r then - LLONG_MAX - 1 else LLONG_MAX, rest r, ERANGE)
  else (if negative r then signed 64 (u64 (0 - magnitude r)) else signed 64 (magnitude r), rest r, errno).

Definition strtoull (s : list Z) (base errno : Z) : Z * list Z * Z :=
  let r := parse s base in
  let errno := if bad_base r then EINVAL else errno in
  if overflow r then (2 ^ 64 - 1, rest r, ERANGE)
  else (if negative r then u64 (0 - magnitude r) else magnitude r, rest r, errno).

(** ** Sorting and searching

    An array of [count] elements of [size] bytes is the list of the
    elements; [cmp] is the caller's comparison. *)
Section sorting.
Context {A : Type} (cmp : A → A → Z).

(** An element outside the array is a panic. *)
Definition element (l : list A) (i : nat) : outcome A :=
  match l !! i with Some x => Ok x | None => Panic "qsort: access outside the array" end.

(** Exchanges the elements at two different places. *)
Definition swap (i j : nat) (l : list A) : outcome (list A) :=
  x ← element l i; y ← element l j; Ok (<[i := y]> (<[j := x]> l)).

Definition compare_at (l : list A) (i j : nat) : outcome Z :=
  x ← element l i; y ← element l j; Ok (cmp x y).

(** Among the first [count] elements. Every turn at least doubles [root],
    so [count] turns are enough. *)
Fixpoint sift_down (fuel : nat) (root count : nat) (l : list A) : outcome (list A) :=
  match fuel with
  | O => NoFuel
  | S fuel =>
      let child := Z.to_nat (u32 (2 * Z.of_nat root + 1)) in
      if (count <=? child)%nat then Ok l
      else
        right ← (if (S child <? count)%nat then c ← compare_at l child (S child); Ok (c <? 0) else Ok false);
        let child := if right : bool then S child else child in
        c ← compare_at l root child;
        if c >=? 0 then Ok l
        else l ← swap root child l; sift_down fuel child count l
  end.

(** [for (i = count / 2; i-- > 0;) sift_down(b, i, count)] *)
Fixpoint heapify (i : nat) (l : list A) : outcome (list A) :=
  match i with
  | O => Ok l
  | S i => sift_down (S (length l)) i (length l) l ≫= heapify i
  end.

(** [for (end = count - 1; end > 0; end--)] *)
Fixpoint extract (last : nat) (l : list A) : outcome (list A) :=
  match last with
  | O => Ok l
  | S k => l ← swap 0 last l; l ← sift_down (S (length l)) 0 last l; extract k l
  end.

Definition qsort (l : list A) : outcome (list A) :=
  if (length l <? 2)%nat then Ok l
  else heapify (length l / 2) l ≫= extract (length l - 1).
End sorting.

(** [cmp] compares the key with an element. The index of the element found. *)
Fixpoint bsearch_loop {A} (cmp : A → Z) (fuel : nat) (l : list A) (b count : nat) : outcome (option nat) :=
  match count with
  | O => Ok None
  | _ =>
      match fuel with
      | O => NoFuel
      | S fuel =>
          let mid := (count / 2)%nat in
          match l !! (b + mid)%nat with
          | None => Panic "bsearch: read outside the array"
          | Some x =>
              let r := cmp x in
              if r =? 0 then Ok (Some (b + mid)%nat)
              else if r >? 0 then bsearch_loop cmp fuel l (b + mid + 1) (count - (mid + 1))
              else bsearch_loop cmp fuel l b mid
          end
      end
  end.

Definition bsearch {A} (cmp : A → Z) (l : list A) : outcome (option nat) :=
  bsearch_loop cmp (length l) l 0 (length l).

(** ** Formatting

    The pieces handed to [emit] are joined: a conversion is the list of the
    bytes it produces. *)

Abbreviation LEFT := 1%Z (only parsing).
Abbreviation ZERO := 2%Z (only parsing).
Abbreviation PLUS := 4%Z (only parsing).
Abbreviation SPACE := 8%Z (only parsing).
Abbreviation ALT := 16%Z (only parsing).

Definition pad (c n : Z) : list Z := replicate (Z.to_nat n) c.

(** The quotient left in [*v] and the remainder. *)
Definition divmod64 (v base : Z) : Z * Z :=
  let hi := u32 (Z.shiftr v 32) in
  let lo := u32 v in
  if hi =? 0 then (lo / base, lo mod base)
  else
    let q_hi := hi / base in
    let rem := hi mod base in
    let cur := Z.lor (u32 (Z.shiftl rem 16)) (Z.shiftr lo 16) in
    let q_mid := cur / base in
    let rem := cur mod base in
    let cur := Z.lor (u32 (Z.shiftl rem 16)) (Z.land lo 0xFFFF) in
    let q_lo := cur / base in
    (Z.lor (Z.lor (u64 (Z.shiftl q_hi 32)) (u32 (Z.shiftl q_mid 16))) q_lo, cur mod base).

(** The digits of [v], the last one first into the end of [buf]. *)
Fixpoint digits_loop (fuel : nat) (v base : Z) (upper : bool) (buf : list Z) : outcome (list Z) :=
  if v =? 0 then Ok buf
  else match fuel with
       | O => NoFuel
       | S fuel =>
           let '(q, r) := divmod64 v base in
           digits_loop fuel q base upper
             (aget 0 (text (if upper then "0123456789ABCDEF" else "0123456789abcdef")) r :: buf)
       end.

Definition has (flags f : Z) : bool := truth (Z.land flags f).

(** [buf] is 24 bytes: a 25th digit would be stored outside it. The sums of
    [int]s are exact: a width or precision so near to INT_MAX that they
    overflow is undefined in C. *)
Definition number (v : Z) (negative : bool) (base : Z) (upper : bool) (flags width precision : Z) : outcome (list Z) :=
  buf ← digits_loop 24 v base upper [];
  let n := Z.of_nat (length buf) in
  let zeros := if precision >? n then precision - n else 0 in
  let zeros := if (n =? 0) && negb (precision =? 0) then (if truth zeros then zeros else 1) else zeros in
  let '(prefix, zeros) :=
    if negative then (text "-", zeros)
    else if has flags PLUS then (text "+", zeros)
    else if has flags SPACE then (text " ", zeros)
    else if has flags ALT && (base =? 16) && truth n then (text (if upper then "0X" else "0x"), zeros)
    else if has flags ALT && (base =? 8) && negb (truth zeros) then ([], 1)
    else ([], zeros) in
  let len := Z.of_nat (length prefix) + zeros + n in
  let fill := if width >? len then width - len else 0 in
  let '(zeros, fill) :=
    if has flags ZERO && negb (has flags LEFT) && (precision <? 0) then (zeros + fill, 0) else (zeros, fill) in
  Ok ((if has flags LEFT then [] else pad 32 fill) ++ prefix ++ pad 48 zeros ++ buf
      ++ (if has flags LEFT then pad 32 fill else [])).

Definition text_field (s : list Z) (flags width : Z) : list Z :=
  let n := Z.of_nat (length s) in
  let fill := if width >? n then width - n else 0 in
  if has flags LEFT then s ++ pad 32 fill else pad 32 fill ++ s.

(** The arguments: a 32-bit pattern ([int], [unsigned] or a pointer), a
    64-bit one, or a string ([None] is NULL). Taking one of another kind is
    undefined in C. *)
Inductive arg :=
| Word (v : Z)
| Wide (v : Z)
| Str (s : option (list Z)).

Definition va_word (ap : list arg) : outcome (Z * list arg) :=
  match ap with Word v :: ap => Ok (v, ap) | _ => Panic "va_arg" end.
Definition va_int (wide : bool) (ap : list arg) : outcome (Z * list arg) :=
  match ap with
  | Word v :: ap => if wide then Panic "va_arg" else Ok (v, ap)
  | Wide v :: ap => if wide then Ok (v, ap) else Panic "va_arg"
  | _ => Panic "va_arg"
  end.
Definition va_str (ap : list arg) : outcome (option (list Z) * list arg) :=
  match ap with Str s :: ap => Ok (s, ap) | _ => Panic "va_arg" end.

Fixpoint spec_flags (flags : Z) (s : list Z) : Z * list Z :=
  match s with
  | c :: s' =>
      if c =? 45 then spec_flags (Z.lor flags LEFT) s'
      else if c =? 48 then spec_flags (Z.lor flags ZERO) s'
      else if c =? 43 then spec_flags (Z.lor flags PLUS) s'
      else if c =? 32 then spec_flags (Z.lor flags SPACE) s'
      else if c =? 35 then spec_flags (Z.lor flags ALT) s'
      else (flags, s)
  | [] => (flags, s)
  end.

(** A width or a precision written out. One too large for an [int] is
    undefined in C; here it is the number. *)
Fixpoint spec_decimal (n : Z) (s : list Z) : Z * list Z :=
  match s with
  | c :: s' => if (48 <=? c) && (c <=? 57) then spec_decimal (n * 10 + (c - 48)) s' else (n, s)
  | [] => (n, s)
  end.

(** h, l, z, t and j; [wide] for j and ll. *)
Fixpoint spec_length (wide : bool) (s : list Z) : bool * list Z :=
  match s with
  | c :: s' =>
      if (c =? 104) || (c =? 108) || (c =? 122) || (c =? 116) || (c =? 106) then
        let wide := wide || (c =? 106) || (c =? 108) && (aget 0 s' 0 =? 108) in
        match s' with
        | c' :: s'' =>
            if ((c =? 108) && (c' =? 108)) || ((c =? 104) && (c' =? 104)) then spec_length wide s'' else spec_length wide s'
        | [] => (wide, [])
        end
      else (wide, s)
  | [] => (wide, s)
  end.

(** One conversion: what it produces, and the arguments left. [spec] is what
    to print of the format when [c] is none. *)
Definition convert (c : Z) (spec : list Z) (flags width precision : Z) (wide : bool) (ap : list arg)
    : outcome (list Z * list arg) :=
  if (c =? 100) || (c =? 105) then
    '(v, ap) ← va_int wide ap;
    let v := signed (if wide then 64 else 32) v in
    let mag := if v <? 0 then u64 (0 - u64 v) else u64 v in
    out ← number mag (v <? 0) 10 false flags width precision;
    Ok (out, ap)
  else if (c =? 117) || (c =? 120) || (c =? 88) || (c =? 111) then
    '(v, ap) ← va_int wide ap;
    let base := if c =? 117 then 10 else if c =? 111 then 8 else 16 in
    out ← number v false base (c =? 88) (Z.land flags (not32 (Z.lor PLUS SPACE))) width precision;
    Ok (out, ap)
  else if c =? 112 then
    '(v, ap) ← va_word ap;
    out ← number v false 16 false ALT width (-1);
    Ok (out, ap)
  else if c =? 99 then
    '(v, ap) ← va_word ap;
    Ok (text_field [u8 v] flags width, ap)
  else if c =? 115 then
    '(s, ap) ← va_str ap;
    let s := default (text "(null)") s in
    Ok (text_field (if precision <? 0 then s else take (Z.to_nat precision) s) flags width, ap)
  else if c =? 37 then Ok (text "%", ap)
  else Ok (spec, ap).

(** A conversion specification after its [%]: the output, the arguments and
    the format left. [fmt0] is the format from the [%] on. *)
Definition conversion (fmt0 : list Z) (ap : list arg) : outcome (list Z * list arg * list Z) :=
  let '(flags, fmt) := spec_flags 0 (drop 1 fmt0) in
  '(flags, width, ap, fmt) ←
    (if aget 0 fmt 0 =? 42 then
       '(w, ap) ← va_word ap;
       let w := signed 32 w in
       Ok (if w <? 0 then (Z.lor flags LEFT, - w, ap, drop 1 fmt) else (flags, w, ap, drop 1 fmt))
     else let '(w, fmt) := spec_decimal 0 fmt in Ok (flags, w, ap, fmt));
  '(precision, ap, fmt) ←
    (if aget 0 fmt 0 =? 46 then
       let fmt := drop 1 fmt in
       if aget 0 fmt 0 =? 42 then '(p, ap) ← va_word ap; Ok (signed 32 p, ap, drop 1 fmt)
       else let '(p, fmt) := spec_decimal 0 fmt in Ok (p, ap, fmt)
     else Ok (-1, ap, fmt));
  let '(wide, fmt) := spec_length false fmt in
  let c := aget 0 fmt 0 in
  let fmt := drop 1 fmt in
  '(out, ap) ← convert c (take (length fmt0 - length fmt) fmt0) flags width precision wide ap;
  Ok (out, ap, fmt).

Fixpoint literal (fmt : list Z) : list Z * list Z :=
  match fmt with
  | c :: fmt' => if c =? 37 then ([], fmt) else let '(t, r) := literal fmt' in (c :: t, r)
  | [] => ([], [])
  end.

Fixpoint format (fuel : nat) (fmt : list Z) (ap : list arg) : outcome (list Z) :=
  match fmt with
  | [] => Ok []
  | c :: _ =>
      match fuel with
      | O => NoFuel
      | S fuel =>
          if c =? 37 then
            '(out, ap, fmt) ← conversion fmt ap;
            more ← format fuel fmt ap;
            Ok (out ++ more)
          else
            let '(out, fmt) := literal fmt in
            more ← format fuel fmt ap;
            Ok (out ++ more)
      end
  end.

(** The bytes stored (with the NUL, none when [size] is 0) and the length
    the whole output has. *)
Definition vsnprintf (size : Z) (fmt : list Z) (ap : list arg) : outcome (list Z * Z) :=
  out ← format (length fmt) fmt ap;
  Ok (if truth size then take (Z.to_nat (size - 1)) out ++ [0] else [], Z.of_nat (length out)).
