(* ===== verification/LibcNum.v ===== *)
(** * The C library's numbers are right

    64-bit division by 32-bit steps is division; the digits [printf]
    produces are read back by the [strto*] family. *)
From S2P Require Import Prelude Abi Libc.

Local Open Scope Z_scope.

(** ** Two's complement *)

Lemma signed_small w x : 0 < w → - 2 ^ (w - 1) ≤ x < 2 ^ (w - 1) → signed w x = x.
Proof.
  intros Hw Hx. assert (2 ^ w = 2 * 2 ^ (w - 1)) as E by (rewrite <- Z.pow_succ_r by lia; f_equal; lia).
  unfold signed. destruct (Z.lt_ge_cases x 0).
  - assert (x mod 2 ^ w = x + 2 ^ w) as -> by (symmetry; apply (Z.mod_unique_pos _ _ (-1)); lia).
    rewrite (proj2 (Z.ltb_ge _ _)) by lia. lia.
  - rewrite Z.mod_small by lia. by rewrite (proj2 (Z.ltb_lt _ _)) by lia.
Qed.

(** ** Division *)

Lemma divl_ok hi lo d :
  0 ≤ lo < 2 ^ 32 → 0 ≤ hi < d → divl hi lo d = Some ((hi * 2 ^ 32 + lo) / d, (hi * 2 ^ 32 + lo) mod d).
Proof.
  intros Hl Hh. unfold divl. rewrite (proj2 (Z.eqb_neq d 0)) by lia. simpl orb.
  rewrite (proj2 (Z.leb_gt _ _)); [done|]. apply Z.div_lt_upper_bound; nia.
Qed.

(** Quotients are unique. *)
Lemma div_mod_eq n d q r : n = d * q + r → 0 ≤ r < d → q = n / d ∧ r = n mod d.
Proof. intros -> Hr. split; [apply (Z.div_unique_pos _ _ _ r); lia|apply (Z.mod_unique_pos _ _ q); lia]. Qed.

Lemma udivmod_short n d :
  0 ≤ n < 2 ^ 64 → 0 < d < 2 ^ 32 → __udivmoddi4 n d = Some (n / d, n mod d).
Proof.
  intros Hn Hd. unfold __udivmoddi4. rewrite Z.shiftr_div_pow2, Z.div_small by lia. simpl (0 =? 0).
  rewrite !Z.shiftr_div_pow2, (u32_small d) by lia.
  assert (0 ≤ n / 2 ^ 32 < 2 ^ 32) as Hh by (split; [apply Z.div_pos|apply Z.div_lt_upper_bound]; lia).
  rewrite (u32_small (n / _)) by done. unfold u32.
  set (hi := n / 2 ^ 32) in *. set (lo := n mod 2 ^ 32).
  assert (0 ≤ lo < 2 ^ 32) as Hl by (apply Z.mod_pos_bound; lia).
  rewrite divl_ok by lia. rewrite Z.mul_0_l, Z.add_0_l. cbn -[Z.div Z.modulo Z.pow].
  assert (0 ≤ hi mod d < d) as Hr by (apply Z.mod_pos_bound; lia).
  rewrite divl_ok by lia. cbn -[Z.div Z.modulo Z.pow Z.lor Z.shiftl].
  set (m := hi mod d * 2 ^ 32 + lo).
  assert (n = hi * 2 ^ 32 + lo) as En by (subst hi lo; pose proof (Z.div_mod n (2 ^ 32)); lia).
  pose proof (Z.div_mod hi d ltac:(lia)) as Eh. pose proof (Z.div_mod m d ltac:(lia)) as Em.
  pose proof (Z.mod_pos_bound m d ltac:(lia)) as Hm.
  assert (0 ≤ m / d < 2 ^ 32) as Hq by (split; [apply Z.div_pos|apply Z.div_lt_upper_bound]; subst m; nia).
  rewrite Z.shiftl_mul_pow2, (lor_add 32) by (try lia; apply Z.mod_mul; lia).
  destruct (div_mod_eq n d (hi / d * 2 ^ 32 + m / d) (m mod d)) as [-> ->]; [subst m; nia|done|done].
Qed.

Lemma align_divisor_ok fuel n d shift :
  0 ≤ n < 2 ^ 64 → 0 < d < 2 ^ 64 → 2 ^ 64 ≤ d * 2 ^ Z.of_nat fuel →
  ∃ k, align_divisor fuel n d shift = Some (d * 2 ^ Z.of_nat k, (shift + k)%nat) ∧
       d * 2 ^ Z.of_nat k < 2 ^ 64 ∧ n < 2 * (d * 2 ^ Z.of_nat k).
Proof.
  intros Hn. revert d shift. induction fuel as [|fuel IH]; intros d shift Hd Hf; [simpl in Hf; lia|].
  cbn [align_divisor]. rewrite Z.shiftr_div_pow2, Z.shiftl_mul_pow2 by lia. rewrite Z.pow_1_r.
  destruct (Z.eqb_spec (d / 2 ^ 63) 0) as [E|E]; cbn [andb].
  - assert (d < 2 ^ 63) as Hlt by dlia. rewrite u64_small by lia. destruct (Z.leb_spec (d * 2) n) as [Hle|Hgt].
    + destruct (IH (d * 2) (S shift)) as (k & -> & H1 & H2); [lia| |].
      { rewrite Nat2Z.inj_succ, Z.pow_succ_r in Hf by lia. lia. }
      exists (S k). rewrite Nat2Z.inj_succ, Z.pow_succ_r by lia.
      replace (d * (2 * 2 ^ Z.of_nat k)) with (d * 2 * 2 ^ Z.of_nat k) by ring.
      by rewrite Nat.add_succ_r.
    + exists O. rewrite Z.mul_1_r, Nat.add_0_r. split; [done|]. lia.
  - exists O. rewrite Z.mul_1_r, Nat.add_0_r. split; [done|].
    assert (2 ^ 63 ≤ d) by (destruct (Z.lt_ge_cases d (2 ^ 63)); [rewrite Z.div_small in E; lia|done]). lia.
Qed.

Lemma divide_shifted_ok k d n q :
  0 < d → 0 ≤ n < 2 * (d * 2 ^ Z.of_nat k) → 0 ≤ q → (q + 1) * 2 ^ (Z.of_nat k + 1) ≤ 2 ^ 64 →
  divide_shifted k n (d * 2 ^ Z.of_nat k) q = (q * 2 ^ (Z.of_nat k + 1) + n / d, n mod d).
Proof.
  revert n q. induction k as [|k IH]; intros n q Hd Hn Hq Hb; cbn [divide_shifted].
  - change (Z.of_nat 0) with 0 in *. rewrite Z.shiftl_mul_pow2, Z.pow_1_r, Z.mul_1_r in * by lia. change (2 ^ (0 + 1)) with 2 in *.
    rewrite u64_small by lia. destruct (Z.leb_spec d n).
    + rewrite (lor_add 1) by (try lia; apply Z.mod_mul; lia).
      destruct (div_mod_eq n d 1 (n - d)) as [<- <-]; [lia|lia|done].
    + rewrite Z.div_small, Z.mod_small by lia. f_equal. lia.
  - assert (2 ^ Z.of_nat (S k) = 2 * 2 ^ Z.of_nat k) as E by (rewrite Nat2Z.inj_succ, Z.pow_succ_r; lia).
    assert (2 ^ (Z.of_nat (S k) + 1) = 2 * 2 ^ (Z.of_nat k + 1)) as E1.
    { rewrite Nat2Z.inj_succ, <- Z.pow_succ_r by lia. f_equal; lia. }
    assert (1 ≤ 2 ^ Z.of_nat k) by (apply (Z.pow_le_mono_r 2 0); lia).
    assert (2 ^ (Z.of_nat k + 1) = 2 * 2 ^ Z.of_nat k) as E2 by (rewrite Z.add_1_r, Z.pow_succ_r; lia).
    rewrite E in *. rewrite E1 in *. rewrite Z.shiftl_mul_pow2, Z.pow_1_r by lia. rewrite u64_small by nia.
    assert (Z.shiftr (d * (2 * 2 ^ Z.of_nat k)) 1 = d * 2 ^ Z.of_nat k) as ->.
    { rewrite Z.shiftr_div_pow2, Z.pow_1_r by lia. replace (d * _) with (d * 2 ^ Z.of_nat k * 2) by ring.
      by apply Z.div_mul. }
    set (D := d * 2 ^ Z.of_nat k) in *. destruct (Z.leb_spec (d * (2 * 2 ^ Z.of_nat k)) n) as [Hle|Hgt].
    + rewrite (lor_add 1) by (try lia; apply Z.mod_mul; lia). subst D. rewrite IH by (try lia; nia).
      replace (n - d * (2 * 2 ^ Z.of_nat k)) with (n + - (2 * 2 ^ Z.of_nat k) * d) by ring.
      rewrite Z.div_add, Z.mod_add by lia. f_equal. nia.
    + subst D. rewrite IH by (try lia; nia). f_equal. nia.
Qed.

Lemma udivmod_ok n d : 0 ≤ n < 2 ^ 64 → 0 < d < 2 ^ 64 → __udivmoddi4 n d = Some (n / d, n mod d).
Proof.
  intros Hn Hd. destruct (Z.lt_ge_cases d (2 ^ 32)) as [Hlt|Hge]; [apply udivmod_short; lia|].
  unfold __udivmoddi4. rewrite Z.shiftr_div_pow2 by lia.
  assert (1 ≤ d / 2 ^ 32) by (apply Z.div_le_lower_bound; lia).
  rewrite (proj2 (Z.eqb_neq (d / 2 ^ 32) 0)) by lia.
  destruct (align_divisor_ok 64 n d 0 Hn Hd) as (k & -> & Hk & Hnk).
  { change (Z.of_nat 64) with 64. nia. }
  cbn -[Z.div Z.modulo Z.pow divide_shifted]. f_equal.
  assert (Z.of_nat k < 63) as Hk63.
  { destruct (Z.lt_ge_cases (Z.of_nat k) 63); [done|]. pose proof (Z.pow_le_mono_r 2 63 (Z.of_nat k)). nia. }
  rewrite divide_shifted_ok; [f_equal; lia|lia|lia|lia|].
  transitivity (2 ^ 64); [|done]. rewrite Z.mul_1_l. apply Z.pow_le_mono_r; lia.
Qed.

Lemma udivmod_zero n : __udivmoddi4 n 0 = None.
Proof. done. Qed.

(** the 64-bit division the compiler calls for on the 386 is division.
    Unsigned: quotient and remainder of any two 64-bit numbers. Signed: the
    quotient truncated toward zero (wrapped for the one that does not fit)
    and the remainder with the dividend's sign. A zero divisor is the
    processor's divide fault in all of them. *)
Theorem division64_correct n d :
  (0 ≤ n < 2 ^ 64 → 0 < d < 2 ^ 64 → __udivdi3 n d = Some (n / d) ∧ __umoddi3 n d = Some (n mod d)) ∧
  (- 2 ^ 63 ≤ n < 2 ^ 63 → - 2 ^ 63 ≤ d < 2 ^ 63 → d ≠ 0 →
   __divdi3 n d = Some (signed 64 (Z.quot n d)) ∧ __moddi3 n d = Some (Z.rem n d)) ∧
  __udivdi3 n 0 = None ∧ __umoddi3 n 0 = None ∧ __divdi3 n 0 = None ∧ __moddi3 n 0 = None.
Proof.
  assert (∀ x, - 2 ^ 63 ≤ x < 2 ^ 63 → (if x <? 0 then u64 (0 - u64 x) else u64 x) = Z.abs x) as Habs.
  { intros x Hx. destruct (Z.ltb_spec x 0).
    - unfold u64. rewrite Zminus_mod_idemp_r, Z.mod_small; lia.
    - rewrite u64_small by lia. lia. }
  split_and!; [| |done|done| |].
  - intros Hn Hd. unfold __udivdi3, __umoddi3. by rewrite udivmod_ok.
  - intros Hn Hd Hz. unfold __divdi3, __moddi3. rewrite !Habs, udivmod_ok by lia. cbn -[Z.div Z.modulo Z.abs signed u64 Z.quot Z.rem].
    rewrite Z.quot_div, Z.rem_mod by done. unfold u64. rewrite !signed_mod.
    assert (0 ≤ Z.abs n mod Z.abs d < 2 ^ 63) as Hm by (pose proof (Z.mod_pos_bound (Z.abs n) (Z.abs d)); lia).
    split.
    + f_equal. destruct (Z.ltb_spec n 0), (Z.ltb_spec d 0); cbn [xorb]; f_equal; [| | |];
        rewrite ?(Z.sgn_neg n), ?(Z.sgn_neg d), ?(Z.sgn_pos d) by lia; try lia.
      all: destruct (decide (n = 0)) as [->|]; [by rewrite Zdiv_0_l|rewrite Z.sgn_pos by lia; lia].
    + f_equal. destruct (Z.ltb_spec n 0); rewrite signed_small by lia.
      * rewrite Z.sgn_neg by lia. lia.
      * destruct (decide (n = 0)) as [->|]; [by rewrite Zmod_0_l|rewrite Z.sgn_pos by lia; lia].
  - unfold __divdi3. simpl (0 <? 0). by rewrite udivmod_zero.
  - unfold __moddi3. simpl (0 <? 0). by rewrite udivmod_zero.
Qed.

(** ** Multiplying and dividing by a small base *)

Lemma mul_add_ok v base d :
  0 ≤ v < 2 ^ 64 → 2 ≤ base ≤ 36 → 0 ≤ d < base →
  mul_add v base d = if v * base + d <? 2 ^ 64 then Some (v * base + d) else None.
Proof.
  intros Hv Hb Hd. unfold mul_add. rewrite !Z.shiftr_div_pow2 by lia.
  assert (0 ≤ v / 2 ^ 32 < 2 ^ 32) as Hh by (split; [apply Z.div_pos|apply Z.div_lt_upper_bound]; lia).
  rewrite (u32_small (v / _)) by done. unfold u32.
  pose proof (Z.mod_pos_bound v (2 ^ 32) ltac:(lia)) as Hl. pose proof (Z.div_mod v (2 ^ 32) ltac:(lia)) as Ev.
  set (lo := v mod 2 ^ 32) in *. set (hi := v / 2 ^ 32) in *. rewrite (u64_small (lo * base + d)) by nia.
  set (x := lo * base + d). pose proof (Z.div_mod x (2 ^ 32) ltac:(lia)) as Ex.
  pose proof (Z.mod_pos_bound x (2 ^ 32) ltac:(lia)) as Hx.
  assert (0 ≤ x / 2 ^ 32 < 64) as Hc by (split; [apply Z.div_pos|apply Z.div_lt_upper_bound]; subst x; nia).
  rewrite (u64_small (hi * base + _)) by nia. set (y := hi * base + x / 2 ^ 32).
  assert (v * base + d = y * 2 ^ 32 + x mod 2 ^ 32) as -> by (subst y x; nia).
  unfold truth. destruct (Z.ltb_spec (y * 2 ^ 32 + x mod 2 ^ 32) (2 ^ 64)).
  - rewrite Z.div_small by (subst y; nia). simpl. rewrite Z.shiftl_mul_pow2, u64_small by (subst y; nia).
    by rewrite (lor_add 32) by (try lia; apply Z.mod_mul; lia).
  - assert (1 ≤ y / 2 ^ 32) by (apply Z.div_le_lower_bound; lia). by rewrite (proj2 (Z.eqb_neq (y / 2 ^ 32) 0)) by lia.
Qed.

Lemma divmod64_ok v base : 0 ≤ v < 2 ^ 64 → 2 ≤ base ≤ 36 → divmod64 v base = (v / base, v mod base).
Proof.
  intros Hv Hb. unfold divmod64. rewrite !Z.shiftr_div_pow2 by lia.
  assert (0 ≤ v / 2 ^ 32 < 2 ^ 32) as Hh by (split; [apply Z.div_pos|apply Z.div_lt_upper_bound]; lia).
  rewrite (u32_small (v / _)) by done. change (u32 v) with (v mod 2 ^ 32).
  pose proof (Z.mod_pos_bound v (2 ^ 32) ltac:(lia)) as Hl. pose proof (Z.div_mod v (2 ^ 32) ltac:(lia)) as Ev.
  set (lo := v mod 2 ^ 32) in *. set (hi := v / 2 ^ 32) in *.
  destruct (Z.eqb_spec hi 0) as [E|E]; [replace v with lo by lia; done|].
  change 0xFFFF with (2 ^ 16 - 1). rewrite land_ones_mod by lia.
  pose proof (Z.mod_pos_bound hi base ltac:(lia)) as Hr. pose proof (Z.div_mod hi base ltac:(lia)) as Eh.
  pose proof (Z.div_mod lo (2 ^ 16) ltac:(lia)) as El. pose proof (Z.mod_pos_bound lo (2 ^ 16) ltac:(lia)) as Hl1.
  assert (0 ≤ lo / 2 ^ 16 < 2 ^ 16) as Hl2 by (split; [apply Z.div_pos|apply Z.div_lt_upper_bound]; lia).
  rewrite (Z.shiftl_mul_pow2 (hi mod base)), (u32_small (hi mod base * _)) by lia.
  rewrite (lor_add 16 (hi mod base * _)) by (try lia; apply Z.mod_mul; lia).
  set (c1 := hi mod base * 2 ^ 16 + lo / 2 ^ 16) in *.
  pose proof (Z.mod_pos_bound c1 base ltac:(lia)) as Hr1. pose proof (Z.div_mod c1 base ltac:(lia)) as E1.
  rewrite (Z.shiftl_mul_pow2 (c1 mod base)), (u32_small (c1 mod base * _)) by lia.
  rewrite (lor_add 16 (c1 mod base * _)) by (try lia; apply Z.mod_mul; lia).
  set (c2 := c1 mod base * 2 ^ 16 + lo mod 2 ^ 16) in *.
  pose proof (Z.mod_pos_bound c2 base ltac:(lia)) as Hr2. pose proof (Z.div_mod c2 base ltac:(lia)) as E2.
  assert (0 ≤ hi / base < 2 ^ 32) as Hq by (split; [apply Z.div_pos|apply Z.div_lt_upper_bound]; nia).
  assert (0 ≤ c1 / base < 2 ^ 16) as Hq1 by (split; [apply Z.div_pos|apply Z.div_lt_upper_bound]; subst c1; nia).
  assert (0 ≤ c2 / base < 2 ^ 16) as Hq2 by (split; [apply Z.div_pos|apply Z.div_lt_upper_bound]; subst c2; nia).
  rewrite !Z.shiftl_mul_pow2, u64_small, u32_small by lia.
  rewrite (lor_add 32 (hi / base * _)) by (try lia; apply Z.mod_mul; lia).
  rewrite (lor_add 16); [|lia| |lia].
  - destruct (div_mod_eq v base (hi / base * 2 ^ 32 + c1 / base * 2 ^ 16 + c2 / base) (c2 mod base)) as [-> ->];
      [subst c1 c2; nia|lia|done].
  - replace (_ * _ + _) with ((hi / base * 2 ^ 16 + c1 / base) * 2 ^ 16) by lia. apply Z.mod_mul. lia.
Qed.

(** ** Digits *)

(** The value of a list of digits. *)
Definition value (base v : Z) (l : list Z) : Z := foldl (λ v c, v * base + digit_value c) v l.

Definition digits_of (base : Z) (l : list Z) : Prop := Forall (λ c, 0 ≤ digit_value c < base) l.

(** What follows the digits does not go on with one. *)
Definition stops (base : Z) (l : list Z) : Prop := match l with [] => True | c :: _ => base ≤ digit_value c end.

Lemma value_ge base v l : 2 ≤ base → 0 ≤ v → digits_of base l → v ≤ value base v l.
Proof.
  intros Hb. revert v. induction l as [|c l IH]; intros v Hv Hl; [done|]. apply Forall_cons in Hl as [Hc Hl].
  cbn. specialize (IH (v * base + digit_value c) ltac:(nia) Hl). unfold value in IH. nia.
Qed.

Lemma value_app base v l1 l2 : value base v (l1 ++ l2) = value base (value base v l1) l2.
Proof. apply foldl_app. Qed.

Lemma parse_digits_ok base v ovf l r :
  2 ≤ base ≤ 36 → 0 ≤ v → digits_of base l → stops base r → value base v l < 2 ^ 64 →
  parse_digits base v ovf (l ++ r) = (value base v l, ovf, r).
Proof.
  intros Hb. revert v. induction l as [|c l IH]; intros v Hv Hl Hr Hlt.
  - destruct r as [|c r]; [done|]. cbn [app parse_digits stops] in *. by rewrite (proj2 (Z.ltb_ge (digit_value c) base)) by lia.
  - apply Forall_cons in Hl as [Hc Hl]. cbn [app parse_digits].
    assert (v ≤ v * base + digit_value c) as Hv1 by (clear - Hb Hv Hc; nia).
    pose proof (value_ge base (v * base + digit_value c) l ltac:(lia) ltac:(lia) Hl) as Hge.
    assert (value base v (c :: l) = value base (v * base + digit_value c) l) as Ev by reflexivity.
    rewrite Ev in *. rewrite (proj2 (Z.ltb_lt (digit_value c) base)) by lia. rewrite mul_add_ok by lia.
    rewrite (proj2 (Z.ltb_lt (v * base + digit_value c) (2 ^ 64))) by lia.
    apply IH; [lia|done..].
Qed.

Lemma digit_char r base (upper : bool) :
  0 ≤ r < base → base ≤ 16 →
  let c := aget 0 (text (if upper then "0123456789ABCDEF" else "0123456789abcdef")) r in digit_value c = r.
Proof.
  intros Hr Hb. cbn zeta. set (f := λ r, digit_value (aget 0 (text (if upper then "0123456789ABCDEF" else "0123456789abcdef")) r) =? r).
  assert (forallb f (seqZ 0 16) = true) as H by (by destruct upper; vm_compute).
  rewrite forallb_forall in H. apply Z.eqb_eq, (H r), list_elem_of_In, elem_of_seqZ. lia.
Qed.

Lemma digits_loop_ok fuel v base upper buf :
  2 ≤ base ≤ 16 → 0 ≤ v < 2 ^ 64 → v < base ^ Z.of_nat fuel →
  ∃ l, digits_loop fuel v base upper buf = Ok (l ++ buf) ∧ value base 0 l = v ∧ digits_of base l ∧ (l = [] ↔ v = 0).
Proof.
  intros Hb. revert v buf. induction fuel as [|fuel IH]; intros v buf Hv Hf; cbn [digits_loop].
  - rewrite Z.pow_0_r in Hf. assert (v = 0) as -> by lia. exists []. split_and!; [done|done|apply Forall_nil_2|done].
  - destruct (Z.eqb_spec v 0) as [->|Hz]; [exists []; split_and!; [done|done|apply Forall_nil_2|done]|]. rewrite divmod64_ok by lia.
    pose proof (Z.mod_pos_bound v base ltac:(lia)) as Hr. pose proof (Z.div_mod v base ltac:(lia)) as Ev.
    set (c := aget 0 _ _). destruct (IH (v / base) (c :: buf)) as (l & -> & Hl & Hd & _).
    { split; [apply Z.div_pos; lia|]. apply Z.div_lt_upper_bound; nia. }
    { apply Z.div_lt_upper_bound; [lia|]. rewrite <- Z.pow_succ_r by lia. by rewrite <- Nat2Z.inj_succ. }
    pose proof (digit_char (v mod base) base upper Hr ltac:(lia)) as Hc. fold c in Hc. cbn zeta in Hc.
    exists (l ++ [c]). rewrite <- app_assoc. split; [done|]. rewrite value_app, Hl. cbn.
    rewrite Hc. split; [lia|]. split.
    + apply Forall_app. split; [done|]. apply Forall_singleton. lia.
    + split; [by destruct l|done].
Qed.

(** ** Parsing what is printed *)

Definition blanks (l : list Z) : Prop := Forall (eq 32) l.

Lemma blanks_pad n : blanks (pad 32 n).
Proof. by apply Forall_replicate. Qed.

Lemma skip_blanks l r : blanks l → skip_space (l ++ r) = skip_space r.
Proof. induction 1 as [|c l <- _ IH]; [done|]. exact IH. Qed.

Lemma blanks_stop base l : base ≤ 36 → blanks l → stops base l.
Proof. intros Hb [|c l' <- _]; [done|]. exact Hb. Qed.

(** A digit is no blank, sign or x. *)
Lemma digit_plain c : digit_value c < 36 → isspace c = false ∧ c ≠ 43 ∧ c ≠ 45.
Proof.
  intros H. assert (48 ≤ c) as Hc.
  { unfold digit_value in H. destruct (isdigit c) eqn:E1; [unfold isdigit in E1; zbool; lia|].
    destruct (isalpha c) eqn:E2; [|lia]. apply orb_true_iff in E2 as [E2|E2]; unfold islower, isupper in E2; zbool; lia. }
  split; [|lia]. unfold isspace. rewrite (proj2 (Z.eqb_neq c 32)), (proj2 (Z.leb_gt c 13)) by lia. apply andb_false_r.
Qed.

Section parsing.
Context (base : Z) (D tl : list Z).
Hypothesis base_ok : base = 8 ∨ base = 10 ∨ base = 16.
Hypothesis D_digits : digits_of base D.
Hypothesis D_some : D ≠ [].
Hypothesis tl_blank : blanks tl.
Hypothesis D_fits : value base 0 D < 2 ^ 64.

Lemma parse_digits_all : parse_digits base 0 false (D ++ tl) = (value base 0 D, false, tl).
Proof. apply parse_digits_ok; [lia|lia|done|apply blanks_stop; [lia|done]|done]. Qed.

(** The part of [parse] after the sign, for what has no prefix. *)
Lemma no_prefix : (aget 0 (D ++ tl) 1 =? 120) || (aget 0 (D ++ tl) 1 =? 88) = false.
Proof.
  assert (∀ c, (c = 0 ∨ c = 32 ∨ digit_value c < 16) → (c =? 120) || (c =? 88) = false) as H.
  { intros c [-> | [-> | H]]; [done|done|]. apply orb_false_iff. split; apply Z.eqb_neq; intros ->; by vm_compute in H. }
  apply H. destruct D as [|c [|c' D']]; [done| |].
  - destruct tl as [|c' tl']; [by left|right; left]. by apply Forall_cons in tl_blank as [<- _].
  - right; right. apply Forall_cons in D_digits as [_ Hd]. apply Forall_cons in Hd as [Hd _].
    change (digit_value c' < 16). lia.
Qed.

Lemma skip_D : skip_space (D ++ tl) = D ++ tl.
Proof.
  destruct D as [|c D']; [done|]. apply Forall_cons in D_digits as [Hc _]. cbn [app skip_space].
  destruct (digit_plain c) as [-> _]; [lia|done].
Qed.

(** The sign read at the front of the digits. *)
Lemma sign_D : (aget 0 (D ++ tl) 0 =? 43) || (aget 0 (D ++ tl) 0 =? 45) = false.
Proof.
  destruct D as [|c D']; [done|]. apply Forall_cons in D_digits as [Hc _].
  destruct (digit_plain c) as (_ & H1 & H2); [lia|]. apply orb_false_iff. by split; apply Z.eqb_neq.
Qed.

Lemma shorter : (length tl =? length (D ++ tl))%nat = false.
Proof. apply Nat.eqb_neq. rewrite length_app. destruct D; [done|]. cbn. lia. Qed.

Lemma parse_plain sp sign :
  blanks sp → (sign = [] ∨ sign = [43] ∨ sign = [45]) →
  parse (sp ++ sign ++ D ++ tl) base = Parsed (value base 0 D) (bool_decide (sign = [45])) false tl false.
Proof.
  intros Hsp Hs. unfold parse. rewrite skip_blanks by done.
  assert (skip_space (sign ++ D ++ tl) = sign ++ D ++ tl) as ->.
  { destruct Hs as [-> | [-> | ->]]; [exact skip_D|done|done]. }
  assert ((if (aget 0 (sign ++ D ++ tl) 0 =? 43) || (aget 0 (sign ++ D ++ tl) 0 =? 45)
           then (aget 0 (sign ++ D ++ tl) 0 =? 45, drop 1 (sign ++ D ++ tl)) else (false, sign ++ D ++ tl))
          = (bool_decide (sign = [45]), D ++ tl)) as ->.
  { destruct Hs as [-> | [-> | ->]]; cbn [app]; [by rewrite sign_D|done|done]. }
  rewrite no_prefix, andb_false_r. cbn [andb].
  rewrite (proj2 (Z.eqb_neq base 0)), (proj2 (Z.ltb_ge base 2)), Z.gtb_ltb, (proj2 (Z.ltb_ge 36 base)) by lia.
  cbn [orb]. by rewrite parse_digits_all, shorter.
Qed.

Lemma parse_0x sp x :
  blanks sp → base = 16 → (x = 120 ∨ x = 88) →
  parse (sp ++ [48; x] ++ D ++ tl) base = Parsed (value base 0 D) false false tl false.
Proof.
  intros Hsp Hb Hx. unfold parse. rewrite skip_blanks by done. cbn [app].
  assert (skip_space (48 :: x :: D ++ tl) = 48 :: x :: D ++ tl) as -> by done.
  change (aget 0 (48 :: x :: D ++ tl) 0) with 48. cbn [Z.eqb Pos.eqb orb].
  change (aget 0 (48 :: x :: D ++ tl) 0) with 48. change (aget 0 (48 :: x :: D ++ tl) 1) with x.
  change (aget 0 (48 :: x :: D ++ tl) 2) with (aget 0 (D ++ tl) 0).
  assert ((digit_value (aget 0 (D ++ tl) 0) <? 16) = true) as ->.
  { apply Z.ltb_lt. destruct D as [|c D']; [done|]. apply Forall_cons in D_digits as [Hc _].
    change (digit_value c < 16). lia. }
  rewrite (proj2 (Z.eqb_eq base 16)) by done.
  assert ((x =? 120) || (x =? 88) = true) as -> by (destruct Hx as [-> | ->]; done).
  rewrite orb_true_r. cbn [andb Z.eqb Pos.eqb drop]. change ((16 <? 2) || (16 >? 36)) with false. cbn [drop].
  rewrite drop_0, <- Hb, parse_digits_all. by rewrite shorter.
Qed.
End parsing.

(** ** Printing *)

(** The field around a prefix, [zeros] zeros and the digits. *)
Lemma field_ok flags width precision (prefix ds : list Z) zeros :
  0 ≤ zeros →
  ∃ sp z tl,
    (let len := Z.of_nat (length prefix) + zeros + Z.of_nat (length ds) in
     let fill := if width >? len then width - len else 0 in
     let '(zeros, fill) :=
       if has flags ZERO && negb (has flags LEFT) && (precision <? 0) then (zeros + fill, 0) else (zeros, fill) in
     Ok ((if has flags LEFT then [] else pad 32 fill) ++ prefix ++ pad 48 zeros ++ ds
         ++ (if has flags LEFT then pad 32 fill else [])))
    = Ok (sp ++ prefix ++ (pad 48 z ++ ds) ++ tl) ∧
    blanks sp ∧ blanks tl ∧ zeros ≤ z ∧ width ≤ Z.of_nat (length (sp ++ prefix ++ (pad 48 z ++ ds) ++ tl)).
Proof.
  intros Hz. cbn zeta. set (len := _ + _ + _). set (fill := if width >? len then width - len else 0).
  assert (0 ≤ fill ∧ width ≤ len + fill) as [Hf Hw] by (subst fill; rewrite Z.gtb_ltb; case_if; lia).
  destruct (has flags ZERO && negb (has flags LEFT) && (precision <? 0)) eqn:E.
  - assert (has flags LEFT = false) as -> by (zbool; done).
    exists (pad 32 0), (zeros + fill), []. rewrite <- !app_assoc. split_and!; [done|apply blanks_pad|apply Forall_nil_2|lia|].
    unfold pad. rewrite !length_app, !length_replicate. cbn. lia.
  - destruct (has flags LEFT).
    + exists [], zeros, (pad 32 fill). rewrite <- !app_assoc. split_and!; [done|apply Forall_nil_2|apply blanks_pad|lia|].
      unfold pad. rewrite !length_app, !length_replicate. cbn. lia.
    + exists (pad 32 fill), zeros, []. rewrite <- !app_assoc. split_and!; [done|apply blanks_pad|apply Forall_nil_2|lia|].
      unfold pad. rewrite !length_app, !length_replicate. cbn. lia.
Qed.

(** Leading zeros are digits and do not count. *)
Lemma zeros_digits base z ds : 2 ≤ base → digits_of base ds → digits_of base (pad 48 z ++ ds).
Proof. intros Hb Hd. apply Forall_app. split; [|done]. apply Forall_replicate. change (digit_value 48) with 0. lia. Qed.

Lemma zeros_value base z ds : value base 0 (pad 48 z ++ ds) = value base 0 ds.
Proof. unfold pad. generalize (Z.to_nat z) as n. by induction n. Qed.

Lemma zeros_some z ds : 0 ≤ z → (z = 0 → ds ≠ []) → pad 48 z ++ ds ≠ [].
Proof.
  intros Hz Hd E. apply app_eq_nil in E as [E ->]. apply (f_equal length) in E. unfold pad in E.
  rewrite length_replicate in E. cbn in E. apply Hd; [lia|done].
Qed.

Section printed.
Context (base v : Z) (ds : list Z).
Hypothesis base_ok : base = 8 ∨ base = 10 ∨ base = 16.
Hypothesis v_fits : v < 2 ^ 64.
Hypothesis ds_digits : digits_of base ds.
Hypothesis ds_value : value base 0 ds = v.

Lemma parse_zeros sp sign z tl :
  blanks sp → blanks tl → 0 ≤ z → (z = 0 → ds ≠ []) → sign = [] ∨ sign = [43] ∨ sign = [45] →
  parse (sp ++ sign ++ (pad 48 z ++ ds) ++ tl) base = Parsed v (bool_decide (sign = [45])) false tl false.
Proof.
  intros Hsp Htl Hz Hzd Hs.
  rewrite (parse_plain base (pad 48 z ++ ds) tl base_ok); [by rewrite zeros_value, ds_value| | |done| |done|done].
  - apply zeros_digits; [lia|done].
  - by apply zeros_some.
  - rewrite zeros_value. lia.
Qed.

(** Every prefix is read back as the sign it stands for. *)
Lemma prefix_ok (neg upper : bool) flags zeros :
  0 ≤ zeros → (zeros = 0 → ds ≠ []) →
  ∃ P zz,
    (if neg then (text "-", zeros)
     else if has flags PLUS then (text "+", zeros)
     else if has flags SPACE then (text " ", zeros)
     else if has flags ALT && (base =? 16) && truth (Z.of_nat (length ds))
       then (text (if upper then "0X" else "0x"), zeros)
     else if has flags ALT && (base =? 8) && negb (truth zeros) then ([], 1)
     else ([], zeros)) = (P, zz) ∧
    0 ≤ zz ∧ ∀ sp z tl, blanks sp → blanks tl → zz ≤ z →
      parse (sp ++ P ++ (pad 48 z ++ ds) ++ tl) base = Parsed v neg false tl false.
Proof.
  intros Hz Hzd. assert (∀ z, zeros ≤ z → z = 0 → ds ≠ []) as Hd by (intros; apply Hzd; lia).
  destruct neg; [|destruct (has flags PLUS); [|destruct (has flags SPACE)]].
  - exists [45], zeros. split_and!; [done|done|]. intros. apply parse_zeros; [done|done|lia|by apply Hd|auto].
  - exists [43], zeros. split_and!; [done|done|]. intros. apply parse_zeros; [done|done|lia|by apply Hd|auto].
  - exists [32], zeros. split_and!; [done|done|]. intros sp z tl Hsp Htl Hle. rewrite app_assoc.
    apply (parse_zeros (sp ++ [32]) [] z tl); [|done|lia|by apply Hd|auto]. apply Forall_app. split; [done|]. by apply Forall_singleton.
  - destruct (has flags ALT && (base =? 16) && truth (Z.of_nat (length ds))) eqn:E16.
    + zbool. exists (text (if upper then "0X" else "0x")), zeros. split_and!; [done|done|]. intros sp z tl Hsp Htl Hle.
      assert (pad 48 z ++ ds ≠ []) as Hne by (apply zeros_some; [lia|by apply Hd]).
      replace (text (if upper then "0X" else "0x")) with [48; if upper then 88 else 120] by by destruct upper.
      rewrite (parse_0x base (pad 48 z ++ ds) tl base_ok); rewrite ?zeros_value, ?ds_value; try done;
        [by apply zeros_digits; [lia|]|destruct upper; auto].
    + destruct (has flags ALT && (base =? 8) && negb (truth zeros)).
      * exists [], 1. split_and!; [done|done|]. intros. apply (parse_zeros _ []); [done|done|lia|lia|auto].
      * exists [], zeros. split_and!; [done|done|]. intros. apply (parse_zeros _ []); [done|done|lia|by apply Hd|auto].
Qed.
End printed.

(** The zeros precision and the value 0 ask for. *)
Lemma zeros_ok (ds : list Z) v precision :
  (ds = [] ↔ v = 0) → precision ≠ 0 ∨ v ≠ 0 →
  let n := Z.of_nat (length ds) in
  let zeros := if precision >? n then precision - n else 0 in
  let zeros := if (n =? 0) && negb (precision =? 0) then (if truth zeros then zeros else 1) else zeros in
  0 ≤ zeros ∧ (zeros = 0 → ds ≠ []).
Proof.
  intros Hnil Hp. cbn zeta. rewrite Z.gtb_ltb. destruct ds as [|c ds]; cbn [length].
  - assert (v = 0) by (by apply Hnil). rewrite (proj2 (Z.eqb_neq precision 0)) by lia. cbn [negb andb].
    change (Z.of_nat 0) with 0. rewrite Z.sub_0_r. cbn [Z.eqb andb]. unfold truth.
    destruct (Z.ltb_spec 0 precision), (Z.eqb_spec precision 0); cbn; (split; [lia|intros Hx; exfalso; lia]).
  - rewrite (proj2 (Z.eqb_neq (Z.of_nat (S (length ds))) 0)) by lia. cbn [andb]. case_if; split; try done; lia.
Qed.

Lemma number_ok v neg base upper flags width precision :
  base = 8 ∨ base = 10 ∨ base = 16 → 0 ≤ v < 2 ^ 64 → precision ≠ 0 ∨ v ≠ 0 →
  ∃ out tl, number v neg base upper flags width precision = Ok out ∧ width ≤ Z.of_nat (length out) ∧ blanks tl ∧
            parse out base = Parsed v neg false tl false.
Proof.
  intros Hb Hv Hp. unfold number.
  destruct (digits_loop_ok 24 v base upper []) as (ds & -> & Hval & Hd & Hnil); [lia|done| |].
  { apply Z.lt_le_trans with (8 ^ 24); [lia|]. change (Z.of_nat 24) with 24. apply Z.pow_le_mono_l. lia. }
  rewrite app_nil_r. cbn [mbind outcome_bind].
  destruct (zeros_ok ds v precision Hnil Hp) as [Hz Hzd]. set (zeros := if (_ =? 0) && _ then _ else _) in *. clearbody zeros.
  destruct (prefix_ok base v ds Hb ltac:(lia) Hd Hval neg upper flags zeros Hz Hzd) as (P & zz & -> & Hzz & Hparse).
  destruct (field_ok flags width precision P ds zz Hzz) as (sp & z & tl & E & Hsp & Htl & Hle & Hw).
  exists (sp ++ P ++ (pad 48 z ++ ds) ++ tl), tl. split_and!; [exact E|done|done|by apply Hparse].
Qed.

(** ** Conversions *)

Lemma signed_range w x : 0 < w → - 2 ^ (w - 1) ≤ signed w x < 2 ^ (w - 1).
Proof.
  intros Hw. assert (2 ^ w = 2 * 2 ^ (w - 1)) as E by (rewrite <- Z.pow_succ_r by lia; f_equal; lia).
  unfold signed. pose proof (Z.mod_pos_bound x (2 ^ w) ltac:(lia)). case_if; lia.
Qed.

(** What [strtol] and [strtoll] make of a magnitude and a sign. *)
Lemma signed_read w m (neg : bool) v :
  0 < w ≤ 64 → - 2 ^ (w - 1) ≤ v < 2 ^ (w - 1) → m = Z.abs v → neg = (v <? 0) →
  (m >? (if neg then 2 ^ (w - 1) - 1 + 1 else 2 ^ (w - 1) - 1)) = false ∧
  (if neg then signed w (u64 (0 - m)) else signed w m) = v.
Proof.
  intros Hw Hv -> ->. rewrite Z.gtb_ltb. destruct (Z.ltb_spec v 0); (split; [apply Z.ltb_ge; lia|]).
  - unfold u64. assert (signed w ((0 - Z.abs v) mod 2 ^ 64) = signed w (0 - Z.abs v)) as ->.
    { unfold signed. replace (2 ^ 64) with (2 ^ w * 2 ^ (64 - w)) by (rewrite <- Z.pow_add_r by lia; f_equal; lia).
      rewrite Z.rem_mul_r by lia. rewrite (Z.mul_comm (2 ^ w) (_ mod _)). by rewrite Z.mod_add, Zmod_mod by lia. }
    rewrite signed_small; lia.
  - rewrite signed_small; lia.
Qed.

Section conversions.
Context (spec : list Z) (flags width precision : Z) (wide : bool) (v : Z) (ap : list arg) (errno : Z).
Let w := if wide then 64 else 32.
Let args := (if wide then Wide v else Word v) :: ap.
Hypothesis v_range : 0 ≤ v < 2 ^ w.
Hypothesis has_digits : precision ≠ 0 ∨ v ≠ 0.

Local Lemma va_v : va_int wide args = Ok (v, ap).
Proof. unfold args. by destruct wide. Qed.

Local Lemma w_cases : w = 32 ∨ w = 64.
Proof. unfold w. destruct wide; auto. Qed.

Lemma signed_conversion c :
  (c =? 100) || (c =? 105) = true →
  ∃ out tl, convert c spec flags width precision wide args = Ok (out, ap) ∧ width ≤ Z.of_nat (length out) ∧ blanks tl ∧
    (if wide then strtoll else strtol) out 10 errno = (signed w v, tl, errno).
Proof.
  intros Ed. pose proof w_cases as Hw. unfold convert. rewrite Ed, va_v. cbn [mbind outcome_bind]. fold w.
  pose proof (signed_range w v ltac:(lia)) as Hs. set (x := signed w v) in *.
  assert ((if x <? 0 then u64 (0 - u64 x) else u64 x) = Z.abs x) as ->.
  { assert (2 ^ (w - 1) ≤ 2 ^ 63) by (apply Z.pow_le_mono_r; lia). unfold u64. case_if.
    - rewrite Zminus_mod_idemp_r, Z.mod_small; lia.
    - rewrite Z.mod_small; lia. }
  assert (precision ≠ 0 ∨ Z.abs x ≠ 0) as Hp.
  { destruct has_digits as [?|Hp]; [by left|right]. subst x. unfold signed. rewrite Z.mod_small by done. case_if; lia. }
  destruct (number_ok (Z.abs x) (x <? 0) 10 false flags width precision) as (out & tl & -> & Hl & Htl & Hparse);
    [auto|split; [lia|]; destruct Hw as [E|E]; rewrite E in Hs; lia|done|].
  exists out, tl. split_and!; [done|done|done|].
  destruct (signed_read w (Z.abs x) (x <? 0) x) as [Hlim Hx]; [lia|done|done|done|]. unfold w in *.
  destruct wide; [unfold strtoll, LLONG_MAX|unfold strtol, LONG_MAX]; rewrite Hparse; cbn [magnitude negative overflow rest bad_base orb];
    [change (64 - 1) with 63 in Hlim|change (32 - 1) with 31 in Hlim]; by rewrite Hlim, Hx.
Qed.

Lemma unsigned_conversion c :
  c ∈ [117; 120; 88; 111] →
  let base := if (c =? 120) || (c =? 88) then 16 else if c =? 111 then 8 else 10 in
  ∃ out tl, convert c spec flags width precision wide args = Ok (out, ap) ∧ width ≤ Z.of_nat (length out) ∧ blanks tl ∧
    (if wide then strtoull else strtoul) out base errno = (v, tl, errno).
Proof.
  intros Hc. pose proof w_cases as Hw.
  assert ((c =? 100) || (c =? 105) = false ∧ (c =? 117) || (c =? 120) || (c =? 88) || (c =? 111) = true ∧
    (if c =? 117 then 10 else if c =? 111 then 8 else 16)
    = (if (c =? 120) || (c =? 88) then 16 else if c =? 111 then 8 else 10)) as (E1 & E2 & E3).
  { rewrite !elem_of_cons, elem_of_nil in Hc. by destruct Hc as [-> | [-> | [-> | [-> | []]]]]. }
  set (base := if (c =? 120) || (c =? 88) then 16 else _) in *.
  assert (base = 8 ∨ base = 10 ∨ base = 16) as Hb by (subst base; repeat case_if; auto).
  unfold convert. rewrite E1, E2, va_v, E3. cbn [mbind outcome_bind].
  destruct (number_ok v false base (c =? 88) (Z.land flags (not32 (Z.lor PLUS SPACE))) width precision)
    as (out & tl & -> & Hl & Htl & Hparse); [done|destruct Hw as [E|E]; rewrite E in v_range; lia|done|].
  exists out, tl. split_and!; [done|done|done|]. unfold w in *.
  destruct wide; [unfold strtoull|unfold strtoul]; rewrite Hparse; cbn [magnitude negative overflow rest bad_base orb]; [done|].
  rewrite Z.gtb_ltb, (proj2 (Z.ltb_ge _ _)), u32_small by lia. done.
Qed.
End conversions.

(** C28: every integer conversion of [printf] - d, i, u, x, X and o, 32 or 64
    bits wide, with any flags, width and precision - prints a field of at
    least its width that the matching [strto*] function reads back: the same
    value, no error, and nothing left but the blanks that pad the field on
    the right. (Only a 0 printed with precision 0 has no digits.) *)
Theorem format_parse c spec flags width precision (wide : bool) v ap errno :
  c ∈ text "diuxXo" → 0 ≤ v < 2 ^ (if wide then 64 else 32) → precision ≠ 0 ∨ v ≠ 0 →
  let base := if (c =? 120) || (c =? 88) then 16 else if c =? 111 then 8 else 10 in
  ∃ out tl,
    convert c spec flags width precision wide ((if wide then Wide v else Word v) :: ap) = Ok (out, ap) ∧
    width ≤ Z.of_nat (length out) ∧ blanks tl ∧
    (if (c =? 100) || (c =? 105)
     then (if wide then strtoll else strtol) out base errno = (signed (if wide then 64 else 32) v, tl, errno)
     else (if wide then strtoull else strtoul) out base errno = (v, tl, errno)).
Proof.
  intros Hc Hv Hp. cbn zeta. destruct ((c =? 100) || (c =? 105)) eqn:Ed.
  - assert ((c =? 120) || (c =? 88) = false ∧ (c =? 111) = false) as [-> ->].
    { apply orb_true_iff in Ed as [Ed|Ed]; apply Z.eqb_eq in Ed as ->; done. }
    by apply signed_conversion.
  - apply unsigned_conversion; [done|done|]. change (c ∈ [100; 105; 117; 120; 88; 111]) in Hc.
    rewrite !elem_of_cons in Hc. rewrite !elem_of_cons. destruct Hc as [-> | [-> | Hc]]; done.
Qed.

(** -42 printed with [%-8d]: five blanks are left behind it. *)
Lemma format_parse_witness :
  ∃ out tl, convert 100 [] LEFT 8 (-1) false [Word (2 ^ 32 - 42)] = Ok (out, []) ∧ 8 ≤ Z.of_nat (length out) ∧ blanks tl ∧
    strtol out 10 0 = (-42, tl, 0).
Proof.
  apply (format_parse 100 [] LEFT 8 (-1) false (2 ^ 32 - 42) [] 0); [|lia|lia]. by apply list_elem_of_In; left.
Defined.

Lemma division64_correct_witness :
  __udivdi3 (2 ^ 64 - 1) (2 ^ 32 + 1) = Some (2 ^ 32 - 1) ∧ __divdi3 (-7) 2 = Some (-3) ∧ __moddi3 (-7) 2 = Some (-1).
Proof.
  pose proof (division64_correct (2 ^ 64 - 1) (2 ^ 32 + 1)) as [H _]. destruct H as [-> _]; [lia|lia|].
  pose proof (division64_correct (-7) 2) as (_ & H & _). destruct H as [-> ->]; [lia|lia|lia|]. by vm_compute.
Defined.

(** ** The format loop ends *)

Definition arg_ok (a : arg) : Prop :=
  match a with Word v => 0 ≤ v < 2 ^ 32 | Wide v => 0 ≤ v < 2 ^ 64 | Str _ => True end.

(** [m] is a result with [Q], or the undefined use of an argument. *)
Definition ends {A} (m : outcome A) (Q : A → Prop) : Prop :=
  match m with Ok a => Q a | Panic _ => True | NoFuel => False end.

Lemma ends_bind {A B} (m : outcome A) (f : A → outcome B) Q :
  ends m (λ a, ends (f a) Q) → ends (m ≫= f) Q.
Proof. by destruct m. Qed.

Lemma ends_mono {A} (m : outcome A) (P Q : A → Prop) : ends m P → (∀ a, P a → Q a) → ends m Q.
Proof. destruct m; naive_solver. Qed.

Lemma va_word_ends ap : Forall arg_ok ap → ends (va_word ap) (λ r, 0 ≤ r.1 < 2 ^ 64 ∧ Forall arg_ok r.2).
Proof. intros [|[v|v|s] ap' Ha Hap]; cbn in *; try done. split; [lia|done]. Qed.

Lemma va_int_ends wide ap : Forall arg_ok ap → ends (va_int wide ap) (λ r, 0 ≤ r.1 < 2 ^ 64 ∧ Forall arg_ok r.2).
Proof. intros [|[v|v|s] ap' Ha Hap]; destruct wide; cbn in *; try done. split; [lia|done]. Qed.

Lemma va_str_ends ap : Forall arg_ok ap → ends (va_str ap) (λ r, Forall arg_ok r.2).
Proof. by intros [|[v|v|s] ap' Ha Hap]; cbn in *. Qed.

Lemma number_ends v neg base upper flags width precision :
  base = 8 ∨ base = 10 ∨ base = 16 → 0 ≤ v < 2 ^ 64 →
  ends (number v neg base upper flags width precision) (λ _, True).
Proof.
  intros Hb Hv. unfold number. destruct (digits_loop_ok 24 v base upper []) as (ds & -> & _); [lia|done| |].
  { apply Z.lt_le_trans with (8 ^ 24); [lia|]. change (Z.of_nat 24) with 24. apply Z.pow_le_mono_l. lia. }
  cbn [mbind outcome_bind]. cbn zeta.
  destruct (if neg then _ else _) as [P zs]. destruct (if has flags ZERO && _ && _ then _ else _) as [zs' fill]. exact I.
Qed.

Lemma convert_ends c spec flags width precision wide ap :
  Forall arg_ok ap → ends (convert c spec flags width precision wide ap) (λ r, Forall arg_ok r.2).
Proof.
  intros Hap. assert (∀ wide, ends (va_int wide ap) (λ r, 0 ≤ r.1 < 2 ^ 64 ∧ Forall arg_ok r.2)) as Hi.
  { intros. by apply va_int_ends. }
  unfold convert. case_if; [|case_if; [|case_if; [|case_if; [|case_if; [|by case_if]]]]].
  - apply ends_bind. eapply ends_mono; [apply Hi|]. intros [v ap'] [Hv Hap']. cbn [fst snd] in *.
    apply ends_bind. eapply ends_mono; [apply number_ends; [auto|]|by intros]. case_if; apply u64_range.
  - apply ends_bind. eapply ends_mono; [apply Hi|]. intros [v ap'] [Hv Hap']. cbn [fst snd] in *.
    apply ends_bind. eapply ends_mono; [apply number_ends; [|exact Hv]|by intros]. repeat case_if; auto.
  - apply ends_bind. eapply ends_mono; [by apply va_word_ends|]. intros [v ap'] [Hv Hap']. cbn [fst snd] in *.
    apply ends_bind. eapply ends_mono; [apply number_ends; [auto|exact Hv]|by intros].
  - apply ends_bind. eapply ends_mono; [by apply va_word_ends|]. by intros [v ap'] [Hv Hap'].
  - apply ends_bind. eapply ends_mono; [by apply va_str_ends|]. by intros [v ap'] Hap'.
Qed.

Lemma spec_flags_length flags s : (length (spec_flags flags s).2 ≤ length s)%nat.
Proof.
  revert flags. induction s as [|c s IH]; intros flags; [done|]. cbn [spec_flags].
  repeat (case_if; [cbn; etransitivity; [apply IH|lia]|]). done.
Qed.

Lemma spec_decimal_length n s : (length (spec_decimal n s).2 ≤ length s)%nat.
Proof.
  revert n. induction s as [|c s IH]; intros n; [done|]. cbn [spec_decimal].
  case_if; [cbn; etransitivity; [apply IH|lia]|done].
Qed.

Lemma spec_length_length wide s : (length (spec_length wide s).2 ≤ length s)%nat.
Proof.
  revert wide. induction (Nat.lt_wf_0_projected (length (A := Z)) s) as [s _ IH]; intros wide.
  destruct s as [|c [|c' s]]; [done|cbn; case_if; cbn; lia|].
  assert (∃ w, spec_length wide (c :: c' :: s) = spec_length w s ∨ spec_length wide (c :: c' :: s) = spec_length w (c' :: s) ∨
               spec_length wide (c :: c' :: s) = (w, c :: c' :: s)) as [w [E | [E|E]]].
  { exists (if (c =? 104) || (c =? 108) || (c =? 122) || (c =? 116) || (c =? 106)
            then wide || (c =? 106) || (c =? 108) && (c' =? 108) else wide).
    unfold spec_length at 1 3 5. fold spec_length. case_if; [|auto]. case_if; auto. }
  - rewrite E. etransitivity; [apply IH; cbn; lia|cbn; lia].
  - rewrite E. etransitivity; [apply IH; cbn; lia|cbn; lia].
  - by rewrite E.
Qed.

Lemma drop1_length (s : list Z) : (length (drop 1 s) ≤ length s)%nat.
Proof. rewrite length_drop. lia. Qed.

Lemma conversion_ends fmt ap :
  fmt ≠ [] → Forall arg_ok ap →
  ends (conversion fmt ap) (λ r, Forall arg_ok r.1.2 ∧ (length r.2 < length fmt)%nat).
Proof.
  intros Hne Hap. unfold conversion. destruct fmt as [|c0 fmt]; [done|].
  change (drop 1 (c0 :: fmt)) with fmt.
  pose proof (spec_flags_length 0 fmt) as H1. destruct (spec_flags 0 fmt) as [flags s1]. cbn [snd] in H1.
  apply ends_bind. eapply (ends_mono _ (λ r : Z * Z * list arg * list Z, Forall arg_ok r.1.2 ∧ (length r.2 ≤ length fmt)%nat)).
  { case_if.
    - apply ends_bind. eapply ends_mono; [by apply va_word_ends|]. intros [v ap'] [Hv Hap']. cbn [fst snd] in *.
      pose proof (drop1_length s1). case_if; (split; [done|cbn; lia]).
    - pose proof (spec_decimal_length 0 s1). destruct (spec_decimal 0 s1) as [w s2]. cbn in *. split; [done|lia]. }
  intros [[[flags' width] ap1] s2] [Hap1 H2]. cbn [fst snd] in *.
  apply ends_bind. eapply (ends_mono _ (λ r : Z * list arg * list Z, Forall arg_ok r.1.2 ∧ (length r.2 ≤ length fmt)%nat)).
  { case_if; [|done]. pose proof (drop1_length s2). case_if.
    - apply ends_bind. eapply ends_mono; [by apply va_word_ends|]. intros [v ap'] [Hv Hap']. cbn [fst snd] in *.
      pose proof (drop1_length (drop 1 s2)). split; [done|cbn; lia].
    - pose proof (spec_decimal_length 0 (drop 1 s2)). destruct (spec_decimal 0 (drop 1 s2)) as [w s3]. cbn in *. split; [done|lia]. }
  intros [[precision ap2] s3] [Hap2 H3]. cbn [fst snd] in *.
  pose proof (spec_length_length false s3). destruct (spec_length false s3) as [wide s4]. cbn [snd] in *.
  apply ends_bind. eapply ends_mono; [by apply convert_ends|]. intros [out ap3] Hap3. cbn [fst snd ends] in *.
  split; [done|]. pose proof (drop1_length s4). cbn [length]. lia.
Qed.

Lemma literal_length fmt : (length (literal fmt).2 ≤ length fmt)%nat.
Proof. induction fmt as [|c fmt IH]; [done|]. cbn. case_if; [done|]. destruct (literal fmt). cbn in *. lia. Qed.

(** [vsnprintf] ends on every format and every arguments - its loops all
    advance, and no number needs more than the 24 bytes [number] has for
    digits - and stores at most [size] bytes, the last of them a NUL. (The
    arguments' kinds have to match the conversions, as C asks.) *)
Theorem vsnprintf_ends size fmt ap :
  0 ≤ size → Forall arg_ok ap →
  ends (vsnprintf size fmt ap) (λ r,
    Z.of_nat (length r.1) ≤ size ∧ (0 < size → last r.1 = Some 0 ∧ Z.of_nat (length r.1) = Z.min (size - 1) r.2 + 1)).
Proof.
  intros Hs Hap. assert (∀ n fmt ap, (length fmt ≤ n)%nat → Forall arg_ok ap → ends (format n fmt ap) (λ _, True)) as H.
  { clear. induction n as [|n IH]; intros [|c fmt] ap Hn Hap; cbn [length] in Hn; [done|lia|done|]. cbn [format]. case_if.
    - apply ends_bind. eapply ends_mono; [by apply conversion_ends|]. intros [[out ap'] fmt'] [Hap' Hl]. cbn in Hap', Hl.
      apply ends_bind. eapply ends_mono; [apply IH; [lia|done]|by intros].
    - cbn [literal]. rewrite (proj2 (Z.eqb_neq c 37)) by done.
      pose proof (literal_length fmt). destruct (literal fmt) as [t r]. cbn in *.
      apply ends_bind. eapply ends_mono; [apply IH; [lia|done]|by intros]. }
  unfold vsnprintf. apply ends_bind. eapply ends_mono; [by apply H|]. intros out _. cbn.
  unfold truth. destruct (Z.eqb_spec size 0); cbn [negb]; [cbn; lia|].
  rewrite length_app, length_take, last_snoc. cbn. split; [lia|]. intros _. split; [done|lia].
Qed.

Lemma vsnprintf_ends_witness :
  vsnprintf 6 (text "%05x|%s|%-4d") [Word 255; Str (Some (text "ab")); Word 7] = Ok (text "000ff" ++ [0], 13) ∧
  Z.of_nat (length (text "000ff" ++ [0])) ≤ 6.
Proof.
  pose proof (vsnprintf_ends 6 (text "%05x|%s|%-4d") [Word 255; Str (Some (text "ab")); Word 7]) as H. split; [by vm_compute|].
  destruct (vsnprintf 6 (text "%05x|%s|%-4d") [Word 255; Str (Some (text "ab")); Word 7]) as [r| |] eqn:E;
    vm_compute in E; [|done..]. injection E as <-. apply H; [lia|]. repeat (apply Forall_cons; split; [cbn; lia || exact I|]). by apply Forall_nil_2.
Defined.
