(* ===== verification/LibcSort.v ===== *)
(** * [qsort] sorts and [bsearch] finds

    The heap invariant of [sift_down], from it the order of what [qsort]
    returns, and the interval [bsearch] keeps. *)
From S2P Require Import Prelude Libc.

Local Open Scope nat_scope.

(** What C asks of a comparison function. *)
Class Comparison {A} (cmp : A → A → Z) : Prop := {
  cmp_flip x y : Z.sgn (cmp y x) = (- Z.sgn (cmp x y))%Z;
  cmp_trans x y z : (cmp x y ≤ 0 → cmp y z ≤ 0 → cmp x z ≤ 0)%Z
}.

#[export] Instance subtraction_compares : Comparison Z.sub.
Proof. split; intros; lia. Qed.

(** ** Exchanges *)

Definition exchanged {A} (i j : nat) (l : list A) : list A :=
  match l !! i, l !! j with Some x, Some y => <[i := y]> (<[j := x]> l) | _, _ => l end.

Lemma swap_ok {A} (l : list A) i j : i < length l → j < length l → swap i j l = Ok (exchanged i j l).
Proof.
  intros Hi Hj. unfold swap, element, exchanged.
  destruct (lookup_lt_is_Some_2 l i Hi) as [x ->], (lookup_lt_is_Some_2 l j Hj) as [y ->]. done.
Qed.

Lemma lookup_exchanged {A} (l : list A) i j k :
  i ≠ j → i < length l → j < length l →
  exchanged i j l !! k = if decide (k = i) then l !! j else if decide (k = j) then l !! i else l !! k.
Proof.
  intros Hne Hi Hj. unfold exchanged. destruct (lookup_lt_is_Some_2 l i Hi) as [x Ex], (lookup_lt_is_Some_2 l j Hj) as [y Ey].
  rewrite Ex, Ey. destruct (decide (k = i)) as [-> |]; [by rewrite list_lookup_insert_eq by by rewrite length_insert|].
  rewrite list_lookup_insert_ne by done. destruct (decide (k = j)) as [-> |]; [by rewrite list_lookup_insert_eq|].
  by rewrite list_lookup_insert_ne.
Qed.

Lemma length_exchanged {A} (l : list A) i j : length (exchanged i j l) = length l.
Proof. unfold exchanged. repeat case_match; try done. by rewrite !length_insert. Qed.

Lemma exchanged_Permutation {A} (l : list A) i j : i < j → j < length l → exchanged i j l ≡ₚ l.
Proof.
  intros Hij Hj. destruct (lookup_lt_is_Some_2 l i ltac:(lia)) as [x Ex], (lookup_lt_is_Some_2 l j Hj) as [y Ey].
  unfold exchanged. rewrite Ex, Ey. rewrite <- (take_drop_middle _ _ _ Ex) at 1 2.
  assert (drop (S i) l !! (j - S i) = Some y) as Ey' by (rewrite lookup_drop; rewrite <- Ey; f_equal; lia).
  rewrite <- (take_drop_middle _ _ _ Ey'). set (a := take i l). set (m := take (j - S i) (drop (S i) l)).
  set (c := drop (S (j - S i)) (drop (S i) l)).
  assert (length a = i) as Ha by (apply length_take_le; lia).
  assert (length m = j - S i) as Hm by (apply length_take_le; rewrite length_drop; lia).
  assert (<[i:=y]> (<[j:=x]> (a ++ x :: m ++ y :: c)) = a ++ y :: m ++ x :: c) as ->.
  { rewrite insert_app_r_alt by lia. replace (j - length a) with (S (length m)) by lia.
    change (<[S (length m):=x]> (x :: m ++ y :: c)) with (x :: <[length m:=x]> (m ++ y :: c)).
    rewrite (insert_app_r_alt m), Nat.sub_diag by lia. rewrite (insert_app_r_alt a) by lia.
    by replace (i - length a) with 0 by lia. }
  apply Permutation_app_head. rewrite <- !Permutation_middle. apply perm_swap.
Qed.

(** ** Heaps *)

Section sorting.
Context {A : Type} (cmp : A → A → Z) `{!Comparison cmp}.

Definition le_at (l : list A) (i j : nat) : Prop :=
  ∀ x y, l !! i = Some x → l !! j = Some y → (cmp x y ≤ 0)%Z.

Definition child_of (i j : nat) : Prop := j = 2 * i + 1 ∨ j = 2 * i + 2.

(** From index [k] on, the first [count] elements are no greater than their
    parents; [hole] excepts one parent. *)
Definition heap_from (k count : nat) (l : list A) : Prop :=
  ∀ i j, k ≤ i → child_of i j → j < count → le_at l j i.

Definition heap_but (k hole count : nat) (l : list A) : Prop :=
  (∀ i j, k ≤ i → i ≠ hole → child_of i j → j < count → le_at l j i) ∧
  (∀ i j, k ≤ i → child_of i hole → child_of hole j → j < count → le_at l j i).

Lemma le_refl x : (cmp x x ≤ 0)%Z.
Proof. pose proof (cmp_flip x x). lia. Qed.

Lemma le_total x y : (0 ≤ cmp x y → cmp y x ≤ 0)%Z.
Proof. pose proof (cmp_flip x y). lia. Qed.

(** The root of a heap is its greatest element. *)
Lemma heap_root count l i : heap_from 0 count l → i < count → count ≤ length l → le_at l i 0.
Proof.
  intros Hh. induction (lt_wf i) as [i _ IH]. intros Hi Hl. destruct i as [|i].
  - intros x y -> [= ->]. apply le_refl.
  - intros x y Ex Ey. destruct (lookup_lt_is_Some_2 l (i / 2)) as [z Ez].
    { pose proof (Nat.div_mod_eq i 2). lia. }
    pose proof (Nat.div_mod_eq i 2) as E2. pose proof (Nat.mod_upper_bound i 2).
    apply (cmp_trans x z y).
    + apply (Hh (i / 2) (S i)); [lia|unfold child_of; lia|done|done|done].
    + apply (IH (i / 2)); [lia|lia|done|done|done].
Qed.

Definition cmp_at (l : list A) (i j : nat) : Z :=
  match l !! i, l !! j with Some x, Some y => cmp x y | _, _ => 0%Z end.

Lemma cmp_at_some l i j x y : l !! i = Some x → l !! j = Some y → cmp_at l i j = cmp x y.
Proof. intros Ex Ey. unfold cmp_at. by rewrite Ex, Ey. Qed.

Lemma compare_at_ok l i j : i < length l → j < length l → compare_at cmp l i j = Ok (cmp_at l i j).
Proof.
  intros Hi Hj. unfold compare_at, element, cmp_at.
  destruct (lookup_lt_is_Some_2 l i Hi) as [x ->], (lookup_lt_is_Some_2 l j Hj) as [y ->]. done.
Qed.

(** The greater child, when there is one. *)
Definition greater_child (root count : nat) (l : list A) : nat :=
  let child := 2 * root + 1 in
  if (S child <? count) && (cmp_at l child (S child) <? 0)%Z then S child else child.

(** All accesses are inside the array. *)
Lemma sift_down_step fuel root count l :
  (Z.of_nat count < 2 ^ 31)%Z → root < count → count ≤ length l →
  sift_down cmp (S fuel) root count l =
  if count <=? 2 * root + 1 then Ok l
  else let child := greater_child root count l in
       if (cmp_at l root child >=? 0)%Z then Ok l
       else sift_down cmp fuel child count (exchanged root child l).
Proof.
  intros Hc Hr Hl. cbn [sift_down]. replace (Z.to_nat (u32 (2 * Z.of_nat root + 1))) with (2 * root + 1) by (rewrite u32_small; lia).
  destruct (Nat.leb_spec count (2 * root + 1)) as [|Hlt]; [done|]. unfold greater_child. cbn zeta.
  destruct (Nat.ltb_spec (S (2 * root + 1)) count) as [Hs|Hs]; cbn [andb].
  - rewrite (compare_at_ok l (2 * root + 1)) by lia. cbn [mbind outcome_bind].
    set (child := if (_ <? 0)%Z then _ else _). assert (child < length l) as Hch by (unfold child; case_match; lia).
    rewrite compare_at_ok by lia. cbn [mbind outcome_bind]. by rewrite swap_ok by lia.
  - cbn [mbind outcome_bind]. rewrite compare_at_ok by lia. cbn [mbind outcome_bind]. by rewrite swap_ok by lia.
Qed.

Lemma greater_child_ok root count l :
  2 * root + 1 < count → count ≤ length l →
  let c := greater_child root count l in
  child_of root c ∧ c < count ∧ ∀ j, child_of root j → j < count → le_at l j c.
Proof.
  intros Hc Hl. unfold greater_child. cbn zeta. destruct (lookup_lt_is_Some_2 l (2 * root + 1)) as [x Ex]; [lia|].
  destruct (Nat.ltb_spec (S (2 * root + 1)) count) as [Hlt|Hge]; cbn [andb].
  - destruct (lookup_lt_is_Some_2 l (S (2 * root + 1))) as [y Ey]; [lia|].
    rewrite (cmp_at_some _ _ _ _ _ Ex Ey). pose proof (le_refl x). pose proof (le_refl y).
    destruct (Z.ltb_spec (cmp x y) 0) as [Hxy|Hxy]; unfold child_of; (split_and!; [lia|lia|]).
    + intros j [-> | ->] _ a b Ha Hb; [|rewrite Nat.add_succ_r in Ha]; simplify_eq; [lia|done].
    + intros j [-> | ->] _ a b Ha Hb; [|rewrite Nat.add_succ_r in Ha]; simplify_eq; [done|by apply le_total].
  - unfold child_of. split_and!; [lia|lia|]. intros j [-> | ->] Hj a b Ha Hb; [|lia]. simplify_eq. apply le_refl.
Qed.

Lemma child_parent i i' j : child_of i j → child_of i' j → i = i'.
Proof. unfold child_of. lia. Qed.

(** Exchanging the hole with its greater child moves the hole there. *)
Lemma heap_but_swap k root child count l x y :
  k ≤ root → count ≤ length l → heap_but k root count l → child_of root child → child < count →
  (∀ j, child_of root j → j < count → le_at l j child) →
  l !! root = Some x → l !! child = Some y → (cmp x y < 0)%Z →
  heap_but k child count (exchanged root child l).
Proof.
  intros Hk Hl [Ha Hb] Hch Hc Hmax Ex Ey Hlt. assert (root < child) as Hrc by (unfold child_of in Hch; lia).
  assert (∀ j, exchanged root child l !! j = if decide (j = root) then l !! child else if decide (j = child) then l !! root else l !! j) as Hs.
  { intros. apply lookup_exchanged; lia. }
  split.
  - intros i j Hi Hne Hij Hj a b. rewrite !Hs. rewrite (decide_False (P := i = child)) by done.
    destruct (decide (i = root)) as [->|Hir].
    + rewrite decide_False by (unfold child_of in Hij; lia). destruct (decide (j = child)) as [->|]; intros; simplify_eq; [lia|].
      by eapply (Hmax j).
    + destruct (decide (j = root)) as [->|]; [by apply (Hb i child)|].
      rewrite decide_False; [by apply (Ha i j)|]. intros ->. by apply Hir, (child_parent _ _ child).
  - intros i j Hi Hic Hcj Hj a b. rewrite !Hs. rewrite (child_parent _ _ _ Hic Hch).
    rewrite (decide_True (P := root = root)), !decide_False by (unfold child_of in *; lia). apply (Ha child j); [lia|lia|done..].
Qed.

(** [sift_down] ends, moves elements among the first [count] at and after
    [root] only, and fills the hole. *)
Lemma sift_down_ok k fuel root count l :
  (Z.of_nat count < 2 ^ 31)%Z → k ≤ root → root < count → count ≤ length l → count ≤ S fuel + root →
  heap_but k root count l →
  ∃ l', sift_down cmp (S fuel) root count l = Ok l' ∧ l' ≡ₚ l ∧ heap_from k count l' ∧
        ∀ i, count ≤ i ∨ i < root → l' !! i = l !! i.
Proof.
  intros Hc. revert root l. induction fuel as [|fuel IH]; intros root l Hk Hr Hl Hf Hh; rewrite sift_down_step by done;
    (destruct (Nat.leb_spec count (2 * root + 1)) as [Hle|Hgt];
      [exists l; split_and!; [done|done| |done]; intros i j Hi Hij Hj; apply (proj1 Hh); [done|unfold child_of in Hij; lia|done..]|]);
    [lia|].
  destruct (greater_child_ok root count l Hgt Hl) as (Hch & Hcc & Hmax). set (child := greater_child root count l) in *.
  cbn zeta. destruct (lookup_lt_is_Some_2 l root) as [x Ex]; [lia|]. destruct (lookup_lt_is_Some_2 l child) as [y Ey]; [lia|].
  rewrite (cmp_at_some _ _ _ _ _ Ex Ey), Z.geb_leb. assert (root < child) as Hrc by (unfold child_of in Hch; lia).
  destruct (Z.leb_spec 0 (cmp x y)) as [Hge|Hlt].
  - exists l. split_and!; [done|done| |done]. intros i j Hi Hij Hj. destruct (decide (i = root)) as [->|]; [|by apply (proj1 Hh)].
    intros a b Ha Hb. simplify_eq. apply (cmp_trans a y _); [by apply (Hmax j)|by apply le_total].
  - destruct (IH child (exchanged root child l)) as (l' & -> & Hp & Hheap & Hsame); [lia|done|by rewrite length_exchanged|lia| |].
    { by apply (heap_but_swap k root child count l x y). }
    exists l'. split_and!; [done| |done|].
    + rewrite Hp. apply exchanged_Permutation; lia.
    + intros i Hi. rewrite Hsame by lia. rewrite lookup_exchanged, !decide_False by lia. done.
Qed.

Lemma heapify_ok n l :
  (Z.of_nat (length l) < 2 ^ 31)%Z → n ≤ length l → heap_from n (length l) l →
  ∃ l', heapify cmp n l = Ok l' ∧ l' ≡ₚ l ∧ heap_from 0 (length l) l'.
Proof.
  intros Hl. revert l Hl. induction n as [|n IH]; intros l Hl Hn Hh; [by exists l|].
  destruct (sift_down_ok n (length l) n (length l) l) as (l1 & E1 & Hp & Hh1 & _); [lia|lia|lia|lia|lia| |].
  { split; intros i j Hi; [|unfold child_of; lia]. intros Hne Hij Hj. apply Hh; [lia|done..]. }
  pose proof (Permutation_length Hp) as El. destruct (IH l1) as (l2 & E2 & Hp2 & Hh2); [lia|lia|by rewrite El|].
  exists l2. cbn [heapify]. rewrite E1. cbn. split_and!; [done|by rewrite Hp2|by rewrite <- El].
Qed.

Definition sorted (l : list A) : Prop := ∀ i j, i < j → le_at l i j.

(** The elements after the heap are in order and no smaller than it. *)
Definition extracted (last : nat) (l : list A) : Prop :=
  heap_from 0 (S last) l ∧ ∀ i j, i < j → last < j → le_at l i j.

(** Two permutations of each other that agree from [n] on have the same
    elements before [n]. *)
Lemma same_front (l l' : list A) n i x :
  l' ≡ₚ l → (∀ j, n ≤ j → l' !! j = l !! j) → i < n → l' !! i = Some x → ∃ i', i' < n ∧ l !! i' = Some x.
Proof.
  intros Hp Hs Hi Ex. assert (drop n l' = drop n l) as Ed by (apply list_eq; intros j; rewrite !lookup_drop; apply Hs; lia).
  assert (take n l' ≡ₚ take n l) as Ht.
  { apply (Permutation_app_inv_r (drop n l)). rewrite <- Ed at 1. by rewrite !take_drop. }
  assert (x ∈ take n l) as Hx.
  { rewrite <- Ht. apply list_elem_of_lookup. exists i. by rewrite lookup_take_lt. }
  apply list_elem_of_lookup in Hx as [i' Hx]. apply lookup_take_Some in Hx as [Hx Hi']. by exists i'.
Qed.

Lemma extract_round last l :
  (Z.of_nat (length l) < 2 ^ 31)%Z → S last < length l → extracted (S last) l →
  ∃ l', sift_down cmp (S (length l)) 0 (S last) (exchanged 0 (S last) l) = Ok l' ∧ l' ≡ₚ l ∧ extracted last l'.
Proof.
  intros Hl Hn [Hh Ho].
  assert (∀ j, exchanged 0 (S last) l !! j = if decide (j = 0) then l !! S last else if decide (j = S last) then l !! 0 else l !! j) as Hs.
  { intros. apply lookup_exchanged; lia. }
  destruct (sift_down_ok 0 (length l) 0 (S last) (exchanged 0 (S last) l)) as (l' & E & Hp & Hh' & Hsame);
    [lia|lia|lia|rewrite length_exchanged; lia|lia| |].
  { split; [|unfold child_of; lia]. intros i j _ Hi Hij Hj a b. unfold child_of in Hij. rewrite !Hs, !decide_False by lia.
    apply (Hh i j); [lia|done|lia]. }
  rewrite (exchanged_Permutation l 0 (S last)) in Hp by lia. exists l'. split_and!; [done|done|]. split; [done|].
  intros i j Hij Hj x y Ex Ey. rewrite Hsame, Hs in Ey by lia.
  assert (∀ i', S (S last) ≤ i' → l' !! i' = l !! i') as Hend.
  { intros i' Hi'. by rewrite Hsame, Hs, !decide_False by lia. }
  rewrite decide_False in Ey by lia.
  assert (∃ i', i' ≤ i `max` S last ∧ l !! i' = Some x) as (i' & Hi' & Ex').
  { destruct (decide (i ≤ S last)) as [Hle|Hgt].
    - destruct (same_front l l' (S (S last)) i x) as (i' & Hi' & Ex'); [done|done|lia|done|]. exists i'. split; [lia|done].
    - exists i. rewrite <- Hend by lia. split; [lia|done]. }
  destruct (decide (j = S last)) as [->|Hne].
  - apply (heap_root (S (S last)) l i' Hh); [lia|lia|done|done].
  - apply (Ho i' j); [lia|lia|done|done].
Qed.

Lemma extract_ok last l :
  (Z.of_nat (length l) < 2 ^ 31)%Z → last < length l → extracted last l →
  ∃ l', extract cmp last l = Ok l' ∧ l' ≡ₚ l ∧ sorted l'.
Proof.
  revert l. induction last as [|last IH]; intros l Hl Hn He.
  - exists l. split_and!; [done|done|]. intros i j Hij. apply (proj2 He); lia.
  - destruct (extract_round last l Hl Hn He) as (l1 & E & Hp & He1). pose proof (Permutation_length Hp) as El.
    destruct (IH l1) as (l2 & E2 & Hp2 & Hs); [lia|lia|done|]. exists l2. cbn [extract]. rewrite swap_ok by lia.
    cbn [mbind outcome_bind]. rewrite length_exchanged, E. cbn. split_and!; [done|by rewrite Hp2|done].
Qed.

Lemma qsort_ok l :
  (Z.of_nat (length l) < 2 ^ 31)%Z → ∃ l', qsort cmp l = Ok l' ∧ l' ≡ₚ l ∧ sorted l'.
Proof.
  intros Hl. unfold qsort. destruct (Nat.ltb_spec (length l) 2) as [Hlt|Hge].
  - exists l. split_and!; [done|done|]. intros i j Hij x y Ex Ey.
    apply lookup_lt_Some in Ex, Ey. lia.
  - pose proof (Nat.div_mod_eq (length l) 2). pose proof (Nat.mod_upper_bound (length l) 2).
    destruct (heapify_ok (length l / 2) l Hl) as (l1 & -> & Hp1 & Hh1); [lia| |].
    { intros i j Hi Hij Hj. unfold child_of in Hij. lia. }
    pose proof (Permutation_length Hp1) as El. cbn [mbind outcome_bind].
    destruct (extract_ok (length l - 1) l1) as (l2 & -> & Hp2 & Hs); [lia|lia| |].
    + split; [by replace (S (length l - 1)) with (length l) by lia|]. intros i j Hij Hj x y Ex Ey.
      apply lookup_lt_Some in Ey. lia.
    + exists l2. split_and!; [done|by rewrite Hp2|done].
Qed.

(** ** Searching *)

(** What a binary search needs of the array: the key's comparison with the
    elements goes from positive to zero to negative. *)
Lemma sorted_key key l i j x y :
  sorted l → i < j → l !! i = Some x → l !! j = Some y →
  (0 ≤ cmp key y → 0 ≤ cmp key x)%Z ∧ (0 < cmp key y → 0 < cmp key x)%Z.
Proof.
  intros Hs Hij Ex Ey. pose proof (Hs i j Hij x y Ex Ey) as Hxy.
  pose proof (cmp_flip key x). pose proof (cmp_flip key y). pose proof (cmp_flip x y).
  split; intros Hk; destruct (Z.lt_ge_cases 0 (cmp key x)) as [?|Hle]; try lia.
  - destruct (decide (cmp key x = 0)%Z); [lia|]. assert (cmp key y ≤ 0)%Z by (by apply (cmp_trans key x y)).
    assert (cmp y key ≤ 0)%Z by lia. assert (cmp x key ≤ 0)%Z by (by apply (cmp_trans x y key)). lia.
  - assert (cmp key y ≤ 0)%Z by (by apply (cmp_trans key x y)). lia.
Qed.

Lemma bsearch_loop_ok key l fuel b count :
  sorted l → b + count ≤ length l → count ≤ fuel →
  (∀ i x, l !! i = Some x → i < b → (0 < cmp key x)%Z) → (∀ i x, l !! i = Some x → b + count ≤ i → (cmp key x < 0)%Z) →
  (∃ i x, bsearch_loop (cmp key) fuel l b count = Ok (Some i) ∧ l !! i = Some x ∧ cmp key x = 0%Z) ∨
  (bsearch_loop (cmp key) fuel l b count = Ok None ∧ ∀ i x, l !! i = Some x → cmp key x ≠ 0%Z).
Proof.
  intros Hs. revert b count. induction fuel as [|fuel IH]; intros b count Hb Hf Hlow Hhigh.
  all: destruct count as [|count']; [right; split; [done|]; intros i x Ex; destruct (decide (i < b)) as [Hi|Hi];
    [specialize (Hlow i x Ex Hi)|specialize (Hhigh i x Ex ltac:(lia))]; lia|].
  - lia.
  - cbn [bsearch_loop]. set (count := S count') in *. set (mid := count / 2).
    assert (mid < count) as Hm by (apply Nat.div_lt; lia).
    destruct (lookup_lt_is_Some_2 l (b + mid)) as [x Ex]; [lia|]. rewrite Ex.
    destruct (Z.eqb_spec (cmp key x) 0) as [Ez|Hz]; [left; by exists (b + mid), x|]. rewrite Z.gtb_ltb.
    destruct (Z.ltb_spec 0 (cmp key x)) as [Hpos|Hneg].
    + apply IH; [lia|lia| |].
      * intros i z Ei Hi. destruct (decide (i = b + mid)) as [->|]; [by simplify_eq|].
        apply (proj2 (sorted_key key l i (b + mid) z x Hs ltac:(lia) Ei Ex)). lia.
      * intros i z Ei Hi. apply (Hhigh i z Ei). lia.
    + apply IH; [lia|lia|done|].
      intros i z Ei Hi. destruct (decide (i = b + mid)) as [->|]; [simplify_eq; lia|].
      pose proof (proj1 (sorted_key key l (b + mid) i x z Hs ltac:(lia) Ex Ei)). lia.
Qed.
End sorting.

(** C29: for a comparison function as C asks for, [qsort] ends without an
    access outside the array and leaves a permutation of it in ascending
    order, and [bsearch] on the result returns an element equal to the key
    exactly when the array has one. *)
Theorem qsort_bsearch {A} (cmp : A → A → Z) (l : list A) :
  Comparison cmp → (Z.of_nat (length l) < 2 ^ 31)%Z →
  ∃ l', qsort cmp l = Ok l' ∧ l' ≡ₚ l ∧ sorted cmp l' ∧
    ∀ key, (∃ i x, bsearch (cmp key) l' = Ok (Some i) ∧ l' !! i = Some x ∧ cmp key x = 0%Z) ∨
           (bsearch (cmp key) l' = Ok None ∧ ∀ x, x ∈ l → cmp key x ≠ 0%Z).
Proof.
  intros Hc Hl. destruct (qsort_ok cmp l Hl) as (l' & E & Hp & Hs). exists l'. split_and!; [done|done|done|].
  intros key. unfold bsearch. destruct (bsearch_loop_ok cmp key l' (length l') 0 (length l') Hs) as [H|[H Hn]];
    [lia|lia|lia|intros i x Ex Hi; apply lookup_lt_Some in Ex; lia|by left|right].
  split; [done|]. intros x Hx. rewrite <- Hp in Hx. apply list_elem_of_lookup in Hx as [i Hx]. by apply (Hn i).
Qed.

Lemma qsort_bsearch_witness :
  qsort Z.sub [3; 1; 2; 1]%Z = Ok [1; 1; 2; 3]%Z ∧
  ∃ l', qsort Z.sub [3; 1; 2; 1]%Z = Ok l' ∧ l' ≡ₚ [3; 1; 2; 1]%Z ∧ sorted Z.sub l'.
Proof.
  split; [by vm_compute|]. destruct (qsort_bsearch Z.sub [3; 1; 2; 1]%Z _) as (l' & E & Hp & Hs & _); [cbn; lia|].
  by exists l'.
Defined.
