(* ===== verification/Events.v ===== *)
(** * A window's event queue

    [post_event], [deliver], [lines_fitting], [take_events] and the event
    branch of [wsys_read] of [desktop/manide/wsys.c]: text lines in a fixed
    buffer, read by programs through [/dev/wsys/N/event]. *)
From S2P Require Import Prelude Abi Libc LibcNum.

Local Open Scope Z_scope.

Abbreviation EVENT_QUEUE := 1024%Z (only parsing).

(** The events and the buffer they wait in ([events] and [nevents] of
    [struct window]), the reads of the window's event file the server has
    deferred, the latest first, each with its [count], and the answers
    sent. *)
Record equeue := EQueue {
  events : list Z;
  deferred : list Z;
  replies : list (list Z)
}.

(** What ManiDE posts, with the format each caller gives. *)
Inductive event :=
| EKey (code : Z) (alt : bool)
| EMouse (x y buttons : Z)
| EFocus (on : bool)
| EResize (w h : Z)
| EClose.

Definition event_format (e : event) : list Z * list arg :=
  match e with
  | EKey code false => (text "k %d", [Word (u32 code)])
  | EKey code true => (text "k %d a", [Word (u32 code)])
  | EMouse x y b => (text "m %d %d %d", [Word (u32 x); Word (u32 y); Word (u32 b)])
  | EFocus false => (text "f 0", [])
  | EFocus true => (text "f 1", [])
  | EResize w h => (text "r %d %d", [Word (u32 w); Word (u32 h)])
  | EClose => (text "c", [])
  end.

(** The text and its length, as [vsnprintf(line, sizeof(line) - 1, ...)]
    gives them: none when it would not return. *)
Definition event_line (e : event) : list Z * Z :=
  let '(fmt, ap) := event_format e in
  match vsnprintf 63 fmt ap with Ok (s, n) => (take (length s - 1) s, n) | _ => ([], 0) end.

Fixpoint lines_fitting (i n count : Z) (events : list Z) : Z :=
  match events with
  | [] => n
  | c :: events => if i <? count then lines_fitting (i + 1) (if c =? 10 then i + 1 else n) count events else n
  end.

Definition take_events (q : equeue) (n : Z) : equeue := EQueue (drop (Z.to_nat n) (events q)) (deferred q) (replies q).

Definition respond (q : equeue) (rest : list Z) (data : list Z) : equeue := EQueue (events q) rest (replies q ++ [data]).

Definition deliver (q : equeue) : equeue :=
  match deferred q, events q with
  | count :: rest, _ :: _ =>
      let n := lines_fitting 0 0 count (events q) in
      if truth n then take_events (respond q rest (take (Z.to_nat n) (events q))) n else q
  | _, _ => q
  end.

(** [strrchr(s, ' ')]: what follows and includes the last blank. *)
Fixpoint last_blank (s : list Z) : option (list Z) :=
  match s with
  | [] => None
  | c :: s' => match last_blank s' with Some r => Some r | None => if c =? 32 then Some s else None end
  end.

(** [while (last > 0 && events[last - 1] != '\n') last--] *)
Fixpoint last_line (last : nat) (events : list Z) : nat :=
  match last with
  | O => O
  | S j => if aget 0 events (Z.of_nat j) =? 10 then last else last_line j events
  end.

(** [line] is overwritten at its NUL by the newline and not terminated again:
    [junk] is what the 64 bytes (and what is behind them) hold from there to
    the next NUL. *)
Definition merge_move (junk : list Z) (line events : list Z) : list Z :=
  if (aget 0 line 0 =? 109) && negb (length events =? 0)%nat then
    let last := last_line (length events - 1) events in
    let prev := drop last events in
    if (aget 0 prev 0 =? 109) && (length prev <? 64)%nat then
      match last_blank (line ++ junk), last_blank prev with
      | Some b1, Some b2 => if decide (b1 = b2) then take last events else events
      | _, _ => events
      end
    else events
  else events.

Definition post_event (q : equeue) (junk : list Z) (e : event) : equeue :=
  let '(line, n) := event_line e in
  if (n <=? 0) || (n >=? 63) then q
  else
    let line := line ++ [10] in
    let q := EQueue (merge_move junk line (events q)) (deferred q) (replies q) in
    if Z.of_nat (length (events q)) + (n + 1) >? EVENT_QUEUE then q
    else deliver (EQueue (events q ++ line) (deferred q) (replies q)).

(** A read of the event file: the bytes, or an error; a deferred one is
    answered by [deliver]. *)
Definition event_read (q : equeue) (count : Z) : option (Z + list Z) * equeue :=
  let k := lines_fitting 0 0 count (events q) in
  if k =? 0 then
    if truth (Z.of_nat (length (events q))) then (Some (inl (- EINVAL)), q)
    else (None, EQueue (events q) (count :: deferred q) (replies q))
  else (Some (inr (take (Z.to_nat k) (events q))), take_events q k).

(** ** Lines *)

Definition clean (l : list Z) : Prop := 10 ∉ l.
Definition unlines (ls : list (list Z)) : list Z := concat ((λ l, l ++ [10]) <$> ls).

Lemma unlines_app a b : unlines (a ++ b) = unlines a ++ unlines b.
Proof. unfold unlines. by rewrite fmap_app, concat_app. Qed.

Lemma unlines_cons l ls : unlines (l :: ls) = l ++ 10 :: unlines ls.
Proof. unfold unlines. cbn. by rewrite <- app_assoc. Qed.

Lemma clean_cons c l : clean (c :: l) → c ≠ 10 ∧ clean l.
Proof. unfold clean. rewrite not_elem_of_cons. intros [? ?]. split; [congruence|done]. Qed.

Lemma lines_fitting_line i n count l rest :
  clean l →
  lines_fitting i n count (l ++ 10 :: rest) =
  if i + Z.of_nat (length l) <? count
  then lines_fitting (i + Z.of_nat (length l) + 1) (i + Z.of_nat (length l) + 1) count rest else n.
Proof.
  revert i. induction l as [|c l IH]; intros i Hl.
  - cbn [app lines_fitting length]. rewrite Z.add_0_r. by case_if.
  - apply clean_cons in Hl as [Hc Hl]. cbn [app lines_fitting length]. rewrite (proj2 (Z.eqb_neq c 10)) by done.
    rewrite IH by done. replace (i + 1 + Z.of_nat (length l)) with (i + Z.of_nat (S (length l))) by lia.
    destruct (Z.ltb_spec i count); [done|]. by rewrite (proj2 (Z.ltb_ge _ _)) by lia.
Qed.

(** [lines_fitting] finds the longest run of whole lines that fits. *)
Lemma lines_fitting_ok count ls i :
  Forall clean ls → ∃ k, (k ≤ length ls)%nat ∧
    lines_fitting i i count (unlines ls) = i + Z.of_nat (length (unlines (take k ls))) ∧
    (k = O → match ls with [] => True | l :: _ => count ≤ i + Z.of_nat (length l) end).
Proof.
  intros Hls. revert i. induction Hls as [|l ls Hl _ IH]; intros i.
  - exists O. split_and!; [done|cbn; lia|done].
  - rewrite unlines_cons, lines_fitting_line by done. destruct (Z.ltb_spec (i + Z.of_nat (length l)) count) as [Hlt|Hge].
    + destruct (IH (i + Z.of_nat (length l) + 1)) as (k & Hk & -> & _). exists (S k). cbn [take length].
      rewrite unlines_cons, length_app. cbn [length]. split_and!; [lia|lia|done].
    + exists O. split_and!; [lia|cbn; lia|done].
Qed.

Lemma last_line_ok a p n :
  clean p → (a = [] ∨ last a = Some 10) → (n ≤ length p)%nat →
  last_line (length a + n) (a ++ p ++ [10]) = length a.
Proof.
  intros Hp Ha. induction n as [|n IH]; intros Hn.
  - rewrite Nat.add_0_r. destruct Ha as [->|Ha]; [done|]. destruct a as [|c a _] using rev_ind; [done|].
    rewrite last_snoc in Ha. injection Ha as ->. rewrite length_app, Nat.add_1_r. cbn [last_line].
    unfold aget. rewrite (proj2 (Z.ltb_ge _ _)), Nat2Z.id by lia. rewrite lookup_app_l by (rewrite length_app; cbn; lia). by rewrite list_lookup_middle.
  - rewrite Nat.add_succ_r. cbn [last_line]. unfold aget. rewrite (proj2 (Z.ltb_ge _ _)), Nat2Z.id by lia.
    rewrite lookup_app_r by lia. replace (length a + n - length a)%nat with n by lia. rewrite lookup_app_l by lia.
    destruct (lookup_lt_is_Some_2 p n) as [c Ec]; [lia|]. rewrite Ec. change (default 0 (Some c)) with c.
    rewrite (proj2 (Z.eqb_neq c 10)); [apply IH; lia|]. intros ->. apply Hp. by apply list_elem_of_lookup_2 in Ec.
Qed.

(** ** The lines posted *)

Lemma clean_app a b : clean a → clean b → clean (a ++ b).
Proof. unfold clean. rewrite elem_of_app. tauto. Qed.

Lemma clean_replicate n c : c ≠ 10 → clean (replicate n c).
Proof. intros Hc H. apply elem_of_replicate in H as [? _]. congruence. Qed.

Lemma clean_digits base ds : base ≤ 36 → digits_of base ds → clean ds.
Proof.
  intros Hb Hd Hin. apply (proj1 (Forall_forall _ _) Hd) in Hin. change (digit_value 10) with 36 in Hin. lia.
Qed.

(** The text of [%d]. *)
Definition decimal (v : Z) : list Z :=
  let x := signed 32 (u32 v) in
  match number (if x <? 0 then u64 (0 - u64 x) else u64 x) (x <? 0) 10 false 0 0 (-1) with Ok out => out | _ => [] end.

Lemma digits_length fuel v buf r k :
  0 ≤ v < 2 ^ 64 → digits_loop fuel v 10 false buf = Ok r → v < 10 ^ Z.of_nat k → (length r ≤ length buf + k)%nat.
Proof.
  revert v buf k. induction fuel as [|fuel IH]; intros v buf k Hv E Hk; cbn [digits_loop] in E;
    (destruct (Z.eqb_spec v 0); [injection E as <-; lia|]); [done|].
  rewrite divmod64_ok in E by lia. destruct k as [|k]; [cbn in Hk; lia|].
  rewrite Nat2Z.inj_succ, Z.pow_succ_r in Hk by lia.
  apply (IH _ _ k) in E; [cbn [length] in E; lia|dlia|]. apply Z.div_lt_upper_bound; lia.
Qed.

(** It has no newline, no blank and at most 11 characters. *)
Lemma decimal_ok v :
  let x := signed 32 (u32 v) in
  number (if x <? 0 then u64 (0 - u64 x) else u64 x) (x <? 0) 10 false 0 0 (-1) = Ok (decimal v) ∧
  clean (decimal v) ∧ (32 ∉ decimal v) ∧ (length (decimal v) ≤ 11)%nat.
Proof.
  cbn zeta. unfold decimal. set (x := signed 32 (u32 v)). pose proof (signed_range 32 (u32 v)) as Hx. fold x in Hx.
  set (m := if x <? 0 then _ else _). assert (0 ≤ m < 2 ^ 32) as Hm.
  { subst m. unfold u64. destruct (Z.ltb_spec x 0); [rewrite Zminus_mod_idemp_r|]; rewrite Z.mod_small; lia. }
  unfold number. destruct (digits_loop_ok 24 m 10 false []) as (ds & E & _ & Hd & _); [lia|lia|lia|].
  apply (digits_length _ _ _ _ 10) in E as Hl; [|lia|cbn; lia].
  rewrite E, app_nil_r in *. cbn [mbind outcome_bind length] in *. change (has 0 PLUS) with false. change (has 0 SPACE) with false.
  change (has 0 ALT) with false. change (has 0 ZERO) with false. change (has 0 LEFT) with false. cbn [andb negb].
  set (zeros := if (_ =? 0) && _ then _ else _).
  assert (zeros = if (length ds =? 0)%nat then 1 else 0) as ->.
  { subst zeros. change (-1 =? 0) with false. rewrite Z.gtb_ltb, (proj2 (Z.ltb_ge _ _)) by lia.
    destruct ds; [done|]. cbn [length Nat.eqb negb]. by rewrite (proj2 (Z.eqb_neq _ 0)) by lia. }
  set (P := if (x <? 0) then _ else _). assert (P = ((if x <? 0 then [45] else []), if (length ds =? 0)%nat then 1 else 0)) as ->.
  { subst P. by destruct (x <? 0). }
  set (len := Z.of_nat _ + _ + _). assert (0 ≤ len) as Hlen by (subst len; destruct (length ds =? 0)%nat; lia).
  rewrite Z.gtb_ltb, (proj2 (Z.ltb_ge len 0)) by done. cbn [pad Z.to_nat replicate app]. rewrite app_nil_r. split; [done|].
  assert (∀ c, c = 10 ∨ c = 32 → c ∉ ds) as Hds.
  { intros c Hc Hin. apply (proj1 (Forall_forall _ _) Hd) in Hin. cbn beta in Hin.
    assert (digit_value c = 36) as Ec by by destruct Hc as [-> | ->]. lia. }
  assert (∀ c, c = 10 ∨ c = 32 → c ∉ (if x <? 0 then [45] else []) ++ pad 48 (if (length ds =? 0)%nat then 1 else 0) ++ ds) as Hno.
  { intros c Hc. rewrite !elem_of_app. intros [H|[H|H]]; [| |by apply (Hds c)].
    - destruct (x <? 0); [apply list_elem_of_singleton in H; lia|by apply elem_of_nil in H].
    - apply elem_of_replicate in H as [? _]. lia. }
  split_and!; [apply Hno; auto|apply Hno; auto|]. rewrite !length_app. unfold pad. rewrite !length_replicate.
  clear - Hl. destruct (x <? 0), ds; cbn [length app Nat.eqb] in *. all: lia.
Qed.

Lemma conversion_d fmt v ap : conversion (37 :: 100 :: fmt) (Word (u32 v) :: ap) = Ok (decimal v, ap, fmt).
Proof.
  destruct (decimal_ok v) as [E _]. set (x := signed 32 (u32 v)) in E.
  assert (∀ spec, convert 100 spec 0 0 (-1) false (Word (u32 v) :: ap) = Ok (decimal v, ap)) as Ec.
  { intros spec. transitivity (number (if x <? 0 then u64 (0 - u64 x) else u64 x) (x <? 0) 10 false 0 0 (-1) ≫= λ out, Ok (out, ap));
      [reflexivity|by rewrite E]. }
  transitivity (convert 100 (take (length (37 :: 100 :: fmt) - length fmt) (37 :: 100 :: fmt)) 0 0 (-1) false (Word (u32 v) :: ap)
    ≫= λ '(out, ap), Ok (out, ap, fmt)); [reflexivity|]. by rewrite Ec.
Qed.

(** Formats of literals and [%d] with the integers they ask for. *)
Inductive decimals : list Z → list arg → Prop :=
| decimals_nil : decimals [] []
| decimals_lit c fmt ap : c ≠ 37 → c ≠ 10 → decimals fmt ap → decimals (c :: fmt) ap
| decimals_d v fmt ap : decimals fmt ap → decimals (37 :: 100 :: fmt) (Word (u32 v) :: ap).

Lemma decimals_literal fmt ap : decimals fmt ap → clean (literal fmt).1 ∧ decimals (literal fmt).2 ap.
Proof.
  induction 1 as [|c fmt ap Hc Hn H IH|v fmt ap H IH]; [split; [apply not_elem_of_nil|constructor]| |].
  - cbn [literal]. rewrite (proj2 (Z.eqb_neq c 37)) by done. destruct (literal fmt) as [t r]. destruct IH as [IH1 IH2].
    split; [|done]. cbn [fst snd] in *. unfold clean. rewrite not_elem_of_cons. split; [congruence|done].
  - split; [apply not_elem_of_nil|by constructor].
Qed.

Lemma format_decimals fuel fmt ap :
  decimals fmt ap → (length fmt ≤ fuel)%nat → ∃ out, clean out ∧ format fuel fmt ap = Ok out.
Proof.
  revert fmt ap. induction fuel as [|fuel IH]; intros fmt ap Hd Hl.
  - destruct Hd; cbn in Hl; [|lia|lia]. exists []. split; [apply not_elem_of_nil|done].
  - destruct Hd as [|c fmt ap Hc Hn Hd|v fmt ap Hd].
    + exists []. split; [apply not_elem_of_nil|done].
    + cbn [length] in Hl. pose proof (decimals_literal fmt ap Hd) as [Ht Hr]. pose proof (literal_length fmt).
      cbn [format literal]. rewrite (proj2 (Z.eqb_neq c 37)) by done. destruct (literal fmt) as [t r]. cbn [fst snd] in *.
      destruct (IH r ap Hr) as (out & Ho & ->); [lia|]. exists ((c :: t) ++ out). split; [|done].
      apply clean_app; [|done]. unfold clean. rewrite not_elem_of_cons. split; [congruence|done].
    + cbn [length] in Hl. destruct (decimal_ok v) as (_ & Ho & _). destruct (IH fmt ap Hd) as (out & Hout & E'); [lia|].
      exists (decimal v ++ out). split; [by apply clean_app|]. cbn [format]. change (37 =? 37) with true. cbn iota.
      rewrite conversion_d. cbn -[decimal]. by rewrite E'.
Qed.

Lemma event_decimals e : decimals (event_format e).1 (event_format e).2.
Proof.
  destruct e as [code [|]|x y b|[|]|w h|]; cbn;
    repeat first [apply decimals_nil|apply decimals_d|apply decimals_lit; [lia|lia|]].
Qed.

(** The lines posted: whole, and without a newline in them. *)
Lemma event_line_ok e :
  0 < (event_line e).2 < 63 → Z.of_nat (length (event_line e).1) = (event_line e).2 ∧ clean (event_line e).1.
Proof.
  unfold event_line. pose proof (event_decimals e) as Hd. destruct (event_format e) as [fmt ap]. cbn [fst snd] in Hd.
  destruct (format_decimals (length fmt) fmt ap Hd (le_n _)) as (out & Hc & E). unfold vsnprintf. rewrite E. cbn -[take length].
  rewrite length_app, length_take. cbn [length fst snd]. intros Hn. change (Z.to_nat (63 - 1)) with 62%nat.
  rewrite (take_ge out 62), (take_app_length' out) by lia. rewrite length_app. cbn. split; [lia|done].
Qed.

(** ** Programs and their events *)

(** A post, or a read of the event file with room for [count] bytes. What a
    read returns at once joins the answers to the deferred ones. *)
Inductive eop :=
| OPost (junk : list Z) (e : event)
| ORead (count : Z).

Definition estep (q : equeue) (op : eop) : equeue :=
  match op with
  | OPost junk e => post_event q junk e
  | ORead count =>
      let '(r, q) := event_read q count in
      match r with Some (inr data) => EQueue (events q) (deferred q) (replies q ++ [data]) | _ => q end
  end.

Definition posted (op : eop) : list (list Z) :=
  match op with
  | OPost _ e => if (0 <? (event_line e).2) && ((event_line e).2 <? 63) then [(event_line e).1] else []
  | ORead _ => []
  end.

(** Whole lines, in the order they were posted: in the answers, then in the
    buffer. *)
Record queue_ok (ls : list (list Z)) (q : equeue) : Prop := {
  q_lines : ∃ groups qs, replies q = unlines <$> groups ∧ Forall (λ g, g ≠ []) groups ∧
                         events q = unlines qs ∧ Forall clean qs ∧ sublist (concat groups ++ qs) ls;
  q_room : Z.of_nat (length (events q)) ≤ EVENT_QUEUE
}.

Lemma unlines_end qs : unlines qs = [] ∨ last (unlines qs) = Some 10.
Proof.
  destruct qs as [|l qs _] using rev_ind; [by left|right]. rewrite unlines_app, unlines_cons. unfold unlines at 2. cbn [fmap list_fmap concat].
  rewrite app_assoc. apply last_snoc.
Qed.

Lemma unlines_last qs p : unlines (qs ++ [p]) = unlines qs ++ p ++ [10].
Proof. by rewrite unlines_app, unlines_cons. Qed.

Lemma unlines_one p : unlines [p] = p ++ [10].
Proof. apply (unlines_last []). Qed.

(** The last line is found and dropped, or the queue stays. *)
Lemma last_line_unlines qs p :
  clean p → last_line (length (unlines (qs ++ [p])) - 1) (unlines (qs ++ [p])) = length (unlines qs).
Proof.
  intros Hp. rewrite unlines_last, !length_app. cbn [length].
  replace (_ - 1)%nat with (length (unlines qs) + length p)%nat by lia. apply last_line_ok; [done|apply unlines_end|done].
Qed.

Lemma merge_ok junk line qs :
  Forall clean qs → ∃ qs', merge_move junk line (unlines qs) = unlines qs' ∧ qs' `prefix_of` qs.
Proof.
  intros Hq. destruct qs as [|p qs _] using rev_ind.
  - exists []. unfold merge_move. cbn. rewrite andb_false_r. done.
  - apply Forall_app in Hq as [_ Hp]. apply Forall_cons in Hp as [Hp _]. unfold merge_move. cbn zeta. rewrite last_line_unlines by done.
    assert (unlines (qs ++ [p]) = unlines (qs ++ [p]) ∧ (qs ++ [p]) `prefix_of` (qs ++ [p])) as Hself by done.
    repeat case_match; try (eexists; exact Hself).
    exists qs. split; [|by eexists]. by rewrite unlines_last, take_app_length.
Qed.

(** Taking the lines that fit. *)
Lemma fitting_split count qs :
  Forall clean qs → ∃ a b, qs = a ++ b ∧ lines_fitting 0 0 count (unlines qs) = Z.of_nat (length (unlines a)) ∧
    (a = [] → match qs with [] => True | l :: _ => count ≤ Z.of_nat (length l) end).
Proof.
  intros Hq. destruct (lines_fitting_ok count qs 0 Hq) as (k & Hk & E & H0). exists (take k qs), (drop k qs).
  rewrite take_drop. split_and!; [done|by rewrite E|]. intros Ha. destruct qs; [done|]. apply H0. by destruct k.
Qed.

Lemma unlines_nil a : unlines a = [] → a = [].
Proof. destruct a as [|l a]; [done|]. rewrite unlines_cons. by destruct l. Qed.

(** What a read of [n] bytes of whole lines leaves. *)
Lemma take_ok ls q a b groups rest :
  replies q = unlines <$> groups → Forall (λ g, g ≠ []) groups → events q = unlines (a ++ b) → Forall clean (a ++ b) →
  sublist (concat groups ++ a ++ b) ls → Z.of_nat (length (events q)) ≤ EVENT_QUEUE → a ≠ [] →
  queue_ok ls (EQueue (drop (length (unlines a)) (events q)) rest (replies q ++ [take (length (unlines a)) (events q)])).
Proof.
  intros Er Hg Ee Hc Hs Hr Ha. rewrite Ee, unlines_app, drop_app_length, take_app_length. split; cbn [events replies].
  - exists (groups ++ [a]), b. rewrite Er, fmap_app, concat_app. cbn. rewrite app_nil_r, <- app_assoc. split_and!; [done| |done| |done].
    + apply Forall_app. split; [done|]. by apply Forall_singleton.
    + by apply Forall_app in Hc as [_ Hc].
  - rewrite Ee, unlines_app, length_app in Hr. lia.
Qed.

Lemma deliver_ok ls q : queue_ok ls q → queue_ok ls (deliver q).
Proof.
  intros Hq. unfold deliver. destruct (deferred q) as [|count rest] eqn:Ed; [done|]. destruct (events q) as [|c es] eqn:Ee; [done|].
  rewrite <- Ee. destruct (q_lines _ _ Hq) as (groups & qs & Er & Hg & Eq & Hc & Hs).
  destruct (fitting_split count qs Hc) as (a & b & -> & El & Ha). rewrite Eq, El. unfold truth.
  destruct (Z.eqb_spec (Z.of_nat (length (unlines a))) 0) as [Hz|Hz]; [done|]. cbn [negb].
  unfold take_events, respond. cbn [events deferred replies]. rewrite Nat2Z.id, <- Eq.
  apply (take_ok ls q a b groups rest); try done; [apply (q_room _ _ Hq)|]. by intros ->.
Qed.

Lemma post_ok ls q junk e : queue_ok ls q → queue_ok (ls ++ posted (OPost junk e)) (post_event q junk e).
Proof.
  intros Hq. unfold post_event, posted. pose proof (event_line_ok e) as Hl. destruct (event_line e) as [line n]. cbn [fst snd] in *.
  rewrite Z.geb_leb. destruct (Z.leb_spec n 0) as [Hn|Hn]; cbn [orb].
  { rewrite (proj2 (Z.ltb_ge 0 n)) by lia. cbn [andb]. by rewrite app_nil_r. }
  destruct (Z.leb_spec 63 n) as [Hn'|Hn'].
  { rewrite (proj2 (Z.ltb_ge n 63)), andb_false_r by lia. by rewrite app_nil_r. }
  rewrite (proj2 (Z.ltb_lt 0 n)), (proj2 (Z.ltb_lt n 63)) by lia. cbn [andb]. destruct Hl as [Hl Hc]; [lia|].
  destruct (q_lines _ _ Hq) as (groups & qs & Er & Hg & Eq & Hcq & Hs).
  destruct (merge_ok junk (line ++ [10]) qs Hcq) as (qs' & Em & [more ->]). rewrite Eq, Em. cbn [events deferred replies].
  apply Forall_app in Hcq as [Hcq _]. assert (length (unlines qs') ≤ length (events q))%nat as Hle.
  { rewrite Eq, unlines_app, length_app. lia. }
  assert (sublist (concat groups ++ qs') ls) as Hs'.
  { etransitivity; [|exact Hs]. apply sublist_app; [done|]. apply sublist_inserts_r. done. }
  pose proof (q_room _ _ Hq). rewrite Z.gtb_ltb. destruct (Z.ltb_spec EVENT_QUEUE (Z.of_nat (length (unlines qs')) + (n + 1))).
  - split; cbn [events replies]; [|lia]. exists groups, qs'. split_and!; try done. apply sublist_inserts_r. done.
  - apply deliver_ok. split; cbn [events replies]; [|rewrite !length_app; cbn; lia].
    exists groups, (qs' ++ [line]). rewrite unlines_last. split_and!; try done.
    + apply Forall_app. split; [done|]. by apply Forall_singleton.
    + rewrite app_assoc. by apply sublist_app.
Qed.

Lemma read_ok ls q count : queue_ok ls q → queue_ok ls (estep q (ORead count)).
Proof.
  intros Hq. cbn [estep]. unfold event_read. destruct (q_lines _ _ Hq) as (groups & qs & Er & Hg & Eq & Hc & Hs).
  destruct (fitting_split count qs Hc) as (a & b & -> & El & Ha). rewrite Eq, El.
  destruct (Z.eqb_spec (Z.of_nat (length (unlines a))) 0) as [Hz|Hz].
  - case_if; [done|]. split; cbn [events replies]; [|rewrite <- Eq; apply (q_room _ _ Hq)]. by exists groups, (a ++ b).
  - unfold take_events. cbn [events deferred replies]. rewrite Nat2Z.id, <- Eq.
    apply (take_ok ls q a b groups (deferred q)); try done; [apply (q_room _ _ Hq)|]. by intros ->.
Qed.

(** *** No reader is left waiting *)

(** With reads that have room for the longest line (63 bytes), a deferred
    read means an empty queue. *)
Definition awake (q : equeue) : Prop := Forall (λ count, 63 ≤ count) (deferred q) ∧ (deferred q ≠ [] → events q = []).

Definition roomy (op : eop) : Prop := match op with OPost _ _ => True | ORead count => 63 ≤ count end.

Lemma awake_post q junk e : awake q → awake (post_event q junk e).
Proof.
  intros [Hd He]. unfold post_event. pose proof (event_line_ok e) as Hl. destruct (event_line e) as [line n]. cbn [fst snd] in *.
  case_if; [done|]. destruct Hl as [Hl Hc]; [lia|]. cbn [events deferred replies].
  destruct (deferred q) as [|count rest] eqn:Ed.
  - case_if; (split; [try done|]); unfold deliver; cbn [events deferred replies]; rewrite ?Ed; try done.
  - rewrite He by done. unfold merge_move. cbn [length Nat.eqb negb]. rewrite andb_false_r. cbn [app length].
    case_if; [split; [done|by intros]|]. unfold deliver. cbn [events deferred replies].
    apply Forall_cons in Hd as [Hc63 Hd].
    assert (lines_fitting 0 0 count (line ++ [10]) = Z.of_nat (length (line ++ [10]))) as E.
    { rewrite lines_fitting_line by done. rewrite (proj2 (Z.ltb_lt _ _)) by lia. rewrite length_app. cbn. lia. }
    rewrite E, truth_nonzero by (rewrite length_app; cbn; lia).
    destruct (line ++ [10]) as [|c es] eqn:El; [by destruct line|]. split; cbn [deferred take_events respond]; [done|].
    intros _. cbn [events take_events respond]. by rewrite Nat2Z.id, drop_all.
Qed.

Lemma awake_read q count : 63 ≤ count → (∃ ls, queue_ok ls q) → awake q → awake (estep q (ORead count)).
Proof.
  intros Hc63 [ls Hq] [Hd He]. cbn [estep]. unfold event_read. destruct (q_lines _ _ Hq) as (groups & qs & _ & _ & Eq & Hc & _).
  destruct (fitting_split count qs Hc) as (a & b & -> & El & Ha).
  destruct (decide (events q = [])) as [En|En].
  - rewrite En. cbn. split; [by apply Forall_cons|]. by intros.
  - assert (deferred q = []) as Ed by (destruct (deferred q); [done|]; by destruct En; apply He). rewrite Eq, El.
    case_if; [unfold truth; case_if|]; cbn [deferred take_events]; (split; [by rewrite ?Ed|by rewrite ?Ed]) || idtac.
    exfalso. apply En. rewrite Eq. apply nil_length_inv. cbn in Heqb1. lia.
Qed.

(** C26: for any posts and reads, in any order: the queue holds whole lines
    and never more than its 1024 bytes, every answer to a read is a non-empty
    sequence of whole lines, and the lines answered and queued are lines
    posted, in the order they were posted and none twice. When every read has
    room for a line, no read waits while there is an event to read. *)
Theorem event_queue_lines ops :
  let q := foldl estep (EQueue [] [] []) ops in
  queue_ok (concat (posted <$> ops)) q ∧ (Forall roomy ops → deferred q ≠ [] → events q = []).
Proof.
  cbn zeta. assert (queue_ok (concat (posted <$> ops)) (foldl estep (EQueue [] [] []) ops) ∧
    (Forall roomy ops → awake (foldl estep (EQueue [] [] []) ops))) as [H1 H2]; [|split; [done|intros Hr; apply (H2 Hr)]].
  induction ops as [|op ops IH] using rev_ind.
  - split; [|intros _; split; [apply Forall_nil_2|by intros]]. split; [|cbn; lia].
    exists [], []. split_and!; try done; apply Forall_nil_2.
  - rewrite fmap_app, concat_app, foldl_app. destruct IH as [IH1 IH2]. cbn [fmap list_fmap concat foldl]. rewrite app_nil_r.
    destruct op as [junk e|count].
    + split; [by apply post_ok|]. intros Hr. apply Forall_app in Hr as [Hr _]. apply awake_post. auto.
    + split; [rewrite app_nil_r; by apply read_ok|]. intros Hr. apply Forall_app in Hr as [Hr Hc]. apply Forall_cons in Hc as [Hc _].
      apply awake_read; [done|by eexists|auto].
Qed.

(** *** Pointer moves *)

Lemma format_d fuel fmt v ap :
  format (S fuel) (37 :: 100 :: fmt) (Word (u32 v) :: ap) = format fuel fmt ap ≫= λ more, Ok (decimal v ++ more).
Proof. cbn [format]. change (37 =? 37) with true. cbn iota. by rewrite conversion_d. Qed.

Lemma format_blank_d fuel fmt v ap :
  format (S (S fuel)) (32 :: 37 :: 100 :: fmt) (Word (u32 v) :: ap) = format fuel fmt ap ≫= λ more, Ok (32 :: decimal v ++ more).
Proof.
  transitivity (format (S fuel) (37 :: 100 :: fmt) (Word (u32 v) :: ap) ≫= λ more, Ok ([32] ++ more)); [reflexivity|].
  rewrite format_d. by destruct (format fuel fmt ap).
Qed.

Definition move_head (x y : Z) : list Z := 109 :: 32 :: decimal x ++ 32 :: decimal y.

Lemma move_line x y b :
  event_line (EMouse x y b) = (move_head x y ++ 32 :: decimal b, Z.of_nat (length (move_head x y ++ 32 :: decimal b))) ∧
  (length (move_head x y ++ 32%Z :: decimal b) < 40)%nat.
Proof.
  destruct (decimal_ok x) as (_ & _ & _ & Hx), (decimal_ok y) as (_ & _ & _ & Hy), (decimal_ok b) as (_ & _ & _ & Hb).
  assert (length (move_head x y ++ 32%Z :: decimal b) < 40)%nat as Hl.
  { unfold move_head. rewrite !length_app. cbn [length]. rewrite !length_app. cbn [length]. lia. }
  split; [|done]. unfold event_line, vsnprintf. cbn [event_format].
  assert (format (length (text "m %d %d %d")) (text "m %d %d %d") [Word (u32 x); Word (u32 y); Word (u32 b)]
    = Ok (move_head x y ++ 32 :: decimal b)) as ->.
  { transitivity (format 9 (37 :: 100 :: 32 :: 37 :: 100 :: 32 :: 37 :: 100 :: []) [Word (u32 x); Word (u32 y); Word (u32 b)]
      ≫= λ more, Ok ([109; 32] ++ more)); [reflexivity|].
    rewrite format_d, !format_blank_d. cbn [format mbind outcome_bind]. unfold move_head. rewrite app_nil_r. cbn [app]. by rewrite <- app_assoc. }
  cbn [mbind outcome_bind]. change (truth 63) with true. cbn iota. rewrite (take_ge (move_head x y ++ _)) by lia.
  rewrite length_app. cbn [length]. rewrite Nat.add_sub, take_app_length. done.
Qed.

Lemma last_blank_none d : (32 ∉ d) → last_blank d = None.
Proof.
  induction d as [|c d IH]; [done|]. intros [Hc Hd]%not_elem_of_cons. cbn. rewrite IH by done. by rewrite (proj2 (Z.eqb_neq c 32)) by congruence.
Qed.

Lemma last_blank_app a d :
  last_blank (a ++ d) = match last_blank d with Some r => Some r | None => (λ r, r ++ d) <$> last_blank a end.
Proof.
  induction a as [|c a IH]; cbn [app last_blank]; [by destruct (last_blank d)|]. rewrite IH.
  destruct (last_blank d) as [r|]; [done|]. destruct (last_blank a) as [r|]; [done|]. cbn. by destruct (c =? 32).
Qed.

(** Where the last blank of a move and the bytes behind its newline is. *)
Lemma last_blank_move x y b junk :
  last_blank ((move_head x y ++ 32 :: decimal b) ++ 10 :: junk) =
    match last_blank junk with Some r => Some r | None => Some (32 :: decimal b ++ 10 :: junk) end.
Proof.
  destruct (decimal_ok b) as (_ & _ & Hb & _). rewrite last_blank_app. cbn [last_blank]. destruct (last_blank junk) as [r|]; [done|].
  change (10 =? 32) with false. rewrite last_blank_app. cbn [last_blank]. by rewrite (last_blank_none (decimal b)).
Qed.

(** The bytes behind the newline with which a move replaces the one before it. *)
Definition merging (b : Z) (junk : list Z) : Prop := junk = [] ∨ last_blank junk = Some (32 :: decimal b ++ [10]).

#[export] Instance merging_dec b junk : Decision (merging b junk).
Proof. unfold merging. apply _. Defined.

(** A move on a queue that ends with one with the same buttons. *)
Lemma merge_moves ls junk x y x' y' b :
  let first := move_head x y ++ 32 :: decimal b in
  merge_move junk ((move_head x' y' ++ 32 :: decimal b) ++ [10]) (unlines (ls ++ [first])) =
  if decide (merging b junk) then unlines ls else unlines (ls ++ [first]).
Proof.
  cbn zeta. destruct (move_line x y b) as [El Hlen].
  pose proof (event_line_ok (EMouse x y b)) as Hp. rewrite El in Hp. cbn [fst snd] in Hp. destruct Hp as [_ Hp]; [split; [unfold move_head; cbn [app length]; lia|lia]|].
  set (p := move_head x y ++ 32 :: decimal b) in *. unfold merge_move. cbn zeta. rewrite (last_line_unlines ls p Hp).
  rewrite unlines_last, drop_app_length, take_app_length.
  change (aget 0 ((move_head x' y' ++ 32 :: decimal b) ++ [10]) 0) with 109. change (aget 0 (p ++ [10]) 0) with 109.
  rewrite !length_app. cbn [length]. rewrite (proj2 (Nat.eqb_neq _ 0)), (proj2 (Nat.ltb_lt _ _)) by lia. change (109 =? 109) with true. cbn [andb negb].
  rewrite <- app_assoc. cbn [app]. rewrite (last_blank_move x' y' b junk). unfold p at 1. rewrite (last_blank_move x y b []). cbn [last_blank].
  destruct (last_blank junk) as [r|] eqn:Er.
  - assert (junk ≠ []) as Hj by (by intros ->). destruct (decide (r = _)) as [->|Hne]; [rewrite decide_True by (by right)|rewrite decide_False]; try done.
    intros [?|?]; [done|congruence].
  - destruct (decide (32 :: decimal b ++ 10 :: junk = 32 :: decimal b ++ [10])) as [Ej|Nj].
    + injection Ej as Ej. apply app_inv_head in Ej. injection Ej as ->. rewrite decide_True by (by left). done.
    + rewrite decide_False; [done|]. intros [->|?]; [done|congruence].
Qed.

Lemma post_move es rs junk x y b :
  let line := (event_line (EMouse x y b)).1 in
  let m := merge_move junk (line ++ [10]) es in
  (length m < 985)%nat → post_event (EQueue es [] rs) junk (EMouse x y b) = EQueue (m ++ line ++ [10]) [] rs.
Proof.
  cbn zeta. unfold post_event. destruct (move_line x y b) as [-> Hl]. cbn [fst events deferred replies].
  assert (0 < Z.of_nat (length (move_head x y ++ 32 :: decimal b))) as Hp by (unfold move_head; cbn [app length]; lia).
  set (line := move_head x y ++ 32 :: decimal b) in *. intros Hm.
  rewrite (proj2 (Z.leb_gt _ _)), Z.geb_leb, (proj2 (Z.leb_gt _ _)) by lia. cbn [orb].
  by rewrite Z.gtb_ltb, (proj2 (Z.ltb_ge _ _)) by (lia).
Qed.

(** C39: A pointer move that comes to a queue whose last line is a move with the
    same buttons, with room for both and no reader waiting, replaces it
    exactly when the bytes behind the newline in [post_event]'s uninitialised
    [line] start with a NUL, or read, from the last blank before their NUL
    on, as the line does from its own. With any other bytes there both moves
    stay in the queue. *)
Theorem pointer_moves ls rs x y x' y' b junk :
  (length (unlines ls) ≤ 940)%nat →
  let first := (event_line (EMouse x y b)).1 in
  let second := (event_line (EMouse x' y' b)).1 in
  post_event (EQueue (unlines (ls ++ [first])) [] rs) junk (EMouse x' y' b) =
  EQueue (unlines (ls ++ if decide (merging b junk) then [second] else [first; second])) [] rs.
Proof.
  intros Hls. destruct (move_line x y b) as [El1 Hl1], (move_line x' y' b) as [El2 Hl2]. cbn zeta.
  pose proof (merge_moves ls junk x y x' y' b) as Hm. cbn zeta in Hm.
  rewrite post_move; rewrite El1, El2; cbn [fst]; rewrite Hm.
  - case_decide; [by rewrite unlines_last|]. rewrite <- unlines_last, <- app_assoc. done.
  - case_decide; [lia|]. rewrite unlines_last, !length_app in *. cbn [length] in *. lia.
Qed.

(** Two moves with the left button held, before and after a key; the
    buffer's old bytes differ. *)
Lemma pointer_moves_witness :
  let q := EQueue (text "k 97 0" ++ [10] ++ text "m 100 100 1" ++ [10]) [] [] in
  events (post_event q [] (EMouse 99 99 1)) = text "k 97 0" ++ [10] ++ text "m 99 99 1" ++ [10] ∧
  events (post_event q (text "1") (EMouse 99 99 1)) = text "k 97 0" ++ [10] ++ text "m 100 100 1" ++ [10] ++ text "m 99 99 1" ++ [10].
Proof.
  pose proof (λ junk, pointer_moves [text "k 97 0"] [] 100 100 99 99 1 junk ltac:(vm_compute; lia)) as H. cbn zeta in H. cbn zeta.
  change (text "k 97 0" ++ [10] ++ text "m 100 100 1" ++ [10]) with (unlines ([text "k 97 0"] ++ [(event_line (EMouse 100 100 1)).1])).
  rewrite !H. split; by vm_compute.
Defined.
