(* ===== verification/Tile.v ===== *)
(** * ManiDE's windows, workspaces and focus

    [desktop/manide/tile.c], the rectangles of [desktop/libgfx/gfx.c] and
    [damage] of [desktop/manide/draw.c] it uses. A [struct window *] is a
    number, 0 for NULL; the windows live in a map. Text ManiDE prints with
    [say] is left out. Coordinates are C [int]s far from their limits: a
    screen is at most 4096 pixels wide and high. *)
From S2P Require Import Prelude Abi Libc LibcNum Events.

Local Open Scope Z_scope.

Abbreviation BAR_H := 18%Z (only parsing).
Abbreviation HEAD_H := 15%Z (only parsing).
Abbreviation GAP := 4%Z (only parsing).
Abbreviation CLOSE_W := 11%Z (only parsing).
Abbreviation MAX_WINDOWS := 16%Z (only parsing).
Abbreviation WORKSPACES := 9%Z (only parsing).
Abbreviation MIN_SIZE := 16%Z (only parsing).

Inductive layout := LAYOUT_GRID | LAYOUT_TALL | LAYOUT_MONO.

#[export] Instance layout_eq : EqDecision layout.
Proof. solve_decision. Defined.

Record gfx_rect := Rect { rx : Z; ry : Z; rw : Z; rh : Z }.

Record window := Window {
  ws : Z;
  shown : bool;
  pane : gfx_rect;
  content : gfx_rect;
  told_w : Z;
  told_h : Z;
  queue : equeue
}.

Record workspace := Workspace { wlayout : layout; master : Z; wfocus : Z }.

(** The fields of [struct desktop] that [tile.c] works on. *)
Record desktop := Desktop {
  width : Z;
  height : Z;
  windows : gmap Z window;
  order : list Z;
  focus : Z;
  dws : Z;
  place_ws : Z;
  wss : list workspace;
  damaged : gfx_rect
}.

(** *** Updates of single fields *)

Definition set_windows D m := Desktop (width D) (height D) m (order D) (focus D) (dws D) (place_ws D) (wss D) (damaged D).
Definition set_order D o := Desktop (width D) (height D) (windows D) o (focus D) (dws D) (place_ws D) (wss D) (damaged D).
Definition set_dfocus D f := Desktop (width D) (height D) (windows D) (order D) f (dws D) (place_ws D) (wss D) (damaged D).
Definition set_ws D w p := Desktop (width D) (height D) (windows D) (order D) (focus D) w p (wss D) (damaged D).
Definition set_wss D l := Desktop (width D) (height D) (windows D) (order D) (focus D) (dws D) (place_ws D) l (damaged D).
Definition set_damaged D r := Desktop (width D) (height D) (windows D) (order D) (focus D) (dws D) (place_ws D) (wss D) r.

Definition upd D id (f : window → window) : desktop := set_windows D (alter f id (windows D)).
Definition no_rect : gfx_rect := Rect 0 0 0 0.
Definition no_window : window := Window (-1) false no_rect no_rect 0 0 (EQueue [] [] []).
Definition win D id : window := default no_window (windows D !! id).
Definition upd_wss D i (f : workspace → workspace) : desktop := set_wss D (alter f (Z.to_nat i) (wss D)).
Definition workspace_of D i : workspace := aget (Workspace LAYOUT_GRID 0 0) (wss D) i.
Definition post D id e : desktop :=
  upd D id (λ w, Window (ws w) (shown w) (pane w) (content w) (told_w w) (told_h w) (post_event (queue w) [] e)).

(** *** Rectangles *)

Definition gfx_intersect (a b : gfx_rect) : gfx_rect :=
  let x0 := Z.max (rx a) (rx b) in
  let y0 := Z.max (ry a) (ry b) in
  let x1 := Z.min (rx a + rw a) (rx b + rw b) in
  let y1 := Z.min (ry a + rh a) (ry b + rh b) in
  if (x1 - x0 <=? 0) || (y1 - y0 <=? 0) then Rect x0 y0 0 0 else Rect x0 y0 (x1 - x0) (y1 - y0).
Definition gfx_rect_empty (r : gfx_rect) : bool := (rw r <=? 0) || (rh r <=? 0).
Definition gfx_contains (r : gfx_rect) (x y : Z) : bool :=
  (rx r <=? x) && (ry r <=? y) && (x <? rx r + rw r) && (y <? ry r + rh r).

Definition damage D (r : gfx_rect) : desktop :=
  let r := gfx_intersect r (Rect 0 0 (width D) (height D)) in
  if gfx_rect_empty r then D
  else if gfx_rect_empty (damaged D) then set_damaged D r
  else
    let d := damaged D in
    let x0 := Z.min (rx r) (rx d) in
    let y0 := Z.min (ry r) (ry d) in
    let x1 := Z.max (rx r + rw r) (rx d + rw d) in
    let y1 := Z.max (ry r + rh r) (ry d + rh d) in
    set_damaged D (Rect x0 y0 (x1 - x0) (y1 - y0)).
Definition damage_bar D : desktop := damage D (Rect 0 0 (width D) BAR_H).

Definition tiling_area D : gfx_rect := Rect GAP (BAR_H + GAP) (width D - 2 * GAP) (height D - BAR_H - 2 * GAP).
Definition strip_rect (w : window) : gfx_rect := Rect (rx (pane w) + 1) (ry (pane w) + 1) (rw (pane w) - 2) (HEAD_H - 1).
Definition close_rect (w : window) : gfx_rect :=
  let s := strip_rect w in Rect (rx s + rw s - CLOSE_W - 3) (ry s) (CLOSE_W + 3) (rh s).

(** The window at a point: 0 for none. *)
Definition window_at D (x y : Z) : Z :=
  default 0 (List.find (λ id, shown (win D id) && gfx_contains (pane (win D id)) x y) (order D)).

(** Part [i] of [n]: its start and its size. *)
Definition share (start length n i : Z) : Z * Z :=
  let each := Z.quot (length - (n - 1) * GAP) n in
  let at_ := start + i * (each + GAP) in
  (at_, if i =? n - 1 then start + length - at_ else each).

Definition place D id (r : gfx_rect) : desktop :=
  let cw := Z.max (rw r - 2) MIN_SIZE in
  let ch := Z.max (rh r - HEAD_H - 1) MIN_SIZE in
  let w := win D id in
  let news := negb (cw =? told_w w) || negb (ch =? told_h w) in
  let D := upd D id (λ w, Window (ws w) true r (Rect (rx r + 1) (ry r + HEAD_H) cw ch) (if news then cw else told_w w)
                            (if news then ch else told_h w) (queue w)) in
  if news then post D id (EResize cw ch) else D.

(** *** Layouts *)

Definition hide (w : window) : window := Window (ws w) false (pane w) (content w) (told_w w) (told_h w) (queue w).

(** [while (cols * cols < n) cols++] *)
Fixpoint columns (fuel : nat) (n cols : Z) : Z :=
  match fuel with
  | O => cols
  | S fuel => if cols * cols <? n then columns fuel n (cols + 1) else cols
  end.

(** The window at index [k] of [list]. *)
Definition nth_win (l : list Z) (k : Z) : Z := aget 0 l k.

Definition place_stack D (a : gfx_rect) (l : list Z) (n master_w : Z) : desktop :=
  for_range 1 n (λ i D,
    let '(y, h) := share (ry a) (rh a) (n - 1) (i - 1) in
    place D (nth_win l i) (Rect (rx a + master_w + GAP) y (rw a - master_w - GAP) h)) D.

Definition place_column D (a : gfx_rect) (l : list Z) (x w rows k : Z) : desktop * Z :=
  for_range 0 rows (λ r '(D, k),
    let '(y, h) := share (ry a) (rh a) rows r in
    (place D (nth_win l k) (Rect x y w h), k + 1)) (D, k).

Definition place_grid D (a : gfx_rect) (l : list Z) (n cols : Z) : desktop :=
  fst (for_range 0 cols (λ c '(D, k),
    let rows := Z.quot n cols + (if c >=? cols - Z.rem n cols then 1 else 0) in
    let '(x, w) := share (rx a) (rw a) cols c in
    place_column D a l x w rows k) (D, 0)).

(** The windows of the workspace in view, in order. *)
Definition view D : list Z := base.filter (λ id, ws (win D id) = dws D) (order D).

Definition retile D : desktop :=
  let D := foldl (λ D id, upd D id hide) D (order D) in
  let l := view D in
  let n := Z.of_nat (length l) in
  let a := tiling_area D in
  let s := workspace_of D (dws D) in
  let D :=
    if n =? 0 then D
    else if bool_decide (wlayout s = LAYOUT_MONO) || (n =? 1) then
      place D (if truth (focus D) && (ws (win D (focus D)) =? dws D) then focus D else nth_win l 0) a
    else if bool_decide (wlayout s = LAYOUT_TALL) then
      let master_w := Z.quot ((rw a - GAP) * master s) 100 in
      place_stack (place D (nth_win l 0) (Rect (rx a) (ry a) master_w (rh a))) a l n master_w
    else place_grid D a l n (columns (Z.to_nat n) n 1) in
  damage_bar (damage D a).

(** *** The focus *)

Definition set_focus D (w : Z) : desktop :=
  if focus D =? w then D
  else
    let old := focus D in
    let D := set_dfocus D w in
    let D :=
      if truth old then
        let D := post D old (EFocus false) in
        if shown (win D old) then damage D (pane (win D old)) else D
      else D in
    let D :=
      if truth w then
        let D := upd_wss D (ws (win D w)) (λ s, Workspace (wlayout s) (master s) w) in
        let D := post D w (EFocus true) in
        if shown (win D w) then damage D (pane (win D w)) else D
      else D in
    let D := if bool_decide (wlayout (workspace_of D (dws D)) = LAYOUT_MONO) then retile D else D in
    damage_bar D.

(** The index of a window in the order, or -1. *)
Definition index_of D (w : Z) : Z :=
  match list_find (λ id, id = w) (order D) with Some (i, _) => Z.of_nat i | None => -1 end.

Definition step_from D (w delta : Z) : Z :=
  let i := index_of D w in
  let count := Z.of_nat (length (order D)) in
  let at_ k := aget 0 (order D) (Z.rem (i + delta * k + count * k) count) in
  match List.find (λ k, ws (win D (at_ k)) =? ws (win D w)) (seqZ 1 (count - 1)) with
  | Some k => at_ k
  | None => w
  end.

Definition focus_step D (delta : Z) : desktop :=
  if truth (focus D) then set_focus D (step_from D (focus D) delta) else D.

Definition swap_step D (delta : Z) : desktop :=
  if truth (focus D) then
    let other := step_from D (focus D) delta in
    let a := index_of D (focus D) in
    let b := index_of D other in
    retile (set_order D (aset (aset (order D) a other) b (focus D)))
  else D.

(** The window to focus on a workspace: the one it last had. *)
Definition workspace_focus D (i : Z) : Z :=
  let f := wfocus (workspace_of D i) in
  if truth f && (index_of D f >=? 0) && (ws (win D f) =? i) then f
  else default 0 (List.find (λ id, ws (win D id) =? i) (order D)).

Definition show_workspace D (i : Z) : desktop :=
  if i =? dws D then D
  else
    let D := set_ws D i i in
    retile (set_focus D (workspace_focus D i)).

Definition send_to_workspace D (w i : Z) : desktop :=
  if ws (win D w) =? i then D
  else
    let from := ws (win D w) in
    let D := upd D w (λ w, Window i (shown w) (pane w) (content w) (told_w w) (told_h w) (queue w)) in
    let D := if wfocus (workspace_of D from) =? w then upd_wss D from (λ s, Workspace (wlayout s) (master s) 0) else D in
    let D := if wfocus (workspace_of D i) =? 0 then upd_wss D i (λ s, Workspace (wlayout s) (master s) w) else D in
    let D := if focus D =? w then set_focus D (workspace_focus D (dws D)) else D in
    retile D.

Definition next_layout D : desktop :=
  retile (upd_wss D (dws D) (λ s,
    Workspace (match wlayout s with LAYOUT_GRID => LAYOUT_TALL | LAYOUT_TALL => LAYOUT_MONO | LAYOUT_MONO => LAYOUT_GRID end)
      (master s) (wfocus s))).

Definition grow_master D (delta : Z) : desktop :=
  let D := upd_wss D (dws D) (λ s,
    let m := master s + delta in
    Workspace (wlayout s) (if m <? 20 then 20 else if m >? 80 then 80 else m) (wfocus s)) in
  if bool_decide (wlayout (workspace_of D (dws D)) = LAYOUT_TALL) then retile D else D.

(** [w] is new: [add_window] makes its number the last of the order. *)
Definition add_window D (id : Z) (w : window) : desktop :=
  let D := set_windows D (<[id := Window (place_ws D) (shown w) (pane w) (content w) (told_w w) (told_h w) (queue w)]> (windows D)) in
  let D := set_order D (order D ++ [id]) in
  let D :=
    if place_ws D =? dws D then set_focus D id
    else if wfocus (workspace_of D (place_ws D)) =? 0
      then upd_wss D (place_ws D) (λ s, Workspace (wlayout s) (master s) id) else D in
  retile D.

Definition remove_window D (w : Z) : desktop :=
  let i := index_of D w in
  let next := if Z.of_nat (length (order D)) >? 1 then step_from D w (-1) else 0 in
  let D := set_order D (take (Z.to_nat i) (order D) ++ drop (Z.to_nat (i + 1)) (order D)) in
  let next := if (next =? w) || (truth next && negb (ws (win D next) =? ws (win D w))) then 0 else next in
  let D :=
    if wfocus (workspace_of D (ws (win D w))) =? w
    then upd_wss D (ws (win D w)) (λ s, Workspace (wlayout s) (master s) next) else D in
  let D := if focus D =? w then set_focus (set_dfocus D 0) next else D in
  retile D.

(** *** What reaches them *)

(** A click on a pane, below the bar and with the menu closed. *)
Definition click D (x y : Z) : desktop :=
  let w := window_at D x y in
  if truth w then
    let D := set_focus D w in
    if gfx_contains (close_rect (win D w)) x y then post D w EClose else D
  else D.

(** A key for the focused window, and Alt+q, which asks it to close. *)
Definition handle_key D (e : event) : desktop := if truth (focus D) then post D (focus D) e else D.

(** Keys and clicks ([input.c]), a window's [ctl] file and a program's new
    and closed windows ([wsys.c]), a line of the session file and its end
    ([main.c]). Events of the pointer only change a window's queue
    ([Events]) and are left out here. *)
Inductive action :=
| ANew (id : Z) (w : window)
| AClose (id : Z)
| AShow (i : Z)
| ASend (id i : Z)
| AFocusStep (delta : Z)
| ASwapStep (delta : Z)
| ALayout
| AMaster (delta : Z)
| AClick (x y : Z)
| AKey (code : Z) (alt : bool)
| AAskClose
| ATop (id : Z)
| ASession (i : Z).

Definition act D (a : action) : desktop :=
  match a with
  | ANew id w => add_window D id w
  | AClose id => let D := remove_window D id in set_windows D (delete id (windows D))
  | AShow i => show_workspace D i
  | ASend id i => send_to_workspace D id i
  | AFocusStep delta => focus_step D delta
  | ASwapStep delta => swap_step D delta
  | ALayout => next_layout D
  | AMaster delta => grow_master D delta
  | AClick x y => click D x y
  | AKey code alt => handle_key D (EKey code alt)
  | AAskClose => handle_key D EClose
  | ATop id => set_focus (show_workspace D (ws (win D id))) id
  | ASession i => set_ws D (dws D) i
  end.
