(* ===== verification/TileLayout.v ===== *)
(** * Where the panes go

    The rectangles the three layouts give the windows of a workspace: inside
    the tiling area, [GAP] pixels apart and with nothing left over; and
    [retile] as placing the windows on them. *)
From S2P Require Import Prelude Abi Libc LibcNum Events Tile.

Local Open Scope Z_scope.

(** ** Pairs of a list *)

Fixpoint pairwise {A} (R : A → A → Prop) (l : list A) : Prop :=
  match l with [] => True | x :: l => Forall (R x) l ∧ pairwise R l end.

Lemma pairwise_app {A} (R : A → A → Prop) a b :
  pairwise R a → pairwise R b → (∀ x y, x ∈ a → y ∈ b → R x y) → pairwise R (a ++ b).
Proof.
  intros Ha Hb Hab. induction a as [|x a IH]; [done|]. destruct Ha as [Hx Ha]. split.
  - apply Forall_app. split; [done|]. apply Forall_forall. intros y Hy. apply Hab; [left|done].
  - apply IH; [done|]. intros y z Hy. apply Hab. by right.
Qed.

Lemma pairwise_lookup {A} (R : A → A → Prop) l i j x y :
  pairwise R l → (i < j)%nat → l !! i = Some x → l !! j = Some y → R x y.
Proof.
  revert i j. induction l as [|z l IH]; intros i j Hp Hij Ei Ej; [done|]. destruct Hp as [Hz Hp].
  destruct j as [|j]; [lia|]. destruct i as [|i]; cbn in Ei, Ej.
  - injection Ei as ->. by eapply (proj1 (Forall_lookup _ _) Hz).
  - apply (IH i j); [done|lia|done|done].
Qed.

Lemma elem_of_concat {A} (x : A) ls : x ∈ concat ls ↔ ∃ l, x ∈ l ∧ l ∈ ls.
Proof. rewrite list_elem_of_In, in_concat. by setoid_rewrite list_elem_of_In; naive_solver. Qed.

Lemma seqZ_1 m : seqZ m 1 = [m].
Proof. unfold seqZ. cbn. f_equal; lia. Qed.

(** The parts a loop over [lo .. lo + n) appends. *)
Lemma pairwise_concat {A} (R : A → A → Prop) (f : Z → list A) lo n :
  0 ≤ n → (∀ c, lo ≤ c < lo + n → pairwise R (f c)) →
  (∀ c c' x y, lo ≤ c < c' → c' < lo + n → x ∈ f c → y ∈ f c' → R x y) →
  pairwise R (concat (f <$> seqZ lo n)).
Proof.
  intros Hn Hf Hc. revert n Hn Hf Hc. apply (natlike_ind (λ n, _ → _ → _)); [done|]. intros n Hn IH Hf Hc.
  rewrite <- Z.add_1_r, seqZ_app, seqZ_1, fmap_app, concat_app by lia. cbn [fmap list_fmap concat].
  rewrite app_nil_r. apply pairwise_app.
  - apply IH; intros; [apply Hf; lia|eapply (Hc c c'); eauto; lia].
  - apply Hf. lia.
  - intros x y Hx Hy. apply elem_of_concat in Hx as (l & Hx & Hl). apply list_elem_of_fmap in Hl as (c & -> & Hl).
    apply elem_of_seqZ in Hl. eapply (Hc c (lo + n)); eauto; lia.
Qed.

Lemma pairwise_fmap {A} (R : A → A → Prop) (f : Z → A) lo n :
  0 ≤ n → (∀ c c', lo ≤ c < c' → c' < lo + n → R (f c) (f c')) → pairwise R (f <$> seqZ lo n).
Proof.
  intros Hn Hc. replace (f <$> seqZ lo n) with (concat ((λ c, [f c]) <$> seqZ lo n)).
  - apply pairwise_concat; [done|done|]. intros c c' x y H1 H2 Hx Hy. apply list_elem_of_singleton in Hx as ->, Hy as ->. by apply Hc.
  - generalize (seqZ lo n) as l. induction l as [|z l IH]; [done|]. cbn. by rewrite IH.
Qed.

(** ** Sums over a loop *)

Fixpoint zsum (f : Z → Z) (l : list Z) : Z := match l with [] => 0 | i :: l => f i + zsum f l end.

Lemma zsum_app f a b : zsum f (a ++ b) = zsum f a + zsum f b.
Proof. induction a; cbn; lia. Qed.

Lemma zsum_last f lo n : 0 ≤ n → zsum f (seqZ lo (n + 1)) = zsum f (seqZ lo n) + f (lo + n).
Proof. intros. rewrite seqZ_app, seqZ_1, zsum_app by lia. cbn. lia. Qed.

Lemma zsum_ext f g l : (∀ i, i ∈ l → f i = g i) → zsum f l = zsum g l.
Proof.
  induction l as [|i l IH]; intros H; [done|]. cbn. rewrite (H i) by left. rewrite IH; [done|]. intros j Hj. apply H. by right.
Qed.

Lemma zsum_mul c f l : zsum (λ i, c * f i) l = c * zsum f l.
Proof. induction l as [|i l IH]; cbn; [lia|]. rewrite IH. ring. Qed.

Lemma zsum_const c lo n : 0 ≤ n → zsum (λ _, c) (seqZ lo n) = c * n.
Proof.
  intros Hn. revert n Hn. apply natlike_ind; [by rewrite Z.mul_0_r|]. intros n Hn IH. rewrite <- Z.add_1_r, zsum_last by lia. lia.
Qed.

(** ** Sharing a length *)

Section share.
Context (start len n : Z).
Hypothesis n_pos : 1 ≤ n.
Hypothesis len_ok : (n - 1) * GAP + n ≤ len.

Lemma share_each : 1 ≤ Z.quot (len - (n - 1) * GAP) n ∧ n * Z.quot (len - (n - 1) * GAP) n ≤ len - (n - 1) * GAP.
Proof.
  rewrite Z.quot_div_nonneg by lia. set (x := len - (n - 1) * GAP) in *.
  pose proof (Z.div_mod x n ltac:(lia)). pose proof (Z.mod_pos_bound x n ltac:(lia)).
  split; [|lia]. apply Z.div_le_lower_bound; lia.
Qed.

Lemma share_inside i : 0 ≤ i < n → start ≤ (share start len n i).1 ∧ 1 ≤ (share start len n i).2 ∧
  (share start len n i).1 + (share start len n i).2 ≤ start + len.
Proof.
  intros Hi. pose proof share_each as [H1 H2]. unfold share. cbn [fst snd]. set (e := Z.quot _ n) in *.
  destruct (Z.eqb_spec i (n - 1)); nia.
Qed.

Lemma share_apart i j : 0 ≤ i < j → j < n →
  (share start len n i).1 + (share start len n i).2 + GAP ≤ (share start len n j).1.
Proof.
  intros Hi Hj. pose proof share_each as [H1 H2]. unfold share. cbn [fst snd]. set (e := Z.quot _ n) in *.
  rewrite (proj2 (Z.eqb_neq i (n - 1))) by lia. nia.
Qed.

Lemma share_total : zsum (λ i, (share start len n i).2 + GAP) (seqZ 0 n) = len + GAP.
Proof.
  pose proof share_each as [H1 H2]. replace (seqZ 0 n) with (seqZ 0 (n - 1 + 1)) by (f_equal; lia). rewrite zsum_last by lia.
  rewrite (zsum_ext _ (λ _, Z.quot (len - (n - 1) * GAP) n + GAP)).
  - rewrite zsum_const by lia. unfold share. cbn [fst snd]. rewrite Z.add_0_l, Z.eqb_refl. lia.
  - intros i Hi. apply elem_of_seqZ in Hi. unfold share. cbn [fst snd]. by rewrite (proj2 (Z.eqb_neq i (n - 1))) by lia.
Qed.
End share.

(** ** Tilings *)

Definition pane_ok (a r : gfx_rect) : Prop :=
  rx a ≤ rx r ∧ ry a ≤ ry r ∧ rx r + rw r ≤ rx a + rw a ∧ ry r + rh r ≤ ry a + rh a ∧ 1 ≤ rw r ∧ 1 ≤ rh r.

Definition apart (r s : gfx_rect) : Prop :=
  rx r + rw r + GAP ≤ rx s ∨ rx s + rw s + GAP ≤ rx r ∨ ry r + rh r + GAP ≤ ry s ∨ ry s + rh s + GAP ≤ ry r.

(** A pane with the gap to its right and below it. *)
Definition padded (r : gfx_rect) : Z := (rw r + GAP) * (rh r + GAP).

Fixpoint padded_sum (l : list gfx_rect) : Z := match l with [] => 0 | r :: l => padded r + padded_sum l end.

(** The panes [l] are inside [a], apart, and with the gaps between them fill
    it: their padded areas add up to its padded area. *)
Record tiles (a : gfx_rect) (l : list gfx_rect) : Prop := {
  tiles_inside : Forall (pane_ok a) l;
  tiles_apart : pairwise apart l;
  tiles_fill : padded_sum l = padded a
}.

Lemma padded_sum_app l1 l2 : padded_sum (l1 ++ l2) = padded_sum l1 + padded_sum l2.
Proof. induction l1; cbn; lia. Qed.

Lemma padded_sum_fmap (f : Z → gfx_rect) l : padded_sum (f <$> l) = zsum (λ i, padded (f i)) l.
Proof. induction l as [|i l IH]; [done|]. cbn [fmap list_fmap padded_sum zsum]. by rewrite <- IH. Qed.

Lemma padded_sum_concat (f : Z → list gfx_rect) l : padded_sum (concat (f <$> l)) = zsum (λ i, padded_sum (f i)) l.
Proof.
  induction l as [|i l IH]; [done|]. change (concat (f <$> i :: l)) with (f i ++ concat (f <$> l)). cbn [zsum].
  by rewrite padded_sum_app, IH.
Qed.

(** *** The grid *)

Definition grid_rows (n cols c : Z) : Z := Z.quot n cols + (if c >=? cols - Z.rem n cols then 1 else 0).

Definition column_panes (a : gfx_rect) (x w rows : Z) : list gfx_rect :=
  (λ r, let '(y, h) := share (ry a) (rh a) rows r in Rect x y w h) <$> seqZ 0 rows.

Definition grid_panes (a : gfx_rect) (n cols : Z) : list gfx_rect :=
  concat ((λ c, let '(x, w) := share (rx a) (rw a) cols c in column_panes a x w (grid_rows n cols c)) <$> seqZ 0 cols).

(** Up to 16 windows need at most 4 columns of at most 4 rows; no column is
    empty and the windows fill them. *)
Lemma grid_numbers n :
  2 ≤ n ≤ MAX_WINDOWS →
  let cols := columns (Z.to_nat n) n 1 in
  1 ≤ cols ≤ 4 ∧ (∀ c, 0 ≤ c < cols → 1 ≤ grid_rows n cols c ≤ 4) ∧ zsum (grid_rows n cols) (seqZ 0 cols) = n.
Proof.
  intros Hn. cbn zeta.
  assert (forallb (λ n, let cols := columns (Z.to_nat n) n 1 in
    (1 <=? cols) && (cols <=? 4) && forallb (λ c, (1 <=? grid_rows n cols c) && (grid_rows n cols c <=? 4)) (seqZ 0 cols)
    && (zsum (grid_rows n cols) (seqZ 0 cols) =? n)) (seqZ 2 15) = true) as H by by vm_compute.
  rewrite forallb_forall in H. specialize (H n ltac:(apply list_elem_of_In, elem_of_seqZ; lia)).
  cbn zeta in H. zbool. split_and!; [lia|lia| |lia]. intros c Hc. rewrite forallb_forall in *.
  match goal with H : ∀ x, In x _ → _ |- _ => specialize (H c ltac:(apply list_elem_of_In, elem_of_seqZ; lia)) end. zbool. lia.
Qed.

Section tilings.
Context (a : gfx_rect).
Hypothesis wide : 100 ≤ rw a.
Hypothesis high : 100 ≤ rh a.

Lemma column_in x w rows r :
  1 ≤ rows ≤ 15 → r ∈ column_panes a x w rows →
  rx r = x ∧ rw r = w ∧ ry a ≤ ry r ∧ ry r + rh r ≤ ry a + rh a ∧ 1 ≤ rh r.
Proof.
  intros Hr Hin. apply list_elem_of_fmap in Hin as (i & -> & Hi). apply elem_of_seqZ in Hi.
  pose proof (share_inside (ry a) (rh a) rows ltac:(lia) ltac:(lia) i ltac:(lia)) as (H1 & H2 & H3).
  destruct (share (ry a) (rh a) rows i) as [y h]. cbn in *. lia.
Qed.

Lemma column_tiles x w rows :
  1 ≤ rows ≤ 15 → pairwise apart (column_panes a x w rows) ∧
  padded_sum (column_panes a x w rows) = (w + GAP) * (rh a + GAP).
Proof.
  intros Hr. assert ((rows - 1) * GAP + rows ≤ rh a) as Hl by (lia). split.
  - apply pairwise_fmap; [lia|]. intros i j Hi Hj.
    pose proof (share_apart (ry a) (rh a) rows ltac:(lia) Hl i j ltac:(lia) ltac:(lia)) as H.
    destruct (share (ry a) (rh a) rows i), (share (ry a) (rh a) rows j). right; right; left. exact H.
  - unfold column_panes. rewrite padded_sum_fmap.
    rewrite (zsum_ext _ (λ i, (w + GAP) * ((share (ry a) (rh a) rows i).2 + GAP))).
    + rewrite zsum_mul, share_total by (lia || done). done.
    + intros i _. by destruct (share (ry a) (rh a) rows i).
Qed.

Lemma grid_tiles n : 2 ≤ n ≤ MAX_WINDOWS → tiles a (grid_panes a n (columns (Z.to_nat n) n 1)).
Proof.
  intros Hn. destruct (grid_numbers n Hn) as (Hc & Hrows & _). set (cols := columns _ n 1) in *.
  assert ((cols - 1) * GAP + cols ≤ rw a) as Hl by (lia).
  assert (∀ c r, 0 ≤ c < cols → r ∈ (let '(x, w) := share (rx a) (rw a) cols c in column_panes a x w (grid_rows n cols c)) →
    rx r = (share (rx a) (rw a) cols c).1 ∧ rw r = (share (rx a) (rw a) cols c).2 ∧
    ry a ≤ ry r ∧ ry r + rh r ≤ ry a + rh a ∧ 1 ≤ rh r) as Hin.
  { intros c r Hcc Hr. specialize (Hrows c Hcc). destruct (share (rx a) (rw a) cols c) as [x w]. eapply column_in; [|done]. lia. }
  split.
  - apply Forall_forall. intros r Hr. apply elem_of_concat in Hr as (l & Hr & Hl'). apply list_elem_of_fmap in Hl' as (c & -> & Hcc).
    apply elem_of_seqZ in Hcc. destruct (Hin c r ltac:(lia) Hr) as (E1 & E2 & H).
    destruct (share_inside (rx a) (rw a) cols ltac:(lia) Hl c ltac:(lia)) as (H1 & H2 & H3). unfold pane_ok. lia.
  - apply pairwise_concat; [lia| |].
    + intros c Hcc. specialize (Hrows c ltac:(lia)). destruct (share (rx a) (rw a) cols c). apply column_tiles. lia.
    + intros c c' r r' H1 H2 Hr Hr'. destruct (Hin c r ltac:(lia) Hr) as (E1 & E2 & _), (Hin c' r' ltac:(lia) Hr') as (E1' & E2' & _).
      left. rewrite E1, E2, E1'. apply share_apart; [lia|done|lia|lia].
  - unfold grid_panes. rewrite padded_sum_concat.
    rewrite (zsum_ext _ (λ c, (rh a + GAP) * ((share (rx a) (rw a) cols c).2 + GAP))).
    + rewrite zsum_mul, share_total by (lia || done). unfold padded. lia.
    + intros c Hcc. apply elem_of_seqZ in Hcc. specialize (Hrows c ltac:(lia)). destruct (share (rx a) (rw a) cols c) as [x w].
      cbn [snd]. rewrite (proj2 (column_tiles x w (grid_rows n cols c) ltac:(lia))). lia.
Qed.

(** *** The tall layout *)

Definition tall_panes (n m : Z) : list gfx_rect :=
  Rect (rx a) (ry a) (Z.quot ((rw a - GAP) * m) 100) (rh a) ::
  column_panes a (rx a + Z.quot ((rw a - GAP) * m) 100 + GAP) (rw a - Z.quot ((rw a - GAP) * m) 100 - GAP) (n - 1).

Lemma tall_tiles n m : 2 ≤ n ≤ MAX_WINDOWS → 20 ≤ m ≤ 80 → tiles a (tall_panes n m).
Proof.
  intros Hn Hm. unfold tall_panes in *. set (w := Z.quot ((rw a - GAP) * m) 100).
  assert (1 ≤ w ∧ w ≤ rw a - GAP - 1) as Hw.
  { subst w. rewrite Z.quot_div_nonneg by nia. split; [apply Z.div_le_lower_bound; nia|].
    apply Z.lt_le_pred, Z.div_lt_upper_bound; nia. }
  destruct (column_tiles (rx a + w + GAP) (rw a - w - GAP) (n - 1)) as [Hp Hs]; [lia|]. split.
  - apply Forall_cons. split; [unfold pane_ok in *; cbn; lia|]. apply Forall_forall. intros r Hr.
    destruct (column_in (rx a + w + GAP) (rw a - w - GAP) (n - 1) r ltac:(lia) Hr) as (E1 & E2 & H). unfold pane_ok in *. lia.
  - split; [|done]. apply Forall_forall. intros r Hr. destruct (column_in (rx a + w + GAP) (rw a - w - GAP) (n - 1) r ltac:(lia) Hr) as (Ex & _).
    left. cbn. rewrite Ex. lia.
  - cbn [padded_sum]. rewrite Hs. unfold padded. cbn. ring.
Qed.

Lemma whole_tiles : tiles a [a].
Proof. split; [apply Forall_singleton; unfold pane_ok; lia|split; [apply Forall_nil_2|done]|cbn; lia]. Qed.
End tilings.

(** ** [retile] *)

(** The windows placed and where. *)
Definition layout_panes (a : gfx_rect) (s : workspace) (n : Z) : list gfx_rect :=
  if bool_decide (wlayout s = LAYOUT_TALL) then tall_panes a n (master s) else grid_panes a n (columns (Z.to_nat n) n 1).

Definition placement D : list (Z * gfx_rect) :=
  let l := view D in
  let n := Z.of_nat (length l) in
  let s := workspace_of D (dws D) in
  if n =? 0 then []
  else if bool_decide (wlayout s = LAYOUT_MONO) || (n =? 1) then
    [(if truth (focus D) && (ws (win D (focus D)) =? dws D) then focus D else nth_win l 0, tiling_area D)]
  else zip l (layout_panes (tiling_area D) s n).

Definition place_all D (ps : list (Z * gfx_rect)) : desktop := foldl (λ D p, place D p.1 p.2) D ps.

Lemma zip_app_r {A B} (l : list A) (P Q : list B) :
  (length P ≤ length l)%nat → zip l (P ++ Q) = zip l P ++ zip (drop (length P) l) Q.
Proof.
  revert l. induction P as [|x P IH]; intros [|y l] Hl; cbn in *; [done|done|lia|]. f_equal. apply IH. lia.
Qed.

Lemma place_all_app D ps qs : place_all D (ps ++ qs) = place_all (place_all D ps) qs.
Proof. apply foldl_app. Qed.

(** A loop that places the window at [k + i] in turn [i]. *)
Lemma place_loop D (l : list Z) k m (f : Z → gfx_rect) :
  0 ≤ k → 0 ≤ m → k + m ≤ Z.of_nat (length l) →
  for_range 0 m (λ r '(D, k), (place D (nth_win l k) (f r), k + 1)) (D, k) =
  (place_all D (zip (drop (Z.to_nat k) l) (f <$> seqZ 0 m)), k + m).
Proof.
  intros Hk Hm. revert m Hm. apply (natlike_ind (λ m, _ → _)); [|].
  { intros _. rewrite for_range_nil, Z.add_0_r by lia. by destruct (drop (Z.to_nat k) l). }
  intros m Hm IH Hl. rewrite <- Z.add_1_r, for_range_last, IH, seqZ_app, seqZ_1, fmap_app by lia. rewrite Z.add_0_l.
  assert (length (f <$> seqZ 0 m) = Z.to_nat m) as Em by by rewrite length_fmap, length_seqZ.
  rewrite zip_app_r, Em, drop_drop, place_all_app by (rewrite ?Em, length_drop; lia).
  replace (Z.to_nat k + Z.to_nat m)%nat with (Z.to_nat (k + m)) by lia. f_equal; [|lia].
  unfold nth_win, aget. rewrite (proj2 (Z.ltb_ge (k + m) 0)) by lia.
  destruct (lookup_lt_is_Some_2 l (Z.to_nat (k + m))) as [x Ex]; [lia|]. rewrite Ex, (drop_S _ _ _ Ex). cbn. by destruct (drop (S (Z.to_nat (k + m))) l).
Qed.

Lemma place_column_eq D a l x w rows k :
  0 ≤ k → 0 ≤ rows → k + rows ≤ Z.of_nat (length l) →
  place_column D a l x w rows k = (place_all D (zip (drop (Z.to_nat k) l) (column_panes a x w rows)), k + rows).
Proof.
  intros. unfold place_column, column_panes. rewrite <- place_loop by done. unfold for_range.
  generalize (seqZ 0 (rows - 0)) as s, (D, k) as st. induction s as [|r s IH]; intros [D' k']; [done|]. cbn [foldl].
  destruct (share (ry a) (rh a) rows r). apply IH.
Qed.

Lemma length_column a x w rows : length (column_panes a x w rows) = Z.to_nat rows.
Proof. unfold column_panes. by rewrite length_fmap, length_seqZ. Qed.

Lemma zsum_nonneg f l : (∀ i, i ∈ l → 0 ≤ f i) → 0 ≤ zsum f l.
Proof.
  induction l as [|i l IH]; intros H; [done|]. cbn [zsum]. specialize (H i ltac:(left)) as H1.
  specialize (IH (λ j Hj, H j ltac:(by right))). lia.
Qed.

Lemma zsum_prefix f m n : 0 ≤ m ≤ n → (∀ i, 0 ≤ i < n → 0 ≤ f i) → 0 ≤ zsum f (seqZ 0 m) ≤ zsum f (seqZ 0 n).
Proof.
  intros Hm Hf. assert (∀ lo k, 0 ≤ lo → lo + k ≤ n → 0 ≤ zsum f (seqZ lo k)) as H.
  { intros lo k Hlo Hk. apply zsum_nonneg. intros i Hi. apply elem_of_seqZ in Hi. apply Hf. lia. }
  split; [apply H; lia|]. replace n with (m + (n - m)) by lia. rewrite seqZ_app, zsum_app by lia.
  specialize (H (0 + m) (n - m)). lia.
Qed.

Lemma place_grid_eq D a l n cols :
  Z.of_nat (length l) = n → 0 ≤ cols → (∀ c, 0 ≤ c < cols → 0 ≤ grid_rows n cols c) →
  zsum (grid_rows n cols) (seqZ 0 cols) = n →
  place_grid D a l n cols = place_all D (zip l (grid_panes a n cols)) ∧ length (grid_panes a n cols) = length l.
Proof.
  intros Hl Hc Hrows Hsum. unfold place_grid, grid_panes. fold (grid_rows n cols).
  set (col := λ c, let '(x, w) := share (rx a) (rw a) cols c in column_panes a x w (grid_rows n cols c)).
  set (body := λ c '(D, k), _ : desktop * Z).
  assert (∀ m, 0 ≤ m → m ≤ cols →
    for_range 0 m body (D, 0) = (place_all D (zip l (concat (col <$> seqZ 0 m))), zsum (grid_rows n cols) (seqZ 0 m)) ∧
    length (concat (col <$> seqZ 0 m)) = Z.to_nat (zsum (grid_rows n cols) (seqZ 0 m))) as H.
  - apply (natlike_ind (λ m, _ → _)).
    + intros _. rewrite for_range_nil by lia. split; [|done]. cbn. by destruct l.
    + intros m Hm IH Hle. destruct IH as [IH1 IH2]; [lia|]. rewrite <- Z.add_1_r in *.
      pose proof (zsum_prefix (grid_rows n cols) m cols ltac:(lia) Hrows) as Hp.
      pose proof (zsum_prefix (grid_rows n cols) (m + 1) cols ltac:(lia) Hrows) as Hp1.
      rewrite for_range_last, IH1, zsum_last, seqZ_app, seqZ_1, fmap_app, concat_app in * by lia. rewrite Z.add_0_l in *.
      specialize (Hrows m ltac:(lia)). set (k := zsum (grid_rows n cols) (seqZ 0 m)) in *.
      change (concat (col <$> [m])) with (col m ++ []). rewrite app_nil_r.
      assert (body m (place_all D (zip l (concat (col <$> seqZ 0 m))), k) =
        (place_all (place_all D (zip l (concat (col <$> seqZ 0 m)))) (zip (drop (Z.to_nat k) l) (col m)), k + grid_rows n cols m)
        ∧ length (col m) = Z.to_nat (grid_rows n cols m)) as [-> Elen].
      { unfold body, col. destruct (share (rx a) (rw a) cols m) as [x w]. fold (grid_rows n cols m).
        split; [apply place_column_eq; lia|apply length_column]. }
      rewrite length_app, IH2, Elen, zip_app_r, place_all_app, IH2 by lia. split; [done|lia].
  - destruct (H cols) as [H1 H2]; [lia|lia|]. rewrite H1, H2, Hsum. split; [done|lia].
Qed.

(** *** What placing changes *)

(** Everything but the windows' places and events and the damage. *)
Record moved (D D' : desktop) : Prop := {
  mv_width : width D' = width D;
  mv_height : height D' = height D;
  mv_order : order D' = order D;
  mv_focus : focus D' = focus D;
  mv_dws : dws D' = dws D;
  mv_place : place_ws D' = place_ws D;
  mv_wss : wss D' = wss D;
  mv_known id : is_Some (windows D' !! id) ↔ is_Some (windows D !! id);
  mv_ws id : ws (win D' id) = ws (win D id)
}.

#[export] Instance moved_preorder : PreOrder moved.
Proof.
  split; [by split|]. intros D1 D2 D3 [] []. split; try congruence; intros; naive_solver congruence.
Qed.

Lemma win_upd_eq D id f : is_Some (windows D !! id) → win (upd D id f) id = f (win D id).
Proof. intros [w Ew]. unfold win, upd. cbn. by rewrite lookup_alter_eq, Ew. Qed.

Lemma win_upd_ne D id id' f : id ≠ id' → win (upd D id f) id' = win D id'.
Proof. intros Hne. unfold win, upd. cbn. by rewrite lookup_alter_ne. Qed.

Lemma win_unknown D id f : windows D !! id = None → upd D id f = D.
Proof.
  intros E. unfold upd, set_windows. destruct D; cbn in *. f_equal. apply map_eq. intros id'.
  destruct (decide (id = id')) as [<-|]; [by rewrite lookup_alter_eq, E|by rewrite lookup_alter_ne].
Qed.

Lemma moved_upd D id f : (∀ w, ws (f w) = ws w) → moved D (upd D id f).
Proof.
  intros Hf. split; try done.
  - intros id'. unfold upd. cbn. destruct (decide (id = id')) as [<-|Hne]; [rewrite lookup_alter_eq|by rewrite lookup_alter_ne].
    by rewrite fmap_is_Some.
  - intros id'. destruct (decide (id = id')) as [<-|Hne]; [|by rewrite win_upd_ne].
    destruct (windows D !! id) as [w|] eqn:E; [rewrite win_upd_eq by done; apply Hf|by rewrite win_unknown].
Qed.

Lemma moved_damage D r : moved D (damage D r).
Proof. unfold damage. case_match; [done|]. case_match; done. Qed.

Lemma win_damage D r id : win (damage D r) id = win D id.
Proof. unfold damage. case_match; [done|]. case_match; done. Qed.

Lemma moved_post D id e : moved D (post D id e).
Proof. by apply moved_upd. Qed.

(** Two windows that are shown alike. *)
Definition looks (w w' : window) : Prop := shown w' = shown w ∧ pane w' = pane w.

Lemma looks_post D id e id' : looks (win D id') (win (post D id e) id').
Proof.
  unfold post. destruct (decide (id = id')) as [<-|Hne]; [|by rewrite win_upd_ne].
  destruct (windows D !! id) as [w|] eqn:E; [by rewrite win_upd_eq|by rewrite win_unknown].
Qed.

Lemma place_ok D id r :
  is_Some (windows D !! id) →
  moved D (place D id r) ∧ shown (win (place D id r) id) = true ∧ pane (win (place D id r) id) = r ∧
  ∀ id', id' ≠ id → win (place D id r) id' = win D id'.
Proof.
  intros Hs. unfold place. set (f := λ w, Window _ _ _ _ _ _ _). set (news := negb _ || negb _).
  assert (moved D (upd D id f)) as Hm by by apply moved_upd.
  assert (shown (win (upd D id f) id) = true ∧ pane (win (upd D id f) id) = r) as [H1 H2] by by rewrite win_upd_eq.
  destruct news.
  - destruct (looks_post (upd D id f) id (EResize (Z.max (rw r - 2) MIN_SIZE) (Z.max (rh r - HEAD_H - 1) MIN_SIZE)) id) as [E1 E2].
    rewrite E1, E2. split_and!; [etransitivity; [done|apply moved_post]|done|done|]. intros id' Hne. unfold post. by rewrite !win_upd_ne.
  - split_and!; [done|done|done|]. intros id' Hne. by rewrite win_upd_ne.
Qed.

Lemma place_all_ok D ps :
  NoDup ps.*1 → (∀ id, id ∈ ps.*1 → is_Some (windows D !! id)) →
  moved D (place_all D ps) ∧
  (∀ id r, (id, r) ∈ ps → shown (win (place_all D ps) id) = true ∧ pane (win (place_all D ps) id) = r) ∧
  (∀ id, id ∉ ps.*1 → win (place_all D ps) id = win D id).
Proof.
  revert D. induction ps as [|[id r] ps IH]; intros D Hn Hk.
  - split_and!; [done|intros ? ? H; by apply elem_of_nil in H|done].
  - apply NoDup_cons in Hn as [Hid Hn]. destruct (place_ok D id r) as (Hm & Hs & Hp & Ho); [apply Hk; left|].
    destruct (IH (place D id r) Hn) as (Hm' & Hin & Hout).
    { intros id' Hin. apply (mv_known _ _ Hm). apply Hk. by right. }
    change (place_all D ((id, r) :: ps)) with (place_all (place D id r) ps). split_and!.
    + by etransitivity.
    + intros id' r' H. apply elem_of_cons in H as [[= -> ->]|H]; [by rewrite Hout|by apply Hin].
    + intros id' H. cbn [fmap list_fmap fst] in H. apply not_elem_of_cons in H as [Hne H]. rewrite Hout by done. by apply Ho.
Qed.

Definition hide_all D : desktop := foldl (λ D id, upd D id hide) D (order D).

Lemma hide_all_ok D :
  moved D (hide_all D) ∧ ∀ id, id ∈ order D → is_Some (windows D !! id) → shown (win (hide_all D) id) = false.
Proof.
  unfold hide_all. generalize (order D) as l. intros l. revert D. induction l as [|x l IH]; intros D.
  - split; [done|]. intros id H. by apply elem_of_nil in H.
  - cbn [foldl]. assert (moved D (upd D x hide)) as Hm by by apply moved_upd. destruct (IH (upd D x hide)) as [Hm' Hh].
    split; [by etransitivity|]. intros id Hin Hk. destruct (decide (id ∈ l)) as [Hl|Hl].
    + apply Hh; [done|]. by apply (mv_known _ _ Hm).
    + apply elem_of_cons in Hin as [->|Hin]; [|done]. clear IH Hm' Hh.
      assert (∀ D', win D' x = win (upd D x hide) x → win (foldl (λ D id, upd D id hide) D' l) x = win (upd D x hide) x) as H.
      { clear Hm Hk. revert Hl. induction l as [|y l IHl]; intros Hl D' E; [done|]. apply not_elem_of_cons in Hl as [Hne Hl]. cbn.
        apply IHl; [done|]. by rewrite win_upd_ne. }
      rewrite H by done. by rewrite win_upd_eq.
Qed.

Lemma view_moved D D' : moved D D' → view D' = view D.
Proof. intros H. unfold view. rewrite (mv_order _ _ H), (mv_dws _ _ H). apply list_filter_iff. intros id. by rewrite (mv_ws _ _ H). Qed.

Lemma area_moved D D' : moved D D' → tiling_area D' = tiling_area D.
Proof. intros H. unfold tiling_area. by rewrite (mv_width _ _ H), (mv_height _ _ H). Qed.

Lemma placement_moved D D' : moved D D' → placement D' = placement D.
Proof.
  intros H. unfold placement, workspace_of. rewrite (view_moved _ _ H), (area_moved _ _ H), (mv_wss _ _ H), (mv_dws _ _ H), (mv_focus _ _ H).
  by rewrite (mv_ws _ _ H).
Qed.

Lemma view_length D : (length (view D) ≤ length (order D))%nat.
Proof. apply length_filter. Qed.

(** The stack of the tall layout is a column of the windows from 1 on. *)
Lemma place_stack_column D a l n w :
  1 ≤ n → place_stack D a l n w = (place_column D a l (rx a + w + GAP) (rw a - w - GAP) (n - 1) 1).1.
Proof.
  intros Hn. unfold place_stack, place_column. set (F := λ i D, _ : desktop). set (G := λ r '(D, k), _ : desktop * Z).
  assert (∀ m, 0 ≤ m → for_range 0 m G (D, 1) = (for_range 1 (m + 1) F D, m + 1)) as H.
  - apply natlike_ind; [by rewrite !for_range_nil by lia|]. intros m Hm IH. rewrite <- Z.add_1_r.
    rewrite !for_range_last, IH by lia. unfold F, G. replace (m + 1 - 1) with m by lia.
    by destruct (share (ry a) (rh a) (n - 1) m).
  - rewrite H by lia. cbn [fst]. f_equal. lia.
Qed.

Lemma place_stack_eq D a x l n m :
  Z.of_nat (length (x :: l)) = n →
  let w := Z.quot ((rw a - GAP) * m) 100 in
  place_stack (place D x (Rect (rx a) (ry a) w (rh a))) a (x :: l) n w = place_all D (zip (x :: l) (tall_panes a n m)).
Proof.
  intros Hn. cbn [length] in Hn. cbn zeta. rewrite place_stack_column by lia. rewrite place_column_eq by (cbn [length]; lia). done.
Qed.

Lemma retile_eq D :
  (length (order D) ≤ 16)%nat → retile D = damage_bar (damage (place_all (hide_all D) (placement D)) (tiling_area D)).
Proof.
  intros Hl. destruct (hide_all_ok D) as [Hm _]. rewrite <- (placement_moved _ _ Hm), <- (area_moved _ _ Hm).
  unfold retile. fold (hide_all D). set (D0 := hide_all D) in *. cbn zeta.
  assert (length (view D0) ≤ 16)%nat as Hv by (etransitivity; [apply view_length|by rewrite (mv_order _ _ Hm)]).
  f_equal. f_equal. unfold placement. cbn zeta. set (l := view D0) in *. set (n := Z.of_nat (length l)).
  destruct (Z.eqb_spec n 0) as [|Hn]; [done|]. destruct (bool_decide (wlayout _ = LAYOUT_MONO) || (n =? 1)) eqn:E; [done|]. zbool.
  unfold layout_panes. destruct (bool_decide (wlayout _ = LAYOUT_TALL)).
  - destruct l as [|x l'] eqn:El; [by cbn in Hn|]. by apply place_stack_eq.
  - destruct (grid_numbers n) as (Hc & Hrows & Hsum); [lia|].
    apply place_grid_eq; [done|lia|intros c Hcc; specialize (Hrows c Hcc); lia|done].
Qed.

(** *** What [retile] shows *)

Record desk_wf (D : desktop) : Prop := {
  wf_nodup : NoDup (order D);
  wf_known id : id ∈ order D → is_Some (windows D !! id);
  wf_zero : 0 ∉ order D;
  wf_count : (length (order D) ≤ 16)%nat;
  wf_screen : 640 ≤ width D ∧ 480 ≤ height D;
  wf_master s : s ∈ wss D → 20 ≤ master s ≤ 80;
  wf_wss : length (wss D) = 9%nat;
  wf_dws : 0 ≤ dws D < WORKSPACES
}.

Lemma wf_moved D D' : moved D D' → desk_wf D → desk_wf D'.
Proof.
  intros [] []. split; rewrite ?mv_order0, ?mv_width0, ?mv_height0, ?mv_wss0, ?mv_dws0; try done. intros id Hid. by apply mv_known0, wf_known0.
Qed.

Lemma view_elem D id : id ∈ view D ↔ id ∈ order D ∧ ws (win D id) = dws D.
Proof. unfold view. rewrite list_elem_of_filter. tauto. Qed.

(** The panes of a layout tile the area, one for each window. *)
Lemma layout_panes_ok D s :
  desk_wf D → s ∈ wss D → (2 ≤ length (view D))%nat →
  let n := Z.of_nat (length (view D)) in
  tiles (tiling_area D) (layout_panes (tiling_area D) s n) ∧ length (layout_panes (tiling_area D) s n) = length (view D).
Proof.
  intros Hwf Hs Hn. pose proof (wf_screen _ Hwf) as [Hw Hh]. cbn zeta.
  assert (100 ≤ rw (tiling_area D) ∧ 100 ≤ rh (tiling_area D)) as [Haw Hah] by (cbn; lia).
  assert (2 ≤ Z.of_nat (length (view D)) ≤ MAX_WINDOWS) as Hr.
  { pose proof (view_length D). pose proof (wf_count _ Hwf). lia. }
  set (n := Z.of_nat (length (view D))) in *. unfold layout_panes. destruct (bool_decide _).
  - split; [apply tall_tiles; [done|done|done|by apply (wf_master _ Hwf)]|]. unfold tall_panes. cbn [length]. rewrite length_column. lia.
  - split; [by apply grid_tiles|]. destruct (grid_numbers n Hr) as (Hc & Hrows & Hsum).
    apply (place_grid_eq D); [done|lia|intros c Hcc; specialize (Hrows c Hcc); lia|done].
Qed.

Lemma workspace_in D : desk_wf D → workspace_of D (dws D) ∈ wss D.
Proof.
  intros Hwf. pose proof (wf_dws _ Hwf) as H. pose proof (wf_wss _ Hwf) as Hl. unfold workspace_of, aget.
  rewrite (proj2 (Z.ltb_ge _ _)) by lia. destruct (lookup_lt_is_Some_2 (wss D) (Z.to_nat (dws D))) as [s Es]; [lia|].
  rewrite Es. by apply list_elem_of_lookup_2 in Es.
Qed.

(** Each window of the placement is on the workspace in view; the panes tile
    the area. *)
Lemma placement_ok D :
  desk_wf D → (focus D ≠ 0 → focus D ∈ order D) →
  NoDup (placement D).*1 ∧ (∀ id, id ∈ (placement D).*1 → id ∈ view D) ∧
  (view D ≠ [] → tiles (tiling_area D) (placement D).*2) ∧
  (wlayout (workspace_of D (dws D)) ≠ LAYOUT_MONO → (placement D).*1 = view D).
Proof.
  intros Hwf Hfoc. assert (NoDup (view D)) as Hnd by (apply NoDup_filter, Hwf).
  unfold placement. cbn zeta. set (n := Z.of_nat (length (view D))). set (s := workspace_of D (dws D)).
  destruct (Z.eqb_spec n 0) as [Hn|Hn].
  { assert (view D = []) as E by (apply nil_length_inv; lia). rewrite E. split_and!; [constructor|done|done|done]. }
  destruct (bool_decide (wlayout s = LAYOUT_MONO) || (n =? 1)) eqn:E.
  - set (x := if truth (focus D) && _ then _ else _). assert (x ∈ view D) as Hx.
    { subst x. case_if.
      - apply truth_true_iff in H. apply view_elem. split; [by apply Hfoc|done].
      - unfold nth_win, aget. change (0 <? 0) with false. cbn iota. change (Z.to_nat 0) with O. destruct (lookup_lt_is_Some_2 (view D) 0) as [y Ey]; [lia|]. rewrite Ey. by apply list_elem_of_lookup_2 in Ey. }
    cbn [fmap list_fmap fst snd]. pose proof (wf_screen _ Hwf) as [Hw Hh]. split_and!.
    + apply NoDup_singleton.
    + intros id Hid. by apply list_elem_of_singleton in Hid as ->.
    + intros _. apply whole_tiles; cbn; lia.
    + intros Hl. apply orb_true_iff in E as [E|E]; [by apply bool_decide_eq_true in E|]. apply Z.eqb_eq in E.
      destruct (view D) as [|y [|]] eqn:Ev; cbn in *; try lia. by apply list_elem_of_singleton in Hx as ->.
  - zbool. destruct (layout_panes_ok D s Hwf (workspace_in D Hwf)) as [Ht Hlen]; [lia|]. fold n in Ht, Hlen.
    assert ((zip (view D) (layout_panes (tiling_area D) s n)).*1 = view D) as E1 by (apply fst_zip; lia).
    rewrite E1, snd_zip by lia. done.
Qed.

(** On the screen: exactly the windows of the placement, where it says. *)
Definition on_screen (D : desktop) : Prop :=
  (∀ id r, (id, r) ∈ placement D → shown (win D id) = true ∧ pane (win D id) = r) ∧
  (∀ id, id ∈ order D → id ∉ (placement D).*1 → shown (win D id) = false).

Lemma on_screen_moved D D' :
  moved D D' → (∀ id, looks (win D id) (win D' id)) → on_screen D → on_screen D'.
Proof.
  intros Hm Hl [H1 H2]. unfold on_screen. rewrite (placement_moved _ _ Hm), (mv_order _ _ Hm). split.
  - intros id r Hin. destruct (Hl id) as [-> ->]. by apply H1.
  - intros id Ho Hn. destruct (Hl id) as [-> _]. by apply H2.
Qed.

Lemma retile_ok D :
  desk_wf D → (focus D ≠ 0 → focus D ∈ order D) → moved D (retile D) ∧ on_screen (retile D).
Proof.
  intros Hwf Hfoc. rewrite (retile_eq D (wf_count _ Hwf)). destruct (hide_all_ok D) as [Hm Hh].
  destruct (placement_ok D Hwf Hfoc) as (Hnd & Hin & _). destruct (place_all_ok (hide_all D) (placement D) Hnd) as (Hm' & Hp & Ho).
  { intros id Hid. apply (mv_known _ _ Hm), (wf_known _ Hwf). by apply Hin, view_elem in Hid as [? _]. }
  assert (moved D (place_all (hide_all D) (placement D))) as Hm2 by by etransitivity.
  assert (∀ D' r, moved D' (damage_bar (damage D' r))) as Hd by (intros; etransitivity; apply moved_damage).
  split; [by etransitivity; [|apply Hd]|].
  apply (on_screen_moved (place_all (hide_all D) (placement D))).
  - apply Hd.
  - intros id. unfold damage_bar. by rewrite !win_damage.
  - unfold on_screen. rewrite (placement_moved _ _ Hm2), (mv_order _ _ Hm2). split; [done|].
    intros id Hid Hn. rewrite Ho by done. apply Hh; [done|by apply (wf_known _ Hwf)].
Qed.
