(* ===== verification/TileRun.v ===== *)
(** * ManiDE's desktop stays in order

    The invariant of the window manager and that every key, click, control
    message and closed window keeps it: the windows of the workspace in view
    tile the screen, and the focus is on one of them. *)
From S2P Require Import Prelude Abi Libc LibcNum LibcSort Events Tile TileLayout.

Local Open Scope Z_scope.

(** ** The invariant *)

(** What holds between any two steps. *)
Record desk_core (D : desktop) : Prop := {
  co_wf : desk_wf D;
  co_wfocus i s : wss D !! i = Some s → wfocus s ≠ 0 → wfocus s ∈ order D ∧ ws (win D (wfocus s)) = Z.of_nat i;
  co_ws id : id ∈ order D → 0 ≤ ws (win D id) < WORKSPACES;
  co_place : 0 ≤ place_ws D < WORKSPACES
}.

Record desk_ok (D : desktop) : Prop := {
  ok_core : desk_core D;
  ok_focus : focus D ≠ 0 → focus D ∈ view D;
  ok_screen : on_screen D
}.

Lemma core_moved D D' : moved D D' → desk_core D → desk_core D'.
Proof.
  intros Hm []. split; [by apply (wf_moved D)| | |by rewrite (mv_place _ _ Hm)].
  - intros i s. rewrite (mv_wss _ _ Hm), (mv_order _ _ Hm). setoid_rewrite (mv_ws _ _ Hm). apply co_wfocus0.
  - intros id. rewrite (mv_order _ _ Hm), (mv_ws _ _ Hm). apply co_ws0.
Qed.

Lemma ok_moved D D' : moved D D' → (∀ id, looks (win D id) (win D' id)) → desk_ok D → desk_ok D'.
Proof.
  intros Hm Hl [Hc Hf Hs]. split; [by apply (core_moved D)| |by apply (on_screen_moved D)].
  by rewrite (mv_focus _ _ Hm), (view_moved _ _ Hm).
Qed.

Lemma view_order D id : id ∈ view D → id ∈ order D.
Proof. intros H. by apply view_elem in H as [? _]. Qed.

Lemma retile_core D : desk_core D → (focus D ≠ 0 → focus D ∈ view D) → desk_ok (retile D).
Proof.
  intros Hc Hf. destruct (retile_ok D (co_wf _ Hc)) as [Hm Hs]; [intros; by apply view_order, Hf|].
  split; [by apply (core_moved D)|by rewrite (mv_focus _ _ Hm), (view_moved _ _ Hm)|done].
Qed.

(** ** Changing a workspace *)

Lemma wss_lookup D i : 0 ≤ i < WORKSPACES → length (wss D) = 9%nat → wss D !! Z.to_nat i = Some (workspace_of D i).
Proof.
  intros Hi Hl. unfold workspace_of, aget. rewrite (proj2 (Z.ltb_ge i 0)) by lia.
  destruct (lookup_lt_is_Some_2 (wss D) (Z.to_nat i)) as [s Es]; [lia|]. by rewrite Es.
Qed.

Lemma workspace_upd_eq D i f : 0 ≤ i < WORKSPACES → length (wss D) = 9%nat → workspace_of (upd_wss D i f) i = f (workspace_of D i).
Proof.
  intros Hi Hl. pose proof (wss_lookup D i Hi Hl) as E. unfold workspace_of at 1, aget. rewrite (proj2 (Z.ltb_ge i 0)) by lia.
  cbn [wss upd_wss set_wss]. by rewrite list_lookup_alter_eq, E.
Qed.

Lemma workspace_upd_ne D i j f : 0 ≤ i → 0 ≤ j → i ≠ j → workspace_of (upd_wss D i f) j = workspace_of D j.
Proof.
  intros Hi Hj Hne. unfold workspace_of, aget. rewrite (proj2 (Z.ltb_ge j 0)) by lia. cbn [wss upd_wss set_wss].
  by rewrite list_lookup_alter_ne by lia.
Qed.

Lemma wf_upd_wss D i f :
  desk_wf D → (∀ s, 20 ≤ master s ≤ 80 → 20 ≤ master (f s) ≤ 80) → desk_wf (upd_wss D i f).
Proof.
  intros [] Hm. split; try done; [|by cbn; rewrite length_alter]. intros s Hs. cbn in Hs.
  apply list_elem_of_lookup in Hs as [j Es]. destruct (decide (j = Z.to_nat i)) as [->|Hne].
  - rewrite list_lookup_alter_eq in Es. destruct (wss D !! Z.to_nat i) as [s'|] eqn:E'; [|done]. injection Es as <-.
    apply Hm, wf_master. by apply list_elem_of_lookup_2 in E'.
  - rewrite list_lookup_alter_ne in Es by done. apply wf_master. by apply list_elem_of_lookup_2 in Es.
Qed.

(** Changing the layout, the share and the focus of a workspace. *)
Lemma core_upd_wss D i f :
  desk_core D → 0 ≤ i < WORKSPACES → (∀ s, 20 ≤ master s ≤ 80 → 20 ≤ master (f s) ≤ 80) →
  (wfocus (f (workspace_of D i)) ≠ 0 →
   wfocus (f (workspace_of D i)) ∈ order D ∧ ws (win D (wfocus (f (workspace_of D i)))) = i) →
  desk_core (upd_wss D i f).
Proof.
  intros [Hwf Hw Hws Hp] Hi Hm Hf. split; [by apply wf_upd_wss|intros j s|done|done].
  cbn [wss upd_wss set_wss]. destruct (decide (j = Z.to_nat i)) as [->|Hne].
  - rewrite list_lookup_alter_eq, (wss_lookup D i Hi (wf_wss _ Hwf)). intros [= <-] Hne. destruct (Hf Hne) as [H1 H2].
    split; [done|]. change (ws (win D (wfocus (f (workspace_of D i)))) = Z.of_nat (Z.to_nat i)). lia.
  - rewrite list_lookup_alter_ne by done. apply Hw.
Qed.

(** ** Changing the focus *)

(** A focus event and the redrawing of the pane. *)
Definition announce D id e : desktop :=
  let D := post D id e in if shown (win D id) then damage D (pane (win D id)) else D.

Lemma announce_ok D id e : moved D (announce D id e) ∧ ∀ id', looks (win D id') (win (announce D id e) id').
Proof.
  unfold announce. cbn zeta. pose proof (looks_post D id e) as Hl. case_if; [|split; [apply moved_post|done]].
  split; [etransitivity; [apply moved_post|apply moved_damage]|]. intros id'. rewrite win_damage. apply Hl.
Qed.

(** The fields [set_focus] sets. *)
Definition refocus D w : desktop :=
  let D' := set_dfocus D w in
  if truth w then upd_wss D' (ws (win D w)) (λ s, Workspace (wlayout s) (master s) w) else D'.

Lemma moved_upd_wss D D' i f : moved D D' → moved (upd_wss D i f) (upd_wss D' i f).
Proof. intros []. split; try done. unfold upd_wss, set_wss. cbn. by f_equal. Qed.

Lemma set_focus_eq D w :
  focus D ≠ w → ∃ D3, moved (refocus D w) D3 ∧ (∀ id, looks (win D id) (win D3 id)) ∧
    set_focus D w = damage_bar (if bool_decide (wlayout (workspace_of D3 (dws D3)) = LAYOUT_MONO) then retile D3 else D3).
Proof.
  intros Hne. unfold set_focus. rewrite (proj2 (Z.eqb_neq _ _)) by done. cbn zeta. set (D0 := set_dfocus D w).
  assert (∃ D1, moved D0 D1 ∧ (∀ id, looks (win D id) (win D1 id)) ∧
    (if truth (focus D) then announce D0 (focus D) (EFocus false) else D0) = D1) as (D1 & Hm1 & Hl1 & E1).
  { case_if; eexists; (split_and!; [..|reflexivity]); [apply (announce_ok D0)|exact (proj2 (announce_ok D0 _ _))|done|done]. }
  unfold announce in E1. cbn zeta in E1. rewrite E1. unfold refocus. fold D0.
  assert (∀ id, looks (win D id) (win (if truth w then announce (upd_wss D1 (ws (win D1 w)) (λ s, Workspace (wlayout s) (master s) w)) w (EFocus true) else D1) id)
    ) as Hl.
  { intros id. case_if; [|done]. destruct (announce_ok (upd_wss D1 (ws (win D1 w)) (λ s, Workspace (wlayout s) (master s) w)) w (EFocus true)) as [_ H].
    destruct (H id) as [E2 E3], (Hl1 id) as [E4 E5]. split; [by rewrite E2|by rewrite E3]. }
  eexists. split_and!; [|exact Hl|reflexivity]. case_if; [|done].
  etransitivity; [apply (moved_upd_wss _ _ _ _ Hm1)|]. rewrite (mv_ws _ _ Hm1). apply announce_ok.
Qed.

Lemma core_refocus D w : desk_core D → w = 0 ∨ w ∈ view D → desk_core (refocus D w).
Proof.
  intros Hc Hw. unfold refocus. assert (desk_core (set_dfocus D w)) as H0 by (destruct Hc as [[] ? ? ?]; by split; [split|..]).
  case_if; [|done]. apply truth_true_iff in Heqb. destruct Hw as [|Hw]; [done|]. apply view_elem in Hw as [Ho Hws].
  apply core_upd_wss; [done|by apply (co_ws _ Hc)|done|]. done.
Qed.

Lemma refocus_same D w :
  focus (refocus D w) = w ∧ order (refocus D w) = order D ∧ dws (refocus D w) = dws D ∧ place_ws (refocus D w) = place_ws D ∧
  (∀ id, win (refocus D w) id = win D id) ∧ tiling_area (refocus D w) = tiling_area D.
Proof. unfold refocus. by case_if. Qed.

(** A workspace's layout and share are not changed by a change of focus. *)
Lemma refocus_layout D w i :
  0 ≤ i → (w ≠ 0 → 0 ≤ ws (win D w)) →
  wlayout (workspace_of (refocus D w) i) = wlayout (workspace_of D i) ∧ master (workspace_of (refocus D w) i) = master (workspace_of D i).
Proof.
  intros Hi Hw. unfold refocus. case_if; [|done]. apply truth_true_iff in Heqb. specialize (Hw Heqb).
  destruct (decide (ws (win D w) = i)) as [E|E]; [|by rewrite workspace_upd_ne].
  unfold workspace_of, aget. rewrite (proj2 (Z.ltb_ge i 0)) by lia. cbn [wss upd_wss set_wss set_dfocus]. rewrite E, list_lookup_alter_eq.
  by destruct (wss D !! Z.to_nat i).
Qed.

(** With one window in view it is placed, whatever has the focus. *)
Lemma single_view D x : view D = [x] → (focus D ≠ 0 → focus D ∈ view D) →
  (if truth (focus D) && (ws (win D (focus D)) =? dws D) then focus D else nth_win [x] 0) = x.
Proof.
  intros Hv Hf. case_if; [|done]. apply truth_true_iff in H. specialize (Hf H). rewrite Hv in Hf. by apply list_elem_of_singleton in Hf.
Qed.

Lemma view_same D D' : order D' = order D → dws D' = dws D → (∀ id, ws (win D' id) = ws (win D id)) → view D' = view D.
Proof. intros Ho Hd Hw. unfold view. rewrite Ho, Hd. apply list_filter_iff. intros id. by rewrite Hw. Qed.

(** The placement depends on the focus in the mono layout only. *)
Lemma placement_focus D D' :
  order D' = order D → dws D' = dws D → (∀ id, ws (win D' id) = ws (win D id)) → tiling_area D' = tiling_area D →
  wlayout (workspace_of D (dws D)) ≠ LAYOUT_MONO →
  wlayout (workspace_of D' (dws D)) = wlayout (workspace_of D (dws D)) →
  (wlayout (workspace_of D (dws D)) = LAYOUT_TALL → master (workspace_of D' (dws D)) = master (workspace_of D (dws D))) →
  (focus D ≠ 0 → focus D ∈ view D) → (focus D' ≠ 0 → focus D' ∈ view D') →
  placement D' = placement D.
Proof.
  intros Ho Hd Hw Ha Hmono Hl Hmaster Hf Hf'. pose proof (view_same D D' Ho Hd Hw) as Hv.
  pose proof (single_view D) as H1. pose proof (single_view D') as H2. unfold placement. cbn zeta.
  rewrite Hv, Ha, Hd, Hl in *. rewrite !(bool_decide_eq_false_2 (wlayout _ = LAYOUT_MONO)) by done. cbn [orb].
  destruct (Z.eqb_spec (Z.of_nat (length (view D))) 0); [done|]. destruct (Z.eqb_spec (Z.of_nat (length (view D))) 1) as [E1|E1].
  - destruct (view D) as [|x [|]] eqn:Ev; cbn [length] in E1; try lia. rewrite H1, H2 by done. done.
  - unfold layout_panes. rewrite Hl. case_bool_decide; [|done]. by rewrite Hmaster.
Qed.

Lemma moved_layout D D' i : moved D D' → workspace_of D' i = workspace_of D i.
Proof. intros H. unfold workspace_of. by rewrite (mv_wss _ _ H). Qed.

(** Outside the mono layout a change of focus leaves the screen as it is. *)
Lemma refocus_screen D w D3 :
  desk_core D → w = 0 ∨ w ∈ view D → moved (refocus D w) D3 → (∀ id, looks (win D id) (win D3 id)) →
  wlayout (workspace_of D3 (dws D3)) ≠ LAYOUT_MONO → (focus D ≠ 0 → focus D ∈ view D) → on_screen D → on_screen D3.
Proof.
  intros Hc Hw Hm Hl Hmono Hf [Hs1 Hs2]. pose proof (wf_dws _ (co_wf _ Hc)) as Hdws.
  destruct (refocus_same D w) as (Rf & Ro & Rd & Rp & Rw & Ra).
  assert (view (refocus D w) = view D) as Rv by (apply view_same; [done|done|intros; by rewrite Rw]).
  destruct (refocus_layout D w (dws D)) as [L1 L2]; [lia| |].
  { intros Hne. destruct Hw as [|Hw]; [done|]. apply view_elem in Hw as [_ ->]. lia. }
  rewrite (mv_dws _ _ Hm), Rd, (moved_layout _ _ _ Hm), L1 in Hmono.
  assert (placement D3 = placement D) as Ep.
  { apply placement_focus; rewrite ?(mv_order _ _ Hm), ?(mv_dws _ _ Hm), ?(moved_layout _ _ _ Hm), ?(area_moved _ _ Hm),
      ?(mv_focus _ _ Hm), ?(view_moved _ _ Hm), ?Rv, ?Rf; try done.
    - intros id. by rewrite (mv_ws _ _ Hm), Rw.
    - tauto. }
  unfold on_screen. rewrite Ep, (mv_order _ _ Hm), Ro. split.
  - intros id r Hin. destruct (Hl id) as [-> ->]. by apply Hs1.
  - intros id Ho Hn. destruct (Hl id) as [-> _]. by apply Hs2.
Qed.

Lemma set_focus_ok D w :
  desk_core D → w = 0 ∨ w ∈ view D →
  let D' := set_focus D w in
  desk_core D' ∧ focus D' = w ∧ view D' = view D ∧ order D' = order D ∧ dws D' = dws D ∧
  (∀ id, ws (win D' id) = ws (win D id)) ∧ ((focus D ≠ 0 → focus D ∈ view D) → on_screen D → on_screen D').
Proof.
  intros Hc Hw. cbn zeta. destruct (decide (focus D = w)) as [E|Hne].
  { unfold set_focus. rewrite (proj2 (Z.eqb_eq _ _)) by done. done. }
  destruct (set_focus_eq D w Hne) as (D3 & Hm & Hl & ->). pose proof (core_moved _ _ Hm (core_refocus D w Hc Hw)) as Hc3.
  destruct (refocus_same D w) as (Rf & Ro & Rd & Rp & Rw & Ra).
  assert (view (refocus D w) = view D) as Rv by (apply view_same; [done|done|intros; by rewrite Rw]).
  assert (focus D3 ≠ 0 → focus D3 ∈ view D3) as Hf3.
  { rewrite (mv_focus _ _ Hm), (view_moved _ _ Hm), Rf, Rv. tauto. }
  set (D4 := if bool_decide _ then retile D3 else D3).
  assert (moved D3 D4 ∧ ((focus D ≠ 0 → focus D ∈ view D) → on_screen D → on_screen D4)) as [Hm4 Hs4].
  { subst D4. case_bool_decide as Hmono.
    - destruct (retile_ok D3 (co_wf _ Hc3)) as [Hm4 Hs4]; [intros; by apply view_order, Hf3|]. done.
    - split; [done|]. intros Hf Hs. by apply (refocus_screen D w D3). }
  assert (moved (refocus D w) (damage_bar D4)) as Hm5.
  { etransitivity; [exact Hm|]. etransitivity; [exact Hm4|apply moved_damage]. }
  split_and!; [|by rewrite (mv_focus _ _ Hm5)|by rewrite (view_moved _ _ Hm5)|by rewrite (mv_order _ _ Hm5)|by rewrite (mv_dws _ _ Hm5)| |].
  - apply (core_moved D3); [|done]. etransitivity; [exact Hm4|apply moved_damage].
  - intros id. by rewrite (mv_ws _ _ Hm5), Rw.
  - intros Hf Hs. apply (on_screen_moved D4); [apply moved_damage|intros id; unfold damage_bar; by rewrite win_damage|by apply Hs4].
Qed.

(** ** The steps *)

Lemma focus_in_view D w : desk_ok D → w = 0 ∨ w ∈ view D → desk_ok (set_focus D w).
Proof.
  intros [Hc Hf Hs] Hw. destruct (set_focus_ok D w Hc Hw) as (Hc' & Ef & Ev & _ & _ & _ & Hs').
  split; [done|rewrite Ef, Ev; tauto|by apply Hs'].
Qed.

(** Placing everything anew after a change of focus. *)
Lemma focus_retile D w : desk_core D → w = 0 ∨ w ∈ view D →
  let D' := retile (set_focus D w) in
  desk_ok D' ∧ order D' = order D ∧ dws D' = dws D ∧ focus D' = w ∧ ∀ id, ws (win D' id) = ws (win D id).
Proof.
  intros Hc Hw. destruct (set_focus_ok D w Hc Hw) as (Hc' & Ef & Ev & Eo & Ed & Ew & _). cbn zeta.
  assert (focus (set_focus D w) ≠ 0 → focus (set_focus D w) ∈ view (set_focus D w)) as Hf by (rewrite Ef, Ev; tauto).
  split; [by apply retile_core|]. destruct (retile_ok (set_focus D w) (co_wf _ Hc')) as [Hm _]; [intros; by apply view_order, Hf|].
  rewrite (mv_order _ _ Hm), (mv_dws _ _ Hm), (mv_focus _ _ Hm). split_and!; [done|done|done|]. intros id. by rewrite (mv_ws _ _ Hm).
Qed.

Lemma index_of_ok D w : w ∈ order D → 0 ≤ index_of D w ∧ order D !! Z.to_nat (index_of D w) = Some w.
Proof.
  intros Hw. unfold index_of. destruct (list_find_elem_of (λ id, id = w) (order D) w Hw eq_refl) as [[i x] E]. rewrite E.
  apply list_find_Some in E as (E & -> & _). split; [lia|]. by rewrite Nat2Z.id.
Qed.

Lemma index_of_in D w : 0 ≤ index_of D w → w ∈ order D.
Proof.
  unfold index_of. destruct (list_find _ _) as [[i x]|] eqn:E; [|lia]. apply list_find_Some in E as (E & -> & _). intros _.
  by apply list_elem_of_lookup_2 in E.
Qed.

Lemma find_in {A} (f : A → bool) l x : List.find f l = Some x → x ∈ l ∧ f x = true.
Proof. intros E. apply find_some in E as [Hin Hf]. by apply list_elem_of_In in Hin. Qed.

(** The windows [step_from] visits. *)
Lemma step_index D w delta k :
  w ∈ order D → delta = 1 ∨ delta = -1 → 1 ≤ k →
  let count := Z.of_nat (length (order D)) in
  let i := Z.rem (index_of D w + delta * k + count * k) count in
  0 ≤ i < count ∧ i = (index_of D w + delta * k) mod count.
Proof.
  intros Hw Hd Hk. cbn zeta. destruct (index_of_ok D w Hw) as [H0 Hi]. apply lookup_lt_Some in Hi.
  set (count := Z.of_nat (length (order D))) in *. assert (0 < count) as Hc by (subst count; lia).
  rewrite Z.rem_mod_nonneg by (destruct Hd as [-> | ->]; nia). split; [by apply Z.mod_pos_bound|].
  rewrite (Z.mul_comm count k). by rewrite Z.mod_add by lia.
Qed.

Lemma aget_in {A} (d : A) l i : 0 ≤ i < Z.of_nat (length l) → aget d l i ∈ l ∧ l !! Z.to_nat i = Some (aget d l i).
Proof.
  intros Hi. unfold aget. rewrite (proj2 (Z.ltb_ge i 0)) by lia. destruct (lookup_lt_is_Some_2 l (Z.to_nat i)) as [x Ex]; [lia|].
  rewrite Ex. cbn. split; [by apply list_elem_of_lookup_2 in Ex|done].
Qed.

Lemma step_from_in D w delta :
  w ∈ order D → delta = 1 ∨ delta = -1 → step_from D w delta ∈ order D ∧ ws (win D (step_from D w delta)) = ws (win D w).
Proof.
  intros Hw Hd. unfold step_from. cbn zeta. destruct (List.find _ _) as [k|] eqn:E; [|done].
  apply find_in in E as [Hk Hws]. apply elem_of_seqZ in Hk. apply Z.eqb_eq in Hws. split; [|done].
  destruct (step_index D w delta k Hw Hd) as [Hi _]; [lia|]. by apply aget_in.
Qed.

Lemma focus_step_ok D delta : desk_ok D → delta = 1 ∨ delta = -1 → desk_ok (focus_step D delta).
Proof.
  intros Hok Hd. unfold focus_step. case_if; [|done]. apply truth_true_iff in Heqb.
  pose proof (ok_focus _ Hok Heqb) as Hf. apply view_elem in Hf as [Ho Hws].
  destruct (step_from_in D (focus D) delta Ho Hd) as [H1 H2]. apply focus_in_view; [done|]. right. apply view_elem. by rewrite H2.
Qed.

(** *** A window in view has the focus *)

Definition has_focus D : Prop := view D ≠ [] → focus D ≠ 0.

Lemma view_some D : view D ≠ [] ↔ ∃ id, id ∈ view D.
Proof.
  split; [intros Hv; destruct (view D) as [|id l]; [done|]; exists id; left|]. intros [id Hid] E. rewrite E in Hid. by apply elem_of_nil in Hid.
Qed.

Lemma view_nonzero D id : desk_core D → id ∈ view D → id ≠ 0.
Proof. intros Hc Hv ->. by apply (wf_zero _ (co_wf _ Hc)), view_order. Qed.

Lemma retile_has D : desk_core D → (focus D ≠ 0 → focus D ∈ view D) → has_focus D → has_focus (retile D).
Proof.
  intros Hc Hf Hh. destruct (retile_ok D (co_wf _ Hc)) as [Hm _]; [intros; by apply view_order, Hf|].
  unfold has_focus. by rewrite (view_moved _ _ Hm), (mv_focus _ _ Hm).
Qed.

Lemma focus_retile_has D w : desk_core D → w = 0 ∨ w ∈ view D → (view D ≠ [] → w ≠ 0) → has_focus (retile (set_focus D w)).
Proof.
  intros Hc Hw Hh. destruct (set_focus_ok D w Hc Hw) as (Hc' & Ef & Ev & _). apply retile_has; [done|rewrite Ef, Ev; tauto|].
  unfold has_focus. by rewrite Ef, Ev.
Qed.

Lemma set_focus_has D w : desk_core D → w ∈ view D → has_focus (set_focus D w).
Proof.
  intros Hc Hw. destruct (set_focus_ok D w Hc (or_intror Hw)) as (_ & Ef & _). unfold has_focus. rewrite Ef. intros _. by apply (view_nonzero D).
Qed.

(** [step_from] finds another window of the workspace when there is one. *)
Lemma step_from_other D w id :
  NoDup (order D) → w ∈ order D → id ∈ order D → id ≠ w → ws (win D id) = ws (win D w) → step_from D w (-1) ≠ w.
Proof.
  intros Hn Hw Hid Hne Hws. destruct (index_of_ok D w Hw) as [Hi Ei], (index_of_ok D id Hid) as [Hj Ej].
  pose proof (lookup_lt_Some _ _ _ Ei) as Li. pose proof (lookup_lt_Some _ _ _ Ej) as Lj.
  unfold step_from. cbn zeta. set (count := Z.of_nat (length (order D))) in *. set (i := index_of D w) in *. set (j := index_of D id) in *.
  assert (i ≠ j) as Hij by (intros E; apply Hne; congruence).
  assert (∀ k, 1 ≤ k < count → 0 ≤ (i - k) mod count < count ∧ Z.rem (i + -1 * k + count * k) count = (i - k) mod count ∧ (i - k) mod count ≠ i) as Hk.
  { intros k Hk. destruct (step_index D w (-1) k Hw) as [H1 H2]; [by right|lia|]. fold count i in H1, H2.
    split; [apply Z.mod_pos_bound; lia|]. split; [rewrite H2; f_equal; lia|]. intros E. pose proof (Z.div_mod (i - k) count ltac:(lia)) as E2. rewrite E in E2.
    set (q := (i - k) / count) in *. clear -Hk E2. destruct (Z.le_gt_cases 0 q); nia. }
  set (k0 := (i - j) mod count). assert (1 ≤ k0 < count ∧ (i - k0) mod count = j) as [Hk0 Ek0].
  { pose proof (Z.mod_pos_bound (i - j) count ltac:(lia)) as Hb. fold k0 in Hb. unfold k0 at 3. rewrite Zminus_mod_idemp_r.
    replace (i - (i - j)) with j by lia. rewrite Z.mod_small by lia. split; [|done]. split; [|lia].
    destruct (decide (k0 = 0)) as [E|]; [|lia]. exfalso. unfold k0 in E. apply Z.mod_divide in E as [q Eq]; [|lia].
    assert (i - j < count ∧ - count < i - j) by lia. clear -Hij Eq H Hb. destruct (Z.lt_trichotomy q 0) as [?|[->|?]]; nia. }
  assert (∀ k, 1 ≤ k < count → order D !! Z.to_nat ((i - k) mod count) = Some (aget 0 (order D) ((i - k) mod count))) as Hat.
  { intros k Hk'. apply aget_in. by apply Hk. }
  destruct (List.find _ _) as [k|] eqn:E.
  - apply find_in in E as [Hin _]. apply elem_of_seqZ in Hin. destruct (Hk k ltac:(lia)) as (H1 & H2 & H3). rewrite H2.
    intros Ew. specialize (Hat k ltac:(lia)). rewrite Ew in Hat. pose proof (NoDup_lookup _ _ _ _ Hn Hat Ei). lia.
  - exfalso. destruct (Hk k0 Hk0) as (_ & H2 & _). assert (k0 ∈ seqZ 1 (count - 1)) as Hin by (apply elem_of_seqZ; lia).
    apply list_elem_of_In, (find_none _ _ E) in Hin. apply Z.eqb_neq in Hin. rewrite H2, Ek0 in Hin.
    specialize (Hat k0 Hk0). rewrite Ek0, Ej in Hat. injection Hat as Ha. by rewrite <- Ha in Hin.
Qed.

(** *** The order *)

Lemma core_reorder D o : o ≡ₚ order D → desk_core D → desk_core (set_order D o).
Proof.
  intros Hp [[] Hw Hws Hpl]. assert (∀ id, id ∈ o ↔ id ∈ order D) as He by (intros; by rewrite Hp). split; [split|..]; cbn; try done.
  - by rewrite Hp.
  - intros id Hid. by apply wf_known, He.
  - by rewrite Hp.
  - by rewrite (Permutation_length Hp).
  - intros i s Es Hs. destruct (Hw i s Es Hs) as [H1 H2]. split; [by apply He|done].
  - intros id Hid. by apply (Hws id), He.
Qed.

Lemma exchange_Permutation {A} (l : list A) a b x y :
  l !! a = Some x → l !! b = Some y → <[b := x]> (<[a := y]> l) ≡ₚ l.
Proof.
  intros Ea Eb. pose proof (lookup_lt_Some _ _ _ Ea). pose proof (lookup_lt_Some _ _ _ Eb).
  assert (∀ i j x y, l !! i = Some x → l !! j = Some y → exchanged i j l = <[i := y]> (<[j := x]> l)) as Hs.
  { intros i j x' y' Ei Ej. unfold exchanged. by rewrite Ei, Ej. }
  destruct (Nat.lt_trichotomy a b) as [Hlt|[->|Hgt]].
  - rewrite list_insert_insert_ne by lia. rewrite <- (Hs a b x y Ea Eb). apply exchanged_Permutation; lia.
  - rewrite Ea in Eb. injection Eb as ->. by rewrite !list_insert_id by (rewrite ?list_lookup_insert_eq; done).
  - rewrite <- (Hs b a y x Eb Ea). apply exchanged_Permutation; lia.
Qed.

Lemma swap_step_ok D delta :
  desk_ok D → delta = 1 ∨ delta = -1 → desk_ok (swap_step D delta) ∧ (has_focus D → has_focus (swap_step D delta)).
Proof.
  intros [Hc Hf Hs] Hd. unfold swap_step. case_if; [|done]. apply truth_true_iff in Heqb. specialize (Hf Heqb) as Hv.
  apply view_elem in Hv as [Ho Hws]. destruct (step_from_in D (focus D) delta Ho Hd) as [H1 _]. cbn zeta.
  destruct (index_of_ok D _ Ho) as [Ha Ea], (index_of_ok D _ H1) as [Hb Eb]. set (other := step_from _ _ _) in *.
  assert (aset (aset (order D) (index_of D (focus D)) other) (index_of D other) (focus D) ≡ₚ order D) as Hp.
  { unfold aset. rewrite !(proj2 (Z.ltb_ge _ _)) by lia. by apply exchange_Permutation. }
  set (o := aset _ _ _) in *. assert (desk_core (set_order D o)) as Hc' by by apply core_reorder.
  assert (focus D ∈ view (set_order D o)) as Hv by (apply view_elem; split; [cbn; by rewrite Hp|done]).
  split; [by apply retile_core|]. intros Hh. apply retile_has; [done|done|]. intros _. done.
Qed.

(** *** Workspaces *)

Lemma workspace_focus_in D i :
  desk_core D → let f := workspace_focus D i in f = 0 ∨ f ∈ order D ∧ ws (win D f) = i.
Proof.
  intros Hc. cbn zeta. unfold workspace_focus. cbn zeta. case_if.
  - right. split; [by apply index_of_in|done].
  - destruct (List.find _ _) as [id|] eqn:E; [right|by left]. apply find_in in E as [Hin Hw]. apply Z.eqb_eq in Hw. done.
Qed.

Lemma workspace_focus_some D i : desk_core D → (∃ id, id ∈ order D ∧ ws (win D id) = i) → workspace_focus D i ≠ 0.
Proof.
  intros Hc (id & Ho & Hw). unfold workspace_focus. cbn zeta. case_if; [by apply truth_true_iff|].
  destruct (List.find _ _) as [id'|] eqn:E.
  - apply find_in in E as [Hin _]. cbn. intros ->. by apply (wf_zero _ (co_wf _ Hc)).
  - exfalso. apply list_elem_of_In in Ho. apply (find_none _ _ E) in Ho. apply Z.eqb_neq in Ho. done.
Qed.

Lemma core_set_ws D i p : desk_core D → 0 ≤ i < WORKSPACES → 0 ≤ p < WORKSPACES → desk_core (set_ws D i p).
Proof. intros [[] Hw Hws Hpl] Hi Hp. by split; [split|..]. Qed.

Lemma show_workspace_ok D i :
  desk_ok D → 0 ≤ i < WORKSPACES →
  let D' := show_workspace D i in
  desk_ok D' ∧ order D' = order D ∧ dws D' = i ∧ ∀ id, ws (win D' id) = ws (win D id).
Proof.
  intros [Hc Hf Hs] Hi. cbn zeta. unfold show_workspace. case_if; [done|]. cbn zeta.
  destruct (focus_retile (set_ws D i i) (workspace_focus (set_ws D i i) i)) as (H1 & H2 & H3 & _ & H4); [by apply core_set_ws| |done].
  destruct (workspace_focus_in (set_ws D i i) i) as [E|[Ho Hw]]; [by apply core_set_ws|by left|right]. by apply view_elem.
Qed.

Lemma top_ok D id : desk_ok D → id ∈ order D → desk_ok (set_focus (show_workspace D (ws (win D id))) id).
Proof.
  intros Hok Hid. destruct (show_workspace_ok D (ws (win D id)) Hok) as (H1 & H2 & H3 & H4); [by apply (co_ws _ (ok_core _ Hok))|].
  apply focus_in_view; [done|]. right. apply view_elem. by rewrite H2, H3, H4.
Qed.

(** Moving a window to another workspace. *)
Definition resend D w i : desktop :=
  upd D w (λ w, Window i (shown w) (pane w) (content w) (told_w w) (told_h w) (queue w)).

Lemma ws_resend D w i id : is_Some (windows D !! w) → ws (win (resend D w i) id) = if decide (id = w) then i else ws (win D id).
Proof.
  intros Hk. unfold resend. destruct (decide (id = w)) as [->|Hne]; [by rewrite win_upd_eq|by rewrite win_upd_ne].
Qed.

Lemma wf_resend D w i : desk_wf D → desk_wf (resend D w i).
Proof.
  intros []. split; try done. intros id Hid. unfold resend, upd. cbn. destruct (decide (w = id)) as [->|Hne].
  - rewrite lookup_alter_eq, fmap_is_Some. by apply wf_known.
  - rewrite lookup_alter_ne by done. by apply wf_known.
Qed.

(** The workspace a window leaves forgets it. *)
Lemma core_resend D w i :
  desk_core D → w ∈ order D → 0 ≤ i < WORKSPACES →
  let D1 := resend D w i in
  let from := ws (win D w) in
  desk_core (if wfocus (workspace_of D1 from) =? w then upd_wss D1 from (λ s, Workspace (wlayout s) (master s) 0) else D1).
Proof.
  intros Hc Hw Hi. cbn zeta. pose proof (co_wf _ Hc) as Hwf. pose proof (wf_known _ Hwf w Hw) as Hk.
  pose proof (co_ws _ Hc w Hw) as Hfrom. set (from := ws (win D w)) in *.
  change (workspace_of (resend D w i) from) with (workspace_of D from). set (f := λ s, Workspace (wlayout s) (master s) 0).
  set (D2 := if _ =? w then _ else _).
  assert (order D2 = order D ∧ place_ws D2 = place_ws D ∧ ∀ id, win D2 id = win (resend D w i) id) as (Eo & Ep & Ew)
    by (subst D2; by case_if).
  assert (∀ j s, wss D2 !! j = Some s → wfocus s ≠ 0 → wss D !! j = Some s ∧ wfocus s ≠ w) as Hkey.
  { intros j s Es Hne. subst D2. assert (∀ s', wss D !! j = Some s' → wfocus s' = w → j = Z.to_nat from) as Hj.
    { intros s' Es' E. destruct (co_wfocus _ Hc j s' Es') as [_ E2]; [rewrite E; intros ->; by apply (wf_zero _ Hwf)|].
      rewrite E in E2. fold from in E2. lia. }
    pose proof (wss_lookup D from Hfrom (wf_wss _ Hwf)) as El.
    destruct (Z.eqb_spec (wfocus (workspace_of D from)) w) as [E0|E0].
    - cbn in Es. destruct (decide (j = Z.to_nat from)) as [->|Hjn].
      + rewrite list_lookup_alter_eq, El in Es. injection Es as <-. done.
      + rewrite list_lookup_alter_ne in Es by done. split; [done|]. intros E. by apply Hjn, (Hj s).
    - change (wss D !! j = Some s) in Es. split; [done|]. intros E. rewrite (Hj s Es E), El in Es. injection Es as <-. done. }
  split.
  - subst D2. pose proof (wf_resend D w i Hwf) as Hr. case_if; [by apply wf_upd_wss|done].
  - intros j s Es Hne. destruct (Hkey j s Es Hne) as [Es' Hnw]. rewrite Eo, Ew, ws_resend, decide_False by done. by apply (co_wfocus _ Hc).
  - intros id. rewrite Eo, Ew, ws_resend by done. intros Hid. case_decide; [done|]. by apply (co_ws _ Hc).
  - rewrite Ep. apply Hc.
Qed.

Lemma send_to_workspace_ok D w i :
  desk_ok D → w ∈ order D → 0 ≤ i < WORKSPACES →
  desk_ok (send_to_workspace D w i) ∧ (i ≠ dws D → has_focus D → has_focus (send_to_workspace D w i)).
Proof.
  intros [Hc Hf Hs] Hw Hi. unfold send_to_workspace. case_if; [done|]. cbn zeta. fold (resend D w i).
  pose proof (wf_known _ (co_wf _ Hc) w Hw) as Hk. pose proof (core_resend D w i Hc Hw Hi) as Hc2. cbn zeta in Hc2.
  set (D2 := if wfocus (workspace_of (resend D w i) (ws (win D w))) =? w then _ else _) in *.
  assert (order D2 = order D ∧ dws D2 = dws D ∧ focus D2 = focus D ∧ ∀ id, win D2 id = win (resend D w i) id) as (Eo & Ed & Ef & Ew)
    by (subst D2; by case_if).
  set (D3 := if wfocus (workspace_of D2 i) =? 0 then _ else _).
  assert (order D3 = order D ∧ dws D3 = dws D ∧ focus D3 = focus D ∧ ∀ id, win D3 id = win (resend D w i) id) as (Eo3 & Ed3 & Ef3 & Ew3)
    by (subst D3; by case_if).
  assert (desk_core D3) as Hc3.
  { subst D3. case_if; [|done]. apply core_upd_wss; [done|done|done|]. cbn. intros _. rewrite Eo, Ew, ws_resend, decide_True by done. done. }
  case_if.
  - assert (workspace_focus D3 (dws D3) = 0 ∨ workspace_focus D3 (dws D3) ∈ view D3) as Hfo.
    { destruct (workspace_focus_in D3 (dws D3) Hc3) as [E|[H1 H2]]; [by left|right]. by apply view_elem. }
    split; [by apply focus_retile|]. intros _ _. apply focus_retile_has; [done|done|]. intros Hv.
    apply view_some in Hv as [id Hid]. apply view_elem in Hid. apply workspace_focus_some; [done|by exists id].
  - assert (focus D3 ≠ 0 → focus D3 ∈ view D3) as Hf3.
    { rewrite Ef3. intros Hne. specialize (Hf Hne). apply view_elem in Hf as [H1 H2].
      apply view_elem. rewrite Eo3, Ed3, Ew3, ws_resend, decide_False by (done || congruence). done. }
    split; [by apply retile_core|]. intros Hid Hh. apply retile_has; [done|done|]. intros Hv. rewrite Ef3. apply Hh.
    apply view_some in Hv as [id Hin]. apply view_elem in Hin as [H1 H2]. rewrite Ew3, ws_resend in H2 by done. rewrite Eo3 in H1.
    rewrite Ed3 in H2. apply view_some. exists id. apply view_elem. case_decide; [congruence|done].
Qed.

(** *** Layouts *)

Lemma next_layout_ok D : desk_ok D → desk_ok (next_layout D) ∧ (has_focus D → has_focus (next_layout D)).
Proof.
  intros [Hc Hf Hs]. unfold next_layout. pose proof (wf_dws _ (co_wf _ Hc)) as Hd.
  pose proof (wss_lookup D (dws D) Hd (wf_wss _ (co_wf _ Hc))) as El.
  set (f := λ s, Workspace _ _ _). assert (desk_core (upd_wss D (dws D) f)) as Hc'.
  { apply core_upd_wss; [done|done|done|]. cbn. intros Hne. destruct (co_wfocus _ Hc _ _ El Hne) as [H1 H2]. split; [done|lia]. }
  split; [by apply retile_core|]. intros Hh. by apply retile_has.
Qed.

Lemma grow_master_ok D delta : desk_ok D → desk_ok (grow_master D delta) ∧ (has_focus D → has_focus (grow_master D delta)).
Proof.
  intros [Hc Hf Hs]. unfold grow_master. cbn zeta. pose proof (wf_dws _ (co_wf _ Hc)) as Hd. pose proof (wf_wss _ (co_wf _ Hc)) as Hl.
  pose proof (wss_lookup D (dws D) Hd Hl) as El. set (f := λ s, Workspace _ _ _). set (D' := upd_wss D (dws D) f).
  assert (desk_core D') as Hc'.
  { apply core_upd_wss; [done|done| |].
    - intros s Hm. cbn. rewrite Z.gtb_ltb. repeat case_if; lia.
    - cbn. intros Hne. destruct (co_wfocus _ Hc _ _ El Hne) as [H1 H2]. split; [done|lia]. }
  case_bool_decide as Ht; [by split; [apply retile_core|intros Hh; apply retile_has]|]. split; [split; [done|done|]|done].
  assert (workspace_of D' (dws D) = f (workspace_of D (dws D))) as Ew by by apply workspace_upd_eq.
  change (dws D') with (dws D) in Ht. rewrite Ew in Ht. cbn in Ht.
  assert (placement D' = placement D) as Ep; [|unfold on_screen; by rewrite Ep].
  destruct (decide (wlayout (workspace_of D (dws D)) = LAYOUT_MONO)) as [Hm|Hm].
  - unfold placement. cbn zeta. change (dws D') with (dws D). rewrite Ew. cbn [wlayout f].
    rewrite (bool_decide_eq_true_2 (wlayout _ = LAYOUT_MONO)) by done. done.
  - apply placement_focus; rewrite ?Ew; done.
Qed.

(** *** Windows that come and go *)

Definition enter D id (w : window) : desktop :=
  let D := set_windows D (<[id := Window (place_ws D) (shown w) (pane w) (content w) (told_w w) (told_h w) (queue w)]> (windows D)) in
  set_order D (order D ++ [id]).

Lemma win_enter D id w id' :
  win (enter D id w) id' =
  if decide (id' = id) then Window (place_ws D) (shown w) (pane w) (content w) (told_w w) (told_h w) (queue w) else win D id'.
Proof. unfold enter, win. cbn. case_decide as E; [by rewrite E, lookup_insert_eq|by rewrite lookup_insert_ne]. Qed.

Lemma core_enter D id w :
  desk_core D → id ≠ 0 → (id ∉ order D) → (length (order D) < 16)%nat → desk_core (enter D id w).
Proof.
  intros Hc H0 Hid Hl. destruct (co_wf _ Hc). split; [split|..]; try done.
  - cbn. apply NoDup_app. split_and!; [done| |apply NoDup_singleton]. intros x Hx Hin. by apply list_elem_of_singleton in Hin as ->.
  - intros id' Hin. cbn in *. destruct (decide (id = id')) as [->|Hne]; [rewrite lookup_insert_eq; by eexists|].
    rewrite lookup_insert_ne by done. apply wf_known. apply elem_of_app in Hin as [?|Hin]; [done|]. by apply list_elem_of_singleton in Hin.
  - cbn. rewrite elem_of_app, list_elem_of_singleton. intros [?|?]; [done|congruence].
  - cbn. rewrite length_app. cbn. lia.
  - intros i s Es Hs. destruct (co_wfocus _ Hc i s Es Hs) as [H1 H2]. rewrite win_enter. rewrite decide_False by congruence.
    split; [apply elem_of_app; by left|done].
  - intros id' Hin. rewrite win_enter. case_decide; [apply (co_place _ Hc)|]. apply (co_ws _ Hc).
    apply elem_of_app in Hin as [?|Hin]; [done|]. by apply list_elem_of_singleton in Hin.
  - apply (co_place _ Hc).
Qed.

Lemma add_window_ok D id w :
  desk_ok D → id ≠ 0 → (id ∉ order D) → (length (order D) < 16)%nat → desk_ok (add_window D id w).
Proof.
  intros [Hc Hf Hs] H0 Hid Hl. pose proof (core_enter D id w Hc H0 Hid Hl) as Hc1. unfold add_window. cbn zeta. fold (enter D id w).
  set (D1 := enter D id w) in *. assert (id ∈ order D1) as Hin by (apply elem_of_app; right; by apply list_elem_of_singleton).
  assert (ws (win D1 id) = place_ws D) as Hw by (unfold D1; by rewrite win_enter, decide_True).
  change (place_ws D1) with (place_ws D). change (dws D1) with (dws D). case_if.
  - apply focus_retile; [done|right]. apply view_elem. split; [done|]. rewrite Hw. done.
  - assert (focus D ≠ 0 → focus D ∈ view D1) as Hf1.
    { intros Hne. specialize (Hf Hne). apply view_elem in Hf as [H1 H2]. apply view_elem. split; [apply elem_of_app; by left|].
      unfold D1. rewrite win_enter, decide_False by congruence. done. }
    case_if; apply retile_core; try done. apply core_upd_wss; [done|apply (co_place _ Hc)|done|]. done.
Qed.

Lemma remove_order (l : list Z) i w :
  NoDup l → l !! i = Some w → w :: take i l ++ drop (S i) l ≡ₚ l ∧ NoDup (take i l ++ drop (S i) l) ∧
  ∀ x, x ∈ take i l ++ drop (S i) l ↔ x ∈ l ∧ x ≠ w.
Proof.
  intros Hn E. assert (w :: take i l ++ drop (S i) l ≡ₚ l) as Hp.
  { rewrite <- (take_drop_middle l i w E) at 3. by rewrite Permutation_middle. }
  rewrite <- Hp in Hn. apply NoDup_cons in Hn as [Hw Hn]. split_and!; [done|done|]. intros x. rewrite <- Hp at 3. rewrite elem_of_cons. split.
  - intros Hx. split; [by right|]. by intros ->.
  - intros [[->|Hx] Hne]; done.
Qed.

(** The workspace of a closed window remembers the next one instead. *)
Lemma core_leave D w next o :
  desk_core D → w ∈ order D → NoDup o → (∀ x, x ∈ o ↔ x ∈ order D ∧ x ≠ w) → (length o ≤ 16)%nat →
  next = 0 ∨ next ∈ o ∧ ws (win D next) = ws (win D w) →
  let D1 := set_order D o in
  desk_core (if wfocus (workspace_of D1 (ws (win D1 w))) =? w
             then upd_wss D1 (ws (win D1 w)) (λ s, Workspace (wlayout s) (master s) next) else D1).
Proof.
  intros Hc Hw Hn Ho Hl Hnext. cbn zeta. pose proof (co_wf _ Hc) as Hwf. pose proof (co_ws _ Hc w Hw) as Hfrom.
  change (win (set_order D o) w) with (win D w). set (from := ws (win D w)) in *.
  change (workspace_of (set_order D o) from) with (workspace_of D from).
  pose proof (wss_lookup D from Hfrom (wf_wss _ Hwf)) as El.
  assert (desk_wf (set_order D o)) as Hwf1.
  { destruct Hwf. split; try done; cbn; intros; [by apply wf_known, Ho|by rewrite Ho; intros [? _]]. }
  assert (∀ j s, wss D !! j = Some s → wfocus s ≠ 0 → j ≠ Z.to_nat from ∨ wfocus s ≠ w → wfocus s ∈ o ∧ ws (win D (wfocus s)) = Z.of_nat j) as Hkeep.
  { intros j s Es Hs Hne. destruct (co_wfocus _ Hc j s Es Hs) as [H1 H2]. split; [|done]. apply Ho. split; [done|].
    intros E. rewrite E in H2. fold from in H2. lia. }
  assert (∀ id, id ∈ o → 0 ≤ ws (win D id) < WORKSPACES) as Hws by (intros id Hid; by apply (co_ws _ Hc), Ho).
  destruct (Z.eqb_spec (wfocus (workspace_of D from)) w) as [E|E].
  - split; [by apply wf_upd_wss| |done|apply Hc]. intros j s Es Hs. cbn in Es. destruct (decide (j = Z.to_nat from)) as [->|Hj].
    + rewrite list_lookup_alter_eq, El in Es. injection Es as <-. cbn [wfocus] in *. destruct Hnext as [|[H1 H2]]; [done|].
      split; [done|]. change (ws (win D next) = Z.of_nat (Z.to_nat from)). rewrite H2. fold from. lia.
    + rewrite list_lookup_alter_ne in Es by done. apply Hkeep; [done|done|by left].
  - split; [done| |done|apply Hc]. intros j s Es Hs. apply Hkeep; [done|done|].
    destruct (decide (j = Z.to_nat from)) as [->|]; [right|by left]. cbn in Es. rewrite El in Es. injection Es as <-. done.
Qed.

(** The window the focus passes to when [w] goes: another of its workspace,
    and one if there is one. *)
Lemma heir_ok D w :
  desk_wf D → w ∈ order D →
  let n0 := if Z.of_nat (length (order D)) >? 1 then step_from D w (-1) else 0 in
  let next := if (n0 =? w) || (truth n0 && negb (ws (win D n0) =? ws (win D w))) then 0 else n0 in
  (next = 0 ∨ (next ∈ order D ∧ next ≠ w) ∧ ws (win D next) = ws (win D w)) ∧
  ∀ id, id ∈ order D → id ≠ w → ws (win D id) = ws (win D w) → next ≠ 0.
Proof.
  intros Hwf Hw n0 next. destruct (step_from_in D w (-1) Hw ltac:(by right)) as [S1 S2]. split.
  - subst next. case_if; [by left|]. subst n0. rewrite Z.gtb_ltb in *. destruct (1 <? _); [|by left]. zbool. by right.
  - intros id Hid Hne Hws. pose proof (step_from_other D w id (wf_nodup _ Hwf) Hw Hid Hne Hws) as Hso. subst next n0.
    assert (1 < length (order D))%nat as Hl.
    { destruct (order D) as [|x [|y l]]; [by apply elem_of_nil in Hid| |cbn; lia]. apply list_elem_of_singleton in Hid, Hw. congruence. }
    rewrite Z.gtb_ltb, (proj2 (Z.ltb_lt 1 _)) by lia.
    rewrite (proj2 (Z.eqb_neq _ _) Hso), (proj2 (Z.eqb_eq _ _) S2), andb_false_r. cbn. intros E. apply (wf_zero _ Hwf). by rewrite <- E.
Qed.

Lemma remove_window_ok D w :
  desk_ok D → w ∈ order D →
  desk_ok (remove_window D w) ∧ (w ∉ order (remove_window D w)) ∧ (has_focus D → has_focus (remove_window D w)).
Proof.
  intros [Hc Hf Hs] Hw. unfold remove_window. cbn zeta. destruct (index_of_ok D w Hw) as [Hi Ei].
  replace (Z.to_nat (index_of D w + 1)) with (S (Z.to_nat (index_of D w))) by lia.
  destruct (remove_order (order D) (Z.to_nat (index_of D w)) w (wf_nodup _ (co_wf _ Hc)) Ei) as (Hp & Hn & Ho).
  set (o := take _ _ ++ drop _ _) in *. apply Permutation_length in Hp. cbn [length] in Hp. pose proof (wf_count _ (co_wf _ Hc)) as Hl.
  destruct (heir_ok D w (co_wf _ Hc) Hw) as [Hnext next_some].
  change (win (set_order D o)) with (win D). set (next := if (_ =? w) || _ then 0 else _) in *.
  assert (next = 0 ∨ next ∈ o ∧ ws (win D next) = ws (win D w)) as Hnext' by (rewrite Ho; tauto). clear Hnext; rename Hnext' into Hnext.
  assert (focus D = w → ws (win D w) = dws D) as Hfw.
  { intros <-. destruct (decide (focus D = 0)) as [E0|E0]; [|by specialize (Hf E0); apply view_elem in Hf as [_ <-]].
    exfalso. apply (wf_zero _ (co_wf _ Hc)). by rewrite <- E0. }
  pose proof (core_leave D w next o Hc Hw Hn Ho ltac:(lia) Hnext) as Hc2. cbn zeta in Hc2.
  set (D2 := if wfocus _ =? w then _ else _) in *.
  assert (order D2 = o ∧ focus D2 = focus D ∧ dws D2 = dws D ∧ ∀ id, win D2 id = win D id) as (Eo & Ef & Ed & Ew) by (subst D2; by case_if).
  rewrite Ef. case_if.
  - assert (next = 0 ∨ next ∈ view (set_dfocus D2 0)) as Hv.
    { destruct Hnext as [|[H1 H2]]; [by left|right]. apply view_elem. cbn. rewrite Eo, Ed. split; [done|].
      change (ws (win D2 next) = dws D). rewrite Ew, H2. by apply Hfw. }
    assert (desk_core (set_dfocus D2 0)) as Hc3 by (destruct Hc2 as [[] ? ? ?]; by split; [split|..]).
    destruct (focus_retile (set_dfocus D2 0) next) as (H1 & H2 & _); [done|done|].
    split; [done|]. split; [rewrite H2; cbn; rewrite Eo, Ho; by intros [_ ?]|].
    intros _. apply focus_retile_has; [done|done|]. intros Hne. apply view_some in Hne as [id Hin]. apply view_elem in Hin as [I1 I2].
    cbn in I1, I2. change (ws (win D2 id) = dws D2) in I2. rewrite Eo, Ho in I1. rewrite Ew, Ed in I2. apply (next_some id); [tauto|tauto|]. by rewrite Hfw.
  - assert (focus D2 ≠ 0 → focus D2 ∈ view D2) as Hf2.
    { rewrite Ef. intros Hne. specialize (Hf Hne). apply view_elem in Hf as [H1 H2]. apply view_elem. rewrite Eo, Ed, Ew, Ho. done. }
    destruct (retile_ok D2 (co_wf _ Hc2)) as [Hm _]; [intros; by apply view_order, Hf2|]. split; [by apply retile_core|].
    split; [rewrite (mv_order _ _ Hm), Eo, Ho; by intros [_ ?]|]. intros Hh. apply retile_has; [done|done|]. intros Hv. rewrite Ef. apply Hh.
    apply view_some in Hv as [id Hin]. apply view_elem in Hin as [H1 H2]. rewrite Eo, Ho in H1. rewrite Ew, Ed in H2.
    apply view_some. exists id. apply view_elem. tauto.
Qed.

Lemma filter_iff_in {A} (P Q : A → Prop) `{!∀ x, Decision (P x), !∀ x, Decision (Q x)} (l : list A) :
  (∀ x, x ∈ l → P x ↔ Q x) → base.filter P l = base.filter Q l.
Proof.
  induction l as [|x l IH]; intros Hl; [done|]. rewrite !filter_cons, IH by (intros; apply Hl; by right).
  specialize (Hl x ltac:(left)). repeat case_decide; tauto.
Qed.

(** A closed window's memory is freed. *)
Lemma forget_ok D id :
  desk_ok D → (id ∉ order D) →
  let D' := set_windows D (delete id (windows D)) in desk_ok D' ∧ (has_focus D → has_focus D').
Proof.
  intros [Hc Hf Hs] Hid D'.
  assert (∀ id', id' ∈ order D → win D' id' = win D id') as Ew.
  { intros id' Hin. unfold win. cbn. rewrite lookup_delete_ne; [done|]. by intros ->. }
  assert (view D' = view D) as Ev.
  { unfold view. apply filter_iff_in. intros id' Hin. by rewrite (Ew id' Hin). }
  assert (focus D ≠ 0 → win D' (focus D) = win D (focus D)) as Efo by (intros; by apply Ew, view_order, Hf).
  assert (placement D' = placement D) as Ep.
  { unfold placement. cbn zeta. rewrite Ev. change (focus D') with (focus D). change (dws D') with (dws D).
    change (tiling_area D') with (tiling_area D). change (workspace_of D' (dws D)) with (workspace_of D (dws D)).
    destruct (decide (focus D = 0)) as [->|E]; [done|]. by rewrite (Efo E). }
  split; [split; [|by rewrite Ev|]|unfold has_focus; by rewrite Ev].
  - destruct (co_wf _ Hc). split; [split|..]; try done; try apply Hc.
    + intros id' Hin. cbn. rewrite lookup_delete_ne by (by intros ->). by apply wf_known.
    + intros i s Es Hne. destruct (co_wfocus _ Hc i s Es Hne) as [H1 H2]. by rewrite (Ew _ H1).
    + intros id' Hin. rewrite (Ew _ Hin). by apply (co_ws _ Hc).
  - destruct (placement_ok D (co_wf _ Hc)) as (_ & Hin & _); [intros; by apply view_order, Hf|].
    destruct Hs as [H1 H2]. unfold on_screen. rewrite Ep. split.
    + intros id' r Hp. rewrite Ew; [by apply H1|]. apply view_order, Hin, list_elem_of_fmap. by exists (id', r).
    + intros id' Ho Hn. rewrite Ew by done. by apply H2.
Qed.

(** Only placed windows are shown. *)
Lemma shown_placed D id : desk_ok D → id ∈ order D → shown (win D id) = true → id ∈ (placement D).*1.
Proof.
  intros [Hc Hf [H1 H2]] Ho Hs. destruct (decide (id ∈ (placement D).*1)) as [|Hn]; [done|]. rewrite H2 in Hs by done. done.
Qed.

Lemma placed_view D id : desk_ok D → id ∈ (placement D).*1 → id ∈ view D.
Proof. intros [Hc Hf _]. apply (placement_ok D (co_wf _ Hc)). intros; by apply view_order, Hf. Qed.

Lemma desk_post_ok D id e : desk_ok D → desk_ok (post D id e) ∧ (has_focus D → has_focus (post D id e)).
Proof.
  intros Hok. pose proof (moved_post D id e) as Hm. split; [apply (ok_moved D); [done|apply looks_post|done]|].
  unfold has_focus. by rewrite (view_moved _ _ Hm), (mv_focus _ _ Hm).
Qed.

Lemma handle_key_ok D e : desk_ok D → desk_ok (handle_key D e) ∧ (has_focus D → has_focus (handle_key D e)).
Proof. intros Hok. unfold handle_key. case_if; [by apply desk_post_ok|done]. Qed.

Lemma click_ok D x y : desk_ok D → desk_ok (click D x y) ∧ (has_focus D → has_focus (click D x y)).
Proof.
  intros Hok. unfold click. cbn zeta. case_if; [|done]. apply truth_true_iff in Heqb.
  assert (window_at D x y ∈ view D) as Hv.
  { revert Heqb. unfold window_at. destruct (List.find _ _) as [id|] eqn:E; [|done]. intros _. apply find_in in E as [Hin Hs]. zbool.
    by apply placed_view, shown_placed. }
  pose proof (focus_in_view D _ Hok (or_intror Hv)) as Hok'. pose proof (set_focus_has D _ (ok_core _ Hok) Hv) as Hh.
  case_if; [|done]. destruct (desk_post_ok _ (window_at D x y) EClose Hok') as [H1 H2]. split; [done|]. intros _. by apply H2.
Qed.

(** ** Every desktop *)

Definition desk_start (w h : Z) : desktop := Desktop w h ∅ [] 0 0 0 (replicate 9 (Workspace LAYOUT_GRID 55 0)) no_rect.

(** The actions there can be: windows are numbered as they come and at most
    16; the others name a window there is and a workspace there is. *)
Definition allowed D (a : action) : Prop :=
  match a with
  | ANew id _ => id ≠ 0 ∧ (id ∉ order D) ∧ (length (order D) < 16)%nat
  | AClose id | ATop id => id ∈ order D
  | AShow i | ASession i => 0 ≤ i < WORKSPACES
  | ASend id i => id ∈ order D ∧ 0 ≤ i < WORKSPACES
  | AFocusStep d | ASwapStep d => d = 1 ∨ d = -1
  | ALayout | AMaster _ | AClick _ _ | AKey _ _ | AAskClose => True
  end.

#[export] Instance allowed_dec D a : Decision (allowed D a).
Proof. destruct a; cbn; apply _. Defined.

Inductive reachable (w h : Z) : desktop → Prop :=
| reach_start : reachable w h (desk_start w h)
| reach_act D a : reachable w h D → allowed D a → reachable w h (act D a).

Lemma act_ok D a : desk_ok D → allowed D a → desk_ok (act D a).
Proof.
  intros Hok Ha. destruct a; cbn [act allowed] in *.
  - apply add_window_ok; tauto.
  - destruct (remove_window_ok D id Hok Ha) as (H1 & H2 & _). by apply forget_ok.
  - by apply show_workspace_ok.
  - apply send_to_workspace_ok; tauto.
  - by apply focus_step_ok.
  - by apply swap_step_ok.
  - by apply next_layout_ok.
  - by apply grow_master_ok.
  - by apply click_ok.
  - by apply handle_key_ok.
  - by apply handle_key_ok.
  - by apply top_ok.
  - destruct Hok as [Hc Hf Hs]. split; [|done|done]. apply core_set_ws; [done|apply (co_wf _ Hc)|done].
Qed.

Lemma start_ok w h : 640 ≤ w → 480 ≤ h → desk_ok (desk_start w h).
Proof.
  intros Hw Hh. split; [split; [split|..]|done|split; [intros id r H|intros id H _]; by apply elem_of_nil in H]; try done; try (by intros id H; apply elem_of_nil in H).
  - apply NoDup_nil_2.
  - apply not_elem_of_nil.
  - cbn. lia.
  - intros s Hs. apply elem_of_replicate in Hs as [-> _]. cbn. lia.
  - intros i s Es Hs. apply lookup_replicate in Es as [-> _]. done.
Qed.

Lemma desk_reachable_ok w h D : 640 ≤ w → 480 ≤ h → reachable w h D → desk_ok D.
Proof. intros Hw Hh. induction 1 as [|D a _ IH Ha]; [by apply start_ok|by apply act_ok]. Qed.

(** ** What the user sees *)

Definition shown_windows D : list Z := base.filter (λ id, shown (win D id) = true) (order D).

Lemma shown_placement D : desk_ok D → shown_windows D ≡ₚ (placement D).*1.
Proof.
  intros Hok. pose proof Hok as [Hc Hf [H1 H2]].
  destruct (placement_ok D (co_wf _ Hc)) as (Hn & Hin & _); [intros; by apply view_order, Hf|].
  apply NoDup_Permutation; [apply NoDup_filter, (co_wf _ Hc)|done|]. intros id. unfold shown_windows. rewrite list_elem_of_filter. split.
  - intros [Hs Ho]. by apply shown_placed.
  - intros Hp. split; [|by apply view_order, Hin]. apply list_elem_of_fmap in Hp as ([id' r] & -> & Hp). by apply (H1 id' r).
Qed.

Lemma apart_sym r s : apart r s → apart s r.
Proof. unfold apart. lia. Qed.

Lemma tiles_Permutation a l l' : l ≡ₚ l' → tiles a l → tiles a l'.
Proof.
  intros Hp [H1 H2 H3]. split; [by rewrite <- Hp| |].
  - clear H1 H3. induction Hp as [|x l l' Hp IH|x y l|l1 l2 l3 _ IH1 _ IH2]; cbn in *; [done| | |tauto].
    + split; [rewrite <- Hp; tauto|tauto].
    + destruct H2 as ([H12 H1]%Forall_cons & H2 & H3). split_and!; [|done|done]. apply Forall_cons. split; [by apply apart_sym|done].
  - rewrite <- H3. clear -Hp. induction Hp; cbn; lia.
Qed.

(** The panes of the windows shown are those of the placement. *)
Lemma shown_panes D : desk_ok D → (λ id, pane (win D id)) <$> shown_windows D ≡ₚ (placement D).*2.
Proof.
  intros Hok. rewrite (shown_placement D Hok). destruct Hok as [_ _ [H1 _]].
  assert (((λ id, pane (win D id)) <$> (placement D).*1) = (placement D).*2) as ->; [|done].
  rewrite <- list_fmap_compose. apply list_fmap_ext. intros i [id r] E. apply list_elem_of_lookup_2 in E. cbn. by apply H1.
Qed.

Lemma focus_shown D : desk_ok D → focus D ≠ 0 → focus D ∈ shown_windows D.
Proof.
  intros Hok Hne. pose proof (ok_focus _ Hok Hne) as Hv. rewrite (shown_placement D Hok).
  destruct (decide (wlayout (workspace_of D (dws D)) = LAYOUT_MONO)) as [Hm|Hm].
  - unfold placement. cbn zeta. apply view_elem in Hv as Hw. destruct Hw as [_ Hw].
    destruct (Z.eqb_spec (Z.of_nat (length (view D))) 0); [destruct (view D); [by apply elem_of_nil in Hv|cbn in *; lia]|].
    rewrite (bool_decide_eq_true_2 (wlayout _ = LAYOUT_MONO)) by done. cbn [orb].
    rewrite (truth_nonzero _ Hne), (proj2 (Z.eqb_eq _ _) Hw). cbn. by apply list_elem_of_singleton.
  - destruct (placement_ok D (co_wf _ (ok_core _ Hok))) as (_ & _ & _ & H); [intros; by apply view_order, (ok_focus _ Hok)|].
    by rewrite (H Hm).
Qed.

(** A point is in one pane at most. *)
Lemma apart_point r s x y : apart r s → gfx_contains r x y = true → gfx_contains s x y = true → False.
Proof. unfold apart, gfx_contains. intros H1 H2 H3. zbool. lia. Qed.

Lemma pairwise_elem {A B} (R : B → B → Prop) (f : A → B) l x y :
  pairwise R (f <$> l) → (∀ a b, R a b → R b a) → x ∈ l → y ∈ l → x ≠ y → R (f x) (f y).
Proof.
  intros Hp Hsym Hx Hy Hne. apply list_elem_of_lookup in Hx as [i Ei], Hy as [j Ej].
  assert ((f <$> l) !! i = Some (f x) ∧ (f <$> l) !! j = Some (f y)) as [Fi Fj] by (rewrite !list_lookup_fmap, Ei, Ej; done).
  destruct (Nat.lt_trichotomy i j) as [Hlt|[->|Hgt]].
  - by eapply pairwise_lookup.
  - congruence.
  - apply Hsym. by eapply pairwise_lookup.
Qed.

Lemma shown_view D id : desk_ok D → id ∈ shown_windows D → id ∈ view D.
Proof. intros Hok. rewrite (shown_placement D Hok). by apply placed_view. Qed.

Lemma shown_tiles D : desk_ok D → view D ≠ [] → tiles (tiling_area D) ((λ id, pane (win D id)) <$> shown_windows D).
Proof.
  intros Hok Hne. pose proof Hok as [Hc Hf _]. apply (tiles_Permutation _ (placement D).*2); [symmetry; by apply shown_panes|].
  apply (placement_ok D (co_wf _ Hc)); [intros; by apply view_order, Hf|done].
Qed.

(** The window a click finds. *)
Lemma window_at_shown D id x y :
  desk_ok D → id ∈ shown_windows D → gfx_contains (pane (win D id)) x y = true → window_at D x y = id.
Proof.
  intros Hok Hid Hp. assert (view D ≠ []) as Hne by (apply view_some; exists id; by apply shown_view).
  unfold window_at. assert (id ∈ order D ∧ shown (win D id) = true) as [Ho Hsh] by (apply list_elem_of_filter in Hid; tauto).
  destruct (List.find _ (order D)) as [id'|] eqn:E.
  - apply find_in in E as [Ho' Hc']. zbool. cbn. destruct (decide (id' = id)) as [|Hdiff]; [done|exfalso].
    eapply apart_point; [|exact Hp|done]. pose proof (pairwise_elem apart (λ id, pane (win D id)) (shown_windows D) id id') as Hpair.
    apply Hpair; [apply (shown_tiles D Hok Hne)|apply apart_sym|done|by apply list_elem_of_filter|done].
  - exfalso. apply list_elem_of_In in Ho. apply (find_none _ _ E) in Ho. cbn in Ho. by rewrite Hsh, Hp in Ho.
Qed.

(** C25: whatever keys, clicks, control messages, new and closed windows came:
    the panes of the windows shown tile the screen below the bar - inside it,
    4 pixels apart, filling it -, they are windows of the workspace in view
    (all of them unless the layout is mono, then one), the focused window is
    among them, and a click inside a pane finds its window. *)
Theorem desktop_tiled w h D :
  640 ≤ w → 480 ≤ h → reachable w h D →
  (view D ≠ [] → tiles (tiling_area D) ((λ id, pane (win D id)) <$> shown_windows D)) ∧
  (∀ id, id ∈ shown_windows D → id ∈ view D) ∧
  (wlayout (workspace_of D (dws D)) ≠ LAYOUT_MONO → shown_windows D ≡ₚ view D) ∧
  (focus D ≠ 0 → focus D ∈ shown_windows D) ∧
  (∀ id x y, id ∈ shown_windows D → gfx_contains (pane (win D id)) x y = true → window_at D x y = id).
Proof.
  intros Hw Hh Hr. pose proof (desk_reachable_ok w h D Hw Hh Hr) as Hok. pose proof Hok as [Hc Hf Hs].
  destruct (placement_ok D (co_wf _ Hc)) as (_ & _ & _ & Hl); [intros; by apply view_order, Hf|].
  split_and!; [by apply shown_tiles|intros id; by apply shown_view| |by apply focus_shown|intros id x y; by apply window_at_shown].
  intros Hm. rewrite (shown_placement D Hok). by rewrite (Hl Hm).
Qed.

(** A terminal's window, as [wsys.c] makes one. *)
Definition fresh : window := Window 0 false no_rect no_rect 400 300 (EQueue [] [] []).

Lemma desktop_tiled_witness :
  let D := foldl act (desk_start 800 600) [ANew 1 fresh; ANew 2 fresh; ANew 3 fresh; AFocusStep 1; ALayout] in
  pane (win D 1) = Rect 4 22 433 574 ∧ focus D = 1 ∧ tiles (tiling_area D) ((λ id, pane (win D id)) <$> shown_windows D).
Proof.
  cbn zeta. split; [by vm_compute|]. split; [by vm_compute|].
  apply (desktop_tiled 800 600); [lia|lia| |by vm_compute]. cbn [foldl].
  repeat (apply reach_act; [|apply (bool_decide_unpack _); by vm_compute]). apply reach_start.
Defined.

(** ** The keys have a window to go to *)

Lemma show_workspace_has D i : desk_ok D → 0 ≤ i < WORKSPACES → has_focus D → has_focus (show_workspace D i).
Proof.
  intros [Hc Hf Hs] Hi Hh. unfold show_workspace. case_if; [done|]. cbn zeta.
  assert (desk_core (set_ws D i i)) as Hc' by by apply core_set_ws. apply focus_retile_has; [done| |].
  - destruct (workspace_focus_in (set_ws D i i) i Hc') as [E|[H1 H2]]; [by left|right]. by apply view_elem.
  - intros Hv. apply view_some in Hv as [id Hid]. apply view_elem in Hid. apply workspace_focus_some; [done|by exists id].
Qed.

Lemma add_window_has D id w :
  desk_ok D → id ≠ 0 → (id ∉ order D) → (length (order D) < 16)%nat → has_focus D → has_focus (add_window D id w).
Proof.
  intros [Hc Hf Hs] H0 Hid Hl Hh. pose proof (core_enter D id w Hc H0 Hid Hl) as Hc1. unfold add_window. cbn zeta. fold (enter D id w).
  set (D1 := enter D id w) in *. change (place_ws D1) with (place_ws D). change (dws D1) with (dws D).
  assert (∀ id', id' ∈ view D1 ↔ id' ∈ view D ∨ id' = id ∧ place_ws D = dws D) as Hv.
  { intros id'. rewrite !view_elem. unfold D1. rewrite win_enter. cbn [order enter set_order set_windows dws]. rewrite elem_of_app, list_elem_of_singleton.
    case_decide as E; [subst; cbn; tauto|tauto]. }
  case_if.
  - apply focus_retile_has; [done|right; apply Hv; by right|done].
  - assert (has_focus D1) as Hh1.
    { intros H. apply view_some in H as [id' Hin]. apply Hv in Hin as [Hin|[_ ?]]; [|done]. apply Hh, view_some. by exists id'. }
    assert (focus D ≠ 0 → focus D ∈ view D1) as Hf1 by (intros Hne; apply Hv; left; by apply Hf).
    case_if; apply retile_has; try done. apply core_upd_wss; [done|apply (co_place _ Hc)|done|]. intros _. split.
    + apply elem_of_app. right. by apply list_elem_of_singleton.
    + cbn [wfocus]. unfold D1. by rewrite win_enter, decide_True.
Qed.

Lemma act_has D a :
  desk_ok D → allowed D a → has_focus D → (∀ id, a ≠ ASend id (dws D)) → has_focus (act D a).
Proof.
  intros Hok Ha Hh Hn. destruct a; cbn [act allowed] in *.
  - by apply add_window_has; tauto.
  - destruct (remove_window_ok D id Hok Ha) as (H1 & H2 & H3). by apply forget_ok; [..|apply H3].
  - by apply show_workspace_has.
  - apply send_to_workspace_ok; [tauto..| |done]. intros ->. by apply (Hn id).
  - unfold focus_step. case_if; [|done]. apply truth_true_iff in Heqb. apply set_focus_has; [apply Hok|].
    pose proof (ok_focus _ Hok Heqb) as Hv. apply view_elem in Hv as [H1 H2].
    destruct (step_from_in D (focus D) delta H1 Ha) as [S1 S2]. apply view_elem. split; congruence.
  - by apply swap_step_ok.
  - by apply next_layout_ok.
  - by apply grow_master_ok.
  - by apply click_ok.
  - by apply handle_key_ok.
  - by apply handle_key_ok.
  - destruct (show_workspace_ok D (ws (win D id)) Hok) as (H1 & H2 & H3 & H4); [by apply (co_ws _ (ok_core _ Hok))|].
    apply set_focus_has; [apply H1|]. apply view_elem. by rewrite H2, H3, H4.
  - exact Hh.
Qed.

(** the focus is kept: when some window of the workspace in view has the
    focus, or there is none there, then so it is after any action - a new
    window, a closed one, another workspace, a step, a swap, a layout, a
    click, a message - except one: a window sent to the workspace in view. *)
Theorem focus_kept w h D a :
  640 ≤ w → 480 ≤ h → reachable w h D → allowed D a → (∀ id, a ≠ ASend id (dws D)) →
  (view D ≠ [] → focus D ∈ view D) → view (act D a) ≠ [] → focus (act D a) ∈ view (act D a) ∧ shown (win (act D a) (focus (act D a))) = true.
Proof.
  intros Hw Hh Hr Ha Hn Hf Hv. pose proof (desk_reachable_ok w h D Hw Hh Hr) as Hok. pose proof (act_ok D a Hok Ha) as Hok'.
  assert (has_focus D) as Hd by (intros H; by apply (view_nonzero D); [apply Hok|apply Hf]).
  pose proof (act_has D a Hok Ha Hd Hn Hv) as Hne. split; [by apply (ok_focus _ Hok')|].
  pose proof (focus_shown _ Hok' Hne) as Hs. by apply list_elem_of_filter in Hs as [Hs _].
Qed.

Lemma focus_kept_witness :
  let D := foldl act (desk_start 800 600) [ANew 1 fresh; ANew 2 fresh; ANew 3 fresh; AFocusStep 1] in
  focus D = 1 ∧ focus (act D (AClose 1)) = 3 ∧ focus (act D (AClose 1)) ∈ view (act D (AClose 1)).
Proof.
  cbn zeta. split; [by vm_compute|]. split; [by vm_compute|].
  refine (proj1 (focus_kept 800 600 _ _ _ _ _ _ _ _ _)); [lia|lia| |apply (bool_decide_unpack _); by vm_compute|done| |by vm_compute].
  - cbn [foldl]. repeat (apply reach_act; [|apply (bool_decide_unpack _); by vm_compute]). apply reach_start.
  - intros _. apply (bool_decide_unpack _). by vm_compute.
Defined.

(** *** A window sent to the workspace in view *)

Lemma retile_same D :
  desk_core D → focus D = 0 →
  desk_ok (retile D) ∧ focus (retile D) = 0 ∧ order (retile D) = order D ∧ dws (retile D) = dws D ∧ wss (retile D) = wss D ∧
  ∀ j, ws (win (retile D) j) = ws (win D j).
Proof.
  intros Hc Hf. destruct (retile_ok D (co_wf _ Hc)) as [Hm _]; [by rewrite Hf|].
  rewrite (mv_focus _ _ Hm), (mv_order _ _ Hm), (mv_dws _ _ Hm), (mv_wss _ _ Hm). split_and!; try done; [apply retile_core; [done|by rewrite Hf]|apply Hm].
Qed.

Lemma send_here D id :
  desk_ok D → focus D = 0 → id ∈ order D → ws (win D id) ≠ dws D →
  let D' := send_to_workspace D id (dws D) in
  desk_ok D' ∧ focus D' = 0 ∧ order D' = order D ∧ dws D' = dws D ∧
  wlayout (workspace_of D' (dws D)) = wlayout (workspace_of D (dws D)) ∧
  ∀ j, ws (win D' j) = if decide (j = id) then dws D else ws (win D j).
Proof.
  intros Hok Hf Hid Hne. pose proof Hok as [Hc _ _]. pose proof (wf_known _ (co_wf _ Hc) id Hid) as Hk.
  pose proof (wf_dws _ (co_wf _ Hc)) as Hd. pose proof (co_ws _ Hc id Hid) as Hfrom.
  cbn zeta. unfold send_to_workspace. rewrite (proj2 (Z.eqb_neq _ _)) by done. cbn zeta. fold (resend D id (dws D)).
  pose proof (core_resend D id (dws D) Hc Hid Hd) as Hc2. cbn zeta in Hc2.
  set (D2 := if wfocus (workspace_of (resend D id (dws D)) (ws (win D id))) =? id then _ else _) in *.
  assert (order D2 = order D ∧ dws D2 = dws D ∧ focus D2 = 0 ∧ (∀ j, win D2 j = win (resend D id (dws D)) j) ∧
    workspace_of D2 (dws D) = workspace_of D (dws D)) as (Eo & Ed & Ef & Ew & El).
  { subst D2. case_if; [|done]. split_and!; try done. rewrite workspace_upd_ne by lia. done. }
  set (D3 := if wfocus (workspace_of D2 (dws D)) =? 0 then _ else _).
  assert (order D3 = order D ∧ dws D3 = dws D ∧ focus D3 = 0 ∧ (∀ j, win D3 j = win (resend D id (dws D)) j) ∧
    wlayout (workspace_of D3 (dws D)) = wlayout (workspace_of D (dws D))) as (Eo3 & Ed3 & Ef3 & Ew3 & El3).
  { subst D3. case_if; [|by rewrite El]. split_and!; try done. rewrite workspace_upd_eq by (done || apply (co_wf _ Hc2)). by rewrite El. }
  assert (desk_core D3) as Hc3.
  { subst D3. case_if; [|done]. apply core_upd_wss; [done|done|done|]. cbn. intros _. rewrite Eo, Ew, ws_resend, decide_True by done. done. }
  rewrite Ef3, (proj2 (Z.eqb_neq 0 id)) by (intros <-; by apply (wf_zero _ (co_wf _ Hc))).
  destruct (retile_same D3 Hc3 Ef3) as (H1 & H2 & H3 & H4 & H5 & H6). split_and!; try done; try congruence.
  - unfold workspace_of at 1. rewrite H5. exact El3.
  - intros j. rewrite H6, Ew3. by apply ws_resend.
Qed.

(** The keys, with and without Alt, that show no other workspace and start no program. *)
Definition stays_on (i : Z) (a : action) : Prop :=
  match a with
  | AKey _ _ | AAskClose | AFocusStep _ | ASwapStep _ | ALayout | AMaster _ => True
  | AShow j => j = i
  | _ => False
  end.

Lemma unfocused_key D a :
  desk_ok D → focus D = 0 → stays_on (dws D) a →
  desk_ok (act D a) ∧ focus (act D a) = 0 ∧ view (act D a) = view D ∧ dws (act D a) = dws D.
Proof.
  intros Hok Hf Ha. pose proof Hok as [Hc _ _].
  assert (∀ f, desk_core (upd_wss D (dws D) f) → let D' := retile (upd_wss D (dws D) f) in
    desk_ok D' ∧ focus D' = 0 ∧ view D' = view D ∧ dws D' = dws D) as Hupd.
  { intros f Hc'. destruct (retile_same _ Hc' Hf) as (H1 & H2 & H3 & H4 & _ & H5). split_and!; try done. by apply view_same. }
  pose proof (wf_dws _ (co_wf _ Hc)) as Hd. pose proof (wss_lookup D (dws D) Hd (wf_wss _ (co_wf _ Hc))) as El.
  assert (∀ f, (∀ s, wfocus (f s) = wfocus s) → (∀ s, 20 ≤ master s ≤ 80 → 20 ≤ master (f s) ≤ 80) → desk_core (upd_wss D (dws D) f)) as Hcore.
  { intros f Hw Hm. apply core_upd_wss; [done|done|done|]. rewrite Hw. intros Hne. destruct (co_wfocus _ Hc _ _ El Hne) as [H1 H2]. split; [done|lia]. }
  destruct a; cbn [act stays_on] in *; try done.
  - subst i. unfold show_workspace. by rewrite Z.eqb_refl.
  - unfold focus_step. by rewrite Hf.
  - unfold swap_step. by rewrite Hf.
  - unfold next_layout. apply (Hupd (λ s, Workspace _ _ _)), Hcore; intros s; [reflexivity|intros Hs; exact Hs].
  - unfold grow_master. cbn zeta. set (f := λ s, Workspace _ _ _).
    assert (desk_core (upd_wss D (dws D) f)) as Hc' by (apply Hcore; [done|]; intros m Hm; cbn; rewrite Z.gtb_ltb; repeat case_if; lia).
    pose proof (proj1 (grow_master_ok D delta Hok)) as Hg. unfold grow_master in Hg. cbn zeta in Hg. fold f in Hg.
    case_bool_decide; [apply (Hupd f Hc')|split_and!; [exact Hg|exact Hf|reflexivity|reflexivity]].
  - unfold handle_key. by rewrite Hf.
  - unfold handle_key. by rewrite Hf.
Qed.

Lemma unfocused_keys D l :
  desk_ok D → focus D = 0 → Forall (stays_on (dws D)) l → focus (foldl act D l) = 0 ∧ view (foldl act D l) = view D.
Proof.
  revert D. induction l as [|a l IH]; intros D Hok Hf Hl; [done|]. apply Forall_cons in Hl as [Ha Hl]. cbn [foldl].
  destruct (unfocused_key D a Hok Hf Ha) as (H1 & H2 & H3 & H4). rewrite <- H3. apply IH; [done|done|by rewrite H4].
Qed.

Lemma one_shown D id : desk_ok D → id ∈ view D → view D = [id] ∨ wlayout (workspace_of D (dws D)) ≠ LAYOUT_MONO → focus D = 0 → shown (win D id) = true.
Proof.
  intros Hok Hv Hl Hf. pose proof Hok as [Hc Hfo _]. enough (id ∈ shown_windows D) as H by (by apply list_elem_of_filter in H as [? _]).
  rewrite (shown_placement D Hok). destruct (decide (wlayout (workspace_of D (dws D)) = LAYOUT_MONO)) as [Hm|Hm].
  - destruct Hl as [Hl|]; [|done]. unfold placement. rewrite Hl, Hf. cbn. rewrite orb_true_r. by left.
  - destruct (placement_ok D (co_wf _ Hc)) as (_ & _ & _ & H); [by rewrite Hf|]. by rewrite (H Hm).
Qed.

Lemma show_other_has D i : desk_ok D → 0 ≤ i < WORKSPACES → i ≠ dws D → has_focus (show_workspace D i).
Proof.
  intros [Hc Hf Hs] Hi Hne. unfold show_workspace. rewrite (proj2 (Z.eqb_neq _ _)) by done. cbn zeta.
  assert (desk_core (set_ws D i i)) as Hc' by by apply core_set_ws. apply focus_retile_has; [done| |].
  - destruct (workspace_focus_in (set_ws D i i) i Hc') as [E|[H1 H2]]; [by left|right]. by apply view_elem.
  - intros Hv. apply view_some in Hv as [id Hid]. apply view_elem in Hid. apply workspace_focus_some; [done|by exists id].
Qed.

Lemma click_focus D id x y :
  desk_ok D → id ∈ shown_windows D → gfx_contains (pane (win D id)) x y = true → focus (click D x y) = id.
Proof.
  intros Hok Hs Hp. pose proof (shown_view D id Hok Hs) as Hv. unfold click. rewrite (window_at_shown D id x y Hok Hs Hp). cbn zeta.
  rewrite truth_nonzero by (by apply (view_nonzero D); [apply Hok|]).
  destruct (set_focus_ok D id (ok_core _ Hok) (or_intror Hv)) as (_ & Ef & _). case_if; [|done].
  by rewrite (mv_focus _ _ (moved_post _ _ _)).
Qed.

(** C38: What the exception does: a window of another workspace is sent to the
    one in view while nothing has the focus there ([ws] written to its [ctl]
    file). It is in view, and shown unless the layout is mono and it has
    company, yet nothing has the focus, and no sequence of keys changes that
    as long as they show no other workspace and start no program: neither
    steps of the focus, nor swaps, nor the digit of this workspace, nor other
    layouts. A click on it gives it the focus, and a visit to another
    workspace gives it to some window in view. *)
Theorem brought_back_unfocused w h D id :
  640 ≤ w → 480 ≤ h → reachable w h D → focus D = 0 → id ∈ order D → ws (win D id) ≠ dws D →
  let D' := act D (ASend id (dws D)) in
  id ∈ view D' ∧
  (view D = [] ∨ wlayout (workspace_of D (dws D)) ≠ LAYOUT_MONO → shown (win D' id) = true) ∧
  (∀ keys, Forall (stays_on (dws D)) keys → focus (foldl act D' keys) = 0 ∧ id ∈ view (foldl act D' keys)) ∧
  (∀ x y, shown (win D' id) = true → gfx_contains (pane (win D' id)) x y = true → focus (act D' (AClick x y)) = id) ∧
  (∀ i, 0 ≤ i < WORKSPACES → i ≠ dws D →
     let D2 := act (act D' (AShow i)) (AShow (dws D)) in focus D2 ≠ 0 ∧ focus D2 ∈ view D2).
Proof.
  intros Hw Hh Hr Hf Hid Hne. pose proof (desk_reachable_ok w h D Hw Hh Hr) as Hok. cbn zeta. cbn [act].
  destruct (send_here D id Hok Hf Hid Hne) as (Hok' & Hf' & Eo & Ed & El & Ew). set (D' := send_to_workspace D id (dws D)) in *.
  assert (id ∈ view D') as Hv by (apply view_elem; rewrite Eo, Ed, Ew, decide_True by done; done).
  split_and!; [done| | | |].
  - intros Hl. apply one_shown; [done|done| |done]. rewrite Ed, El. destruct Hl as [Hl|Hl]; [left|by right].
    assert (∀ j, j ∈ view D' ↔ j = id) as Hj.
    { intros j. rewrite view_elem, Eo, Ed, Ew. split; [|intros ->; by rewrite decide_True]. intros [H1 H2]. case_decide; [done|].
      exfalso. assert (j ∈ view D) as Hjv by (by apply view_elem). rewrite Hl in Hjv. by apply elem_of_nil in Hjv. }
    assert (NoDup (view D')) as Hnd by (apply NoDup_filter, (co_wf _ (ok_core _ Hok'))).
    apply Permutation_singleton_r, NoDup_Permutation; [done|apply NoDup_singleton|]. intros j. by rewrite Hj, list_elem_of_singleton.
  - intros keys Hk. rewrite <- Ed in Hk. destruct (unfocused_keys D' keys Hok' Hf' Hk) as [H1 ->]. done.
  - intros x y Hs Hp. apply click_focus; [done| |done]. apply list_elem_of_filter. split; [done|]. by apply view_order.
  - intros i Hi Hi'. destruct (show_workspace_ok D' i Hok' Hi) as (H1 & H2 & H3 & H4).
    pose proof (wf_dws _ (co_wf _ (ok_core _ Hok))) as Hd. destruct (show_workspace_ok _ (dws D) H1 Hd) as (H5 & H6 & H7 & H8).
    assert (focus (show_workspace (show_workspace D' i) (dws D)) ≠ 0) as Hn.
    { apply show_other_has; [done|done|congruence|]. apply view_some. exists id. apply view_elem. rewrite H6, H2, Eo, H7, H8, H4, Ew, decide_True by done. done. }
    split; [done|]. by apply (ok_focus _ H5).
Qed.

(** The only window of the desktop is sent to the second workspace and back. *)
Lemma brought_back_unfocused_witness :
  let D := foldl act (desk_start 800 600) [ANew 1 fresh; ASend 1 1] in
  let D' := act D (ASend 1 0) in
  shown (win D' 1) = true ∧ focus (foldl act D' [AFocusStep 1; AShow 0; ALayout; AKey 97 false]) = 0.
Proof.
  cbn zeta. set (D := foldl _ _ _). assert (dws D = 0) as Ed by (by vm_compute).
  destruct (brought_back_unfocused 800 600 D 1) as (_ & Hs & Hk & _);
    [lia|lia| |by vm_compute|apply (bool_decide_unpack _); by vm_compute|by vm_compute|].
  { unfold D. cbn [foldl]. repeat (apply reach_act; [|apply (bool_decide_unpack _); by vm_compute]). apply reach_start. }
  rewrite Ed in Hs, Hk. split.
  - apply Hs. left. by vm_compute.
  - apply (Hk [AFocusStep 1; AShow 0; ALayout; AKey 97 false]). repeat constructor.
Defined.
