(* ===== verification/Namespace.v ===== *)
(** * Paths, mount tables and resolution

    [vfs_clean_path] and the namespaces of [zkt/fs/namespace.c], with the
    reference counts of [zkt/fs/vfs.c].

    A [struct vnode *] is a number. What a file system does behind its
    [struct vnode_ops] is an argument of the model (which table a vnode has may
    depend on the state), an operation it leaves NULL is [None]. A C string is
    the list of its bytes without the NUL. The lock of a mount table is held
    across each of its accesses and makes it one step.

    [Paths] says what cleaning a path does, [VfsRefs] what each operation does
    to the reference counts, [Resolve] what a path names. *)
From S2P Require Import Prelude StateM Abi.
Local Open Scope Z_scope.

Abbreviation VFS_NAME_MAX := 63%Z (only parsing).
Abbreviation VFS_PATH_MAX := 255%Z (only parsing).
Abbreviation VFS_UNION_MAX := 8%Z (only parsing).
Abbreviation LOCATION_LABEL_MAX := 32%Z (only parsing).

Definition len (l : list Z) : Z := Z.of_nat (length l).

(** ** Cleaning a path *)

Fixpoint skip_slashes (p : list Z) : list Z :=
  match p with c :: p' => if c =? 47 then skip_slashes p' else p | [] => [] end.

(** The bytes up to the next slash, and the rest from there. *)
Fixpoint name_end (p : list Z) : list Z * list Z :=
  match p with
  | [] => ([], [])
  | c :: p' => if c =? 47 then ([], p) else let '(name, rest) := name_end p' in (c :: name, rest)
  end.

(** [while (len > 1 && out[len - 1] != '/') len--] *)
Fixpoint up_name (n : nat) (out : list Z) : nat :=
  match n with
  | O => O
  | S k => if (1 <? n)%nat && negb (aget 0 out (Z.of_nat k) =? 47) then up_name k out else n
  end.

(** [..]: the last name of [out] and the slash before it go. *)
Definition drop_name (out : list Z) : list Z :=
  let n := up_name (length out) out in
  take (if (1 <? n)%nat then n - 1 else n)%nat out.

(** The loop over the names of [p]; [out] is what is in the buffer so far. *)
Fixpoint clean_loop (fuel : nat) (p out : list Z) : result (list Z) :=
  match p with
  | [] => Good out
  | _ =>
      match fuel with
      | O => Hang
      | S fuel =>
          let '(name, p) := name_end (skip_slashes p) in
          let n := len name in
          if (n =? 0) || ((n =? 1) && (aget 0 name 0 =? 46)) then clean_loop fuel p out
          else if (n =? 2) && (aget 0 name 0 =? 46) && (aget 0 name 1 =? 46) then clean_loop fuel p (drop_name out)
          else if (n >? VFS_NAME_MAX) || (len out + 1 + n >? VFS_PATH_MAX) then Err (- ENAMETOOLONG)
          else clean_loop fuel p ((if 1 <? len out then out ++ [47] else out) ++ name)
      end
  end.

Definition vfs_clean_path (path : list Z) : result (list Z) :=
  if negb (aget 0 path 0 =? 47) then Err (- EINVAL) else clean_loop (length path) path [47].

(** ** Vnodes *)

(** The vnodes' types, sizes and reference counts, and the state [fs] of the
    file systems behind them. *)
Record world (F : Type) := World { fs : F; vtype : Z → vnode_type; vsize : Z → Z; refs : Z → Z }.
Arguments World {F}. Arguments fs {F}. Arguments vtype {F}. Arguments vsize {F}. Arguments refs {F}.

(** [struct vnode_ops] of a vnode. *)
Record vnode_ops (W : Type) := VnodeOps {
  op_walk : option (list Z → st W Z);
  op_read : option (Z → Z → st W (list Z));
  op_write : option (Z → list Z → st W Z);
  op_readdir : option (Z → st W (option dirent));
  op_create : option (list Z → vnode_type → st W Z);
  op_remove : option (list Z → vnode_type → st W unit);
  op_rename : option (list Z → list Z → st W unit);
  op_truncate : option (Z → st W unit);
  op_filetime : option (option Z → st W Z);
  op_fileattr : option (option Z → st W Z);
  op_release : option (st W unit);
  op_poll : option (st W Z)
}.
Arguments VnodeOps {W}. Arguments op_walk {W}. Arguments op_read {W}. Arguments op_write {W}. Arguments op_readdir {W}.
Arguments op_create {W}. Arguments op_remove {W}. Arguments op_rename {W}. Arguments op_truncate {W}. Arguments op_filetime {W}.
Arguments op_fileattr {W}. Arguments op_release {W}. Arguments op_poll {W}.

(** ** Locations and namespaces *)

(** The members of a union in search order, each with its label. *)
Definition location : Type := list (Z * list Z).

Record mount := Mount { path : list Z; loc : location }.

Record namespace := Namespace { ns_refs : Z; root : Z; mounts : list mount }.

Definition is_dir_type (t : vnode_type) : bool := match t with VNODE_DIR => true | _ => false end.

Section namespaces.
Context {F : Type} (ops : world F → Z → vnode_ops (world F)).
Local Abbreviation W := (world F).
Implicit Types (w : W) (v : Z) (l : location) (ns : namespace).

Definition set_refs w (r : Z → Z) : W := World (fs w) (vtype w) (vsize w) r.

Definition vnode_ref v : st W unit := modify (λ w, set_refs w (λ x, if x =? v then u32 (refs w x + 1) else refs w x)).

Definition vnode_unref v : st W unit :=
  modify (λ w, set_refs w (λ x, if x =? v then u32 (refs w x - 1) else refs w x)) ;;
  w ← get;
  if refs w v =? 0 then match op_release (ops w v) with Some release => release | None => mret tt end else mret tt.

(** A copy of the location, with references of its own. *)
Fixpoint location_copy l : st W unit :=
  match l with [] => mret tt | (v, _) :: l => vnode_ref v ;; location_copy l end.

Fixpoint location_release l : st W unit :=
  match l with [] => mret tt | (v, _) :: l => vnode_unref v ;; location_release l end.

Definition set_label (label : list Z) : list Z := take (Z.to_nat (LOCATION_LABEL_MAX - 1)) label.

(** [room]: whether the allocation succeeds. *)
Definition ns_create (room : bool) (root : Z) : st W (option namespace) :=
  if room then vnode_ref root ;; mret (Some (Namespace 1 root [])) else mret None.

Definition ns_ref ns : namespace := Namespace (u32 (ns_refs ns + 1)) (root ns) (mounts ns).

Fixpoint release_mounts (m : list mount) : st W unit :=
  match m with [] => mret tt | x :: m => location_release (loc x) ;; release_mounts m end.

(** [None]: the last reference went, and the namespace with it. *)
Definition ns_unref ns : st W (option namespace) :=
  let n := u32 (ns_refs ns - 1) in
  if n =? 0 then release_mounts (mounts ns) ;; vnode_unref (root ns) ;; mret None
  else mret (Some (Namespace n (root ns) (mounts ns))).

(** The copies of the mounts made until one cannot be allocated. *)
Fixpoint copy_mounts (room : list bool) (m : list mount) : st W (list mount * bool) :=
  match m with
  | [] => mret ([], true)
  | x :: m =>
      if default true (head room) then
        location_copy (loc x) ;;
        '(rest, ok) ← copy_mounts (drop 1 room) m;
        mret (Mount (take (Z.to_nat VFS_PATH_MAX) (path x)) (loc x) :: rest, ok)
      else mret ([], false)
  end.

(** [room]: whether the allocations succeed, one after the other. *)
Definition ns_fork (room : list bool) (src : namespace) : st W (option namespace) :=
  n ← ns_create (default true (head room)) (root src);
  match n with
  | None => mret None
  | Some ns =>
      '(m, ok) ← copy_mounts (drop 1 room) (mounts src);
      let ns := Namespace (ns_refs ns) (root ns) m in
      if ok : bool then mret (Some ns) else ns_unref ns ;; mret None
  end.

Definition find_mount ns (canon : list Z) : option location :=
  loc <$> List.find (λ m, bool_decide (path m = canon)) (mounts ns).

Definition apply_mount ns (canon : list Z) l : st W location :=
  match find_mount ns canon with
  | Some m => location_copy m ;; location_release l ;; mret m
  | None => mret l
  end.

Fixpoint walk_location l (name : list Z) (rc : Z) : st W Z :=
  match l with
  | [] => fail rc
  | (v, _) :: l =>
      w ← get;
      match is_dir_type (vtype w v), op_walk (ops w v) with
      | true, Some walk =>
          r ← try (walk name);
          match r with inr next => mret next | inl e => walk_location l name e end
      | _, _ => walk_location l name rc
      end
  end.

(** The rounds of [ns_resolve] from [p] on, at [prefix]. *)
Fixpoint resolve_loop (fuel : nat) ns (p prefix : list Z) l : st W location :=
  match p with
  | [] => mret l
  | _ =>
      match fuel with
      | O => hang
      | S fuel =>
          let '(name, p) := name_end p in
          r ← try (walk_location l name (- ENOTDIR));
          location_release l ;;
          match r with
          | inl rc => fail rc
          | inr next =>
              let prefix := prefix ++ 47 :: name in
              l ← apply_mount ns prefix [(next, set_label prefix)];
              resolve_loop fuel ns (if aget 0 p 0 =? 47 then drop 1 p else p) prefix l
          end
      end
  end.

(** The location, and the cleaned path. *)
Definition ns_resolve ns (p : list Z) : st W (location * list Z) :=
  match vfs_clean_path p with
  | Err rc => fail rc
  | Hang => hang
  | Good clean =>
      vnode_ref (root ns) ;;
      l ← apply_mount ns [47] [(root ns, set_label [47])];
      l ← resolve_loop (length clean) ns (drop 1 clean) [] l;
      mret (l, clean)
  end.

(** [m->loc = *loc] for the first mount at [canon]. *)
Fixpoint replace_mount (canon : list Z) l (m : list mount) : list mount :=
  match m with
  | [] => []
  | x :: m => if bool_decide (path x = canon) then Mount (path x) l :: m else x :: replace_mount canon l m
  end.

Definition ns_set_mount (room : bool) ns (canon : list Z) l : st W namespace :=
  match find_mount ns canon with
  | Some old =>
      location_release old ;;
      mret (Namespace (ns_refs ns) (root ns) (replace_mount canon l (mounts ns)))
  | None =>
      if room then mret (Namespace (ns_refs ns) (root ns) (mounts ns ++ [Mount (take (Z.to_nat VFS_PATH_MAX) canon) l]))
      else location_release l ;; fail (- ENOMEM)
  end.

Fixpoint unlink_mount (canon : list Z) (m : list mount) : list mount :=
  match m with
  | [] => []
  | x :: m => if bool_decide (path x = canon) then m else x :: unlink_mount canon m
  end.

Definition ns_remove_mount ns (canon : list Z) : st W namespace :=
  match find_mount ns canon with
  | None => fail (- ENOENT)
  | Some old =>
      location_release old ;;
      mret (Namespace (ns_refs ns) (root ns) (unlink_mount canon (mounts ns)))
  end.
End namespaces.
