(* ===== verification/Paths.v ===== *)
(** * What cleaning a path does

    [vfs_clean_path] against a definition on lists of names: the path is cut
    at its slashes, empty names and [.] are dropped and [..] removes the name
    before it. *)
From S2P Require Import Prelude StateM Abi Namespace.
Local Open Scope Z_scope.

(** ** Specification *)

(** The pieces between the slashes. *)
Fixpoint split (p : list Z) : list (list Z) :=
  match p with
  | [] => [[]]
  | c :: p =>
      if c =? 47 then [] :: split p
      else match split p with n :: ns => (c :: n) :: ns | [] => [[c]] end
  end.

(** The path of a list of names. *)
Definition render (names : list (list Z)) : list Z :=
  match names with [] => [47] | _ => concat ((λ n, 47 :: n) <$> names) end.

Definition too_long (names : list (list Z)) (n : list Z) : bool :=
  (len n >? VFS_NAME_MAX) || (len (render names) + 1 + len n >? VFS_PATH_MAX).

Definition clean_step (acc : option (list (list Z))) (n : list Z) : option (list (list Z)) :=
  names ← acc;
  if bool_decide (n = [] ∨ n = [46]) then Some names
  else if bool_decide (n = [46; 46]) then Some (removelast names)
  else if too_long names n then None else Some (names ++ [n]).

(** The names of the cleaned path; [None] when it gets too long on the way. *)
Definition cleaned (p : list Z) : option (list (list Z)) := foldl clean_step (Some []) (split p).

(** A name a directory can have. *)
Record plain (n : list Z) : Prop := {
  p_some : n ≠ [];
  p_dot : n ≠ [46];
  p_dotdot : n ≠ [46; 46];
  p_slash : 47 ∉ n;
  p_length : len n ≤ VFS_NAME_MAX
}.

(** ** Pieces *)

Lemma split_slash p : split (47 :: p) = [] :: split p.
Proof. done. Qed.

Lemma split_name_end p name rest : name_end p = (name, rest) →
  p = name ++ rest ∧ (47 ∉ name) ∧ (rest = [] ∨ ∃ q, rest = 47 :: q).
Proof.
  revert name rest. induction p as [|c p IH]; intros name rest E; cbn in E.
  { injection E as <- <-. split_and!; [done|apply not_elem_of_nil|by left]. }
  destruct (Z.eqb_spec c 47) as [->|Hc].
  { injection E as <- <-. split_and!; [done|apply not_elem_of_nil|right; by exists p]. }
  destruct (name_end p) as [n r]. injection E as <- <-. destruct (IH n r eq_refl) as (-> & Hn & Hr).
  split_and!; [done| |done]. apply not_elem_of_cons. done.
Qed.

Lemma split_plain n : (47 ∉ n) → split n = [n].
Proof.
  induction n as [|c n IH]; intros Hn; [done|]. apply not_elem_of_cons in Hn as [Hc Hn]. cbn.
  rewrite (proj2 (Z.eqb_neq c 47)) by congruence. by rewrite IH.
Qed.

Lemma split_app n p : (47 ∉ n) → split (n ++ 47 :: p) = n :: split p.
Proof.
  induction n as [|c n IH]; intros Hn; [done|]. apply not_elem_of_cons in Hn as [Hc Hn]. cbn [app split].
  rewrite (proj2 (Z.eqb_neq c 47)) by congruence. by rewrite IH.
Qed.

Lemma fold_none l : foldl clean_step None l = None.
Proof. by induction l. Qed.

Lemma step_empty acc : clean_step acc [] = acc.
Proof. by destruct acc. Qed.

(** Slashes add nothing. *)
Lemma fold_skip acc p : foldl clean_step acc (split (skip_slashes p)) = foldl clean_step acc (split p).
Proof.
  induction p as [|c p IH]; [done|]. cbn [skip_slashes]. destruct (Z.eqb_spec c 47) as [->|]; [|done].
  rewrite IH, split_slash. cbn [foldl]. by rewrite step_empty.
Qed.

(** ** Rendering *)

Lemma render_snoc names n : names ≠ [] → render (names ++ [n]) = render names ++ 47 :: n.
Proof. intros H. unfold render. destruct names as [|x names]; [done|]. cbn [app]. rewrite fmap_cons, fmap_app, app_comm_cons. cbn. by rewrite concat_app, <- app_assoc; cbn; rewrite app_nil_r. Qed.

Lemma render_length names : 1 ≤ len (render names).
Proof. unfold len. destruct names; cbn; lia. Qed.

Lemma render_root names : Forall plain names → len (render names) = 1 → names = [].
Proof.
  intros Hp Hl. destruct names as [|n names]; [done|]. apply Forall_cons in Hp as [[Hn _ _ _ _] _].
  unfold len, render in Hl. cbn in Hl. rewrite length_app in Hl. destruct n; [done|]. cbn in Hl. lia.
Qed.

Lemma up_name_plain (out n : list Z) :
  (47 ∉ n) → (1 ≤ length out)%nat → aget 0 (out ++ n) (Z.of_nat (length out) - 1) = 47 →
  up_name (length out + length n) (out ++ n) = length out.
Proof.
  intros Hn Ho Hs. assert (∀ k, (k ≤ length n)%nat → up_name (length out + k) (out ++ n) = length out) as H; [|by apply H].
  induction k as [|k IH]; intros Hk.
  - rewrite Nat.add_0_r. destruct (length out) as [|m] eqn:Em; [lia|]. cbn [up_name].
    replace (Z.of_nat (S m) - 1) with (Z.of_nat m) in Hs by lia. rewrite Hs. by rewrite andb_false_r.
  - rewrite Nat.add_succ_r. cbn [up_name]. rewrite (proj2 (Nat.ltb_lt 1 _)) by lia.
    destruct (Z.eqb_spec (aget 0 (out ++ n) (Z.of_nat (length out + k))) 47) as [E|_]; [|by apply IH; lia].
    exfalso. apply Hn. unfold aget in E. rewrite (proj2 (Z.ltb_ge _ 0)), Nat2Z.id, lookup_app_r in E by lia.
    replace (length out + k - length out)%nat with k in E by lia.
    destruct (lookup_lt_is_Some_2 n k) as [x Hx]; [lia|]. rewrite Hx in E. cbn in E. subst x. by eapply list_elem_of_lookup_2.
Qed.

Lemma drop_name_render names : Forall plain names → drop_name (render names) = render (removelast names).
Proof.
  intros Hp. destruct (decide (names = [])) as [->|Hne]; [done|].
  destruct (exists_last Hne) as (init & n & ->). apply Forall_app in Hp as [Hi [[_ _ _ Hn _] _]%Forall_cons]. rewrite removelast_last.
  unfold drop_name. destruct (decide (init = [])) as [->|Hi0].
  - cbn [app]. assert (render [n] = [47] ++ n) as -> by (cbn; by rewrite app_nil_r). rewrite length_app, (up_name_plain [47] n) by (done || cbn; lia). done.
  - rewrite render_snoc by done. replace (render init ++ 47 :: n) with ((render init ++ [47]) ++ n) by by rewrite <- app_assoc.
    rewrite length_app, (up_name_plain (render init ++ [47]) n); [|done|rewrite length_app; cbn; lia|].
    + pose proof (render_length init) as Hl. unfold len in Hl. rewrite length_app. cbn [length].
      rewrite (proj2 (Nat.ltb_lt 1 _)) by lia. rewrite <- app_assoc, take_app_le, take_ge by lia. done.
    + rewrite length_app. cbn [length]. unfold aget. rewrite (proj2 (Z.ltb_ge _ 0)) by lia.
      replace (Z.to_nat (Z.of_nat (length (render init) + 1) - 1)) with (length (render init)) by lia.
      rewrite <- app_assoc, lookup_app_r, Nat.sub_diag by lia. done.
Qed.

Lemma removelast_plain names : Forall plain names → Forall plain (removelast names).
Proof.
  intros H. destruct (decide (names = [])) as [->|Hne]; [done|]. destruct (exists_last Hne) as (l & x & ->).
  rewrite removelast_last. by apply Forall_app in H as [? _].
Qed.

(** Appending a name, as the loop does it. *)
Lemma render_add names n : Forall plain names → (if 1 <? len (render names) then render names ++ [47] else render names) ++ n = render (names ++ [n]).
Proof.
  intros Hp. destruct (decide (names = [])) as [->|Hne].
  - cbn. by rewrite app_nil_r.
  - rewrite render_snoc by done. destruct (Z.ltb_spec 1 (len (render names))) as [_|Hl]; [by rewrite <- app_assoc|].
    pose proof (render_length names). destruct Hne. apply (render_root _ Hp). lia.
Qed.

(** ** The loop *)

Lemma skip_slashes_length p : (length (skip_slashes p) ≤ length p)%nat.
Proof. induction p as [|c p IH]; cbn; [done|]. destruct (c =? 47); cbn; lia. Qed.

Lemma skip_slashes_head p : aget 0 (skip_slashes p) 0 ≠ 47.
Proof. induction p as [|c p IH]; [done|]. cbn [skip_slashes]. destruct (Z.eqb_spec c 47); [done|]. by cbn. Qed.

(** Every round gets on. *)
Lemma round_shorter p name rest :
  p ≠ [] → name_end (skip_slashes p) = (name, rest) → (length rest < length p)%nat.
Proof.
  intros Hp E. destruct (split_name_end _ _ _ E) as (Es & Hn & Hr). pose proof (skip_slashes_length p) as Hl. rewrite Es, length_app in Hl.
  destruct name as [|c name]; [|cbn in Hl; lia]. cbn in Es. pose proof (skip_slashes_head p) as Hh. rewrite Es in Hh.
  destruct Hr as [->|[q ->]]; [|done]. destruct p; [done|]. cbn. lia.
Qed.

Lemma is_dot name : (len name =? 0) || ((len name =? 1) && (aget 0 name 0 =? 46)) = bool_decide (name = [] ∨ name = [46]).
Proof.
  destruct (bool_decide_reflect (name = [] ∨ name = [46])) as [[->| ->]|Hn]; [done|done|].
  destruct name as [|c [|d name]]; [destruct Hn; by left| |].
  - change (aget 0 [c] 0) with c. destruct (Z.eqb_spec c 46) as [->|]; [destruct Hn; by right|done].
  - unfold len. cbn [length]. rewrite (proj2 (Z.eqb_neq _ 0)), (proj2 (Z.eqb_neq _ 1)) by lia. done.
Qed.

Lemma is_dotdot name : (len name =? 2) && (aget 0 name 0 =? 46) && (aget 0 name 1 =? 46) = bool_decide (name = [46; 46]).
Proof.
  destruct (bool_decide_reflect (name = [46; 46])) as [->|Hn]; [done|].
  destruct name as [|c [|d [|x name]]]; [done|done| |].
  - change (aget 0 [c; d] 0) with c. change (aget 0 [c; d] 1) with d.
    destruct (Z.eqb_spec c 46) as [->|]; [|done]. destruct (Z.eqb_spec d 46) as [->|]; [done|]. done.
  - unfold len. cbn [length]. rewrite (proj2 (Z.eqb_neq _ 2)) by lia. done.
Qed.

(** What the buffer holds: plain names, and no more than fit. *)
Definition clean (names : list (list Z)) : Prop := Forall plain names ∧ len (render names) ≤ VFS_PATH_MAX.

Lemma render_app_length names more : (length (render names) ≤ length (render (names ++ more)))%nat.
Proof.
  destruct names as [|n names]; [destruct more; cbn; lia|]. unfold render. cbn [app]. rewrite !fmap_cons, fmap_app.
  cbn [concat]. rewrite concat_app, !length_app. lia.
Qed.

Lemma clean_step_clean names n names' :
  clean names → (47 ∉ n) → clean_step (Some names) n = Some names' → clean names'.
Proof.
  intros [Hp Hl] Hn. unfold clean_step. cbn [mbind option_bind]. case_bool_decide as H1; [by intros [= <-]|]. case_bool_decide as H2.
  - intros [= <-]. split; [by apply removelast_plain|]. destruct (decide (names = [])) as [->|Hne]; [done|].
    destruct (exists_last Hne) as (l & x & ->). rewrite removelast_last. pose proof (render_app_length l [x]). unfold len in *. lia.
  - unfold too_long. destruct (_ || _) eqn:E; [done|]. intros [= <-]. apply orb_false_iff in E as [E1 E2]. rewrite Z.gtb_ltb, Z.ltb_ge in E1, E2.
    split; [apply Forall_app; split; [done|]; apply Forall_singleton; split; naive_solver|].
    rewrite <- render_add by done. unfold len in *. rewrite length_app. destruct (1 <? _); rewrite ?length_app; cbn [length]; lia.
Qed.

Lemma clean_loop_correct fuel p names :
  (length p ≤ fuel)%nat → clean names →
  clean_loop fuel p (render names) =
    match foldl clean_step (Some names) (split p) with Some names => Good (render names) | None => Err (- ENAMETOOLONG) end.
Proof.
  revert p names. induction fuel as [|fuel IH]; intros p names Hf Hp; [by destruct p; [|cbn in Hf; lia]|].
  destruct (decide (p = [])) as [->|Hne]; [done|]. rewrite <- fold_skip.
  destruct (name_end (skip_slashes p)) as [name rest] eqn:En. pose proof (round_shorter _ _ _ Hne En) as Hsh.
  destruct (split_name_end _ _ _ En) as (Es & Hn & Hr).
  assert (∀ acc, foldl clean_step acc (split (skip_slashes p)) = foldl clean_step (clean_step acc name) (split rest)) as ->.
  { intros acc. rewrite Es. destruct Hr as [->|[q ->]].
    - rewrite app_nil_r, (split_plain name) by done. cbn [foldl split]. by rewrite step_empty.
    - rewrite split_app, split_slash by done. cbn [foldl]. by rewrite step_empty. }
  cbn [clean_loop]. destruct p as [|c p]; [done|]. rewrite En, is_dot, is_dotdot.
  destruct (clean_step (Some names) name) as [names'|] eqn:Ec.
  - pose proof (clean_step_clean _ _ _ Hp Hn Ec) as Hp'. destruct Hp as [Hp _]. cbn [length] in *. rewrite <- (IH rest names') by (done || lia).
    unfold clean_step in Ec. cbn [mbind option_bind] in Ec. repeat case_bool_decide.
    + by injection Ec as <-.
    + injection Ec as <-. by rewrite drop_name_render.
    + unfold too_long in Ec. destruct (_ || _); [done|]. injection Ec as <-. by rewrite render_add.
  - rewrite fold_none. unfold clean_step in Ec. cbn [mbind option_bind] in Ec. repeat case_bool_decide; [done|done|].
    unfold too_long in Ec. by destruct (_ || _).
Qed.

Lemma split_slashless p : Forall (λ n, 47 ∉ n) (split p).
Proof.
  induction p as [|c p IH]; cbn; [apply Forall_singleton, not_elem_of_nil|]. destruct (Z.eqb_spec c 47).
  - apply Forall_cons. split; [apply not_elem_of_nil|done].
  - destruct (split p); [apply Forall_singleton; set_solver|]. apply Forall_cons in IH as [H1 H2]. apply Forall_cons. split; [set_solver|done].
Qed.

Lemma clean_root : clean [].
Proof. split; [done|by vm_compute]. Qed.

Lemma cleaned_clean p names : cleaned p = Some names → clean names.
Proof.
  unfold cleaned. generalize (split_slashless p) clean_root. generalize (split p) (@nil (list Z)). intros l.
  induction l as [|n l IH]; intros names0 Hs H0; cbn [foldl]; [by intros [= <-]|]. apply Forall_cons in Hs as [Hn Hs].
  destruct (clean_step (Some names0) n) as [names1|] eqn:E; [|by rewrite fold_none]. apply IH; [done|]. by eapply clean_step_clean.
Qed.

Lemma clean_path_eq p :
  vfs_clean_path p = if aget 0 p 0 =? 47 then match cleaned p with Some names => Good (render names) | None => Err (- ENAMETOOLONG) end
                     else Err (- EINVAL).
Proof.
  unfold vfs_clean_path, cleaned. destruct (aget 0 p 0 =? 47); cbn [negb]; [|done]. apply (clean_loop_correct (length p) p []); [done|apply clean_root].
Qed.

(** ** Clean paths *)

Lemma split_render names : Forall plain names → split (render names) = [] :: match names with [] => [[]] | _ => names end.
Proof.
  intros Hp. destruct names as [|n names]; [done|]. unfold render. cbn [fmap list_fmap concat app]. rewrite split_slash. f_equal.
  revert n Hp. induction names as [|m names IH]; intros n [[_ _ _ Hn _] Hp]%Forall_cons; cbn [fmap list_fmap concat].
  - by rewrite app_nil_r, split_plain.
  - cbn [app]. rewrite split_app by done. f_equal. by apply IH.
Qed.

Lemma fold_fits names done_ :
  Forall plain names → len (render (done_ ++ names)) ≤ VFS_PATH_MAX → foldl clean_step (Some done_) names = Some (done_ ++ names).
Proof.
  revert done_. induction names as [|n names IH]; intros done_ Hp Hl; cbn [foldl]; [by rewrite app_nil_r|].
  apply Forall_cons in Hp as [[H1 H2 H3 H4 H5] Hp].
  assert (too_long done_ n = false) as Ht.
  { unfold too_long. apply orb_false_iff. rewrite !Z.gtb_ltb, !Z.ltb_ge. split; [done|]. destruct (decide (done_ = [])) as [->|Hne].
    - unfold len in *. cbn. lia.
    - pose proof (render_app_length (done_ ++ [n]) names) as Hr. rewrite <- app_assoc in Hr. cbn [app] in Hr. rewrite render_snoc in Hr by done.
      unfold len in *. rewrite length_app in Hr. cbn [length] in Hr. lia. }
  unfold clean_step at 2. cbn [mbind option_bind]. rewrite bool_decide_false by naive_solver. rewrite bool_decide_false by done. rewrite Ht.
  rewrite IH; [by rewrite <- app_assoc|done|by rewrite <- app_assoc].
Qed.

(** A clean path is its own cleaning. *)
Lemma cleaned_render names : clean names → cleaned (render names) = Some names.
Proof.
  intros [Hp Hl]. unfold cleaned. rewrite split_render by done. cbn [foldl]. rewrite step_empty.
  destruct names as [|n names]; [done|]. by apply (fold_fits _ []).
Qed.

Lemma render_slash names : aget 0 (render names) 0 = 47.
Proof. by destruct names. Qed.

(** C19: [vfs_clean_path] returns on every string. Without a leading slash it
    is [-EINVAL]; otherwise the result is the path of the names left when
    empty names and [.] are dropped and [..] removes the name before it (none
    at the root), or [-ENAMETOOLONG] exactly when some name is longer than 63
    bytes or the path grows past 255 on the way. The result fits the buffer of
    [VFS_PATH_MAX + 1] bytes, has only plain names, and cleaning it again
    changes nothing. *)
Theorem clean_path_correct p :
  match vfs_clean_path p with
  | Good out => ∃ names, aget 0 p 0 = 47 ∧ cleaned p = Some names ∧ out = render names ∧
      Forall plain names ∧ len out ≤ VFS_PATH_MAX ∧ vfs_clean_path out = Good out
  | Err e => (aget 0 p 0 ≠ 47 ∧ e = - EINVAL) ∨ (aget 0 p 0 = 47 ∧ cleaned p = None ∧ e = - ENAMETOOLONG)
  | Hang => False
  end.
Proof.
  rewrite clean_path_eq. destruct (Z.eqb_spec (aget 0 p 0) 47) as [E|]; [|by left].
  destruct (cleaned p) as [names|] eqn:Ec; [|by right]. destruct (cleaned_clean _ _ Ec) as [Hp Hl]. exists names. split_and!; try done.
  by rewrite clean_path_eq, render_slash, (cleaned_render names (conj Hp Hl)).
Qed.
