(* ===== verification/Vfs.v ===== *)
(** * Open files, and changes to the name space ([zkt/fs/vfs.c])

    Every operation of the file is a definition here, except the accessors of
    [struct file]. The calling thread's namespace is an argument, and a result
    where the operation changes it; an open file that an operation changes is
    part of its result. [room] says whether an allocation succeeds. *)
From S2P Require Import Prelude StateM Abi Namespace.
Local Open Scope Z_scope.

(** [struct file] *)
Record file := File {
  frefs : Z;
  mode : Z;
  fname : list Z;
  floc : location;
  offset : Z;
  member : Z;
  index : Z;
  entry : Z
}.

Inductive bind_flag := BIND_REPLACE | BIND_BEFORE | BIND_AFTER.
#[export] Instance bind_flag_eq_dec : EqDecision bind_flag.
Proof. solve_decision. Defined.

Definition can_read (f : file) : bool := (mode f =? OREAD) || (mode f =? ORDWR).
Definition can_write (f : file) : bool := (mode f =? OWRITE) || (mode f =? ORDWR).

(** [loc.v[0]]; a location has a member at least. *)
Definition first (l : location) : Z := match l with (v, _) :: _ => v | [] => 0 end.

(** The index of the last slash from [i] on, [slash] being the last before. *)
Fixpoint last_slash (i : nat) (slash : option nat) (p : list Z) : option nat :=
  match p with [] => slash | c :: p => last_slash (S i) (if c =? 47 then Some i else slash) p end.

Definition at_offset (f : file) (o : Z) : file := File (frefs f) (mode f) (fname f) (floc f) o (member f) (index f) (entry f).
Definition at_entry (f : file) (m i e : Z) : file := File (frefs f) (mode f) (fname f) (floc f) (offset f) m i e.
Definition with_frefs (f : file) (n : Z) : file := File n (mode f) (fname f) (floc f) (offset f) (member f) (index f) (entry f).

Section vfs.
Context {F : Type} (ops : world F → Z → vnode_ops (world F)).
Local Abbreviation W := (world F).
Implicit Types (w : W) (v : Z) (l : location) (ns : namespace) (f : file) (p leaf : list Z).

(** A result that is no part of the state. *)
Definition lift {A} (r : result A) : st W A := λ w, (r, w).

(** The directory a path's last element goes in, that element, and the
    directory's path. *)
Definition parent_of ns p : st W (location * list Z * list Z) :=
  clean ← lift (vfs_clean_path p);
  match last_slash 0 None clean with
  | None => fail (- EINVAL)
  | Some slash =>
      if aget 0 clean (Z.of_nat slash + 1) =? 0 then fail (- EINVAL)
      else
        let dir := take slash clean in
        '(l, _) ← ns_resolve ops ns (if aget 0 dir 0 =? 0 then [47] else dir);
        mret (l, take (Z.to_nat VFS_NAME_MAX) (drop (S slash) clean), if (slash =? 0)%nat then [47] else dir)
  end.

Definition writable_dir w l : option Z := if is_dir_type (vtype w (first l)) then Some (first l) else None.

Definition vfs_create ns p (type : vnode_type) : st W Z :=
  match type with
  | VNODE_FILE | VNODE_DIR =>
      '(l, leaf, _) ← parent_of ns p;
      w ← get;
      r ← try match writable_dir w l with
              | None => fail (- ENOTDIR)
              | Some dir => match op_create (ops w dir) with None => fail (- EROFS) | Some create => create leaf type end
              end;
      location_release ops l ;;
      match r with inl rc => fail rc | inr v => mret v end
  | _ => fail (- EINVAL)
  end.

Definition exists_for (dir : Z) leaf : st W unit :=
  w ← get;
  match op_walk (ops w dir) with
  | None => fail (- EROFS)
  | Some walk =>
      r ← try (walk leaf);
      match r with
      | inl look => fail look
      | inr found => vnode_unref ops found ;; fail (- EROFS)
      end
  end.

Definition vfs_remove ns p (expect : vnode_type) : st W unit :=
  '(l, leaf, _) ← parent_of ns p;
  w ← get;
  r ← try match writable_dir w l with
          | None => fail (- ENOTDIR)
          | Some dir => match op_remove (ops w dir) with Some remove => remove leaf expect | None => exists_for dir leaf end
          end;
  location_release ops l ;;
  match r with inl rc => fail rc | inr _ => mret tt end.

Definition vfs_unlink ns p : st W unit := vfs_remove ns p VNODE_FILE.
Definition vfs_rmdir ns p : st W unit := vfs_remove ns p VNODE_DIR.

Definition vfs_rename ns (from to : list Z) : st W unit :=
  '(a, leaf_a, pa) ← parent_of ns from;
  r ← try (parent_of ns to);
  match r with
  | inl rc => location_release ops a ;; fail rc
  | inr (b, leaf_b, pb) =>
      w ← get;
      let dir := writable_dir w a in
      let same := bool_decide (dir = writable_dir w b) || bool_decide (pa = pb) in
      r ← try (if negb same then fail (- EXDEV)
               else match dir with
                    | None => fail (- ENOTDIR)
                    | Some dir => match op_rename (ops w dir) with Some rename => rename leaf_a leaf_b | None => exists_for dir leaf_a end
                    end);
      location_release ops a ;;
      location_release ops b ;;
      match r with inl rc => fail rc | inr _ => mret tt end
  end.

(** The checks of [vfs_open] on what the path gave. *)
Definition open_checks w v (access flags : Z) (existed : bool) : st W unit :=
  if (Z.land flags (Z.lor O_CREAT O_EXCL) =? Z.lor O_CREAT O_EXCL) && existed then fail (- EEXIST)
  else if negb (access =? OREAD) && is_dir_type (vtype w v) then fail (- EISDIR)
  else if negb (Z.land flags O_TRUNC =? 0) && negb (access =? OREAD) && match vtype w v with VNODE_FILE => true | _ => false end then
    match op_truncate (ops w v) with None => fail (- EROFS) | Some truncate => truncate 0 end
  else if negb (access =? OREAD) && match op_write (ops w v) with None => true | Some _ => false end then fail (- EROFS)
  else mret tt.

Definition vfs_open (room : bool) ns p (m : Z) : st W file :=
  let access := Z.land m 3 in
  let flags := Z.land m (Z.lnot 3) in
  if negb ((access =? OREAD) || (access =? OWRITE) || (access =? ORDWR))
     || negb (Z.land flags (Z.lnot (Z.lor (Z.lor O_CREAT O_TRUNC) O_EXCL)) =? 0) then fail (- EINVAL)
  else if negb room then fail (- ENOMEM)
  else
    r ← try (ns_resolve ops ns p);
    '(l, canon, existed) ←
      match r with
      | inr (l, canon) => mret (l, canon, true)
      | inl rc =>
          if (rc =? - ENOENT) && negb (Z.land flags O_CREAT =? 0) then
            v ← vfs_create ns p VNODE_FILE;
            canon ← lift (vfs_clean_path p);
            mret ([(v, [])], canon, false)
          else fail rc
      end;
    w ← get;
    r ← try (open_checks w (first l) access flags existed);
    match r with
    | inl rc => location_release ops l ;; fail rc
    | inr _ =>
        let slash := default O (last_slash 0 None canon) in
        let name := if aget 0 canon 1 =? 0 then [47] else drop (S slash) canon in
        mret (File 1 access (take (Z.to_nat VFS_NAME_MAX) name) l 0 0 0 0)
    end.

Definition vfs_open_vnode (room : bool) v (m : Z) (name : list Z) : st W file :=
  if room then mret (File 1 m (take (Z.to_nat VFS_NAME_MAX) name) [(v, [])] 0 0 0 0) else fail (- ENOMEM).

Definition vfs_pread f (n off : Z) : st W (list Z) :=
  w ← get;
  let v := first (floc f) in
  if negb (can_read f) then fail (- EBADF)
  else if is_dir_type (vtype w v) then fail (- EISDIR)
  else match op_read (ops w v) with None => fail (- ENODEV) | Some read => read off n end.

(** The [n] bytes read move the offset; [n] is 0 at the end of the file. *)
Definition vfs_read f (n : Z) : st W (file * list Z) :=
  w ← get;
  let v := first (floc f) in
  if negb (can_read f) then fail (- EBADF)
  else if is_dir_type (vtype w v) then fail (- EISDIR)
  else match op_read (ops w v) with
       | None => fail (- ENODEV)
       | Some read => data ← read (offset f) n; mret (at_offset f (u32 (offset f + len data)), data)
       end.

(** Calling a NULL [write] has no result; [vfs_open] lets no such file out. *)
Definition vfs_pwrite f (buf : list Z) (off : Z) : st W Z :=
  w ← get;
  if negb (can_write f) then fail (- EBADF)
  else match op_write (ops w (first (floc f))) with None => hang | Some write => write off buf end.

Definition vfs_write f (buf : list Z) : st W (file * Z) :=
  w ← get;
  if negb (can_write f) then fail (- EBADF)
  else match op_write (ops w (first (floc f))) with
       | None => hang
       | Some write => n ← write (offset f) buf; mret (at_offset f (u32 (offset f + n)), n)
       end.

Definition vfs_dup f : file := with_frefs f (u32 (frefs f + 1)).

(** The loop over the members from the one being listed; [Some] an entry, and
    [inl] an error, with the file as it is then. *)
Fixpoint readdir_loop (ms : location) f : st W (file * (Z + option dirent)) :=
  match ms with
  | [] => mret (f, inr None)
  | (v, _) :: ms =>
      w ← get;
      r ← try match is_dir_type (vtype w v), op_readdir (ops w v) with
              | true, Some readdir => readdir (index f)
              | _, _ => mret None
              end;
      match r with
      | inr (Some d) => mret (at_entry f (member f) (u32 (index f + 1)) (u32 (entry f + 1)), inr (Some d))
      | inl rc => mret (f, inl rc)
      | inr None => readdir_loop ms (at_entry f (member f + 1) 0 (entry f))
      end
  end.

Definition vfs_readdir f : st W (file * (Z + option dirent)) :=
  w ← get;
  if negb (is_dir_type (vtype w (first (floc f)))) then mret (f, inl (- ENOTDIR))
  else readdir_loop (drop (Z.to_nat (member f)) (floc f)) f.

(** [while (f->entry < e)]; the entries before [e] are read and dropped. *)
Fixpoint skip_entries (fuel : nat) (e : Z) f : st W (file * (Z + option dirent)) :=
  if entry f <? e then
    match fuel with
    | O => hang
    | S fuel =>
        '(f, r) ← vfs_readdir f;
        match r with inr (Some _) => skip_entries fuel e f | _ => mret (f, r) end
    end
  else vfs_readdir f.

Definition vfs_readdir_at f (e : Z) : st W (file * (Z + option dirent)) :=
  let f := if e <? entry f then at_entry f 0 0 0 else f in
  skip_entries (Z.to_nat (e - entry f)) e f.

Definition vfs_seek f (off whence : Z) : st W (file * Z) :=
  w ← get;
  if is_dir_type (vtype w (first (floc f))) then
    if negb (off =? 0) || negb (whence =? SEEK_SET) then fail (- EINVAL) else mret (at_entry f 0 0 0, 0)
  else
    let base := if whence =? SEEK_SET then 0 else if whence =? SEEK_CUR then offset f
                else if whence =? SEEK_END then vsize w (first (floc f)) else -1 in
    let target := base + off in
    if (base <? 0) || (target <? 0) || (target >? 0x7FFFFFFF) then fail (- EINVAL)
    else mret (at_offset f (u32 target), target).

(** [None]: the last reference went, and the file with it. *)
Definition vfs_close f : st W (option file) :=
  let n := u32 (frefs f - 1) in
  if n =? 0 then location_release ops (floc f) ;; mret None else mret (Some (with_frefs f n)).

Definition vfs_poll f : st W Z :=
  w ← get; match op_poll (ops w (first (floc f))) with Some poll => poll | None => mret 1 end.

Definition vfs_fileattr (room : bool) ns p (attr : option Z) : st W Z :=
  f ← vfs_open room ns p OREAD;
  w ← get;
  r ← try match op_fileattr (ops w (first (floc f))) with None => fail (- ENOSYS) | Some fileattr => fileattr attr end;
  vfs_close f ;;
  match r with inl rc => fail rc | inr a => mret a end.

Definition bind_locations (room : bool) ns (from onto : location) (old_canon : list Z) (flag : bind_flag) : st W namespace :=
  w ← get;
  let from_dir := is_dir_type (vtype w (first from)) in
  let onto_dir := is_dir_type (vtype w (first onto)) in
  r ← try
    (if negb (eqb from_dir onto_dir) then fail (if onto_dir then - ENOTDIR else - EISDIR)
     else if negb (bool_decide (flag = BIND_REPLACE)) && negb onto_dir then fail (- ENOTDIR)
     else
       let fst_ := match flag with BIND_AFTER => onto | _ => from end in
       let snd_ := match flag with BIND_REPLACE => [] | BIND_AFTER => from | BIND_BEFORE => onto end in
       if Z.of_nat (length fst_ + length snd_) >? VFS_UNION_MAX then fail (- EINVAL)
       else
         location_copy fst_ ;;
         location_copy snd_ ;;
         ns_set_mount ops room ns old_canon (fst_ ++ snd_));
  location_release ops from ;;
  location_release ops onto ;;
  match r with inl rc => fail rc | inr ns => mret ns end.

Definition vfs_bind (room : bool) ns (new_path old_path : list Z) (flag : bind_flag) : st W namespace :=
  '(from, _) ← ns_resolve ops ns new_path;
  r ← try (ns_resolve ops ns old_path);
  match r with
  | inl rc => location_release ops from ;; fail rc
  | inr (onto, old_canon) => bind_locations room ns from onto old_canon flag
  end.

Definition vfs_mount (room : bool) ns (vroot : Z) (label old_path : list Z) (flag : bind_flag) : st W namespace :=
  '(onto, old_canon) ← ns_resolve ops ns old_path;
  vnode_ref vroot ;;
  bind_locations room ns [(vroot, set_label label)] onto old_canon flag.

Definition vfs_unbind ns (old_path : list Z) : st W namespace :=
  canon ← lift (vfs_clean_path old_path);
  ns_remove_mount ops ns canon.
End vfs.
