(* ===== verification/VfsRefs.v ===== *)
(** * Vnode references

    What every operation of [namespace.c] and [vfs.c] adds to the reference
    counts of vnodes, over any file system that keeps the contract of
    [zkt/fs/vfs.h] ([Counted]): a walk and a create give one reference to what
    they return, nothing else gives or takes any. Counts are compared modulo
    2^32, the width of the field. *)
From S2P Require Import Prelude StateM Abi Namespace Paths Vfs.
Local Open Scope Z_scope.

Definition one (x v : Z) : Z := if v =? x then 1 else 0.

(** The references a location, a mount table, a namespace and a file hold. *)
Fixpoint uses (l : location) (v : Z) : Z := match l with [] => 0 | (x, _) :: l => one x v + uses l v end.
Fixpoint table_uses (m : list mount) (v : Z) : Z := match m with [] => 0 | x :: m => uses (loc x) v + table_uses m v end.
Definition ns_uses (ns : namespace) (v : Z) : Z := one (root ns) v + table_uses (mounts ns) v.
Definition file_uses (f : file) (v : Z) : Z := uses (floc f) v.

Lemma uses_app l l' v : uses (l ++ l') v = uses l v + uses l' v.
Proof. induction l as [|[x ?] l IH]; cbn [app uses]; lia. Qed.
Lemma table_uses_app m m' v : table_uses (m ++ m') v = table_uses m v + table_uses m' v.
Proof. induction m as [|x m IH]; cbn [app table_uses]; lia. Qed.

(** Nothing, or one reference to the result. *)
Definition none {A} (r : Z + A) (v : Z) : Z := 0.
Definition given (r : Z + Z) (v : Z) : Z := match r with inr n => one n v | inl _ => 0 end.

(** For what returns no error: a change, whatever is asked of an error. *)
Definition sure {A} (d : Z → Z) (err : Z → Z → Z) (r : Z + A) : Z → Z := match r with inr _ => d | inl e => err e end.

Definition tried {A} (d : Z + A → Z → Z) (err : Z → Z → Z) (r : Z + (Z + A)) : Z → Z := match r with inr r => d r | inl e => err e end.

(** The change of an operation that gives its file back. *)
Definition same_file {A} (f : file) (r : Z + file * A) (v : Z) : Z := match r with inr (f', _) => file_uses f' v - file_uses f v | inl _ => 0 end.

(** What a change of the calling thread's namespace adds. *)
Definition moved (ns : namespace) (r : Z + namespace) (v : Z) : Z := match r with inr ns' => ns_uses ns' v - ns_uses ns v | inl _ => 0 end.

(** [known] closes the goals about operations that have a lemma, [acct_go]
    follows the code. *)
Ltac known := fail.
Ltac acct_lia := intros; cbn [sure tried root mounts loc floc given uses table_uses] in *; unfold none, same_file, moved, ns_uses, file_uses, at_offset, at_entry, with_frefs in *;
  cbn [root mounts loc floc uses table_uses] in *; try done; try lia.

Section accounting.
Context {F : Type} (ops : world F → Z → vnode_ops (world F)) (I : world F → Prop).
Local Abbreviation W := (world F).
Implicit Types (w : W) (v : Z) (l : location) (ns : namespace) (f : file).

Definition counts w w' (d : Z → Z) : Prop := ∀ v, u32 (refs w' v) = u32 (refs w v + d v).

Lemma counts_refl w d : (∀ v, d v = 0) → counts w w d.
Proof. intros H v. by rewrite H, Z.add_0_r. Qed.
Lemma counts_trans w w1 w2 d e : counts w w1 d → counts w1 w2 e → counts w w2 (λ v, d v + e v).
Proof.
  intros H1 H2 v. specialize (H1 v). specialize (H2 v). unfold u32 in *. rewrite H2, <- Zplus_mod_idemp_l, H1, Zplus_mod_idemp_l. f_equal. lia.
Qed.
Lemma counts_ext w w' d e : (∀ v, d v = e v) → counts w w' d → counts w w' e.
Proof. intros H Hc v. by rewrite <- H. Qed.

(** [m] ends from [w], in a state with the invariant, and changes the counts
    by [d] of its result or error. *)
Definition acct {A} (m : st W A) w (d : Z + A → Z → Z) : Prop :=
  match m w with
  | (Good a, w') => I w' ∧ counts w w' (d (inr a))
  | (Err e, w') => I w' ∧ counts w w' (d (inl e))
  | (Hang, _) => False
  end.

Lemma acct_ret {A} (a : A) w d : I w → (∀ v, d (inr a) v = 0) → acct (mret a) w d.
Proof. intros Hi H. split; [done|by apply counts_refl]. Qed.
Lemma acct_fail {A} e w (d : Z + A → Z → Z) : I w → (∀ v, d (inl e) v = 0) → acct (fail e) w d.
Proof. intros Hi H. split; [done|by apply counts_refl]. Qed.
Lemma acct_ext {A} (m : st W A) w d d' : acct m w d → (∀ r v, d r v = d' r v) → acct m w d'.
Proof.
  intros H E. unfold acct in *. destruct (m w) as [[a|e|] w']; [| |done]; destruct H as [? H]; (split; [done|]); (eapply counts_ext; [|exact H]); intros; apply E.
Qed.
Lemma acct_bind {A B} (m : st W A) (k : A → st W B) w d (d' : Z + B → Z → Z) :
  acct m w d → (∀ e v, d (inl e) v = d' (inl e) v) →
  (∀ a w', I w' → acct (k a) w' (λ r v, d' r v - d (inr a) v)) → acct (m ≫= k) w d'.
Proof.
  unfold acct, mbind, st_bind. intros H He Hk. destruct (m w) as [[a|e|] w']; [| |done]; destruct H as [Hi Hc].
  - specialize (Hk a w' Hi). destruct (k a w') as [[b|e|] w'']; [| |done]; destruct Hk as [Hi' Hc']; (split; [done|]);
      (eapply counts_ext; [|by eapply counts_trans]); intros v; cbn; lia.
  - split; [done|]. eapply counts_ext; [|exact Hc]. apply He.
Qed.
Lemma acct_try {A} (m : st W A) w d err : acct m w d → acct (try m) w (tried d err).
Proof. unfold acct, try. by destruct (m w) as [[a|e|] w']. Qed.
Lemma acct_get {B} (k : W → st W B) w d : acct (k w) w d → acct (get ≫= k) w d.
Proof. done. Qed.
Lemma acct_assoc {A B C} (m : st W A) (f : A → st W B) (g : B → st W C) w d :
  acct (m ≫= λ a, f a ≫= g) w d → acct ((m ≫= f) ≫= g) w d.
Proof. unfold acct, mbind, st_bind. by destruct (m w) as [[a|e|] w']. Qed.
Lemma acct_ret_bind {A B} (a : A) (k : A → st W B) w d : acct (k a) w d → acct (mret a ≫= k) w d.
Proof. done. Qed.
Lemma acct_fail_bind {A B} e (k : A → st W B) w d : I w → (∀ v, d (inl e) v = 0) → acct (fail e ≫= k) w d.
Proof. intros Hi H. split; [done|by apply counts_refl]. Qed.
Lemma acct_lift {A} (r : result A) w (d : Z + A → Z → Z) :
  I w → r ≠ Hang → (∀ x v, d x v = 0) → acct (lift r) w d.
Proof. intros Hi Hr Hd. unfold acct, lift. destruct r; [| |done]; (split; [done|by apply counts_refl]). Qed.

(** The contract of a file system's operations. *)
Class Counted (writable : Z → bool) : Prop := {
  c_refs w r : I w → I (set_refs w r);
  c_walk w v walk name : I w → op_walk (ops w v) = Some walk → acct (walk name) w given;
  c_create w v create name t : I w → op_create (ops w v) = Some create → acct (create name t) w given;
  c_remove w v remove name t : I w → op_remove (ops w v) = Some remove → acct (remove name t) w none;
  c_rename w v rename a b : I w → op_rename (ops w v) = Some rename → acct (rename a b) w none;
  c_read w v read o n : I w → op_read (ops w v) = Some read → acct (read o n) w none;
  c_write w v write o b : I w → op_write (ops w v) = Some write → acct (write o b) w none;
  c_truncate w v truncate n : I w → op_truncate (ops w v) = Some truncate → acct (truncate n) w none;
  c_readdir w v readdir i : I w → op_readdir (ops w v) = Some readdir → acct (readdir i) w none;
  c_fileattr w v fileattr a : I w → op_fileattr (ops w v) = Some fileattr → acct (fileattr a) w none;
  c_release w v release : I w → op_release (ops w v) = Some release → ∀ err, acct release w (sure (λ _, 0) err);
  c_can_write w v : I w → (is_Some (op_write (ops w v)) ↔ writable v = true);
  c_can_truncate w v : I w → is_Some (op_truncate (ops w v)) → writable v = true
}.

Ltac acct_step :=
  match goal with
  | |- acct (mret _) _ _ => apply acct_ret; [done|acct_lia]
  | |- acct (fail _) _ _ => apply acct_fail; [done|acct_lia]
  | |- acct (get ≫= _) _ _ => apply acct_get
  | |- acct (try _ ≫= _) _ _ => eapply acct_bind; [eapply acct_try|acct_lia|intros [?|?] ? ?]
  | |- acct (_ ≫= _) _ _ => eapply acct_bind; [known|acct_lia|intros ? ? ?]
  | |- acct _ _ _ => known
  | |- acct _ _ _ => eapply acct_ext; [known|acct_lia]
  end.

Lemma acct_count_up v w err : (∀ r, I (set_refs w r)) → acct (vnode_ref v) w (sure (one v) err).
Proof.
  intros Hi. unfold vnode_ref, modify, acct. split; [apply Hi|]. intros x. unfold one. cbn. destruct (x =? v); [|by rewrite Z.add_0_r].
  unfold u32. by rewrite Zmod_mod.
Qed.

Context {writable : Z → bool} `{Counted writable}.

Lemma acct_vnode_ref v w err : I w → acct (vnode_ref v) w (sure (one v) err).
Proof. intros Hi. apply acct_count_up. intros r. by apply c_refs. Qed.

Lemma acct_vnode_unref v w err : I w → acct (vnode_unref ops v) w (sure (λ x, - one v x) err).
Proof.
  intros Hi. unfold vnode_unref. eapply (acct_bind _ _ _ (sure (λ x, - one v x) err)); [|done|].
  - unfold modify, acct. split; [by apply c_refs|]. intros x. unfold one. cbn. destruct (x =? v); [|by rewrite Z.add_0_r].
    unfold u32. by rewrite Zmod_mod.
  - intros [] w' Hi'. apply acct_get. destruct (_ =? 0); [|acct_step].
    destruct (op_release (ops w' v)) as [r|] eqn:E; [|acct_step].
    eapply acct_ext; [by eapply (c_release w' v r Hi' E (λ e x, err e x + one v x))|]. intros [] ?; acct_lia.
Qed.

Ltac known ::= first [by eapply acct_vnode_ref | by eapply acct_vnode_unref].

Lemma acct_location_copy l w err : I w → acct (location_copy l) w (sure (uses l) err).
Proof.
  revert w err. induction l as [|[x s] l IH]; intros w err Hi; cbn [location_copy]; [acct_step|].
  acct_step. eapply acct_ext; [by apply (IH _ (λ e v, err e v - one x v))|]. intros [] ?; acct_lia.
Qed.

Lemma acct_location_release l w err : I w → acct (location_release ops l) w (sure (λ v, - uses l v) err).
Proof.
  revert w err. induction l as [|[x s] l IH]; intros w err Hi; cbn [location_release]; [acct_step|].
  acct_step. eapply acct_ext; [by apply (IH _ (λ e v, err e v + one x v))|]. intros [] ?; acct_lia.
Qed.

Ltac known ::= first [by eapply acct_vnode_ref | by eapply acct_vnode_unref | by eapply acct_location_copy | by eapply acct_location_release].

Lemma acct_release_mounts m w err : I w → acct (release_mounts ops m) w (sure (λ v, - table_uses m v) err).
Proof.
  revert w err. induction m as [|x m IH]; intros w err Hi; cbn [release_mounts]; [acct_step|].
  acct_step. eapply acct_ext; [by apply (IH _ (λ e v, err e v + uses (loc x) v))|]. intros [] ?; acct_lia.
Qed.

Ltac known ::= first [by eapply acct_vnode_ref | by eapply acct_vnode_unref | by eapply acct_location_copy | by eapply acct_location_release
  | by eapply acct_release_mounts].

Lemma acct_ns_unref ns w err : I w →
  acct (ns_unref ops ns) w (λ r x, match r with inr None => - ns_uses ns x | inr (Some ns') => ns_uses ns' x - ns_uses ns x | inl e => err e x end).
Proof. intros Hi. unfold ns_unref. destruct (_ =? 0); repeat acct_step. Qed.

Lemma acct_copy_mounts room m w err : I w →
  acct (copy_mounts room m) w (λ r x, match r with inr (m, _) => table_uses m x | inl e => err e x end).
Proof.
  revert room w err. induction m as [|x m IH]; intros room w err Hi; cbn [copy_mounts]; [acct_step|].
  destruct (default true (head room)); [|acct_step]. acct_step.
  eapply acct_bind; [by apply (IH _ _ (λ e v, err e v - uses (loc x) v))|acct_lia|]. intros [rest ok] w2 Hi2. acct_step.
Qed.

Lemma acct_ns_fork room ns w : I w →
  acct (ns_fork ops room ns) w (λ r x, match r with inr (Some ns) => ns_uses ns x | _ => 0 end).
Proof.
  intros Hi. unfold ns_fork, ns_create. destruct (default true (head room)); [|apply acct_ret; acct_lia].
  apply acct_assoc. acct_step. apply acct_ret_bind.
  eapply acct_bind; [by apply (acct_copy_mounts _ _ _ (λ e v, - one (root ns) v))|acct_lia|]. intros [m ok] w2 Hi2. cbn [ns_refs root].
  destruct ok; [acct_step|]. unfold ns_unref. cbv zeta. cbn [ns_refs mounts root]. change (u32 (1 - 1) =? 0) with true. cbn iota.
  apply acct_assoc. acct_step. apply acct_assoc. acct_step. apply acct_ret_bind. acct_step.
Qed.

Lemma acct_apply_mount ns canon l w err : I w →
  acct (apply_mount ops ns canon l) w (λ r v, match r with inr l' => uses l' v - uses l v | inl e => err e v end).
Proof. intros Hi. unfold apply_mount. destruct (find_mount ns canon); repeat acct_step. Qed.

Lemma acct_walk_location l name rc w : I w → acct (walk_location ops l name rc) w given.
Proof.
  revert rc w. induction l as [|[v s] l IH]; intros rc w Hi; cbn [walk_location]; [acct_step|]. acct_step.
  destruct (is_dir_type _), (op_walk (ops w v)) as [walk|] eqn:E; [|by apply IH..].
  acct_step; [by eapply c_walk| |].
  - eapply acct_ext; [by apply IH|]. acct_lia.
  - acct_step.
Qed.

Lemma acct_resolve_loop fuel ns p prefix l w : I w → (length p ≤ fuel)%nat →
  acct (resolve_loop ops fuel ns p prefix l) w (λ r v, match r with inr l' => uses l' v - uses l v | inl _ => - uses l v end).
Proof.
  revert p prefix l w. induction fuel as [|fuel IH]; intros p prefix l w Hi Hf; (destruct p as [|c p]; cbn [resolve_loop]; [acct_step|]); [cbn in Hf; lia|].
  destruct (name_end (c :: p)) as [name rest] eqn:En. destruct (split_name_end _ _ _ En) as (Es & _ & Hr).
  acct_step; [by apply acct_walk_location| |]; acct_step; [acct_step|].
  eapply acct_bind; [by apply (acct_apply_mount _ _ _ _ (λ _, λ v, - one z v))|acct_lia|]. intros l' w2 Hi2.
  eapply acct_ext; [apply IH; [done|]|].
  - apply (f_equal length) in Es. rewrite length_app in Es. cbn [length] in Es, Hf. destruct Hr as [->|[q ->]].
    + change (aget 0 [] 0 =? 47) with false. cbn [length]. lia.
    + change (aget 0 (47 :: q) 0 =? 47) with true. cbn iota. rewrite length_drop. cbn [length] in *. lia.
  - intros [] ?; acct_lia.
Qed.

Lemma clean_path_ends p : vfs_clean_path p ≠ Hang.
Proof. rewrite clean_path_eq. destruct (_ =? 47); [|done]. by destruct (cleaned p). Qed.

Lemma acct_ns_resolve ns p w : I w → acct (ns_resolve ops ns p) w (λ r v, match r with inr (l, _) => uses l v | inl _ => 0 end).
Proof.
  intros Hi. unfold ns_resolve. pose proof (clean_path_ends p). destruct (vfs_clean_path p) as [clean|e|]; [|acct_step|done]. acct_step.
  eapply acct_bind; [by apply (acct_apply_mount _ _ _ _ (λ _ v, - one (root ns) v))|acct_lia|]. intros l w2 Hi2.
  eapply acct_bind; [apply acct_resolve_loop; [done|rewrite length_drop; lia]|acct_lia|]. intros l' w3 Hi3. acct_step.
Qed.

Lemma replace_uses canon l m v :
  table_uses (replace_mount canon l m) v =
  match List.find (λ m, bool_decide (path m = canon)) m with Some x => table_uses m v - uses (loc x) v + uses l v | None => table_uses m v end.
Proof.
  induction m as [|x m IH]; cbn [replace_mount List.find table_uses]; [done|]. destruct (bool_decide _); cbn [table_uses loc]; [lia|].
  rewrite IH. destruct (List.find _ m); lia.
Qed.

Lemma unlink_uses canon m v :
  table_uses (unlink_mount canon m) v =
  match List.find (λ m, bool_decide (path m = canon)) m with Some x => table_uses m v - uses (loc x) v | None => table_uses m v end.
Proof.
  induction m as [|x m IH]; cbn [unlink_mount List.find table_uses]; [done|]. destruct (bool_decide _); cbn [table_uses loc]; [lia|].
  rewrite IH. destruct (List.find _ m); lia.
Qed.

(** The references of [l] become the table's, or are dropped. *)
Lemma acct_ns_set_mount room ns canon l w : I w →
  acct (ns_set_mount ops room ns canon l) w (λ r v, match r with inr ns' => ns_uses ns' v - ns_uses ns v - uses l v | inl _ => - uses l v end).
Proof.
  intros Hi. unfold ns_set_mount, find_mount. pose proof (replace_uses canon l (mounts ns)) as Hr.
  destruct (List.find _ (mounts ns)) as [x|]; cbn [fmap option_fmap option_map]; [|destruct room].
  - acct_step. acct_step. rewrite Hr. lia.
  - acct_step. rewrite table_uses_app. cbn. lia.
  - repeat acct_step.
Qed.

Lemma acct_ns_remove_mount ns canon w : I w →
  acct (ns_remove_mount ops ns canon) w (λ r v, match r with inr ns' => ns_uses ns' v - ns_uses ns v | inl _ => 0 end).
Proof.
  intros Hi. unfold ns_remove_mount, find_mount. pose proof (unlink_uses canon (mounts ns)) as Hr.
  destruct (List.find _ (mounts ns)) as [x|]; cbn [fmap option_fmap option_map]; [|acct_step].
  acct_step. acct_step. rewrite Hr. lia.
Qed.

Ltac known ::= first [by eapply acct_vnode_ref | by eapply acct_vnode_unref | by eapply acct_location_copy | by eapply acct_location_release
  | by eapply acct_release_mounts | by eapply acct_ns_resolve | by eapply acct_ns_set_mount | by eapply acct_ns_remove_mount].

(** ** Open files *)

Lemma acct_parent_of ns p w : I w → acct (parent_of ops ns p) w (λ r v, match r with inr (l, _, _) => uses l v | inl _ => 0 end).
Proof.
  intros Hi. unfold parent_of. eapply (acct_bind _ _ _ none); [apply acct_lift; [done|apply clean_path_ends|done]|acct_lia|].
  intros clean w1 Hi1. destruct (last_slash 0 None clean); [|acct_step]. destruct (_ =? 0); [acct_step|]. acct_step. destruct a as [l ?]. acct_step.
Qed.

Ltac known ::= first [by eapply acct_vnode_ref | by eapply acct_vnode_unref | by eapply acct_location_copy | by eapply acct_location_release
  | by eapply acct_release_mounts | by eapply acct_ns_resolve | by eapply acct_ns_set_mount | by eapply acct_ns_remove_mount
  | by eapply acct_parent_of].

Lemma acct_vfs_create ns p t w : I w → acct (vfs_create ops ns p t) w given.
Proof.
  intros Hi. unfold vfs_create. destruct t; [| |acct_step|acct_step]; (acct_step; destruct a as [[l leaf] ?]; acct_step;
    (eapply (acct_bind _ _ _ (tried given (λ _ v, - uses l v))); [apply acct_try|acct_lia|intros [rc|x] w2 Hi2; repeat acct_step]);
    (destruct (writable_dir w' l) as [dir|]; [|acct_step]); (destruct (op_create _) eqn:E; [by eapply c_create|acct_step])).
Qed.

Lemma acct_exists_for dir leaf w : I w → acct (exists_for ops dir leaf) w none.
Proof.
  intros Hi. unfold exists_for. acct_step. destruct (op_walk _) eqn:E; [|acct_step].
  acct_step; [by eapply c_walk| |]; repeat acct_step.
Qed.

Lemma acct_vfs_remove ns p t w : I w → acct (vfs_remove ops ns p t) w none.
Proof.
  intros Hi. unfold vfs_remove. acct_step. destruct a as [[l leaf] ?]. acct_step.
  eapply (acct_bind _ _ _ (tried none (λ _ v, - uses l v))); [apply acct_try|acct_lia|intros [rc|x] w2 Hi2; repeat acct_step].
  destruct (writable_dir w' l) as [dir|]; [|acct_step]. destruct (op_remove _) eqn:E; [by eapply c_remove|by apply acct_exists_for].
Qed.

Lemma acct_vfs_rename ns p q w : I w → acct (vfs_rename ops ns p q) w none.
Proof.
  intros Hi. unfold vfs_rename. acct_step. destruct a as [[l leaf] pa]. acct_step; [known|repeat acct_step|].
  destruct p0 as [[b leaf_b] pb]. acct_step.
  eapply (acct_bind _ _ _ (tried none (λ _ v, - uses l v - uses b v))); [apply acct_try|acct_lia|intros [rc|x] w2 Hi2; repeat acct_step].
  destruct (negb _); [acct_step|].
  destruct (writable_dir w'0 l) as [dir|]; [|acct_step]. destruct (op_rename _) eqn:E; [by eapply c_rename|by apply acct_exists_for].
Qed.

Lemma acct_open_checks w v access flags existed : I w → acct (open_checks ops w v access flags existed) w none.
Proof.
  intros Hi. unfold open_checks. repeat (case_match; try acct_step; try by eapply c_truncate).
Qed.

Lemma acct_open_end l access flags existed name w : I w →
  acct (w ← get; r ← try (open_checks ops w (first l) access flags existed);
        match r with inl rc => location_release ops l ;; fail rc | inr _ => mret (File 1 access name l 0 0 0 0) end) w
    (λ r v, match r with inr f => file_uses f v - uses l v | inl _ => - uses l v end).
Proof. intros Hi. acct_step. acct_step; [by apply acct_open_checks| |]; repeat acct_step. Qed.

(** Creating at a path that cannot be cleaned does nothing. *)
Lemma acct_create_bad ns p e w : I w → vfs_clean_path p = Err e → acct (vfs_create ops ns p VNODE_FILE) w none.
Proof. intros Hi E. unfold acct, vfs_create, parent_of, lift, mbind, st_bind. rewrite E. split; [done|by apply counts_refl]. Qed.

Lemma acct_vfs_open room ns p m w : I w → acct (vfs_open ops room ns p m) w (λ r v, match r with inr f => file_uses f v | inl _ => 0 end).
Proof.
  intros Hi. unfold vfs_open. destruct (_ || _); [acct_step|]. destruct room; cbn [negb]; [|acct_step].
  acct_step; [known| |].
  - destruct (_ && _); [|apply acct_fail_bind; acct_lia].
    apply acct_assoc. pose proof (clean_path_ends p). destruct (vfs_clean_path p) as [clean|e|] eqn:E; [| |done].
    + eapply acct_bind; [by apply acct_vfs_create|acct_lia|]. intros v w1 Hi1.
      eapply acct_ext; [by apply (acct_open_end [(v, [])])|]. intros [] ?; acct_lia.
    + eapply acct_bind; [by eapply acct_create_bad|acct_lia|]. intros v w1 Hi1. apply acct_assoc. by apply (acct_fail_bind e).
  - destruct p0 as [l canon]. eapply acct_ext; [by apply (acct_open_end l)|]. intros [] ?; acct_lia.
Qed.

Lemma acct_vfs_read f n w : I w → acct (vfs_read ops f n) w (same_file f).
Proof.
  intros Hi. unfold vfs_read. acct_step. destruct (negb _); [acct_step|]. destruct (is_dir_type _); [acct_step|].
  destruct (op_read _) eqn:E; [|acct_step]. eapply acct_bind; [by eapply c_read|acct_lia|]. intros d w1 Hi1. acct_step.
Qed.

Lemma acct_vfs_pread f n o w : I w → acct (vfs_pread ops f n o) w none.
Proof.
  intros Hi. unfold vfs_pread. acct_step. destruct (negb _); [acct_step|]. destruct (is_dir_type _); [acct_step|].
  destruct (op_read _) eqn:E; [by eapply c_read|acct_step].
Qed.

(** A file open for writing has something to write with. *)
Definition write_ok f : Prop := can_write f = true → writable (first (floc f)) = true.

Lemma acct_vfs_write f b w : I w → write_ok f → acct (vfs_write ops f b) w (same_file f).
Proof.
  intros Hi Hw. unfold vfs_write. acct_step. destruct (can_write f) eqn:Ec; cbn [negb]; [|acct_step].
  destruct (proj2 (c_can_write w _ Hi) (Hw Ec)) as [write E]. rewrite E.
  eapply acct_bind; [by eapply c_write|acct_lia|]. intros d w1 Hi1. acct_step.
Qed.

Lemma acct_vfs_pwrite f b o w : I w → write_ok f → acct (vfs_pwrite ops f b o) w none.
Proof.
  intros Hi Hw. unfold vfs_pwrite. acct_step. destruct (can_write f) eqn:Ec; cbn [negb]; [|acct_step].
  destruct (proj2 (c_can_write w _ Hi) (Hw Ec)) as [write E]. rewrite E. by eapply c_write.
Qed.

Lemma acct_readdir_loop ms f w : I w → acct (readdir_loop ops ms f) w (same_file f).
Proof.
  revert f w. induction ms as [|[v s] ms IH]; intros f w Hi; cbn [readdir_loop]; [acct_step|]. acct_step.
  eapply (acct_bind _ _ _ (tried none (λ _ _, 0))); [apply acct_try|acct_lia|].
  - destruct (is_dir_type _), (op_readdir (ops w v)) eqn:E; [by eapply c_readdir|acct_step..].
  - intros [rc|[d|]] w1 Hi1; [acct_step|acct_step|]. eapply acct_ext; [by apply IH|]. intros [|[]] ?; acct_lia.
Qed.

Lemma acct_vfs_readdir f w : I w → acct (vfs_readdir ops f) w (same_file f).
Proof. intros Hi. unfold vfs_readdir. acct_step. destruct (negb _); [acct_step|]. by apply acct_readdir_loop. Qed.

Lemma acct_vfs_seek f o wh w : I w → acct (vfs_seek f o wh) w (same_file f).
Proof. intros Hi. unfold vfs_seek. acct_step. repeat (case_match; try acct_step). Qed.

Lemma acct_vfs_close f w err : I w → acct (vfs_close ops f) w
  (λ r v, match r with inr None => - file_uses f v | inr (Some f') => file_uses f' v - file_uses f v | inl e => err e v end).
Proof. intros Hi. unfold vfs_close. destruct (_ =? 0); repeat acct_step. Qed.

Lemma acct_bind_locations room ns from onto canon flag w : I w →
  acct (bind_locations ops room ns from onto canon flag) w
    (λ r v, match r with inr ns' => ns_uses ns' v - ns_uses ns v | inl _ => 0 end - uses from v - uses onto v).
Proof.
  intros Hi. unfold bind_locations. acct_step.
  eapply (acct_bind _ _ _ (tried (λ r v, match r with inr ns' => ns_uses ns' v - ns_uses ns v | inl _ => 0 end) (λ _ v, - uses from v - uses onto v)));
    [apply acct_try|acct_lia|intros [rc|x] w2 Hi2; repeat acct_step].
  destruct (negb _); [acct_step|]. destruct (_ && _); [acct_step|]. destruct (_ >? _); [acct_step|].
  acct_step. acct_step. eapply acct_ext; [by apply acct_ns_set_mount|]. intros [] v; rewrite uses_app; acct_lia.
Qed.

Lemma acct_vfs_bind room ns p q flag w : I w → acct (vfs_bind ops room ns p q flag) w (moved ns).
Proof.
  intros Hi. unfold vfs_bind. acct_step. destruct a as [from ?]. acct_step; [known|repeat acct_step|]. destruct p0 as [onto canon].
  eapply acct_ext; [by apply acct_bind_locations|]. intros [] ?; acct_lia.
Qed.

Lemma acct_vfs_mount room ns x label q flag w : I w → acct (vfs_mount ops room ns x label q flag) w (moved ns).
Proof.
  intros Hi. unfold vfs_mount. acct_step. destruct a as [onto canon]. acct_step.
  eapply acct_ext; [by apply acct_bind_locations|]. intros [] ?; acct_lia.
Qed.

Lemma acct_vfs_unbind ns q w : I w → acct (vfs_unbind ops ns q) w (moved ns).
Proof.
  intros Hi. unfold vfs_unbind. eapply (acct_bind _ _ _ none); [apply acct_lift; [done|apply clean_path_ends|done]|acct_lia|].
  intros canon w1 Hi1. eapply acct_ext; [by apply acct_ns_remove_mount|]. intros [] ?; acct_lia.
Qed.

(** ** What the results are *)

Definition post {A} (m : st W A) w (Q : A → Prop) : Prop := ∀ a w', m w = (Good a, w') → Q a.

Lemma post_ret {A} (a : A) w (Q : A → Prop) : Q a → post (mret a) w Q.
Proof. by intros Hq a' w' [= <- <-]. Qed.
Lemma post_fail {A} e w (Q : A → Prop) : post (fail e) w Q.
Proof. by intros a w' [=]. Qed.
Lemma post_bind {A B} (m : st W A) (k : A → st W B) w d (Q : B → Prop) :
  acct m w d → (∀ a w', I w' → post (k a) w' Q) → post (m ≫= k) w Q.
Proof.
  intros Ha Hk b w2 E. apply bind_inv in E as (a & w1 & E1 & E2). unfold acct in Ha. rewrite E1 in Ha. by eapply Hk; [apply Ha|].
Qed.
Lemma post_get {B} (k : W → st W B) w (Q : B → Prop) : post (k w) w Q → post (get ≫= k) w Q.
Proof. done. Qed.
Lemma post_assoc {A B C} (m : st W A) (f : A → st W B) (g : B → st W C) w Q :
  post (m ≫= λ a, f a ≫= g) w Q → post ((m ≫= f) ≫= g) w Q.
Proof. unfold post, mbind, st_bind. by destruct (m w) as [[a|e|] w']. Qed.

Definition opened f : Prop := frefs f = 1 ∧ entry f = 0 ∧ write_ok f.

Lemma post_open_end l access flags existed name w : I w →
  post (w ← get; r ← try (open_checks ops w (first l) access flags existed);
        match r with inl rc => location_release ops l ;; fail rc | inr _ => mret (File 1 access name l 0 0 0 0) end) w opened.
Proof.
  intros Hi. apply post_get. intros f w' E. apply bind_inv in E as ([rc|[]] & w1 & E1 & E2).
  { by apply bind_inv in E2 as (? & ? & ? & ?). }
  injection E2 as <- <-. split_and!; [done|done|]. unfold write_ok, can_write. cbn [mode floc]. intros Hc.
  assert ((access =? OREAD) = false) as Ha by (apply Z.eqb_neq; intros ->; done).
  unfold try, open_checks in E1. rewrite Ha in E1. cbn [negb andb] in E1. destruct (_ && existed); [done|]. destruct (is_dir_type _); [done|].
  destruct (_ && _).
  - destruct (op_truncate _) eqn:Et; [|done]. eapply c_can_truncate; [done|]. by rewrite Et.
  - destruct (op_write _) eqn:Et; [|done]. eapply c_can_write; [done|]. by rewrite Et.
Qed.

Lemma post_vfs_open room ns p m w : I w → post (vfs_open ops room ns p m) w opened.
Proof.
  intros Hi. unfold vfs_open. destruct (_ || _); [apply post_fail|]. destruct room; cbn [negb]; [|apply post_fail].
  eapply (post_bind _ _ _ (tried _ (λ _ _, 0))); [by apply acct_try, acct_ns_resolve|]. intros [rc|[l canon]] w1 Hi1.
  - destruct (_ && _); [|by intros ? ? ?]. apply post_assoc. eapply post_bind; [by apply acct_vfs_create|]. intros v w2 Hi2.
    pose proof (clean_path_ends p). destruct (vfs_clean_path p) as [clean|e|] eqn:E; [|by intros ? ? ?|done].
    by apply (post_open_end [(v, [])]).
  - by apply (post_open_end l).
Qed.

(** What no operation on an open file changes. *)
Definition kept f f' : Prop := mode f' = mode f ∧ floc f' = floc f ∧ (0 ≤ entry f < 2 ^ 32 → 0 ≤ entry f' < 2 ^ 32).

Lemma post_vfs_read f n w : post (vfs_read ops f n) w (λ x, kept f x.1).
Proof.
  unfold vfs_read. apply post_get. destruct (negb _); [apply post_fail|]. destruct (is_dir_type _); [apply post_fail|].
  destruct (op_read _); [|apply post_fail]. intros x w' E. apply bind_inv in E as (d & ? & _ & E). by injection E as <- <-.
Qed.
Lemma post_vfs_write f b w : post (vfs_write ops f b) w (λ x, kept f x.1).
Proof.
  unfold vfs_write. apply post_get. destruct (negb _); [apply post_fail|].
  destruct (op_write _); [|by intros ? ? ?]. intros x w' E. apply bind_inv in E as (d & ? & _ & E). by injection E as <- <-.
Qed.
Lemma post_vfs_seek f o wh w : post (vfs_seek f o wh) w (λ x, kept f x.1).
Proof. unfold vfs_seek. apply post_get. repeat (case_match; try apply post_fail); apply post_ret; by split_and!; cbn. Qed.

(** An entry read moves the file on by one. *)
Definition listed f (x : file * (Z + option dirent)) : Prop :=
  kept f x.1 ∧ match x.2 with inr (Some _) => entry x.1 = u32 (entry f + 1) | _ => True end.

Lemma post_readdir_loop ms f w : post (readdir_loop ops ms f) w (listed f).
Proof.
  revert f w. induction ms as [|[v s] ms IH]; intros f w; cbn [readdir_loop]; [by apply post_ret|]. apply post_get.
  intros x w' E. apply bind_inv in E as ([rc|[d|]] & w1 & _ & E).
  - by injection E as <- <-.
  - injection E as <- <-. split; [|done]. split_and!; [done|done|]. intros _. apply u32_range.
  - by apply IH in E.
Qed.

Lemma post_vfs_readdir f w : post (vfs_readdir ops f) w (listed f).
Proof. unfold vfs_readdir. apply post_get. destruct (negb _); [by apply post_ret|]. apply post_readdir_loop. Qed.

Lemma acct_bind_post {A B} (m : st W A) (k : A → st W B) w d (Q : A → Prop) (d' : Z + B → Z → Z) :
  acct m w d → post m w Q → (∀ e v, d (inl e) v = d' (inl e) v) →
  (∀ a w', I w' → Q a → acct (k a) w' (λ r v, d' r v - d (inr a) v)) → acct (m ≫= k) w d'.
Proof.
  intros Hm Hq He Hk. unfold post in Hq. unfold acct, mbind, st_bind in *. destruct (m w) as [[a|e|] w']; [| |done]; destruct Hm as [Hi Hc].
  - specialize (Hk a w' Hi (Hq a w' eq_refl)). destruct (k a w') as [[b|e|] w'']; [| |done]; destruct Hk as [Hi' Hc']; (split; [done|]);
      (eapply counts_ext; [|by eapply counts_trans]); intros v; cbn; lia.
  - split; [done|]. eapply counts_ext; [|exact Hc]. apply He.
Qed.

Lemma acct_skip_entries fuel e f w : I w → 0 ≤ entry f → e < 2 ^ 32 → e - entry f ≤ Z.of_nat fuel →
  acct (skip_entries ops fuel e f) w (same_file f) ∧ post (skip_entries ops fuel e f) w (λ x, kept f x.1).
Proof.
  revert f w. induction fuel as [|fuel IH]; intros f w Hi H0 He Hf; cbn [skip_entries].
  { rewrite (proj2 (Z.ltb_ge _ _)) by lia. split; [by apply acct_vfs_readdir|]. intros x w' E. by apply post_vfs_readdir in E as [? _]. }
  destruct (Z.ltb_spec (entry f) e) as [Hlt|]; [|split; [by apply acct_vfs_readdir|]; intros x w' E; by apply post_vfs_readdir in E as [? _]].
  assert (∀ f' d w', I w' → listed f (f', inr (Some d)) → acct (skip_entries ops fuel e f') w' (same_file f') ∧ post (skip_entries ops fuel e f') w' (λ x, kept f' x.1)) as Hn.
  { intros f' d w' Hi' [_ Hl]. cbn in Hl. rewrite u32_small in Hl by lia. apply IH; [done|lia..]. }
  split.
  - eapply acct_bind_post; [by apply acct_vfs_readdir|apply post_vfs_readdir|acct_lia|]. intros [f' [rc|[d|]]] w' Hi' Hq; [acct_step| |acct_step].
    eapply acct_ext; [by apply (Hn f' d w')|]. destruct Hq as [(_ & Hl & _) _]. cbn [fst] in Hl. intros [|[]] ?; acct_lia; rewrite Hl; lia.
  - intros x w' E. apply bind_inv in E as ([f' r] & w1 & E1 & E2). pose proof (acct_vfs_readdir f w Hi) as Ha. unfold acct in Ha. rewrite E1 in Ha.
    apply post_vfs_readdir in E1. destruct r as [rc|[d|]]; [by injection E2 as <- <-; apply E1| |by injection E2 as <- <-; apply E1].
    destruct (Hn f' d w1 (proj1 Ha) E1) as [_ Hp]. destruct (Hp _ _ E2) as (Hm & Hl & Hk), (proj1 E1) as (Hm' & Hl' & Hk'). cbn [fst] in *. split_and!; [congruence|congruence|tauto].
Qed.

Lemma acct_vfs_readdir_at f e w : I w → 0 ≤ entry f → e < 2 ^ 32 → 
  acct (vfs_readdir_at ops f e) w (same_file f) ∧ post (vfs_readdir_at ops f e) w (λ x, kept f x.1).
Proof.
  intros Hi H0 He. unfold vfs_readdir_at. destruct (Z.ltb_spec e (entry f)).
  - destruct (acct_skip_entries (Z.to_nat (e - 0)) e (at_entry f 0 0 0) w) as [Ha Hp]; [done|done|done|cbn; lia|]. cbn [entry at_entry] in *. split.
    + eapply acct_ext; [exact Ha|]. intros [|[]] ?; acct_lia.
    + intros x w' E. destruct (Hp _ _ E) as (Hm & Hl & Hk). split_and!; [done|done|]. intros _. apply Hk. cbn. lia.
  - apply acct_skip_entries; [done|done|done|lia].
Qed.

Lemma acct_vfs_fileattr room ns p attr w : I w → acct (vfs_fileattr ops room ns p attr) w none.
Proof.
  intros Hi. unfold vfs_fileattr. eapply acct_bind_post; [by apply acct_vfs_open|by apply post_vfs_open|acct_lia|].
  intros f w1 Hi1 (Hf & _). acct_step.
  eapply (acct_bind _ _ _ (tried none (λ _ v, - file_uses f v))); [apply acct_try|acct_lia|].
  { destruct (op_fileattr _) eqn:E; [by eapply c_fileattr|acct_step]. }
  intros r w2 Hi2. unfold vfs_close. rewrite Hf. change (u32 (1 - 1) =? 0) with true. cbv zeta iota. apply acct_assoc. acct_step. apply acct_ret_bind.
  destruct r; acct_step.
Qed.
End accounting.
