(* ===== verification/VfsSystem.v ===== *)
(** * No vnode reference is lost

    The namespaces and open files of the whole system, changed by any sequence
    of calls: each vnode's count stays what the namespaces and open files hold,
    plus what the rest of the kernel holds. *)
From S2P Require Import Prelude StateM Abi Namespace Paths Vfs VfsRefs.
Local Open Scope Z_scope.

(** The calls; a number picks a namespace or an open file, and a [bool] says
    whether the allocation succeeds. *)
Inductive call :=
  | COpen (s : nat) (room : bool) (p : list Z) (m : Z)
  | CClose (i : nat)
  | CDup (i : nat)
  | CRead (i : nat) (n : Z)
  | CPread (i : nat) (n o : Z)
  | CWrite (i : nat) (b : list Z)
  | CPwrite (i : nat) (b : list Z) (o : Z)
  | CReaddir (i : nat)
  | CReaddirAt (i : nat) (e : Z)
  | CSeek (i : nat) (o whence : Z)
  | CMkdir (s : nat) (p : list Z)
  | CUnlink (s : nat) (p : list Z)
  | CRmdir (s : nat) (p : list Z)
  | CRename (s : nat) (p q : list Z)
  | CFileattr (s : nat) (room : bool) (p : list Z) (attr : option Z)
  | CBind (s : nat) (room : bool) (p q : list Z) (flag : bind_flag)
  | CMount (s : nat) (room : bool) (v : Z) (label q : list Z) (flag : bind_flag)
  | CUnbind (s : nat) (q : list Z)
  | CFork (s : nat) (room : list bool)
  | CShare (s : nat)
  | CLeave (s : nat).

Fixpoint total {A} (g : A → Z) (l : list (option A)) : Z :=
  match l with [] => 0 | o :: l => from_option g 0 o + total g l end.

Lemma total_insert {A} (g : A → Z) l i o o' :
  l !! i = Some o → total g (<[i := o']> l) = total g l - from_option g 0 o + from_option g 0 o'.
Proof.
  revert i. induction l as [|x l IH]; intros i; [done|]. destruct i as [|i].
  - intros [= ->]. cbn. lia.
  - intros Hl. cbn in Hl. change (<[S i := o']> (x :: l)) with (x :: <[i := o']> l). cbn [total]. rewrite (IH i Hl). lia.
Qed.

Lemma total_snoc {A} (g : A → Z) l o : total g (l ++ [o]) = total g l + from_option g 0 o.
Proof. induction l as [|x l IH]; cbn; lia. Qed.

Section system.
Context {F : Type} (ops : world F → Z → vnode_ops (world F)) (I : world F → Prop).
Context {writable : Z → bool} `{!Counted ops I writable}.
Local Abbreviation W := (world F).

Record system := System { wld : W; spaces : list (option namespace); files : list (option file) }.
Implicit Types (sys : system).

(** How a call's result changes the system; [None] when it does not end. *)
Definition after {A} sys (r : result A * W) (k : A → W → system) : option system :=
  match r with
  | (Good a, w) => Some (k a w)
  | (Err _, w) => Some (System w (spaces sys) (files sys))
  | (Hang, _) => None
  end.

Definition in_space {A} sys (s : nat) (m : namespace → st W A) (k : A → W → system) : option system :=
  match spaces sys !! s with Some (Some ns) => after sys (m ns (wld sys)) k | _ => Some sys end.
Definition in_file {A} sys (i : nat) (m : file → st W A) (k : A → W → system) : option system :=
  match files sys !! i with Some (Some f) => after sys (m f (wld sys)) k | _ => Some sys end.

Definition put_space sys s (x : option namespace) (w : W) : system := System w (<[s := x]> (spaces sys)) (files sys).
Definition put_file sys i (x : option file) (w : W) : system := System w (spaces sys) (<[i := x]> (files sys)).
Definition only {A} sys (_ : A) (w : W) : system := System w (spaces sys) (files sys).

(** [sys_mkdir] on the path it has copied from the caller: the directory tree
    holds what was made, the reference to it is dropped. *)
Definition sys_mkdir ns (p : list Z) : st W unit := v ← vfs_create ops ns p VNODE_DIR; vnode_unref ops v.

Definition call_step sys (c : call) : option system :=
  match c with
  | COpen s room p m => in_space sys s (λ ns, vfs_open ops room ns p m) (λ f w, System w (spaces sys) (files sys ++ [Some f]))
  | CClose i => in_file sys i (λ f, vfs_close ops f) (put_file sys i)
  | CDup i => in_file sys i (λ f, mret (vfs_dup f)) (λ f, put_file sys i (Some f))
  | CRead i n => in_file sys i (λ f, vfs_read ops f n) (λ x, put_file sys i (Some x.1))
  | CPread i n o => in_file sys i (λ f, vfs_pread ops f n o) (only sys)
  | CWrite i b => in_file sys i (λ f, vfs_write ops f b) (λ x, put_file sys i (Some x.1))
  | CPwrite i b o => in_file sys i (λ f, vfs_pwrite ops f b o) (only sys)
  | CReaddir i => in_file sys i (λ f, vfs_readdir ops f) (λ x, put_file sys i (Some x.1))
  | CReaddirAt i e => in_file sys i (λ f, vfs_readdir_at ops f (u32 e)) (λ x, put_file sys i (Some x.1))
  | CSeek i o wh => in_file sys i (λ f, vfs_seek f o wh) (λ x, put_file sys i (Some x.1))
  | CMkdir s p => in_space sys s (λ ns, sys_mkdir ns p) (only sys)
  | CUnlink s p => in_space sys s (λ ns, vfs_unlink ops ns p) (only sys)
  | CRmdir s p => in_space sys s (λ ns, vfs_rmdir ops ns p) (only sys)
  | CRename s p q => in_space sys s (λ ns, vfs_rename ops ns p q) (only sys)
  | CFileattr s room p a => in_space sys s (λ ns, vfs_fileattr ops room ns p a) (only sys)
  | CBind s room p q flag => in_space sys s (λ ns, vfs_bind ops room ns p q flag) (λ ns, put_space sys s (Some ns))
  | CMount s room v label q flag => in_space sys s (λ ns, vfs_mount ops room ns v label q flag) (λ ns, put_space sys s (Some ns))
  | CUnbind s q => in_space sys s (λ ns, vfs_unbind ops ns q) (λ ns, put_space sys s (Some ns))
  | CFork s room => in_space sys s (λ ns, ns_fork ops room ns) (λ x w, System w (spaces sys ++ [x]) (files sys))
  | CShare s => in_space sys s (λ ns, mret (ns_ref ns)) (λ ns, put_space sys s (Some ns))
  | CLeave s => in_space sys s (λ ns, ns_unref ops ns) (put_space sys s)
  end.

Fixpoint run_calls sys (cs : list call) : option system :=
  match cs with [] => Some sys | c :: cs => sys ← call_step sys c; run_calls sys cs end.

(** The references the system holds to [v]. *)
Definition held sys (v : Z) : Z := total (λ ns, ns_uses ns v) (spaces sys) + total (λ f, file_uses f v) (files sys).

Definition file_ok (f : file) : Prop := write_ok (writable := writable) f ∧ 0 ≤ entry f < 2 ^ 32.

Record balanced (base : Z → Z) sys : Prop := {
  b_inv : I (wld sys);
  b_refs v : u32 (refs (wld sys) v) = u32 (base v + held sys v);
  b_files : Forall (λ o, match o with Some f => file_ok f | None => True end) (files sys)
}.

Lemma balanced_after {A} base sys (m : st W A) d k :
  balanced base sys → acct I m (wld sys) d → (∀ e v, d (inl e) v = 0) →
  (∀ a w, m (wld sys) = (Good a, w) → wld (k a w) = w ∧ (∀ v, held (k a w) v = held sys v + d (inr a) v) ∧
     Forall (λ o, match o with Some f => file_ok f | None => True end) (files (k a w))) →
  ∃ sys', after sys (m (wld sys)) k = Some sys' ∧ balanced base sys'.
Proof.
  intros [Hi Hr Hf] Ha He Hk. unfold acct in Ha. unfold after. destruct (m (wld sys)) as [[a|e|] w]; [| |done]; destruct Ha as [Hi' Hc]; eexists; (split; [done|]).
  - destruct (Hk a w eq_refl) as (Hw & Hh & Hfs). split; [by rewrite Hw| |done]. intros v. rewrite Hw, Hc, Hh. unfold u32 in *.
    rewrite <- Zplus_mod_idemp_l, Hr, Zplus_mod_idemp_l. f_equal. lia.
  - split; [done| |done]. intros v. cbn [wld]. rewrite Hc, He, Z.add_0_r. apply Hr.
Qed.

Local Abbreviation good base r := (∃ sys', r = Some sys' ∧ balanced base sys').

Lemma space_only {A} base sys s (m : namespace → st W A) :
  balanced base sys → (∀ ns, acct I (m ns) (wld sys) none) → good base (in_space sys s m (only sys)).
Proof.
  intros Hb Hm. unfold in_space. destruct (spaces sys !! s) as [[ns|]|]; [|by eauto|by eauto].
  eapply balanced_after; [done|apply Hm|done|]. intros a w _. split_and!; [done| |apply Hb]. intros v. unfold none, held. cbn. lia.
Qed.

Lemma space_put base sys s (m : namespace → st W namespace) :
  balanced base sys → (∀ ns, acct I (m ns) (wld sys) (moved ns)) → good base (in_space sys s m (λ ns, put_space sys s (Some ns))).
Proof.
  intros Hb Hm. unfold in_space. destruct (spaces sys !! s) as [[ns|]|] eqn:E; [|by eauto|by eauto].
  eapply balanced_after; [done|apply Hm|done|]. intros a w _. split_and!; [done| |apply Hb]. intros v. unfold moved, held. cbn [spaces files put_space].
  rewrite (total_insert _ _ _ _ _ E). cbn. lia.
Qed.

Lemma files_ok base sys i f : balanced base sys → files sys !! i = Some (Some f) → file_ok f.
Proof. intros [_ _ Hf] E. by apply (Forall_lookup_1 _ _ _ _ Hf E). Qed.

Lemma file_only {A} base sys i (m : file → st W A) :
  balanced base sys → (∀ f, file_ok f → acct I (m f) (wld sys) none) → good base (in_file sys i m (only sys)).
Proof.
  intros Hb Hm. unfold in_file. destruct (files sys !! i) as [[f|]|] eqn:E; [|by eauto|by eauto].
  eapply balanced_after; [done|apply Hm; by eapply files_ok|done|]. intros a w _. split_and!; [done| |apply Hb]. intros v. unfold none, held. cbn. lia.
Qed.

Lemma file_put {A} base sys i (m : file → st W (file * A)) :
  balanced base sys →
  (∀ f, file_ok f → acct I (m f) (wld sys) (same_file f) ∧ post (m f) (wld sys) (λ x, kept f x.1)) →
  good base (in_file sys i m (λ x, put_file sys i (Some x.1))).
Proof.
  intros Hb Hm. unfold in_file. destruct (files sys !! i) as [[f|]|] eqn:E; [|by eauto|by eauto].
  pose proof (files_ok _ _ _ _ Hb E) as Hf. destruct (Hm f Hf) as [Ha Hp].
  eapply balanced_after; [done|exact Ha|done|]. intros [f' a] w Em. split_and!; [done| |].
  - intros v. unfold same_file, held. cbn [spaces files put_file fst]. rewrite (total_insert _ _ _ _ _ E). cbn. lia.
  - apply Forall_insert; [apply Hb|]. destruct (Hp _ _ Em) as (H1 & H2 & H3), Hf as [Hw He]. cbn [fst] in *. split; [|by apply H3].
    unfold write_ok, can_write in *. by rewrite H1, H2.
Qed.

(** Any call ends and keeps the balance. *)
Lemma call_balanced base sys c : balanced base sys → good base (call_step sys c).
Proof.
  intros Hb. pose proof (b_inv _ _ Hb) as Hi. destruct c; cbn [call_step].
  - unfold in_space. destruct (spaces sys !! s) as [[ns|]|]; [|by eauto|by eauto].
    eapply balanced_after; [done|by eapply acct_vfs_open|done|]. intros f w E. split_and!; [done| |].
    + intros v. unfold held. cbn [spaces files]. rewrite total_snoc. cbn. lia.
    + apply Forall_app. split; [apply Hb|]. apply Forall_singleton. apply (post_vfs_open ops I) in E as (_ & He & Hw); [|done]. split; [done|]. by rewrite He.
  - unfold in_file. destruct (files sys !! i) as [[f|]|] eqn:E; [|by eauto|by eauto].
    eapply balanced_after; [done|by eapply (acct_vfs_close _ _ _ _ (λ _ _, 0))|done|]. intros o w Em. split_and!; [done| |].
    + intros v. unfold held. cbn [spaces files put_file]. rewrite (total_insert _ _ _ _ _ E). destruct o; cbn; lia.
    + apply Forall_insert; [apply Hb|]. pose proof (files_ok _ _ _ _ Hb E) as Hf. unfold vfs_close in Em.
      destruct (_ =? 0); [by apply bind_inv in Em as (? & ? & ? & [= <- <-])|by injection Em as <- <-].
  - unfold in_file. destruct (files sys !! i) as [[f|]|] eqn:E; [|by eauto|by eauto].
    eexists. split; [done|]. destruct Hb as [_ Hr Hf]. split; [done| |].
    + intros v. rewrite Hr. f_equal. unfold held. cbn [spaces files put_file]. rewrite (total_insert _ _ _ _ _ E). cbn [from_option]. change (file_uses (vfs_dup f) v) with (file_uses f v). lia.
    + apply Forall_insert; [done|]. by apply (Forall_lookup_1 _ _ _ _ Hf E).
  - apply file_put; [done|]. intros f Hf. split; [by eapply acct_vfs_read|apply post_vfs_read].
  - apply file_only; [done|]. intros f Hf. by eapply acct_vfs_pread.
  - apply file_put; [done|]. intros f [Hf _]. split; [by eapply acct_vfs_write|apply post_vfs_write].
  - apply file_only; [done|]. intros f [Hf _]. by eapply acct_vfs_pwrite.
  - apply file_put; [done|]. intros f Hf. split; [by eapply acct_vfs_readdir|]. intros x w E. by apply post_vfs_readdir in E as [? _].
  - apply file_put; [done|]. intros f [_ Hf]. apply (acct_vfs_readdir_at ops I); [done|lia|apply u32_range].
  - apply file_put; [done|]. intros f Hf. split; [by eapply acct_vfs_seek|apply post_vfs_seek].
  - apply space_only; [done|]. intros ns. eapply acct_bind; [by eapply acct_vfs_create|done|]. intros v w' Hi'.
    eapply acct_ext; [by eapply (acct_vnode_unref _ _ _ _ (λ _ x, - one v x))|]. by intros [] ?.
  - apply space_only; [done|]. intros ns. by eapply acct_vfs_remove.
  - apply space_only; [done|]. intros ns. by eapply acct_vfs_remove.
  - apply space_only; [done|]. intros ns. by eapply acct_vfs_rename.
  - apply space_only; [done|]. intros ns. by eapply acct_vfs_fileattr.
  - apply space_put; [done|]. intros ns. by eapply acct_vfs_bind.
  - apply space_put; [done|]. intros ns. by eapply acct_vfs_mount.
  - apply space_put; [done|]. intros ns. by eapply acct_vfs_unbind.
  - unfold in_space. destruct (spaces sys !! s) as [[ns|]|]; [|by eauto|by eauto].
    eapply balanced_after; [done|by eapply acct_ns_fork|done|]. intros o w _. split_and!; [done| |apply Hb].
    intros v. unfold held. cbn [spaces files]. rewrite total_snoc. destruct o; cbn; lia.
  - apply space_put; [done|]. intros ns. apply acct_ret; [done|]. intros v. unfold moved, ns_uses. cbn. lia.
  - unfold in_space. destruct (spaces sys !! s) as [[ns|]|] eqn:E; [|by eauto|by eauto].
    eapply balanced_after; [done|by eapply (acct_ns_unref _ _ _ _ (λ _ _, 0))|done|]. intros o w Em. split_and!; [done| |apply Hb].
    intros v. unfold held. cbn [spaces files put_space]. rewrite (total_insert _ _ _ _ _ E). destruct o; cbn; lia.
Qed.

(** C6: Whatever calls are made, in whatever order (files opened, created,
    duplicated, read, written, listed, sought, closed; directories made,
    removed, renamed; binds, mounts and unbinds; namespaces forked, shared and
    left; with any allocation failing), over any file system that keeps the
    reference contract of its operations, every call ends and the count of
    every vnode remains what the namespaces and open files hold plus what the
    rest of the kernel held: no error path leaks a reference or drops one
    twice. *)
Theorem references_balanced base sys cs :
  balanced base sys → ∃ sys', run_calls sys cs = Some sys' ∧ balanced base sys'.
Proof.
  revert sys. induction cs as [|c cs IH]; intros sys Hb; cbn [run_calls]; [by eauto|].
  destruct (call_balanced base sys c Hb) as (sys1 & -> & Hb1). by apply IH.
Qed.
End system.
