(* ===== verification/Resolve.v ===== *)
(** * What a path names

    [ns_resolve] against a fold over the names of the cleaned path: each name
    is looked up in the members of the union reached so far, the first that
    has it wins, and a mount at the path so far replaces what was found. Over
    any file system whose names keep their vnodes ([Tree]). Then what
    [vfs_bind] does to it. *)
From S2P Require Import Prelude StateM Abi Namespace Paths Vfs.
Local Open Scope Z_scope.

Section resolve.
Context {F : Type} (ops : world F → Z → vnode_ops (world F)).
Local Abbreviation W := (world F).
Implicit Types (w : W) (v : Z) (l : location) (ns : namespace).

(** The names of the directories ([child]: a vnode or an error), their kinds,
    whether a vnode can be walked at all, and the states in which they are so. *)
Class Tree (child : Z → list Z → Z + Z) (kind : Z → vnode_type) (walks : Z → bool) (T : W → Prop) : Prop := {
  t_refs w r : T w → T (set_refs w r);
  t_kind w v : T w → vtype w v = kind v;
  t_walks w v : T w → (is_Some (op_walk (ops w v)) ↔ walks v = true);
  t_walk w v walk name : T w → op_walk (ops w v) = Some walk →
    ∃ w', walk name w = (match child v name with inr n => Good n | inl e => Err e end, w') ∧ T w';
  t_release w v release : T w → op_release (ops w v) = Some release → ∃ w', release w = (Good tt, w') ∧ T w'
}.

Context {child : Z → list Z → Z + Z} {kind : Z → vnode_type} {walks : Z → bool} {T : W → Prop} `{!Tree child kind walks T}.

(** ** Specification *)

Fixpoint find_child l (name : list Z) (rc : Z) : Z + Z :=
  match l with
  | [] => inl rc
  | (v, _) :: l =>
      if is_dir_type (kind v) && walks v then match child v name with inr n => inr n | inl e => find_child l name e end
      else find_child l name rc
  end.

Definition mounted ns (names : list (list Z)) v : location :=
  default [(v, set_label (render names))] (find_mount ns (render names)).

Fixpoint locate ns (seen names : list (list Z)) l : Z + location :=
  match names with
  | [] => inr l
  | n :: names =>
      match find_child l n (- ENOTDIR) with
      | inl e => inl e
      | inr v => locate ns (seen ++ [n]) names (mounted ns (seen ++ [n]) v)
      end
  end.

Definition located ns (names : list (list Z)) : Z + location := locate ns [] names (mounted ns [] (root ns)).

Definition path_names (p : list Z) : Z + list (list Z) :=
  if aget 0 p 0 =? 47 then match cleaned p with Some names => inr names | None => inl (- ENAMETOOLONG) end else inl (- EINVAL).

(** What a path names, and its names. *)
Definition resolved ns (p : list Z) : Z + location * list (list Z) :=
  match path_names p with
  | inl e => inl e
  | inr names => match located ns names with inl e => inl e | inr l => inr (l, names) end
  end.

(** ** Results *)

Definition result_of {A} (r : Z + A) : result A := match r with inr a => Good a | inl e => Err e end.

(** [m] ends with the result, and the names stay. *)
Definition gives {A} (m : st W A) w (r : result A) : Prop := ∃ w', m w = (r, w') ∧ T w'.

Lemma gives_ret {A} (a : A) w : T w → gives (mret a) w (Good a).
Proof. intros Ht. by exists w. Qed.
Lemma gives_fail {A} e w : T w → gives (fail e : st W A) w (Err e).
Proof. intros Ht. by exists w. Qed.
Lemma gives_bind {A B} (m : st W A) (k : A → st W B) w a r :
  gives m w (Good a) → (∀ w', T w' → gives (k a) w' r) → gives (m ≫= k) w r.
Proof. intros (w1 & E & Ht) Hk. destruct (Hk w1 Ht) as (w2 & E2 & Ht2). exists w2. split; [|done]. by rewrite (bind_good m w w1 k a). Qed.
Lemma gives_bind_err {A B} (m : st W A) (k : A → st W B) w e : gives m w (Err e) → gives (m ≫= k) w (Err e).
Proof. intros (w1 & E & Ht). exists w1. split; [|done]. by apply bind_err. Qed.
Lemma gives_try {A} (m : st W A) w (r : Z + A) : gives m w (result_of r) → gives (try m) w (Good r).
Proof. intros (w1 & E & Ht). exists w1. split; [|done]. unfold try. rewrite E. by destruct r. Qed.
Lemma gives_get {B} (k : W → st W B) w r : gives (k w) w r → gives (get ≫= k) w r.
Proof. done. Qed.

Lemma gives_ref v w : T w → gives (vnode_ref v) w (Good tt).
Proof. intros Ht. eexists. split; [done|]. by apply t_refs. Qed.

Lemma gives_unref v w : T w → gives (vnode_unref ops v) w (Good tt).
Proof.
  intros Ht. unfold vnode_unref. eapply gives_bind; [eexists; split; [done|by apply t_refs]|]. intros w1 Ht1. apply gives_get.
  destruct (_ =? 0); [|by apply gives_ret]. destruct (op_release (ops w1 v)) eqn:E; [|by apply gives_ret].
  destruct (t_release w1 v _ Ht1 E) as (w2 & E2 & Ht2). by exists w2.
Qed.

Lemma gives_copy l w : T w → gives (location_copy l) w (Good tt).
Proof.
  revert w. induction l as [|[v s] l IH]; intros w Ht; cbn [location_copy]; [by apply gives_ret|].
  eapply gives_bind; [by apply gives_ref|]. apply IH.
Qed.

Lemma gives_release l w : T w → gives (location_release ops l) w (Good tt).
Proof.
  revert w. induction l as [|[v s] l IH]; intros w Ht; cbn [location_release]; [by apply gives_ret|].
  eapply gives_bind; [by apply gives_unref|]. apply IH.
Qed.

Lemma gives_apply_mount ns canon l w : T w → gives (apply_mount ops ns canon l) w (Good (default l (find_mount ns canon))).
Proof.
  intros Ht. unfold apply_mount. destruct (find_mount ns canon) as [m|]; [|by apply gives_ret]. cbn [default].
  eapply gives_bind; [by apply gives_copy|]. intros w1 Ht1. eapply gives_bind; [by apply gives_release|]. intros w2 Ht2. by apply gives_ret.
Qed.

Lemma gives_walk_location l name rc w : T w → gives (walk_location ops l name rc) w (result_of (find_child l name rc)).
Proof.
  revert rc w. induction l as [|[v s] l IH]; intros rc w Ht; cbn [walk_location find_child]; [by apply gives_fail|]. apply gives_get.
  rewrite (t_kind w v Ht). pose proof (t_walks w v Ht) as Hw. destruct (is_dir_type (kind v)); [|by apply IH].
  destruct (op_walk (ops w v)) as [walk|] eqn:E.
  - rewrite (proj1 Hw) by eauto. destruct (t_walk w v walk name Ht E) as (w' & E' & Ht'). cbn [andb].
    eapply gives_bind; [apply (gives_try _ _ (child v name)); by exists w'|].
    intros w2 Ht2. destruct (child v name); [by apply IH|by apply gives_ret].
  - destruct (walks v); [|by apply IH]. by destruct (proj2 Hw eq_refl).
Qed.

(** ** Resolving *)

Definition joined (names : list (list Z)) : list Z :=
  match names with [] => [] | n :: names => n ++ concat ((λ n, 47 :: n) <$> names) end.

Lemma render_joined names : drop 1 (render names) = joined names.
Proof. destruct names; [done|]. unfold render, joined. by rewrite fmap_cons. Qed.

Lemma name_end_joined n names : (47 ∉ n) → name_end (joined (n :: names)) = (n, concat ((λ n, 47 :: n) <$> names)).
Proof.
  intros Hn. cbn [joined]. induction n as [|c n IH]; [by destruct names|]. apply not_elem_of_cons in Hn as [Hc Hn].
  cbn [app name_end]. rewrite (proj2 (Z.eqb_neq c 47)) by congruence. by rewrite (IH Hn).
Qed.

Lemma joined_rest names : (let p := concat ((λ n, 47 :: n) <$> names) in if aget 0 p 0 =? 47 then drop 1 p else p) = joined names.
Proof. by destruct names. Qed.

Lemma render_prefix seen n : (if bool_decide (seen = []) then [] else render seen) ++ 47 :: n = render (seen ++ [n]).
Proof. case_bool_decide as E; [subst; cbn; by rewrite app_nil_r|by rewrite render_snoc]. Qed.

Lemma gives_resolve_loop fuel ns seen names l w :
  T w → Forall plain names → (length names ≤ fuel)%nat →
  gives (resolve_loop ops fuel ns (joined names) (if bool_decide (seen = []) then [] else render seen) l) w (result_of (locate ns seen names l)).
Proof.
  revert seen names l w. induction fuel as [|fuel IH]; intros seen names l w Ht Hp Hf.
  { destruct names; [|cbn in Hf; lia]. by apply gives_ret. }
  destruct names as [|n names]; [by apply gives_ret|]. apply Forall_cons in Hp as [Hn Hp].
  cbn [resolve_loop]. destruct (joined (n :: names)) as [|c q] eqn:Ej.
  { exfalso. apply (p_some n Hn). cbn in Ej. by apply app_eq_nil in Ej as [? _]. }
  rewrite <- Ej, (name_end_joined n names) by apply Hn. cbn [locate].
  eapply gives_bind; [by apply gives_try, gives_walk_location|]. intros w1 Ht1. eapply gives_bind; [by apply gives_release|]. intros w2 Ht2.
  destruct (find_child l n (- ENOTDIR)) as [e|v]; [by apply gives_fail|]. cbv zeta. rewrite render_prefix.
  eapply gives_bind; [by apply gives_apply_mount|]. intros w3 Ht3. rewrite joined_rest.
  pose proof (IH (seen ++ [n]) names (mounted ns (seen ++ [n]) v) w3 Ht3 Hp) as H.
  rewrite bool_decide_false in H by by destruct seen. apply H. cbn in Hf. lia.
Qed.

Lemma gives_resolve ns p w : T w →
  gives (ns_resolve ops ns p) w (match resolved ns p with inr (l, names) => Good (l, render names) | inl e => Err e end).
Proof.
  intros Ht. unfold ns_resolve, resolved, path_names. rewrite clean_path_eq. destruct (_ =? 47); [|by apply gives_fail].
  destruct (cleaned p) as [names|] eqn:Ec; [|by apply gives_fail]. destruct (cleaned_clean _ _ Ec) as [Hp _].
  eapply gives_bind; [by apply gives_ref|]. intros w1 Ht1. eapply gives_bind; [by apply gives_apply_mount|]. intros w2 Ht2.
  rewrite render_joined. pose proof (gives_resolve_loop (length (render names)) ns [] names (mounted ns [] (root ns)) w2 Ht2 Hp) as H.
  assert (length names ≤ length (render names))%nat as Hl.
  { clear. destruct names as [|n names]; [cbn; lia|]. unfold render. induction (n :: names) as [|x l IH]; cbn; [lia|]. rewrite length_app. lia. }
  specialize (H Hl). unfold located. destruct (locate _ _ _ _) as [e|l].
  - apply gives_bind_err. exact H.
  - eapply gives_bind; [exact H|]. intros w3 Ht3. by apply gives_ret.
Qed.

(** C12: Over any file system whose names keep their vnodes, [ns_resolve]
    returns on every path: the location the specification gives, with the
    cleaned path, or its error. *)
Theorem resolve_correct ns p w : T w →
  ∃ w', T w' ∧ ns_resolve ops ns p w = (match resolved ns p with inr (l, names) => Good (l, render names) | inl e => Err e end, w').
Proof. intros Ht. destruct (gives_resolve ns p w Ht) as (w' & E & Ht'). by exists w'. Qed.

(** ** Binding *)

Definition compose (flag : bind_flag) (from onto : location) : location :=
  match flag with BIND_REPLACE => from | BIND_BEFORE => from ++ onto | BIND_AFTER => onto ++ from end.

Definition bind_error (from onto : location) (flag : bind_flag) : option Z :=
  let from_dir := is_dir_type (kind (first from)) in
  let onto_dir := is_dir_type (kind (first onto)) in
  if negb (eqb from_dir onto_dir) then Some (if onto_dir then - ENOTDIR else - EISDIR)
  else if negb (bool_decide (flag = BIND_REPLACE)) && negb onto_dir then Some (- ENOTDIR)
  else if Z.of_nat (length (compose flag from onto)) >? VFS_UNION_MAX then Some (- EINVAL)
  else None.

Definition with_mounts ns m : namespace := Namespace (ns_refs ns) (root ns) m.

(** The table after a mount at [canon] is set. *)
Definition remounted ns (canon : list Z) l : namespace :=
  with_mounts ns match find_mount ns canon with Some _ => replace_mount canon l (mounts ns) | None => mounts ns ++ [Mount canon l] end.

Lemma gives_set_mount room ns canon l w : T w → len canon ≤ VFS_PATH_MAX →
  gives (ns_set_mount ops room ns canon l) w
    (if room || bool_decide (is_Some (find_mount ns canon)) then Good (remounted ns canon l) else Err (- ENOMEM)).
Proof.
  intros Ht Hl. unfold ns_set_mount, remounted. destruct (find_mount ns canon) as [old|].
  - rewrite bool_decide_true, orb_true_r by eauto. eapply gives_bind; [by apply gives_release|]. intros w1 Ht1. by apply gives_ret.
  - rewrite bool_decide_false, orb_false_r by apply is_Some_None. destruct room.
    + rewrite take_ge by (unfold len in Hl; lia). by apply gives_ret.
    + eapply gives_bind; [by apply gives_release|]. intros w1 Ht1. by apply gives_fail.
Qed.

(** What installing the union of the two gives. *)
Definition installed (room : bool) ns from onto (canon : list Z) (flag : bind_flag) : Z + namespace :=
  match bind_error from onto flag with
  | Some e => inl e
  | None => if room || bool_decide (is_Some (find_mount ns canon)) then inr (remounted ns canon (compose flag from onto)) else inl (- ENOMEM)
  end.

Lemma gives_bind_locations room ns from onto canon flag w : T w → len canon ≤ VFS_PATH_MAX →
  gives (bind_locations ops room ns from onto canon flag) w (result_of (installed room ns from onto canon flag)).
Proof.
  intros Ht Hl. unfold bind_locations. apply gives_get. rewrite !(t_kind w _ Ht).
  apply (gives_bind _ _ _ (installed room ns from onto canon flag)).
  - apply gives_try. unfold installed, bind_error. destruct (negb _); [by apply gives_fail|]. destruct (_ && _); [by apply gives_fail|].
    assert (∀ x y, x ++ y = compose flag from onto → gives
      (if Z.of_nat (length x + length y) >? 8 then fail (- (22)) else location_copy x ;; location_copy y ;; ns_set_mount ops room ns canon (x ++ y)) w
      (result_of match (if Z.of_nat (length (compose flag from onto)) >? 8 then Some (- (22)) else None) with
        | Some e => inl e
        | None => if room || bool_decide (is_Some (find_mount ns canon)) then inr (remounted ns canon (compose flag from onto)) else inl (- (12))
        end)) as Hc.
    { intros x y <-. rewrite length_app. destruct (_ >? _); [by apply gives_fail|]. eapply gives_bind; [by apply gives_copy|]. intros w1 Ht1.
      eapply gives_bind; [by apply gives_copy|]. intros w2 Ht2. pose proof (gives_set_mount room ns canon (x ++ y) w2 Ht2 Hl) as Hs. by destruct (_ || _). }
    apply Hc. destruct flag; cbn; by rewrite ?app_nil_r.
  - intros w1 Ht1. eapply gives_bind; [by apply gives_release|]. intros w2 Ht2. eapply gives_bind; [by apply gives_release|]. intros w3 Ht3.
    destruct (installed _ _ _ _ _ _); [by apply gives_fail|by apply gives_ret].
Qed.

Lemma resolved_clean ns p l names : resolved ns p = inr (l, names) → clean names ∧ located ns names = inr l.
Proof.
  unfold resolved, path_names. destruct (_ =? 47); [|done]. destruct (cleaned p) eqn:E; [|done]. destruct (located ns l0) eqn:El; [done|].
  intros [= <- <-]. split; [by eapply cleaned_clean|done].
Qed.

Lemma gives_vfs_bind room ns p q flag w : T w →
  gives (vfs_bind ops room ns p q flag) w
    match resolved ns p with
    | inl e => Err e
    | inr (from, _) =>
        match resolved ns q with inl e => Err e | inr (onto, names) => result_of (installed room ns from onto (render names) flag) end
    end.
Proof.
  intros Ht. unfold vfs_bind. pose proof (gives_resolve ns p w Ht) as Hp. destruct (resolved ns p) as [e|[from fnames]]; [by apply gives_bind_err|].
  eapply gives_bind; [exact Hp|]. intros w1 Ht1. pose proof (gives_resolve ns q w1 Ht1) as Hq. destruct (resolved ns q) as [e|[onto names]] eqn:E.
  - eapply gives_bind; [by apply (gives_try _ _ (inl e))|]. intros w2 Ht2. eapply gives_bind; [by apply gives_release|]. intros w3 Ht3. by apply gives_fail.
  - eapply gives_bind; [by apply (gives_try _ _ (inr (onto, render names)))|]. intros w2 Ht2. apply gives_bind_locations; [done|].
    apply resolved_clean in E as [[_ Hl] _]. exact Hl.
Qed.

(** ** The table *)

Lemma find_app ns (m : list mount) canon :
  find_mount (with_mounts ns (mounts ns ++ m)) canon =
  match find_mount ns canon with Some l => Some l | None => find_mount (with_mounts ns m) canon end.
Proof. unfold find_mount, with_mounts. cbn [mounts]. induction (mounts ns) as [|x l IH]; cbn [app List.find fmap option_fmap option_map]; [done|]. by destruct (bool_decide _). Qed.

Lemma find_replace ns canon l c :
  find_mount (with_mounts ns (replace_mount canon l (mounts ns))) c =
  if bool_decide (c = canon) then (λ _, l) <$> find_mount ns canon else find_mount ns c.
Proof.
  unfold find_mount, with_mounts. cbn [mounts]. induction (mounts ns) as [|x m IH]; cbn [replace_mount List.find]; [by case_bool_decide|].
  destruct (bool_decide_reflect (path x = canon)) as [<-|Hx]; cbn [List.find path].
  - destruct (bool_decide_reflect (path x = c)) as [<-|Hc]; [by rewrite bool_decide_true|]. by rewrite bool_decide_false by congruence.
  - destruct (bool_decide_reflect (path x = c)) as [<-|Hc]; [|exact IH]. by rewrite bool_decide_false.
Qed.

Lemma find_remounted ns canon l c :
  find_mount (remounted ns canon l) c = if bool_decide (c = canon) then Some l else find_mount ns c.
Proof.
  unfold remounted. destruct (find_mount ns canon) eqn:E.
  - rewrite find_replace, E. done.
  - rewrite find_app. unfold find_mount at 2. cbn [mounts with_mounts List.find path]. destruct (bool_decide_reflect (c = canon)) as [->|Hc].
    + by rewrite E, bool_decide_true.
    + rewrite bool_decide_false by done. by destruct (find_mount ns c).
Qed.

Lemma clean_take names k : clean names → clean (take k names).
Proof.
  intros [Hp Hl]. split; [by apply Forall_take|]. pose proof (render_app_length (take k names) (drop k names)) as H.
  rewrite take_drop in H. unfold len in *. lia.
Qed.

Lemma render_inj a b : clean a → clean b → render a = render b → a = b.
Proof. intros Ha Hb E. apply (inj Some). by rewrite <- (cleaned_render a Ha), <- (cleaned_render b Hb), E. Qed.

Lemma locate_app ns seen a b l :
  locate ns seen (a ++ b) l = match locate ns seen a l with inl e => inl e | inr l => locate ns (seen ++ a) b l end.
Proof.
  revert seen l. induction a as [|n a IH]; intros seen l; cbn [app locate]; [by rewrite app_nil_r|].
  destruct (find_child l n (- ENOTDIR)); [done|]. by rewrite IH, <- app_assoc.
Qed.

Lemma mounted_remounted ns names l seen v : clean names → clean seen →
  mounted (remounted ns (render names) l) seen v = if bool_decide (seen = names) then l else mounted ns seen v.
Proof.
  intros Hc Hs. unfold mounted. rewrite find_remounted. destruct (bool_decide_reflect (seen = names)) as [->|Hn]; [by rewrite bool_decide_true|].
  by rewrite bool_decide_false by (intros E; by apply render_inj in E).
Qed.

(** Up to a mount nothing changes. *)
Lemma locate_elsewhere ns names l seen rest at_ :
  clean names → clean (seen ++ rest) → (∀ i, (1 ≤ i ≤ length rest)%nat → seen ++ take i rest ≠ names) →
  locate (remounted ns (render names) l) seen rest at_ = locate ns seen rest at_.
Proof.
  intros Hc. revert seen at_. induction rest as [|n rest IH]; intros seen at_ Hs Hn; cbn [locate]; [done|].
  destruct (find_child at_ n (- ENOTDIR)) as [e|v]; [done|]. assert (clean (seen ++ [n])) as Hs1.
  { pose proof (clean_take _ (length seen + 1) Hs) as H. by rewrite take_app_add in H. }
  rewrite mounted_remounted, bool_decide_false by (done || apply (Hn 1%nat); cbn; lia).
  apply IH; [by rewrite <- app_assoc|]. intros i Hi. rewrite <- app_assoc. apply (Hn (S i)). cbn. lia.
Qed.

(** At the mount is what was mounted, if the path could be reached before. *)
Lemma located_at ns names l : clean names → (∃ l0, located ns names = inr l0) → located (remounted ns (render names) l) names = inr l.
Proof.
  intros Hc [l0 Hl]. unfold located in *. change (root (remounted ns (render names) l)) with (root ns).
  destruct (decide (names = [])) as [->|Hne]; [cbn [locate]; by rewrite mounted_remounted, bool_decide_true|].
  destruct (exists_last Hne) as (init & n & ->). rewrite locate_app in Hl. rewrite locate_app.
  assert (clean init) as Hi by (pose proof (clean_take _ (length init) Hc) as H; by rewrite take_app_length in H).
  rewrite mounted_remounted, bool_decide_false by (done || apply clean_root || by destruct init).
  rewrite locate_elsewhere; [|done|done|].
  - destruct (locate ns [] init _) as [e|l1]; [done|]. cbn [locate app] in *. destruct (find_child l1 n _); [done|].
    by rewrite mounted_remounted, bool_decide_true.
  - intros i Hii E. apply (f_equal length) in E. cbn [app] in E. rewrite length_take, length_app in E. cbn in E. lia.
Qed.

(** Off the mount everything stays. *)
Lemma located_off ns names l other : clean names → clean other → ¬ names `prefix_of` other →
  located (remounted ns (render names) l) other = located ns other.
Proof.
  intros Hc Ho Hp. unfold located. change (root (remounted ns (render names) l)) with (root ns).
  rewrite mounted_remounted, bool_decide_false; [|intros <-; by apply Hp, prefix_nil|done|apply clean_root].
  apply locate_elsewhere; [done|done|]. intros i Hi E. apply Hp. rewrite <- E. exists (drop i other). symmetry. apply (take_drop i other).
Qed.

(** C11: What [vfs_bind] does, on every input. It fails as the resolution of
    the two paths does, when a file meets a directory or a union is made of
    files, when the union would have more than 8 members, and when there is no
    memory for a new table entry. Otherwise the old path then names the new
    one's members, alone, before or after those it had, and every path not at
    or under it names what it did. *)
Theorem bind_correct room ns new old flag w : T w →
  ∃ r w', vfs_bind ops room ns new old flag w = (r, w') ∧ T w' ∧
  match resolved ns new, resolved ns old with
  | inl e, _ => r = Err e
  | inr _, inl e => r = Err e
  | inr (from, _), inr (onto, names) =>
      match bind_error from onto flag with
      | Some e => r = Err e
      | None =>
          if room || bool_decide (is_Some (find_mount ns (render names))) then
            ∃ ns', r = Good ns' ∧ resolved ns' old = inr (compose flag from onto, names) ∧
              ∀ other, clean other → ¬ names `prefix_of` other → located ns' other = located ns other
          else r = Err (- ENOMEM)
      end
  end.
Proof.
  intros Ht. destruct (gives_vfs_bind room ns new old flag w Ht) as (w' & E & Ht'). eexists _, w'. split; [exact E|]. split; [done|].
  destruct (resolved ns new) as [e|[from fnames]]; [done|]. destruct (resolved ns old) as [e|[onto names]] eqn:Eo; [done|].
  unfold installed. destruct (bind_error from onto flag); [done|]. destruct (_ || _); [|done]. destruct (resolved_clean _ _ _ _ Eo) as [Hc Hl].
  eexists. split; [done|]. split; [|intros other; by apply located_off]. revert Eo. unfold resolved. destruct (path_names old) as [|x]; [done|].
  destruct (located ns x) as [|l0] eqn:El; [done|]. intros [= -> ->]. by rewrite located_at by eauto.
Qed.

(** Unbinding a path that had no bind of its own takes a bind back: the
    namespace is the one before. *)
Theorem unbind_undoes_bind room ns new old flag w ns' w' : T w →
  vfs_bind ops room ns new old flag w = (Good ns', w') →
  (∀ l names, resolved ns old = inr (l, names) → find_mount ns (render names) = None) →
  ∃ w'', T w'' ∧ vfs_unbind ops ns' old w' = (Good ns, w'').
Proof.
  intros Ht E Hn. destruct (gives_vfs_bind room ns new old flag w Ht) as (w1 & E1 & Ht1). rewrite E in E1. injection E1 as E1 <-.
  destruct (resolved ns new) as [e|[from fnames]]; [done|]. destruct (resolved ns old) as [e|[onto names]] eqn:Eo; [done|].
  specialize (Hn _ _ eq_refl). unfold installed in E1. destruct (bind_error from onto flag); [done|]. destruct (_ || _); [|done].
  injection E1 as ->. unfold vfs_unbind, lift.
  assert (vfs_clean_path old = Good (render names)) as Hcl.
  { rewrite clean_path_eq. revert Eo. unfold resolved, path_names. destruct (_ =? 47); [|done]. destruct (cleaned old); [|done]. by destruct (located ns _); [|intros [= _ ->]]. }
  unfold mbind at 1, st_bind at 1. rewrite Hcl. unfold ns_remove_mount. rewrite find_remounted, bool_decide_true by done.
  assert (unlink_mount (render names) (mounts (remounted ns (render names) (compose flag from onto))) = mounts ns) as ->.
  { unfold remounted. rewrite Hn. cbn [mounts with_mounts]. revert Hn. unfold find_mount. clear.
    induction (mounts ns) as [|x m IH]; cbn [app unlink_mount List.find path]; [by rewrite bool_decide_true|]. destruct (bool_decide _); [done|].
    intros H. by rewrite IH. }
  destruct (gives_release (compose flag from onto) w' Ht1) as (w2 & E2 & Ht2). exists w2. split; [done|].
  rewrite (bind_good _ _ _ _ _ E2). by destruct ns.
Qed.
End resolve.
