(* ===== verification/VfsList.v ===== *)
(** * Listing a union directory

    [vfs_readdir] and [vfs_readdir_at] against the concatenation of what the
    members list, over any file system whose directories keep their entries
    while they are listed ([Lists]). *)
From S2P Require Import Prelude StateM Abi Namespace Vfs.
Local Open Scope Z_scope.

Section listing.
Context {F : Type} (ops : world F → Z → vnode_ops (world F)).
Local Abbreviation W := (world F).
Implicit Types (w : W) (v : Z) (l : location) (f : file).

(** What a vnode lists; nothing when it is no directory or has no [readdir]. *)
Class Lists (listing : Z → list dirent) (kind : Z → vnode_type) (L : W → Prop) : Prop := {
  l_kind w v : L w → vtype w v = kind v;
  l_readdir w v readdir i : L w → op_readdir (ops w v) = Some readdir → kind v = VNODE_DIR → 0 ≤ i →
    ∃ w', readdir i w = (Good (listing v !! Z.to_nat i), w') ∧ L w';
  l_none w v : L w → kind v ≠ VNODE_DIR ∨ op_readdir (ops w v) = None → listing v = []
}.

Context {listing : Z → list dirent} {kind : Z → vnode_type} {L : W → Prop} `{!Lists listing kind L}.

Definition whole l : list dirent := concat ((λ m, listing m.1) <$> l).

Lemma whole_app a b : whole (a ++ b) = whole a ++ whole b.
Proof. unfold whole. by rewrite fmap_app, concat_app. Qed.

(** The entries of the member a listing has come to. *)
Definition here (rest : location) : list dirent := match rest with [] => [] | (v, _) :: _ => listing v end.

(** Where an open directory stands in its listing. *)
Record standing f (before rest : location) : Prop := {
  s_loc : floc f = before ++ rest;
  s_member : member f = Z.of_nat (length before);
  s_index : 0 ≤ index f ≤ Z.of_nat (length (here rest));
  s_entry : entry f = Z.of_nat (length (whole before)) + index f;
  s_size : Z.of_nat (length (whole (floc f))) < 2 ^ 32
}.

Definition positioned f : Prop := ∃ before rest, standing f before rest.

Definition count (o : option dirent) : Z := match o with Some _ => 1 | None => 0 end.

Lemma here_whole rest : (length (here rest) ≤ length (whole rest))%nat.
Proof. destruct rest as [|[v s] rest]; [done|]. unfold whole. cbn. rewrite length_app. lia. Qed.

(** The entry the file stands at. *)
Lemma standing_lookup f before rest : standing f before rest → whole (floc f) !! Z.to_nat (entry f) = whole rest !! Z.to_nat (index f).
Proof.
  intros [-> _ Hi -> _]. rewrite whole_app, lookup_app_r by lia. f_equal. lia.
Qed.

(** A member that has no entry left is passed. *)
Lemma standing_next f before v s rest :
  standing f before ((v, s) :: rest) → listing v !! Z.to_nat (index f) = None →
  standing (at_entry f (member f + 1) 0 (entry f)) (before ++ [(v, s)]) rest.
Proof.
  intros [Hl Hm Hi He Hs] Hn. apply lookup_ge_None in Hn. cbn [here] in Hi. split; cbn [floc member index entry at_entry]; [by rewrite <- app_assoc| | | |done].
  - rewrite length_app. cbn. lia.
  - lia.
  - rewrite whole_app, length_app. unfold whole at 2. cbn. rewrite app_nil_r. lia.
Qed.

(** An entry that was read is behind the file. *)
Lemma standing_read f before v s rest d :
  standing f before ((v, s) :: rest) → listing v !! Z.to_nat (index f) = Some d →
  standing (at_entry f (member f) (u32 (index f + 1)) (u32 (entry f + 1))) before ((v, s) :: rest) ∧
  u32 (entry f + 1) = entry f + 1.
Proof.
  intros [Hl Hm Hi He Hs] Hd. apply lookup_lt_Some in Hd. cbn [here] in Hi. pose proof (here_whole ((v, s) :: rest)) as Hh. cbn [here] in Hh.
  assert (Z.of_nat (length (whole before)) + Z.of_nat (length (listing v)) < 2 ^ 32) as Hb by (rewrite Hl, whole_app, length_app in Hs; lia).
  rewrite !u32_small by lia. split; [|done]. split; cbn [floc member index entry at_entry here]; try done; lia.
Qed.

Lemma readdir_loop_ok rest f before w : L w → standing f before rest →
  ∃ f' w', readdir_loop ops rest f w = (Good (f', inr (whole rest !! Z.to_nat (index f))), w') ∧ L w' ∧ positioned f' ∧
    floc f' = floc f ∧ entry f' = entry f + count (whole rest !! Z.to_nat (index f)).
Proof.
  revert f before w. induction rest as [|[v s] rest IH]; intros f before w Hw Hs.
  { exists f, w. change (whole []) with (@nil dirent). rewrite lookup_nil. split_and!; [done|done|by eexists _, _|done|cbn; lia]. }
  cbn [readdir_loop].
  assert (∃ w', (match is_dir_type (vtype w v), op_readdir (ops w v) with true, Some readdir => readdir (index f) | _, _ => mret None end) w =
    (Good (listing v !! Z.to_nat (index f)), w') ∧ L w') as (w1 & E1 & Hw1).
  { rewrite (l_kind w v Hw). pose proof (l_none w v Hw) as Hn. destruct (kind v) eqn:Ek; cbn [is_dir_type];
      try (exists w; split; [|done]; rewrite Hn by (by left); done).
    destruct (op_readdir (ops w v)) as [rd|] eqn:Er; [|exists w; split; [|done]; by rewrite Hn by (by right)].
    apply (l_readdir w v rd); [done|done|done|apply Hs]. }
  rewrite (bind_good get w w _ w), (bind_try_good _ _ _ _ _ E1) by done.
  assert (whole ((v, s) :: rest) = listing v ++ whole rest) as -> by done.
  destruct (listing v !! Z.to_nat (index f)) as [d|] eqn:Ed.
  - rewrite (lookup_app_l_Some _ _ _ _ Ed). destruct (standing_read _ _ _ _ _ _ Hs Ed) as [Hs' He'].
    eexists _, w1. split_and!; [done|done|by eexists _, _|done|]. cbn [entry at_entry]. by rewrite He'.
  - pose proof (standing_next _ _ _ _ _ Hs Ed) as Hs'. destruct (IH _ _ w1 Hw1 Hs') as (f' & w' & E & Hw' & Hp & Hl & He).
    cbn [index entry floc at_entry] in *. change (Z.to_nat 0) with 0%nat in *. apply lookup_ge_None in Ed as Hg. destruct Hs as [_ _ Hi _ _]. cbn [here] in Hi.
    rewrite lookup_app_r by lia. replace (Z.to_nat (index f) - length (listing v))%nat with 0%nat by lia. by exists f', w'.
Qed.

Lemma readdir_ok f w : L w → kind (first (floc f)) = VNODE_DIR → positioned f →
  ∃ f' w', vfs_readdir ops f w = (Good (f', inr (whole (floc f) !! Z.to_nat (entry f))), w') ∧ L w' ∧ positioned f' ∧
    floc f' = floc f ∧ entry f' = entry f + count (whole (floc f) !! Z.to_nat (entry f)).
Proof.
  intros Hw Hk (before & rest & Hs). unfold vfs_readdir. rewrite (bind_good get w w _ w) by done.
  rewrite (l_kind w _ Hw), Hk. cbn [is_dir_type negb]. rewrite (standing_lookup _ _ _ Hs).
  replace (drop (Z.to_nat (member f)) (floc f)) with rest; [by eapply readdir_loop_ok|].
  by rewrite (s_loc _ _ _ Hs), (s_member _ _ _ Hs), Nat2Z.id, drop_app_length.
Qed.

Lemma entry_bound f : positioned f → 0 ≤ entry f ≤ Z.of_nat (length (whole (floc f))).
Proof.
  intros (before & rest & [Hl Hm Hi He Hs]). rewrite Hl, whole_app, length_app. pose proof (here_whole rest). lia.
Qed.

Lemma skip_entries_ok fuel e f w : L w → kind (first (floc f)) = VNODE_DIR → positioned f → entry f ≤ e → e - entry f ≤ Z.of_nat fuel →
  ∃ f' w', skip_entries ops fuel e f w = (Good (f', inr (whole (floc f) !! Z.to_nat e)), w') ∧ L w' ∧ positioned f' ∧ floc f' = floc f.
Proof.
  revert f w. induction fuel as [|fuel IH]; intros f w Hw Hk Hp Hle Hf; cbn [skip_entries];
    destruct (readdir_ok f w Hw Hk Hp) as (f1 & w1 & E1 & Hw1 & Hp1 & Hl1 & He1).
  { rewrite (proj2 (Z.ltb_ge _ _)) by lia. exists f1, w1. replace e with (entry f) by lia. done. }
  destruct (Z.ltb_spec (entry f) e) as [Hlt|]; [|exists f1, w1; by replace e with (entry f) by lia].
  rewrite (bind_good _ _ _ _ _ E1). destruct (whole (floc f) !! Z.to_nat (entry f)) as [d|] eqn:Ed.
  - rewrite <- Hl1. cbn [count] in He1. apply IH; [done|by rewrite Hl1|done|lia..]. 
  - exists f1, w1. apply lookup_ge_None in Ed. pose proof (entry_bound f Hp). rewrite (proj2 (lookup_ge_None _ (Z.to_nat e))) by lia. done.
Qed.

(** C22: Reading entry [e] of an open directory, wherever its listing stands,
    gives the [e]-th of the members' entries in union order, duplicates
    included, and nothing past the last. The calls leave the file standing at
    a place of the same listing. *)
Theorem union_listing f e w :
  L w → kind (first (floc f)) = VNODE_DIR → positioned f → 0 ≤ e < 2 ^ 32 →
  ∃ f' w', vfs_readdir_at ops f e w = (Good (f', inr (whole (floc f) !! Z.to_nat e)), w') ∧ L w' ∧ positioned f' ∧ floc f' = floc f.
Proof.
  intros Hw Hk Hp He. unfold vfs_readdir_at. destruct (Z.ltb_spec e (entry f)) as [Hlt|Hge]; [|apply skip_entries_ok; try done; lia].
  assert (positioned (at_entry f 0 0 0)) as Hp0.
  { exists [], (floc f). destruct Hp as (? & ? & []). split; cbn; try done; lia. }
  destruct (skip_entries_ok (Z.to_nat (e - 0)) e (at_entry f 0 0 0) w Hw Hk Hp0) as (f' & w' & E & H); [cbn; lia|cbn; lia|]. by exists f', w'.
Qed.
End listing.
