(* ===== verification/Ramfs.v ===== *)
(** * The memory file system ([zkt/fs/ramfs.c])

    Nodes are numbered in the order they are made; a [struct ram_node *] and
    the [struct vnode *] of it are that number. The type, size and references
    of a node are in its vnode ([world]); [room] lists whether the next
    allocations succeed. It keeps the contracts of a file system
    ([Counted], [Tree], [Lists]). *)
From S2P Require Import Prelude StateM Abi Namespace Paths Vfs VfsRefs VfsSystem Resolve VfsList.
Local Open Scope Z_scope.

(** [struct ram_node]: [data] is what the pointer points to, [owned] whether
    [owned_data] does too, [writable_ops] whether [ops] is
    [ram_writable_file_ops]. *)
Record ram_node := RamNode { rname : list Z; data : list Z; owned : bool; children : list Z; writable_ops : bool }.

Record ram := Ram { nodes : Z → ram_node; next_node : Z; room : list bool }.

Local Abbreviation W := (world ram).
Implicit Types (w : W) (v dir n : Z) (name : list Z).

Definition node w v : ram_node := nodes (fs w) v.

Definition set_node v (x : ram_node) : st W unit :=
  modify (λ w, World (Ram (λ y, if y =? v then x else nodes (fs w) y) (next_node (fs w)) (room (fs w))) (vtype w) (vsize w) (refs w)).
Definition set_size v (s : Z) : st W unit := modify (λ w, World (fs w) (vtype w) (λ y, if y =? v then s else vsize w y) (refs w)).
Definition set_type v (t : vnode_type) : st W unit := modify (λ w, World (fs w) (λ y, if y =? v then t else vtype w y) (vsize w) (refs w)).

(** [kmalloc], by whether it returns memory. *)
Definition alloc : st W bool :=
  w ← get;
  modify (λ w, World (Ram (nodes (fs w)) (next_node (fs w)) (drop 1 (room (fs w)))) (vtype w) (vsize w) (refs w)) ;;
  mret (default true (head (room (fs w)))).

(** The first of the nodes with the name. *)
Definition find_name w (cs : list Z) name : option Z := List.find (λ c, bool_decide (rname (node w c) = name)) cs.

Definition ram_walk dir name : st W Z :=
  w ← get;
  match find_name w (children (node w dir)) name with
  | Some c => vnode_ref c ;; mret c
  | None => fail (- ENOENT)
  end.

Definition ram_readdir dir (i : Z) : st W (option dirent) :=
  w ← get;
  mret ((λ c, Dirent (take (Z.to_nat VFS_NAME_MAX) (rname (node w c))) (vtype w c) (vsize w c)) <$> children (node w dir) !! Z.to_nat i).

Definition ram_read v (off n : Z) : st W (list Z) :=
  w ← get;
  if off >=? vsize w v then mret []
  else
    let n := if n >? vsize w v - off then vsize w v - off else n in
    mret (take (Z.to_nat n) (drop (Z.to_nat off) (data (node w v)))).

(** [size] zero bytes, the first [n] bytes of [old] copied over their start. *)
Definition copied (size n : Z) (old : list Z) : list Z := take (Z.to_nat n) old ++ replicate (Z.to_nat (size - n)) 0.

(** [buf] copied over [l] from [off] on. *)
Definition over (l : list Z) (off : Z) (buf : list Z) : list Z :=
  take (Z.to_nat off) l ++ buf ++ drop (Z.to_nat off + length buf) l.

Definition set_data v (d : list Z) (own : bool) : st W unit :=
  w ← get; set_node v (RamNode (rname (node w v)) d own (children (node w v)) (writable_ops (node w v))).

Definition ram_write v (off : Z) (buf : list Z) : st W Z :=
  w ← get;
  if len buf >? 2 ^ 32 - 1 - off then fail (- EINVAL)
  else
    let end_ := u32 (off + len buf) in
    if len buf =? 0 then mret 0
    else
      let size := if end_ >? vsize w v then end_ else vsize w v in
      ok ← alloc;
      if negb ok then fail (- ENOMEM)
      else
        set_data v (over (copied size (vsize w v) (data (node w v))) off buf) true ;;
        set_size v size ;;
        mret (len buf).

Definition ram_truncate v (size : Z) : st W unit :=
  w ← get;
  if size =? vsize w v then mret tt
  else
    ok ← (if size =? 0 then mret true else alloc);
    if negb ok then fail (- ENOMEM)
    else
      let d := if size =? 0 then [] else copied size (if vsize w v <? size then vsize w v else size) (data (node w v)) in
      set_data v d (negb (size =? 0)) ;;
      set_size v size.

Definition ram_ops v : vnode_ops W :=
  VnodeOps (Some (ram_walk v)) (Some (ram_read v)) None (Some (ram_readdir v)) None None None None None None None None.
Definition ram_writable_file_ops v : vnode_ops W :=
  VnodeOps None (Some (ram_read v)) (Some (ram_write v)) None None None None (Some (ram_truncate v)) None None None None.

(** [v->ops] *)
Definition ram_fs w v : vnode_ops W := if writable_ops (node w v) then ram_writable_file_ops v else ram_ops v.

Definition new_node name : st W (option Z) :=
  ok ← alloc;
  if negb ok then mret None
  else
    w ← get;
    let n := next_node (fs w) in
    modify (λ w, World (Ram (nodes (fs w)) (n + 1) (room (fs w))) (vtype w) (vsize w) (λ x, if x =? n then 1 else refs w x)) ;;
    set_node n (RamNode (take (Z.to_nat VFS_NAME_MAX) name) [] false [] false) ;;
    set_type n VNODE_DIR ;;
    set_size n 0 ;;
    mret (Some n).

Definition ramfs_create : st W (option Z) := new_node [].

(** [*link = n] at the end of the children of [dir]. *)
Definition link_child dir n : st W unit :=
  w ← get;
  set_node dir (RamNode (rname (node w dir)) (data (node w dir)) (owned (node w dir)) (children (node w dir) ++ [n]) (writable_ops (node w dir))).

(** The rounds of [make_path] from [dir] on. *)
Fixpoint make_loop (fuel : nat) dir (p : list Z) : st W Z :=
  match p with
  | [] => mret dir
  | _ =>
      match fuel with
      | O => hang
      | S fuel =>
          let '(name, rest) := name_end p in
          if len name >? VFS_NAME_MAX then fail (- ENAMETOOLONG)
          else
            let p := if aget 0 rest 0 =? 47 then drop 1 rest else rest in
            if len name =? 0 then make_loop fuel dir p
            else
              w ← get;
              if negb (is_dir_type (vtype w dir)) then fail (- ENOTDIR)
              else
                match find_name w (children (node w dir)) name with
                | Some c => make_loop fuel c p
                | None =>
                    n ← new_node name;
                    match n with
                    | None => fail (- ENOMEM)
                    | Some c => link_child dir c ;; make_loop fuel c p
                    end
                end
      end
  end.

Definition make_path (vroot : Z) (p : list Z) : st W Z := make_loop (length p) vroot p.

Definition ramfs_mkdir (vroot : Z) (p : list Z) : st W unit :=
  n ← make_path vroot p;
  w ← get;
  if negb (is_dir_type (vtype w n)) then fail (- EEXIST) else mret tt.

Definition ramfs_add_file (vroot : Z) (p bytes : list Z) (size : Z) : st W unit :=
  n ← make_path vroot p;
  w ← get;
  if negb (bool_decide (children (node w n) = [])) || (n =? vroot) then fail (- EEXIST)
  else
    set_type n VNODE_FILE ;;
    set_size n size ;;
    set_node n (RamNode (rname (node w n)) bytes (owned (node w n)) (children (node w n)) (writable_ops (node w n))).

Definition ramfs_add_mutable_file (vroot : Z) (p : list Z) : st W unit :=
  n ← make_path vroot p;
  w ← get;
  if negb (bool_decide (children (node w n) = [])) || (n =? vroot) then fail (- EEXIST)
  else
    set_type n VNODE_FILE ;;
    set_size n 0 ;;
    set_node n (RamNode (rname (node w n)) [] false (children (node w n)) true).

(** [destroy]; a turn of its loop is a round. The panic on a node that is still
    referenced does not return; freeing a node gives its memory back and is not
    part of the state. *)
Fixpoint destroy (fuel : nat) n : st W unit :=
  match fuel with
  | O => hang
  | S fuel =>
      w ← get;
      match children (node w n) with
      | c :: rest =>
          set_node n (RamNode (rname (node w n)) (data (node w n)) (owned (node w n)) rest (writable_ops (node w n))) ;;
          destroy fuel c ;;
          destroy fuel n
      | [] => if negb (refs w n =? 1) then hang else mret tt
      end
  end.

(** ** Small steps *)

Lemma node_set w v x y : node (set_node v x w).2 y = if y =? v then x else node w y.
Proof. done. Qed.

(** A step that leaves the counts. *)
Lemma acct_step_refs (I : W → Prop) (f : W → W) w err :
  I (f w) → refs (f w) = refs w → acct I (modify f) w (sure (λ _, 0) err).
Proof. intros Hi Hr. split; [done|]. intros v. cbn. by rewrite Hr, Z.add_0_r. Qed.

(** ** References *)

(** The nodes' operation tables are as [wr] says. *)
Definition tables (wr : Z → bool) w : Prop := ∀ v, writable_ops (node w v) = wr v.

Lemma acct_alloc wr w err : tables wr w → acct (tables wr) alloc w (sure (λ _, 0) err).
Proof. intros Ht. unfold alloc. apply acct_get. split; [done|]. intros v. cbn. by rewrite Z.add_0_r. Qed.

Lemma acct_set_data wr w v d own err : tables wr w → acct (tables wr) (set_data v d own) w (sure (λ _, 0) err).
Proof.
  intros Ht. unfold set_data. apply acct_get. apply acct_step_refs; [|done]. intros x. cbn. destruct (x =? v) eqn:E; [|apply Ht].
  apply Z.eqb_eq in E as ->. apply Ht.
Qed.

Lemma acct_set_size wr w v s err : tables wr w → acct (tables wr) (set_size v s) w (sure (λ _, 0) err).
Proof. intros Ht. by apply acct_step_refs. Qed.

Lemma acct_ram_write wr w v off buf : tables wr w → acct (tables wr) (ram_write v off buf) w none.
Proof.
  intros Ht. unfold ram_write. apply acct_get. destruct (_ >? _); [by apply acct_fail|]. cbv zeta. destruct (_ =? 0); [by apply acct_ret|].
  eapply (acct_bind _ _ _ _ (sure _ (λ _ _, 0))); [by apply acct_alloc|done|]. intros [] w1 Ht1; [|by apply acct_fail]. cbn [negb].
  eapply (acct_bind _ _ _ _ (sure _ (λ _ _, 0))); [by apply acct_set_data|done|]. intros [] w2 Ht2.
  eapply (acct_bind _ _ _ _ (sure _ (λ _ _, 0))); [by apply acct_set_size|done|]. intros [] w3 Ht3. by apply acct_ret.
Qed.

Lemma acct_ram_truncate wr w v size : tables wr w → acct (tables wr) (ram_truncate v size) w none.
Proof.
  intros Ht. unfold ram_truncate. apply acct_get. destruct (_ =? vsize w v); [by apply acct_ret|].
  eapply (acct_bind _ _ _ _ (sure (λ _, 0) (λ _ _, 0))); [destruct (_ =? 0); [by apply acct_ret|by apply acct_alloc]|done|].
  intros [] w1 Ht1; [|by apply acct_fail]. cbn [negb]. cbv zeta.
  eapply (acct_bind _ _ _ _ (sure _ (λ _ _, 0))); [by apply acct_set_data|done|]. intros [] w2 Ht2.
  eapply acct_ext; [by apply (acct_set_size _ _ _ _ (λ _ _, 0))|]. by intros [] ?.
Qed.

#[export] Instance ram_counted wr : Counted ram_fs (tables wr) wr.
Proof.
  split; unfold ram_fs; try (intros w v *; by destruct (writable_ops (node w v))).
  - done.
  - intros w v walk name Ht. destruct (writable_ops (node w v)); [done|]. intros [= <-]. unfold ram_walk. apply acct_get.
    destruct (find_name _ _ _); [|by apply acct_fail].
    eapply (acct_bind _ _ _ _ (sure _ (λ _ _, 0))); [by apply acct_count_up|done|]. intros [] w' Ht'. apply acct_ret; [done|].
    intros x. cbn. lia.
  - intros w v read o n Ht E. assert (read = ram_read v) as -> by (by destruct (writable_ops (node w v)); injection E as <-).
    unfold ram_read. apply acct_get. destruct (_ >=? _); by apply acct_ret.
  - intros w v write o b Ht. destruct (writable_ops (node w v)); [|done]. intros [= <-]. by apply acct_ram_write.
  - intros w v truncate n Ht. destruct (writable_ops (node w v)); [|done]. intros [= <-]. by apply acct_ram_truncate.
  - intros w v readdir i Ht. destruct (writable_ops (node w v)); [done|]. intros [= <-]. unfold ram_readdir. apply acct_get. by apply acct_ret.
  - intros w v Ht. rewrite <- (Ht v). destruct (writable_ops (node w v)); cbn; [split; [done|by eauto]|split; [by intros [? ?]|done]].
  - intros w v Ht. rewrite <- (Ht v). destruct (writable_ops (node w v)); [done|]. by intros [? ?].
Qed.

(** ** Names and listings *)

(** The same nodes, whatever is referenced. *)
Definition like w0 w : Prop := ∀ v, node w v = node w0 v ∧ vtype w v = vtype w0 v ∧ vsize w v = vsize w0 v.

Definition ram_child w0 dir name : Z + Z :=
  match find_name w0 (children (node w0 dir)) name with Some c => inr c | None => inl (- ENOENT) end.

Definition ram_listing w0 dir : list dirent :=
  if is_dir_type (vtype w0 dir) && negb (writable_ops (node w0 dir)) then
    (λ c, Dirent (take (Z.to_nat VFS_NAME_MAX) (rname (node w0 c))) (vtype w0 c) (vsize w0 c)) <$> children (node w0 dir)
  else [].

Lemma find_ext {A} (f g : A → bool) l : (∀ x, x ∈ l → f x = g x) → List.find f l = List.find g l.
Proof. induction l as [|x l IH]; intros H; [done|]. cbn. rewrite (H x) by set_solver. rewrite IH by set_solver. done. Qed.

Lemma find_name_like w0 w cs name : like w0 w → find_name w cs name = find_name w0 cs name.
Proof. intros Hl. apply find_ext. intros c _. by rewrite (proj1 (Hl c)). Qed.

#[export] Instance ram_tree w0 : Tree ram_fs (ram_child w0) (vtype w0) (λ v, negb (writable_ops (node w0 v))) (like w0).
Proof.
  split; unfold ram_fs.
  - done.
  - intros w v Hl. apply Hl.
  - intros w v Hl. rewrite (proj1 (Hl v)). destruct (writable_ops (node w0 v)); cbn; [split; [by intros [? ?]|done]|split; [done|by eauto]].
  - intros w v walk name Hl. destruct (writable_ops (node w v)); [done|]. intros [= <-]. unfold ram_walk, ram_child.
    rewrite (bind_good get w w _ w), (find_name_like w0 w) by done. rewrite (proj1 (Hl v)). destruct (find_name _ _ _) as [c|]; eexists; (split; [done|]); done.
  - intros w v release Hl. by destruct (writable_ops (node w v)).
Qed.

#[export] Instance ram_lists w0 : Lists ram_fs (ram_listing w0) (vtype w0) (like w0).
Proof.
  split; unfold ram_fs.
  - intros w v Hl. apply Hl.
  - intros w v readdir i Hl. rewrite (proj1 (Hl v)). destruct (writable_ops (node w0 v)) eqn:Ew; [done|]. intros [= <-] Ek Hi.
    exists w. split; [|done]. unfold ram_readdir, ram_listing. rewrite (bind_good get w w _ w) by done. rewrite Ek, Ew.
    cbn [is_dir_type andb negb]. rewrite list_lookup_fmap, (proj1 (Hl v)). destruct (children (node w0 v) !! Z.to_nat i) as [c|]; [|done]. cbn. destruct (Hl c) as (-> & -> & ->). done.
  - intros w v Hl H. unfold ram_listing. rewrite (proj1 (Hl v)) in H. destruct (vtype w0 v), (writable_ops (node w0 v)); cbn in *; try done. naive_solver.
Qed.
