(* ===== verification/RamfsRun.v ===== *)
(** * Files in memory, through the VFS

    Writing and reading back an open file of [ramfs.c]; a file added to the
    tree is found, opened and read through its path. *)
From S2P Require Import Prelude StateM Abi Namespace Paths Vfs VfsRefs VfsSystem Resolve VfsList Ramfs.
Local Open Scope Z_scope.
Implicit Types (w : world ram) (v dir n : Z) (name : list Z).

(** ** Writing and reading *)

(** A node whose data is as long as its vnode says. *)
Definition ram_file w v : Prop := len (data (node w v)) = vsize w v ∧ vsize w v < 2 ^ 32.

(** The bytes of a file after [buf] is written at [off]; a gap reads as zeros. *)
Definition written (old : list Z) (off : Z) (buf : list Z) : list Z :=
  if bool_decide (buf = []) then old else over (old ++ replicate (Z.to_nat (off + len buf - len old)) 0) off buf.

Lemma over_length l off buf : 0 ≤ off → off + len buf ≤ len l → len (over l off buf) = len l.
Proof. intros H0 H. unfold over, len in *. rewrite !length_app, length_take, length_drop. lia. Qed.

Lemma over_read l off buf : 0 ≤ off → off + len buf ≤ len l → take (length buf) (drop (Z.to_nat off) (over l off buf)) = buf.
Proof.
  intros H0 H. unfold over, len in *. rewrite drop_app_length' by (rewrite length_take; lia). by rewrite take_app_length.
Qed.

Lemma written_length old off buf : 0 ≤ off → len (written old off buf) = if bool_decide (buf = []) then len old else Z.max (len old) (off + len buf).
Proof.
  intros H0. unfold written. case_bool_decide; [done|]. rewrite over_length; unfold len in *; rewrite ?length_app, ?length_replicate; lia.
Qed.

Lemma written_read old off buf : 0 ≤ off → take (length buf) (drop (Z.to_nat off) (written old off buf)) = buf.
Proof.
  intros H0. unfold written. case_bool_decide; [by subst|]. apply over_read; [done|]. unfold len. rewrite length_app, length_replicate. lia.
Qed.

Lemma ram_write_ok v off buf w : ram_file w v → 0 ≤ off → off + len buf < 2 ^ 32 →
  match ram_write v off buf w with
  | (Good n, w') => n = len buf ∧ data (node w' v) = written (data (node w v)) off buf ∧ ram_file w' v ∧
      writable_ops (node w' v) = writable_ops (node w v) ∧ vtype w' = vtype w ∧
      ∀ u, u ≠ v → node w' u = node w u ∧ vsize w' u = vsize w u
  | (Err e, w') => e = - ENOMEM ∧ like w w'
  | (Hang, _) => False
  end.
Proof.
  intros [Hd Hs] H0 Hb. assert (0 ≤ len buf) as Hl by (unfold len; lia). assert (len buf = 0 ↔ buf = []) as Hz.
  { unfold len. destruct buf; cbn; [done|]. split; [lia|done]. }
  unfold ram_write, alloc, set_data, set_node, set_size, get, modify, mbind, st_bind, mret, st_ret.
  rewrite Z.gtb_ltb, (proj2 (Z.ltb_ge _ _)) by lia. cbv zeta. destruct (Z.eqb_spec (len buf) 0) as [E|E].
  { by apply Hz in E as ->. }
  cbn. destruct (default true (head (room (fs w)))); cbn [negb]; [|split; [done|by intros x]].
  rewrite u32_small by lia. set (size := if _ >? _ then _ else _). assert (size = Z.max (vsize w v) (off + len buf)) as Hsz.
  { unfold size. rewrite Z.gtb_ltb. destruct (Z.ltb_spec (vsize w v) (off + len buf)); lia. }
  assert (over (copied size (vsize w v) (data (node w v))) off buf = written (data (node w v)) off buf) as Hw.
  { unfold written. rewrite bool_decide_false by (by rewrite <- Hz). unfold copied. rewrite take_ge by (unfold len in Hd; lia).
    do 3 f_equal. lia. }
  split_and!; cbn; rewrite ?Z.eqb_refl; cbn; try done.
  - unfold ram_file, node in *. cbn. rewrite !Z.eqb_refl. cbn [data]. rewrite Hw, written_length by done.
    rewrite bool_decide_false by (by rewrite <- Hz). lia.
  - intros u Hu. by rewrite (proj2 (Z.eqb_neq u v)).
Qed.

Lemma ram_read_ok v off n w : ram_file w v → 0 ≤ off → 0 ≤ n →
  ram_read v off n w = (Good (take (Z.to_nat n) (drop (Z.to_nat off) (data (node w v)))), w).
Proof.
  intros [Hd _] H0 Hn. unfold ram_read. rewrite (bind_good get w w _ w) by done. unfold len in Hd. rewrite Z.geb_leb.
  destruct (Z.leb_spec (vsize w v) off); [by rewrite (drop_ge (data _)), take_nil by lia|].
  rewrite Z.gtb_ltb. destruct (Z.ltb_spec (vsize w v - off) n); [|done].
  rewrite !take_ge by (rewrite length_drop; lia). done.
Qed.

(** An open file of ordinary data. *)
Record on_file (f : file) w v : Prop := {
  o_first : first (floc f) = v;
  o_mode : mode f = ORDWR;
  o_offset : 0 ≤ offset f < 2 ^ 32;
  o_ops : writable_ops (node w v) = true;
  o_type : vtype w v = VNODE_FILE;
  o_data : ram_file w v
}.

Lemma pread_ok f w v n off : on_file f w v → 0 ≤ off → 0 ≤ n →
  vfs_pread ram_fs f n off w = (Good (take (Z.to_nat n) (drop (Z.to_nat off) (data (node w v)))), w).
Proof.
  intros [Hf Hm _ Ho Ht Hd] H0 Hn. unfold vfs_pread, can_read. rewrite (bind_good get w w _ w) by done. rewrite Hf, Hm, Ht. cbn [negb orb Z.eqb Pos.eqb is_dir_type].
  unfold ram_fs. rewrite Ho. by apply ram_read_ok.
Qed.

(** C23: A write to an open file of a memory file system puts the bytes at the
    file's offset, with zeros in a gap before them, moves the offset past
    them and leaves every other node; a read at any place then gives the new
    contents, the bytes written where they were written. It fails only
    without memory or past 4 GiB, and then nothing has changed. *)
Theorem ram_write_read f v buf w : on_file f w v →
  match vfs_write ram_fs f buf w with
  | (Good (f', n), w') =>
      n = len buf ∧ offset f' = u32 (offset f + len buf) ∧ on_file f' w' v ∧
      (∀ k off, 0 ≤ k → 0 ≤ off →
        vfs_pread ram_fs f' k off w' = (Good (take (Z.to_nat k) (drop (Z.to_nat off) (written (data (node w v)) (offset f) buf))), w')) ∧
      vfs_pread ram_fs f' (len buf) (offset f) w' = (Good buf, w') ∧
      ∀ u, u ≠ v → node w' u = node w u ∧ vsize w' u = vsize w u
  | (Err e, w') => (e = - EINVAL ∧ 2 ^ 32 ≤ offset f + len buf ∨ e = - ENOMEM) ∧ like w w'
  | (Hang, _) => False
  end.
Proof.
  intros [Hf Hm Ho Hp Ht Hd]. unfold vfs_write, can_write. rewrite (bind_good get w w _ w) by done. rewrite Hf, Hm. cbn [negb orb Z.eqb Pos.eqb].
  unfold ram_fs at 1. rewrite Hp. cbn [op_write ram_writable_file_ops].
  destruct (Z_lt_ge_dec (offset f + len buf) (2 ^ 32)) as [Hb|Hb].
  - pose proof (ram_write_ok v (offset f) buf w Hd (proj1 Ho) Hb) as Hw. destruct (ram_write v (offset f) buf w) as [[n|e|] w'] eqn:E; [| |done].
    + rewrite (bind_good _ _ _ _ _ E). destruct Hw as (-> & Hdat & Hd' & Hops & Hty & Hfr). cbn [mret st_ret].
      assert (on_file (at_offset f (u32 (offset f + len buf))) w' v) as Hon.
      { split; cbn [floc mode offset at_offset]; [done|done|apply u32_range|by rewrite Hops|by rewrite Hty|done]. }
      split_and!; [done|done|done| | |done].
      * intros k off Hk Hof. by rewrite (pread_ok _ w' v), Hdat.
      * rewrite (pread_ok _ w' v), Hdat by (done || apply Ho || (unfold len; lia)). unfold len. by rewrite Nat2Z.id, written_read by apply Ho.
    + rewrite (bind_err _ _ _ _ _ E). destruct Hw as [-> Hl]. split; [by right|done].
  - assert (ram_write v (offset f) buf w = (Err (- EINVAL), w)) as E.
    { unfold ram_write. rewrite (bind_good get w w _ w) by done. rewrite Z.gtb_ltb, (proj2 (Z.ltb_lt _ _)) by lia. done. }
    rewrite (bind_err _ _ _ _ _ E). split; [left; split; [done|lia]|by intros x].
Qed.

(** ** The tree *)

(** Nodes are linked under older ones, and directories have [ram_ops]. *)
Record grown w : Prop := {
  g_child v c : c ∈ children (node w v) → v < c < next_node (fs w);
  g_dir v : vtype w v = VNODE_DIR → writable_ops (node w v) = false
}.

(** Nodes are only added: what was there stays, and its names still lead to it. *)
Record extends w w' : Prop := {
  e_next : next_node (fs w) ≤ next_node (fs w');
  e_type v : v < next_node (fs w) → vtype w' v = vtype w v;
  e_size v : v < next_node (fs w) → vsize w' v = vsize w v;
  e_data v : v < next_node (fs w) → data (node w' v) = data (node w v);
  e_ops v : v < next_node (fs w) → writable_ops (node w' v) = writable_ops (node w v);
  e_find v name c : v < next_node (fs w) → find_name w (children (node w v)) name = Some c →
    find_name w' (children (node w' v)) name = Some c
}.

Lemma extends_refl w : extends w w.
Proof. by split. Qed.
Lemma world_extends_trans w w1 w2 : extends w w1 → extends w1 w2 → extends w w2.
Proof.
  intros [N1 T1 S1 D1 O1 F1] [N2 T2 S2 D2 O2 F2]. split; [lia|intros v Hv..].
  - by rewrite T2, T1 by lia.
  - by rewrite S2, S1 by lia.
  - by rewrite D2, D1 by lia.
  - by rewrite O2, O1 by lia.
  - intros c Hvn Hf. apply F2; [lia|]. by apply F1.
Qed.

Lemma find_name_elem w cs name c : find_name w cs name = Some c → c ∈ cs ∧ rname (node w c) = name.
Proof.
  intros H. apply List.find_some in H as [H1 H2]. split; [by apply list_elem_of_In|]. by apply bool_decide_eq_true in H2.
Qed.

Lemma find_app_l {A} (f : A → bool) l l' x : List.find f l = Some x → List.find f (l ++ l') = Some x.
Proof. induction l as [|y l IH]; [done|]. cbn. by destruct (f y). Qed.
Lemma find_app_r {A} (f : A → bool) l l' : List.find f l = None → List.find f (l ++ l') = List.find f l'.
Proof. induction l as [|y l IH]; [done|]. cbn. by destruct (f y). Qed.

(** The world with a new directory [name] at the end of [dir]. *)
Definition with_child w dir name : world ram :=
  let n := next_node (fs w) in
  World (Ram (λ y, if y =? dir then RamNode (rname (node w dir)) (data (node w dir)) (owned (node w dir)) (children (node w dir) ++ [n]) (writable_ops (node w dir))
                   else if y =? n then RamNode name [] false [] false else node w y) (n + 1) (drop 1 (room (fs w))))
    (λ y, if y =? n then VNODE_DIR else vtype w y) (λ y, if y =? n then 0 else vsize w y) (λ y, if y =? n then 1 else refs w y).

Lemma with_child_ok w dir name : grown w → dir < next_node (fs w) → find_name w (children (node w dir)) name = None →
  let w' := with_child w dir name in
  grown w' ∧ extends w w' ∧ find_name w' (children (node w' dir)) name = Some (next_node (fs w)).
Proof.
  intros [Gc Gd] Hd Hf w'. set (n := next_node (fs w)) in *.
  assert (∀ y, y ≠ dir → y ≠ n → node w' y = node w y) as Hother.
  { intros y H1 H2. unfold node, w', with_child. cbn. fold n. by rewrite (proj2 (Z.eqb_neq _ _) H1), (proj2 (Z.eqb_neq _ _) H2). }
  assert (node w' dir = RamNode (rname (node w dir)) (data (node w dir)) (owned (node w dir)) (children (node w dir) ++ [n]) (writable_ops (node w dir))) as Hdir.
  { unfold node at 1, w', with_child. cbn. by rewrite Z.eqb_refl. }
  assert (node w' n = RamNode name [] false [] false) as Hnew.
  { unfold node at 1, w', with_child. cbn. rewrite (proj2 (Z.eqb_neq n dir)) by lia. fold n. by rewrite Z.eqb_refl. }
  assert (∀ y, y < n → rname (node w' y) = rname (node w y)) as Hname.
  { intros y Hy. destruct (decide (y = dir)) as [->|]; [by rewrite Hdir|]. by rewrite Hother by lia. }
  assert (∀ v nm, find_name w' (children (node w v)) nm = find_name w (children (node w v)) nm) as Hfind.
  { intros v nm. apply find_ext. intros c Hc. by rewrite Hname by (apply Gc in Hc; lia). }
  assert (∀ v, vtype w' v = if v =? n then VNODE_DIR else vtype w v) as Hty by done.
  split_and!.
  - split.
    + intros v c Hc. change (next_node (fs w')) with (n + 1). destruct (decide (v = dir)) as [->|]; [|destruct (decide (v = n)) as [->|]].
      * rewrite Hdir in Hc. cbn in Hc. apply elem_of_app in Hc as [Hc|Hc%list_elem_of_singleton]; [apply Gc in Hc; lia|lia].
      * rewrite Hnew in Hc. by apply not_elem_of_nil in Hc.
      * rewrite Hother in Hc by done. apply Gc in Hc. lia.
    + intros v. rewrite Hty. destruct (Z.eqb_spec v n) as [->|]; [by rewrite Hnew|]. intros H%Gd.
      destruct (decide (v = dir)) as [->|]; [by rewrite Hdir|by rewrite Hother].
  - split; [change (next_node (fs w')) with (n + 1); lia| | | | |]; intros v.
    + intros Hv. rewrite Hty. by rewrite (proj2 (Z.eqb_neq v n)) by lia.
    + intros Hv. unfold w', with_child. cbn. by rewrite (proj2 (Z.eqb_neq v _)) by lia.
    + intros Hv. destruct (decide (v = dir)) as [->|]; [by rewrite Hdir|by rewrite Hother by lia].
    + intros Hv. destruct (decide (v = dir)) as [->|]; [by rewrite Hdir|by rewrite Hother by lia].
    + intros nm c Hv Hc. destruct (decide (v = dir)) as [->|]; [|by rewrite Hother, Hfind by lia].
      rewrite Hdir. cbn [children]. apply find_app_l. by rewrite <- Hfind in Hc.
  - rewrite Hdir. cbn [children]. unfold find_name. rewrite find_app_r by (rewrite <- Hfind in Hf; exact Hf). cbn [List.find].
    by rewrite Hnew, bool_decide_true.
Qed.

Lemma new_child {A} dir name (k : Z → st (world ram) A) w : dir < next_node (fs w) → len name ≤ VFS_NAME_MAX →
  (n ← new_node name; match n with None => fail (- ENOMEM) | Some c => link_child dir c ;; k c end) w =
  if default true (head (room (fs w))) then k (next_node (fs w)) (with_child w dir name)
  else (Err (- ENOMEM), World (Ram (nodes (fs w)) (next_node (fs w)) (drop 1 (room (fs w)))) (vtype w) (vsize w) (refs w)).
Proof.
  intros Hd Hn. unfold new_node, alloc, mbind, st_bind, get, modify, mret, st_ret. destruct (default true (head (room (fs w)))); cbn; [|done].
  unfold link_child, set_node, get, modify, mbind, st_bind, mret, st_ret, node. cbn. rewrite !(proj2 (Z.eqb_neq dir (next_node (fs w)))) by lia.
  rewrite !take_ge by (unfold len in Hn; lia). done.
Qed.

(** The node a list of names leads to. *)
Fixpoint descend w v (names : list (list Z)) : option Z :=
  match names with
  | [] => Some v
  | n :: names =>
      if is_dir_type (vtype w v) && negb (writable_ops (node w v)) then c ← find_name w (children (node w v)) n; descend w c names else None
  end.

Lemma descend_extends w w' v names u : grown w → extends w w' → v < next_node (fs w) →
  descend w v names = Some u → descend w' v names = Some u ∧ u < next_node (fs w).
Proof.
  intros Hg He. revert v. induction names as [|n names IH]; intros v Hv; cbn [descend]; [by intros [= ->]|].
  rewrite (e_type _ _ He v Hv), (e_ops _ _ He v Hv). destruct (_ && _); [|done].
  destruct (find_name w (children (node w v)) n) as [c|] eqn:Ef; [|done]. rewrite (e_find _ _ He v n c Hv Ef). cbn [mbind option_bind].
  apply IH. apply find_name_elem in Ef as [Hc _]. apply (g_child _ Hg) in Hc. lia.
Qed.

(** The names of a path, as [make_path] takes them. *)
Definition rel_names (p : list Z) : list (list Z) := filter (λ x : list Z, x ≠ []) (split p).

Lemma rel_names_round p name rest : p ≠ [] → name_end p = (name, rest) →
  let p' := if aget 0 rest 0 =? 47 then drop 1 rest else rest in
  rel_names p = (if len name =? 0 then [] else [name]) ++ rel_names p' ∧ (length p' < length p)%nat.
Proof.
  intros Hp E. destruct (split_name_end _ _ _ E) as (-> & Hn & Hr). unfold rel_names.
  assert (∀ l, filter (λ x : list Z, x ≠ []) (name :: l) = (if len name =? 0 then [] else [name]) ++ filter (λ x : list Z, x ≠ []) l) as Hf.
  { intros l. destruct name; [done|]. rewrite filter_cons_True by done. done. }
  destruct Hr as [->|[q ->]].
  - change (aget 0 [] 0 =? 47) with false. cbn zeta iota. rewrite app_nil_r in *. rewrite split_plain, Hf by done. split; [done|]. destruct name; [done|]. cbn. lia.
  - change (aget 0 (47 :: q) 0 =? 47) with true. cbn zeta iota. change (drop 1 (47 :: q)) with q. rewrite split_app, Hf by done. split; [done|].
    rewrite length_app. cbn. lia.
Qed.

(** Making a path only adds nodes, and then its names lead to the result. *)
Lemma make_loop_ok fuel dir p w : grown w → dir < next_node (fs w) → (length p ≤ fuel)%nat →
  match make_loop fuel dir p w with
  | (Good n, w') => grown w' ∧ extends w w' ∧ descend w' dir (rel_names p) = Some n ∧ n < next_node (fs w')
  | (Err e, w') => grown w' ∧ extends w w' ∧ e ∈ [- ENAMETOOLONG; - ENOTDIR; - ENOMEM]
  | (Hang, _) => False
  end.
Proof.
  revert dir p w. induction fuel as [|fuel IH]; intros dir p w Hg Hd Hf.
  { destruct p; [|cbn in Hf; lia]. split_and!; [done|apply extends_refl|done|done]. }
  destruct (decide (p = [])) as [->|Hne]; [split_and!; [done|apply extends_refl|done|done]|].
  cbn [make_loop]. destruct p as [|c q]; [done|]. set (p := c :: q) in *. destruct (name_end p) as [name rest] eqn:En.
  destruct (rel_names_round p name rest Hne En) as [Hrel Hlen]. set (p' := if aget 0 rest 0 =? 47 then _ else _) in *. clearbody p'.
  destruct (Z.gtb_spec (len name) VFS_NAME_MAX) as [Hbig|Hsm]; [split_and!; [done|apply extends_refl|set_solver]|]. cbv zeta.
  destruct (len name =? 0) eqn:E0; [rewrite Hrel; apply IH; [done|done|lia]|]. rewrite (bind_good get w w _ w) by done.
  destruct (is_dir_type (vtype w dir)) eqn:Ed; cbn [negb]; [|split_and!; [done|apply extends_refl|set_solver]].
  assert (negb (writable_ops (node w dir)) = true) as Ew by (rewrite (g_dir _ Hg); [done|by destruct (vtype w dir)]).
  assert (∀ w1 c, grown w1 → extends w w1 → find_name w1 (children (node w1 dir)) name = Some c → c < next_node (fs w1) →
    match make_loop fuel c p' w1 with
    | (Good n, w') => grown w' ∧ extends w w' ∧ descend w' dir (rel_names p) = Some n ∧ n < next_node (fs w')
    | (Err e, w') => grown w' ∧ extends w w' ∧ e ∈ [- ENAMETOOLONG; - ENOTDIR; - ENOMEM]
    | (Hang, _) => False
    end) as Hnext.
  { intros w1 d Hg1 He1 Hc Hd1. pose proof (IH d p' w1 Hg1 Hd1 ltac:(lia)) as H. destruct (make_loop fuel d p' w1) as [[n|e|] w2]; [| |done].
    - destruct H as (Hg2 & He2 & Hdn & Hn). pose proof (world_extends_trans _ _ _ He1 He2) as He. split_and!; [done|done| |done].
      rewrite Hrel. cbn [app descend]. rewrite (e_type _ _ He dir Hd), (e_ops _ _ He dir Hd), Ed, Ew. cbn [andb].
      rewrite (e_find _ _ He2 dir name d) by (done || (pose proof (e_next _ _ He1); lia)). done.
    - destruct H as (Hg2 & He2 & Hin). split_and!; [done|by eapply world_extends_trans|done]. }
  destruct (find_name w (children (node w dir)) name) as [d|] eqn:Ef.
  - apply Hnext; [done|apply extends_refl|done|]. apply find_name_elem in Ef as [Hc _]. apply (g_child _ Hg) in Hc. lia.
  - rewrite (new_child dir name (λ d, make_loop fuel d p')) by done. destruct (default true (head (room (fs w)))).
    + destruct (with_child_ok w dir name Hg Hd Ef) as (Hg1 & He1 & Hf1). apply Hnext; [done|done|done|]. cbn. lia.
    + split_and!; [|by split|set_solver]. destruct Hg as [Gc Gd]. by split.
Qed.

(** ** Adding a file and opening it *)

(** The world after the node [n], which has no children, becomes a file. *)
Definition as_file w n bytes size : world ram :=
  World (Ram (λ y, if y =? n then RamNode (rname (node w n)) bytes (owned (node w n)) (children (node w n)) (writable_ops (node w n)) else node w y)
           (next_node (fs w)) (room (fs w)))
    (λ y, if y =? n then VNODE_FILE else vtype w y) (λ y, if y =? n then size else vsize w y) (refs w).

Lemma as_file_names w n bytes size v : 
  rname (node (as_file w n bytes size) v) = rname (node w v) ∧ children (node (as_file w n bytes size) v) = children (node w v) ∧
  writable_ops (node (as_file w n bytes size) v) = writable_ops (node w v).
Proof. unfold node at 1 3 5, as_file. cbn. destruct (Z.eqb_spec v n) as [->|]; done. Qed.

Lemma descend_as_file w n bytes size v names u : children (node w n) = [] →
  descend w v names = Some u → descend (as_file w n bytes size) v names = Some u.
Proof.
  intros Hn. revert v. induction names as [|x names IH]; intros v; cbn [descend]; [done|].
  destruct (as_file_names w n bytes size v) as (_ & -> & ->). destruct (is_dir_type (vtype w v)) eqn:Ed; [|done]. cbn [andb].
  destruct (negb _) eqn:Ew; [|done]. destruct (find_name w _ x) as [c|] eqn:Ef; [|done]. cbn [mbind option_bind].
  assert (v ≠ n) as Hv by (intros ->; rewrite Hn in Ef; done).
  assert (vtype (as_file w n bytes size) v = vtype w v) as -> by (cbn; by rewrite (proj2 (Z.eqb_neq v n))). rewrite Ed. cbn [andb].
  assert (find_name (as_file w n bytes size) (children (node w v)) x = Some c) as ->; [|by apply IH].
  rewrite <- Ef. apply find_ext. intros y _. by rewrite (proj1 (as_file_names w n bytes size y)).
Qed.

Lemma rel_joined names : Forall plain names → rel_names (joined names) = names.
Proof.
  intros Hp. unfold rel_names. assert (split (joined names) = match names with [] => [[]] | _ => names end) as ->.
  { pose proof (split_render names Hp) as H. rewrite <- render_joined. destruct (render names) as [|c r] eqn:E; [by destruct names|].
    pose proof (render_slash names) as Hs. rewrite E in Hs. change (c = 47) in Hs. subst c. rewrite split_slash in H. by injection H. }
  destruct names as [|n names]; [done|]. induction (n :: names) as [|x l IH]; [done|]. apply Forall_cons in Hp as [Hx Hp].
  rewrite filter_cons_True by apply Hx. by rewrite IH.
Qed.

(** A namespace without mounts follows the tree. *)
Lemma locate_descend w rc vroot seen names v s u : descend w v names = Some u →
  ∃ s', locate (child := ram_child w) (kind := vtype w) (walks := λ v, negb (writable_ops (node w v)))
    (Namespace rc vroot []) seen names [(v, s)] = inr [(u, s')].
Proof.
  revert seen v s. induction names as [|n names IH]; intros seen v s; cbn [descend locate]; [intros [= ->]; by eexists|].
  cbn [find_child]. destruct (_ && _); [|done]. unfold ram_child. destruct (find_name w _ n) as [c|]; [|done]. cbn [mbind option_bind]. apply IH.
Qed.

(** Opening a path to a file, and reading its start. *)
Lemma opened_file w rc vroot names n bytes k :
  clean names → descend w vroot names = Some n → vtype w n = VNODE_FILE → data (node w n) = bytes → vsize w n = len bytes →
  len bytes < 2 ^ 32 → 0 ≤ k →
  ∃ f w2 f', vfs_open ram_fs true (Namespace rc vroot []) (render names) OREAD w = (Good f, w2) ∧
    vfs_read ram_fs f k w2 = (Good (f', take (Z.to_nat k) bytes), w2) ∧ offset f' = Z.min k (len bytes).
Proof.
  intros Hc Hd Ht Hdat Hsz Hb Hk. destruct (locate_descend w rc vroot [] names vroot (set_label [47]) n Hd) as (s & Hl).
  pose proof (gives_resolve ram_fs (Namespace rc vroot []) (render names) w (T := like w) ltac:(by intros x)) as (w2 & E & Hw2).
  assert (resolved (child := ram_child w) (kind := vtype w) (walks := λ v, negb (writable_ops (node w v))) (Namespace rc vroot []) (render names)
    = inr ([(n, s)], names)) as Hres.
  { unfold resolved, path_names. rewrite render_slash, (cleaned_render names Hc). cbn [Z.eqb Pos.eqb]. unfold located.
    change (mounted (Namespace rc vroot []) [] (root (Namespace rc vroot []))) with [(vroot, set_label [47])]. by rewrite Hl. }
  rewrite Hres in E. destruct (Hw2 n) as (Hn & Hty & Hvs).
  assert (ram_file w2 n) as Hf2 by (split; [rewrite Hn, Hvs; by rewrite Hdat, Hsz|by rewrite Hvs, Hsz]).
  pose proof (ram_read_ok n 0 k w2 Hf2 ltac:(lia) Hk) as Hrd. rewrite Hn, Hdat in Hrd. change (drop (Z.to_nat 0) bytes) with bytes in Hrd.
  eexists (File 1 OREAD _ [(n, s)] 0 0 0 0), w2, _. split_and!.
  - unfold vfs_open. change (negb _ || _) with false. cbn [negb]. rewrite (bind_try_good _ _ _ _ _ E). rewrite (bind_good (mret _) w2 w2 _ _ eq_refl).
    rewrite (bind_good get w2 w2 _ w2) by done. cbn [first]. rewrite (bind_try_good (open_checks _ _ _ _ _ _) w2 w2 _ tt); [done|]. done.
  - unfold vfs_read. rewrite (bind_good get w2 w2 _ w2) by done. cbn [first floc]. rewrite Hty, Ht. change (negb (can_read _)) with false. cbn [is_dir_type].
    assert (op_read (ram_fs w2 n) = Some (ram_read n)) as -> by (unfold ram_fs; by destruct (writable_ops _)).
    rewrite (bind_good _ _ _ _ _ Hrd). done.
  - cbn [offset at_offset]. unfold len. rewrite length_take, u32_small; unfold len in *; lia.
Qed.

Lemma add_file_eq vroot p bytes size w : 
  ramfs_add_file vroot p bytes size w =
  match make_path vroot p w with
  | (Good n, w1) => if negb (bool_decide (children (node w1 n) = [])) || (n =? vroot) then (Err (- EEXIST), w1) else (Good tt, as_file w1 n bytes size)
  | (Err e, w1) => (Err e, w1)
  | (Hang, w1) => (Hang, w1)
  end.
Proof.
  unfold ramfs_add_file, mbind, st_bind, get. destruct (make_path vroot p w) as [[n|e|] w1]; [|done|done].
  by destruct (negb _ || _).
Qed.

(** C13: [ramfs_add_file] returns. When it succeeds, opening the path in a
    namespace on that tree succeeds and a read returns the file's bytes. It
    fails only because the path is there already, runs through a file, has a
    name longer than 63 bytes, or there is no memory; and in either case every
    path that led to a node still leads to it. *)
Theorem added_file_readable vroot names bytes w rc k :
  grown w → vroot < next_node (fs w) → clean names → len bytes < 2 ^ 32 → 0 ≤ k →
  match ramfs_add_file vroot (joined names) bytes (len bytes) w with
  | (Good _, w') => 
      (∀ names' u, descend w vroot names' = Some u → descend w' vroot names' = Some u) ∧
      ∃ f w2 f', vfs_open ram_fs true (Namespace rc vroot []) (render names) OREAD w' = (Good f, w2) ∧
        vfs_read ram_fs f k w2 = (Good (f', take (Z.to_nat k) bytes), w2) ∧ offset f' = Z.min k (len bytes)
  | (Err e, w') =>
      (∀ names' u, descend w vroot names' = Some u → descend w' vroot names' = Some u) ∧ e ∈ [- ENAMETOOLONG; - ENOTDIR; - ENOMEM; - EEXIST]
  | (Hang, _) => False
  end.
Proof.
  intros Hg Hr Hc Hb Hk. rewrite add_file_eq. unfold make_path. pose proof (make_loop_ok _ vroot (joined names) w Hg Hr (le_n _)) as H.
  destruct (make_loop _ vroot (joined names) w) as [[n|e|] w1]; [| |done].
  - destruct H as (Hg1 & He1 & Hd1 & Hn1). rewrite rel_joined in Hd1 by apply Hc.
    assert (∀ names' u, descend w vroot names' = Some u → descend w1 vroot names' = Some u) as Hstay.
    { intros names' u Hu. by destruct (descend_extends w w1 vroot names' u). }
    case_bool_decide as Hch; cbn [negb orb]; [|split; [done|set_solver]]. destruct (n =? vroot); [split; [done|set_solver]|].
    split; [intros names' u Hu; by apply descend_as_file, Hstay|]. set (w' := as_file w1 n bytes (len bytes)).
    apply (opened_file _ _ _ _ n); try done; [by apply descend_as_file|..].
    + cbn. by rewrite Z.eqb_refl.
    + unfold node, as_file. cbn. by rewrite Z.eqb_refl.
    + cbn. by rewrite Z.eqb_refl.
  - destruct H as (Hg1 & He1 & Hin). split; [|set_solver]. intros names' u Hu. by destruct (descend_extends w w1 vroot names' u).
Qed.

(** ** An example

    A tree of the root 1 with the directories [a] (2) and [b] (3), a file [f]
    in each (4, 5), and a namespace on it. *)
Definition example_ram : world ram :=
  World (Ram (λ v, if v =? 1 then RamNode [] [] false [2; 3] false else if v =? 2 then RamNode [97] [] false [4] false
                   else if v =? 3 then RamNode [98] [] false [5] false else if v =? 4 then RamNode [102] [10; 11; 12] true [] true
                   else if v =? 5 then RamNode [102] [20] false [] false else RamNode [] [] false [] false) 6 [])
    (λ v, if (v =? 4) || (v =? 5) then VNODE_FILE else VNODE_DIR) (λ v, if v =? 4 then 3 else if v =? 5 then 1 else 0)
    (λ v, 1 + one 1 v).

Definition example_ns : namespace := Namespace 1 1 [].

Lemma example_like : like example_ram example_ram.
Proof. by intros v. Qed.

Lemma example_grown : grown example_ram.
Proof.
  split; intros v; unfold node, example_ram; cbn.
  - intros c. destruct (Z.eqb_spec v 1), (Z.eqb_spec v 2), (Z.eqb_spec v 3), (Z.eqb_spec v 4), (Z.eqb_spec v 5); cbn; set_solver by lia.
  - destruct (Z.eqb_spec v 1), (Z.eqb_spec v 2), (Z.eqb_spec v 3), (Z.eqb_spec v 4), (Z.eqb_spec v 5); subst; done.
Qed.

Lemma ram_write_read_witness :
  match vfs_write ram_fs (File 1 ORDWR [102] [(4, [])] 5 0 0 0) [7; 8] example_ram with
  | (Good (f', n), w') => vfs_pread ram_fs f' 8 0 w' = (Good [10; 11; 12; 0; 0; 7; 8], w')
  | _ => False
  end.
Proof.
  pose proof (ram_write_read (File 1 ORDWR [102] [(4, [])] 5 0 0 0) 4 [7; 8] example_ram) as H.
  destruct (vfs_write _ _ _ _) as [[[f' n]|e|] w'] eqn:E; [|by vm_compute in E|by vm_compute in E].
  destruct H as (_ & _ & _ & Hr & _); [by split; vm_compute|]. by rewrite (Hr 8 0).
Defined.

Lemma added_file_readable_witness :
  ∃ w', ramfs_add_file 1 [97; 47; 110; 47; 103] [1; 2; 3] 3 example_ram = (Good tt, w') ∧
  ∃ f w2 f', vfs_open ram_fs true example_ns [47; 97; 47; 110; 47; 103] OREAD w' = (Good f, w2) ∧
    vfs_read ram_fs f 2 w2 = (Good (f', [1; 2]), w2).
Proof.
  pose proof (added_file_readable 1 [[97]; [110]; [103]] [1; 2; 3] example_ram 1 2 example_grown) as H.
  change (joined [[97]; [110]; [103]]) with [97; 47; 110; 47; 103] in H. change (len [1; 2; 3]) with 3 in H.
  destruct (ramfs_add_file 1 _ _ 3 example_ram) as [[[]|e|] w'] eqn:E; [|by vm_compute in E|by vm_compute in E].
  exists w'. split; [done|]. destruct H as (_ & f & w2 & f' & Ho & Hr & _); [done| |done|done|by exists f, w2, f'].
  split; [|by vm_compute]. repeat (apply Forall_cons; split; [split; try done; set_solver|]). done.
Defined.

Lemma resolve_correct_witness : ∃ w', like example_ram w' ∧
  ns_resolve ram_fs example_ns [47; 97; 47; 46; 46; 47; 98; 47; 102] example_ram = (Good ([(5, [47; 98; 47; 102])], [47; 98; 47; 102]), w').
Proof. destruct (resolve_correct ram_fs example_ns [47; 97; 47; 46; 46; 47; 98; 47; 102] example_ram example_like) as (w' & Hl & E). by exists w'. Defined.

(** [bind -b /b /a]: both files [f] are then listed under [/a], and the one of
    [b] is found. *)
Lemma bind_correct_witness : ∃ ns' w', vfs_bind ram_fs true example_ns [47; 98] [47; 97] BIND_BEFORE example_ram = (Good ns', w') ∧
  resolved (child := ram_child example_ram) (kind := vtype example_ram) (walks := λ v, negb (writable_ops (node example_ram v))) ns' [47; 97]
    = inr ([(3, [47; 98]); (2, [47; 97])], [[97]]).
Proof.
  destruct (bind_correct ram_fs true example_ns [47; 98] [47; 97] BIND_BEFORE example_ram example_like) as (r & w' & E & _ & H).
  destruct H as (ns' & -> & H & _). by exists ns', w'.
Defined.

Lemma unbind_undoes_bind_witness : ∃ ns' w' w'', vfs_bind ram_fs true example_ns [47; 98] [47; 97] BIND_AFTER example_ram = (Good ns', w') ∧
  vfs_unbind ram_fs ns' [47; 97] w' = (Good example_ns, w'').
Proof.
  assert ((vfs_bind ram_fs true example_ns [47; 98] [47; 97] BIND_AFTER example_ram).1
    = Good (Namespace 1 1 [Mount [47; 97] [(2, [47; 97]); (3, [47; 98])]])) as Hg by (vm_compute; reflexivity).
  destruct (vfs_bind ram_fs true example_ns [47; 98] [47; 97] BIND_AFTER example_ram) as [r w'] eqn:E. cbn [fst] in Hg. subst r.
  set (ns' := Namespace 1 1 _) in *.
  destruct (unbind_undoes_bind ram_fs true example_ns [47; 98] [47; 97] BIND_AFTER example_ram ns' w' example_like E) as (w'' & _ & H); [|by exists ns', w', w''].
  intros l names Hr. vm_compute in Hr. by injection Hr as <- <-.
Defined.

Lemma union_listing_witness : ∃ f' w', vfs_readdir_at ram_fs (File 1 OREAD [97] [(3, []); (2, [])] 0 0 0 0) 1 example_ram =
  (Good (f', inr (Some (Dirent [102] VNODE_FILE 3))), w').
Proof.
  destruct (union_listing ram_fs (File 1 OREAD [97] [(3, []); (2, [])] 0 0 0 0) 1 example_ram example_like) as (f' & w' & E & _); [done| |done|by exists f', w'].
  exists [], [(3, []); (2, [])]. by split; vm_compute.
Defined.

Definition example_system : system := System example_ram [Some example_ns] [].

Lemma references_balanced_witness : ∃ sys',
  run_calls ram_fs example_system
    [COpen 0 true [47; 97; 47; 102] ORDWR; CBind 0 true [47; 98] [47; 97] BIND_BEFORE; CDup 0; CWrite 0 [1]; CMkdir 0 [47; 120]; CFork 0 [true; false];
     CClose 0; CClose 0; CLeave 0] = Some sys' ∧
  balanced (tables (λ v, v =? 4)) (writable := λ v, v =? 4) (λ _, 1) sys'.
Proof.
  apply (references_balanced ram_fs (tables (λ v, v =? 4))). split; [|intros v|done].
  - intros v. unfold node, example_ram. cbn.
    destruct (Z.eqb_spec v 1), (Z.eqb_spec v 2), (Z.eqb_spec v 3), (Z.eqb_spec v 4), (Z.eqb_spec v 5); subst; done.
  - cbn. f_equal. unfold held, ns_uses. cbn. lia.
Defined.
