(* ===== verification/Elf.v ===== *)
(** * Loading programs ([zkt/kernel/elf.c])

    [elf_load] over the pages of the active address space, reached through the
    calls that user memory is changed with ([UserPages]) and what they promise
    ([UserPagesLaws]; the model of [paging.c] over [pmm.c] keeps them,
    [ElfOnPaging.v]). A read
    outside the image, and an access to a page that is not mapped, are a
    [Panic]. *)
From S2P Require Import Prelude Pmm FrameMapper Paging Abi.
Local Open Scope Z_scope.

Abbreviation USER_IMAGE_MIN := 0x1000%Z (only parsing).
Abbreviation USER_IMAGE_TOP := 0xBFFEE000%Z (only parsing).
Abbreviation PT_LOAD := 1%Z (only parsing).
Abbreviation PT_NOTE := 4%Z (only parsing).
Abbreviation PF_W := 2%Z (only parsing).
Abbreviation ZKT_NOTE_ABI := 1%Z (only parsing).
Abbreviation ZKT_ABI_VERSION := 2%Z (only parsing).
Abbreviation ZKT_ABI_VERSION_MIN := 1%Z (only parsing).

(** ** The calls *)

Class UserPages (E : Type) := {
  up_translate : E → Z → outcome (option Z);
  up_alloc_frame : E → Z * E;
  up_map_page : E → Z → Z → Z → outcome (Z * E);
  up_unmap_page : E → Z → outcome (option Z * E);
  up_free_frame : E → Z → outcome E;
  up_set_writable : E → Z → bool → outcome (Z * E)
}.

Definition user_page (va : Z) : Prop := va mod PAGE_SIZE = 0 ∧ 0 ≤ va < USER_SPACE_TOP.

(** [uowns e F M]: the caller holds the frames [F], and the user pages of the
    active space are those of [M], each with its frame and whether it can be
    written. *)
Class UserPagesLaws (E : Type) `{UserPages E} := {
  uowns : E → gset Z → gmap Z (Z * bool) → Prop;
  u_apart e F M va va' f b b' : uowns e F M → M !! va = Some (f, b) → M !! va' = Some (f, b') → va = va';
  u_translate e F M va : uowns e F M → user_page va → up_translate e va = Ok (fst <$> M !! va);
  u_alloc e F M : uowns e F M → ∃ f e', up_alloc_frame e = (f, e') ∧
    (f = 0 ∧ uowns e' F M ∨ f ≠ 0 ∧ (f ∉ F) ∧ uowns e' ({[f]} ∪ F) M);
  u_map e F M va f : uowns e F M → f ∈ F → user_page va → M !! va = None →
    ∃ rc e', up_map_page e va f (Z.lor VMM_WRITABLE VMM_USER) = Ok (rc, e') ∧
      (rc = 0 ∧ uowns e' (F ∖ {[f]}) (<[va := (f, true)]> M) ∨ rc ≠ 0 ∧ uowns e' F M);
  u_unmap e F M va f b : uowns e F M → M !! va = Some (f, b) →
    ∃ e', up_unmap_page e va = Ok (Some f, e') ∧ (f ∉ F) ∧ uowns e' ({[f]} ∪ F) (delete va M);
  u_free e F M f : uowns e F M → f ∈ F → ∃ e', up_free_frame e f = Ok e' ∧ uowns e' (F ∖ {[f]}) M;
  u_set e F M va f b b' : uowns e F M → M !! va = Some (f, b) →
    ∃ e', up_set_writable e va b' = Ok (0, e') ∧ uowns e' F (<[va := (f, b')]> M)
}.

(** ** The image *)

Definition fetch (image : list Z) (off n : Z) : outcome (list Z) :=
  if (0 <=? off) && (0 <=? n) && (off + n <=? Z.of_nat (length image)) then Ok (take (Z.to_nat n) (drop (Z.to_nat off) image))
  else Panic "read outside the image".

Definition le16 (b : list Z) (i : Z) : Z := aget 0 b i + 256 * aget 0 b (i + 1).
Definition le32 (b : list Z) (i : Z) : Z := le16 b i + 65536 * le16 b (i + 2).

(** [struct elf_header], the fields the loader looks at. *)
Record elf_header := ElfHeader { ident : list Z; etype : Z; emachine : Z; eentry : Z; phoff : Z; phentsize : Z; phnum : Z }.

Definition read_header (image : list Z) : outcome elf_header :=
  b ← fetch image 0 52;
  Ok (ElfHeader (take 16 b) (le16 b 16) (le16 b 18) (le32 b 24) (le32 b 28) (le16 b 42) (le16 b 44)).

(** [struct elf_phdr] *)
Record elf_phdr := ElfPhdr { ptype : Z; poffset : Z; vaddr : Z; filesz : Z; memsz : Z; pflags : Z }.

(** [ph[i]] *)
Definition phdr (image : list Z) (h : elf_header) (i : Z) : outcome elf_phdr :=
  b ← fetch image (phoff h + 32 * i) 32;
  Ok (ElfPhdr (le32 b 0) (le32 b 4) (le32 b 8) (le32 b 16) (le32 b 20) (le32 b 24)).

Definition valid_header (image : list Z) (size : Z) : outcome bool :=
  if size <? 52 then Ok false
  else
    h ← read_header image;
    Ok (bool_decide (take 4 (ident h) = [0x7f; 69; 76; 70])
        && (aget 0 (ident h) 4 =? 1) && (aget 0 (ident h) 5 =? 1) && (aget 0 (ident h) 6 =? 1)
        && (etype h =? 2) && (emachine h =? 3) && (phentsize h =? 32) && (phnum h >? 0)
        && (phoff h <? size) && (phnum h <=? (size - phoff h) / 32)).

Definition valid_segment (p : elf_phdr) (size : Z) : bool :=
  (memsz p >=? filesz p) && (poffset p <=? size) && (filesz p <=? size - poffset p)
  && (vaddr p >=? USER_IMAGE_MIN) && (vaddr p <? USER_IMAGE_TOP) && (memsz p <=? USER_IMAGE_TOP - vaddr p).

(** The notes of one segment from [note] on; [None] when none is the note
    looked for. *)
Fixpoint scan_notes (fuel : nat) (image : list Z) (note left : Z) : outcome (option Z) :=
  if left >=? 12 then
    match fuel with
    | O => NoFuel
    | S fuel =>
        nb ← fetch image note 4;
        db ← fetch image (note + 4) 4;
        tb ← fetch image (note + 8) 4;
        let namesz := le32 nb 0 in
        let descsz := le32 db 0 in
        let left := left - 12 in
        if (namesz >? left) || (descsz >? left) then Ok None
        else
          let name_len := Z.land (u32 (namesz + 3)) (not32 3) in
          let desc_len := Z.land (u32 (descsz + 3)) (not32 3) in
          if (name_len >? left) || (desc_len >? left - name_len) then Ok None
          else
            is_abi ← (if (le32 tb 0 =? ZKT_NOTE_ABI) && (namesz =? 4) then
                        name ← fetch image (note + 12) namesz;
                        Ok (bool_decide (name = [90; 75; 84; 0]) && (descsz =? 4))
                      else Ok false);
            if is_abi : bool then
              v ← fetch image (note + 12 + name_len) 4; Ok (Some (le32 v 0))
            else scan_notes fuel image (note + 12 + name_len + desc_len) (left - (name_len + desc_len))
    end
  else Ok None.

(** The loop of [abi_version] from the program header [i] on; [n] are left. *)
Fixpoint abi_from (n : nat) (image : list Z) (size : Z) (h : elf_header) (i : Z) : outcome Z :=
  match n with
  | O => Ok 0
  | S n =>
      p ← phdr image h i;
      if negb (ptype p =? PT_NOTE) || (poffset p >? size) || (filesz p >? size - poffset p) then abi_from n image size h (i + 1)
      else
        v ← scan_notes (Z.to_nat (filesz p)) image (poffset p) (filesz p);
        match v with Some v => Ok v | None => abi_from n image size h (i + 1) end
  end.

Definition abi_version (image : list Z) (size : Z) (h : elf_header) : outcome Z := abi_from (Z.to_nat (phnum h)) image size h 0.

(** Whether a writable segment from [i] on has a byte in the page. *)
Fixpoint covers_from (n : nat) (image : list Z) (h : elf_header) (page i : Z) : outcome bool :=
  match n with
  | O => Ok false
  | S n =>
      p ← phdr image h i;
      if (ptype p =? PT_LOAD) && truth (memsz p) && truth (Z.land (pflags p) PF_W)
         && (page <? u32 (vaddr p + memsz p)) && (vaddr p <? u32 (page + PAGE_SIZE)) then Ok true
      else covers_from n image h page (i + 1)
  end.

Definition writable_segment_covers (image : list Z) (h : elf_header) (page : Z) : outcome bool :=
  covers_from (Z.to_nat (phnum h)) image h page 0.

(** ** Loading *)

Definition page_down (a : Z) : Z := Z.land a (not32 (PAGE_SIZE - 1)).

Section load.
Context {E : Type} `{UserPages E}.

(** The pages of the active space, and the bytes in them by virtual address. *)
Record umem := Umem { env : E; bytes : Z → Z }.

(** [memcpy] and [memset] to user addresses. The kernel runs with CR0.WP clear
    ([boot.S] sets PG only), so its writes fault on a missing page and not on a
    read-only one. *)
Fixpoint put_bytes (st : umem) (a : Z) (l : list Z) : outcome umem :=
  match l with
  | [] => Ok st
  | b :: l =>
      t ← up_translate (env st) (page_down a);
      match t with
      | None => Panic "page fault"
      | Some _ => put_bytes (Umem (env st) (λ x, if x =? a then b else bytes st x)) (a + 1) l
      end
  end.

(** The loop of [map_range] from [page] on. *)
Fixpoint map_range_from (fuel : nat) (st : umem) (page end_ : Z) : outcome (umem * Z) :=
  if page <? end_ then
    match fuel with
    | O => NoFuel
    | S fuel =>
        t ← up_translate (env st) page;
        match t with
        | Some _ => map_range_from fuel st (u32 (page + PAGE_SIZE)) end_
        | None =>
            let '(frame, e) := up_alloc_frame (env st) in
            let st := Umem e (bytes st) in
            if frame =? 0 then Ok (st, - ENOMEM)
            else
              '(rc, e) ← up_map_page (env st) page frame (Z.lor VMM_WRITABLE VMM_USER);
              let st := Umem e (bytes st) in
              if negb (rc =? 0) then e ← up_free_frame (env st) frame; Ok (Umem e (bytes st), - ENOMEM)
              else st ← put_bytes st page (replicate (Z.to_nat PAGE_SIZE) 0); map_range_from fuel st (u32 (page + PAGE_SIZE)) end_
        end
    end
  else Ok (st, 0).

Definition map_range (st : umem) (start end_ : Z) : outcome (umem * Z) :=
  map_range_from (Z.to_nat ((end_ - page_down start) / PAGE_SIZE + 1)) st (page_down start) end_.

(** What the first loop of [elf_load] keeps. *)
Record progress := Progress { entry_loaded : bool; pstart : Z; pend : Z }.

(** The first loop, from the program header [i] on. *)
Fixpoint load_from (n : nat) (image : list Z) (size : Z) (h : elf_header) (i : Z) (st : umem) (g : progress) : outcome (umem * (Z + progress)) :=
  match n with
  | O => Ok (st, inr g)
  | S n =>
      p ← phdr image h i;
      if negb (ptype p =? PT_LOAD) || (memsz p =? 0) then load_from n image size h (i + 1) st g
      else if negb (valid_segment p size) then Ok (st, inl (- ENOEXEC))
      else
        '(st, rc) ← map_range st (vaddr p) (u32 (vaddr p + memsz p));
        if negb (rc =? 0) then Ok (st, inl rc)
        else
          b ← fetch image (poffset p) (filesz p);
          st ← put_bytes st (vaddr p) b;
          let page := page_down (vaddr p) in
          load_from n image size h (i + 1) st
            (Progress (if (eentry h >=? vaddr p) && (eentry h - vaddr p <? memsz p) then true else entry_loaded g)
               (if page <? pstart g then page else pstart g)
               (if u32 (vaddr p + memsz p) >? pend g then u32 (vaddr p + memsz p) else pend g))
  end.

(** The pages of one segment that is not writable. *)
Fixpoint protect_pages (fuel : nat) (image : list Z) (h : elf_header) (st : umem) (page end_ : Z) : outcome umem :=
  if page <? end_ then
    match fuel with
    | O => NoFuel
    | S fuel =>
        c ← writable_segment_covers image h page;
        st ← (if c : bool then Ok st else '(_, e) ← up_set_writable (env st) page false; Ok (Umem e (bytes st)));
        protect_pages fuel image h st (u32 (page + PAGE_SIZE)) end_
    end
  else Ok st.

(** The second loop. *)
Fixpoint protect_from (n : nat) (image : list Z) (h : elf_header) (i : Z) (st : umem) : outcome umem :=
  match n with
  | O => Ok st
  | S n =>
      p ← phdr image h i;
      if negb (ptype p =? PT_LOAD) || (memsz p =? 0) || truth (Z.land (pflags p) PF_W) then protect_from n image h (i + 1) st
      else
        let end_ := u32 (vaddr p + memsz p) in
        st ← protect_pages (Z.to_nat ((end_ - page_down (vaddr p)) / PAGE_SIZE + 1)) image h st (page_down (vaddr p)) end_;
        protect_from n image h (i + 1) st
  end.

(** What [elf_load] stores for its caller. *)
Record loaded := Loaded { l_entry : Z; l_start : Z; l_end : Z; l_abi : Z }.

Definition elf_load (image : list Z) (st : umem) : outcome (umem * (Z + loaded)) :=
  let size := Z.of_nat (length image) in
  ok ← valid_header image size;
  if negb ok then Ok (st, inl (- ENOEXEC))
  else
    h ← read_header image;
    version ← abi_version image size h;
    if (version <? ZKT_ABI_VERSION_MIN) || (version >? ZKT_ABI_VERSION) then Ok (st, inl (- ENOEXEC))
    else
      '(st, r) ← load_from (Z.to_nat (phnum h)) image size h 0 st (Progress false USER_IMAGE_TOP USER_IMAGE_MIN);
      match r with
      | inl rc => Ok (st, inl rc)
      | inr g =>
          if negb (entry_loaded g) then Ok (st, inl (- ENOEXEC))
          else
            st ← protect_from (Z.to_nat (phnum h)) image h 0 st;
            Ok (st, inr (Loaded (eentry h) (pstart g) (pend g) version))
      end.
End load.
Arguments umem : clear implicits.
