(* ===== verification/ElfLoad.v ===== *)
(** * What loading a program does

    [elf_load] on any image: it reads only the image, touches only user pages
    below the stack, and gives back what it does not map; and the memory of a
    program it loads. *)
From S2P Require Import Prelude Pmm FrameMapper Paging Abi Elf.
Local Open Scope Z_scope.

(** ** Reading the image *)

Definition is_byte (b : Z) : Prop := 0 ≤ b < 256.

Lemma fetch_ok image off n : 0 ≤ off → 0 ≤ n → off + n ≤ Z.of_nat (length image) →
  fetch image off n = Ok (take (Z.to_nat n) (drop (Z.to_nat off) image)).
Proof. intros. unfold fetch. rewrite !(proj2 (Z.leb_le _ _)) by lia. done. Qed.

Lemma fetch_bytes image off n b : Forall is_byte image → fetch image off n = Ok b → Forall is_byte b.
Proof. intros Hi. unfold fetch. destruct (_ && _); [|done]. intros [= <-]. by apply Forall_take, Forall_drop. Qed.

Lemma image_byte b i : Forall is_byte b → is_byte (aget 0 b i).
Proof.
  intros Hb. unfold aget. destruct (i <? 0); [done|]. destruct (b !! Z.to_nat i) eqn:E; [|done]. by apply (Forall_lookup_1 _ _ _ _ Hb E).
Qed.

Lemma image_le16 b i : Forall is_byte b → 0 ≤ le16 b i < 2 ^ 16.
Proof. intros Hb. unfold le16. pose proof (image_byte b i Hb). pose proof (image_byte b (i + 1) Hb). unfold is_byte in *. lia. Qed.
Lemma image_le32 b i : Forall is_byte b → 0 ≤ le32 b i < 2 ^ 32.
Proof. intros Hb. unfold le32. pose proof (image_le16 b i Hb). pose proof (image_le16 b (i + 2) Hb). lia. Qed.

Record phdr_ok (p : elf_phdr) : Prop := {
  po_type : 0 ≤ ptype p < 2 ^ 32;
  po_offset : 0 ≤ poffset p < 2 ^ 32;
  po_vaddr : 0 ≤ vaddr p < 2 ^ 32;
  po_filesz : 0 ≤ filesz p < 2 ^ 32;
  po_memsz : 0 ≤ memsz p < 2 ^ 32;
  po_flags : 0 ≤ pflags p < 2 ^ 32
}.

(** The program headers of an image whose header is valid. *)
Record headers (image : list Z) (h : elf_header) (ps : list elf_phdr) : Prop := {
  hd_read : read_header image = Ok h;
  hd_length : Z.of_nat (length ps) = phnum h;
  hd_phdr i p : ps !! i = Some p → phdr image h (Z.of_nat i) = Ok p;
  hd_ok : Forall phdr_ok ps;
  hd_entry : 0 ≤ eentry h < 2 ^ 32
}.

Lemma valid_header_ok image : Forall is_byte image →
  valid_header image (Z.of_nat (length image)) = Ok false ∨
  valid_header image (Z.of_nat (length image)) = Ok true ∧ ∃ h ps, headers image h ps.
Proof.
  intros Hb. unfold valid_header. destruct (Z.ltb_spec (Z.of_nat (length image)) 52) as [|Hs]; [by left|].
  unfold read_header. rewrite fetch_ok by lia. cbn [mbind outcome_bind].
  set (b := take (Z.to_nat 52) _). assert (Forall is_byte b) as Hbb by by apply Forall_take, Forall_drop.
  set (h := ElfHeader _ _ _ _ _ _ _). destruct (_ && _) eqn:E; [right|by left]. split; [done|].
  rewrite !andb_true_iff in E. destruct E as [[_ Hpo] Hpn]. apply Z.ltb_lt in Hpo. apply Z.leb_le in Hpn.
  assert (0 ≤ phoff h < 2 ^ 32) as Hp by by apply image_le32. assert (0 ≤ phnum h) as Hn by (cbn; pose proof (image_le16 b 44 Hbb); lia).
  assert (phoff h + 32 * phnum h ≤ Z.of_nat (length image)) as Hend.
  { pose proof (Z.mul_div_le (Z.of_nat (length image) - phoff h) 32). lia. }
  assert (∀ i, 0 ≤ i < phnum h → ∃ p, phdr image h i = Ok p ∧ phdr_ok p) as Hph.
  { intros i Hi. unfold phdr. rewrite fetch_ok by lia. cbn [mbind outcome_bind]. eexists. split; [done|].
    split; apply image_le32; by apply Forall_take, Forall_drop. }
  assert (∃ ps, Z.of_nat (length ps) = phnum h ∧ (∀ i p, ps !! i = Some p → phdr image h (Z.of_nat i) = Ok p ∧ phdr_ok p)) as (ps & Hl & Hps).
  { clear -Hph Hn. clearbody h. revert Hph. generalize (phnum h) Hn. apply (natlike_ind (λ n, (∀ i, 0 ≤ i < n → ∃ p, phdr image h i = Ok p ∧ phdr_ok p) →
      ∃ ps, Z.of_nat (length ps) = n ∧ (∀ i p, ps !! i = Some p → phdr image h (Z.of_nat i) = Ok p ∧ phdr_ok p))); [by intros _; exists []|].
    intros n Hn0 IH Hph. destruct IH as (ps & Hl & Hps); [intros i Hi; apply Hph; lia|]. destruct (Hph n ltac:(lia)) as (p & Hp & Hok).
    exists (ps ++ [p]). split; [rewrite length_app; cbn; lia|]. intros i q Hq. apply lookup_app_Some in Hq as [Hq|[Hge Hq]]; [by apply Hps|].
    apply list_lookup_singleton_Some in Hq as [Hi <-]. replace (Z.of_nat i) with n by lia. done. }
  exists h, ps. split; [|done|by intros i p Hp'; apply Hps| |by apply image_le32].
  - unfold read_header. rewrite fetch_ok by lia. done.
  - apply Forall_lookup. intros i p Hi. by apply (Hps i).
Qed.

(** Rounding up to a multiple of four does not lose. *)
Lemma pad4 n : 0 ≤ n < 2 ^ 32 - 3 → Z.land (u32 (n + 3)) (not32 3) = (n + 3) / 4 * 4.
Proof. intros Hn. rewrite u32_small by lia. apply (land_not32_mask 2); lia. Qed.

Lemma pad4_range n : 0 ≤ Z.land (u32 (n + 3)) (not32 3).
Proof. apply Z.land_nonneg. left. apply u32_range. Qed.

Lemma scan_notes_ok fuel image note left :
  Forall is_byte image → 0 ≤ note → 0 ≤ left → note + left ≤ Z.of_nat (length image) → left ≤ Z.of_nat fuel →
  ∃ o, scan_notes fuel image note left = Ok o.
Proof.
  intros Hb. revert note left. induction fuel as [|fuel IH]; intros note left Hn Hl He Hf; cbn [scan_notes]; rewrite Z.geb_leb.
  { rewrite (proj2 (Z.leb_gt _ _)) by lia. by eexists. }
  destruct (Z.leb_spec 12 left) as [H12|]; [|by eexists].
  destruct (fetch image note 4) as [nb| |] eqn:E1; [|by rewrite fetch_ok in E1 by lia..].
  destruct (fetch image (note + 4) 4) as [db| |] eqn:E2; [|by rewrite fetch_ok in E2 by lia..].
  destruct (fetch image (note + 8) 4) as [tb| |] eqn:E3; [|by rewrite fetch_ok in E3 by lia..]. cbn [mbind outcome_bind]. cbv zeta.
  pose proof (image_le32 nb 0 (fetch_bytes _ _ _ _ Hb E1)). pose proof (image_le32 db 0 (fetch_bytes _ _ _ _ Hb E2)).
  destruct (_ || _) eqn:Eo; [by eexists|]. apply orb_false_iff in Eo as [Eo1 Eo2]. rewrite Z.gtb_ltb, Z.ltb_ge in Eo1, Eo2.
  pose proof (pad4_range (le32 nb 0)) as Hp1. pose proof (pad4_range (le32 db 0)) as Hp2. set (nl := Z.land (u32 (le32 nb 0 + 3)) _) in *. set (dl := Z.land (u32 (le32 db 0 + 3)) _) in *.
  destruct (_ || _) eqn:Eq; [by eexists|]. apply orb_false_iff in Eq as [Eq1 Eq2]. rewrite Z.gtb_ltb, Z.ltb_ge in Eq1, Eq2.
  assert (∀ b : bool, ∃ o, (if b then v ← fetch image (note + 12 + nl) 4; Ok (Some (le32 v 0))
    else scan_notes fuel image (note + 12 + nl + dl) (left - 12 - (nl + dl))) = Ok o ∨ (b = true ∧ le32 db 0 ≠ 4)) as Hrest.
  { intros []; [|destruct (IH (note + 12 + nl + dl) (left - 12 - (nl + dl))) as (o & Ho); [lia..|]; exists o; by left].
    destruct (decide (le32 db 0 = 4)) as [E4|]; [|exists None; by right]. assert (dl = 4) as Hd by (unfold dl; by rewrite E4).
    rewrite fetch_ok by lia. eexists. by left. }
  destruct (_ && _) eqn:Ea.
  - apply andb_true_iff in Ea as [_ Ea]. apply Z.eqb_eq in Ea. rewrite Ea, (fetch_ok image (note + 12) 4) by lia. cbn [mbind outcome_bind].
    destruct (Hrest (bool_decide (take (Z.to_nat 4) (drop (Z.to_nat (note + 12)) image) = [90; 75; 84; 0]) && (le32 db 0 =? 4))) as (o & [Ho|[Ho1 Ho2]]); [by exists o|].
    apply andb_true_iff in Ho1 as [_ Ho1]. by apply Z.eqb_eq in Ho1.
  - cbn [mbind outcome_bind]. destruct (Hrest false) as (o & [Ho|[? _]]); [by exists o|done].
Qed.

Section headers.
Context (image : list Z) (h : elf_header) (ps : list elf_phdr).
Context (Hb : Forall is_byte image) (Hh : headers image h ps).

(** The header a loop has come to. *)
Lemma phdr_at i p rest : drop i ps = p :: rest → phdr image h (Z.of_nat i) = Ok p ∧ phdr_ok p ∧ drop (S i) ps = rest.
Proof.
  intros E. assert (ps !! i = Some p) as Hi.
  { rewrite <- (Nat.add_0_r i), <- lookup_drop. by rewrite E. }
  split; [by apply (hd_phdr _ _ _ Hh)|]. split; [by apply (Forall_lookup_1 _ _ _ _ (hd_ok _ _ _ Hh) Hi)|].
  replace (S i) with (i + 1)%nat by lia. rewrite <- drop_drop, E. done.
Qed.

Lemma abi_from_ok i : ∃ v, abi_from (length (drop i ps)) image (Z.of_nat (length image)) h (Z.of_nat i) = Ok v.
Proof.
  remember (drop i ps) as rest eqn:E. symmetry in E. revert i E. induction rest as [|p rest IH]; intros i E; cbn [length abi_from]; [by eexists|].
  destruct (phdr_at i p rest E) as (-> & Hok & E'). cbn [mbind outcome_bind]. replace (Z.of_nat i + 1) with (Z.of_nat (S i)) by lia.
  destruct (_ || _) eqn:Ec; [by apply IH|]. rewrite !orb_false_iff, !Z.gtb_ltb, !Z.ltb_ge in Ec. destruct Ec as [[_ H1] H2].
  destruct (scan_notes_ok (Z.to_nat (filesz p)) image (poffset p) (filesz p) Hb) as (o & ->);
    [apply Hok|apply Hok|lia|destruct Hok; lia|]. cbn [mbind outcome_bind]. destruct o; [by eexists|by apply IH].
Qed.

Lemma abi_version_ok : ∃ v, abi_version image (Z.of_nat (length image)) h = Ok v.
Proof. unfold abi_version. rewrite <- (hd_length _ _ _ Hh), Nat2Z.id. apply (abi_from_ok 0). Qed.

(** A page a segment has a byte in. *)
Definition touches (p : elf_phdr) (page : Z) : bool := (page <? vaddr p + memsz p) && (vaddr p <? page + PAGE_SIZE).
Definition is_load (p : elf_phdr) : bool := (ptype p =? PT_LOAD) && negb (memsz p =? 0).
Definition is_writable (p : elf_phdr) : bool := truth (Z.land (pflags p) PF_W).

(** The segments to load. *)
Definition loads : list elf_phdr := List.filter is_load ps.

Definition write_covers (page : Z) : bool := existsb (λ p, is_writable p && touches p page) loads.

Lemma covers_from_ok page i : Forall (λ p, is_load p = true → vaddr p + memsz p < 2 ^ 32) ps → 0 ≤ page < 2 ^ 32 - PAGE_SIZE →
  covers_from (length (drop i ps)) image h page (Z.of_nat i) = Ok (existsb (λ p, is_writable p && touches p page) (List.filter is_load (drop i ps))).
Proof.
  intros Hv Hp. assert (Forall (λ p, is_load p = true → vaddr p + memsz p < 2 ^ 32) (drop i ps)) as Hv' by by apply Forall_drop. revert Hv'.
  remember (drop i ps) as rest eqn:E. symmetry in E. revert i E. induction rest as [|p rest IH]; intros i E Hv'; cbn [length covers_from]; [done|].
  destruct (phdr_at i p rest E) as (-> & Hok & E'). cbn [mbind outcome_bind]. replace (Z.of_nat i + 1) with (Z.of_nat (S i)) by lia.
  apply Forall_cons in Hv' as [Hpv Hv']. cbn [List.filter]. assert (negb (memsz p =? 0) = truth (memsz p)) as Hm by done.
  fold (is_writable p). unfold is_load in *. rewrite Hm in *. destruct ((ptype p =? PT_LOAD) && truth (memsz p)) eqn:El; cbn [andb].
  - specialize (Hpv eq_refl). destruct Hok. rewrite !u32_small by (unfold PAGE_SIZE in *; lia). cbn [existsb]. unfold touches. rewrite <- andb_assoc.
    destruct (is_writable p && _); [done|]. by apply IH.
  - by apply IH.
Qed.
End headers.

(** ** Pages *)

Definition page_of (a : Z) : Z := a / PAGE_SIZE * PAGE_SIZE.

Lemma page_down_of a : 0 ≤ a < 2 ^ 32 → page_down a = page_of a.
Proof. intros Ha. apply (land_not32_mask 12); lia. Qed.

Lemma page_of_range a : page_of a ≤ a < page_of a + PAGE_SIZE ∧ page_of a mod PAGE_SIZE = 0.
Proof. unfold page_of, PAGE_SIZE. split; [dlia|]. apply Z.mod_mul. lia. Qed.

Lemma page_of_unique page a : page mod PAGE_SIZE = 0 → page ≤ a < page + PAGE_SIZE → page_of a = page.
Proof. unfold page_of, PAGE_SIZE. intros. dlia. Qed.

Lemma user_page_of a : 0 ≤ a < USER_SPACE_TOP → user_page (page_of a).
Proof. intros Ha. destruct (page_of_range a) as [? ?]. split; [done|]. unfold page_of, PAGE_SIZE, KERNEL_VIRT_BASE in *. dlia. Qed.

Definition mapped (M : gmap Z (Z * bool)) (a : Z) : Prop := is_Some (M !! page_of a).
#[export] Instance mapped_dec M a : Decision (mapped M a).
Proof. unfold mapped. apply _. Defined.

(** [M'] has the pages of [M] and writable ones between [lo] and [hi]. *)
Record more_pages (M M' : gmap Z (Z * bool)) (lo hi : Z) : Prop := {
  mp_old va y : M !! va = Some y → M' !! va = Some y;
  mp_new va y : M' !! va = Some y → M !! va = None → user_page va ∧ lo ≤ va < hi ∧ y.2 = true
}.

(** New pages are zero, the other bytes as they were. *)
Definition zeroed (M M' : gmap Z (Z * bool)) (b b' : Z → Z) : Prop :=
  ∀ x, b' x = if bool_decide (mapped M' x ∧ ¬ mapped M x) then 0 else b x.

Lemma more_refl M lo hi : more_pages M M lo hi.
Proof. split; [done|]. intros va y H1 H2. congruence. Qed.

Lemma more_trans M M1 M2 lo hi : more_pages M M1 lo hi → more_pages M1 M2 lo hi → more_pages M M2 lo hi.
Proof.
  intros [O1 N1] [O2 N2]. split; [by auto|]. intros va y H2 H0. destruct (M1 !! va) as [y1|] eqn:E; [|by eauto].
  pose proof (O2 _ _ E). assert (y1 = y) as -> by congruence. eauto.
Qed.

Lemma more_weaken M M' lo hi lo' hi' : more_pages M M' lo hi → lo' ≤ lo → hi ≤ hi' → more_pages M M' lo' hi'.
Proof. intros [O N] ? ?. split; [done|]. intros va y H1 H2. destruct (N va y H1 H2) as (? & ? & ?). split_and!; [done|lia|lia|done]. Qed.

Lemma more_mapped M M' lo hi x : more_pages M M' lo hi → mapped M x → mapped M' x.
Proof. intros [O _] [y Hy]. exists y. by apply O. Qed.

Lemma zeroed_refl M b : zeroed M M b b.
Proof. intros x. by rewrite bool_decide_false by tauto. Qed.

Lemma zeroed_trans M M1 M2 lo hi b b1 b2 : more_pages M M1 lo hi → more_pages M1 M2 lo hi →
  zeroed M M1 b b1 → zeroed M1 M2 b1 b2 → zeroed M M2 b b2.
Proof.
  intros H1 H2 Z1 Z2 x. rewrite Z2, Z1. pose proof (more_mapped _ _ _ _ x H1). pose proof (more_mapped _ _ _ _ x H2).
  repeat case_bool_decide; try done; exfalso; tauto.
Qed.

(** One new page, zeroed. *)
Lemma one_more (M : gmap Z (Z * bool)) page frame lo hi : user_page page → lo ≤ page < hi → M !! page = None →
  more_pages M (<[page := (frame, true)]> M) lo hi.
Proof.
  intros Hup Hr Ey. split.
  - intros va y Hva. rewrite lookup_insert_ne; [done|]. intros ->. congruence.
  - intros va y Hva Hn. apply lookup_insert_Some in Hva as [[<- <-]|[_ Hva]]; [|congruence]. split_and!; [done|lia|lia|done].
Qed.

Lemma one_zeroed (M : gmap Z (Z * bool)) page y b b' : page mod PAGE_SIZE = 0 → M !! page = None →
  (∀ x, b' x = if (page <=? x) && (x <? page + PAGE_SIZE) then 0 else b x) → zeroed M (<[page := y]> M) b b'.
Proof.
  intros Hal Ey Hb x. rewrite Hb. assert (mapped (<[page := y]> M) x ∧ ¬ mapped M x ↔ page ≤ x < page + PAGE_SIZE) as Hiff.
  { unfold mapped. split.
    - intros [H1 H2]. destruct (decide (page_of x = page)) as [<-|Hne]; [destruct (page_of_range x); lia|]. by rewrite lookup_insert_ne in H1 by done.
    - intros Hx. rewrite (page_of_unique page x) by done. rewrite lookup_insert_eq, Ey. split; [by eexists|by intros [? ?]]. }
  rewrite (bool_decide_ext _ _ Hiff). destruct (Z.leb_spec page x), (Z.ltb_spec x (page + PAGE_SIZE)); case_bool_decide; try done; exfalso; lia.
Qed.

Section memory.
Context {E : Type} `{UserPagesLaws E}.
Implicit Types (st : umem E) (F : gset Z) (M : gmap Z (Z * bool)).

Lemma put_bytes_ok st F M a l : uowns (env st) F M → 0 ≤ a → a + Z.of_nat (length l) ≤ USER_SPACE_TOP →
  (∀ x, a ≤ x < a + Z.of_nat (length l) → mapped M x) →
  ∃ b, put_bytes st a l = Ok (Umem (env st) b) ∧ ∀ x, b x = if (a <=? x) && (x <? a + Z.of_nat (length l)) then aget 0 l (x - a) else bytes st x.
Proof.
  intros Ho. revert st a Ho. induction l as [|c l IH]; intros st a Ho Ha Hend Hm; cbn [put_bytes length].
  { exists (bytes st). split; [by destruct st|]. intros x. by destruct (Z.leb_spec a x), (Z.ltb_spec x (a + Z.of_nat 0)); try lia. }
  cbn [length] in *. assert (a < 2 ^ 32) as Ha32 by (unfold KERNEL_VIRT_BASE in *; lia).
  rewrite page_down_of by lia. rewrite (u_translate _ F M) by (done || (apply user_page_of; lia)). cbn [mbind outcome_bind].
  destruct (Hm a) as [y Hy]; [lia|]. rewrite Hy. cbn [fmap option_fmap option_map].
  destruct (IH (Umem (env st) (λ x, if x =? a then c else bytes st x)) (a + 1)) as (b & Eb & Hb); [done|lia|lia|intros x Hx; apply Hm; lia|].
  exists b. split; [done|]. intros x. rewrite Hb. cbn [bytes].
  destruct (Z.leb_spec (a + 1) x), (Z.ltb_spec x (a + 1 + Z.of_nat (length l))), (Z.leb_spec a x), (Z.ltb_spec x (a + Z.of_nat (S (length l)))), (Z.eqb_spec x a);
    try lia; cbn [andb]; try done.
  - unfold aget. rewrite !(proj2 (Z.ltb_ge _ 0)) by lia. replace (Z.to_nat (x - a)) with (S (Z.to_nat (x - (a + 1)))) by lia. done.
  - subst x. by rewrite Z.sub_diag.
Qed.

Lemma map_range_from_ok fuel st F M page end_ : uowns (env st) F M → page mod PAGE_SIZE = 0 → 0 ≤ page → end_ ≤ USER_IMAGE_TOP →
  (end_ ≤ page ∨ (end_ - page) / PAGE_SIZE + 1 ≤ Z.of_nat fuel) →
  ∃ st' rc M', map_range_from fuel st page end_ = Ok (st', rc) ∧ uowns (env st') F M' ∧ more_pages M M' page end_ ∧ zeroed M M' (bytes st) (bytes st') ∧
    (rc = 0 ∧ (∀ x, page ≤ x < end_ → mapped M' x) ∨ rc = - ENOMEM).
Proof.
  revert st M page. induction fuel as [|fuel IH]; intros st M page Ho Hal Hp0 Htop Hf; cbn [map_range_from].
  { assert (end_ ≤ page) by (destruct Hf; [lia|]; unfold PAGE_SIZE in *; dlia). rewrite (proj2 (Z.ltb_ge _ _)) by lia.
    exists st, 0, M. split_and!; [done|done|apply more_refl|apply zeroed_refl|left; split; [done|intros; lia]]. }
  destruct (Z.ltb_spec page end_) as [Hlt|Hge].
  2:{ exists st, 0, M. split_and!; [done|done|apply more_refl|apply zeroed_refl|left; split; [done|intros; lia]]. }
  assert (user_page page) as Hup by (split; [done|]; unfold KERNEL_VIRT_BASE; lia).
  rewrite (u_translate _ F M) by done. cbn [mbind outcome_bind].
  assert (u32 (page + PAGE_SIZE) = page + PAGE_SIZE) as Hnext by (apply u32_small; unfold PAGE_SIZE; lia). rewrite Hnext.
  assert ((page + PAGE_SIZE) mod PAGE_SIZE = 0) as Hal' by (unfold PAGE_SIZE in *; dlia).
  assert (end_ ≤ page + PAGE_SIZE ∨ (end_ - (page + PAGE_SIZE)) / PAGE_SIZE + 1 ≤ Z.of_nat fuel) as Hf'.
  { destruct Hf as [|Hf]; [lia|]. right. unfold PAGE_SIZE in *. dlia. }
  (* the rounds after this page, once it is mapped *)
  assert (∀ st1 M1, uowns (env st1) F M1 → more_pages M M1 page end_ → zeroed M M1 (bytes st) (bytes st1) → is_Some (M1 !! page) →
    ∃ st' rc M', map_range_from fuel st1 (page + PAGE_SIZE) end_ = Ok (st', rc) ∧ uowns (env st') F M' ∧ more_pages M M' page end_ ∧
      zeroed M M' (bytes st) (bytes st') ∧ (rc = 0 ∧ (∀ x, page ≤ x < end_ → mapped M' x) ∨ rc = - ENOMEM)) as Hrest.
  { intros st1 M1 Ho1 Hm1 Hz1 [y Hy]. destruct (IH st1 M1 (page + PAGE_SIZE)) as (st' & rc & M' & Er & Ho' & Hm' & Hz' & Hrc); [done|done|unfold PAGE_SIZE; lia|done|done|].
    apply (more_weaken _ _ _ _ page end_) in Hm'; [|unfold PAGE_SIZE; lia|lia].
    exists st', rc, M'. split_and!; [done|done|by eapply more_trans|by eapply zeroed_trans|]. destruct Hrc as [[-> Hall]|]; [left|by right]. split; [done|].
    intros x Hx. destruct (Z_lt_ge_dec x (page + PAGE_SIZE)); [|apply Hall; lia]. apply (more_mapped _ _ _ _ _ Hm'). unfold mapped. rewrite (page_of_unique page x) by (done || lia). by exists y. }
  destruct (M !! page) as [y|] eqn:Ey; cbn [fmap option_fmap option_map].
  { apply (Hrest st M); [done|apply more_refl|apply zeroed_refl|by exists y]. }
  destruct (u_alloc _ _ _ Ho) as (frame & e1 & -> & Hfr). destruct Hfr as [[-> Ho1]|(Hf0 & Hnin & Ho1)].
  { exists (Umem e1 (bytes st)), (- ENOMEM), M. split_and!; [done|done|apply more_refl|apply zeroed_refl|by right]. }
  rewrite (proj2 (Z.eqb_neq frame 0)) by done. cbn [env bytes].
  assert (({[frame]} ∪ F) ∖ {[frame]} = F) as HF by set_solver.
  destruct (u_map _ _ _ page frame Ho1) as (rc & e2 & -> & Hmap); [set_solver|done|done|]. cbn [mbind outcome_bind].
  destruct Hmap as [[-> Ho2]|[Hrc Ho2]]; cbn [Z.eqb negb].
  - rewrite HF in Ho2. set (M1 := <[page := (frame, true)]> M) in *.
    destruct (put_bytes_ok (Umem e2 (bytes st)) F M1 page (replicate (Z.to_nat PAGE_SIZE) 0)) as (b & -> & Hb).
    { done. } { done. } { rewrite length_replicate. unfold PAGE_SIZE, KERNEL_VIRT_BASE in *. lia. }
    { intros x Hx. rewrite length_replicate in Hx. unfold mapped. rewrite (page_of_unique page x); [|done|unfold PAGE_SIZE in *; lia]. unfold M1. rewrite lookup_insert_eq. by eexists. }
    cbn [mbind outcome_bind env]. apply (Hrest (Umem e2 b) M1); [done|by apply one_more| |unfold M1; rewrite lookup_insert_eq; by eexists].
    apply one_zeroed; [done|done|]. intros x. cbn [bytes]. rewrite Hb. rewrite length_replicate, Z2Nat.id by (unfold PAGE_SIZE; lia). cbn [bytes].
    destruct (_ && _) eqn:Ex; [|done]. apply andb_true_iff in Ex as [Ex1%Z.leb_le Ex2%Z.ltb_lt].
    unfold aget. rewrite (proj2 (Z.ltb_ge _ 0)) by lia. by rewrite lookup_replicate_2 by lia.
  - rewrite (proj2 (Z.eqb_neq rc 0)) by done. cbn [negb env]. destruct (u_free _ _ _ frame Ho2) as (e3 & -> & Ho3); [set_solver|]. rewrite HF in Ho3.
    cbn [mbind outcome_bind]. exists (Umem e3 (bytes st)), (- ENOMEM), M. split_and!; [done|done|apply more_refl|apply zeroed_refl|by right].
Qed.

Lemma map_range_ok st F M start end_ : uowns (env st) F M → 0 ≤ start < end_ → end_ ≤ USER_IMAGE_TOP →
  ∃ st' rc M', map_range st start end_ = Ok (st', rc) ∧ uowns (env st') F M' ∧ more_pages M M' (page_of start) end_ ∧
    zeroed M M' (bytes st) (bytes st') ∧ (rc = 0 ∧ (∀ x, start ≤ x < end_ → mapped M' x) ∨ rc = - ENOMEM).
Proof.
  intros Ho Hs Ht. unfold map_range. rewrite page_down_of by lia. destruct (page_of_range start) as [Hr Ha].
  destruct (map_range_from_ok (Z.to_nat ((end_ - page_of start) / PAGE_SIZE + 1)) st F M (page_of start) end_ Ho Ha) as (st' & rc & M' & Hres & Ho' & Hm & Hz & Hrc).
  - unfold page_of, PAGE_SIZE in *. dlia.
  - done.
  - right. unfold PAGE_SIZE in *. dlia.
  - exists st', rc, M'. split_and!; [done..|]. destruct Hrc as [[-> Hall]|]; [left|by right]. split; [done|]. intros x Hx. apply Hall. lia.
Qed.

(** ** The segments *)

Section segments.
Context (image : list Z).
Context (F : gset Z) (M0 : gmap Z (Z * bool)) (b0 : Z → Z).

(** The byte at [a] once the segment's bytes are copied. *)
Definition seg_byte (a old : Z) (p : elf_phdr) : Z :=
  if (vaddr p <=? a) && (a <? vaddr p + filesz p) then aget 0 image (poffset p + (a - vaddr p)) else old.

(** The byte after all of [l], in their order. *)
Definition laid (l : list elf_phdr) (base a : Z) : Z := foldl (seg_byte a) base l.

Definition good_segment (p : elf_phdr) : Prop := valid_segment p (Z.of_nat (length image)) = true.

(** What is so after the segments [l] have been loaded. *)
Record loading st (M : gmap Z (Z * bool)) (l : list elf_phdr) : Prop := {
  lg_owns : uowns (env st) F M;
  lg_more : more_pages M0 M USER_IMAGE_MIN USER_IMAGE_TOP;
  lg_bytes a : bytes st a = laid l (if bool_decide (mapped M a ∧ ¬ mapped M0 a) then 0 else b0 a) a;
  lg_valid : Forall good_segment l;
  lg_mapped p x : p ∈ l → vaddr p ≤ x < vaddr p + memsz p → mapped M x
}.

(** All an unfinished load can have changed. *)
Record confined st (M : gmap Z (Z * bool)) : Prop := {
  cf_owns : uowns (env st) F M;
  cf_more : more_pages M0 M USER_IMAGE_MIN USER_IMAGE_TOP;
  cf_bytes a : ¬ (USER_IMAGE_MIN ≤ a < USER_IMAGE_TOP) → bytes st a = b0 a
}.

Lemma good_bounds p : phdr_ok p → good_segment p →
  USER_IMAGE_MIN ≤ vaddr p < USER_IMAGE_TOP ∧ vaddr p + memsz p ≤ USER_IMAGE_TOP ∧ 0 ≤ filesz p ≤ memsz p ∧
  0 ≤ poffset p ∧ poffset p + filesz p ≤ Z.of_nat (length image).
Proof.
  intros [] Hg. unfold good_segment, valid_segment in Hg. rewrite !andb_true_iff, !Z.geb_leb in Hg.
  destruct Hg as [[[[[H1%Z.leb_le H2%Z.leb_le] H3%Z.leb_le] H4%Z.leb_le] H5%Z.ltb_lt] H6%Z.leb_le]. lia.
Qed.

Lemma laid_untouched l base a : (∀ p, p ∈ l → ¬ (vaddr p ≤ a < vaddr p + filesz p)) → laid l base a = base.
Proof.
  unfold laid. revert base. induction l as [|p l IH]; intros base Hn; cbn [foldl]; [done|]. rewrite IH by (intros q Hq; apply Hn; set_solver).
  unfold seg_byte. destruct (Z.leb_spec (vaddr p) a), (Z.ltb_spec a (vaddr p + filesz p)); try done. exfalso. apply (Hn p); [set_solver|lia].
Qed.

Lemma loading_confined st M l : Forall phdr_ok l → loading st M l → confined st M.
Proof.
  intros Hl [Ho Hm Hby Hv Hmp]. split; [done|done|]. intros a Ha. rewrite Hby, laid_untouched.
  - rewrite bool_decide_false; [done|]. intros [[y Hy] Hn]. apply (mp_new _ _ _ _ Hm) in Hy as (_ & Hr & _).
    + apply Ha. destruct (page_of_range a). unfold PAGE_SIZE in *. unfold page_of, PAGE_SIZE in *. dlia.
    + destruct (M0 !! page_of a) eqn:E0; [|done]. exfalso. apply Hn. by eexists.
  - intros p Hp Hr. rewrite Forall_forall in Hl, Hv. destruct (good_bounds p (Hl p Hp) (Hv p Hp)) as (? & ? & ? & _). lia.
Qed.

(** Mapping a segment's pages. *)
Lemma map_segment st M l p : Forall phdr_ok l → loading st M l → phdr_ok p → good_segment p → 0 < memsz p →
  ∃ st' rc M', map_range st (vaddr p) (vaddr p + memsz p) = Ok (st', rc) ∧ loading st' M' l ∧
    (rc = 0 ∧ (∀ x, vaddr p ≤ x < vaddr p + memsz p → mapped M' x) ∨ rc = - ENOMEM).
Proof.
  intros Hl [Ho Hm Hby Hv Hmp] Hp Hg Hms. destruct (good_bounds p Hp Hg) as (B1 & B2 & B3 & _).
  destruct (map_range_ok st F M (vaddr p) (vaddr p + memsz p) Ho) as (st' & rc & M' & -> & Ho' & Hm' & Hz & Hrc); [lia|lia|].
  exists st', rc, M'. split; [done|]. split; [|done].
  assert (more_pages M M' USER_IMAGE_MIN USER_IMAGE_TOP) as Hm2.
  { eapply more_weaken; [done| |lia]. unfold page_of, PAGE_SIZE. dlia. }
  split; [done|by eapply more_trans| |done|intros q x Hq Hx; apply (more_mapped _ _ _ _ _ Hm2); by eapply Hmp].
  intros a. rewrite Hz, Hby. pose proof (more_mapped _ _ _ _ a Hm) as H1. pose proof (more_mapped _ _ _ _ a Hm2) as H2.
  destruct (decide (mapped M a)) as [Ha|Ha].
  - rewrite (bool_decide_false (mapped M' a ∧ ¬ mapped M a)) by tauto. f_equal. repeat case_bool_decide; try done; exfalso; tauto.
  - rewrite (bool_decide_false (mapped M a ∧ ¬ mapped M0 a)) by tauto. rewrite !laid_untouched; [repeat case_bool_decide; try done; exfalso; tauto|..];
      intros q Hq Hr; apply Ha; (eapply Hmp; [done|]); rewrite Forall_forall in Hl, Hv; destruct (good_bounds q (Hl q Hq) (Hv q Hq)) as (? & ? & ? & _); lia.
Qed.

(** Copying its bytes. *)
Lemma copy_segment st M l p : loading st M l → phdr_ok p → good_segment p → (∀ x, vaddr p ≤ x < vaddr p + memsz p → mapped M x) →
  ∃ bs st', fetch image (poffset p) (filesz p) = Ok bs ∧ put_bytes st (vaddr p) bs = Ok st' ∧ loading st' M (l ++ [p]).
Proof.
  intros [Ho Hm Hby Hv Hmp] Hp Hg Hall. destruct (good_bounds p Hp Hg) as (B1 & B2 & B3 & B4 & B5).
  rewrite fetch_ok by lia. set (bs := take _ _). assert (Z.of_nat (length bs) = filesz p) as Hlen.
  { unfold bs. rewrite length_take, length_drop. lia. }
  destruct (put_bytes_ok st F M (vaddr p) bs Ho) as (b & Hput & Hbb); [lia|rewrite Hlen; unfold KERNEL_VIRT_BASE; lia|intros x Hx; apply Hall; lia|].
  exists bs, (Umem (env st) b). split_and!; [done|done|]. split; [done|done| |apply Forall_app; split; [done|by apply Forall_singleton]|].
  - intros a. cbn [bytes]. rewrite Hbb, Hlen. unfold laid. rewrite foldl_app. cbn [foldl]. fold (laid l (if bool_decide (mapped M a ∧ ¬ mapped M0 a) then 0 else b0 a) a).
    rewrite <- Hby. unfold seg_byte. destruct (_ && _) eqn:Ea; [|done]. apply andb_true_iff in Ea as [Ea1%Z.leb_le Ea2%Z.ltb_lt].
    unfold aget, bs. rewrite !(proj2 (Z.ltb_ge _ 0)) by lia. rewrite lookup_take_lt by lia. rewrite lookup_drop. do 2 f_equal. lia.
  - intros q x [Hq| ->%list_elem_of_singleton]%elem_of_app Hx; [by eapply Hmp|by apply Hall].
Qed.

Context (h : elf_header) (ps : list elf_phdr).

(** What the loop keeps of the segments it has loaded. *)
Record tracked (g : progress) (l : list elf_phdr) : Prop := {
  tk_entry : entry_loaded g = existsb (λ p, (eentry h >=? vaddr p) && (eentry h - vaddr p <? memsz p)) l;
  tk_start p : p ∈ l → pstart g ≤ page_of (vaddr p);
  tk_end p : p ∈ l → vaddr p + memsz p ≤ pend g;
  tk_start_of : pstart g = USER_IMAGE_TOP ∨ ∃ p, p ∈ l ∧ pstart g = page_of (vaddr p);
  tk_end_of : pend g = USER_IMAGE_MIN ∨ ∃ p, p ∈ l ∧ pend g = vaddr p + memsz p
}.

Lemma tracked_add g l p : tracked g l →
  tracked (Progress (if (eentry h >=? vaddr p) && (eentry h - vaddr p <? memsz p) then true else entry_loaded g)
             (if page_of (vaddr p) <? pstart g then page_of (vaddr p) else pstart g)
             (if vaddr p + memsz p >? pend g then vaddr p + memsz p else pend g)) (l ++ [p]).
Proof.
  intros [Te Ts Td Tso Tdo]. rewrite Z.gtb_ltb. split; cbn [entry_loaded pstart pend].
  - rewrite existsb_app, <- Te. cbn [existsb]. rewrite orb_false_r. destruct (_ && _); [by rewrite orb_true_r|by rewrite orb_false_r].
  - intros q [Hq| ->%list_elem_of_singleton]%elem_of_app; [specialize (Ts q Hq)|]; destruct (Z.ltb_spec (page_of (vaddr p)) (pstart g)); lia.
  - intros q [Hq| ->%list_elem_of_singleton]%elem_of_app; [specialize (Td q Hq)|]; destruct (Z.ltb_spec (pend g) (vaddr p + memsz p)); lia.
  - destruct (_ <? _); [right; exists p; set_solver|]. destruct Tso as [|(q & ? & ?)]; [by left|right; exists q; set_solver].
  - destruct (_ <? _); [right; exists p; set_solver|]. destruct Tdo as [|(q & ? & ?)]; [by left|right; exists q; set_solver].
Qed.

Lemma filter_snoc (l : list elf_phdr) p : List.filter is_load (l ++ [p]) = List.filter is_load l ++ if is_load p then [p] else [].
Proof. rewrite List.filter_app. cbn. by destruct (is_load p). Qed.

Lemma filter_phdr_ok (l : list elf_phdr) : Forall phdr_ok l → Forall phdr_ok (List.filter is_load l).
Proof. intros Hl. apply Forall_forall. intros p Hp. apply list_elem_of_In, List.filter_In in Hp as [Hp _]. rewrite Forall_forall in Hl. by apply Hl, list_elem_of_In. Qed.

Context (Hh : headers image h ps).

Lemma load_from_ok i st M g :
  loading st M (List.filter is_load (take i ps)) → tracked g (List.filter is_load (take i ps)) →
  ∃ st' M' r, load_from (length (drop i ps)) image (Z.of_nat (length image)) h (Z.of_nat i) st g = Ok (st', r) ∧
    match r with
    | inl e => (e = - ENOEXEC ∨ e = - ENOMEM) ∧ confined st' M'
    | inr g' => loading st' M' (loads ps) ∧ tracked g' (loads ps)
    end.
Proof.
  remember (drop i ps) as rest eqn:Er. symmetry in Er. revert i st M g Er. induction rest as [|p rest IH]; intros i st M g Er Hl Ht; cbn [length load_from].
  { exists st, M, (inr g). split; [done|]. unfold loads. rewrite <- (take_drop i ps), Er, app_nil_r. done. }
  destruct (phdr_at image h ps Hh i p rest Er) as (-> & Hok & Er'). cbn [mbind outcome_bind]. replace (Z.of_nat i + 1) with (Z.of_nat (S i)) by lia.
  assert (take (S i) ps = take i ps ++ [p]) as Et by (apply take_S_r; rewrite <- (Nat.add_0_r i), <- lookup_drop; by rewrite Er).
  assert (Forall phdr_ok (List.filter is_load (take i ps))) as Hoks by (apply filter_phdr_ok, Forall_take, (hd_ok _ _ _ Hh)).
  assert (negb (ptype p =? PT_LOAD) || (memsz p =? 0) = negb (is_load p)) as -> by (unfold is_load; by destruct (_ =? _), (_ =? _)).
  specialize (IH (S i)). rewrite Et, filter_snoc in IH. destruct (is_load p) eqn:El; cbn [negb]; [|rewrite app_nil_r in IH; by apply (IH st M)].
  destruct (valid_segment p (Z.of_nat (length image))) eqn:Ev; cbn [negb].
  2:{ exists st, M, (inl (- ENOEXEC)). split; [done|]. split; [by left|by eapply loading_confined]. }
  assert (0 < memsz p) as Hms.
  { unfold is_load in El. apply andb_true_iff in El as [_ El]. apply negb_true_iff, Z.eqb_neq in El. destruct Hok. lia. }
  destruct (good_bounds p Hok Ev) as (B1 & B2 & _). rewrite !(u32_small (vaddr p + memsz p)) by lia.
  destruct (map_segment st M _ p Hoks Hl Hok Ev Hms) as (st1 & rc & M1 & -> & Hl1 & Hrc). cbn [mbind outcome_bind].
  destruct Hrc as [[-> Hall]| ->]; cbn [Z.eqb negb].
  - destruct (copy_segment st1 M1 _ p Hl1 Hok Ev Hall) as (bs & st2 & -> & Hput & Hl2). cbn [mbind outcome_bind]. rewrite Hput. cbn [mbind outcome_bind].
    rewrite page_down_of by (destruct Hok; lia). apply (IH st2 M1 _ Er' Hl2). by apply tracked_add.
  - exists st1, M1, (inl (- ENOMEM)). split; [done|]. split; [by right|by eapply loading_confined].
Qed.
End segments.

(** ** Protection *)

(** The pages [c] picks can no longer be written. *)
Definition flagged (c : Z → bool) (M M' : gmap Z (Z * bool)) : Prop :=
  ∀ va, va mod PAGE_SIZE = 0 → M' !! va = (λ y, (y.1, y.2 && negb (c va))) <$> M !! va.

Lemma flagged_refl M c : (∀ va, va mod PAGE_SIZE = 0 → c va = false) → flagged c M M.
Proof. intros Hc va Hva. rewrite Hc by done. destruct (M !! va) as [[f b]|]; cbn; [by rewrite andb_true_r|done]. Qed.

Lemma flagged_trans M M1 M2 c1 c2 c : flagged c1 M M1 → flagged c2 M1 M2 → (∀ va, va mod PAGE_SIZE = 0 → c va = c1 va || c2 va) → flagged c M M2.
Proof.
  intros H1 H2 Hc va Hva. rewrite H2, H1, Hc by done. destruct (M !! va) as [[f b]|]; cbn; [|done]. by rewrite negb_orb, andb_assoc.
Qed.

Lemma flagged_mapped c M M' x : flagged c M M' → mapped M x → mapped M' x.
Proof. intros Hf [y Hy]. unfold mapped. rewrite Hf by apply page_of_range. rewrite Hy. by eexists. Qed.

Lemma flagged_one M page f b : M !! page = Some (f, b) → flagged (λ va, va =? page) M (<[page := (f, false)]> M).
Proof.
  intros Hp va _. destruct (Z.eqb_spec va page) as [->|Hne]; [rewrite lookup_insert_eq, Hp; cbn; by rewrite andb_false_r|].
  rewrite lookup_insert_ne by done. destruct (M !! va) as [[g d]|]; cbn; [by rewrite andb_true_r|done].
Qed.

Section protect.
Context (image : list Z) (h : elf_header) (ps : list elf_phdr).
Context (Hh : headers image h ps).
Context (Hfit : Forall (λ p, is_load p = true → USER_IMAGE_MIN ≤ vaddr p ∧ vaddr p + memsz p ≤ USER_IMAGE_TOP) ps).

Lemma covers_ok page : 0 ≤ page < USER_IMAGE_TOP → writable_segment_covers image h page = Ok (write_covers ps page).
Proof.
  intros Hp. unfold writable_segment_covers, write_covers, loads. rewrite <- (hd_length _ _ _ Hh), Nat2Z.id.
  apply (covers_from_ok image h ps Hh page 0); [|unfold PAGE_SIZE; lia]. eapply Forall_impl; [exact Hfit|]. cbn. intros p Hq Hl. destruct (Hq Hl). lia.
Qed.

Lemma protect_pages_ok fuel st F M page end_ : uowns (env st) F M → page mod PAGE_SIZE = 0 → 0 ≤ page → end_ ≤ USER_IMAGE_TOP →
  (∀ x, page ≤ x < end_ → mapped M x) → (end_ ≤ page ∨ (end_ - page) / PAGE_SIZE + 1 ≤ Z.of_nat fuel) →
  ∃ st' M', protect_pages fuel image h st page end_ = Ok st' ∧ uowns (env st') F M' ∧ bytes st' = bytes st ∧
    flagged (λ va, (page <=? va) && (va <? end_) && negb (write_covers ps va)) M M'.
Proof.
  revert st M page. induction fuel as [|fuel IH]; intros st M page Ho Hal Hp0 Htop Hall Hf; cbn [protect_pages]; destruct (Z.ltb_spec page end_) as [Hlt|Hge].
  1: (exfalso; destruct Hf; [lia|]; unfold PAGE_SIZE in *; dlia).
  1,3: (exists st, M; split_and!; [done|done|done|]; apply flagged_refl; intros va _; destruct (Z.leb_spec page va), (Z.ltb_spec va end_); try done; lia).
  rewrite covers_ok by lia. cbn [mbind outcome_bind].
  assert (u32 (page + PAGE_SIZE) = page + PAGE_SIZE) as -> by (apply u32_small; unfold PAGE_SIZE; lia).
  assert (∃ st1 M1, (if write_covers ps page then Ok st else '(_, e) ← up_set_writable (env st) page false; Ok (Umem e (bytes st))) = Ok st1 ∧
    uowns (env st1) F M1 ∧ bytes st1 = bytes st ∧ flagged (λ va, (va =? page) && negb (write_covers ps va)) M M1) as (st1 & M1 & -> & Ho1 & Hb1 & Hf1).
  { destruct (write_covers ps page) eqn:Ec.
    - exists st, M. split_and!; [done|done|done|]. apply flagged_refl. intros va _. destruct (Z.eqb_spec va page) as [->|]; [by rewrite Ec|done].
    - destruct (Hall page) as [[f b] Hy]; [lia|]. rewrite (page_of_unique page page) in Hy by (done || unfold PAGE_SIZE; lia).
      destruct (u_set _ _ _ _ _ _ false Ho Hy) as (e & -> & Ho1). exists (Umem e (bytes st)), (<[page := (f, false)]> M). split_and!; [done|done|done|].
      eapply flagged_trans; [by eapply flagged_one|apply (flagged_refl _ (λ _, false)); done|]. intros va _. cbn beta. destruct (Z.eqb_spec va page) as [->|]; [by rewrite Ec|done]. }
  cbn [mbind outcome_bind]. destruct (IH st1 M1 (page + PAGE_SIZE)) as (st' & M' & Er & Ho' & Hb' & Hf'); [done|unfold PAGE_SIZE in *; dlia|unfold PAGE_SIZE; lia|done| | |].
  - intros x Hx. eapply flagged_mapped; [done|]. apply Hall. unfold PAGE_SIZE in *. lia.
  - destruct Hf as [|Hf]; [lia|]. right. unfold PAGE_SIZE in *. dlia.
  - exists st', M'. split_and!; [done|done|congruence|]. eapply flagged_trans; [exact Hf1|exact Hf'|]. intros va Hva. cbn beta.
    destruct (write_covers ps va); [by rewrite !andb_false_r|]. cbn [negb]. rewrite !andb_true_r.
    destruct (Z.leb_spec page va), (Z.ltb_spec va end_), (Z.eqb_spec va page), (Z.leb_spec (page + PAGE_SIZE) va); try done; exfalso; unfold PAGE_SIZE in *; dlia.
Qed.

(** A segment without [PF_W] in the page. *)
Definition read_covers (l : list elf_phdr) (page : Z) : bool := existsb (λ p, negb (is_writable p) && touches p page) l.

Lemma touches_page p va : va mod PAGE_SIZE = 0 → touches p va = (page_of (vaddr p) <=? va) && (va <? vaddr p + memsz p).
Proof.
  intros Hva. unfold touches. rewrite andb_comm. f_equal. apply eq_true_iff_eq. rewrite Z.ltb_lt, Z.leb_le.
  destruct (page_of_range (vaddr p)) as [Hr Ha]. unfold PAGE_SIZE in *. split; intros; dlia.
Qed.

Lemma protect_from_ok i st F M : uowns (env st) F M → (∀ p x, p ∈ loads ps → vaddr p ≤ x < vaddr p + memsz p → mapped M x) →
  ∃ st' M', protect_from (length (drop i ps)) image h (Z.of_nat i) st = Ok st' ∧ uowns (env st') F M' ∧ bytes st' = bytes st ∧
    flagged (λ va, read_covers (List.filter is_load (drop i ps)) va && negb (write_covers ps va)) M M'.
Proof.
  remember (drop i ps) as rest eqn:Er. symmetry in Er. revert i st M Er. induction rest as [|p rest IH]; intros i st M Er Ho Hall; cbn [length protect_from].
  { exists st, M. split_and!; [done|done|done|]. by apply flagged_refl. }
  destruct (phdr_at image h ps Hh i p rest Er) as (-> & Hok & Er'). cbn [mbind outcome_bind]. replace (Z.of_nat i + 1) with (Z.of_nat (S i)) by lia.
  assert (negb (ptype p =? PT_LOAD) || (memsz p =? 0) = negb (is_load p)) as -> by (unfold is_load; by destruct (_ =? _), (_ =? _)).
  fold (is_writable p). cbn [List.filter]. destruct (is_load p) eqn:El; cbn [negb orb]; [|by apply IH].
  assert (ps !! i = Some p) as Hi by (rewrite <- (Nat.add_0_r i), <- lookup_drop; by rewrite Er).
  destruct (is_writable p) eqn:Ew.
  { destruct (IH (S i) st M Er' Ho Hall) as (st' & M' & Ex & Ho' & Hb' & Hf'). exists st', M'. split_and!; [done|done|done|]. unfold read_covers in *. cbn [existsb]. by rewrite Ew. }
  destruct (Forall_lookup_1 _ _ _ _ Hfit Hi El) as [B1 B2]. assert (p ∈ loads ps) as Hin.
  { unfold loads. apply list_elem_of_In, List.filter_In. split; [|done]. apply list_elem_of_In. by eapply list_elem_of_lookup_2. }
  rewrite u32_small, page_down_of by (destruct Hok; lia). destruct (page_of_range (vaddr p)) as [Hr Ha].
  destruct (protect_pages_ok (Z.to_nat ((vaddr p + memsz p - page_of (vaddr p)) / PAGE_SIZE + 1)) st F M (page_of (vaddr p)) (vaddr p + memsz p) Ho Ha)
    as (st1 & M1 & -> & Ho1 & Hb1 & Hf1); [unfold page_of, PAGE_SIZE in *; dlia|done| |destruct Hok; right; unfold PAGE_SIZE in *; dlia|].
  { intros x Hx. destruct (Z_lt_ge_dec x (vaddr p)) as [Hxl|Hxg]; [|apply (Hall p); [done|lia]].
    assert (page_of x = page_of (vaddr p)) as Hsame by (apply page_of_unique; [done|lia]).
    assert (0 < memsz p) as Hms by (unfold is_load in El; apply andb_true_iff in El as [_ El]; apply negb_true_iff, Z.eqb_neq in El; destruct Hok; lia).
    destruct (Hall p (vaddr p) Hin ltac:(lia)) as [y Hy]. exists y. by rewrite Hsame. }
  cbn [mbind outcome_bind]. destruct (IH (S i) st1 M1 Er' Ho1) as (st' & M' & Ex & Ho' & Hb' & Hf').
  { intros q x Hq Hx. eapply flagged_mapped; [done|]. by eapply Hall. }
  exists st', M'. split_and!; [done|done|congruence|]. eapply flagged_trans; [exact Hf1|exact Hf'|]. intros va Hva. unfold read_covers. cbn [existsb]. rewrite Ew.
  cbn [negb andb]. rewrite touches_page by done. by rewrite andb_orb_distrib_l.
Qed.
End protect.

(** ** The whole *)

(** What a load that has come to its end leaves. *)
Record outcome_of (image : list Z) (M0 : gmap Z (Z * bool)) (b0 : Z → Z) st (M : gmap Z (Z * bool)) (r : loaded) : Prop := {
  oc_headers : ∃ h ps, headers image h ps ∧ abi_version image (Z.of_nat (length image)) h = Ok (l_abi r) ∧
    Forall (good_segment image) (loads ps) ∧
    l_entry r = eentry h ∧ (∃ p, p ∈ loads ps ∧ vaddr p ≤ l_entry r < vaddr p + memsz p) ∧
    (∀ p, p ∈ loads ps → l_start r ≤ page_of (vaddr p) ∧ vaddr p + memsz p ≤ l_end r) ∧
    (∃ p, p ∈ loads ps ∧ l_start r = page_of (vaddr p)) ∧ (∃ p, p ∈ loads ps ∧ l_end r = vaddr p + memsz p) ∧
    (∀ p a, p ∈ loads ps → vaddr p ≤ a < vaddr p + memsz p → mapped M a) ∧
    (∀ a, bytes st a = laid image (loads ps) (if bool_decide (mapped M a ∧ ¬ mapped M0 a) then 0 else b0 a) a) ∧
    (∀ va f b, M !! va = Some (f, b) → M0 !! va = None → va mod PAGE_SIZE = 0 → b = write_covers ps va || negb (read_covers (loads ps) va));
  oc_abi : ZKT_ABI_VERSION_MIN ≤ l_abi r ≤ ZKT_ABI_VERSION
}.

(** The parts of the memory no load changes. *)
Record apart_from_image (M0 M : gmap Z (Z * bool)) (b0 b : Z → Z) : Prop := {
  ap_pages va : va mod PAGE_SIZE = 0 → ¬ (USER_IMAGE_MIN ≤ va < USER_IMAGE_TOP) → M !! va = M0 !! va;
  ap_bytes a : ¬ (USER_IMAGE_MIN ≤ a < USER_IMAGE_TOP) → b a = b0 a
}.

Lemma confined_apart F M0 b0 st M : confined F M0 b0 st M → apart_from_image M0 M b0 (bytes st).
Proof.
  intros [_ [Hold Hnew] Hb]. split; [|done]. intros va _ Hva. destruct (M0 !! va) eqn:E0; [by apply Hold|]. destruct (M !! va) eqn:E1; [|done].
  by destruct (Hnew _ _ E1 E0) as (_ & ? & _).
Qed.

Lemma flagged_iff c M M' x : flagged c M M' → mapped M' x ↔ mapped M x.
Proof. intros Hf. unfold mapped. rewrite Hf by apply page_of_range. by rewrite fmap_is_Some. Qed.

Lemma loads_fit image ps : Forall phdr_ok ps → Forall (good_segment image) (loads ps) →
  Forall (λ p, is_load p = true → USER_IMAGE_MIN ≤ vaddr p ∧ vaddr p + memsz p ≤ USER_IMAGE_TOP) ps.
Proof.
  intros Hok Hv. rewrite Forall_forall in Hok, Hv |- *. intros p Hp Hl. assert (p ∈ loads ps) as Hin.
  { unfold loads. apply list_elem_of_In, List.filter_In. split; [by apply list_elem_of_In|done]. }
  destruct (good_bounds image p (Hok p Hp) (Hv p Hin)) as (? & ? & _). lia.
Qed.

(** The last step of a load: the second loop, and the results. *)
Lemma protect_ok image h ps F M0 b0 st M g version : Forall is_byte image → headers image h ps →
  loading image F M0 b0 st M (loads ps) → tracked h g (loads ps) → entry_loaded g = true →
  abi_version image (Z.of_nat (length image)) h = Ok version → ZKT_ABI_VERSION_MIN ≤ version ≤ ZKT_ABI_VERSION →
  ∃ st' M', protect_from (length ps) image h 0 st = Ok st' ∧ uowns (env st') F M' ∧ apart_from_image M0 M' b0 (bytes st') ∧
    outcome_of image M0 b0 st' M' (Loaded (eentry h) (pstart g) (pend g) version).
Proof.
  intros Hb Hh Hl Ht Eg Hav Hver. pose proof (filter_phdr_ok ps (hd_ok _ _ _ Hh)) as Hoks. fold (loads ps) in Hoks.
  destruct (confined_apart _ _ _ _ _ (loading_confined image F M0 b0 st M _ Hoks Hl)) as [Hap Hab]. destruct Hl as [Ho Hm Hby Hv Hmp].
  pose proof (loads_fit image ps (hd_ok _ _ _ Hh) Hv) as Hfit.
  destruct (protect_from_ok image h ps Hh Hfit 0 st F M Ho Hmp) as (st' & M' & Ep & Ho' & Hb' & Hf).
  change (drop 0 ps) with ps in Hf. fold (loads ps) in Hf. exists st', M'. split; [exact Ep|]. split; [done|]. split.
  { split; [|intros a Ha; rewrite Hb'; by apply Hab]. intros va Hva Hout. rewrite Hf, <- Hap by done.
    assert (read_covers (loads ps) va = false) as Hrc.
    { apply not_true_iff_false. intros Hex. apply existsb_exists in Hex as (p & Hp%list_elem_of_In & Htp). rewrite Forall_forall in Hoks, Hv.
      destruct (good_bounds image p (Hoks p Hp) (Hv p Hp)) as (? & ? & _). rewrite touches_page, !andb_true_iff, Z.leb_le, Z.ltb_lt in Htp by done.
      destruct Htp as (_ & ? & ?). apply Hout. unfold page_of, PAGE_SIZE in *. dlia. }
    rewrite Hrc. destruct (M !! va) as [[f b]|]; cbn; [by rewrite andb_true_r|done]. }
  split; [|done]. exists h, ps. cbn [l_entry l_start l_end]. destruct Ht as [Te Ts Td Tso Tdo]. rewrite Te in Eg. apply existsb_exists in Eg as (pe & Hpe%list_elem_of_In & Hent).
  rewrite andb_true_iff, Z.geb_leb, Z.leb_le, Z.ltb_lt in Hent.
  assert (∀ p, p ∈ loads ps → USER_IMAGE_MIN ≤ vaddr p < USER_IMAGE_TOP ∧ 0 ≤ memsz p ∧ page_of (vaddr p) < USER_IMAGE_TOP) as Hbd.
  { intros p Hp. rewrite Forall_forall in Hoks, Hv. destruct (good_bounds image p (Hoks p Hp) (Hv p Hp)) as (? & ? & ? & _). destruct (page_of_range (vaddr p)). lia. }
  split_and!; [done|done|done|done|exists pe; split; [done|lia]|auto|..].
  - destruct Tso as [Tso|]; [|done]. pose proof (Ts pe Hpe). pose proof (Hbd pe Hpe). lia.
  - destruct Tdo as [Tdo|]; [|done]. pose proof (Td pe Hpe). pose proof (Hbd pe Hpe). lia.
  - intros p a Hp Ha. apply (flagged_iff _ _ _ _ Hf). by eapply Hmp.
  - intros a. rewrite Hb', Hby. f_equal. by rewrite (bool_decide_ext (mapped M' a ∧ ¬ mapped M0 a) _ (and_iff_compat_r _ (flagged_iff _ _ _ a Hf))).
  - intros va f b HM' HM0 Hva. rewrite Hf in HM' by done. destruct (M !! va) as [[f0 y]|] eqn:EM; [|done]. cbn in HM'. injection HM' as <- <-.
    destruct (mp_new _ _ _ _ Hm _ _ EM HM0) as (_ & _ & Hy). cbn in Hy. subst y. cbn [andb].
    by destruct (read_covers (loads ps) va), (write_covers ps va).
Qed.

(** What is true of every call. *)
Lemma elf_load_ok image F M0 st : Forall is_byte image → uowns (env st) F M0 →
  ∃ st' r M, elf_load image st = Ok (st', r) ∧ uowns (env st') F M ∧ apart_from_image M0 M (bytes st) (bytes st') ∧
    match r with inl e => e = - ENOEXEC ∨ e = - ENOMEM | inr l => outcome_of image M0 (bytes st) st' M l end.
Proof.
  intros Hb Ho. unfold elf_load. assert (∃ st' r M, Ok (st, inl (- ENOEXEC)) = Ok (st', r) ∧ uowns (env st') F M ∧ apart_from_image M0 M (bytes st) (bytes st') ∧
    match r with inl e => e = - ENOEXEC ∨ e = - ENOMEM | inr l => outcome_of image M0 (bytes st) st' M l end) as Hbad.
  { exists st, (inl (- ENOEXEC)), M0. split_and!; [done|done|by split|by left]. }
  destruct (valid_header_ok image Hb) as [->|[-> (h & ps & Hh)]]; cbn [mbind outcome_bind negb]; [exact Hbad|].
  rewrite (hd_read _ _ _ Hh). cbn [mbind outcome_bind]. destruct (abi_version_ok image h ps Hb Hh) as (version & Hav). rewrite Hav. cbn [mbind outcome_bind].
  destruct (_ || _) eqn:Ev; [exact Hbad|]. apply orb_false_iff in Ev as [Ev1%Z.ltb_ge Ev2]. rewrite Z.gtb_ltb, Z.ltb_ge in Ev2. clear Hbad.
  destruct (load_from_ok image F M0 (bytes st) h ps Hh 0 st M0 (Progress false USER_IMAGE_TOP USER_IMAGE_MIN)) as (st1 & M1 & r & El & Hr).
  { split; [done|apply more_refl| |done|by intros p x Hp%not_elem_of_nil]. intros a. cbn. by rewrite bool_decide_false by tauto. }
  { split; [done|by intros p Hp%not_elem_of_nil|by intros p Hp%not_elem_of_nil|by left|by left]. }
  change (drop 0 ps) with ps in El. rewrite <- (hd_length _ _ _ Hh), Nat2Z.id. change (Z.of_nat 0) with 0 in El. rewrite El. cbn [mbind outcome_bind].
  destruct r as [e|g]; [destruct Hr as [He Hc]; exists st1, (inl e), M1; split_and!; [done|apply Hc|by eapply confined_apart|done]|].
  destruct Hr as [Hl Ht]. destruct (entry_loaded g) eqn:Eg; cbn [negb].
  - destruct (protect_ok image h ps F M0 (bytes st) st1 M1 g version Hb Hh Hl Ht Eg Hav (conj Ev1 Ev2)) as (st2 & M2 & -> & Ho2 & Hap & Hoc).
    cbn [mbind outcome_bind]. eexists st2, _, M2. split_and!; [done|done|done|exact Hoc].
  - exists st1, (inl (- ENOEXEC)), M1. split_and!; [done|apply Hl| |by left]. eapply confined_apart, loading_confined; [|done]. apply (filter_phdr_ok ps (hd_ok _ _ _ Hh)).
Qed.

(** C8: [elf_load] treats every image as untrusted: whatever bytes it is given
    it returns, never reads outside the image, never touches a page that is
    not mapped, keeps no frame it has not mapped, and changes no page or byte
    outside the part of user space that programs may occupy, on its error
    paths too. Its errors are the two documented. *)
Theorem elf_load_safe image F M0 st : Forall is_byte image → uowns (env st) F M0 →
  ∃ st' r M, elf_load image st = Ok (st', r) ∧ uowns (env st') F M ∧ apart_from_image M0 M (bytes st) (bytes st') ∧
    match r with inl e => e = - ENOEXEC ∨ e = - ENOMEM | inr _ => True end.
Proof. intros Hb Ho. destruct (elf_load_ok image F M0 st Hb Ho) as (st' & r & M & E1 & E2 & E3 & E4). exists st', r, M. by destruct r. Qed.

End memory.
