(* ===== verification/Sbrk.v ===== *)
(** * The heap of a process ([process_sbrk] of [zkt/kernel/process.c])

    The pages between a process's [brk_start] and its break, grown and shrunk
    over the calls of [UserPages]. Of [struct process] only the two fields it
    uses are here. *)
From S2P Require Import Prelude Pmm FrameMapper Paging Abi Elf ElfLoad.
Local Open Scope Z_scope.

Record process := Process { brk_start : Z; brk : Z }.

Definition page_up (addr : Z) : Z := Z.land (u32 (u32 (addr + PAGE_SIZE) - 1)) (not32 (PAGE_SIZE - 1)).

Section sbrk.
Context {E : Type} `{UserPages E}.

(** The loops that unmap [page] to [top] and free the frames; [frame] is what
    the variable of that name holds. *)
Fixpoint unmap_pages (fuel : nat) (st : umem E) (frame page top : Z) : outcome (umem E) :=
  if page <? top then
    match fuel with
    | O => NoFuel
    | S fuel =>
        '(r, e) ← up_unmap_page (env st) page;
        let frame := default frame r in
        e ← up_free_frame e frame;
        unmap_pages fuel (Umem e (bytes st)) frame (u32 (page + PAGE_SIZE)) top
    end
  else Ok st.

(** The loop that maps new pages from [page] on; on failure those from [top]
    on are taken back. *)
Fixpoint map_pages (fuel : nat) (st : umem E) (top page new_top : Z) : outcome (umem E * Z) :=
  if page <? new_top then
    match fuel with
    | O => NoFuel
    | S fuel =>
        let '(frame, e) := up_alloc_frame (env st) in
        '(rc, e) ← (if frame =? 0 then Ok (-1, e) else up_map_page e page frame (Z.lor VMM_WRITABLE VMM_USER));
        if negb (rc =? 0) then
          e ← (if frame =? 0 then Ok e else up_free_frame e frame);
          st ← unmap_pages (Z.to_nat (page / PAGE_SIZE)) (Umem e (bytes st)) frame top page;
          Ok (st, - ENOMEM)
        else
          st ← put_bytes (Umem e (bytes st)) page (replicate (Z.to_nat PAGE_SIZE) 0);
          map_pages fuel st top (u32 (page + PAGE_SIZE)) new_top
    end
  else Ok (st, 0).

(** [junk] is what the last loop's variable [frame] holds before it is set. *)
Definition process_sbrk (junk : Z) (st : umem E) (p : process) (increment : Z) : outcome (umem E * process * Z) :=
  let old := brk p in
  let target :=
    if 0 <=? increment then
      if u32 increment >? u32 (USER_IMAGE_TOP - old) then inl (- ENOMEM) else inr (u32 (old + u32 increment))
    else
      let decrement := u32 (0 - u32 increment) in
      if decrement >? u32 (old - brk_start p) then inl (- EINVAL) else inr (u32 (old - decrement)) in
  match target with
  | inl rc => Ok (st, p, rc)
  | inr new_brk =>
      let top := page_up old in
      let new_top := page_up new_brk in
      '(st, rc) ← map_pages (Z.to_nat (new_top / PAGE_SIZE)) st top top new_top;
      if negb (rc =? 0) then Ok (st, p, rc)
      else
        st ← unmap_pages (Z.to_nat (top / PAGE_SIZE)) st junk new_top top;
        Ok (st, Process (brk_start p) new_brk, signed 32 old)
  end.
End sbrk.

(** ** Page arithmetic *)

Lemma page_up_spec a : 0 ≤ a ≤ USER_IMAGE_TOP → page_up a mod PAGE_SIZE = 0 ∧ a ≤ page_up a < a + PAGE_SIZE ∧ page_up a ≤ USER_IMAGE_TOP.
Proof.
  intros Ha. unfold page_up. rewrite (u32_small (a + PAGE_SIZE)), (u32_small (_ - 1)) by (unfold PAGE_SIZE; lia).
  fold (page_down (a + PAGE_SIZE - 1)). rewrite page_down_of by (unfold PAGE_SIZE; lia). unfold page_of, PAGE_SIZE. dlia.
Qed.

(** Exactly the pages between [lo] and [hi] are mapped there. *)
Definition pages (M : gmap Z (Z * bool)) (lo hi : Z) : Prop := ∀ va, lo ≤ va < hi → is_Some (M !! va) ↔ va mod PAGE_SIZE = 0.

Definition cut (M : gmap Z (Z * bool)) (lo hi : Z) : gmap Z (Z * bool) := filter (λ x, ¬ (lo ≤ x.1 < hi)) M.

Lemma lookup_cut M lo hi va : cut M lo hi !! va = if decide (lo ≤ va < hi) then None else M !! va.
Proof.
  unfold cut. case_decide as Hd.
  - apply map_lookup_filter_None. right. intros x _. by auto.
  - destruct (M !! va) eqn:Em; [by apply map_lookup_filter_Some|]. apply map_lookup_filter_None. by left.
Qed.

Lemma cut_empty M lo hi : hi ≤ lo → cut M lo hi = M.
Proof. intros Hle. apply map_eq. intros va. rewrite lookup_cut. by rewrite decide_False by lia. Qed.

Lemma cut_first M page top : pages M page top → page mod PAGE_SIZE = 0 → page < top → cut (delete page M) (page + PAGE_SIZE) top = cut M page top.
Proof.
  intros Hp Ha Hlt. apply map_eq. intros va. rewrite !lookup_cut. destruct (decide (page ≤ va < top)) as [Hin|Hout].
  - case_decide as Hd; [done|]. destruct (decide (va = page)) as [->|Hne]; [by rewrite lookup_delete_eq|]. rewrite lookup_delete_ne by done.
    destruct (M !! va) eqn:Em; [|done]. assert (va mod PAGE_SIZE = 0) as Hva by (apply Hp; [done|by rewrite Em]). unfold PAGE_SIZE in *. exfalso. dlia.
  - rewrite decide_False by (unfold PAGE_SIZE; lia). rewrite lookup_delete_ne by lia. done.
Qed.

Lemma pages_delete M page top : pages M page top → pages (delete page M) (page + PAGE_SIZE) top.
Proof. intros Hp va Hva. rewrite lookup_delete_ne by (unfold PAGE_SIZE in *; lia). apply Hp. unfold PAGE_SIZE in *. lia. Qed.

Section laws.
Context {E : Type} `{UserPagesLaws E}.
Implicit Types (st : umem E) (F : gset Z) (M : gmap Z (Z * bool)).

Lemma unmap_pages_ok fuel st F M frame page top : uowns (env st) F M → page mod PAGE_SIZE = 0 → top mod PAGE_SIZE = 0 → 0 ≤ page → top ≤ USER_IMAGE_TOP →
  top / PAGE_SIZE - page / PAGE_SIZE ≤ Z.of_nat fuel → pages M page top →
  ∃ e, unmap_pages fuel st frame page top = Ok (Umem e (bytes st)) ∧ uowns e F (cut M page top).
Proof.
  revert st M frame page. induction fuel as [|fuel IH]; intros st M frame page Ho Hap Hat Hp Ht Hf Hpg; cbn [unmap_pages];
    destruct (Z.ltb_spec page top) as [Hlt|Hge].
  1: unfold PAGE_SIZE in *; dlia.
  1, 3: exists (env st); split; [by destruct st|by rewrite cut_empty by lia].
  destruct (proj2 (Hpg page ltac:(lia)) Hap) as [[f b] Hm]. destruct (u_unmap _ _ _ _ _ _ Ho Hm) as (e & -> & Hnin & Ho1). cbn [mbind outcome_bind from_option id]. cbv zeta.
  destruct (u_free _ _ _ f Ho1) as (e1 & -> & Ho2); [set_solver|]. cbn [mbind outcome_bind]. replace (({[f]} ∪ F) ∖ {[f]}) with F in Ho2 by set_solver.
  rewrite u32_small by (unfold PAGE_SIZE in *; lia).
  destruct (IH (Umem e1 (bytes st)) (delete page M) f (page + PAGE_SIZE)) as (e2 & E2 & Ho3);
    [done|unfold PAGE_SIZE in *; dlia|done|unfold PAGE_SIZE in *; lia|done|unfold PAGE_SIZE in *; dlia|by apply pages_delete|].
  exists e2. split; [done|]. by rewrite <- cut_first.
Qed.
(** [M1] is [M] with the pages from [lo] to [hi] added, which the caller may
    write. *)
Record grown (M M1 : gmap Z (Z * bool)) (lo hi : Z) : Prop := {
  gr_same va : ¬ (lo ≤ va < hi) → M1 !! va = M !! va;
  gr_pages : pages M1 lo hi;
  gr_writable va f b : lo ≤ va < hi → M1 !! va = Some (f, b) → b = true
}.

Lemma grown_add M M1 lo page f : grown M M1 lo page → lo ≤ page → page mod PAGE_SIZE = 0 → (∀ va, page ≤ va → va < page + PAGE_SIZE → M !! va = None) →
  grown M (<[page := (f, true)]> M1) lo (page + PAGE_SIZE).
Proof.
  intros [Hs Hp Hw] Hlo Ha Hn. split.
  - intros va Hva. rewrite lookup_insert_ne by (unfold PAGE_SIZE in *; lia). apply Hs. unfold PAGE_SIZE in *; lia.
  - intros va Hva. destruct (decide (va = page)) as [->|Hne]; [rewrite lookup_insert_eq; split; [done|by eexists]|]. rewrite lookup_insert_ne by done.
    destruct (Z_lt_ge_dec va page); [apply Hp; lia|]. rewrite Hs, Hn by lia. split; [by intros [? ?]|]. unfold PAGE_SIZE in *. intros. exfalso. dlia.
  - intros va g b Hva. rewrite lookup_insert_Some. intros [[<- [= _ <-]]|[Hne Hg]]; [done|]. destruct (Z_lt_ge_dec va page); [eapply Hw; [|done]; lia|].
    rewrite Hs, Hn in Hg by lia. done.
Qed.

Lemma grown_cut M M1 lo hi : grown M M1 lo hi → (∀ va, lo ≤ va < hi → M !! va = None) → cut M1 lo hi = M.
Proof. intros [Hs _ _] Hn. apply map_eq. intros va. rewrite lookup_cut. case_decide; [by rewrite Hn|by apply Hs]. Qed.

(** Bytes from [lo] to [hi] are zero, the others what they were. *)
Definition zeros (b b' : Z → Z) (lo hi : Z) : Prop := ∀ x, b' x = if bool_decide (lo ≤ x < hi) then 0 else b x.

Lemma map_pages_ok fuel st st0 F M M1 top page new_top : uowns (env st) F M1 → grown M M1 top page → zeros (bytes st0) (bytes st) top page →
  top mod PAGE_SIZE = 0 → page mod PAGE_SIZE = 0 → new_top mod PAGE_SIZE = 0 → 0 ≤ top ≤ page → new_top ≤ USER_IMAGE_TOP → (page ≤ new_top) →
  (∀ va, top ≤ va < new_top → M !! va = None) → new_top / PAGE_SIZE - page / PAGE_SIZE ≤ Z.of_nat fuel →
  ∃ st' rc M', map_pages fuel st top page new_top = Ok (st', rc) ∧ uowns (env st') F M' ∧
    (rc = 0 ∧ grown M M' top new_top ∧ zeros (bytes st0) (bytes st') top new_top ∨
     rc = - ENOMEM ∧ page < new_top ∧ M' = M ∧ ∀ x, ¬ (top ≤ x < new_top) → bytes st' x = bytes st0 x).
Proof.
  revert st M1 page. induction fuel as [|fuel IH]; intros st M1 page Ho Hg Hz Hat Hap Han Hp Hn Hle Hfree Hf; cbn [map_pages]; destruct (Z.ltb_spec page new_top) as [Hlt|Hge].
  1: unfold PAGE_SIZE in *; dlia.
  1, 3: assert (page = new_top) as -> by lia; exists st, 0, M1; split_and!; [done|done|by left].
  (* taking back what was mapped *)
  assert (∀ e frame, uowns e F M1 → ∃ st' rc M', (st ← unmap_pages (Z.to_nat (page / PAGE_SIZE)) (Umem e (bytes st)) frame top page; Ok (st, - ENOMEM)) = Ok (st', rc) ∧
    uowns (env st') F M' ∧ (rc = 0 ∧ grown M M' top new_top ∧ zeros (bytes st0) (bytes st') top new_top ∨
     rc = - ENOMEM ∧ page < new_top ∧ M' = M ∧ ∀ x, ¬ (top ≤ x < new_top) → bytes st' x = bytes st0 x)) as Hundo.
  { intros e frame He. destruct (unmap_pages_ok (Z.to_nat (page / PAGE_SIZE)) (Umem e (bytes st)) F M1 frame top page) as (e1 & -> & Ho1);
      [done|done|done|lia|lia|unfold PAGE_SIZE in *; dlia|apply Hg|]. cbn [mbind outcome_bind]. rewrite (grown_cut M M1) in Ho1 by (done || (intros; apply Hfree; lia)).
    eexists _, _, M. split; [done|]. split; [done|]. right. split_and!; [done|done|done|]. intros x Hx. cbn [bytes]. rewrite Hz. by rewrite bool_decide_false by lia. }
  destruct (u_alloc _ _ _ Ho) as (frame & e1 & -> & [[-> Ho1]|(Hf0 & Hnin & Ho1)]).
  { cbn [Z.eqb mbind outcome_bind negb]. by apply Hundo. }
  rewrite (proj2 (Z.eqb_neq frame 0)) by done. assert (({[frame]} ∪ F) ∖ {[frame]} = F) as HF by set_solver.
  assert (M1 !! page = None) as Hnone by (rewrite (gr_same _ _ _ _ Hg) by lia; apply Hfree; lia).
  destruct (u_map _ _ _ page frame Ho1) as (rc & e2 & -> & Hmap); [set_solver|split; [done|unfold KERNEL_VIRT_BASE; lia]|done|]. cbn [mbind outcome_bind].
  destruct Hmap as [[-> Ho2]|[Hrc Ho2]]; cbn [Z.eqb negb].
  2:{ rewrite (proj2 (Z.eqb_neq rc 0)) by done. cbn [negb]. destruct (u_free _ _ _ frame Ho2) as (e3 & -> & Ho3); [set_solver|]. rewrite HF in Ho3. cbn [mbind outcome_bind]. by apply Hundo. }
  rewrite HF in Ho2. assert (page + PAGE_SIZE ≤ new_top) as Hstep by (unfold PAGE_SIZE in *; dlia).
  destruct (put_bytes_ok (Umem e2 (bytes st)) F (<[page := (frame, true)]> M1) page (replicate (Z.to_nat PAGE_SIZE) 0)) as (b & -> & Hb); [done|lia| | |].
  { rewrite length_replicate. unfold PAGE_SIZE, KERNEL_VIRT_BASE in *. lia. }
  { intros x Hx. rewrite length_replicate in Hx. unfold mapped. rewrite (page_of_unique page x); [|done|unfold PAGE_SIZE in *; lia]. rewrite lookup_insert_eq. by eexists. }
  cbn [mbind outcome_bind env]. rewrite u32_small by (unfold PAGE_SIZE in *; lia).
  destruct (IH (Umem e2 b) (<[page := (frame, true)]> M1) (page + PAGE_SIZE)) as (st' & rc & M' & -> & Ho' & Hcase);
    [done|apply grown_add; [done|lia|done|intros; apply Hfree; lia]| |done|unfold PAGE_SIZE in *; dlia|done|unfold PAGE_SIZE in *; lia|done|done|done|unfold PAGE_SIZE in *; dlia|].
  { intros x. cbn [bytes] in *. rewrite Hb, length_replicate, Hz. repeat case_bool_decide; destruct (Z.leb_spec page x), (Z.ltb_spec x (page + Z.of_nat (Z.to_nat PAGE_SIZE)));
      cbn [andb]; try (unfold PAGE_SIZE in *; lia); try done; unfold aget; rewrite (proj2 (Z.ltb_ge _ 0)) by lia; by rewrite lookup_replicate_2 by lia. }
  exists st', rc, M'. split_and!; [done|done|]. destruct Hcase as [Hok|(-> & _ & -> & Hx)]; [by left|right]. by split_and!.
Qed.
(** The heap of [p]: from [brk_start] to the break it is mapped and can be
    written, and nothing is mapped behind it. *)
Record heap_of (p : process) M : Prop := {
  ho_bounds : 0 < brk_start p ≤ brk p ∧ brk p ≤ USER_IMAGE_TOP;
  ho_start : brk_start p mod PAGE_SIZE = 0;
  ho_pages : pages M (brk_start p) (page_up (brk p));
  ho_writable va f b : brk_start p ≤ va < page_up (brk p) → M !! va = Some (f, b) → b = true;
  ho_free va : page_up (brk p) ≤ va < USER_IMAGE_TOP → M !! va = None
}.

(** A break moved from [top] to [new_top], both rounded up. *)
Record moved M M' (b b' : Z → Z) (top new_top : Z) : Prop := {
  mv_same va : ¬ (Z.min top new_top ≤ va < Z.max top new_top) → M' !! va = M !! va;
  mv_zeros : zeros b b' top new_top
}.

Lemma grown_heap p M M' new : heap_of p M → brk p ≤ new ≤ USER_IMAGE_TOP → grown M M' (page_up (brk p)) (page_up new) → heap_of (Process (brk_start p) new) M'.
Proof.
  intros [Hb Hs Hp Hw Hf] Hn [Gs Gp Gw]. pose proof (page_up_spec (brk p) ltac:(lia)) as (? & ? & ?). pose proof (page_up_spec new ltac:(lia)) as (? & ? & ?).
  split; cbn [brk_start brk]; [lia|done| | |].
  - intros va Hva. destruct (Z_lt_ge_dec va (page_up (brk p))); [rewrite Gs by lia; apply Hp; lia|apply Gp; lia].
  - intros va f b Hva. destruct (Z_lt_ge_dec va (page_up (brk p))); [rewrite Gs by lia; apply Hw; lia|apply Gw; lia].
  - intros va Hva. destruct (Z_lt_ge_dec (page_up new) (page_up (brk p))); [unfold PAGE_SIZE in *; dlia|]. rewrite Gs by lia. apply Hf. lia.
Qed.

Lemma shrunk_heap p M new : heap_of p M → brk_start p ≤ new ≤ brk p → heap_of (Process (brk_start p) new) (cut M (page_up new) (page_up (brk p))).
Proof.
  intros [Hb Hs Hp Hw Hf] Hn. pose proof (page_up_spec (brk p) ltac:(lia)) as (? & ? & ?). pose proof (page_up_spec new ltac:(lia)) as (? & ? & ?).
  assert (page_up new ≤ page_up (brk p)) by (unfold PAGE_SIZE in *; dlia).
  split; cbn [brk_start brk]; [lia|done| | |]; intros va; intros; rewrite ?lookup_cut in *.
  - rewrite decide_False by lia. apply Hp. lia.
  - rewrite decide_False in * by lia. eapply Hw; [|done]. lia.
  - case_decide; [done|]. apply Hf. lia.
Qed.

(** What [process_sbrk] has done. *)
Definition sbrk_effect st M p (increment : Z) st' p' (r : Z) M' : Prop :=
  if decide (brk_start p ≤ brk p + increment ≤ USER_IMAGE_TOP) then
    r = signed 32 (brk p) ∧ p' = Process (brk_start p) (brk p + increment) ∧ moved M M' (bytes st) (bytes st') (page_up (brk p)) (page_up (brk p + increment)) ∨
    0 < increment ∧ r = - ENOMEM ∧ p' = p ∧ M' = M ∧ ∀ x, mapped M x → bytes st' x = bytes st x
  else r = (if 0 <=? increment then - ENOMEM else - EINVAL) ∧ st' = st ∧ p' = p ∧ M' = M.

Lemma process_sbrk_ok junk st F M p increment : uowns (env st) F M → heap_of p M → - 2 ^ 31 ≤ increment < 2 ^ 31 →
  ∃ st' p' r M', process_sbrk junk st p increment = Ok (st', p', r) ∧ uowns (env st') F M' ∧ heap_of p' M' ∧ sbrk_effect st M p increment st' p' r M'.
Proof.
  intros Ho Hh Hi. pose proof (ho_bounds _ _ Hh) as Hb. unfold process_sbrk, sbrk_effect.
  assert ((if 0 <=? increment then if u32 increment >? u32 (USER_IMAGE_TOP - brk p) then inl (- ENOMEM) else inr (u32 (brk p + u32 increment))
     else if u32 (0 - u32 increment) >? u32 (brk p - brk_start p) then inl (- EINVAL) else inr (u32 (brk p - u32 (0 - u32 increment)))) =
    if decide (brk_start p ≤ brk p + increment ≤ USER_IMAGE_TOP) then inr (brk p + increment) else inl (if 0 <=? increment then - ENOMEM else - EINVAL)) as ->.
  { destruct (Z.leb_spec 0 increment).
    - rewrite (u32_small increment), (u32_small (_ - _)) by lia. rewrite Z.gtb_ltb. destruct (Z.ltb_spec (USER_IMAGE_TOP - brk p) increment); case_decide; try lia; [done|].
      by rewrite u32_small by lia.
    - assert (u32 (0 - u32 increment) = - increment) as -> by (unfold u32; dlia). rewrite (u32_small (brk p - brk_start p)), Z.gtb_ltb by lia.
      destruct (Z.ltb_spec (brk p - brk_start p) (- increment)); case_decide; try lia; [done|]. rewrite u32_small by lia. do 2 f_equal. lia. }
  case_decide as Hr; [|by eexists st, p, _, M].
  pose proof (page_up_spec (brk p) ltac:(lia)) as (Ha & Hu & Ht). pose proof (page_up_spec (brk p + increment) ltac:(lia)) as (Ha' & Hu' & Ht').
  set (top := page_up (brk p)) in *. set (new := page_up (brk p + increment)) in *. destruct (Z_lt_ge_dec 0 increment) as [Hpos|Hneg].
  - assert (top ≤ new) as Hle by (unfold PAGE_SIZE in *; dlia).
    destruct (map_pages_ok (Z.to_nat (new / PAGE_SIZE)) st st F M M top top new) as (st1 & rc & M1 & -> & Ho1 & Hc);
      [done|split; [done|intros va ?; lia|intros va f b ?; lia]|intros x; by rewrite bool_decide_false by lia|done|done|done|lia|done|done| |unfold PAGE_SIZE in *; dlia|].
    { intros va Hva. apply (ho_free _ _ Hh). lia. }
    cbn [mbind outcome_bind]. destruct Hc as [(-> & Hg & Hz)|(-> & _ & -> & Hx)]; cbn [Z.eqb Z.opp negb].
    + assert (unmap_pages (Z.to_nat (top / PAGE_SIZE)) st1 junk new top = Ok st1) as ->.
      { destruct (Z.to_nat (top / PAGE_SIZE)); cbn [unmap_pages]; by rewrite (proj2 (Z.ltb_ge _ _)) by lia. }
      cbn [mbind outcome_bind]. eexists st1, _, _, M1. split_and!; [done|done|by apply (grown_heap p M); [|lia|]|left]. split_and!; [done|done|].
      split; [|done]. intros va Hva. apply (gr_same _ _ _ _ Hg). lia.
    + eexists st1, p, _, M. split_and!; [done|done|done|right]. split_and!; [done|done|done|done|]. intros x [y Hy]. apply Hx. intros Hin.
      destruct (page_of_range x). rewrite (ho_free _ _ Hh) in Hy; [done|]. fold top. unfold PAGE_SIZE in *. unfold page_of, PAGE_SIZE in *. dlia.
  - assert (new ≤ top) as Hle by (unfold PAGE_SIZE in *; dlia).
    assert (map_pages (Z.to_nat (new / PAGE_SIZE)) st top top new = Ok (st, 0)) as ->.
    { destruct (Z.to_nat (new / PAGE_SIZE)); cbn [map_pages]; by rewrite (proj2 (Z.ltb_ge _ _)) by lia. }
    cbn [mbind outcome_bind Z.eqb negb].
    destruct (unmap_pages_ok (Z.to_nat (top / PAGE_SIZE)) st F M junk new top) as (e & -> & Ho1); [done|done|done|lia|done|unfold PAGE_SIZE in *; dlia| |].
    { intros va Hva. apply (ho_pages _ _ Hh). fold top. pose proof (ho_start _ _ Hh). unfold PAGE_SIZE in *. lia. }
    cbn [mbind outcome_bind]. eexists _, _, _, (cut M new top). split_and!; [done|done|by apply shrunk_heap; [|lia]|left]. split_and!; [done|done|]. split.
    + intros va Hva. rewrite lookup_cut. by rewrite decide_False by lia.
    + intros x. cbn [bytes]. by rewrite bool_decide_false by lia.
Qed.

(** C15: [process_sbrk] on every increment. A break that would leave the heap's
    range is refused with [ENOMEM] or [EINVAL] and nothing changes. Otherwise
    the break moves and its old value is returned: pages between the old and
    the new break are mapped, zero, or unmapped and their frames freed, the
    other pages and bytes stay, and the heap is again exactly what is mapped
    up to the break. Only growing can fail, when frames or page tables run
    out; then every page and frame taken is given back. *)
Theorem process_sbrk_correct junk st F M p increment : uowns (env st) F M → heap_of p M → - 2 ^ 31 ≤ increment < 2 ^ 31 →
  ∃ st' p' r M', process_sbrk junk st p increment = Ok (st', p', r) ∧ uowns (env st') F M' ∧ heap_of p' M' ∧ sbrk_effect st M p increment st' p' r M'.
Proof. apply process_sbrk_ok. Qed.
End laws.
