(* ===== verification/ElfOnPaging.v ===== *)
(** * User memory on the page tables

    The model of [paging.c] over [pmm.c] keeps the contract the loader and
    [process_sbrk] are verified against, so their theorems hold on it. *)
From S2P Require Import Prelude Pmm FrameMapper Paging Abi Elf ElfLoad Sbrk.
Local Open Scope Z_scope.

#[export] Instance paging_user : UserPages machine := {
  up_translate := vmm_translate;
  up_alloc_frame := fm_alloc_frame;
  up_map_page := vmm_map_page;
  up_unmap_page := vmm_unmap_page;
  up_free_frame := fm_free_frame;
  up_set_writable := vmm_set_writable
}.

(** The entry of a mapped page: present, user, and writable or not. *)
Definition user_bits (b : bool) : Z := if b then 7 else 5.

Record machine_uowns (st : machine) (F : gset Z) (M : gmap Z (Z * bool)) : Prop := {
  mu_frames : ∃ G, machine_owns st G ∅ ∧ F ⊆ G ∧ ∀ va f b, M !! va = Some (f, b) → f ∈ G ∧ f ∉ F;
  mu_page va y : M !! va = Some y → user_page va;
  mu_entry va : user_page va → match M !! va with Some (f, b) => entry_at st va = f + user_bits b | None => present (entry_at st va) = false end;
  mu_inj va va' f b b' : M !! va = Some (f, b) → M !! va' = Some (f, b') → va = va'
}.

Lemma user_page_range va : user_page va → 0 ≤ va < KERNEL_PT_AREA_START.
Proof. intros [_ ?]. unfold KERNEL_VIRT_BASE in *. lia. Qed.

(** What holding a set of frames comes to. *)
Lemma owns_frames st G : machine_owns st G ∅ ↔ ∃ tag, paging_wf tag st ∧ ∀ f, f ∈ G → frame_ok tag st f.
Proof.
  split.
  - intros [(tag & Hwf & HG & _) _ _ _]. eauto.
  - intros (tag & Hwf & HG). constructor; try (intros; by rewrite lookup_empty in * ). exists tag. split_and!; [done|done|]. intros va f. by rewrite lookup_empty.
Qed.

Lemma uowns_wf st F M : machine_uowns st F M → ∃ tag, paging_wf tag st.
Proof. intros [(G & HG & _) _ _ _]. apply owns_frames in HG as (tag & Hwf & _). eauto. Qed.

Lemma machine_uframe st F M va f b : machine_uowns st F M → M !! va = Some (f, b) → f mod PAGE_SIZE = 0 ∧ 0 < f < 2 ^ 32.
Proof.
  intros [(G & HG & _ & HM) _ _ _] Hva. apply owns_frames in HG as (tag & _ & HG). destruct (HM _ _ _ Hva) as [Hin _]. destruct (HG f Hin) as (? & ? & _). done.
Qed.

Lemma user_present f b : f mod PAGE_SIZE = 0 → present (f + user_bits b) = true.
Proof. intros Hf. apply present_add; [done|by destruct b]. Qed.

Lemma user_frame f b : f mod PAGE_SIZE = 0 → 0 ≤ f < 2 ^ 32 → frame_of (f + user_bits b) = f.
Proof. intros. apply frame_of_add; [done|done|destruct b; cbn; lia]. Qed.

Lemma machine_utranslate st F M va : machine_uowns st F M → user_page va → vmm_translate st va = Ok (fst <$> M !! va).
Proof.
  intros Ho Hp. destruct (uowns_wf _ _ _ Ho) as (tag & Hwf). pose proof (user_page_range va Hp) as Hr. destruct (page_indices va Hr) as [Hi Hj].
  destruct (pte_of_spec tag st va Hwf Hr) as [Hpte Hpd]. fold (entry_at st va) in Hpte, Hpd. unfold vmm_translate. rewrite Hpte. cbn [mbind outcome_bind].
  pose proof (mu_entry _ _ _ Ho va Hp) as He. destruct (M !! va) as [[f b]|] eqn:Em; [|by rewrite He].
  destruct (machine_uframe _ _ _ _ _ _ Ho Em) as [Hal Hf]. rewrite He, user_present in * by done. specialize (Hpd eq_refl).
  rewrite page_table_nonzero, (vload_pt tag st Hwf) by (done || lia). cbn [mbind outcome_bind fmap option_fmap option_map fst]. fold (entry_at st va). rewrite He.
  fold (frame_of (f + user_bits b)). rewrite user_frame by (done || lia). destruct Hp as [Hva _]. do 2 f_equal. change (PAGE_SIZE - 1) with (2 ^ 12 - 1).
  rewrite land_ones_mod by done. change (2 ^ 12) with PAGE_SIZE. by rewrite Hva, Z.lor_0_r.
Qed.

Lemma machine_ualloc st F M : machine_uowns st F M → ∃ f st', fm_alloc_frame st = (f, st') ∧
  (f = 0 ∧ machine_uowns st' F M ∨ f ≠ 0 ∧ (f ∉ F) ∧ machine_uowns st' ({[f]} ∪ F) M).
Proof.
  intros [(G & HG & HF & HM) Hpg Hen Hin]. destruct (machine_alloc st G ∅ HG) as (f & st' & Ea & Hcase). exists f, st'. split; [done|].
  assert (∀ va, entry_at st' va = entry_at st va) as Hsame.
  { cbn [fm_alloc_frame paging_mapper] in Ea. destruct (pmm_alloc_frame (frames st)). by injection Ea as _ <-. }
  destruct Hcase as [[-> HG']|(Hf0 & Hnin & HG')]; [left|right].
  - split; [done|]. constructor; [by exists G|done| |done]. intros va Hva. rewrite Hsame. by apply Hen.
  - split; [done|]. split; [set_solver|]. constructor; [|done| |done].
    + exists ({[f]} ∪ G). split_and!; [done|set_solver|]. intros va g b Hg. destruct (HM _ _ _ Hg). set_solver.
    + intros va Hva. rewrite Hsame. by apply Hen.
Qed.

Lemma machine_ufree st F M f : machine_uowns st F M → f ∈ F → ∃ st', fm_free_frame st f = Ok st' ∧ machine_uowns st' (F ∖ {[f]}) M.
Proof.
  intros [(G & HG & HF & HM) Hpg Hen Hin] Hf. destruct (machine_free st G ∅ f HG) as (st' & Ef & HG'); [set_solver|]. exists st'. split; [done|].
  assert (∀ va, entry_at st' va = entry_at st va) as Hsame.
  { cbn [fm_free_frame paging_mapper] in Ef. destruct (pmm_free_frame (frames st) f); [|done|done]. by injection Ef as <-. }
  constructor; [|done| |done].
  - exists (G ∖ {[f]}). split_and!; [done|set_solver|]. intros va g b Hg. destruct (HM _ _ _ Hg). set_solver.
  - intros va Hva. rewrite Hsame. by apply Hen.
Qed.

(** One entry changed. *)
Lemma user_entry_update st st' virt w va : apd st' = apd st → apd st ∈ dirs st → user_page virt → user_page va →
  view_update st (mem st') (apd st) (pd_index_of virt) (pt_index_of virt) w →
  entry_at st' va = if decide (va = virt) then w else entry_at st va.
Proof.
  intros Hapd HA Hvirt Hva Hupd. unfold entry_at. rewrite Hapd. destruct (page_indices va (user_page_range va Hva)) as [Hi Hj]. rewrite Hupd by done.
  case_decide as Hd; [subst va; by rewrite bool_decide_eq_true_2 by auto|]. rewrite bool_decide_eq_false_2; [done|]. intros (Ei & Ej & _). apply Hd.
  rewrite !pd_index_div in Ei. rewrite !pt_index_mod in Ej. destruct Hva as [? _], Hvirt as [? _]. unfold PAGE_SIZE in *. dlia.
Qed.

Lemma machine_umap st F M va f : machine_uowns st F M → f ∈ F → user_page va → M !! va = None →
  ∃ rc st', vmm_map_page st va f (Z.lor VMM_WRITABLE VMM_USER) = Ok (rc, st') ∧
    (rc = 0 ∧ machine_uowns st' (F ∖ {[f]}) (<[va := (f, true)]> M) ∨ rc ≠ 0 ∧ machine_uowns st' F M).
Proof.
  intros [(G & HG & HF & HM) Hpg Hen Hin] Hf Hva Hnone. apply owns_frames in HG as (tag & Hwf & HG).
  destruct (HG f (HF f Hf)) as (Hal & Hr & _).
  destruct (map_page_step tag st va f (Z.lor VMM_WRITABLE VMM_USER) Hwf (user_page_range va Hva) ltac:(lia)) as (rc & st' & tag' & Em & Hwf' & Hsp & Hgrow & Hcase).
  exists rc, st'. split; [done|]. pose proof (pw_active _ _ Hwf) as HA.
  assert (apd st' = apd st) as Hapd by (destruct Hsp as (_ & Ha & _); unfold apd; by rewrite Ha).
  assert (machine_owns st' G ∅) as HG' by (apply owns_frames; exists tag'; split; [done|]; intros g Hg; by eapply grow_frame_ok, HG).
  destruct Hcase as [(-> & _ & _ & Hupd)|(-> & Hsame & _)].
  - left. split; [done|]. constructor.
    + exists G. split_and!; [done|set_solver|]. intros va' g b [[_ Hg]|[_ Hg]]%lookup_insert_Some; [injection Hg as <- <-; set_solver|]. destruct (HM _ _ _ Hg). set_solver.
    + intros va' y [[<- _]|[_ Hy]]%lookup_insert_Some; [done|by eapply Hpg].
    + intros va' Hva'. rewrite (user_entry_update st st' va _ va' Hapd HA Hva Hva' Hupd). case_decide as Hd; [subst va'; by rewrite lookup_insert_eq|].
      rewrite lookup_insert_ne by done. by apply Hen.
    + intros va1 va2 g b1 b2. rewrite !lookup_insert_Some. intros [[<- H1]|[? H1]] [[<- H2]|[? H2]]; try done; [injection H1 as <- <-|injection H2 as <- <-|].
      * by destruct (HM _ _ _ H2) as [_ []].
      * by destruct (HM _ _ _ H1) as [_ []].
      * by eapply Hin.
  - right. split; [done|]. constructor; [by exists G|done| |done]. intros va' Hva'. specialize (Hen va' Hva').
    assert (entry_at st' va' = entry_at st va') as -> by (unfold entry_at; rewrite Hapd, Hsame; [done|done|by apply page_indices, user_page_range..]). done.
Qed.

Lemma machine_uunmap st F M va f b : machine_uowns st F M → M !! va = Some (f, b) →
  ∃ st', vmm_unmap_page st va = Ok (Some f, st') ∧ (f ∉ F) ∧ machine_uowns st' ({[f]} ∪ F) (delete va M).
Proof.
  intros Ho Hva. pose proof Ho as [(G & HG & HF & HM) Hpg Hen Hin]. pose proof (Hpg _ _ Hva) as Hp. destruct (machine_uframe _ _ _ _ _ _ Ho Hva) as [Hal Hf].
  apply owns_frames in HG as (tag & Hwf & HG). pose proof (unmap_page_step tag st va Hwf (user_page_range va Hp)) as Hstep. cbv zeta in Hstep.
  fold (entry_at st va) in Hstep. pose proof (Hen va Hp) as He. rewrite Hva in He. rewrite He, user_present, user_frame in Hstep by (done || lia).
  destruct Hstep as (m' & Eu & Hwf' & Hupd). exists (set_mem st m'). split; [done|]. destruct (HM _ _ _ Hva) as [HfG HfF]. split; [done|].
  pose proof (pw_active _ _ Hwf) as HA. constructor.
  - exists G. split_and!; [apply owns_frames; by exists tag|set_solver|]. intros va' g c [Hne Hg]%lookup_delete_Some. destruct (HM _ _ _ Hg) as [? ?].
    split; [done|]. intros [->%elem_of_singleton|?]%elem_of_union; [|done]. by apply Hne, (Hin _ _ _ _ _ Hva Hg).
  - intros va' y [_ Hy]%lookup_delete_Some. by eapply Hpg.
  - intros va' Hva'. rewrite (user_entry_update st (set_mem st m') va _ va' eq_refl HA Hp Hva' Hupd). destruct (decide (va' = va)) as [->|Hd]; [by rewrite lookup_delete_eq|].
    rewrite lookup_delete_ne by done. by apply Hen.
  - intros va1 va2 g b1 b2 [_ H1]%lookup_delete_Some [_ H2]%lookup_delete_Some. by eapply Hin.
Qed.

Lemma set_bits f (b b' : bool) : f mod PAGE_SIZE = 0 → 0 ≤ f < 2 ^ 32 →
  (if b' then Z.lor (f + user_bits b) PTE_WRITABLE else Z.land (f + user_bits b) (not32 PTE_WRITABLE)) = f + user_bits b'.
Proof.
  intros Hal Hf. rewrite <- (frame_lor f (user_bits b)), <- (frame_lor f (user_bits b')) by (done || (destruct b; cbn; lia) || (destruct b'; cbn; lia)).
  destruct b'; [rewrite <- Z.lor_assoc; by destruct b|]. rewrite Z.land_lor_distr_l. f_equal; [|by destruct b].
  apply (bits_eq 32); [by apply land_range_l|lia|]. intros i Hi. rewrite Z.land_spec, not32_testbit by lia.
  destruct (decide (i = 1)) as [->|Hne]; [|change PTE_WRITABLE with (2 ^ 1); rewrite Z.pow2_bits_false by lia; apply andb_true_r].
  rewrite <- (Z.mod_pow2_bits_low f 12 1) by lia. change (2 ^ 12) with PAGE_SIZE. by rewrite Hal.
Qed.

Lemma machine_uset st F M va f b b' : machine_uowns st F M → M !! va = Some (f, b) →
  ∃ st', vmm_set_writable st va b' = Ok (0, st') ∧ machine_uowns st' F (<[va := (f, b')]> M).
Proof.
  intros Ho Hva. pose proof Ho as [(G & HG & HF & HM) Hpg Hen Hin]. pose proof (Hpg _ _ Hva) as Hp. destruct (machine_uframe _ _ _ _ _ _ Ho Hva) as [Hal Hf].
  apply owns_frames in HG as (tag & Hwf & HG). pose proof (user_page_range va Hp) as Hr. destruct (page_indices va Hr) as [Hi Hj].
  destruct (pte_of_spec tag st va Hwf Hr) as [Hpte Hpd]. fold (entry_at st va) in Hpte, Hpd. pose proof (Hen va Hp) as He. rewrite Hva in He.
  unfold vmm_set_writable. rewrite Hpte. cbn [mbind outcome_bind]. rewrite He, user_present in * by done. specialize (Hpd eq_refl).
  rewrite (proj2 (Z.eqb_neq (pd_index_of va) _)) by (lia). rewrite page_table_nonzero by lia. cbn [negb andb].
  rewrite (vload_pt tag st Hwf) by (done || lia). cbn [mbind outcome_bind]. fold (entry_at st va). rewrite He, set_bits by (done || lia).
  rewrite (vstore_pt tag st Hwf) by (done || lia). cbn [mbind outcome_bind]. eexists. split; [done|]. pose proof (pw_active _ _ Hwf) as HA.
  assert (0 ≤ f + user_bits b' < 2 ^ 32) as Hw by (unfold PAGE_SIZE in *; destruct b'; cbn; dlia).
  destruct (set_entry tag st Hwf (apd st) (pd_index_of va) (pt_index_of va) (f + user_bits b') HA Hi Hpd Hj Hw) as [Hwf' Hupd]. set (st' := set_mem st _).
  constructor.
  - exists G. split_and!; [apply owns_frames; by exists tag|done|]. intros va' g c [[_ Hg]|[_ Hg]]%lookup_insert_Some; [injection Hg as <- <-; by eapply HM|by eapply HM].
  - intros va' y [[<- _]|[_ Hy]]%lookup_insert_Some; [done|by eapply Hpg].
  - intros va' Hva'. rewrite (user_entry_update st st' va _ va' eq_refl HA Hp Hva' Hupd). destruct (decide (va' = va)) as [->|Hd]; [by rewrite lookup_insert_eq|].
    rewrite lookup_insert_ne by done. by apply Hen.
  - intros va1 va2 g b1 b2. rewrite !lookup_insert_Some. intros [[<- H1]|[? H1]] [[<- H2]|[? H2]]; try done; [injection H1 as <- <-|injection H2 as <- <-|]; by eapply Hin.
Qed.

#[export] Instance paging_user_laws : UserPagesLaws machine := {
  uowns := machine_uowns;
  u_apart e F M va va' f b b' H := mu_inj e F M H va va' f b b';
  u_translate := machine_utranslate;
  u_alloc := machine_ualloc;
  u_map := machine_umap;
  u_unmap := machine_uunmap;
  u_free := machine_ufree;
  u_set := machine_uset
}.

(** ** An example

    A program of one read-only segment of four bytes, six in memory, and a
    note. *)
Definition le32_bytes (x : Z) : list Z := [x mod 256; x / 256 mod 256; x / 65536 mod 256; x / 16777216 mod 256].

Definition example_image : list Z :=
  [0x7f; 69; 76; 70; 1; 1; 1; 0; 0; 0; 0; 0; 0; 0; 0; 0; 2; 0; 3; 0] ++ le32_bytes 1 ++ le32_bytes 0x400001 ++ le32_bytes 52 ++ le32_bytes 0 ++ le32_bytes 0 ++
  [52; 0; 32; 0; 2; 0; 0; 0; 0; 0; 0; 0] ++
  concat (le32_bytes <$> [1; 136; 0x400000; 0; 4; 6; 5; 4096]) ++
  concat (le32_bytes <$> [4; 116; 0; 0; 20; 20; 4; 4]) ++
  concat (le32_bytes <$> [4; 4; 1]) ++ [90; 75; 84; 0] ++ le32_bytes 2 ++ [0x90; 0x90; 0xeb; 0xfc].

Definition example_space : umem machine := Umem example_machine (λ _, 170).

Lemma example_uowns : uowns (env example_space) ∅ ∅.
Proof.
  constructor; try (intros; by rewrite lookup_empty in * ).
  - exists ∅. split_and!; [apply example_machine_owns|done|]. intros va f b. by rewrite lookup_empty.
  - intros va [_ Hva]. rewrite lookup_empty. change (env example_space) with example_machine. unfold entry_at, pte_word. cbn [mem example_machine].
    assert (0 ≤ pd_index_of va < 768) as Hi by (rewrite pd_index_div; unfold KERNEL_VIRT_BASE in Hva; dlia).
    change (apd example_machine) with example_kpd. rewrite !(proj2 (Z.eqb_neq _ _)) by lia. done.
Qed.

Lemma example_bytes : Forall is_byte example_image.
Proof. unfold is_byte. repeat (apply Forall_cons_2; [vm_compute; split; [discriminate|reflexivity]|]). apply Forall_nil_2. Qed.

Lemma elf_load_safe_witness : ∃ st' r M, elf_load example_image example_space = Ok (st', r) ∧ uowns (env st') ∅ M ∧
  apart_from_image ∅ M (bytes example_space) (bytes st').
Proof.
  destruct (elf_load_safe example_image ∅ ∅ example_space example_bytes example_uowns) as (st' & r & M & H1 & H2 & H3 & _).
  exists st', r, M. exact (conj H1 (conj H2 H3)).
Defined.



(** A process without a heap yet. *)
Definition example_process : process := Process 0x401000 0x401000.

Lemma example_heap : heap_of example_process ∅.
Proof. split; [cbn; lia|done|intros va Hva|intros va f b _; by rewrite lookup_empty|by intros; rewrite lookup_empty]. replace (page_up _) with 0x401000 in Hva by reflexivity. cbn in Hva. lia. Qed.

Lemma process_sbrk_correct_witness : ∃ st' p' r M', process_sbrk 0 example_space example_process 5000 = Ok (st', p', r) ∧ uowns (env st') ∅ M' ∧ heap_of p' M'.
Proof.
  destruct (process_sbrk_correct 0 example_space ∅ ∅ example_process 5000 example_uowns example_heap) as (st' & p' & r & M' & H1 & H2 & H3 & _); [lia|].
  exists st', p', r, M'. exact (conj H1 (conj H2 H3)).
Defined.
