(* ===== verification/Malloc.v ===== *)
(** * The heap of programs ([libc/malloc.c])

    [malloc], [free], [calloc] and [realloc] over a process whose memory they
    read and write byte by byte and whose break [sbrk] moves ([UserProcess];
    [process_sbrk] keeps its laws). The header of a block is three words in
    memory; an access outside the heap is a [Panic], as is [abort]. Pointers
    are 32-bit numbers. *)
From S2P Require Import Prelude Pmm FrameMapper Paging Abi Elf ElfLoad Sbrk.
Local Open Scope Z_scope.

Abbreviation ALIGN := 16%Z (only parsing).
Abbreviation MALLOC_USED := 0x4D414C55%Z (only parsing).
Abbreviation MALLOC_FREE := 0x4D414C46%Z (only parsing).
Abbreviation GROW_MIN := 16384%Z (only parsing).
Abbreviation INTPTR_MAX := 0x7FFFFFFF%Z (only parsing).
Abbreviation ZKT_ERRNO_MAX := 4095%Z (only parsing).
Abbreviation FAILED := 0xFFFFFFFF%Z (only parsing).

(** ** The process *)

Class UserProcess (E : Type) := {
  heap_start : E → Z;
  heap_end : E → Z;
  load8 : E → Z → outcome Z;
  store8 : E → Z → Z → outcome E;
  sys_sbrk : E → Z → outcome (E * Z)
}.

Class UserProcessLaws (E : Type) `{UserProcess E} := {
  running : E → Prop;
  byte_at : E → Z → Z;
  r_bounds e : running e → 0 < heap_start e ≤ heap_end e ∧ heap_end e ≤ USER_IMAGE_TOP;
  r_byte e a : running e → heap_start e ≤ a < heap_end e → is_byte (byte_at e a);
  r_load e a : running e → heap_start e ≤ a < heap_end e → load8 e a = Ok (byte_at e a);
  r_store e a v : running e → heap_start e ≤ a < heap_end e → is_byte v →
    ∃ e', store8 e a v = Ok e' ∧ running e' ∧ heap_start e' = heap_start e ∧ heap_end e' = heap_end e ∧
      ∀ x, heap_start e ≤ x < heap_end e → byte_at e' x = if x =? a then v else byte_at e x;
  r_sbrk e n : running e → 0 ≤ n < 2 ^ 31 → ∃ e' r, sys_sbrk e n = Ok (e', r) ∧ running e' ∧ heap_start e' = heap_start e ∧
    (∀ x, heap_start e ≤ x < heap_end e → byte_at e' x = byte_at e x) ∧
    (r = signed 32 (heap_end e) ∧ heap_end e' = heap_end e + n ∨ - ZKT_ERRNO_MAX ≤ r < 0 ∧ heap_end e' = heap_end e)
}.

Section memory.
Context {E : Type} `{UserProcess E}.
Implicit Types (e : E).

Definition load32 e (a : Z) : outcome Z :=
  b0 ← load8 e a; b1 ← load8 e (a + 1); b2 ← load8 e (a + 2); b3 ← load8 e (a + 3);
  Ok (b0 + 256 * b1 + 65536 * b2 + 16777216 * b3).

Definition store32 e (a v : Z) : outcome E :=
  e ← store8 e a (v mod 256); e ← store8 e (a + 1) (v / 256 mod 256); e ← store8 e (a + 2) (v / 65536 mod 256);
  store8 e (a + 3) (v / 16777216 mod 256).

(** [memset] and [memcpy] of [libc/string.c]. *)
Fixpoint memset e (dst c : Z) (n : nat) : outcome E :=
  match n with O => Ok e | S n => e ← store8 e dst (u8 c); memset e (dst + 1) c n end.
Fixpoint memcpy e (dst src : Z) (n : nat) : outcome E :=
  match n with O => Ok e | S n => b ← load8 e src; e ← store8 e dst b; memcpy e (dst + 1) (src + 1) n end.
End memory.

(** The fields of the [struct block] at [b]. *)
Abbreviation size e b := (load32 e b) (only parsing).
Abbreviation magic e b := (load32 e (b + 4)) (only parsing).
Abbreviation next e b := (load32 e (b + 8)) (only parsing).
Abbreviation set_size e b v := (store32 e b v) (only parsing).
Abbreviation set_magic e b v := (store32 e (b + 4) v) (only parsing).
Abbreviation set_next e b v := (store32 e (b + 8) v) (only parsing).

Section malloc.
Context {E : Type} `{UserProcess E}.
Implicit Types (e : E).

(** The process, and the two static variables. *)
Record heap := Heap { proc : E; free_list : Z; errno : Z }.

(** Blocks are at least 16 bytes long, so a list of them is no longer than this. *)
Definition list_fuel e : nat := Z.to_nat (heap_end e / 16).

(** [check] and [sbrk] of [libc/syscalls.c]. *)
Definition check (err r : Z) : Z * Z := if u32 r >=? u32 (- ZKT_ERRNO_MAX) then (signed 32 (- r), -1) else (err, r).

Definition sbrk (h : heap) (increment : Z) : outcome (heap * Z) :=
  '(e, r) ← sys_sbrk (proc h) increment;
  let '(err, r) := check (errno h) r in
  Ok (Heap e (free_list h) err, if r =? -1 then FAILED else u32 r).

(** The loop of [insert_free]. *)
Fixpoint find_place (fuel : nat) e (b prev cur : Z) : outcome (Z * Z) :=
  if truth cur && (cur <? b) then
    match fuel with
    | O => NoFuel
    | S fuel => n ← next e cur; find_place fuel e b cur n
    end
  else Ok (prev, cur).

Definition insert_free (h : heap) (b : Z) : outcome heap :=
  e ← set_magic (proc h) b MALLOC_FREE;
  '(prev, cur) ← find_place (list_fuel e) e b 0 (free_list h);
  e ← set_next e b cur;
  e ← (if truth cur then
         bs ← size e b;
         if u32 (b + bs) =? cur then cs ← size e cur; e ← set_size e b (u32 (bs + cs)); cn ← next e cur; set_next e b cn
         else Ok e
       else Ok e);
  if truth prev then
    ps ← size e prev;
    if u32 (prev + ps) =? b then
      bs ← size e b; e ← set_size e prev (u32 (ps + bs)); bn ← next e b; e ← set_next e prev bn; Ok (Heap e (free_list h) (errno h))
    else e ← set_next e prev b; Ok (Heap e (free_list h) (errno h))
  else Ok (Heap e b (errno h)).

Definition grow (h : heap) (need : Z) : outcome (heap * Z) :=
  let bytes := if need <? GROW_MIN then GROW_MIN else need in
  if bytes >? INTPTR_MAX then Ok (h, -1)
  else
    '(h, b) ← sbrk h bytes;
    if b =? FAILED then Ok (h, -1)
    else e ← set_size (proc h) b bytes; h ← insert_free (Heap e (free_list h) (errno h)) b; Ok (h, 0).

(** The search of [malloc]: the first block of at least [need] bytes, and the
    one before it. *)
Fixpoint first_fit (fuel : nat) e (need prev b : Z) : outcome (option (Z * Z)) :=
  if truth b then
    match fuel with
    | O => NoFuel
    | S fuel => bs ← size e b; if bs <? need then n ← next e b; first_fit fuel e need b n else Ok (Some (prev, b))
    end
  else Ok None.

(** Taking [need] bytes of the block found. *)
Definition take_block (h : heap) (need prev b : Z) : outcome heap :=
  let e := proc h in
  bs ← size e b;
  e ← (if u32 (bs - need) >=? 2 * ALIGN then
         let rest := u32 (b + need) in
         e ← set_size e rest (u32 (bs - need)); e ← set_magic e rest MALLOC_FREE; n ← next e b; e ← set_next e rest n;
         e ← set_size e b need; set_next e b rest
       else Ok e);
  n ← next e b;
  '(e, l) ← (if truth prev then e ← set_next e prev n; Ok (e, free_list h) else Ok (e, n));
  e ← set_magic e b MALLOC_USED;
  e ← set_next e b 0;
  Ok (Heap e l (errno h)).

Definition malloc (h : heap) (sz : Z) : outcome (heap * Z) :=
  if sz >? 0xFFFFFFFF / 2 then Ok (Heap (proc h) (free_list h) ENOMEM, 0)
  else
    let sz := if sz =? 0 then 1 else sz in
    let need := Z.land (u32 (u32 (sz + 16 + ALIGN) - 1)) (not32 (ALIGN - 1)) in
    r ← first_fit (list_fuel (proc h)) (proc h) need 0 (free_list h);
    match r with
    | Some (prev, b) => h ← take_block h need prev b; Ok (h, u32 (b + 16))
    | None =>
        '(h, rc) ← grow h need;
        if negb (rc =? 0) then Ok (Heap (proc h) (free_list h) ENOMEM, 0)
        else
          r ← first_fit (list_fuel (proc h)) (proc h) need 0 (free_list h);
          match r with
          | Some (prev, b) => h ← take_block h need prev b; Ok (h, u32 (b + 16))
          | None => Ok (Heap (proc h) (free_list h) ENOMEM, 0)
          end
    end.

Definition header (h : heap) (ptr : Z) : outcome Z :=
  let b := u32 (ptr - 16) in
  if truth (Z.land ptr (ALIGN - 1)) then Panic "abort"
  else m ← magic (proc h) b; if negb (m =? MALLOC_USED) then Panic "abort" else Ok b.

Definition free (h : heap) (ptr : Z) : outcome heap :=
  if truth ptr then b ← header h ptr; insert_free h b else Ok h.

Definition calloc (h : heap) (count sz : Z) : outcome (heap * Z) :=
  if truth sz && (count >? 0xFFFFFFFF / sz) then Ok (Heap (proc h) (free_list h) ENOMEM, 0)
  else
    '(h, p) ← malloc h (u32 (count * sz));
    if truth p then e ← memset (proc h) p 0 (Z.to_nat (u32 (count * sz))); Ok (Heap e (free_list h) (errno h), p)
    else Ok (h, p).

Definition realloc (h : heap) (ptr sz : Z) : outcome (heap * Z) :=
  if negb (truth ptr) then malloc h sz
  else
    let sz := if sz =? 0 then 1 else sz in
    b ← header h ptr;
    bs ← size (proc h) b;
    let have := u32 (bs - 16) in
    if have >=? sz then Ok (h, ptr)
    else
      '(h, p) ← malloc h sz;
      if truth p then
        e ← memcpy (proc h) p ptr (Z.to_nat have);
        h ← free (Heap e (free_list h) (errno h)) ptr;
        Ok (h, p)
      else Ok (h, p).
End malloc.
Arguments heap : clear implicits.
