(* ===== verification/MallocList.v ===== *)
(** * The free list of [malloc]

    The blocks of the free list in memory: their headers, the list the [next]
    fields make, and what [insert_free], the search and [take_block] do to it. *)
From S2P Require Import Prelude Pmm FrameMapper Paging Abi Elf ElfLoad Sbrk Malloc.
Local Open Scope Z_scope.

(** ** Free blocks as a list of addresses and sizes *)

(** The addresses the blocks of [l] cover. *)
Definition cov (l : list (Z * Z)) (x : Z) : Prop := ∃ a s, (a, s) ∈ l ∧ a ≤ x < a + s.

(** In address order from [x] on, no block starting where the one before ends. *)
Fixpoint apart_from (x : Z) (l : list (Z * Z)) : Prop :=
  match l with [] => True | (a, s) :: l => x < a ∧ apart_from (a + s) l end.

Definition head_of (l : list (Z * Z)) : Z := match l with [] => 0 | (a, _) :: _ => a end.
Definition last_of (d : Z) (l : list (Z * Z)) : Z := from_option fst d (last l).

Lemma cov_nil x : ¬ cov [] x.
Proof. by intros (? & ? & ?%not_elem_of_nil & _). Qed.
Lemma cov_cons a s l x : cov ((a, s) :: l) x ↔ a ≤ x < a + s ∨ cov l x.
Proof.
  split.
  - intros (a' & s' & [[= -> ->]|Hin]%elem_of_cons & Hx); [by left|right; by exists a', s'].
  - intros [Hx|(a' & s' & Hin & Hx)]; [exists a, s|exists a', s']; set_solver.
Qed.
Lemma cov_app l1 l2 x : cov (l1 ++ l2) x ↔ cov l1 x ∨ cov l2 x.
Proof. unfold cov. setoid_rewrite elem_of_app. naive_solver. Qed.

Lemma apart_weaken x y l : x ≤ y → apart_from y l → apart_from x l.
Proof. destruct l as [|[a s] l]; [done|]. cbn. intros ? [? ?]. split; [lia|done]. Qed.

Lemma apart_app x l1 l2 : apart_from x (l1 ++ l2) ↔ apart_from x l1 ∧ apart_from (foldl (λ _ b, b.1 + b.2) x l1) l2.
Proof. revert x. induction l1 as [|[a s] l1 IH]; intros x; cbn; [tauto|]. rewrite IH. tauto. Qed.

Lemma apart_above x l a s : apart_from x l → Forall (λ b, 0 ≤ b.2) l → (a, s) ∈ l → x < a.
Proof.
  revert x. induction l as [|[a' s'] l IH]; intros x Ha Hf Hin; [by apply not_elem_of_nil in Hin|]. destruct Ha as [Hx Ha]. inversion_clear Hf as [|? ? Hs Hf'].
  cbn in Hs. apply elem_of_cons in Hin as [[= -> ->]|Hin]; [done|]. pose proof (IH _ Ha Hf' Hin). lia.
Qed.

Lemma apart_before x l1 a s l2 a' s' : apart_from x (l1 ++ (a, s) :: l2) → Forall (λ b, 0 ≤ b.2) (l1 ++ (a, s) :: l2) → (a', s') ∈ l1 → a' + s' < a.
Proof.
  revert x. induction l1 as [|[a0 s0] l1 IH]; intros x Ha Hf Hin; [by apply not_elem_of_nil in Hin|]. destruct Ha as [Hx Ha]. inversion_clear Hf as [|? ? Hs Hf'].
  apply elem_of_cons in Hin as [[= -> ->]|Hin]; [|by eapply IH]. eapply apart_above; [exact Ha|done|]. apply elem_of_app. right. left.
Qed.

(** How many blocks there can be. *)
Lemma apart_length x hi l : apart_from x l → Forall (λ b, 16 ≤ b.2 ∧ b.1 + b.2 ≤ hi) l → l = [] ∨ x + 16 * Z.of_nat (length l) ≤ hi.
Proof.
  revert x. induction l as [|[a s] l IH]; intros x Ha Hf; [by left|right]. destruct Ha as [Hx Ha]. inversion_clear Hf as [|? ? [Hs He] Hf']. cbn in *.
  destruct (IH _ Ha Hf') as [->|Hl]; cbn; lia.
Qed.

(** ** Words and headers *)

Section laws.
Context {E : Type} `{UserProcessLaws E}.
Implicit Types (e : E) (h : heap E) (l : list (Z * Z)).

Definition in_heap e (a n : Z) : Prop := heap_start e ≤ a ∧ a + n ≤ heap_end e.
Definition word e (a : Z) : Z := byte_at e a + 256 * byte_at e (a + 1) + 65536 * byte_at e (a + 2) + 16777216 * byte_at e (a + 3).

(** [e'] is a later state of the same process, with the same heap. *)
Record kept e e' : Prop := { k_running : running e'; k_start : heap_start e' = heap_start e; k_end : heap_end e' = heap_end e }.

Lemma kept_refl e : running e → kept e e.
Proof. by split. Qed.
Lemma kept_trans e e1 e2 : kept e e1 → kept e1 e2 → kept e e2.
Proof. intros [? ? ?] [? ? ?]. split; [done|congruence|congruence]. Qed.
Lemma kept_in e e' a n : kept e e' → in_heap e' a n ↔ in_heap e a n.
Proof. intros [_ Hs He]. unfold in_heap. by rewrite Hs, He. Qed.

Lemma word_range e a : running e → in_heap e a 4 → 0 ≤ word e a < 2 ^ 32.
Proof.
  intros Hr [Hs He]. unfold word. pose proof (r_byte e a Hr ltac:(lia)). pose proof (r_byte e (a + 1) Hr ltac:(lia)).
  pose proof (r_byte e (a + 2) Hr ltac:(lia)). pose proof (r_byte e (a + 3) Hr ltac:(lia)). unfold is_byte in *. lia.
Qed.

Lemma load32_ok e a : running e → in_heap e a 4 → load32 e a = Ok (word e a).
Proof. intros Hr [Hs He]. unfold load32. rewrite !r_load by (done || lia). done. Qed.

Lemma store32_ok e a v : running e → in_heap e a 4 → 0 ≤ v < 2 ^ 32 →
  ∃ e', store32 e a v = Ok e' ∧ kept e e' ∧ word e' a = v ∧ ∀ x, in_heap e x 1 → ¬ (a ≤ x < a + 4) → byte_at e' x = byte_at e x.
Proof.
  intros Hr [Hs He] Hv. unfold store32.
  assert (∀ y, is_byte (y mod 256)) as Hb by (intros; unfold is_byte; dlia).
  destruct (r_store e a (v mod 256)) as (e1 & -> & R1 & S1 & N1 & B1); [done|lia|done|]. cbn [mbind outcome_bind].
  destruct (r_store e1 (a + 1) (v / 256 mod 256)) as (e2 & -> & R2 & S2 & N2 & B2); [done|lia|done|]. cbn [mbind outcome_bind].
  destruct (r_store e2 (a + 2) (v / 65536 mod 256)) as (e3 & -> & R3 & S3 & N3 & B3); [done|lia|done|]. cbn [mbind outcome_bind].
  destruct (r_store e3 (a + 3) (v / 16777216 mod 256)) as (e4 & -> & R4 & S4 & N4 & B4); [done|lia|done|].
  exists e4. split; [done|]. split; [split; [done|lia|lia]|].
  assert (∀ x, in_heap e x 1 → byte_at e4 x = if x =? a + 3 then v / 16777216 mod 256 else if x =? a + 2 then v / 65536 mod 256 else
    if x =? a + 1 then v / 256 mod 256 else if x =? a then v mod 256 else byte_at e x) as Hall.
  { intros x [? ?]. rewrite B4, B3, B2, B1 by lia. done. }
  split.
  - unfold word. rewrite !Hall by (unfold in_heap; lia). rewrite !Z.eqb_refl, !(proj2 (Z.eqb_neq _ _)) by lia. dlia.
  - intros x Hx Hne. rewrite Hall by done. rewrite !(proj2 (Z.eqb_neq _ _)) by lia. done.
Qed.

(** The header at [b]. *)
Record hd := Hd { hsize : Z; hmagic : Z; hnext : Z }.
Definition hdr e (b : Z) : hd := Hd (word e b) (word e (b + 4)) (word e (b + 8)).

(** A place a header can be. *)
Definition place e (b : Z) : Prop := b mod 16 = 0 ∧ in_heap e b 16.

(** Only the header at [b] has changed, to [k]. *)
Record upd e e' (b : Z) (k : hd) : Prop := {
  up_kept : kept e e';
  up_hdr : hdr e' b = k;
  up_same x : in_heap e x 1 → ¬ (b ≤ x < b + 16) → byte_at e' x = byte_at e x
}.

Lemma hdr_same e e' b : in_heap e b 16 → (∀ x, in_heap e x 1 → b ≤ x < b + 16 → byte_at e' x = byte_at e x) → hdr e' b = hdr e b.
Proof. intros [Hs He] Hx. unfold hdr, word. rewrite !Hx by (unfold in_heap; lia). done. Qed.

Lemma upd_other e e' b k b' : upd e e' b k → place e b' → b mod 16 = 0 → b' ≠ b → hdr e' b' = hdr e b'.
Proof. intros [_ _ Hs] [Ha Hi] Hb Hne. apply hdr_same; [done|]. intros x Hx Hr. apply Hs; [done|]. dlia. Qed.

Lemma load_field e b : running e → place e b → size e b = Ok (hsize (hdr e b)) ∧ magic e b = Ok (hmagic (hdr e b)) ∧ next e b = Ok (hnext (hdr e b)).
Proof. intros Hr [_ [? ?]]. rewrite !load32_ok by (done || (unfold in_heap; lia)). done. Qed.

Lemma set_size_ok e b v : running e → place e b → 0 ≤ v < 2 ^ 32 → ∃ e', set_size e b v = Ok e' ∧ upd e e' b (Hd v (hmagic (hdr e b)) (hnext (hdr e b))).
Proof.
  intros Hr [Ha [Hs He]] Hv. destruct (store32_ok e b v) as (e' & -> & Hk & Hw & Hb); [done|unfold in_heap; lia|done|].
  exists e'. split; [done|]. split; [done| |intros x ? ?; apply Hb; [done|lia]]. unfold hdr. rewrite Hw. f_equal; unfold word; by rewrite !Hb by (unfold in_heap; lia).
Qed.
Lemma set_magic_ok e b v : running e → place e b → 0 ≤ v < 2 ^ 32 → ∃ e', set_magic e b v = Ok e' ∧ upd e e' b (Hd (hsize (hdr e b)) v (hnext (hdr e b))).
Proof.
  intros Hr [Ha [Hs He]] Hv. destruct (store32_ok e (b + 4) v) as (e' & -> & Hk & Hw & Hb); [done|unfold in_heap; lia|done|].
  exists e'. split; [done|]. split; [done| |intros x ? ?; apply Hb; [done|lia]]. unfold hdr. rewrite Hw. f_equal; unfold word; by rewrite !Hb by (unfold in_heap; lia).
Qed.
Lemma set_next_ok e b v : running e → place e b → 0 ≤ v < 2 ^ 32 → ∃ e', set_next e b v = Ok e' ∧ upd e e' b (Hd (hsize (hdr e b)) (hmagic (hdr e b)) v).
Proof.
  intros Hr [Ha [Hs He]] Hv. destruct (store32_ok e (b + 8) v) as (e' & -> & Hk & Hw & Hb); [done|unfold in_heap; lia|done|].
  exists e'. split; [done|]. split; [done| |intros x ? ?; apply Hb; [done|lia]]. unfold hdr. rewrite Hw. f_equal; unfold word; by rewrite !Hb by (unfold in_heap; lia).
Qed.

Lemma place_kept e e' b : kept e e' → place e' b ↔ place e b.
Proof. intros Hk. unfold place. by rewrite (kept_in e e'). Qed.

Lemma upd_running e e' b k : upd e e' b k → running e'.
Proof. intros [[? _ _] _ _]. done. Qed.

Lemma upd_place e e' b k b' : upd e e' b k → place e' b' ↔ place e b'.
Proof. intros [? _ _]. by apply place_kept. Qed.

Lemma place_word e b : running e → place e b → b ≠ 0 ∧ 0 < b ∧ b + 16 ≤ USER_IMAGE_TOP.
Proof. intros Hr [_ [? ?]]. pose proof (r_bounds e Hr). lia. Qed.

(** ** Lists of free blocks in memory *)

(** A block, and a free list: from [p], the blocks of [l], up to [q]. *)
Definition block_ok e (b : Z * Z) : Prop := place e b.1 ∧ b.2 mod 16 = 0 ∧ 16 ≤ b.2 ∧ in_heap e b.1 b.2.

Fixpoint seg e (p : Z) l (q : Z) : Prop :=
  match l with
  | [] => p = q
  | (a, s) :: l => p = a ∧ hsize (hdr e a) = s ∧ hmagic (hdr e a) = MALLOC_FREE ∧ seg e (hnext (hdr e a)) l q
  end.

Lemma block_kept e e' b : kept e e' → block_ok e' b ↔ block_ok e b.
Proof. intros Hk. unfold block_ok. by rewrite (place_kept e e'), (kept_in e e'). Qed.

Lemma blocks_kept e e' l : kept e e' → Forall (block_ok e) l → Forall (block_ok e') l.
Proof. intros Hk Hl. eapply Forall_impl; [exact Hl|]. intros b. by rewrite (block_kept e e'). Qed.

Lemma seg_app e p l1 l2 q : seg e p (l1 ++ l2) q ↔ ∃ r, seg e p l1 r ∧ seg e r l2 q.
Proof.
  revert p. induction l1 as [|[a s] l1 IH]; intros p; cbn [seg app]; [split; [by exists p|by intros (? & -> & ?)]|]. rewrite IH. naive_solver.
Qed.

Lemma seg_frame e e' p l q : (∀ a s, (a, s) ∈ l → hdr e' a = hdr e a) → seg e p l q → seg e' p l q.
Proof.
  revert p. induction l as [|[a s] l IH]; intros p Hf; cbn [seg]; [done|]. rewrite (Hf a s) by set_solver. intros (? & ? & ? & ?). split_and!; [done|done|done|].
  apply IH; [|done]. intros a' s' Hin. apply (Hf a' s'). set_solver.
Qed.

Lemma seg_upd e e' b k p l q : upd e e' b k → b mod 16 = 0 → Forall (block_ok e) l → (∀ s, (b, s) ∉ l) → seg e p l q → seg e' p l q.
Proof.
  intros Hu Hb Hl Hn. apply seg_frame. intros a s Hin. rewrite Forall_forall in Hl. destruct (Hl _ Hin) as [Hp _]. apply (upd_other _ _ _ _ _ Hu); [done|done|].
  intros ->. by apply (Hn s).
Qed.

Lemma seg_head e p l : seg e p l 0 → p = head_of l.
Proof. destruct l as [|[a s] l]; [done|]. by intros [-> _]. Qed.

Lemma blocks_size e l : Forall (block_ok e) l → Forall (λ b, 0 ≤ b.2) l.
Proof. intros Hl. eapply Forall_impl; [exact Hl|]. intros b (_ & _ & ? & _). lia. Qed.

Lemma list_short e l : running e → Forall (block_ok e) l → apart_from 0 l → (length l ≤ list_fuel e)%nat.
Proof.
  intros Hr Hl Ha. pose proof (r_bounds e Hr). unfold list_fuel. destruct (apart_length 0 (heap_end e) l) as [->|Hle]; [done| |cbn; lia|].
  - eapply Forall_impl; [exact Hl|]. by intros b (_ & _ & ? & [_ ?]).
  - dlia.
Qed.

Lemma find_place_ok e b fuel l prev cur : running e → Forall (block_ok e) l → seg e cur l 0 → (length l ≤ fuel)%nat →
  ∃ l1 l2, l = l1 ++ l2 ∧ Forall (λ x, x.1 < b) l1 ∧ (l2 = [] ∨ b ≤ head_of l2) ∧ find_place fuel e b prev cur = Ok (last_of prev l1, head_of l2).
Proof.
  intros Hr. revert l prev cur. induction fuel as [|fuel IH]; intros l prev cur Hl Hs Hf; cbn [find_place].
  { destruct l; [|cbn in Hf; lia]. cbn in Hs. subst cur. exists [], []. split_and!; [done|done|by left|done]. }
  destruct l as [|[a s] l]; [cbn in Hs; subst cur; exists [], []; split_and!; [done|done|by left|done]|].
  destruct Hs as (-> & Hsz & Hm & Hs). inversion_clear Hl as [|? ? Hok Hl']. destruct Hok as [Hp Hrest]. destruct (place_word e a Hr Hp) as (Hne & ? & ?).
  rewrite (proj2 (truth_true_iff a) Hne). cbn [andb]. destruct (Z.ltb_spec a b) as [Hlt|Hge].
  - destruct (load_field e a Hr Hp) as (_ & _ & ->). cbn [mbind outcome_bind].
    destruct (IH l a (hnext (hdr e a)) Hl' Hs) as (l1 & l2 & -> & Hl1 & Hl2 & ->); [cbn in Hf; lia|].
    exists ((a, s) :: l1), l2. split_and!; [done|by constructor|done|]. unfold last_of. rewrite last_cons. by destruct (last l1).
  - exists [], ((a, s) :: l). split_and!; [done|done|by right|done].
Qed.

(** ** Inserting a block *)

Lemma block_end e a s : running e → block_ok e (a, s) → 0 < a ∧ 16 ≤ s ∧ a + s ≤ USER_IMAGE_TOP ∧ a mod 16 = 0 ∧ s mod 16 = 0.
Proof. intros Hr ([Ha [? ?]] & ? & ? & [? ?]). cbn in *. pose proof (r_bounds e Hr). split_and!; [lia|lia|lia|done|done]. Qed.

(** Bytes outside [b] have stayed. *)
Definition only_in e e' (P : Z → Prop) : Prop := ∀ x, in_heap e x 1 → ¬ P x → byte_at e' x = byte_at e x.

Lemma only_trans e e1 e2 (P : Z → Prop) : kept e e1 → only_in e e1 P → only_in e1 e2 P → only_in e e2 P.
Proof. intros Hk H1 H2 x Hx Hn. rewrite H2, H1; [done|done|done|by rewrite (kept_in e)|done]. Qed.

Lemma upd_only e e' b k (P : Z → Prop) : upd e e' b k → (∀ x, b ≤ x < b + 16 → P x) → only_in e e' P.
Proof. intros [_ _ Hs] HP x Hx Hn. apply Hs; [done|]. intros Hr. by apply Hn, HP. Qed.

(** Merging the block at [b] with the one behind it. *)
Lemma merge_next e b s l2 : running e → block_ok e (b, s) → Forall (block_ok e) l2 →
  hdr e b = Hd s MALLOC_FREE (head_of l2) → seg e (head_of l2) l2 0 → match l2 with [] => True | (a, cs) :: t => b + s ≤ a ∧ apart_from (a + cs) t end →
  ∃ e2 s' l2', (if truth (head_of l2) then
         bs ← size e b;
         if u32 (b + bs) =? head_of l2 then cs ← size e (head_of l2); e ← set_size e b (u32 (bs + cs)); cn ← next e (head_of l2); set_next e b cn
         else Ok e
       else Ok e) = Ok e2 ∧ kept e e2 ∧ only_in e e2 (λ x, b ≤ x < b + 16) ∧ seg e2 b ((b, s') :: l2') 0 ∧ Forall (block_ok e) ((b, s') :: l2') ∧
    apart_from (b + s') l2' ∧ (∀ x, cov ((b, s') :: l2') x ↔ b ≤ x < b + s ∨ cov l2 x).
Proof.
  intros Hr Hb Hl Hh Hs Hap. pose proof Hb as (Hpb & Hsm & Hs16 & Hin). cbn [fst snd] in *.
  assert (∀ t, seg e (head_of t) t 0 → apart_from (b + s) t → hdr e b = Hd s MALLOC_FREE (head_of t) → seg e b ((b, s) :: t) 0) as Hsame.
  { intros t Ht _ Eh. cbn [seg]. rewrite Eh. by split_and!. }
  destruct l2 as [|[a cs] l2]; cbn [head_of].
  { exists e, s, []. split_and!; [done|by apply kept_refl|by intros x|by apply Hsame|by constructor|done|]. intros x. by rewrite cov_cons. }
  inversion_clear Hl as [|? ? Hok Hl']. pose proof (block_end e b s Hr Hb) as (? & ? & ? & ? & ?). pose proof (block_end e a cs Hr Hok) as (? & ? & ? & ? & ?).
  rewrite (proj2 (truth_true_iff a)) by lia. destruct (load_field e b Hr Hpb) as (-> & _ & _). cbn [mbind outcome_bind]. rewrite Hh. cbn [hsize head_of].
  rewrite u32_small by lia. destruct Hap as [Hle Hap]. destruct (Z.eqb_spec (b + s) a) as [Ead|Hne].
  2:{ exists e, s, ((a, cs) :: l2). split_and!; [done|by apply kept_refl|by intros x|by apply Hsame; [done|split; [lia|done]|]|constructor; [done|by constructor]|split; [lia|done]|].
      intros x. by rewrite cov_cons. }
  destruct Hs as (_ & Hsz & Hm & Hs). destruct Hok as [Hpa Hoka]. cbn [fst snd] in *. destruct (load_field e a Hr Hpa) as (-> & _ & _). cbn [mbind outcome_bind]. rewrite Hsz, u32_small by lia.
  destruct (set_size_ok e b (s + cs) Hr Hpb) as (e1 & -> & U1); [lia|]. cbn [mbind outcome_bind]. pose proof (upd_running _ _ _ _ U1) as R1.
  assert (hdr e1 a = hdr e a) as Ha1 by (apply (upd_other _ _ _ _ _ U1); [done|done|lia]).
  destruct (load_field e1 a R1) as (_ & _ & ->); [by rewrite (upd_place _ _ _ _ _ U1)|]. cbn [mbind outcome_bind]. rewrite Ha1.
  pose proof (word_range e (a + 8) Hr ltac:(destruct Hpa as [_ [? ?]]; unfold in_heap; lia)) as Hw.
  destruct (set_next_ok e1 b (hnext (hdr e a)) R1) as (e2 & -> & U2); [by rewrite (upd_place _ _ _ _ _ U1)|exact Hw|].
  exists e2, (s + cs), l2. assert (block_ok e (b, s + cs)) as Hbig.
  { split_and!; cbn; [done|dlia|lia|]. destruct Hin, Hoka as (_ & _ & [? ?]). cbn in *. unfold in_heap. lia. }
  assert (∀ s', (b, s') ∉ l2) as Hnb.
  { intros s' Hin'. pose proof (apart_above _ _ _ _ Hap (blocks_size _ _ Hl') Hin'). lia. }
  split_and!; [done|eapply kept_trans; [apply U1|apply U2]|eapply only_trans; [apply U1|by eapply upd_only|by eapply upd_only]| |by constructor|by rewrite <- Ead in Hap; rewrite Z.add_assoc|].
  - cbn [seg]. rewrite (up_hdr _ _ _ _ U2), (up_hdr _ _ _ _ U1), Hh. cbn [hsize hmagic hnext]. split_and!; [done|done|done|].
    eapply seg_upd; [exact U2|apply Hpb|eapply blocks_kept; [apply U1|done]|done|]. eapply seg_upd; [exact U1|apply Hpb|done|done|done].
  - intros x. rewrite !cov_cons. assert (b ≤ x < b + (s + cs) ↔ b ≤ x < b + s ∨ a ≤ x < a + cs) as -> by lia. tauto.
Qed.

(** Linking the block at [b] behind the one before it, or merging the two. *)
Lemma link_prev h e b s l1 l2 q : running e → Forall (block_ok e) l1 → Forall (block_ok e) ((b, s) :: l2) → Forall (λ x, x.1 + x.2 ≤ b) l1 →
  seg e (free_list h) l1 q → seg e b ((b, s) :: l2) 0 → apart_from 0 l1 → apart_from (b + s) l2 →
  ∃ h' l', (if truth (last_of 0 l1) then
    ps ← size e (last_of 0 l1);
    if u32 (last_of 0 l1 + ps) =? b then
      bs ← size e b; e ← set_size e (last_of 0 l1) (u32 (ps + bs)); bn ← next e b; e ← set_next e (last_of 0 l1) bn; Ok (Heap e (free_list h) (errno h))
    else e ← set_next e (last_of 0 l1) b; Ok (Heap e (free_list h) (errno h))
  else Ok (Heap e b (errno h))) = Ok h' ∧ errno h' = errno h ∧ kept e (proc h') ∧ only_in e (proc h') (cov l1) ∧
    seg (proc h') (free_list h') l' 0 ∧ Forall (block_ok e) l' ∧ apart_from 0 l' ∧ (∀ x, cov l' x ↔ cov l1 x ∨ cov ((b, s) :: l2) x).
Proof.
  intros Hr Hl1 Hl2 Hbelow Hs1 Hs2 Ha1 Ha2. inversion_clear Hl2 as [|? ? Hb Hl2']. pose proof (block_end e b s Hr Hb) as (Hb0 & ? & ? & ? & ?).
  destruct l1 as [|[pa ps] l1 _] using rev_ind.
  { eexists _, ((b, s) :: l2). cbn [last_of last from_option]. split_and!; [done|done|by apply kept_refl|by intros x|done|by constructor|done|].
    intros x. split; [by right|]. by intros [[]%cov_nil|?]. }
  unfold last_of. rewrite last_snoc. cbn [from_option fst]. apply Forall_app in Hl1 as [Hl1 [Hpa _]%Forall_cons]. apply Forall_app in Hbelow as [Hbelow [Hpb _]%Forall_cons].
  pose proof (block_end e pa ps Hr Hpa) as (? & ? & ? & Hpam & ?). cbn [fst snd] in *. apply seg_app in Hs1 as (r & Hs1 & -> & Hsz & Hm & Hq).
  apply apart_app in Ha1 as [Ha1 [Hlast _]]. pose proof Hpa as [Hpl _]. cbn [fst] in Hpl. assert (∀ s', (pa, s') ∉ l1) as Hnp.
  { intros s' Hin. assert (pa + s' < pa).
    { apply (apart_before 0 l1 pa ps [] pa s'); [by apply apart_app|apply Forall_app; split; [by eapply blocks_size|apply Forall_singleton; cbn; lia]|done]. }
    rewrite Forall_forall in Hl1. destruct (Hl1 _ Hin) as (_ & _ & ? & _). cbn in *. lia. }
  assert (∀ s', (pa, s') ∉ l2) as Hnp2.
  { intros s' Hin. pose proof (apart_above _ _ _ _ Ha2 (blocks_size _ _ Hl2') Hin). lia. }
  assert (∀ e', only_in e e' (λ x, pa ≤ x < pa + 16) → only_in e e' (cov (l1 ++ [(pa, ps)]))) as Honly.
  { intros e' Ho x Hx Hn. apply Ho; [done|]. intros Hx'. apply Hn. rewrite cov_app, cov_cons. right. left. lia. }
  assert (place e b) as Hplb by apply Hb.
  rewrite (proj2 (truth_true_iff pa)) by lia. destruct (load_field e pa Hr Hpl) as (-> & _ & _). cbn [mbind outcome_bind]. rewrite Hsz, u32_small by lia.
  destruct Hs2 as (_ & Hbs & Hbm & Hs2). destruct (Z.eqb_spec (pa + ps) b) as [Ead|Hne].
  - destruct (load_field e b Hr Hplb) as (-> & _ & _). cbn [mbind outcome_bind]. rewrite Hbs, u32_small by lia.
    destruct (set_size_ok e pa (ps + s) Hr Hpl) as (e1 & -> & U1); [lia|]. cbn [mbind outcome_bind]. pose proof (upd_running _ _ _ _ U1) as R1.
    assert (hdr e1 b = hdr e b) as Hb1 by (apply (upd_other _ _ _ _ _ U1); [done|done|lia]).
    destruct (load_field e1 b R1) as (_ & _ & ->); [by rewrite (upd_place _ _ _ _ _ U1)|]. cbn [mbind outcome_bind]. rewrite Hb1.
    pose proof (word_range e (b + 8) Hr ltac:(destruct Hplb as [_ [? ?]]; unfold in_heap; lia)) as Hw.
    destruct (set_next_ok e1 pa (hnext (hdr e b)) R1) as (e2 & -> & U2); [by rewrite (upd_place _ _ _ _ _ U1)|exact Hw|]. cbn [mbind outcome_bind].
    assert (∀ p l r, Forall (block_ok e) l → (∀ s', (pa, s') ∉ l) → seg e p l r → seg e2 p l r) as Hkeep.
    { intros p l r Hl Hn Hsg. eapply seg_upd; [exact U2|done|eapply blocks_kept; [apply U1|done]|done|]. by eapply seg_upd; [exact U1|..]. }
    eexists _, (l1 ++ (pa, ps + s) :: l2). split_and!; [done|done|eapply kept_trans; [apply U1|apply U2]| | | | |].
    + apply Honly. eapply only_trans; [apply U1|by eapply upd_only|by eapply upd_only].
    + cbn [proc free_list]. apply seg_app. exists pa. split; [by apply Hkeep|]. cbn [seg]. rewrite (up_hdr _ _ _ _ U2), (up_hdr _ _ _ _ U1). cbn [hsize hmagic hnext].
      split_and!; [done|done|done|by apply Hkeep].
    + apply Forall_app. split; [done|]. constructor; [|done]. destruct Hpa as (_ & _ & _ & [? ?]), Hb as (_ & _ & _ & [? ?]). cbn in *.
      split_and!; cbn; [done|dlia|lia|unfold in_heap; lia].
    + apply apart_app. split; [done|]. split; [done|]. replace (pa + (ps + s)) with (b + s) by lia. done.
    + intros x. rewrite !cov_app, !cov_cons. assert (pa ≤ x < pa + (ps + s) ↔ pa ≤ x < pa + ps ∨ b ≤ x < b + s) as -> by lia. pose proof (cov_nil x). tauto.
  - destruct (set_next_ok e pa b Hr Hpl) as (e1 & -> & U1); [lia|]. cbn [mbind outcome_bind]. eexists _, (l1 ++ (pa, ps) :: (b, s) :: l2).
    split_and!; [done|done|apply U1|apply Honly; by eapply upd_only| | | |].
    + cbn [proc free_list]. apply seg_app. exists pa. split; [by eapply seg_upd; [exact U1|..]|]. cbn [seg]. rewrite (up_hdr _ _ _ _ U1). cbn [hsize hmagic hnext].
      assert (hdr e1 b = hdr e b) as -> by (apply (upd_other _ _ _ _ _ U1); [done|done|lia]). split_and!; [done|done|done|done|done|done|by eapply seg_upd; [exact U1|..]].
    + apply Forall_app. split; [done|]. constructor; [done|by constructor].
    + apply apart_app. split; [done|]. split; [done|]. split; [lia|done].
    + intros x. rewrite !cov_app, !cov_cons. pose proof (cov_nil x). tauto.
Qed.

(** The free list of [h] is [l]. *)
Record free_blocks h l : Prop := {
  fb_running : running (proc h);
  fb_seg : seg (proc h) (free_list h) l 0;
  fb_ok : Forall (block_ok (proc h)) l;
  fb_apart : apart_from 0 l
}.

Lemma insert_free_ok h b s l : free_blocks h l → block_ok (proc h) (b, s) → hsize (hdr (proc h) b) = s → (∀ x, b ≤ x < b + s → ¬ cov l x) →
  ∃ h' l', insert_free h b = Ok h' ∧ errno h' = errno h ∧ free_blocks h' l' ∧ kept (proc h) (proc h') ∧
    only_in (proc h) (proc h') (λ x, b ≤ x < b + s ∨ cov l x) ∧ (∀ x, cov l' x ↔ b ≤ x < b + s ∨ cov l x) ∧ hmagic (hdr (proc h') b) = MALLOC_FREE.
Proof.
  intros [Hr Hs Hl Ha] Hb Hsz Hdis. pose proof (block_end _ b s Hr Hb) as (Hb0 & ? & ? & Hbm & ?). pose proof Hb as [Hp _]. cbn [fst] in Hp. unfold insert_free.
  destruct (set_magic_ok (proc h) b MALLOC_FREE Hr Hp) as (e1 & -> & U1); [lia|]. cbn [mbind outcome_bind]. pose proof (upd_running _ _ _ _ U1) as R1. pose proof (up_kept _ _ _ _ U1) as K1.
  assert (∀ s', (b, s') ∉ l) as Hnb.
  { intros s' Hin. apply (Hdis b); [lia|]. exists b, s'. split; [done|]. rewrite Forall_forall in Hl. destruct (Hl _ Hin) as (_ & _ & ? & _). cbn in *. lia. }
  pose proof (blocks_kept _ _ _ K1 Hl) as Hl1. pose proof (seg_upd _ _ _ _ _ _ _ U1 Hbm Hl Hnb Hs) as Hs1.
  destruct (find_place_ok e1 b (list_fuel e1) l 0 (free_list h) R1 Hl1 Hs1) as (l1 & l2 & -> & Hlt & Hge & ->); [by apply list_short|]. cbn [mbind outcome_bind].
  apply seg_app in Hs1 as (r & Hs1 & Hs2). pose proof (seg_head _ _ _ Hs2) as ->. apply Forall_app in Hl1 as [Hl1 Hl2].
  assert (∀ a t, (a, t) ∈ l1 ++ l2 → 16 ≤ t) as Ht by (intros a t Hin; rewrite Forall_forall in Hl; by destruct (Hl _ Hin) as (_ & _ & ? & _)).
  assert (0 ≤ head_of l2 < 2 ^ 32) as Hhead.
  { destruct l2 as [|[a t] l2]; [cbn; lia|]. inversion_clear Hl2 as [|? ? Hok _]. pose proof (block_end _ _ _ R1 Hok). cbn. lia. }
  destruct (set_next_ok e1 b (head_of l2) R1) as (e2 & -> & U2); [by rewrite (upd_place _ _ _ _ _ U1)|done|]. cbn [mbind outcome_bind].
  pose proof (upd_running _ _ _ _ U2) as R2. pose proof (kept_trans _ _ _ K1 (up_kept _ _ _ _ U2)) as K2.
  assert (∀ s', (b, s') ∉ l1) as Hnb1 by (intros s' Hin; apply (Hnb s'); set_solver). assert (∀ s', (b, s') ∉ l2) as Hnb2 by (intros s' Hin; apply (Hnb s'); set_solver).
  pose proof (seg_upd _ _ _ _ _ _ _ U2 Hbm Hl2 Hnb2 Hs2) as Hs2'. pose proof (seg_upd _ _ _ _ _ _ _ U2 Hbm Hl1 Hnb1 Hs1) as Hs1'.
  apply (blocks_kept _ _ _ (up_kept _ _ _ _ U2)) in Hl1, Hl2.
  assert (hdr e2 b = Hd s MALLOC_FREE (head_of l2)) as Hh by (rewrite (up_hdr _ _ _ _ U2), (up_hdr _ _ _ _ U1); cbn [hsize hmagic]; by rewrite Hsz).
  pose proof (proj1 (apart_app _ _ _) Ha) as [Ha1 Ha2].
  destruct (merge_next e2 b s l2 R2) as (e3 & s' & l2' & -> & K3 & O3 & S3 & L3 & A3 & C3); [by rewrite (block_kept (proc h))|done|done|done| |].
  { destruct l2 as [|[a t] l2]; [done|]. destruct Hge as [|Hge]; [done|]. destruct Ha2 as [_ Ha2]. split; [|done]. cbn in Hge. destruct (Z_lt_ge_dec a (b + s)); [|lia].
    exfalso. apply (Hdis a); [lia|]. exists a, t. pose proof (Ht a t ltac:(set_solver)). split; [set_solver|lia]. }
  cbn [mbind outcome_bind]. assert (K3' := kept_trans _ _ _ K2 K3). apply (blocks_kept _ _ _ K3) in Hl1, L3.
  assert (seg e3 (free_list h) l1 (head_of l2)) as Hs3.
  { eapply seg_frame; [|exact Hs1']. intros a t Hin. rewrite Forall_forall in Hl. destruct (Hl (a, t)) as [[Ham Hai] _]; [set_solver|]. cbn [fst] in *. apply hdr_same; [by rewrite (kept_in (proc h))|].
    intros x Hx Hx'. apply O3; [done|]. intros Hbx. assert (a = b) by dlia. subst a. by apply (Hnb1 t). }
  destruct (link_prev h e3 b s' l1 l2' (head_of l2)) as (h' & l' & E4 & Err & K4 & O4 & S4 & L4 & A4 & C4); [apply K3|done|done| |done|done|done|done|].
  { rewrite Forall_forall in Hlt |- *. intros [a t] Hin. specialize (Hlt _ Hin). cbn in *. destruct (Z_le_gt_dec (a + t) b); [done|]. exfalso. apply (Hdis b); [lia|].
    exists a, t. split; [set_solver|lia]. }
  exists h', l'. split; [exact E4|]. split; [done|]. assert (K := kept_trans _ _ _ K3' K4). split_and!; [split; [apply K|done|exact (blocks_kept _ _ _ K4 L4)|done]|done| | |].
  - intros x Hx Hn. rewrite O4, O3, (up_same _ _ _ _ U2), (up_same _ _ _ _ U1); [done|done|intros ?; apply Hn; lia|by rewrite (kept_in (proc h))|intros ?; apply Hn; lia|by rewrite (kept_in (proc h))|
      intros ?; apply Hn; lia|by rewrite (kept_in (proc h))|]. intros Hc. apply Hn. right. apply cov_app. by left.
  - intros x. rewrite C4, C3, cov_app. tauto.
  - destruct S3 as (_ & _ & Hm & _). rewrite <- Hm. f_equal. apply hdr_same; [by rewrite (kept_in (proc h)) by done; apply Hp|]. intros x Hx Hbx. apply O4; [done|].
    intros Hc. apply (Hdis x); [lia|]. apply cov_app. by left.
Qed.

(** ** Taking a block *)

Lemma first_fit_ok e need fuel l prev b : running e → Forall (block_ok e) l → seg e b l 0 → (length l ≤ fuel)%nat →
  (∃ l1 a s l2, l = l1 ++ (a, s) :: l2 ∧ need ≤ s ∧ first_fit fuel e need prev b = Ok (Some (last_of prev l1, a))) ∨
  (Forall (λ x, x.2 < need) l ∧ first_fit fuel e need prev b = Ok None).
Proof.
  intros Hr. revert l prev b. induction fuel as [|fuel IH]; intros l prev b Hl Hs Hf; cbn [first_fit].
  { destruct l; [|cbn in Hf; lia]. cbn in Hs. subst b. right. done. }
  destruct l as [|[a s] l]; [cbn in Hs; subst b; by right|]. destruct Hs as (-> & Hsz & _ & Hs). inversion_clear Hl as [|? ? Hok Hl']. destruct Hok as [Hp _]. cbn [fst] in Hp.
  destruct (place_word e a Hr Hp) as (Hne & _). rewrite (proj2 (truth_true_iff a) Hne). destruct (load_field e a Hr Hp) as (-> & _ & ->). cbn [mbind outcome_bind].
  rewrite Hsz. destruct (Z.ltb_spec s need) as [Hlt|Hge].
  - destruct (IH l a (hnext (hdr e a)) Hl' Hs) as [(l1 & a' & s' & l2 & -> & Hn & ->)|[Hall ->]]; [cbn in Hf; lia|left|right; split; [by constructor|done]].
    exists ((a, s) :: l1), a', s', l2. split_and!; [done|done|]. unfold last_of. rewrite last_cons. by destruct (last l1).
  - left. exists [], a, s, l. by split_and!.
Qed.

(** The split of the block found: it keeps [n] bytes, and [l2'] is what follows
    it then. *)
Lemma split_block e b s l2 need q : running e → block_ok e (b, s) → Forall (block_ok e) l2 → hdr e b = Hd s MALLOC_FREE q → seg e q l2 0 → apart_from (b + s) l2 →
  need mod 16 = 0 → 16 ≤ need ≤ s →
  ∃ e' n l2', (if u32 (s - need) >=? 2 * ALIGN then
         e ← set_size e (u32 (b + need)) (u32 (s - need)); e ← set_magic e (u32 (b + need)) MALLOC_FREE; n ← next e b; e ← set_next e (u32 (b + need)) n;
         e ← set_size e b need; set_next e b (u32 (b + need))
       else Ok e) = Ok e' ∧ kept e e' ∧ only_in e e' (λ x, b ≤ x < b + s) ∧ need ≤ n ∧ n mod 16 = 0 ∧ n ≤ s ∧
    hdr e' b = Hd n MALLOC_FREE (head_of l2') ∧ seg e' (head_of l2') l2' 0 ∧ Forall (block_ok e) l2' ∧ apart_from b l2' ∧
    (∀ x, cov ((b, s) :: l2) x ↔ b ≤ x < b + n ∨ cov l2' x) ∧ (∀ x, cov l2' x → b + n ≤ x).
Proof.
  intros Hr Hb Hl Hh Hs Ha Hnm Hn. pose proof (block_end e b s Hr Hb) as (? & ? & ? & Hbm & ?). pose proof Hb as (Hp & _ & _ & [? ?]). cbn [fst snd] in *.
  rewrite u32_small by lia. pose proof (seg_head _ _ _ Hs) as ->. assert (∀ x, cov l2 x → b + s ≤ x) as Hab.
  { intros x (a & t & Hin & Hx). pose proof (apart_above _ _ _ _ Ha (blocks_size _ _ Hl) Hin). lia. }
  rewrite Z.geb_leb. destruct (Z.leb_spec (2 * ALIGN) (s - need)) as [Hbig|Hsmall].
  2:{ exists e, s, l2. split_and!; [done|by apply kept_refl|by intros x|lia|done|lia|done|done|done|eapply apart_weaken; [|exact Ha]; lia|intros x; apply cov_cons|done]. }
  rewrite (u32_small (b + need)) by lia. set (rest := b + need).
  assert (place e rest) as Hpr by (split; [subst rest; dlia|unfold in_heap; subst rest; lia]).
  assert (∀ t, (rest, t) ∉ l2) as Hnr by (intros t Hin; pose proof (apart_above _ _ _ _ Ha (blocks_size _ _ Hl) Hin); subst rest; lia).
  assert (∀ t, (b, t) ∉ l2) as Hnb by (intros t Hin; pose proof (apart_above _ _ _ _ Ha (blocks_size _ _ Hl) Hin); lia).
  assert (rest mod 16 = 0) as Hrm by apply Hpr. assert (b ≠ rest) as Hne by (subst rest; lia).
  assert (0 ≤ head_of l2 < 2 ^ 32) as Hq.
  { destruct l2 as [|[a t] l2]; [cbn; lia|]. inversion_clear Hl as [|? ? Hok _]. pose proof (block_end _ _ _ Hr Hok). cbn. lia. }
  destruct (set_size_ok e rest (s - need) Hr Hpr) as (e1 & -> & U1); [lia|]. cbn [mbind outcome_bind]. pose proof (up_kept _ _ _ _ U1) as K1.
  destruct (set_magic_ok e1 rest MALLOC_FREE) as (e2 & -> & U2); [apply K1|by rewrite (place_kept e)|lia|]. cbn [mbind outcome_bind]. pose proof (kept_trans _ _ _ K1 (up_kept _ _ _ _ U2)) as K2.
  assert (hdr e2 b = hdr e b) as Hb2 by (rewrite (upd_other _ _ _ _ _ U2), (upd_other _ _ _ _ _ U1); [done|done|done|done|by rewrite (place_kept e)|done|done]).
  destruct (load_field e2 b) as (_ & _ & ->); [apply K2|by rewrite (place_kept e)|]. cbn [mbind outcome_bind]. rewrite Hb2, Hh. cbn [hnext].
  destruct (set_next_ok e2 rest (head_of l2)) as (e3 & -> & U3); [apply K2|by rewrite (place_kept e)|done|]. cbn [mbind outcome_bind]. pose proof (kept_trans _ _ _ K2 (up_kept _ _ _ _ U3)) as K3.
  destruct (set_size_ok e3 b need) as (e4 & -> & U4); [apply K3|by rewrite (place_kept e)|lia|]. cbn [mbind outcome_bind]. pose proof (kept_trans _ _ _ K3 (up_kept _ _ _ _ U4)) as K4.
  destruct (set_next_ok e4 b rest) as (e5 & -> & U5); [apply K4|by rewrite (place_kept e)|subst rest; lia|]. pose proof (kept_trans _ _ _ K4 (up_kept _ _ _ _ U5)) as K5.
  assert (hdr e3 b = hdr e b) as Hb3 by (rewrite (upd_other _ _ _ _ _ U3); [done|by rewrite (place_kept e)|done|done]).
  assert (hdr e5 rest = Hd (s - need) MALLOC_FREE (head_of l2)) as Hr5.
  { rewrite (upd_other _ _ _ _ _ U5), (upd_other _ _ _ _ _ U4), (up_hdr _ _ _ _ U3), (up_hdr _ _ _ _ U2), (up_hdr _ _ _ _ U1); [done|by rewrite (place_kept e)|done|done|by rewrite (place_kept e)|done|done]. }
  exists e5, need, ((rest, s - need) :: l2).
  split_and!; [done|done| |lia|done|lia| | | | | |].
  - intros x Hx Hnx. rewrite (up_same _ _ _ _ U5), (up_same _ _ _ _ U4), (up_same _ _ _ _ U3), (up_same _ _ _ _ U2), (up_same _ _ _ _ U1);
      [done|done|subst rest; lia|by rewrite (kept_in e)|subst rest; lia|by rewrite (kept_in e)|subst rest; lia|by rewrite (kept_in e)|lia|by rewrite (kept_in e)|lia].
  - rewrite (up_hdr _ _ _ _ U5), (up_hdr _ _ _ _ U4), Hb3, Hh. done.
  - cbn [seg head_of]. rewrite Hr5. cbn [hsize hmagic hnext]. split_and!; [done|done|done|].
    eapply seg_upd; [exact U5|done|by eapply blocks_kept|done|]. eapply seg_upd; [exact U4|done|by eapply blocks_kept|done|].
    eapply seg_upd; [exact U3|done|by eapply blocks_kept|done|]. eapply seg_upd; [exact U2|done|by eapply blocks_kept|done|]. by eapply seg_upd; [exact U1|..].
  - constructor; [|done]. split_and!; cbn; [done|dlia|lia|unfold in_heap; subst rest; lia].
  - split; [subst rest; lia|]. replace (rest + (s - need)) with (b + s) by (subst rest; lia). done.
  - intros x. rewrite !cov_cons. assert (b ≤ x < b + s ↔ b ≤ x < b + need ∨ rest ≤ x < rest + (s - need)) as -> by (subst rest; lia). tauto.
  - intros x [Hx|Hx%Hab]%cov_cons; subst rest; lia.
Qed.

(** Making the block before point to [q]. *)
Lemma skip_block h e l1 q r : running e → Forall (block_ok e) l1 → seg e (free_list h) l1 r → apart_from 0 l1 → 0 ≤ q < 2 ^ 32 →
  ∃ e' fl, (if truth (last_of 0 l1) then e ← set_next e (last_of 0 l1) q; Ok (e, free_list h) else Ok (e, q)) = Ok (e', fl) ∧
    kept e e' ∧ only_in e e' (cov l1) ∧ seg e' fl l1 q.
Proof.
  intros Hr Hl Hs Ha Hq. destruct l1 as [|[pa ps] l1 _] using rev_ind; [by exists e, q; split_and!; [|apply kept_refl|intros x|]|].
  unfold last_of. rewrite last_snoc. cbn [from_option fst]. pose proof Hl as [Hl1 [Hpa _]%Forall_cons]%Forall_app. pose proof (block_end e pa ps Hr Hpa) as (? & ? & ? & Hpm & ?).
  destruct Hpa as [Hp _]. cbn [fst] in Hp. rewrite (proj2 (truth_true_iff pa)) by lia. destruct (set_next_ok e pa q Hr Hp Hq) as (e1 & -> & U1). cbn [mbind outcome_bind].
  exists e1, (free_list h). split_and!; [done|apply U1|eapply upd_only; [exact U1|]; intros x Hx; rewrite cov_app, cov_cons; lia|].
  apply seg_app in Hs as (r' & Hs & -> & Hsz & Hm & _). apply seg_app. exists pa. split.
  - eapply seg_upd; [exact U1|done|done| |done]. intros s' Hin. pose proof (apart_before 0 l1 pa ps [] pa s' Ha (blocks_size _ _ Hl) Hin).
    rewrite Forall_forall in Hl1. destruct (Hl1 _ Hin) as (_ & _ & ? & _). cbn in *. lia.
  - cbn [seg]. rewrite (up_hdr _ _ _ _ U1). done.
Qed.

Lemma take_block_ok h l1 b s l2 need : free_blocks h (l1 ++ (b, s) :: l2) → need mod 16 = 0 → 16 ≤ need ≤ s →
  ∃ h' l' n, take_block h need (last_of 0 l1) b = Ok h' ∧ errno h' = errno h ∧ free_blocks h' l' ∧ kept (proc h) (proc h') ∧
    only_in (proc h) (proc h') (cov (l1 ++ (b, s) :: l2)) ∧ need ≤ n ∧ block_ok (proc h) (b, n) ∧ hsize (hdr (proc h') b) = n ∧ hmagic (hdr (proc h') b) = MALLOC_USED ∧
    (∀ x, cov (l1 ++ (b, s) :: l2) x ↔ b ≤ x < b + n ∨ cov l' x) ∧ (∀ x, cov l' x → ¬ (b ≤ x < b + n)).
Proof.
  intros [Hr Hs Hl Ha] Hnm Hn. unfold take_block. cbv zeta. apply seg_app in Hs as (r & Hs1 & -> & Hsz & Hm & Hs2). pose proof Hl as [Hl1 [Hb Hl2]%Forall_cons]%Forall_app.
  pose proof (block_end _ b s Hr Hb) as (? & ? & ? & Hbm & ?). pose proof Hb as (Hp & _ & _ & Hin). cbn [fst snd] in *.
  pose proof (proj1 (apart_app _ _ _) Ha) as [Ha1 [Hend Ha2]]. assert (∀ a t, (a, t) ∈ l1 → a + t < b) as Hbefore.
  { intros a t Hat. eapply apart_before; [exact Ha|by eapply blocks_size|done]. }
  destruct (load_field (proc h) b Hr Hp) as (-> & _ & _). cbn [mbind outcome_bind]. rewrite Hsz.
  destruct (split_block (proc h) b s l2 need (hnext (hdr (proc h) b)) Hr Hb Hl2) as (e1 & n & l2' & -> & K1 & O1 & Hnn & Hnm' & Hns & Hh1 & S1 & L1 & A1 & C1 & D1); [by rewrite <- Hsz, <- Hm|done|done|done|done|].
  cbn [mbind outcome_bind]. destruct (load_field e1 b) as (_ & _ & ->); [apply K1|by rewrite (place_kept (proc h))|]. cbn [mbind outcome_bind]. rewrite Hh1. cbn [hnext].
  assert (seg e1 (free_list h) l1 b) as Hs1'.
  { eapply seg_frame; [|exact Hs1]. intros a t Hat. rewrite Forall_forall in Hl1. destruct (Hl1 _ Hat) as ([_ [? ?]] & _ & ? & _). cbn in *. apply hdr_same; [unfold in_heap; lia|].
    intros x Hx Hax. apply O1; [done|]. pose proof (Hbefore a t Hat). lia. }
  assert (0 ≤ head_of l2' < 2 ^ 32) as Hq.
  { destruct l2' as [|[a t] l2']; [cbn; lia|]. inversion_clear L1 as [|? ? Hok _]. pose proof (block_end _ _ _ Hr Hok). cbn. lia. }
  destruct (skip_block h e1 l1 (head_of l2') b) as (e2 & fl & -> & K2 & O2 & S2); [apply K1|by eapply blocks_kept|done|done|done|]. cbn [mbind outcome_bind].
  pose proof (kept_trans _ _ _ K1 K2) as K12.
  destruct (set_magic_ok e2 b MALLOC_USED) as (e3 & -> & U3); [apply K2|by rewrite (place_kept (proc h))|lia|]. cbn [mbind outcome_bind]. pose proof (kept_trans _ _ _ K12 (up_kept _ _ _ _ U3)) as K3.
  destruct (set_next_ok e3 b 0) as (e4 & -> & U4); [apply K3|by rewrite (place_kept (proc h))|lia|]. cbn [mbind outcome_bind]. pose proof (kept_trans _ _ _ K3 (up_kept _ _ _ _ U4)) as K4.
  assert (∀ t, (b, t) ∉ l1 ++ l2') as Hnb.
  { intros t [Hat|Hat]%elem_of_app; [pose proof (Hbefore _ _ Hat); rewrite Forall_forall in Hl1; destruct (Hl1 _ Hat) as (_ & _ & ? & _); cbn in *; lia|].
    pose proof (apart_above _ _ _ _ A1 (blocks_size _ _ L1) Hat). lia. }
  assert (Forall (block_ok (proc h)) (l1 ++ l2')) as HL by (by apply Forall_app).
  assert (hdr e2 b = hdr e1 b) as Hb2.
  { apply hdr_same; [rewrite (kept_in (proc h)) by done; apply Hp|]. intros x Hx Hbx. apply O2; [done|]. intros (a & t & Hat & ?). pose proof (Hbefore _ _ Hat). lia. }
  assert (seg e2 (head_of l2') l2' 0) as S2'.
  { eapply seg_frame; [|exact S1]. intros a t Hat. rewrite Forall_forall in L1. destruct (L1 _ Hat) as ([_ [? ?]] & _ & ? & _). cbn in *. apply hdr_same; [rewrite (kept_in (proc h)) by done; unfold in_heap; lia|].
    intros x Hx Hax. apply O2; [done|]. intros (a' & t' & Hat' & ?). pose proof (Hbefore _ _ Hat'). pose proof (D1 x ltac:(exists a, t; split; [done|lia])). lia. }
  eexists _, (l1 ++ l2'), n. split_and!; [done|done| |done| |done| | | | |]; cbn [proc free_list].
  - split; cbn [proc free_list]; [apply K4| |by eapply blocks_kept|].
    + eapply seg_upd; [exact U4|done|by eapply blocks_kept|done|]. eapply seg_upd; [exact U3|done|by eapply blocks_kept|done|]. apply seg_app. by exists (head_of l2').
    + apply apart_app. split; [done|]. eapply apart_weaken; [|exact A1]. lia.
  - intros x Hx Hnx. rewrite cov_app, cov_cons in Hnx. rewrite (up_same _ _ _ _ U4), (up_same _ _ _ _ U3), O2, O1;
      [done|done|lia|by rewrite (kept_in (proc h))|tauto|by rewrite (kept_in (proc h))|lia|by rewrite (kept_in (proc h))|lia].
  - destruct Hin. split_and!; cbn; [done|done|lia|unfold in_heap; lia].
  - rewrite (up_hdr _ _ _ _ U4), (up_hdr _ _ _ _ U3), Hb2, Hh1. done.
  - rewrite (up_hdr _ _ _ _ U4), (up_hdr _ _ _ _ U3), Hb2, Hh1. done.
  - intros x. rewrite !cov_app, C1. tauto.
  - intros x [(a & t & Hat & ?)|Hx%D1]%cov_app; [pose proof (Hbefore _ _ Hat)|]; lia.
Qed.
End laws.
