(* ===== verification/MallocRun.v ===== *)
(** * [malloc] keeps blocks apart and whole

    The heap as a map from the pointers a program holds to the contents of
    their blocks, and that each call does to the memory what its description
    does to that map. *)
From S2P Require Import Prelude Pmm FrameMapper Paging Abi Elf ElfLoad Sbrk Malloc MallocList.
Local Open Scope Z_scope.

Implicit Types (σ : gmap Z (list Z)) (c : list Z).

(** The addresses of the block at [p] with its header. *)
Definition within (p : Z) c (x : Z) : Prop := p - 16 ≤ x < p + Z.of_nat (length c).

Lemma apart_contains x l b n : apart_from x l → Forall (λ y, 0 ≤ y.2) l → 0 < n → (∀ y, b ≤ y < b + n → cov l y) → ∃ a s, (a, s) ∈ l ∧ a ≤ b ∧ b + n ≤ a + s.
Proof.
  revert x. induction l as [|[a s] l IH]; intros x Ha Hf Hn Hc; [by destruct (cov_nil b (Hc b ltac:(lia)))|]. destruct Ha as [Hx Ha]. inversion_clear Hf as [|? ? Hs Hf']. cbn in Hs.
  assert (∀ y, cov l y → a + s < y) as Habove by (intros y (a' & s' & Hin & ?); pose proof (apart_above _ _ _ _ Ha Hf' Hin); lia).
  destruct (proj1 (cov_cons _ _ _ _) (Hc b ltac:(lia))) as [Hb|Hb%Habove].
  - exists a, s. split; [left|]. split; [lia|]. destruct (Z_le_gt_dec (b + n) (a + s)); [done|].
    destruct (proj1 (cov_cons _ _ _ _) (Hc (a + s) ltac:(lia))) as [|?%Habove]; lia.
  - destruct (IH _ Ha Hf' Hn) as (a' & s' & Hin & ?); [|by exists a', s'; split; [right|]]. intros y Hy. destruct (proj1 (cov_cons _ _ _ _) (Hc y ltac:(lia))); [lia|done].
Qed.

Section laws.
Context {E : Type} `{UserProcessLaws E}.
Implicit Types (e : E) (h : heap E) (l : list (Z * Z)).

(** A block of the program: its header, and the contents [c] behind it. *)
Record used_block e (p : Z) c : Prop := {
  ub_ok : block_ok e (p - 16, 16 + Z.of_nat (length c));
  ub_room : (16 ≤ length c)%nat;
  ub_size : hsize (hdr e (p - 16)) = 16 + Z.of_nat (length c);
  ub_magic : hmagic (hdr e (p - 16)) = MALLOC_USED;
  ub_bytes i v : c !! i = Some v → byte_at e (p + Z.of_nat i) = v
}.

(** The heap holds the blocks of [σ] and the free blocks [l], and nothing else. *)
Record rep h σ l : Prop := {
  rp_free : free_blocks h l;
  rp_used p c : σ !! p = Some c → used_block (proc h) p c;
  rp_apart p c p' c' x : σ !! p = Some c → σ !! p' = Some c' → within p c x → within p' c' x → p = p';
  rp_not_free p c x : σ !! p = Some c → within p c x → ¬ cov l x;
  rp_tiles x : in_heap (proc h) x 1 ↔ cov l x ∨ ∃ p c, σ !! p = Some c ∧ within p c x;
  rp_end : heap_end (proc h) mod 16 = 0
}.

Lemma used_block_end e p c : running e → used_block e p c → 16 < p ∧ p mod 16 = 0 ∧ p + Z.of_nat (length c) ≤ USER_IMAGE_TOP.
Proof. intros Hr [Hok _ _ _ _]. pose proof (block_end _ _ _ Hr Hok) as (? & ? & ? & ? & ?). split_and!; [lia|dlia|lia]. Qed.

Lemma used_frame e e' p c : kept e e' → (∀ x, in_heap e x 1 → within p c x → byte_at e' x = byte_at e x) → used_block e p c → used_block e' p c.
Proof.
  intros Hk Hb [Hok Hge Hs Hm Hc]. pose proof Hok as ([_ Hi] & _ & _ & [? ?]). cbn [fst snd] in *. assert (hdr e' (p - 16) = hdr e (p - 16)) as Hh.
  { apply hdr_same; [done|]. intros x Hx ?. apply Hb; [done|]. unfold within. destruct Hi. lia. }
  split; [by rewrite (block_kept e)|done|by rewrite Hh|by rewrite Hh|]. intros i v Hv. rewrite Hb; [by apply Hc| |]; apply lookup_lt_Some in Hv; unfold in_heap, within; lia.
Qed.

Lemma rep_same h h' σ l : proc h' = proc h → free_list h' = free_list h → rep h σ l → rep h' σ l.
Proof. destruct h, h'. cbn. intros -> -> [[? ? ? ?] ? ? ? ? ?]. done. Qed.

(** ** [free] *)

Lemma header_ok h σ l p c : rep h σ l → σ !! p = Some c → header h p = Ok (p - 16).
Proof.
  intros Hrep Hp. pose proof (rp_used _ _ _ Hrep _ _ Hp) as Hu. pose proof (fb_running _ _ (rp_free _ _ _ Hrep)) as Hr. destruct (used_block_end _ _ _ Hr Hu) as (? & Hm & ?).
  unfold header. cbv zeta. change (ALIGN - 1) with (2 ^ 4 - 1). rewrite land_ones_mod by lia. change (2 ^ 4) with 16. rewrite Hm. cbn [truth negb Z.eqb].
  rewrite u32_small by lia. destruct (load_field (proc h) (p - 16) Hr) as (_ & -> & _); [apply Hu|]. cbn [mbind outcome_bind]. rewrite (ub_magic _ _ _ Hu). done.
Qed.

Lemma free_ok h σ l p c : rep h σ l → σ !! p = Some c →
  ∃ h' l', free h p = Ok h' ∧ rep h' (delete p σ) l' ∧ kept (proc h) (proc h') ∧ errno h' = errno h ∧
    hmagic (hdr (proc h') (p - 16)) = MALLOC_FREE ∧ (∀ x, cov l' x ↔ within p c x ∨ cov l x).
Proof.
  intros Hrep Hp. pose proof Hrep as [Hf Hu Ha Hn Ht He]. pose proof (Hu _ _ Hp) as Hb. destruct (used_block_end _ _ _ (fb_running _ _ Hf) Hb) as (? & ? & ?).
  unfold free. rewrite (proj2 (truth_true_iff p)) by lia. rewrite (header_ok h σ l p c) by done. cbn [mbind outcome_bind].
  assert (∀ x, p - 16 ≤ x < p - 16 + (16 + Z.of_nat (length c)) ↔ within p c x) as Hw by (intros; unfold within; lia).
  destruct (insert_free_ok h (p - 16) (16 + Z.of_nat (length c)) l Hf) as (h' & l' & -> & Herr & Hf' & Hk & Ho & Hc & Hm); [apply Hb|apply Hb|intros x Hx%Hw; by eapply Hn|].
  exists h', l'. assert (∀ x, cov l' x ↔ within p c x ∨ cov l x) as Hc' by (intros; by rewrite Hc, Hw). split_and!; [done| |done|done|done|done]. split; [done| | | | |].
  - intros q d [Hne Hq]%lookup_delete_Some. eapply used_frame; [done| |by apply Hu]. intros x Hx Hwx. apply Ho; [done|]. rewrite Hw. intros [Hx'|Hx']; [|by eapply Hn].
    apply Hne. by eapply Ha.
  - intros q d q' d' x [_ Hq]%lookup_delete_Some [_ Hq']%lookup_delete_Some. by eapply Ha.
  - intros q d x [Hne Hq]%lookup_delete_Some Hx [Hx'|Hx']%Hc'; [|by eapply Hn]. apply Hne. by eapply Ha.
  - intros x. rewrite (kept_in (proc h)), Ht, Hc' by done. split.
    + intros [?|(q & d & Hq & Hx)]; [by left; right|]. destruct (decide (q = p)) as [->|Hne]; [left; left; by simplify_eq|right; exists q, d; by rewrite lookup_delete_ne].
    + intros [[Hx|?]|(q & d & [_ Hq]%lookup_delete_Some & Hx)]; [right; by exists p, c|by left|right; by exists q, d].
  - by rewrite (k_end _ _ Hk).
Qed.

(** ** [malloc] *)

(** The bytes of the memory as a list. *)
Definition bytes_at e (p : Z) (n : nat) : list Z := (λ i, byte_at e (p + Z.of_nat i)) <$> seq 0 n.

Lemma bytes_at_lookup e p n i v : bytes_at e p n !! i = Some v → byte_at e (p + Z.of_nat i) = v.
Proof. unfold bytes_at. intros (j & -> & [-> _]%lookup_seq)%list_lookup_fmap_Some. done. Qed.

Lemma taken_ok h σ l1 b s l2 need : rep h σ (l1 ++ (b, s) :: l2) → need mod 16 = 0 → 32 ≤ need ≤ s →
  ∃ h' l' c, take_block h need (last_of 0 l1) b = Ok h' ∧ rep h' (<[b + 16 := c]> σ) l' ∧ kept (proc h) (proc h') ∧ errno h' = errno h ∧
    σ !! (b + 16) = None ∧ need - 16 ≤ Z.of_nat (length c).
Proof.
  intros [Hf Hu Ha Hn Ht He] Hm Hs. destruct (take_block_ok h l1 b s l2 need Hf Hm) as (h' & l' & n & Et & Herr & Hf' & Hk & Ho & Hnn & Hok & Hsz & Hmg & Hc & Hd); [lia|].
  set (l := l1 ++ (b, s) :: l2) in *. set (c := bytes_at (proc h') (b + 16) (Z.to_nat (n - 16))). exists h', l', c.
  assert (Z.of_nat (length c) = n - 16) as Hlen by (unfold c, bytes_at; rewrite length_fmap, length_seq; lia).
  assert (∀ x, within (b + 16) c x ↔ b ≤ x < b + n) as Hw by (intros x; unfold within; lia).
  assert (∀ p d x, σ !! p = Some d → within p d x → ¬ (b ≤ x < b + n)) as Hold by (intros p d x Hp Hx Hbx; eapply Hn; [done|done|apply Hc; by left]).
  assert (σ !! (b + 16) = None) as Hnew by (destruct (σ !! (b + 16)) as [d|] eqn:Ep; [|done]; destruct (Hold _ _ b Ep); [unfold within|]; lia).
  split_and!; [done| |done|done|done|lia]. split; [done| | | | |].
  - intros p d [[<- <-]|[Hne Hp]]%lookup_insert_Some.
    + assert (b + 16 - 16 = b) as Hb by lia. assert (16 + Z.of_nat (length c) = n) as Hb' by lia.
      split; rewrite ?Hb, ?Hb'; [by rewrite (block_kept (proc h))|lia|done|done|]. intros i v Hv. by apply bytes_at_lookup in Hv.
    + eapply used_frame; [done| |by apply Hu]. intros x Hx Hpx. apply Ho; [done|]. by eapply Hn.
  - intros p d p' d' x [[<- <-]|[Hne Hp]]%lookup_insert_Some [[<- <-]|[Hne' Hp']]%lookup_insert_Some Hx Hx'; [done| | |by eapply Ha].
    + by destruct (Hold _ _ _ Hp' Hx'); apply Hw.
    + by destruct (Hold _ _ _ Hp Hx); apply Hw.
  - intros p d x [[<- <-]|[Hne Hp]]%lookup_insert_Some Hx Hcx; [by apply (Hd x), Hw|]. eapply Hn; [done|done|]. apply Hc. by right.
  - intros x. rewrite (kept_in (proc h)), Ht, Hc by done. split.
    + intros [[Hx|Hx]|(p & d & Hp & Hx)]; [right; exists (b + 16), c; rewrite lookup_insert_eq, Hw; done|by left|].
      right. exists p, d. rewrite lookup_insert_ne; [done|]. intros <-. congruence.
    + intros [Hx|(p & d & [[<- <-]|[_ Hp]]%lookup_insert_Some & Hx)]; [by left; right|left; left; by apply Hw|right; by exists p, d].
  - by rewrite (k_end _ _ Hk).
Qed.

(** A heap that has grown at its end. *)
Record extended e e' : Prop := {
  ex_running : running e';
  ex_start : heap_start e' = heap_start e;
  ex_end : heap_end e ≤ heap_end e';
  ex_bytes x : in_heap e x 1 → byte_at e' x = byte_at e x
}.

Lemma block_extended e e' b : extended e e' → block_ok e b → block_ok e' b.
Proof. intros [_ Hs He _] ([Hm [? ?]] & ? & ? & [? ?]). split_and!; [split; [done|unfold in_heap; lia]|done|done|unfold in_heap; lia]. Qed.

Lemma seg_extended e e' p l q : extended e e' → Forall (block_ok e) l → seg e p l q → seg e' p l q.
Proof.
  intros Hx Hl. apply seg_frame. intros a s Hin. rewrite Forall_forall in Hl. destruct (Hl _ Hin) as ([_ Hi] & _). apply hdr_same; [done|]. intros x Hi' _. by apply (ex_bytes _ _ Hx).
Qed.

Lemma used_extended e e' p c : extended e e' → used_block e p c → used_block e' p c.
Proof.
  intros Hx [Hok Hge Hs Hm Hb]. pose proof Hok as ([_ Hi] & _ & _ & [? ?]). cbn [fst snd] in *. assert (hdr e' (p - 16) = hdr e (p - 16)) as Hh.
  { apply hdr_same; [done|]. intros x Hin _. by apply (ex_bytes _ _ Hx). }
  split; [by eapply block_extended|done|by rewrite Hh|by rewrite Hh|]. intros i v Hv. rewrite (ex_bytes _ _ Hx); [by apply Hb|]. apply lookup_lt_Some in Hv. unfold in_heap. lia.
Qed.

Definition refused e (n : Z) : Prop := ∃ e' r, sys_sbrk e n = Ok (e', r) ∧ - ZKT_ERRNO_MAX ≤ r < 0.

Lemma sbrk_ok h n : running (proc h) → 0 ≤ n < 2 ^ 31 → ∃ h' r, sbrk h n = Ok (h', r) ∧ free_list h' = free_list h ∧ extended (proc h) (proc h') ∧
  (r = heap_end (proc h) ∧ r ≠ FAILED ∧ heap_end (proc h') = heap_end (proc h) + n ∧ errno h' = errno h ∨
   r = FAILED ∧ heap_end (proc h') = heap_end (proc h) ∧ refused (proc h) n).
Proof.
  intros Hr Hn. pose proof (r_bounds _ Hr). destruct (r_sbrk _ n Hr Hn) as (e' & r & Es & Hr' & Hs & Hb & Hcase). unfold sbrk. rewrite Es. cbn [mbind outcome_bind].
  assert (∀ x, in_heap (proc h) x 1 → byte_at e' x = byte_at (proc h) x) as Hb' by (intros x [? ?]; apply Hb; lia). unfold check. rewrite Z.geb_leb. destruct Hcase as [[-> He]|[Hrr He]].
  - assert (u32 (signed 32 (heap_end (proc h))) = heap_end (proc h)) as Hu by (unfold u32, signed; rewrite (Z.mod_small (heap_end (proc h))) by lia; destruct (_ <? _); dlia). rewrite Hu.
    change (u32 (- ZKT_ERRNO_MAX)) with (2 ^ 32 - ZKT_ERRNO_MAX). rewrite (proj2 (Z.leb_gt _ _)) by lia.
    assert (signed 32 (heap_end (proc h)) ≠ -1) as Hm1 by (intros E1; rewrite E1 in Hu; change (u32 (-1)) with (2 ^ 32 - 1) in Hu; lia). rewrite (proj2 (Z.eqb_neq _ _) Hm1).
    eexists _, _. split; [done|]. cbn [free_list proc errno]. split; [done|]. split; [split; [done|done|lia|done]|]. left. split_and!; [done|lia|done|done].
  - assert (u32 r = 2 ^ 32 + r) as -> by (unfold u32; dlia). change (u32 (- ZKT_ERRNO_MAX)) with (2 ^ 32 - ZKT_ERRNO_MAX). rewrite (proj2 (Z.leb_le _ _)) by lia. rewrite Z.eqb_refl.
    eexists _, _. split; [done|]. cbn [free_list proc errno]. split; [done|]. split; [split; [done|done|lia|done]|]. right. split_and!; [done|done|]. by exists e', r.
Qed.

Lemma grow_ok h σ l need : rep h σ l → need mod 16 = 0 → 32 ≤ need →
  ∃ h' rc l', grow h need = Ok (h', rc) ∧ rep h' σ l' ∧
    (rc = 0 ∧ (∃ b n, need ≤ n ∧ ∀ y, b ≤ y < b + n → cov l' y) ∨ rc = -1 ∧ (INTPTR_MAX < need ∨ ∃ n, need ≤ n ∧ refused (proc h) n)).
Proof.
  intros Hrep Hm Hn. pose proof Hrep as [Hf Hu Ha Hnf Ht He]. pose proof (fb_running _ _ Hf) as Hr. pose proof (r_bounds _ Hr) as Hbd. unfold grow. cbv zeta.
  set (n := if need <? GROW_MIN then GROW_MIN else need). assert (need ≤ n ∧ n mod 16 = 0) as [Hnn Hnm] by (unfold n; destruct (Z.ltb_spec need GROW_MIN); split; try done; lia).
  rewrite Z.gtb_ltb. destruct (Z.ltb_spec INTPTR_MAX n) as [Hbig|Hsmall].
  { exists h, (-1), l. split_and!; [done|done|right]. split; [done|left]. unfold n in Hbig. destruct (Z.ltb_spec need GROW_MIN); lia. }
  destruct (sbrk_ok h n Hr) as (h1 & r & -> & Hfl & Hx & Hcase); [lia|]. cbn [mbind outcome_bind]. pose proof (fb_ok _ _ Hf) as Hl.
  assert (free_blocks h1 l) as Hf1.
  { split; [apply Hx|rewrite Hfl; eapply seg_extended; [done|done|apply Hf]| |apply Hf]. eapply Forall_impl; [exact Hl|]. intros b. by apply block_extended. }
  destruct Hcase as [(-> & Hne & Hend & Herr)|(-> & Hend & Href)].
  2:{ rewrite Z.eqb_refl. exists h1, (-1), l. split_and!; [done| |right; split; [done|right; by exists n]]. split; [done| |done|done| |by rewrite Hend].
      - intros p c Hp. eapply used_extended; [done|by apply Hu].
      - intros x. rewrite <- Ht. unfold in_heap. by rewrite (ex_start _ _ Hx), Hend. }
  set (b := heap_end (proc h)) in *. rewrite (proj2 (Z.eqb_neq _ _) Hne). pose proof (r_bounds _ (ex_running _ _ Hx)) as Hbd1.
  assert (block_ok (proc h1) (b, n)) as Hb1.
  { split_and!; cbn; [split; [done|unfold in_heap; rewrite (ex_start _ _ Hx); lia]|done|lia|unfold in_heap; rewrite (ex_start _ _ Hx); lia]. }
  destruct (set_size_ok (proc h1) b n) as (e2 & -> & U2); [apply Hx|apply Hb1|lia|]. cbn [mbind outcome_bind].
  assert (∀ x, b ≤ x < b + n → ¬ cov l x) as Hfresh by (intros x Hbx Hc; assert (in_heap (proc h) x 1) as [? ?] by (apply Ht; by left); lia).
  assert (∀ p c x, σ !! p = Some c → within p c x → in_heap (proc h) x 1) as Hin by (intros p c x Hp Hxx; apply Ht; right; by exists p, c).
  assert (∀ s, (b, s) ∉ l) as Hnb.
  { intros s' Hin'. apply (Hfresh b); [lia|]. exists b, s'. split; [done|]. rewrite Forall_forall in Hl. destruct (Hl _ Hin') as (_ & _ & ? & _). cbn in *. lia. }
  pose proof (up_kept _ _ _ _ U2) as K2.
  destruct (insert_free_ok (Heap e2 (free_list h1) (errno h1)) b n l) as (h' & l' & -> & Herr' & Hf' & Hk & Ho & Hc & _); cbn [proc free_list errno] in *.
  { destruct Hf1 as [? ? ? ?]. split; cbn [proc free_list]; [apply K2|by eapply seg_upd; [exact U2|..]|by eapply blocks_kept|done]. }
  { by rewrite (block_kept (proc h1)). } { by rewrite (up_hdr _ _ _ _ U2). } { done. }
  cbn [mbind outcome_bind]. exists h', 0, l'. assert (K := kept_trans _ _ _ K2 Hk). split_and!; [done| |left; split; [done|]; exists b, n; split; [done|]; intros y Hy; apply Hc; by left].
  split; [done| |done| | |].
  - intros p c Hp. eapply used_frame; [exact K| |by eapply used_extended, Hu]. intros x Hx1 Hpx. assert (¬ (b ≤ x < b + n)) as Hnx by (pose proof (Hin _ _ _ Hp Hpx) as [? ?]; lia).
    rewrite Ho, (up_same _ _ _ _ U2); [done|done|lia|by rewrite (kept_in (proc h1))|]. intros [?|?]; [done|by eapply Hnf].
  - intros p c x Hp Hpx [Hbx|Hcx]%Hc; [pose proof (Hin _ _ _ Hp Hpx) as [? ?]; lia|by eapply Hnf].
  - intros x. rewrite (kept_in (proc h1)) by done. rewrite Hc. assert (in_heap (proc h1) x 1 ↔ b ≤ x < b + n ∨ in_heap (proc h) x 1) as -> by (unfold in_heap; rewrite (ex_start _ _ Hx), Hend; lia).
    rewrite Ht. tauto.
  - rewrite (k_end _ _ K), Hend. dlia.
Qed.

(** What [malloc] rounds a size to. *)
Lemma malloc_need sz : 1 ≤ sz ≤ INTPTR_MAX → let need := Z.land (u32 (u32 (sz + 16 + ALIGN) - 1)) (not32 (ALIGN - 1)) in
  need mod 16 = 0 ∧ sz + 16 ≤ need < sz + 32 ∧ 32 ≤ need.
Proof.
  intros Hs need. assert (need = (sz + 31) / 16 * 16) as ->; [|dlia]. unfold need. rewrite !u32_small by (rewrite ?u32_small; lia). replace (sz + 16 + ALIGN - 1) with (sz + 31) by lia.
  apply (land_not32_mask 4); lia.
Qed.

(** The size of the block a request needs. *)
Definition need_of (sz : Z) : Z := Z.land (u32 (u32 ((if sz =? 0 then 1 else sz) + 16 + ALIGN) - 1)) (not32 (ALIGN - 1)).

Lemma malloc_ok h σ l sz : rep h σ l → 0 ≤ sz < 2 ^ 32 →
  ∃ h' r l', malloc h sz = Ok (h', r) ∧
    (r = 0 ∧ errno h' = ENOMEM ∧ rep h' σ l' ∧ (2 ^ 31 - 32 ≤ sz ∨ Forall (λ x, x.2 < need_of sz) l ∧ ∃ n, sz < n ∧ refused (proc h) n) ∨
     ∃ c, r ≠ 0 ∧ σ !! r = None ∧ sz ≤ Z.of_nat (length c) ∧ rep h' (<[r := c]> σ) l' ∧
       (Forall (λ x, x.2 < need_of sz) l ∨ heap_end (proc h') = heap_end (proc h))).
Proof.
  intros Hrep Hsz. unfold malloc. rewrite Z.gtb_ltb. destruct (Z.ltb_spec (0xFFFFFFFF / 2) sz) as [Hbig|Hle].
  { eexists _, _, l. split; [done|left]. split_and!; [done|done|by apply (rep_same h)|left]. change (0xFFFFFFFF / 2) with INTPTR_MAX in Hbig. lia. }
  change (0xFFFFFFFF / 2) with INTPTR_MAX in Hle. cbv zeta. fold (need_of sz). assert (need_of sz mod 16 = 0 ∧ sz + 16 ≤ need_of sz ≤ sz + 32 ∧ 32 ≤ need_of sz) as (Hm & Hnb & Hn32).
  { unfold need_of. destruct (Z.eqb_spec sz 0) as [->|Hne]; [by vm_compute|]. destruct (malloc_need sz) as (? & ? & ?); [lia|]. split_and!; [done|lia|lia|lia]. }
  (* what follows a search that has found a block *)
  assert (∀ h l l1 b s l2, rep h σ l → l = l1 ++ (b, s) :: l2 → need_of sz ≤ s →
    ∃ h' l' c, (h' ← take_block h (need_of sz) (last_of 0 l1) b; Ok (h', u32 (b + 16))) = Ok (h', b + 16) ∧ b + 16 ≠ 0 ∧ σ !! (b + 16) = None ∧ sz ≤ Z.of_nat (length c) ∧ rep h' (<[b + 16 := c]> σ) l' ∧ heap_end (proc h') = heap_end (proc h)) as Hfound.
  { clear h l Hrep. intros h l l1 b s l2 Hrep -> Hs. destruct (taken_ok h σ l1 b s l2 (need_of sz) Hrep Hm) as (h' & l' & c & -> & Hrep' & Hk & _ & Hnew & Hlen); [lia|].
    cbn [mbind outcome_bind]. destruct (used_block_end _ _ _ (fb_running _ _ (rp_free _ _ _ Hrep')) (rp_used _ _ _ Hrep' (b + 16) c (lookup_insert_eq _ _ _))) as (? & ? & ?).
    exists h', l', c. rewrite u32_small by lia. split_and!; [done|lia|done|lia|done|apply Hk]. }
  pose proof (rp_free _ _ _ Hrep) as [Hr Hs Hl Hap].
  destruct (first_fit_ok (proc h) (need_of sz) (list_fuel (proc h)) l 0 (free_list h) Hr Hl Hs (list_short _ _ Hr Hl Hap)) as [(l1 & b & s & l2 & El & Hbs & ->)|[Hall ->]]; cbn [mbind outcome_bind].
  { destruct (Hfound h l l1 b s l2 Hrep El Hbs) as (h' & l' & c & -> & ? & ? & ? & ? & ?). exists h', (b + 16), l'. split; [done|right]. exists c. split_and!; [done..|by right]. }
  destruct (grow_ok h σ l (need_of sz) Hrep Hm Hn32) as (h1 & rc & l1 & -> & Hrep1 & Hcase). cbn [mbind outcome_bind].
  destruct Hcase as [(-> & b0 & n0 & Hn0 & Hcov)|[-> Hwhy]]; cbn [Z.eqb negb].
  2:{ eexists _, _, l1. split; [done|left]. split_and!; [done|done|by apply (rep_same h1)|]. destruct Hwhy as [?|(n & ? & ?)]; [left; lia|right]. split; [done|]. exists n. split; [lia|done]. }
  pose proof (rp_free _ _ _ Hrep1) as [Hr1 Hs1 Hl1 Hap1].
  destruct (first_fit_ok (proc h1) (need_of sz) (list_fuel (proc h1)) l1 0 (free_list h1) Hr1 Hl1 Hs1 (list_short _ _ Hr1 Hl1 Hap1)) as [(k1 & b & s & k2 & El & Hbs & ->)|[Hall1 _]]; cbn [mbind outcome_bind].
  { destruct (Hfound h1 l1 k1 b s k2 Hrep1 El Hbs) as (h' & l' & c & -> & ? & ? & ? & ? & ?). exists h', (b + 16), l'. split; [done|right]. exists c. split_and!; [done..|by left]. }
  exfalso. destruct (apart_contains 0 l1 b0 n0 Hap1 (blocks_size _ _ Hl1)) as (a & s & Hin & ? & ?); [lia|done|]. rewrite Forall_forall in Hall1. specialize (Hall1 _ Hin). cbn in Hall1. lia.
Qed.

(** ** Contents *)

(** Storing a list of bytes. *)
Fixpoint set_bytes e (a : Z) (k : list Z) : outcome E :=
  match k with [] => Ok e | b :: k => e ← store8 e a b; set_bytes e (a + 1) k end.

Lemma set_bytes_ok e a k : running e → in_heap e a (Z.of_nat (length k)) → Forall is_byte k →
  ∃ e', set_bytes e a k = Ok e' ∧ kept e e' ∧ only_in e e' (λ x, a ≤ x < a + Z.of_nat (length k)) ∧ ∀ i v, k !! i = Some v → byte_at e' (a + Z.of_nat i) = v.
Proof.
  revert e a. induction k as [|v k IH]; intros e a Hr [Hs He] Hk; cbn [set_bytes]; [exists e; by split_and!; [|apply kept_refl|intros x|]|].
  inversion_clear Hk as [|? ? Hv Hk']. cbn [length] in *. destruct (r_store e a v) as (e1 & -> & R1 & S1 & N1 & B1); [done|lia|done|]. cbn [mbind outcome_bind].
  assert (kept e e1) as K1 by done. destruct (IH e1 (a + 1) R1) as (e2 & -> & K2 & O2 & B2); [unfold in_heap; lia|done|].
  exists e2. split_and!; [done|by eapply kept_trans| |].
  - intros x Hx Hn. rewrite O2; [|by rewrite (kept_in e)|lia]. destruct Hx. rewrite B1 by lia. by rewrite (proj2 (Z.eqb_neq x a)) by lia.
  - intros [|i] w Hw; cbn in Hw; [|replace (a + Z.of_nat (S i)) with (a + 1 + Z.of_nat i) by lia; by apply B2]. injection Hw as <-.
    rewrite Z.add_0_r, O2 by (rewrite ?(kept_in e) by done; unfold in_heap; lia). rewrite B1 by lia. by rewrite Z.eqb_refl.
Qed.

Lemma memset_bytes e a n : memset e a 0 n = set_bytes e a (replicate n 0).
Proof. revert e a. induction n as [|n IH]; intros e a; cbn [memset set_bytes replicate]; [done|]. change (u8 0) with 0. destruct (store8 e a 0); [apply IH|done|done]. Qed.

Lemma memcpy_bytes e a p k : running e → in_heap e p (Z.of_nat (length k)) → in_heap e a (Z.of_nat (length k)) → Forall is_byte k →
  (a + Z.of_nat (length k) ≤ p ∨ p + Z.of_nat (length k) ≤ a) → (∀ i v, k !! i = Some v → byte_at e (p + Z.of_nat i) = v) → memcpy e a p (length k) = set_bytes e a k.
Proof.
  revert e a p. induction k as [|v k IH]; intros e a p Hr [Hp Hpe] [Ha Hae] Hk Hd Hb; cbn [memcpy set_bytes length] in *; [done|]. inversion_clear Hk as [|? ? Hv Hk'].
  rewrite r_load by (done || lia). cbn [mbind outcome_bind]. pose proof (Hb 0%nat v eq_refl) as Hv0. rewrite Z.add_0_r in Hv0. rewrite Hv0.
  destruct (r_store e a v) as (e1 & -> & R1 & S1 & N1 & B1); [done|lia|done|]. cbn [mbind outcome_bind]. apply IH; [done|unfold in_heap; lia|unfold in_heap; lia|done|lia|].
  intros i w Hw. pose proof (lookup_lt_Some _ _ _ Hw). rewrite B1 by lia. rewrite (proj2 (Z.eqb_neq _ _)) by lia. replace (p + 1 + Z.of_nat i) with (p + Z.of_nat (S i)) by lia. by apply Hb.
Qed.

Lemma contents_bytes e p c : running e → used_block e p c → Forall is_byte c.
Proof.
  intros Hr [(_ & _ & _ & [? ?]) _ _ _ Hb]. cbn [fst snd] in *. apply Forall_lookup. intros i v Hv. rewrite <- (Hb i v Hv). apply lookup_lt_Some in Hv. apply r_byte; [done|lia].
Qed.

(** Writing inside a block. *)
Lemma rep_write h σ l p c e' c' : rep h σ l → σ !! p = Some c → kept (proc h) e' → length c' = length c →
  only_in (proc h) e' (λ x, p ≤ x < p + Z.of_nat (length c)) → (∀ i v, c' !! i = Some v → byte_at e' (p + Z.of_nat i) = v) →
  rep (Heap e' (free_list h) (errno h)) (<[p := c']> σ) l.
Proof.
  intros [[Hr Hs Hl Hap] Hu Ha Hn Ht He] Hp Hk Hlen Ho Hb.
  assert (∀ q d, <[p := c']> σ !! q = Some d → ∃ d0, σ !! q = Some d0 ∧ length d = length d0) as Hdom.
  { intros q d [[<- <-]|[_ Hq]]%lookup_insert_Some; [by exists c|by exists d]. }
  assert (∀ q d d0 x, length d = length d0 → within q d x ↔ within q d0 x) as Hw by (intros q d d0 x El; unfold within; by rewrite El).
  split; cbn [proc free_list]; [split; cbn [proc free_list]; [apply Hk| |by eapply blocks_kept|done]| | | | |].
  - eapply seg_frame; [|exact Hs]. intros a s Hin. rewrite Forall_forall in Hl. destruct (Hl _ Hin) as ([_ Hi] & _ & ? & _). cbn [fst snd] in *. apply hdr_same; [done|].
    intros x Hx Hax. apply Ho; [done|]. intros Hpx. apply (Hn p c x); [exact Hp|unfold within; lia|]. exists a, s. split; [done|lia].
  - intros q d [[<- <-]|[Hne Hq]]%lookup_insert_Some.
    + destruct (Hu _ _ Hp) as [Hok Hge Hsz Hm _]. pose proof Hok as ([_ Hi] & _). cbn [fst] in *. assert (hdr e' (p - 16) = hdr (proc h) (p - 16)) as Hh.
      { apply hdr_same; [done|]. intros x Hx Hpx. apply Ho; [done|]. lia. }
      split; rewrite ?Hh, ?Hlen; [by rewrite (block_kept (proc h))|done..].
    + eapply used_frame; [done| |by apply Hu]. intros x Hx Hqx. apply Ho; [done|]. intros Hpx. apply Hne. eapply Ha; [exact Hp|exact Hq| |exact Hqx]. unfold within. lia.
  - intros q d q' d' x (d0 & Hq & El)%Hdom (d0' & Hq' & El')%Hdom. rewrite (Hw _ _ _ _ El), (Hw _ _ _ _ El'). by eapply Ha.
  - intros q d x (d0 & Hq & El)%Hdom. rewrite (Hw _ _ _ _ El). by eapply Hn.
  - intros x. rewrite (kept_in (proc h)), Ht by done. apply or_iff_compat_l. split.
    + intros (q & d & Hq & Hx). destruct (decide (q = p)) as [->|Hne]; [|exists q, d; by rewrite lookup_insert_ne]. exists p, c'. rewrite lookup_insert_eq.
      split; [done|]. simplify_eq. by rewrite (Hw _ _ c).
    + intros (q & d & (d0 & Hq & El)%Hdom & Hx). exists q, d0. split; [done|]. by rewrite <- (Hw _ d).
  - by rewrite (k_end _ _ Hk).
Qed.

(** Overwriting the first bytes of a block. *)
Lemma fill_ok h σ l p c k : rep h σ l → σ !! p = Some c → Forall is_byte k → (length k ≤ length c)%nat →
  ∃ e', set_bytes (proc h) p k = Ok e' ∧ rep (Heap e' (free_list h) (errno h)) (<[p := k ++ drop (length k) c]> σ) l.
Proof.
  intros Hrep Hp Hk Hlen. pose proof (rp_used _ _ _ Hrep _ _ Hp) as Hu. pose proof (fb_running _ _ (rp_free _ _ _ Hrep)) as Hr. pose proof (ub_ok _ _ _ Hu) as (_ & _ & _ & [? ?]). cbn [fst snd] in *.
  destruct (set_bytes_ok (proc h) p k Hr) as (e' & -> & Hkept & Ho & Hb); [unfold in_heap; lia|done|]. exists e'. split; [done|].
  eapply rep_write; [done|done|done|rewrite length_app, length_drop; lia| |].
  - intros x Hx Hn. apply Ho; [done|]. lia.
  - intros i v [Hv|[Hge Hv]]%lookup_app_Some; [by apply Hb|]. rewrite lookup_drop in Hv. replace (length k + (i - length k))%nat with i in Hv by lia.
    rewrite Ho; [by apply (ub_bytes _ _ _ Hu)| |]; apply lookup_lt_Some in Hv; unfold in_heap; lia.
Qed.

Lemma calloc_ok h σ l count sz : rep h σ l → 0 ≤ count < 2 ^ 32 → 0 ≤ sz < 2 ^ 32 →
  ∃ h' r l', calloc h count sz = Ok (h', r) ∧
    (r = 0 ∧ rep h' σ l' ∨
     ∃ c, r ≠ 0 ∧ σ !! r = None ∧ count * sz ≤ Z.of_nat (length c) ∧ take (Z.to_nat (count * sz)) c = replicate (Z.to_nat (count * sz)) 0 ∧ rep h' (<[r := c]> σ) l').
Proof.
  intros Hrep Hc Hs. unfold calloc. assert (truth sz && (count >? 0xFFFFFFFF / sz) = negb (count * sz <? 2 ^ 32)) as ->.
  { rewrite Z.gtb_ltb. unfold truth. destruct (Z.eqb_spec sz 0) as [->|Hne]; cbn [negb andb]; [by rewrite Z.mul_0_r|].
    pose proof (Z.div_mod 0xFFFFFFFF sz ltac:(lia)). pose proof (Z.mod_pos_bound 0xFFFFFFFF sz ltac:(lia)). destruct (Z.ltb_spec (0xFFFFFFFF / sz) count), (Z.ltb_spec (count * sz) (2 ^ 32)); try done; nia. }
  destruct (Z.ltb_spec (count * sz) (2 ^ 32)) as [Hlt|Hge]; cbn [negb].
  2:{ eexists _, _, l. split; [done|left]. split; [done|by apply (rep_same h)]. }
  rewrite u32_small by nia. destruct (malloc_ok h σ l (count * sz) Hrep) as (h1 & r & l1 & -> & Hcase); [nia|]. cbn [mbind outcome_bind].
  destruct Hcase as [(-> & _ & Hrep1 & _)|(c & Hr0 & Hnew & Hlen & Hrep1 & _)]; [exists h1, 0, l1; split; [done|by left]|].
  rewrite (proj2 (truth_true_iff r) Hr0). set (n := Z.to_nat (count * sz)). assert (n ≤ length c)%nat as Hn by lia.
  destruct (fill_ok h1 _ l1 r c (replicate n 0) Hrep1) as (e' & Ef & Hrep2); [apply lookup_insert_eq|by apply Forall_replicate|by rewrite length_replicate|].
  rewrite memset_bytes, Ef. cbn [mbind outcome_bind]. rewrite length_replicate, insert_insert_eq in Hrep2. eexists _, r, l1. split; [done|right]. eexists. split_and!; [done|done| | |exact Hrep2].
  - rewrite length_app, length_replicate, length_drop. lia.
  - rewrite take_app_le by (rewrite length_replicate; lia). by rewrite take_replicate, Nat.min_id.
Qed.

Lemma realloc_ok h σ l p c sz : rep h σ l → σ !! p = Some c → 0 ≤ sz < 2 ^ 32 →
  ∃ h' r l', realloc h p sz = Ok (h', r) ∧
    (sz ≤ Z.of_nat (length c) ∧ r = p ∧ h' = h ∧ l' = l ∨
     Z.of_nat (length c) < sz ∧ (r = 0 ∧ rep h' σ l' ∨
       ∃ c', r ≠ 0 ∧ σ !! r = None ∧ sz ≤ Z.of_nat (length c') ∧ c `prefix_of` c' ∧ rep h' (<[r := c']> (delete p σ)) l')).
Proof.
  intros Hrep Hp Hs. pose proof (rp_used _ _ _ Hrep _ _ Hp) as Hu. pose proof (fb_running _ _ (rp_free _ _ _ Hrep)) as Hr. destruct (used_block_end _ _ _ Hr Hu) as (? & ? & ?).
  pose proof (ub_ok _ _ _ Hu) as (Hpl & Hlm & Hl16 & [? ?]). cbn [fst snd] in *. assert (Z.of_nat (length c) mod 16 = 0) as Hcm by dlia.
  unfold realloc. rewrite (proj2 (truth_true_iff p)) by lia. cbn [negb]. rewrite (header_ok h σ l p c) by done. cbn [mbind outcome_bind].
  destruct (load_field (proc h) (p - 16) Hr Hpl) as (-> & _ & _). cbn [mbind outcome_bind]. rewrite (ub_size _ _ _ Hu). cbv zeta.
  replace (16 + Z.of_nat (length c) - 16) with (Z.of_nat (length c)) by lia. rewrite u32_small by lia. rewrite Z.geb_leb.
  pose proof (ub_room _ _ _ Hu) as Hroom. destruct (Z.leb_spec (if sz =? 0 then 1 else sz) (Z.of_nat (length c))) as [Hle|Hgt].
  { exists h, p, l. split; [done|left]. split_and!; [destruct (Z.eqb_spec sz 0); lia|done..]. }
  assert (Z.of_nat (length c) < sz) as Hgt' by (destruct (Z.eqb_spec sz 0); lia). rewrite (proj2 (Z.eqb_neq sz 0)) in * by lia.
  destruct (malloc_ok h σ l sz Hrep Hs) as (h1 & r & l1 & -> & Hcase). cbn [mbind outcome_bind].
  destruct Hcase as [(-> & _ & Hrep1 & _)|(d & Hr0 & Hnew & Hlen & Hrep1 & _)]; [exists h1, 0, l1; split; [done|right]; split; [done|by left]|].
  rewrite (proj2 (truth_true_iff r) Hr0), Nat2Z.id. assert (r ≠ p) as Hne by congruence. assert (<[r := d]> σ !! p = Some c) as Hp1 by (by rewrite lookup_insert_ne).
  pose proof (rp_used _ _ _ Hrep1 _ _ Hp1) as Hu1. pose proof (fb_running _ _ (rp_free _ _ _ Hrep1)) as Hr1. pose proof (ub_ok _ _ _ Hu1) as (_ & _ & _ & [? ?]). cbn [fst snd] in *.
  pose proof (rp_used _ _ _ Hrep1 _ _ (lookup_insert_eq σ r d)) as Hur. pose proof (ub_ok _ _ _ Hur) as (_ & _ & _ & [? ?]). cbn [fst snd] in *.
  assert (r + Z.of_nat (length c) ≤ p ∨ p + Z.of_nat (length c) ≤ r) as Hdis.
  { destruct (Z_le_gt_dec (r + Z.of_nat (length c)) p); [by left|]. destruct (Z_le_gt_dec (p + Z.of_nat (length c)) r); [by right|]. destruct Hne.
    apply (rp_apart _ _ _ Hrep1 r d p c (Z.max p r) (lookup_insert_eq σ r d) Hp1); unfold within; lia. }
  rewrite (memcpy_bytes (proc h1) r p c); [|done|unfold in_heap; lia|unfold in_heap; lia|by eapply contents_bytes|done|apply Hu1].
  destruct (fill_ok h1 _ l1 r d c Hrep1) as (e2 & -> & Hrep2); [apply lookup_insert_eq|by eapply contents_bytes|lia|]. rewrite insert_insert_eq in Hrep2. cbn [mbind outcome_bind].
  destruct (free_ok _ _ _ p c Hrep2) as (h3 & l3 & -> & Hrep3 & _); [by rewrite lookup_insert_ne|]. cbn [mbind outcome_bind]. exists h3, r, l3. split; [done|right]. split; [done|right].
  eexists. split_and!; [done|done| | |by rewrite <- delete_insert_ne by done]; [rewrite length_app, length_drop; lia|by apply prefix_app_r].
Qed.
End laws.

(** ** Programs

    A program's next call depends on the calls it has made and their results.
    What a call may do is given on the map of the blocks it holds. *)
Inductive mcall :=
  | MMalloc (sz : Z)
  | MCalloc (count sz : Z)
  | MRealloc (p sz : Z)
  | MFree (p : Z)
  | MWrite (p : Z) (i : nat) (v : Z).

(** The calls a program may make: of a pointer only while it holds it. *)
Definition valid σ (call : mcall) : Prop :=
  match call with
  | MMalloc sz => 0 ≤ sz < 2 ^ 32
  | MCalloc count sz => 0 ≤ count < 2 ^ 32 ∧ 0 ≤ sz < 2 ^ 32
  | MRealloc p sz => (p = 0 ∨ is_Some (σ !! p)) ∧ 0 ≤ sz < 2 ^ 32
  | MFree p => p = 0 ∨ is_Some (σ !! p)
  | MWrite p i v => ∃ c, σ !! p = Some c ∧ (i < length c)%nat ∧ is_byte v
  end.

(** A new block at [r], of at least [n] bytes, whose contents satisfy [P]; or
    NULL. *)
Definition fresh σ (r n : Z) (P : list Z → Prop) σ' σ0 : Prop :=
  r = 0 ∧ σ' = σ ∨ ∃ c, r ≠ 0 ∧ σ !! r = None ∧ n ≤ Z.of_nat (length c) ∧ P c ∧ σ' = <[r := c]> σ0.

Definition meets σ (call : mcall) (r : Z) σ' : Prop :=
  match call with
  | MMalloc sz => fresh σ r sz (λ _, True) σ' σ
  | MCalloc count sz => fresh σ r (count * sz) (λ c, take (Z.to_nat (count * sz)) c = replicate (Z.to_nat (count * sz)) 0) σ' σ
  | MRealloc p sz =>
      match σ !! p with
      | None => fresh σ r sz (λ _, True) σ' σ
      | Some c => if sz <=? Z.of_nat (length c) then r = p ∧ σ' = σ else fresh σ r sz (λ c', c `prefix_of` c') σ' (delete p σ)
      end
  | MFree p => σ' = delete p σ
  | MWrite p i v => σ' = alter (λ c, <[i := v]> c) p σ
  end.

(** The calls of the program [f] with results that are right, and the blocks it
    holds then. *)
Inductive answers (f : list (mcall * Z) → mcall) : list (mcall * Z) → gmap Z (list Z) → Prop :=
  | answers_start : answers f [] ∅
  | answers_call past σ r σ' : answers f past σ → valid σ (f past) → meets σ (f past) r σ' → answers f (past ++ [(f past, r)]) σ'.

(** A program that keeps to the rules whatever right results it gets. *)
Definition careful (f : list (mcall * Z) → mcall) : Prop := ∀ past σ, answers f past σ → valid σ (f past).

Lemma answers_last f past call r σ' : answers f (past ++ [(call, r)]) σ' → call = f past ∧ ∃ σ, answers f past σ ∧ meets σ (f past) r σ'.
Proof. intros Ha. inversion Ha as [En|past0 σ r0 σ0 H1 H2 H3 En]; [by destruct past|]. apply app_inj_tail in En as [-> [= <- <-]]. split; [done|]. by exists σ. Qed.

Lemma answers_none f σ : answers f [] σ → σ = ∅.
Proof. intros Ha. inversion Ha as [|past0 σ0 r0 σ' H1 H2 H3 En]; [done|]. by destruct past0. Qed.

Section programs.
Context {E : Type} `{UserProcess E}.
Definition mstep (h : heap E) (call : mcall) : outcome (heap E * Z) :=
  match call with
  | MMalloc sz => malloc h sz
  | MCalloc count sz => calloc h count sz
  | MRealloc p sz => realloc h p sz
  | MFree p => h ← free h p; Ok (h, 0)
  | MWrite p i v => e ← store8 (proc h) (p + Z.of_nat i) v; Ok (Heap e (free_list h) (errno h), 0)
  end.

Fixpoint play (f : list (mcall * Z) → mcall) (n : nat) (h : heap E) (past : list (mcall * Z)) : outcome (heap E * list (mcall * Z)) :=
  match n with
  | O => Ok (h, past)
  | S n => '(h, r) ← mstep h (f past); play f n h (past ++ [(f past, r)])
  end.
End programs.

Section refinement.
Context {E : Type} `{UserProcessLaws E}.
Implicit Types (e : E) (h : heap E) (l : list (Z * Z)).

Lemma rep_null h σ l : rep h σ l → σ !! 0 = None.
Proof.
  intros Hrep. destruct (σ !! 0) as [c|] eqn:E0; [|done]. destruct (used_block_end _ _ _ (fb_running _ _ (rp_free _ _ _ Hrep)) (rp_used _ _ _ Hrep _ _ E0)). lia.
Qed.

Lemma malloc_fresh h σ l sz : rep h σ l → 0 ≤ sz < 2 ^ 32 → ∃ h' r σ' l', malloc h sz = Ok (h', r) ∧ fresh σ r sz (λ _, True) σ' σ ∧ rep h' σ' l'.
Proof.
  intros Hrep Hs. destruct (malloc_ok h σ l sz Hrep Hs) as (h' & r & l' & Em & [(-> & _ & Hr & _)|(c & ? & ? & ? & Hr & _)]); [exists h', 0, σ, l'|exists h', r, (<[r := c]> σ), l'];
    (split_and!; [done| |done]); [by left|right; by exists c].
Qed.

(** Each call does what its description says. *)
Lemma mstep_ok h σ l call : rep h σ l → valid σ call → ∃ h' r σ' l', mstep h call = Ok (h', r) ∧ meets σ call r σ' ∧ rep h' σ' l'.
Proof.
  intros Hrep Hv. pose proof (rep_null _ _ _ Hrep) as H0'. destruct call as [sz|count sz|p sz|p|p i v]; cbn [mstep meets valid] in *.
  - by apply malloc_fresh with l.
  - destruct Hv as [? ?]. destruct (calloc_ok h σ l count sz) as (h' & r & l' & Em & [(-> & Hr)|(c & ? & ? & ? & ? & Hr)]); [done|done|done|exists h', 0, σ, l'|exists h', r, (<[r := c]> σ), l'];
      (split_and!; [done| |done]); [by left|right; by exists c].
  - destruct Hv as [[->|[c Hp]] Hs]; [rewrite H0'; by apply malloc_fresh with l|]. rewrite Hp. destruct (realloc_ok h σ l p c sz Hrep Hp Hs) as (h' & r & l' & Em & [(Hle & -> & -> & ->)|[Hgt Hcase]]).
    + exists h, p, σ, l. rewrite (proj2 (Z.leb_le _ _)) by done. done.
    + rewrite (proj2 (Z.leb_gt _ _)) by done. destruct Hcase as [(-> & Hr)|(c' & ? & ? & ? & ? & Hr)]; [exists h', 0, σ, l'|exists h', r, (<[r := c']> (delete p σ)), l'];
        (split_and!; [done| |done]); [by left|right; by exists c'].
  - destruct Hv as [->|[c Hp]].
    + exists h, 0, σ, l. split_and!; [done|by rewrite delete_id|done].
    + destruct (free_ok h σ l p c Hrep Hp) as (h' & l' & -> & Hr & _). exists h', 0, (delete p σ), l'. done.
  - destruct Hv as (c & Hp & Hi & Hb). pose proof (rp_used _ _ _ Hrep _ _ Hp) as Hu. pose proof (ub_ok _ _ _ Hu) as (_ & _ & _ & [? ?]). cbn [fst snd] in *.
    destruct (r_store (proc h) (p + Z.of_nat i) v) as (e' & -> & Hr' & Hs & He & Hby); [apply Hrep|lia|done|]. cbn [mbind outcome_bind].
    exists (Heap e' (free_list h) (errno h)), 0, (alter (λ c, <[i := v]> c) p σ), l. split_and!; [done|done|]. assert (alter (λ c, <[i := v]> c) p σ = <[p := <[i := v]> c]> σ) as ->.
    { apply map_eq. intros q. destruct (decide (q = p)) as [->|Hne]; [by rewrite lookup_alter_eq, Hp, lookup_insert_eq|by rewrite lookup_alter_ne, lookup_insert_ne]. }
    eapply rep_write; [done|exact Hp|done|by rewrite length_insert| |].
    + intros x [? ?] Hn. rewrite Hby by lia. by rewrite (proj2 (Z.eqb_neq x (p + Z.of_nat i))) by lia.
    + intros j w [(-> & <- & _)|[Hne Hw]]%list_lookup_insert_Some; [rewrite Hby by lia; by rewrite Z.eqb_refl|]. pose proof (lookup_lt_Some _ _ _ Hw).
      rewrite Hby by lia. rewrite (proj2 (Z.eqb_neq _ _)) by lia. by apply (ub_bytes _ _ _ Hu).
Qed.

(** What the program can tell of its blocks: they are aligned and apart, inside
    the heap, and hold [σ]'s bytes. *)
Record holds h σ : Prop := {
  hl_place p c : σ !! p = Some c → p mod 16 = 0 ∧ heap_start (proc h) + 16 ≤ p ∧ p + Z.of_nat (length c) ≤ heap_end (proc h);
  hl_apart p c p' c' : σ !! p = Some c → σ !! p' = Some c' → p ≠ p' → p + Z.of_nat (length c) ≤ p' ∨ p' + Z.of_nat (length c') ≤ p;
  hl_bytes p c i v : σ !! p = Some c → c !! i = Some v → load8 (proc h) (p + Z.of_nat i) = Ok v
}.

Lemma rep_holds h σ l : rep h σ l → holds h σ.
Proof.
  intros Hrep. pose proof (fb_running _ _ (rp_free _ _ _ Hrep)) as Hr. split.
  - intros p c Hp. pose proof (rp_used _ _ _ Hrep _ _ Hp) as Hu. destruct (used_block_end _ _ _ Hr Hu) as (_ & ? & _). destruct (ub_ok _ _ _ Hu) as (_ & _ & _ & [? ?]). cbn in *. lia.
  - intros p c p' c' Hp Hp' Hne. pose proof (ub_room _ _ _ (rp_used _ _ _ Hrep _ _ Hp)). pose proof (ub_room _ _ _ (rp_used _ _ _ Hrep _ _ Hp')).
    destruct (Z_le_gt_dec (p + Z.of_nat (length c)) p'); [by left|]. destruct (Z_le_gt_dec (p' + Z.of_nat (length c')) p); [by right|]. destruct Hne.
    apply (rp_apart _ _ _ Hrep p c p' c' (Z.max p p')); [done|done|unfold within; lia|unfold within; lia].
  - intros p c i v Hp Hv. pose proof (rp_used _ _ _ Hrep _ _ Hp) as Hu. destruct (ub_ok _ _ _ Hu) as (_ & _ & _ & [? ?]). cbn in *. pose proof (lookup_lt_Some _ _ _ Hv).
    rewrite r_load by (done || lia). by rewrite (ub_bytes _ _ _ Hu i v).
Qed.

Lemma rep_start e err : running e → heap_start e = heap_end e → heap_end e mod 16 = 0 → rep (Heap e 0 err) ∅ [].
Proof.
  intros Hr Hs Hm. split; cbn [proc free_list]; [by split|by intros p c; rewrite lookup_empty|by intros p c ? ? ?; rewrite lookup_empty|by intros p c ?; rewrite lookup_empty| |done].
  intros x. split; [intros [? ?]; lia|]. intros [[]%cov_nil|(p & c & Hp & _)]. by rewrite lookup_empty in Hp.
Qed.

Lemma play_ok f n h σ l past : careful f → rep h σ l → answers f past σ →
  ∃ h' past' σ' l', play f n h past = Ok (h', past ++ past') ∧ length past' = n ∧ answers f (past ++ past') σ' ∧ rep h' σ' l'.
Proof.
  intros Hf. revert h σ l past. induction n as [|n IH]; intros h σ l past Hrep Ha; cbn [play]; [exists h, [], σ, l; rewrite app_nil_r; by split_and!|].
  destruct (mstep_ok h σ l (f past) Hrep (Hf _ _ Ha)) as (h1 & r & σ1 & l1 & -> & Hm & Hrep1). cbn [mbind outcome_bind].
  destruct (IH h1 σ1 l1 (past ++ [(f past, r)]) Hrep1) as (h2 & past' & σ2 & l2 & -> & Hlen & Ha2 & Hrep2); [by econstructor; [exact Ha|by apply Hf|]|].
  rewrite <- app_assoc in *. exists h2, ([(f past, r)] ++ past'), σ2, l2. split_and!; [done|cbn; by f_equal|done|done].
Qed.

(** C7: A program that only uses pointers it holds, and only the bytes it asked
    for, can make any sequence of calls, each depending on the results before:
    every call returns, without touching memory outside the heap and without
    [abort], and the results and the memory are those of a map from pointers to
    contents. [malloc] and [calloc] give NULL or a new block of at least the
    size asked for ([calloc] zeroed, and NULL when the product overflows),
    [realloc] keeps the contents, [free] drops one block, and a write changes
    one byte of one block. At every point the blocks held are 16-byte aligned,
    apart from each other, inside the heap, and their bytes are what was last
    written. *)
Theorem malloc_refines f n e err : running e → heap_start e = heap_end e → heap_end e mod 16 = 0 → careful f →
  ∃ h past σ, play f n (Heap e 0 err) [] = Ok (h, past) ∧ length past = n ∧ answers f past σ ∧ holds h σ.
Proof.
  intros Hr Hs Hm Hf. destruct (play_ok f n _ ∅ [] [] Hf (rep_start e err Hr Hs Hm) (answers_start f)) as (h & past & σ & l & Ep & Hlen & Ha & Hrep).
  exists h, past, σ. split_and!; [done|done|done|by eapply rep_holds].
Qed.

Lemma need_fits sz n : 0 ≤ sz ≤ Z.of_nat n → sz < 2 ^ 31 → Z.of_nat n mod 16 = 0 → (16 ≤ n)%nat → need_of sz ≤ 16 + Z.of_nat n.
Proof.
  intros Hs Hlt Hm Hn. unfold need_of. destruct (Z.eqb_spec sz 0) as [->|Hne]; [change (_ ≤ 16 + Z.of_nat n) with (32 ≤ 16 + Z.of_nat n); lia|].
  destruct (malloc_need sz) as (? & ? & ?); [lia|]. dlia.
Qed.

(** After [free] of a block, freeing it again calls [abort]; and a request
    for up to its size succeeds, out of the memory the heap already has. *)
Theorem free_gives_back h σ l p c sz : rep h σ l → σ !! p = Some c → 0 ≤ sz ≤ Z.of_nat (length c) → sz < 2 ^ 31 - 32 →
  ∃ h1, free h p = Ok h1 ∧ free h1 p = Panic "abort" ∧
    ∃ h2 r, malloc h1 sz = Ok (h2, r) ∧ r ≠ 0 ∧ heap_end (proc h2) = heap_end (proc h).
Proof.
  intros Hrep Hp Hs Hlt. pose proof (rp_used _ _ _ Hrep _ _ Hp) as Hu. pose proof (fb_running _ _ (rp_free _ _ _ Hrep)) as Hr. destruct (used_block_end _ _ _ Hr Hu) as (? & Hpm & ?).
  pose proof (ub_ok _ _ _ Hu) as (Hpl & Hcm & _). pose proof (ub_room _ _ _ Hu). cbn [fst snd] in *.
  destruct (free_ok h σ l p c Hrep Hp) as (h1 & l1 & -> & Hrep1 & He & _ & Hm & Hc). exists h1. split; [done|]. pose proof (rp_free _ _ _ Hrep1) as [Hr1 _ Hl1 Hap1]. split.
  - unfold free. rewrite (proj2 (truth_true_iff p)) by lia. unfold header. cbv zeta. change (ALIGN - 1) with (2 ^ 4 - 1). rewrite land_ones_mod by lia. change (2 ^ 4) with 16.
    rewrite Hpm. cbn [truth negb Z.eqb]. rewrite u32_small by lia. destruct (load_field (proc h1) (p - 16) Hr1) as (_ & -> & _); [|cbn [mbind outcome_bind]; by rewrite Hm].
    by rewrite (place_kept (proc h)).
  - destruct (malloc_ok h1 _ l1 sz Hrep1) as (h2 & r & l2 & Em & Hcase); [lia|]. exists h2, r. rewrite <- (k_end _ _ He).
    destruct (apart_contains 0 l1 (p - 16) (16 + Z.of_nat (length c)) Hap1 (blocks_size _ _ Hl1)) as (a & s & Hin & ? & ?); [lia|intros y Hy; apply Hc; left; unfold within; lia|].
    assert (¬ Forall (λ x, x.2 < need_of sz) l1) as Hfit.
    { rewrite Forall_forall. intros Hall. specialize (Hall _ Hin). cbn in Hall. pose proof (need_fits sz (length c) Hs ltac:(lia) ltac:(dlia) ltac:(done)). lia. }
    destruct Hcase as [(_ & _ & _ & [?|[? _]])|(d & ? & _ & _ & _ & [?|?])]; [lia|done|done|done].
Qed.
End refinement.
