(* ===== verification/MallocOnSbrk.v ===== *)
(** * [malloc] on the kernel

    A process as [process_sbrk] leaves it is a [UserProcess], so the theorems on
    [malloc] hold of programs on it: its heap is the pages up to the break. Then
    an example on the page tables. *)
From S2P Require Import Prelude Pmm FrameMapper Paging Abi Elf ElfLoad Sbrk ElfOnPaging Malloc MallocList MallocRun.
Local Open Scope Z_scope.

Section process.
Context {E : Type} `{UserPagesLaws E}.
Implicit Types (s : umem E * process).

#[export] Instance process_user : UserProcess (umem E * process) := {
  heap_start s := brk_start s.2;
  heap_end s := brk s.2;
  load8 s a := t ← up_translate (env s.1) (page_down a); match t with None => Panic "page fault" | Some _ => Ok (bytes s.1 a) end;
  store8 s a v := st ← put_bytes s.1 a [v]; Ok (st, s.2);
  sys_sbrk s n := '(st, p, r) ← process_sbrk 0 s.1 s.2 n; Ok ((st, p), r)
}.

(** The heap is mapped, and memory holds bytes. *)
Definition process_running s : Prop := ∃ F M, uowns (env s.1) F M ∧ heap_of s.2 M ∧ ∀ x, mapped M x → is_byte (bytes s.1 x).

Lemma heap_mapped p M a : heap_of p M → brk_start p ≤ a < brk p → mapped M a.
Proof.
  intros [Hb Hs Hp _ _] Ha. pose proof (page_up_spec (brk p) ltac:(lia)) as (? & ? & ?). destruct (page_of_range a) as [? ?].
  apply Hp; [|done]. unfold PAGE_SIZE in *. unfold page_of, PAGE_SIZE in *. dlia.
Qed.

Lemma process_bounds s : process_running s → 0 < brk_start s.2 ≤ brk s.2 ∧ brk s.2 ≤ USER_IMAGE_TOP.
Proof. intros (F & M & _ & Hh & _). apply (ho_bounds _ _ Hh). Qed.

Lemma process_byte s a : process_running s → brk_start s.2 ≤ a < brk s.2 → is_byte (bytes s.1 a).
Proof. intros (F & M & _ & Hh & Hby) Ha. apply Hby. by eapply heap_mapped. Qed.

Lemma process_load s a : process_running s → brk_start s.2 ≤ a < brk s.2 → load8 s a = Ok (bytes s.1 a).
Proof.
  intros (F & M & Ho & Hh & _) Ha. pose proof (ho_bounds _ _ Hh). destruct (heap_mapped _ _ _ Hh Ha) as [y Hy]. cbn [load8 process_user].
  rewrite page_down_of by lia. rewrite (u_translate _ F M) by (done || (apply user_page_of; unfold KERNEL_VIRT_BASE; lia)). by rewrite Hy.
Qed.

Lemma process_store s a v : process_running s → brk_start s.2 ≤ a < brk s.2 → is_byte v →
  ∃ s', store8 s a v = Ok s' ∧ process_running s' ∧ brk_start s'.2 = brk_start s.2 ∧ brk s'.2 = brk s.2 ∧
    ∀ x, brk_start s.2 ≤ x < brk s.2 → bytes s'.1 x = if x =? a then v else bytes s.1 x.
Proof.
  intros (F & M & Ho & Hh & Hby) Ha Hv. pose proof (ho_bounds _ _ Hh). cbn [store8 process_user].
  destruct (put_bytes_ok s.1 F M a [v] Ho) as (b & -> & Hb); [lia|unfold KERNEL_VIRT_BASE; cbn; lia|intros x Hx; cbn in Hx; eapply heap_mapped; [done|lia]|].
  cbn [mbind outcome_bind]. assert (∀ x, b x = if x =? a then v else bytes s.1 x) as Hb'.
  { intros x. rewrite Hb. cbn [length]. destruct (Z.eqb_spec x a) as [->|Hne]; [|destruct (Z.leb_spec a x), (Z.ltb_spec x (a + Z.of_nat 1)); try done; lia].
    rewrite (proj2 (Z.leb_le a a)), (proj2 (Z.ltb_lt a _)) by lia. by rewrite Z.sub_diag. }
  eexists. split; [done|]. cbn [fst snd bytes]. split_and!; [|done|done|by intros]. exists F, M. cbn [fst snd env bytes]. split_and!; [done|done|]. intros x Hx. rewrite Hb'. destruct (_ =? _); [done|by apply Hby].
Qed.

Lemma process_grow s n : process_running s → 0 ≤ n < 2 ^ 31 → ∃ s' r, sys_sbrk s n = Ok (s', r) ∧ process_running s' ∧ brk_start s'.2 = brk_start s.2 ∧
  (∀ x, brk_start s.2 ≤ x < brk s.2 → bytes s'.1 x = bytes s.1 x) ∧ (r = signed 32 (brk s.2) ∧ brk s'.2 = brk s.2 + n ∨ - ZKT_ERRNO_MAX ≤ r < 0 ∧ brk s'.2 = brk s.2).
Proof.
  intros (F & M & Ho & Hh & Hby) Hn. pose proof (ho_bounds _ _ Hh). cbn [sys_sbrk process_user].
  destruct (process_sbrk_ok 0 s.1 F M s.2 n Ho Hh ltac:(lia)) as (st' & p' & r & M' & -> & Ho' & Hh' & Heff). cbn [mbind outcome_bind]. exists (st', p'), r. cbn [fst snd]. split; [done|].
  unfold sbrk_effect in Heff. case_decide as Hd; [destruct Heff as [(-> & -> & [Hsame Hz])|(_ & -> & -> & -> & Hx)]|destruct Heff as (-> & -> & -> & ->)].
  - pose proof (page_up_spec (brk s.2) ltac:(lia)) as (Ha & ? & ?). pose proof (page_up_spec (brk s.2 + n) ltac:(lia)) as (Ha' & ? & ?).
    cbn [brk_start brk]. split_and!; [|done| |by left].
    + exists F, M'. cbn [fst snd]. split_and!; [done|done|]. intros x Hx. rewrite Hz. case_bool_decide as Hr; [done|]. apply Hby. unfold mapped in *. rewrite <- Hsame; [done|].
      assert (page_up (brk s.2) ≤ page_up (brk s.2 + n)) by (unfold PAGE_SIZE in *; dlia). rewrite Z.min_l, Z.max_r by done. destruct (page_of_range x). unfold page_of, PAGE_SIZE in *. dlia.
    + intros x Hx. rewrite Hz. by rewrite bool_decide_false by lia.
  - split_and!; [|done| |right; lia]; [exists F, M; cbn [fst snd]; split_and!; [done|done|]; intros x Hm; rewrite Hx by done; by apply Hby|]. intros x Hr. apply Hx. by eapply heap_mapped.
  - split_and!; [by exists F, M|done|done|]. rewrite (proj2 (Z.leb_le 0 n)) by lia. right. lia.
Qed.

#[export] Instance process_user_laws : UserProcessLaws (umem E * process) := {
  running := process_running;
  byte_at s := bytes s.1;
  r_bounds := process_bounds;
  r_byte := process_byte;
  r_load := process_load;
  r_store := process_store;
  r_sbrk := process_grow
}.
End process.

(** ** An example

    A program that asks for ten bytes, writes one, asks for more room, and frees
    the block. *)
Definition example_start : umem machine * process := (example_space, example_process).

Lemma example_running : running example_start.
Proof.
  exists ∅, ∅. split_and!; [apply example_uowns|apply example_heap|]. intros x [y Hy]. by rewrite lookup_empty in Hy.
Qed.

Definition example_program (past : list (mcall * Z)) : mcall :=
  match past with
  | [] => MMalloc 10
  | [(_, r)] => if r =? 0 then MFree 0 else MWrite r 3 7
  | [(_, r); _] => MRealloc r 20
  | [_; _; (_, r)] => MFree r
  | _ => MFree 0
  end.

Lemma example_malloc call r σ : answers example_program [(call, r)] σ → r = 0 ∧ σ = ∅ ∨ r ≠ 0 ∧ ∃ c, σ = {[r := c]} ∧ (10 ≤ length c)%nat.
Proof.
  intros (_ & σ0 & ->%answers_none & Hm)%(answers_last example_program []). cbn in Hm. destruct Hm as [?|(c & ? & _ & ? & _ & ->)]; [by left|right]. split; [done|]. exists c. split; [done|lia].
Qed.

Lemma example_write call r x σ : answers example_program [(call, r); x] σ → r = 0 ∧ σ = ∅ ∨ r ≠ 0 ∧ ∃ c, σ = {[r := c]}.
Proof.
  destruct x as [call' r']. intros (_ & σ0 & Ha%example_malloc & Hm)%(answers_last example_program [(call, r)]). cbn in Hm.
  destruct Ha as [[-> ->]|(Hr & c & -> & _)]; [left; split; [done|]; rewrite Hm; by apply delete_empty|right]. split; [done|]. rewrite (proj2 (Z.eqb_neq r 0)) in Hm by done. cbn in Hm.
  eexists. rewrite Hm. by rewrite alter_singleton_eq.
Qed.

Lemma example_careful : careful example_program.
Proof.
  intros past σ Ha. destruct past as [|[c0 r0] [|x1 [|[c2 r2] [|x3 past]]]]; cbn [example_program].
  - done.
  - apply example_malloc in Ha as [[-> ->]|(Hr & c & -> & Hl)]; [by left|]. rewrite (proj2 (Z.eqb_neq r0 0)) by done. exists c. rewrite lookup_singleton_eq. split_and!; [done|lia|done].
  - split; [|done]. apply example_write in Ha as [[-> _]|(_ & c & ->)]; [by left|right]. rewrite lookup_singleton_eq. by eexists.
  - apply (answers_last example_program [(c0, r0); x1]) in Ha as (_ & σ0 & Ha & Hm). cbn [example_program meets] in Hm. cbn [valid].
    assert (∀ σ1 n P, fresh σ0 r2 n P σ σ1 → r2 = 0 ∨ is_Some (σ !! r2)) as Hf.
    { intros σ1 n P [[-> _]|(c & _ & _ & _ & _ & ->)]; [by left|right]. rewrite lookup_insert_eq. by eexists. }
    destruct (σ0 !! r0) as [c|] eqn:E0; [|by eapply Hf]. destruct (20 <=? _); [destruct Hm as [-> ->]; right; by rewrite E0|by eapply Hf].
  - by left.
Qed.

Lemma malloc_refines_witness : ∃ h past σ, play example_program 4 (Heap example_start 0 0) [] = Ok (h, past) ∧ length past = 4%nat ∧ answers example_program past σ ∧ holds h σ.
Proof. exact (malloc_refines example_program 4 example_start 0 example_running eq_refl eq_refl example_careful). Defined.

(** The pointers it gets on the example machine. *)
Lemma example_results : match play example_program 4 (Heap example_start 0 0) [] with Ok (_, past) => past.*2 | _ => [] end = [0x401010; 0; 0x401030; 0].
Proof. vm_compute. reflexivity. Qed.

Lemma example_pointer : match malloc (Heap example_start 0 0) 10 with Ok (_, r) => r | _ => 0 end = 0x401010.
Proof. vm_compute. reflexivity. Qed.

Lemma free_gives_back_witness : ∃ h σ l p c h1, rep (E := umem machine * process) h σ l ∧ σ !! p = Some c ∧ 10 ≤ Z.of_nat (length c) ∧
  free h p = Ok h1 ∧ free h1 p = Panic "abort" ∧ ∃ h2 r, malloc h1 10 = Ok (h2, r) ∧ r ≠ 0.
Proof.
  destruct (malloc_ok (Heap example_start 0 0) ∅ [] 10 (rep_start example_start 0 example_running eq_refl eq_refl)) as (h & p & l & Em & Hcase); [lia|].
  pose proof example_pointer as Hp. rewrite Em in Hp. destruct Hcase as [(-> & _)|(c & _ & _ & Hc & Hrep & _)]; [discriminate Hp|].
  destruct (free_gives_back h (<[p := c]> ∅) l p c 10 Hrep (lookup_insert_eq _ _ _)) as (h1 & H1 & H2 & h2 & r & H3 & H4 & _); [split; [discriminate|exact Hc]|reflexivity|].
  exists h, (<[p := c]> ∅), l, p, c, h1. split; [exact Hrep|]. split; [apply lookup_insert_eq|]. split; [exact Hc|]. split; [exact H1|]. split; [exact H2|].
  exists h2, r. exact (conj H3 H4).
Defined.
